(* ===== verification/_CoqProject ===== *)
-Q . S2P
Prelude.v
Fold.v
Counter.v
Outcome.v
Latch.v
LatchInv.v
LatchSteps.v
LatchProps.v
Swip.v
LockTable.v
BTreeNode.v
FreeList.v
Partition.v
BufferManager.v
BufferManagerInv.v
BufferManagerProps.v
PageIDs.v
PageProvider.v
Paging.v
PagingSteps.v
ProviderSteps.v
PagingProps.v
BTreeNodeSearch.v
BTreeNodeSpace.v
BTreeNodeOps.v
BTreeNodeSplit.v
BTreeNodeMerge.v
BTreeInterface.v
BTree.v
BTreeIterator.v
BTreeShape.v
BTreePath.v
BTreeContents.v
BTreeLookup.v
BTreeSplit.v
BTreeRoom.v
BTreeTrySplit.v
BTreeInsert.v
BTreeMerge.v
BTreeRemove.v
BTreeScan.v
BTreeProps.v
BTreeFailures.v
TwoBTree.v
TwoBTreeInv.v
TwoBTreeOps.v
TwoBTreeProps.v
TwoBTreeScan.v
BTreeAdapter.v
LinearHashingNode.v
LinearHashing.v
LinearHashingInv.v
LinearHashingOps.v
LinearHashingSplit.v
LinearHashingGrow.v
LinearHashingRefine.v
LinearHashingScan.v
LinearHashingProps.v
HashInterface.v
LinearHashingTable.v
HashAdapter.v
TwoHash.v
TwoHashInv.v
TwoHashEvict.v
TwoHashWalk.v
TwoHashOps.v
TwoHashAll.v
TwoHashProps.v
HeapPage.v
HeapFile.v
HeapFileInv.v
HeapFileSteps.v
HeapFileOps.v
HeapFileScan.v
HeapFileProps.v
HeapFileLivelock.v
IndexedHeapFile.v
