(* ===== verification/Prelude.v ===== *)
(** * A verification of the 2-Tree storage engine

    The program (under src/backend/) keeps records in two B-trees, a hot one
    meant to stay in memory and a cold one on disk, and moves records between
    them; the trees are LeanStore B-trees of slotted pages.  Its parts, from the
    bottom up, and the files that model them:

    - machine integers, byte strings and their order: this file;
    - key folding (leanstore/BTreeAdapter.hpp, [fold]/[unfold]): Fold;
    - per-core counters (common/DistributedCounter.hpp): Counter;
    - what a call can come to, a result, want of room or a failed assertion, as a
      monad for the hash and heap files: Outcome;
    - the per-key lock table (LockManager/LockManager.hpp): LockTable, with a
      Module for the optimistic and one for the pessimistic guards, each a step
      relation over the words' atomic accesses;
    - the hybrid latch and its guards (sync-primitives/Latch.hpp and
      PlainGuard.hpp): Latch holds the operations, one atomic access at a time,
      and the executions of any number of guards, LatchInv the invariant,
      LatchSteps that every step keeps it, LatchProps what it guarantees;
    - swips (buffer-manager/Swip.hpp): Swip;
    - the free list of frames (buffer-manager/FreeList.cpp): FreeList, a step
      per access to the head and the links;
    - partitions (buffer-manager/Partition.hpp and .cpp): Partition, the hash
      table of reads in flight and the page identifiers;
    - the buffer manager (buffer-manager/BufferManager.hpp and .cpp):
      BufferManager holds allocation, reclamation and resolveSwip,
      BufferManagerInv its invariant, BufferManagerProps and PageIDs what it
      guarantees;
    - the page provider (buffer-manager/PageProviderThread.cpp and
      AsyncWriteBuffer.cpp): PageProvider; the workers' page guards
      (sync-primitives/PageGuard.hpp) and the invariant of both: Paging, with
      PagingSteps, ProviderSteps and PagingProps;
    - the slotted page (btree/core/BTreeNode.hpp and .cpp): BTreeNode holds the
      definitions, record for record and byte for byte; BTreeNodeSearch the
      optimised search, BTreeNodeSpace the heap, BTreeNodeOps search, insertion,
      removal and compaction, BTreeNodeSplit and BTreeNodeMerge split and merge;
    - the B-tree interface (btree/core/BTreeInterface.hpp): BTreeInterface, a
      type class of operations, a class of laws (the contract its callers rely
      on) and a reference instance;
    - the B-tree of pages (btree/core/BTreeGeneric.hpp and .cpp): BTree holds
      descent, findParent, trySplit, tryMerge and the traversals over a map from
      frame addresses to pages;
    - its iterators and operations (btree/core/BTreeGenericIterator.hpp and
      btree/BTreeLL.cpp): BTreeIterator;
    - what they guarantee: BTreeShape (the tree a root swip stands for and its
      invariant), BTreePath (paths as contexts), BTreeContents (bindings),
      BTreeLookup, BTreeSplit, BTreeRoom (how much room a split makes),
      BTreeTrySplit, BTreeInsert, BTreeMerge, BTreeRemove, BTreeScan, and the
      properties in BTreeProps and BTreeFailures;
    - the two-tree adapter (twotree/ConcurrentTwoBTree.hpp): TwoBTree holds
      eviction, lookup, insert, update, put and remove over any instance of the
      interface, TwoBTreeInv the invariant, TwoBTreeOps one lemma group per
      operation, TwoBTreeProps the properties, TwoBTreeScan the range scan.
    - the linear hash table (hashing/LinearHashing.hpp and .cpp):
      LinearHashingNode holds its page, LinearHashing the split pointer, the
      directory and every operation, LinearHashingInv the invariant (chains of
      pages, addresses, rounds), LinearHashingOps the changes within a bucket,
      LinearHashingSplit and LinearHashingGrow the split, LinearHashingRefine
      the table as a finite map, LinearHashingScan creation, iteration and the
      buffer manager's callbacks, LinearHashingProps the properties;
    - the adapters over one tree (leanstore/BTreeAdapter.hpp) and over one hash
      table (hash/HashAdapter.hpp): BTreeAdapter and HashAdapter;
    - what the hash adapters call of a table: HashInterface, a type class of
      operations and a class of laws, with the linear hash table as its instance
      in LinearHashingTable;
    - the two-hash adapter (twohash/TwoHash.hpp): TwoHash holds the operations
      over any two tables of the interface and both eviction clocks, TwoHashInv
      the invariant and the helpers, TwoHashEvict the walk by buckets,
      TwoHashWalk the walk by records, TwoHashOps one lemma group per operation,
      TwoHashAll evict_all, TwoHashProps the properties;
    - heap files (heap/HeapFile.hpp and .cpp): HeapPage holds the page, HeapFile
      the directory, the search for space and every operation, HeapFileInv the
      invariant, HeapFileSteps and HeapFileOps one lemma group per operation,
      HeapFileScan the scan, HeapFileProps the file as a map, HeapFileLivelock
      an insertion that never ends, IndexedHeapFile the heap file with a B-tree
      over it.

    ** What the theorems show

    - Pages: the search with prefix truncation, hints and 4-byte heads equals a
      linear scan; insertion, removal, compaction, split and merge keep a page
      well-formed and do to its bindings what their names say; space tests are
      exact at 16 bits.
    - Page B-tree: [BTreeProps.tree_refines_map], any history of operations has
      the outcomes of the same history on a finite map and never gets stuck;
      splits and merges of any page change no binding; scans are in order;
      insertion ends.  [BTreeFailures] proves where it does not: a leaf of two
      large records, and an upsert that loses its record.
    - Two trees: eviction, lookup and migration keep the visible records;
      insert, update, put and remove change exactly the record of their key; a
      scan delivers the merge of the trees.  Eviction and scans need a hot tree
      without delete marks, eviction also a boundary search that answers with a
      key: both are hypotheses, since the code fails an assertion without them.
      The branches that lose an update or break an assertion are proved as such.
    - Buffer manager: resolving a swip returns a frame with the page the swip
      stood for and touches no other page, on every branch; no page identifier
      is handed out twice.  The free list is correct with one popping thread and
      hands out a frame twice with two.
    - Paging: any interleaving of workers and page provider, page by page, is a
      history of a map from pages to data ([PagingProps.paging_transparent]),
      and a round of the provider ends, with a bound on the draws of its first
      phase, when findParent answers for every hot page.
    - Linear hashing: any history of the callers' contract from creation on has
      the outcomes of a finite map ([LinearHashingProps.hash_table_refines]); a
      split keeps the map or stops at the assertion of LinearHashing.cpp:1440,
      exactly when it has a page to give back ([LinearHashingProps.split_keeps_map]);
      each bucket is iterated exactly; the parent of every page is found.  The
      flag [ndebug] of the model stands for that one assertion; all others are
      always on.  The instance of the hash interface is without it.
    - Adapters over one tree or one table: histories are those of a map (over one
      table without scans, whose code is commented out).
    - Heap files: [HeapFileProps.heap_file_refines], the file is a map from
      identifiers to tuples; with a B-tree over it an ordered map from keys to
      values ([IndexedHeapFile.indexed_heap_refines]).  A threshold below the size
      of a tuple and tuples of fewer than 12 bytes are proved to break it.
    - Two hash tables: histories that keep to [TwoHashProps.hash_op_ok] are those
      of a map ([TwoHashProps.two_hash_refines]); eviction keeps the records and
      ends; an update is lost exactly when the hot table refuses the record it
      moves up, and after that [evict_all] never returns; it empties the hot table
      when no admission was refused.
    - Latches: in every interleaving a writer is alone, a validated optimistic
      read saw one state of the page, the assertions on the latch hold, and a
      guard only waits for one that has the latch.
    - Lock words: mutual exclusion and validation in every interleaving.

    ** Bounds and fuel

    A loop of the source that is not structural takes fuel; where a theorem says
    that it returns, enough fuel is part of the statement.  The search in a page
    halves its range, descent takes one unit per level, [trySplit] and
    [tryMerge] one call per level.  [BTreeInsert.insert_rounds] is 12 rounds per
    level plus 79: a round either shortens the run of full pages above the leaf
    or cuts the leaf to just over half, and a page has at most 1626 entries and
    is down to 14 after 12 cuts.  A round takes at most two frames, so twice as
    many free frames are asked for.  Scans take one round per record and one
    step per leaf.  Keys are at most 64 and values at most 1000 bytes in the
    tree invariant, which leaves at least 15 entries on a leaf without room; the
    page theorems have no such bound.  A search in a hash bucket takes one unit
    per page of the table, since a chain visits no page twice.  The histories of
    the hash table have records of one size, so that two chains never need more
    than one page beyond the old one; before each operation
    [LinearHashingRefine.ready] asks for four free frames, a free directory
    slot, and at most eight pages in the chain that is split next, which the
    code takes for granted.  The adapters over hash tables carry that condition
    as an outcome of its own, [NoRoom], which [Outcome.safe] accepts; a theorem
    about them says that they do not get stuck and what they return when they
    return.  Heap files use it for a buffer manager without free frames and for a
    full directory; the code would spin or write behind an array.  One turn of the clock
    takes a call per bucket and one to go back, and [evict_all] takes at most
    three turns; the walk by records finds a record within one call per bucket.
    Random draws are lists in the arguments of phase 1 of the page provider and of
    the heap file's insertion, which fail when they are used up; the theorems ask
    for 10 draws of frames more than there are frames and, for insertion, for one
    more than there are directory slots.
    [None] stands for a failed assertion, a
    jump that nobody catches, or used-up fuel.

    ** Not modelled

    The page B-tree is run by one thread with all its pages in memory: latches
    and optimistic restarts of page guards, and reading and writing pages, fall
    away.  The buffer manager runs one call at a time; a guard that is no longer
    valid is an argument of resolveSwip.  The asserts on hot and cold frame
    ranges and the detour of a restart through a double (std::stod) are left
    out.  There is one provider thread, whose accesses to one page are one step;
    page reclamation during a write is excluded from the histories; swips are in a
    map of their own, so that what an unwritten change of a swip does to the
    eviction of the page it is in is not modelled.  The page B-tree is not an
    instance of the B-tree contract, which has no outcome for want of frames; the
    instance is a reference tree, and the page tree has its own theorem.  The hash table runs
    alone as well, over resident pages; the load factor is compared without the
    rounding of the division, which is exact below 2^49 bytes.  Write-ahead
    logging, GSNs, XMerge and checkpoints are left out, and so are statistics of
    the adapters, timers and reports.  Not modelled at all: the linear hash
    table with an overflow heap, the adapters over heap files, the in-memory
    B-tree with optimistic lock coupling, the remaining tree adapters, the worker and recovery code, the RocksDB
    adapters (calls into a library), and vendored code (stx, ART, xxhash, CRC).
*)
From stdpp Require Export base tactics list numbers.
From Stdlib Require Export ZArith Lia.

(** * Machine integers

    A [w]-bit unsigned integer of the C++ sources is a [Z] kept in
    [0 <= x < 2^w]; every place where the source may wrap goes through
    [wrap].  [sint] is the two's complement reading used when a [u64] is
    returned as [int64_t]. *)

Declare Scope leanstore_scope.
Delimit Scope leanstore_scope with ls.

Definition wrap (w x : Z) : Z := (x mod 2 ^ w)%Z.

Definition sint (w x : Z) : Z :=
  let y := wrap w x in
  if (y <? 2 ^ (w - 1))%Z then y else (y - 2 ^ w)%Z.

Abbreviation u8 := (wrap 8).
Abbreviation u16 := (wrap 16).
Abbreviation u32 := (wrap 32).
Abbreviation u64 := (wrap 64).

(** [in_width w x]: [x] is a value of a [w]-bit unsigned type. *)
Definition in_width (w x : Z) : Prop := (0 <= x < 2 ^ w)%Z.

Abbreviation is_byte := (in_width 8).

(** * Bytes

    [to_le n x] is the memory image of an [n]-byte integer on a
    little-endian machine, [of_le] the load, [of_be] the big-endian reading
    and [bswap n] the builtin [__builtin_bswap]<8n>. *)

Fixpoint to_le (n : nat) (x : Z) : list Z :=
  match n with
  | O => []
  | S n' => (x mod 256)%Z :: to_le n' (x / 256)%Z
  end.

Fixpoint of_le (l : list Z) : Z :=
  match l with
  | [] => 0%Z
  | b :: l' => (b + 256 * of_le l')%Z
  end.

Fixpoint of_be (l : list Z) : Z :=
  match l with
  | [] => 0%Z
  | b :: l' => (b * 256 ^ Z.of_nat (length l') + of_be l')%Z
  end.

Definition to_be (n : nat) (x : Z) : list Z := rev (to_le n x).

Definition bswap (n : nat) (x : Z) : Z := of_le (rev (to_le n x)).

(** Lexicographic comparison of byte strings: [memcmp] on the common
    length, then the lengths. *)
Fixpoint lex_cmp (a b : list Z) : comparison :=
  match a, b with
  | [], [] => Eq
  | [], _ :: _ => Lt
  | _ :: _, [] => Gt
  | x :: a', y :: b' =>
      match (x ?= y)%Z with
      | Eq => lex_cmp a' b'
      | c => c
      end
  end.

Definition lex_lt (a b : list Z) : Prop := lex_cmp a b = Lt.
Definition lex_le (a b : list Z) : Prop := lex_cmp a b <> Gt.

Notation "a <ₗ b" := (lex_lt a b) (at level 70) : leanstore_scope.
Notation "a ≤ₗ b" := (lex_le a b) (at level 70) : leanstore_scope.
Open Scope leanstore_scope.

(** * Memory

    A page is a total map from byte addresses to byte values; [memcpy]s
    become [write_bytes] of the bytes read with [read_bytes]. *)

Definition mem := Z -> Z.

Definition read_bytes (m : mem) (off : Z) (len : nat) : list Z :=
  map (fun i => m (off + Z.of_nat i)%Z) (seq 0 len).

Definition write_bytes (m : mem) (off : Z) (bs : list Z) : mem :=
  fun a =>
    if ((off <=? a) && (a <? off + Z.of_nat (length bs)))%Z
    then nth (Z.to_nat (a - off)) bs 0%Z
    else m a.

(** * Hints and tactics *)

Create HintDb leanstore.

(** Destruct the innermost boolean comparison of the goal and record it as
    an arithmetic fact. *)
Ltac zbool :=
  repeat match goal with
  | H : context [(?a <? ?b)%Z] |- _ => destruct (Z.ltb_spec a b)
  | H : context [(?a <=? ?b)%Z] |- _ => destruct (Z.leb_spec a b)
  | H : context [(?a =? ?b)%Z] |- _ => destruct (Z.eqb_spec a b)
  | |- context [(?a <? ?b)%Z] => destruct (Z.ltb_spec a b)
  | |- context [(?a <=? ?b)%Z] => destruct (Z.leb_spec a b)
  | |- context [(?a =? ?b)%Z] => destruct (Z.eqb_spec a b)
  end; simpl in *; try lia; try congruence.

(** Open every existential and conjunction of the context. *)
Ltac deex :=
  repeat match goal with
  | H : exists x, _ |- _ => let x' := fresh x in destruct H as [x' H]
  | H : _ /\ _ |- _ => destruct H
  end.

(** * Lemmas on machine integers *)

Lemma wrap_small w x : in_width w x -> wrap w x = x.
Proof. intros [? ?]. unfold wrap. apply Z.mod_small. lia. Qed.

Lemma wrap_in_width w x : (0 <= w)%Z -> in_width w (wrap w x).
Proof. intros. apply Z.mod_pos_bound, Z.pow_pos_nonneg; lia. Qed.

Lemma wrap_wrap_add w x y : (wrap w (wrap w x + y) = wrap w (x + y))%Z.
Proof. unfold wrap. by rewrite Zplus_mod_idemp_l. Qed.

Lemma wrap_add_wrap w x y : (wrap w (x + wrap w y) = wrap w (x + y))%Z.
Proof. unfold wrap. by rewrite Zplus_mod_idemp_r. Qed.

Lemma sint_small w x :
  (0 < w)%Z -> (- 2 ^ (w - 1) <= x < 2 ^ (w - 1))%Z -> sint w x = x.
Proof.
  intros Hw Hx. unfold sint, wrap.
  assert (2 ^ w = 2 * 2 ^ (w - 1))%Z as Hp.
  { rewrite <- Z.pow_succ_r by lia. f_equal. lia. }
  destruct (Z.leb_spec 0 x).
  - rewrite (Z.mod_small x) by lia. zbool.
  - rewrite <- (Z.mod_add x 1 (2 ^ w)) by lia.
    rewrite (Z.mod_small (x + 1 * 2 ^ w)) by lia. zbool.
Qed.

#[export] Hint Resolve wrap_in_width : leanstore.

(** Packing a field above [n] low bits. *)
Lemma lor_shiftl_add a b n :
  (0 <= n)%Z -> (0 <= b < 2 ^ n)%Z -> (Z.lor (Z.shiftl a n) b = a * 2 ^ n + b)%Z.
Proof.
  intros Hn Hb. rewrite Z.shiftl_mul_pow2 by lia.
  rewrite Z.add_nocarry_lxor, Z.lxor_lor; try done.
  all: apply Z.bits_inj'; intros i Hi; rewrite Z.land_spec, Z.bits_0.
  all: rewrite <- (Z.mod_small b (2 ^ n)) by lia.
  all: destruct (Z.ltb_spec i n);
    [by rewrite Z.mul_pow2_bits_low|by rewrite Z.mod_pow2_bits_high, andb_false_r by lia].
Qed.

(** * Lemmas on byte strings *)

Lemma length_to_le n x : length (to_le n x) = n.
Proof. revert x; induction n; simpl; auto. Qed.

Lemma length_to_be n x : length (to_be n x) = n.
Proof. unfold to_be. by rewrite length_rev, length_to_le. Qed.

Lemma to_le_bytes n x : Forall is_byte (to_le n x).
Proof.
  revert x; induction n; simpl; constructor; auto.
  apply Z.mod_pos_bound. lia.
Qed.

Lemma Forall_rev' {A} (P : A -> Prop) l : Forall P l -> Forall P (rev l).
Proof. rewrite !List.Forall_forall. intros H x Hx%in_rev. auto. Qed.

Lemma to_be_bytes n x : Forall is_byte (to_be n x).
Proof. apply Forall_rev', to_le_bytes. Qed.

Lemma of_to_le n x : of_le (to_le n x) = (x mod 256 ^ Z.of_nat n)%Z.
Proof.
  revert x; induction n as [|n IH]; intros x.
  - simpl. by rewrite Z.mod_1_r.
  - cbn [to_le of_le]. rewrite IH, Nat2Z.inj_succ, Z.pow_succ_r by lia.
    rewrite Z.rem_mul_r by lia. lia.
Qed.

Lemma to_of_le l : Forall is_byte l -> to_le (length l) (of_le l) = l.
Proof.
  unfold in_width. change (2 ^ 8)%Z with 256%Z.
  induction 1 as [|b l Hb _ IH]; [done|]. cbn [of_le length to_le].
  f_equal.
  - rewrite Z.mul_comm, Z.mod_add, Z.mod_small by lia. done.
  - rewrite Z.mul_comm, Z.div_add, Z.div_small by lia. by rewrite Z.add_0_l.
Qed.

Lemma of_le_bound l : Forall is_byte l -> (0 <= of_le l < 256 ^ Z.of_nat (length l))%Z.
Proof.
  intros H. rewrite <- (to_of_le l) at 1 2 by done.
  rewrite of_to_le. apply Z.mod_pos_bound. lia.
Qed.

Lemma of_be_bound l : Forall is_byte l -> (0 <= of_be l < 256 ^ Z.of_nat (length l))%Z.
Proof.
  unfold in_width. change (2 ^ 8)%Z with 256%Z.
  induction 1 as [|b l Hb _ IH]; [done|]. cbn [of_be length].
  rewrite Nat2Z.inj_succ, Z.pow_succ_r by lia. nia.
Qed.

Lemma of_be_app a b :
  of_be (a ++ b) = (of_be a * 256 ^ Z.of_nat (length b) + of_be b)%Z.
Proof.
  induction a as [|x a IH]; [done|]. cbn [app of_be].
  rewrite IH, length_app, Nat2Z.inj_add, Z.pow_add_r by lia. lia.
Qed.

Lemma of_be_rev l : of_be (rev l) = of_le l.
Proof.
  induction l as [|b l IH]; [done|]. cbn [rev of_le].
  rewrite of_be_app, IH. simpl length. change (Z.of_nat 1) with 1%Z. simpl of_be. lia.
Qed.

Lemma of_le_rev l : of_le (rev l) = of_be l.
Proof. rewrite <- of_be_rev. by rewrite rev_involutive. Qed.

Lemma to_le_bswap n x : to_le n (bswap n x) = to_be n x.
Proof.
  unfold bswap, to_be.
  rewrite <- (length_to_le n x) at 1. rewrite <- length_rev.
  apply to_of_le, Forall_rev', to_le_bytes.
Qed.

Lemma bswap_of_le n l : length l = n -> Forall is_byte l -> bswap n (of_le l) = of_be l.
Proof. intros <- H. unfold bswap. rewrite to_of_le by done. apply of_le_rev. Qed.

Lemma bswap_bswap n x : bswap n (bswap n x) = (x mod 256 ^ Z.of_nat n)%Z.
Proof.
  unfold bswap at 1. rewrite to_le_bswap. unfold to_be.
  by rewrite rev_involutive, of_to_le.
Qed.

Lemma bswap_bound n x : (0 <= bswap n x < 256 ^ Z.of_nat n)%Z.
Proof.
  unfold bswap.
  pose proof (of_le_bound (rev (to_le n x)) (Forall_rev' _ _ (to_le_bytes n x))) as B.
  by rewrite length_rev, length_to_le in B.
Qed.

Lemma bswap_unfold_fold n x :
  (0 <= x < 256 ^ Z.of_nat n)%Z -> bswap n (of_le (to_le n (bswap n x))) = x.
Proof.
  intros Hx. rewrite of_to_le, (Z.mod_small (bswap n x)) by apply bswap_bound.
  rewrite bswap_bswap. by apply Z.mod_small.
Qed.

Lemma bswap_fold_unfold n bs :
  length bs = n -> Forall is_byte bs -> to_le n (bswap n (bswap n (of_le bs))) = bs.
Proof.
  intros <- Hb. rewrite bswap_bswap, Z.mod_small by by apply of_le_bound.
  by apply to_of_le.
Qed.

(** * Lemmas on the lexicographic order *)

Lemma lex_cmp_refl a : lex_cmp a a = Eq.
Proof. induction a; simpl; [done|]. by rewrite Z.compare_refl. Qed.

Lemma lex_cmp_eq a b : lex_cmp a b = Eq <-> a = b.
Proof.
  split; [|intros ->; apply lex_cmp_refl].
  revert b; induction a as [|x a IH]; intros [|y b]; simpl; try done.
  destruct (Z.compare_spec x y); try done. intros ?. subst. f_equal. auto.
Qed.

Lemma lex_cmp_antisym a b : lex_cmp b a = CompOpp (lex_cmp a b).
Proof.
  revert b; induction a as [|x a IH]; intros [|y b]; simpl; try done.
  rewrite (Z.compare_antisym x y). destruct (x ?= y)%Z; simpl; auto.
Qed.

Lemma lex_cmp_gt a b : lex_cmp a b = Gt <-> b <ₗ a.
Proof.
  unfold lex_lt. rewrite (lex_cmp_antisym a b).
  destruct (lex_cmp a b); simpl; split; congruence.
Qed.

Lemma lex_lt_trans a b c : a <ₗ b -> b <ₗ c -> a <ₗ c.
Proof.
  unfold lex_lt.
  revert b c; induction a as [|x a IH]; intros [|y b] [|z c]; simpl; try done.
  destruct (Z.compare_spec x y), (Z.compare_spec y z); subst; try done; intros.
  - rewrite Z.compare_refl. eauto.
  - by rewrite (proj2 (Z.compare_lt_iff _ _)) by lia.
  - by rewrite (proj2 (Z.compare_lt_iff _ _)) by lia.
  - by rewrite (proj2 (Z.compare_lt_iff _ _)) by lia.
Qed.

Lemma lex_lt_irrefl a : ~ a <ₗ a.
Proof. unfold lex_lt. by rewrite lex_cmp_refl. Qed.

Lemma lex_le_lteq a b : a ≤ₗ b <-> a <ₗ b \/ a = b.
Proof.
  unfold lex_le, lex_lt. rewrite <- lex_cmp_eq.
  destruct (lex_cmp a b); intuition congruence.
Qed.

Lemma lex_nle_lt a b : ~ a ≤ₗ b <-> b <ₗ a.
Proof.
  rewrite <- lex_cmp_gt. unfold lex_le. destruct (lex_cmp a b); intuition congruence.
Qed.

Lemma lex_nlt_le a b : ~ a <ₗ b <-> b ≤ₗ a.
Proof.
  unfold lex_le. rewrite lex_cmp_gt. done.
Qed.

Lemma lex_le_lt_trans a b c : a ≤ₗ b -> b <ₗ c -> a <ₗ c.
Proof. intros [?| ->]%lex_le_lteq ?; [eapply lex_lt_trans|]; eauto. Qed.

Lemma lex_lt_le_trans a b c : a <ₗ b -> b ≤ₗ c -> a <ₗ c.
Proof. intros ? [?| <-]%lex_le_lteq; [eapply lex_lt_trans|]; eauto. Qed.

Lemma lex_le_trans a b c : a ≤ₗ b -> b ≤ₗ c -> a ≤ₗ c.
Proof.
  intros H1 [H2| <-]%lex_le_lteq; [|done].
  apply lex_le_lteq. left. by eapply lex_le_lt_trans.
Qed.

Lemma lex_cmp_app p a b : lex_cmp (p ++ a) (p ++ b) = lex_cmp a b.
Proof. induction p; simpl; [done|]. by rewrite Z.compare_refl. Qed.

(** On byte strings of one length the lexicographic order is the order of
    the big-endian numbers they denote. *)
Lemma lex_cmp_of_be a b :
  length a = length b -> Forall is_byte a -> Forall is_byte b ->
  lex_cmp a b = (of_be a ?= of_be b)%Z.
Proof.
  unfold in_width. change (2 ^ 8)%Z with 256%Z.
  revert b; induction a as [|x a IH]; intros [|y b] Hl Ha Hb; try done.
  injection Hl as Hl. inversion Ha; inversion Hb; subst.
  cbn [lex_cmp of_be]. rewrite (IH b) by done.
  pose proof (of_be_bound a) as Ba. pose proof (of_be_bound b) as Bb.
  unfold in_width in Ba, Bb. change (2 ^ 8)%Z with 256%Z in Ba, Bb.
  rewrite <- Hl in *.
  specialize (Ba ltac:(done)). specialize (Bb ltac:(done)).
  set (p := (256 ^ Z.of_nat (length a))%Z) in *.
  destruct (Z.compare_spec x y) as [->|Hlt|Hgt].
  - destruct (Z.compare_spec (of_be a) (of_be b)); symmetry;
      [apply Z.compare_eq_iff|apply Z.compare_lt_iff|apply Z.compare_gt_iff]; lia.
  - symmetry. apply Z.compare_lt_iff. nia.
  - symmetry. apply Z.compare_gt_iff. nia.
Qed.

(** * Lemmas on lists *)

Lemma lookup_map_seq {A} (f : nat -> A) c i :
  (i < c)%nat -> map f (seq 0 c) !! i = Some (f i).
Proof.
  intros Hi. assert (map f (seq 0 c) = f <$> seq 0 c) as -> by done.
  by rewrite list_lookup_fmap, lookup_seq_lt.
Qed.

(** * Lemmas on memory *)

Lemma length_read_bytes m off n : length (read_bytes m off n) = n.
Proof. unfold read_bytes. by rewrite length_map, length_seq. Qed.

Lemma nth_read_bytes m off n i :
  (i < n)%nat -> nth i (read_bytes m off n) 0%Z = m (off + Z.of_nat i)%Z.
Proof.
  intros Hi. unfold read_bytes.
  rewrite (nth_indep _ _ (m (off + Z.of_nat 0)%Z))
    by (rewrite length_map, length_seq; lia).
  rewrite (map_nth (fun i => m (off + Z.of_nat i)%Z)), seq_nth by lia. done.
Qed.

Lemma read_bytes_ext m m' off n :
  (forall a, (off <= a < off + Z.of_nat n)%Z -> m a = m' a) ->
  read_bytes m off n = read_bytes m' off n.
Proof.
  intros H. unfold read_bytes. apply map_ext_in. intros i [_ Hi]%in_seq.
  apply H. lia.
Qed.

Lemma read_write_same m off bs n :
  n = length bs -> read_bytes (write_bytes m off bs) off n = bs.
Proof.
  intros ->. apply (nth_ext _ _ 0%Z 0%Z); rewrite length_read_bytes; [done|].
  intros i Hi. rewrite nth_read_bytes by done. unfold write_bytes.
  rewrite (proj2 (Z.leb_le _ _)), (proj2 (Z.ltb_lt _ _)) by lia. simpl. f_equal. lia.
Qed.

Lemma read_write_other m off bs off' n :
  (off' + Z.of_nat n <= off \/ off + Z.of_nat (length bs) <= off')%Z ->
  read_bytes (write_bytes m off bs) off' n = read_bytes m off' n.
Proof.
  intros H. apply read_bytes_ext. intros a Ha. unfold write_bytes.
  destruct (Z.leb_spec off a), (Z.ltb_spec a (off + Z.of_nat (length bs)));
    simpl; [lia|done..].
Qed.

Lemma read_bytes_app m off n k :
  read_bytes m off (n + k) =
  read_bytes m off n ++ read_bytes m (off + Z.of_nat n) k.
Proof.
  unfold read_bytes. rewrite seq_app, map_app. f_equal.
  apply (nth_ext _ _ 0%Z 0%Z); rewrite !length_map, !length_seq; [done|].
  intros i Hi.
  rewrite (nth_indep _ 0%Z (m (off + Z.of_nat 0)%Z)) by (rewrite length_map, length_seq; lia).
  rewrite (map_nth (fun i => m (off + Z.of_nat i)%Z)), seq_nth by lia.
  rewrite (nth_indep _ 0%Z (m (off + Z.of_nat n + Z.of_nat 0)%Z)) by (rewrite length_map, length_seq; lia).
  rewrite (map_nth (fun i => m (off + Z.of_nat n + Z.of_nat i)%Z)), seq_nth by lia.
  f_equal. lia.
Qed.

(** * Lists *)

Lemma elem_of_take_in {A} i (l : list A) e : e ∈ take i l -> e ∈ l.
Proof. rewrite <- (take_drop i l) at 2. intros H. apply elem_of_app. by left. Qed.

Lemma elem_of_drop_in {A} i (l : list A) e : e ∈ drop i l -> e ∈ l.
Proof. rewrite <- (take_drop i l) at 2. intros H. apply elem_of_app. by right. Qed.
