(* ===== verification/Fold.v ===== *)
(** Key serialisation of the LeanStore adapters
    (src/backend/leanstore/BTreeAdapter.hpp).

    [fold] writes an integer key into a byte buffer so that the byte order of
    the buffers is the order of the integers, which is what lets the B-tree
    compare keys with [memcmp]; [unfold] is the inverse on the unsigned key
    types.  The definitions return the bytes the C++ writes; the functions'
    return value is their length ([sizeof(x)]). *)
From S2P Require Import Prelude.
Local Open Scope Z_scope.

(** * The four overloads of [fold] and the two of [unfold] *)

(** [__builtin_bswap32(x ^ (1ul << 31))]: [x] is sign-extended to 64 bits by
    the [unsigned long] operand and truncated again by the 32-bit builtin. *)
Definition fold_s32 (x : Z) : list Z :=
  to_le 4 (bswap 4 (u32 (Z.lxor (u64 x) (Z.shiftl 1 31)))).

Definition fold_s64 (x : Z) : list Z :=
  to_le 8 (bswap 8 (Z.lxor (u64 x) (Z.shiftl 1 63))).

Definition fold_u64 (x : Z) : list Z := to_le 8 (bswap 8 x).

#[global] Arguments fold_u64 _ : simpl never.

Definition fold_u32 (x : Z) : list Z := to_le 4 (bswap 4 x).

Definition unfold_u64 (x : Z) : Z := bswap 8 x.

Definition unfold_u32 (x : Z) : Z := bswap 4 x.

(** * Auxiliary facts *)

Lemma lxor_pow2_low k y : 0 <= k -> 0 <= y < 2 ^ k -> Z.lxor y (2 ^ k) = y + 2 ^ k.
Proof.
  intros Hk Hy. symmetry. apply Z.add_nocarry_lxor.
  apply Z.bits_inj'. intros i Hi.
  rewrite Z.land_spec, Z.pow2_bits_eqb, Z.bits_0 by lia.
  destruct (Z.eqb_spec k i) as [->|]; [|by rewrite andb_false_r].
  rewrite <- (Z.mod_small y (2 ^ i)) by lia.
  by rewrite Z.mod_pow2_bits_high by lia.
Qed.

Lemma lxor_pow2_high k y :
  0 <= k -> 2 ^ k <= y < 2 ^ (k + 1) -> Z.lxor y (2 ^ k) = y - 2 ^ k.
Proof.
  intros Hk Hy. rewrite Z.pow_add_r, Z.pow_1_r in Hy by lia.
  replace y with ((y - 2 ^ k) + 2 ^ k) at 1 by lia.
  rewrite <- (lxor_pow2_low k (y - 2 ^ k)) by lia.
  by rewrite Z.lxor_assoc, Z.lxor_nilpotent, Z.lxor_0_r.
Qed.

(** Flipping the sign bit of the two's complement image of a signed [w]-bit
    integer shifts it into the unsigned range. *)
Lemma flip_sign k x :
  0 <= k -> - 2 ^ k <= x < 2 ^ k -> Z.lxor (wrap (k + 1) x) (2 ^ k) = x + 2 ^ k.
Proof.
  intros Hk Hx. assert (2 ^ (k + 1) = 2 * 2 ^ k) as Hp.
  { rewrite Z.pow_add_r by lia. lia. }
  unfold wrap. destruct (Z.leb_spec 0 x).
  - rewrite Z.mod_small by lia. apply lxor_pow2_low; lia.
  - rewrite <- (Z.mod_add x 1) by lia. rewrite Z.mod_small by lia.
    rewrite lxor_pow2_high by lia. lia.
Qed.

(** The 32-bit flavour: the xor happens on the sign-extended 64-bit image and
    the builtin keeps the low 32 bits. *)
Lemma flip_sign_32 x :
  - 2 ^ 31 <= x < 2 ^ 31 -> u32 (Z.lxor (u64 x) (Z.shiftl 1 31)) = x + 2 ^ 31.
Proof.
  intros Hx. rewrite Z.shiftl_1_l. rewrite <- (flip_sign 31 x) by lia.
  change (31 + 1) with 32. unfold wrap. rewrite <- !Z.land_ones by lia.
  apply Z.bits_inj'. intros i Hi.
  rewrite !Z.land_spec, !Z.lxor_spec, !Z.land_spec.
  destruct (Z.ltb_spec i 32).
  - rewrite !Z.ones_spec_low by lia. by rewrite !andb_true_r.
  - rewrite (Z.ones_spec_high 32), !andb_false_r, xorb_false_l by lia.
    rewrite Z.pow2_bits_eqb by lia. symmetry. apply Z.eqb_neq. lia.
Qed.

Lemma of_be_to_be n x : of_be (to_be n x) = x mod 256 ^ Z.of_nat n.
Proof. unfold to_be. by rewrite of_be_rev, of_to_le. Qed.

Lemma lex_cmp_to_be n x y :
  0 <= x < 256 ^ Z.of_nat n -> 0 <= y < 256 ^ Z.of_nat n ->
  lex_cmp (to_be n x) (to_be n y) = (x ?= y).
Proof.
  intros. rewrite lex_cmp_of_be; rewrite ?length_to_be; auto using to_be_bytes.
  by rewrite !of_be_to_be, !Z.mod_small by lia.
Qed.

Lemma fold_u64_be x : fold_u64 x = to_be 8 x.
Proof. apply to_le_bswap. Qed.

Lemma fold_u32_be x : fold_u32 x = to_be 4 x.
Proof. apply to_le_bswap. Qed.

Lemma fold_u64_cmp x y :
  in_width 64 x -> in_width 64 y -> lex_cmp (fold_u64 x) (fold_u64 y) = (x ?= y).
Proof. intros. rewrite !fold_u64_be. by apply lex_cmp_to_be. Qed.

Lemma fold_u64_inj x y :
  in_width 64 x -> in_width 64 y -> fold_u64 x = fold_u64 y -> x = y.
Proof.
  intros Hx Hy E. apply Z.compare_eq. rewrite <- fold_u64_cmp by done.
  rewrite E. apply lex_cmp_refl.
Qed.

Lemma length_fold_u64 x : length (fold_u64 x) = 8%nat.
Proof. apply length_to_le. Qed.

Lemma fold_u64_bytes x : Forall is_byte (fold_u64 x).
Proof. apply to_le_bytes. Qed.

#[export] Hint Resolve length_fold_u64 fold_u64_bytes : leanstore.

(** * Properties *)

(** C39: fold_order: on every key type, comparing two folded keys byte by byte
    (what [cmpKeys] does in the B-tree) gives the order of the integers: the
    signed overloads on all of [s32]/[s64], the unsigned ones on all of
    [u32]/[u64]. *)
Theorem fold_order_preserving :
  (forall x y, in_width 64 x -> in_width 64 y ->
     lex_cmp (fold_u64 x) (fold_u64 y) = (x ?= y)) /\
  (forall x y, in_width 32 x -> in_width 32 y ->
     lex_cmp (fold_u32 x) (fold_u32 y) = (x ?= y)) /\
  (forall x y, - 2 ^ 63 <= x < 2 ^ 63 -> - 2 ^ 63 <= y < 2 ^ 63 ->
     lex_cmp (fold_s64 x) (fold_s64 y) = (x ?= y)) /\
  (forall x y, - 2 ^ 31 <= x < 2 ^ 31 -> - 2 ^ 31 <= y < 2 ^ 31 ->
     lex_cmp (fold_s32 x) (fold_s32 y) = (x ?= y)).
Proof.
  unfold in_width, fold_s64, fold_s32. repeat split; intros.
  - by apply fold_u64_cmp.
  - rewrite !fold_u32_be. by apply lex_cmp_to_be.
  - rewrite !to_le_bswap, !Z.shiftl_1_l, !(flip_sign 63) by lia.
    rewrite lex_cmp_to_be by (simpl; lia). by rewrite !(Z.add_comm _ (2 ^ 63)), Z.add_compare_mono_l.
  - rewrite !to_le_bswap, !flip_sign_32 by lia.
    rewrite lex_cmp_to_be by (simpl; lia). by rewrite !(Z.add_comm _ (2 ^ 31)), Z.add_compare_mono_l.
Qed.

(** C40: unfold_fold: reading a folded unsigned key back as an integer and
    unfolding it gives the key, and every 8-byte (4-byte) string is the fold
    of the key it unfolds to. *)
Theorem unfold_fold_roundtrip :
  (forall x, in_width 64 x -> unfold_u64 (of_le (fold_u64 x)) = x) /\
  (forall x, in_width 32 x -> unfold_u32 (of_le (fold_u32 x)) = x) /\
  (forall bs, length bs = 8%nat -> Forall is_byte bs ->
     fold_u64 (unfold_u64 (of_le bs)) = bs) /\
  (forall bs, length bs = 4%nat -> Forall is_byte bs ->
     fold_u32 (unfold_u32 (of_le bs)) = bs).
Proof.
  repeat split; intros.
  - by apply (bswap_unfold_fold 8).
  - by apply (bswap_unfold_fold 4).
  - by apply (bswap_fold_unfold 8).
  - by apply (bswap_fold_unfold 4).
Qed.
