(* ===== verification/Counter.v ===== *)
(** [DistributedCounter] (src/backend/common/DistributedCounter.hpp), the
    sharded statistics counter of every adapter, and [IOStats]
    (src/backend/interface/StorageInterface.hpp).

    A counter is an array of 32 cache-line padded [uint64_t] shards; a thread
    adds to the shard its id hashes to, with wrap-around, and a read sums the
    shards as [int64_t]. *)
From S2P Require Import Prelude.
Local Open Scope Z_scope.

Definition buckets : Z := 32.

(** [countArray]: the [data] member of each [PadInt]. *)
Abbreviation DistributedCounter := (list Z).

Definition arrayIndex (cpuId : Z) : Z := Z.land cpuId (buckets - 1).

(** [__atomic_add_fetch] on the shard; [v] is an [int]. *)
Definition increment (cpuId v : Z) (c : DistributedCounter) : DistributedCounter :=
  alter (fun d => u64 (d + v)) (Z.to_nat (arrayIndex cpuId)) c.

Definition decrement (cpuId v : Z) (c : DistributedCounter) : DistributedCounter :=
  alter (fun d => u64 (d - v)) (Z.to_nat (arrayIndex cpuId)) c.

(** The converting constructor takes an [int]: a wider argument is narrowed
    first. *)
Definition make_counter (cpuId initVal : Z) : DistributedCounter :=
  increment cpuId (sint 32 initVal) (replicate (Z.to_nat buckets) 0).

(** [int64_t val; val += data]: the sum is formed in [uint64_t] and stored
    back as [int64_t]. *)
Definition get (c : DistributedCounter) : Z :=
  fold_left (fun val d => sint 64 (val + d)) c 0.

Definition load (c : DistributedCounter) : Z := get c.

(** Zeroes every shard, then writes the value into shard 0. *)
Definition store (v : Z) (c : DistributedCounter) : DistributedCounter :=
  <[0%nat := u64 v]> (map (fun _ => 0) c).

(** The operators, each on the calling thread's shard. *)
Inductive counter_op := AddAssign (by_ : Z) | SubAssign (by_ : Z) | Incr | Decr.

Definition op_delta (o : counter_op) : Z :=
  match o with AddAssign v => v | SubAssign v => - v | Incr => 1 | Decr => -1 end.

Definition apply_op (cpuId : Z) (o : counter_op) (c : DistributedCounter) : DistributedCounter :=
  match o with
  | AddAssign v => increment cpuId v c
  | SubAssign v => decrement cpuId v c
  | Incr => increment cpuId 1 c
  | Decr => decrement cpuId 1 c
  end.

(** Any interleaving of the threads' operations: a list of (thread id,
    operation) in the order of their atomic accesses. *)
Definition run (ops : list (Z * counter_op)) (c : DistributedCounter) : DistributedCounter :=
  fold_left (fun c op => apply_op op.1 op.2 c) ops c.

Definition assign (cpuId v : Z) : DistributedCounter := make_counter cpuId v.

Record IOStats := mkIOStats {
  reads : DistributedCounter;
  writes : DistributedCounter;
  eviction_reads : DistributedCounter }.

Definition Clear (s : IOStats) : IOStats :=
  mkIOStats (store 0 (reads s)) (store 0 (writes s)) (store 0 (eviction_reads s)).

(** * Facts *)

Definition total (c : DistributedCounter) : Z := foldr Z.add 0 c.

Definition valid (c : DistributedCounter) : Prop := length c = Z.to_nat buckets.

Lemma arrayIndex_range cpuId : 0 <= cpuId -> 0 <= arrayIndex cpuId < buckets.
Proof.
  intros. unfold arrayIndex. change (buckets - 1) with (Z.ones 5). change buckets with (2 ^ 5).
  rewrite Z.land_ones by lia. apply Z.mod_pos_bound. lia.
Qed.

Lemma sint_wrap w x y : wrap w x = wrap w y -> sint w x = sint w y.
Proof. unfold sint. by intros ->. Qed.

Lemma wrap_sint w x : 0 < w -> wrap w (sint w x) = wrap w x.
Proof.
  intros. unfold sint, wrap. zbool; [by rewrite Z.mod_mod by lia|].
  replace (x mod 2 ^ w - 2 ^ w) with (x mod 2 ^ w + (-1) * 2 ^ w) by lia.
  rewrite Z.mod_add, Z.mod_mod by lia. done.
Qed.

Lemma get_total c : get c = sint 64 (total c).
Proof.
  unfold get. enough (forall a, fold_left (fun val d => sint 64 (val + d)) c (sint 64 a)
                        = sint 64 (a + total c)) as H.
  { specialize (H 0). by rewrite Z.add_0_l in H. }
  induction c as [|d c IH]; intros a; simpl.
  - by rewrite Z.add_0_r.
  - replace (sint 64 (sint 64 a + d)) with (sint 64 (a + d)).
    + rewrite IH. f_equal. lia.
    + apply sint_wrap. rewrite <- wrap_wrap_add, <- (wrap_sint 64 a), wrap_wrap_add; lia.
Qed.

Lemma total_alter c i f v :
  (i < length c)%nat -> (forall d, f d = u64 (d + v)) ->
  wrap 64 (total (alter f i c)) = wrap 64 (total c + v).
Proof.
  intros Hi Hf. revert i Hi. induction c as [|d c IH]; intros [|i] Hi; simpl in *; try lia.
  - rewrite Hf, wrap_wrap_add. f_equal. lia.
  - rewrite <- wrap_add_wrap. unfold alter in IH. rewrite IH by lia. rewrite wrap_add_wrap.
    f_equal. lia.
Qed.

Lemma apply_op_total cpuId o c :
  valid c -> 0 <= cpuId ->
  valid (apply_op cpuId o c) /\
  wrap 64 (total (apply_op cpuId o c)) = wrap 64 (total c + op_delta o).
Proof.
  intros Hc Hid. pose proof (arrayIndex_range cpuId Hid) as Hr. unfold valid in *.
  destruct o; cbn [apply_op op_delta]; unfold increment, decrement; rewrite length_alter;
    (split; [done|apply total_alter; [lia|done]]).
Qed.

Lemma run_total ops c :
  valid c -> Forall (fun op => 0 <= op.1) ops ->
  wrap 64 (total (run ops c)) =
  wrap 64 (total c + foldr Z.add 0 (map (fun op => op_delta op.2) ops)).
Proof.
  unfold run. intros Hc H. revert c Hc. induction H as [|op ops Hop _ IH]; intros c Hc; simpl.
  - f_equal. lia.
  - destruct (apply_op_total op.1 op.2 c Hc Hop) as [Hv Ht].
    rewrite IH by done. rewrite <- wrap_wrap_add, Ht, wrap_wrap_add. f_equal. lia.
Qed.

Lemma total_zero {A} (l : list A) : total (map (fun _ => 0) l) = 0.
Proof. induction l; simpl; auto. Qed.

(** * Properties *)

(** Whatever threads run increments and decrements in whatever order, and
    whichever shards they hash to, the value read is the initial value plus
    the sum of all changes, as a 64-bit signed integer; in particular it is
    that sum when the sum fits. *)
Theorem counter_get_sum (ops : list (Z * counter_op)) (c : DistributedCounter) :
  length c = Z.to_nat buckets ->
  Forall (fun op => 0 <= op.1) ops ->
  get (run ops c) =
  sint 64 (get c + foldr Z.add 0 (map (fun op => op_delta op.2) ops)).
Proof.
  intros Hc Hops. rewrite !get_total. apply sint_wrap.
  rewrite run_total by done.
  rewrite <- (wrap_wrap_add 64 (sint 64 _)), wrap_sint, wrap_wrap_add by lia. done.
Qed.

Lemma counter_get_sum_witness :
  get (run [(3, AddAssign 7); (35, Decr); (2 ^ 63, SubAssign 9)] (make_counter 0 5)) = 2.
Proof.
  rewrite (counter_get_sum [(3, AddAssign 7); (35, Decr); (2 ^ 63, SubAssign 9)]
             (make_counter 0 5)); [reflexivity|reflexivity|].
  repeat constructor; simpl; lia.
Defined.

(** Assigning a counter from a [u64] goes through the [int] constructor:
    the value read back is the assigned value only within [int] range, and
    2^31 I/O reads are remembered as -2^31. *)
Theorem counter_assign_truncates :
  (forall cpuId v, 0 <= cpuId -> - 2 ^ 31 <= v < 2 ^ 31 -> get (assign cpuId v) = v) /\
  (forall cpuId, 0 <= cpuId -> get (assign cpuId (2 ^ 31)) = - 2 ^ 31).
Proof.
  assert (forall cpuId v, 0 <= cpuId -> get (assign cpuId v) = sint 32 v) as H.
  { intros cpuId v Hid. pose proof (arrayIndex_range cpuId Hid) as Hr.
    rewrite get_total. unfold assign, make_counter, increment.
    assert (- 2 ^ 31 <= sint 32 v < 2 ^ 31) as Hs.
    { unfold sint, wrap. pose proof (Z.mod_pos_bound v (2 ^ 32)). zbool. }
    transitivity (sint 64 (sint 32 v)); [|apply sint_small; lia].
    apply sint_wrap. rewrite (total_alter _ _ _ (sint 32 v)); [|rewrite length_replicate; lia|done].
    f_equal. }
  split; intros; rewrite H by done; [apply sint_small; lia|done].
Qed.
