(* ===== verification/Outcome.v ===== *)
(** What a call can come to, as a monad: a result, want of room, or a failed
    assertion; and how to reason about it. *)
From stdpp Require Import base.
From S2P Require Import Prelude.

(** [NoRoom]: there are no free frames, or no room to grow.  [Stuck]: a failed
    assertion or an endless loop. *)
Inductive outcome (A : Type) := Done (a : A) | NoRoom | Stuck.
Arguments Done {A} a.
Arguments NoRoom {A}.
Arguments Stuck {A}.

#[export] Instance outcome_ret : MRet outcome := fun _ a => Done a.
#[export] Instance outcome_bind : MBind outcome := fun A B f m =>
  match m with Done a => f a | NoRoom => NoRoom | Stuck => Stuck end.

Definition of_option {A} (o : option A) : outcome A :=
  match o with Some a => Done a | None => Stuck end.

Definition or_else {A} (m : outcome A) (a : A) : A := match m with Done a => a | _ => a end.

Lemma or_else_Done {A} (m : outcome A) (a : A) : (match m with Done _ => true | _ => false end) = true -> m = Done (or_else m a).
Proof. by destruct m. Qed.

(** [m] is not stuck, and what it returns satisfies [Q]. *)
Definition safe {A} (m : outcome A) (Q : A -> Prop) : Prop :=
  match m with Done a => Q a | NoRoom => True | Stuck => False end.

Lemma safe_bind {A B} (m : outcome A) (f : A -> outcome B) Q :
  safe m (fun a => safe (f a) Q) -> safe (m ≫= f) Q.
Proof. by destruct m. Qed.

Lemma safe_mono {A} (m : outcome A) (P Q : A -> Prop) :
  safe m P -> (forall a, P a -> Q a) -> safe m Q.
Proof. destruct m; cbn; auto. Qed.

Lemma safe_Done {A} (m : outcome A) Q a : safe m Q -> m = Done a -> Q a.
Proof. by intros H ->. Qed.

Lemma safe_result {A} (m : outcome A) Q : safe m Q -> safe m (fun a => Q a /\ m = Done a).
Proof. by destruct m. Qed.

Lemma Done_inj {A} (a b : A) : Done a = Done b -> a = b.
Proof. by intros [= ->]. Qed.

Lemma safe_returns {A} (m : outcome A) Q : safe m Q -> m <> NoRoom -> exists a, m = Done a /\ Q a.
Proof. destruct m; cbn; try done. eauto. Qed.

Lemma safe_pair {A B} (m : outcome (A * B)) (P : A -> B -> Prop) a b :
  safe m (fun r => P r.1 r.2) -> m = Done (a, b) -> P a b.
Proof. by intros H ->. Qed.

(** [m] does not return. *)
Definition fails {A} (m : outcome A) : Prop := forall a, m <> Done a.

Lemma fails_bind {A B} (m : outcome A) (f : A -> outcome B) (P : A -> Prop) :
  safe m P -> (forall a, P a -> fails (f a)) -> fails (m ≫= f).
Proof. destruct m as [a| |]; cbn; [|done|done]. intros Ha Hf. by apply Hf. Qed.

Lemma bind_fails {A B} (m : outcome A) (f : A -> outcome B) : fails m -> fails (m ≫= f).
Proof. destruct m as [a| |]; cbn; [|done|done]. intros Hm. by destruct (Hm a). Qed.
