(* ===== verification/Latch.v ===== *)
(** The hybrid latch of a buffer frame and its guards
    (src/backend/leanstore/sync-primitives/Latch.hpp), the functions of the
    buffer manager that take or give back a latch without a guard
    ([allocatePage], [reclaimPage]) and the wrappers of PlainGuard.hpp.

    A latch is a version word, odd while a writer is inside, and a
    [std::shared_mutex].  A guard is the handle a thread works with.  Its
    operations touch the latch one atomic access at a time, so a guard that is
    inside an operation has a program counter [pc], and [access] is what one
    access does; between two accesses of a guard any other guard may run. *)
From stdpp Require Import gmap relations.
From S2P Require Import Prelude.
Local Open Scope Z_scope.

(** * The latch *)

(** [std::shared_mutex]: locked by a writer, or shared by [shared] readers.
    [None] is a call that has to wait. *)
Record shared_mutex := mkMutex { locked : bool; shared : nat }.

Definition lock (m : shared_mutex) : option shared_mutex :=
  if locked m then None
  else match shared m with O => Some (mkMutex true 0) | S _ => None end.
Definition unlock_mutex (m : shared_mutex) : shared_mutex := mkMutex false (shared m).
Definition lock_shared (m : shared_mutex) : option shared_mutex :=
  if locked m then None else Some (mkMutex false (S (shared m))).
Definition unlock_shared (m : shared_mutex) : shared_mutex :=
  mkMutex (locked m) (pred (shared m)).
(** It may fail without a writer ([ok] = false). *)
Definition try_lock_shared (ok : bool) (m : shared_mutex) : option shared_mutex :=
  if ok then lock_shared m else None.

Definition LATCH_EXCLUSIVE_BIT : Z := 1.

Record HybridLatch := mkLatch { l_version : Z; mutex : shared_mutex }.

(** [BufferFrame() { header.latch->store(0ul); }] *)
Definition new_latch : HybridLatch := mkLatch 0 (mkMutex false 0).

Definition exclusive_bit (v : Z) : bool := Z.land v LATCH_EXCLUSIVE_BIT =? LATCH_EXCLUSIVE_BIT.

Definition isExclusivelyLatched (l : HybridLatch) : bool := exclusive_bit (l_version l).

Definition with_version (l : HybridLatch) (v : Z) : HybridLatch := mkLatch v (mutex l).
Definition with_mutex (l : HybridLatch) (m : shared_mutex) : HybridLatch := mkLatch (l_version l) m.

(** * The guard *)

Inductive GUARD_STATE := UNINITIALIZED | OPTIMISTIC | SHARED | EXCLUSIVE | MOVED.

Definition state_is (s s' : GUARD_STATE) : bool :=
  match s, s' with
  | UNINITIALIZED, UNINITIALIZED | OPTIMISTIC, OPTIMISTIC | SHARED, SHARED
  | EXCLUSIVE, EXCLUSIVE | MOVED, MOVED => true
  | _, _ => false
  end.

Record Guard := mkGuard {
  latch : option nat;   (* the frame whose latch it is; [None] is [nullptr] *)
  state : GUARD_STATE;
  version : Z;
  faced_contention : bool }.

Definition make_guard (latch : option nat) : Guard := mkGuard latch UNINITIALIZED 0 false.

Definition set_state (g : Guard) (s : GUARD_STATE) : Guard :=
  mkGuard (latch g) s (version g) (faced_contention g).
Definition set_version (g : Guard) (v : Z) : Guard :=
  mkGuard (latch g) (state g) v (faced_contention g).
Definition contend (c : bool) (g : Guard) : Guard :=
  mkGuard (latch g) (state g) (version g) (c || faced_contention g).

(** What stopped a guard: an assertion on its own state, a null latch, or an
    assertion on the latch. *)
Inductive failure := Bad_state | Null_latch | Not_latched | Latched | Version_moved.

(** How the last operation of a guard ended: by returning, or by
    [jumpmu::jump()]. *)
Inductive outcome := Returned | Jumped.

Inductive pc :=
  | At_rest (o : outcome)
  | Failed (f : failure)
  | Recheck | Recheck_assert
  | Unlock_x_latched | Unlock_x_version | Unlock_x_store | Unlock_x_mutex
  | Unlock_s_latched | Unlock_s_version | Unlock_s_mutex
  | Spin_load | Spin_again | Jump_load | OrShared_load | OrExclusive_load
  | S_lock (c : bool) | S_load (c : bool)
  | X_lock (c : bool) | X_load (c : bool) | X_store (c : bool)
  | Cas_lock | Cas | Cas_undo
  | Try_shared | Shared_check | Shared_undo
  | Reclaim_latched | Reclaim_add | Reclaim_mutex
  | Alloc_lock | Alloc_add | Alloc_load.

Inductive op :=
  | recheck | unlock
  | toOptimisticSpin | toOptimisticOrJump | toOptimisticOrShared | toOptimisticOrExclusive
  | toExclusive | toShared | reclaim.

(** The part of an operation before its first access to the latch: the
    assertions on the guard's own state and the early returns. *)
Definition on_latch (g : Guard) (c : pc) : pc :=
  match latch g with None => Failed Null_latch | Some _ => c end.

Definition start_recheck (g : Guard) : pc :=
  on_latch g (if state_is (state g) OPTIMISTIC then Recheck else Recheck_assert).

Definition start_unlock (g : Guard) : pc :=
  match state g with
  | EXCLUSIVE => on_latch g Unlock_x_latched
  | SHARED => on_latch g Unlock_s_latched
  | _ => At_rest Returned
  end.

Definition start_optimistic (g : Guard) (c : pc) : pc :=
  match state g, latch g with
  | UNINITIALIZED, Some _ => c
  | _, _ => Failed Bad_state
  end.

Definition start_toExclusive (g : Guard) : pc :=
  match state g with
  | SHARED => Failed Bad_state
  | EXCLUSIVE => At_rest Returned
  | OPTIMISTIC => on_latch g Cas_lock
  | _ => on_latch g (X_lock false)
  end.

Definition start_toShared (g : Guard) : pc :=
  match state g with
  | SHARED => At_rest Returned
  | OPTIMISTIC => on_latch g Try_shared
  | _ => Failed Bad_state
  end.

(** [reclaimPage]: the frame is exclusively locked by this guard. *)
Definition start_reclaim (g : Guard) : pc :=
  match state g with EXCLUSIVE => on_latch g Reclaim_latched | _ => Failed Bad_state end.

Definition start (o : op) (g : Guard) : pc :=
  match o with
  | recheck => start_recheck g
  | unlock => start_unlock g
  | toOptimisticSpin => start_optimistic g Spin_load
  | toOptimisticOrJump => start_optimistic g Jump_load
  | toOptimisticOrShared => start_optimistic g OrShared_load
  | toOptimisticOrExclusive => start_optimistic g OrExclusive_load
  | toExclusive => start_toExclusive g
  | toShared => start_toShared g
  | reclaim => start_reclaim g
  end.

(** What one access leaves behind.  The two flags are for the proofs: whether
    the version word was incremented, and whether the guard now vouches for
    the version it has. *)
Record after := mkAfter {
  a_latch : HybridLatch; a_guard : Guard; a_pc : pc; a_inc : bool; a_look : bool }.

Definition goes (l : HybridLatch) (g : Guard) (c : pc) : option after :=
  Some (mkAfter l g c false false).

Definition check (b : bool) (l : HybridLatch) (g : Guard) (c : pc) (f : failure) : option after :=
  goes l g (if b then c else Failed f).

Definition load_optimistic (l : HybridLatch) (g : Guard) (contended : pc) : option after :=
  let g := set_version g (l_version l) in
  if exclusive_bit (version g) then goes l g contended
  else Some (mkAfter l (set_state g OPTIMISTIC) (At_rest Returned) false true).

Definition access_unlock (l : HybridLatch) (g : Guard) (c : pc) : option after :=
  match c with
  | Unlock_x_latched => check (isExclusivelyLatched l) l g Unlock_x_version Not_latched
  | Unlock_x_version => check (version g =? l_version l) l g Unlock_x_store Version_moved
  | Unlock_x_store =>
      let g := set_version g (u64 (version g + LATCH_EXCLUSIVE_BIT)) in
      Some (mkAfter (with_version l (version g)) g Unlock_x_mutex true true)
  | Unlock_x_mutex =>
      goes (with_mutex l (unlock_mutex (mutex l))) (set_state g OPTIMISTIC) (At_rest Returned)
  | Unlock_s_latched => check (negb (isExclusivelyLatched l)) l g Unlock_s_version Latched
  | Unlock_s_version => check (version g =? l_version l) l g Unlock_s_mutex Version_moved
  | Unlock_s_mutex =>
      goes (with_mutex l (unlock_shared (mutex l))) (set_state g OPTIMISTIC) (At_rest Returned)
  | _ => None
  end.

Definition access_optimistic (l : HybridLatch) (g : Guard) (c : pc) : option after :=
  match c with
  | Spin_load => load_optimistic l (contend (isExclusivelyLatched l) g) Spin_again
  | Spin_again => load_optimistic l g Spin_again
  | Jump_load => load_optimistic l g (At_rest Jumped)
  | OrShared_load => load_optimistic l g (S_lock true)
  | OrExclusive_load => load_optimistic l g (X_lock true)
  | _ => None
  end.

(** [mutex.lock_shared(); version = load; state = SHARED] *)
Definition access_lock_shared (l : HybridLatch) (g : Guard) (c : pc) : option after :=
  match c with
  | S_lock b => m ← lock_shared (mutex l); goes (with_mutex l m) g (S_load b)
  | S_load b =>
      Some (mkAfter l (contend b (set_state (set_version g (l_version l)) SHARED))
              (At_rest Returned) false true)
  | _ => None
  end.

(** [mutex.lock(); version = load + 1; store(version); state = EXCLUSIVE] *)
Definition access_lock_exclusive (l : HybridLatch) (g : Guard) (c : pc) : option after :=
  match c with
  | X_lock b => m ← lock (mutex l); goes (with_mutex l m) g (X_load b)
  | X_load b => goes l (set_version g (u64 (l_version l + LATCH_EXCLUSIVE_BIT))) (X_store b)
  | X_store b =>
      Some (mkAfter (with_version l (version g)) (contend b (set_state g EXCLUSIVE))
              (At_rest Returned) true false)
  | _ => None
  end.

(** The upgrade of an optimistic guard in [toExclusive]. *)
Definition access_cas (l : HybridLatch) (g : Guard) (c : pc) : option after :=
  match c with
  | Cas_lock => m ← lock (mutex l); goes (with_mutex l m) g Cas
  | Cas =>
      let new_version := u64 (version g + LATCH_EXCLUSIVE_BIT) in
      if l_version l =? version g
      then Some (mkAfter (with_version l new_version)
                   (set_state (set_version g new_version) EXCLUSIVE)
                   (At_rest Returned) true false)
      else goes l g Cas_undo
  | Cas_undo => goes (with_mutex l (unlock_mutex (mutex l))) g (At_rest Jumped)
  | _ => None
  end.

(** The upgrade of an optimistic guard in [toShared]. *)
Definition access_toShared (ok : bool) (l : HybridLatch) (g : Guard) (c : pc) : option after :=
  match c with
  | Try_shared =>
      match try_lock_shared ok (mutex l) with
      | Some m => goes (with_mutex l m) g Shared_check
      | None => goes l g (At_rest Jumped)
      end
  | Shared_check =>
      if l_version l =? version g
      then Some (mkAfter l (set_state g SHARED) (At_rest Returned) false true)
      else goes l g Shared_undo
  | Shared_undo => goes (with_mutex l (unlock_shared (mutex l))) g (At_rest Jumped)
  | _ => None
  end.

(** [reclaimPage] gives the latch back by itself, and [HybridPageGuard::reclaim]
    then forgets it. *)
Definition access_reclaim (l : HybridLatch) (g : Guard) (c : pc) : option after :=
  match c with
  | Reclaim_latched => check (isExclusivelyLatched l) l g Reclaim_add Not_latched
  | Reclaim_add =>
      Some (mkAfter (with_version l (u64 (l_version l + LATCH_EXCLUSIVE_BIT))) g
              Reclaim_mutex true false)
  | Reclaim_mutex =>
      goes (with_mutex l (unlock_mutex (mutex l))) (set_state g MOVED) (At_rest Returned)
  | _ => None
  end.

(** [allocatePage] takes the latch of a free frame, and the guard of the new
    page is then made with the state it is told:
    [Guard(bf->header.latch, GUARD_STATE::EXCLUSIVE)]. *)
Definition access_alloc (l : HybridLatch) (g : Guard) (c : pc) : option after :=
  match c with
  | Alloc_lock => m ← lock (mutex l); goes (with_mutex l m) g Alloc_add
  | Alloc_add =>
      Some (mkAfter (with_version l (u64 (l_version l + LATCH_EXCLUSIVE_BIT))) g
              Alloc_load true false)
  | Alloc_load =>
      goes l (set_state (set_version g (l_version l)) EXCLUSIVE) (At_rest Returned)
  | _ => None
  end.

Definition access_recheck (l : HybridLatch) (g : Guard) (c : pc) : option after :=
  match c with
  | Recheck => goes l g (At_rest (if version g =? l_version l then Returned else Jumped))
  | Recheck_assert => check (version g =? l_version l) l g (At_rest Returned) Version_moved
  | _ => None
  end.

Definition access (ok : bool) (l : HybridLatch) (g : Guard) (c : pc) : option after :=
  match c with
  | At_rest _ | Failed _ => None
  | Recheck | Recheck_assert => access_recheck l g c
  | Unlock_x_latched | Unlock_x_version | Unlock_x_store | Unlock_x_mutex
  | Unlock_s_latched | Unlock_s_version | Unlock_s_mutex => access_unlock l g c
  | Spin_load | Spin_again | Jump_load | OrShared_load | OrExclusive_load =>
      access_optimistic l g c
  | S_lock _ | S_load _ => access_lock_shared l g c
  | X_lock _ | X_load _ | X_store _ => access_lock_exclusive l g c
  | Cas_lock | Cas | Cas_undo => access_cas l g c
  | Try_shared | Shared_check | Shared_undo => access_toShared ok l g c
  | Reclaim_latched | Reclaim_add | Reclaim_mutex => access_reclaim l g c
  | Alloc_lock | Alloc_add | Alloc_load => access_alloc l g c
  end.

(** * Interleaved executions

    Any number of guards on any number of latches.  A guard at rest may start
    any operation; a guard inside one makes its accesses one by one.  Page
    contents are of any type [A], and only a guard that is at rest in the
    state EXCLUSIVE writes them.

    Three ghosts record the past: [incs] is how often the version of a latch
    was incremented, and a guard keeps the count ([stamp]) and the page
    ([snap]) of the moment it last took a version it vouches for. *)

Section executions.
Context {A : Type}.

Record cell := mkCell { gd : Guard; at_ : pc; stamp : Z; snap : option A }.

Record world := World {
  latches : nat -> HybridLatch;
  content : nat -> A;
  incs : nat -> Z;
  guards : gmap nat cell }.

Definition upd {B} (f : nat -> B) (p : nat) (b : B) : nat -> B :=
  fun q => if decide (q = p) then b else f q.

Definition set_guards (w : world) (m : gmap nat cell) : world :=
  World (latches w) (content w) (incs w) m.

Definition resting (t : cell) : bool := match at_ t with At_rest _ => true | _ => false end.
Definition holding (g : Guard) : bool :=
  match state g with SHARED | EXCLUSIVE => true | _ => false end.

(** The guard after an access [a], with [n] increments of the latch made and
    the page [page] under it. *)
Definition arrive (a : after) (n : Z) (page : A) (t : cell) : cell :=
  if a_look a then mkCell (a_guard a) (a_pc a) n (Some page)
  else mkCell (a_guard a) (a_pc a) (stamp t) (snap t).

(** One access of the guard [i] to its latch. *)
Definition run (ok : bool) (i : nat) (w : world) : option world :=
  t ← guards w !! i;
  p ← latch (gd t);
  a ← access ok (latches w p) (gd t) (at_ t);
  let n := if a_inc a then incs w p + 1 else incs w p in
  Some (World (upd (latches w) p (a_latch a)) (content w) (upd (incs w) p n)
          (<[i := arrive a n (content w p) t]> (guards w))).

Definition call (i : nat) (o : op) (w : world) : option world :=
  t ← guards w !! i;
  if resting t
  then Some (set_guards w (<[i := mkCell (gd t) (start o (gd t)) (stamp t) (snap t)]> (guards w)))
  else None.

(** [Guard(latch)], and a guard that is made by [allocatePage]. *)
Definition make (i : nat) (p : option nat) (w : world) : option world :=
  match guards w !! i with
  | Some _ => None
  | None => Some (set_guards w
      (<[i := mkCell (make_guard p) (At_rest Returned) 0 None]> (guards w)))
  end.

Definition allocate (i p : nat) (w : world) : option world :=
  match guards w !! i with
  | Some _ => None
  | None => Some (set_guards w
      (<[i := mkCell (make_guard (Some p)) Alloc_lock 0 None]> (guards w)))
  end.

(** [Guard(Guard&& other)]: [other] is [j]. *)
Definition move_out (t : cell) : cell :=
  mkCell (set_state (gd t) MOVED) (at_ t) (stamp t) (snap t).

Definition move_construct (i j : nat) (w : world) : option world :=
  t ← guards w !! j;
  match guards w !! i with
  | Some _ => None
  | None => if resting t
            then Some (set_guards w (<[j := move_out t]> (<[i := t]> (guards w))))
            else None
  end.

(** The rest of [operator=(Guard&& other)] once its [unlock()] has returned. *)
Definition move_assign (i j : nat) (w : world) : option world :=
  s ← guards w !! i;
  t ← guards w !! j;
  if resting s && negb (holding (gd s)) && resting t
  then Some (set_guards w (<[j := move_out t]> (<[i := t]> (guards w))))
  else None.

(** The end of a guard's life, after the destructor of the page guard has
    unlocked it. *)
Definition drop (i : nat) (w : world) : option world :=
  t ← guards w !! i;
  if resting t && negb (holding (gd t))
  then Some (set_guards w (delete i (guards w))) else None.

Definition write (i : nat) (a : A) (w : world) : option world :=
  t ← guards w !! i;
  p ← latch (gd t);
  if resting t && state_is (state (gd t)) EXCLUSIVE
  then Some (World (latches w) (upd (content w) p a) (incs w) (guards w)) else None.

Inductive label :=
  | Make (i : nat) (p : option nat) | Allocate (i p : nat)
  | Call (i : nat) (o : op) | Run (i : nat) (ok : bool)
  | Move_construct (i j : nat) | Move_assign (i j : nat) | Drop_guard (i : nat)
  | Write_page (i : nat) (a : A).

Definition exec (b : label) (w : world) : option world :=
  match b with
  | Make i p => make i p w
  | Allocate i p => allocate i p w
  | Call i o => call i o w
  | Run i ok => run ok i w
  | Move_construct i j => move_construct i j w
  | Move_assign i j => move_assign i j w
  | Drop_guard i => drop i w
  | Write_page i a => write i a w
  end.

Fixpoint exec_all (bs : list label) (w : world) : option world :=
  match bs with [] => Some w | b :: bs => w ← exec b w; exec_all bs w end.

Definition init_world (pages : nat -> A) : world :=
  World (fun _ => new_latch) pages (fun _ => 0) ∅.

Definition step (w w' : world) : Prop := exists b, exec b w = Some w'.

Definition reachable (w : world) : Prop := exists pages, rtc step (init_world pages) w.

(** ** Who has the latch *)

(** The guards that have the mutex, for writing and for reading, and those
    that have set the version's last bit. *)
Definition acquiring_x (c : pc) : bool :=
  match c with X_load _ | X_store _ | Cas | Cas_undo | Alloc_add | Alloc_load => true | _ => false end.
Definition acquiring_s (c : pc) : bool :=
  match c with S_load _ | Shared_check | Shared_undo => true | _ => false end.
Definition leaving_x (c : pc) : bool :=
  match c with Unlock_x_mutex | Reclaim_mutex => true | _ => false end.

Definition holds_x (t : cell) : bool :=
  state_is (state (gd t)) EXCLUSIVE || acquiring_x (at_ t).
Definition holds_s (t : cell) : bool :=
  state_is (state (gd t)) SHARED || acquiring_s (at_ t).
Definition writing (t : cell) : bool :=
  (state_is (state (gd t)) EXCLUSIVE && negb (leaving_x (at_ t)))
  || match at_ t with Alloc_load => true | _ => false end.

Definition on (p : nat) (P : cell -> bool) (t : cell) : bool :=
  bool_decide (latch (gd t) = Some p) && P t.

(** How many guards of a map satisfy [P]. *)
Definition count (P : cell -> bool) (m : gmap nat cell) : nat :=
  size (filter (fun kt => P kt.2 = true) m).

End executions.
Arguments cell : clear implicits.
Arguments world : clear implicits.
Arguments label : clear implicits.
