(* ===== verification/LatchInv.v ===== *)
(** The invariant of the hybrid latch: in every interleaving the mutex counts
    its holders, the version counts the writers, and every guard's version is
    what its state says it is. *)
From stdpp Require Import gmap relations.
From S2P Require Import Prelude Latch.
Local Open Scope Z_scope.

Section counts.
Context {A : Type}.
Implicit Types (m : gmap nat (cell A)) (P : cell A -> bool) (t : cell A).

Lemma count_fresh P m i t :
  m !! i = None -> count P (<[i := t]> m) = (Nat.b2n (P t) + count P m)%nat.
Proof.
  intros H. unfold count. destruct (P t) eqn:E; cbn [Nat.b2n].
  - rewrite map_filter_insert_True by done.
    rewrite map_size_insert_None; [done|]. apply map_lookup_filter_None. by left.
  - rewrite map_filter_insert_False by (cbn; congruence). by rewrite delete_id.
Qed.

Lemma cells_delete P m i t :
  m !! i = Some t -> count P m = (Nat.b2n (P t) + count P (delete i m))%nat.
Proof.
  intros H. rewrite <- (insert_id m i t) at 1 by done.
  rewrite <- insert_delete_eq. apply count_fresh. apply lookup_delete_eq.
Qed.

Lemma cells_insert P m i t t' :
  m !! i = Some t ->
  (count P (<[i := t']> m) + Nat.b2n (P t) = count P m + Nat.b2n (P t'))%nat.
Proof.
  intros H. rewrite (cells_delete P m i t), <- insert_delete_eq, count_fresh;
    [lia | apply lookup_delete_eq | done].
Qed.

(** Two different guards are counted twice. *)
Lemma count_two P m i j t u :
  m !! i = Some t -> m !! j = Some u -> i <> j ->
  (Nat.b2n (P t) + Nat.b2n (P u) <= count P m)%nat.
Proof.
  intros Hi Hj N. rewrite (cells_delete P m i t) by done.
  rewrite (cells_delete P (delete i m) j u); [lia|]. by rewrite lookup_delete_ne.
Qed.

Lemma count_one P m i t : m !! i = Some t -> (Nat.b2n (P t) <= count P m)%nat.
Proof. intros H. rewrite (cells_delete P m i t) by done. lia. Qed.

Lemma count_exists P m : (0 < count P m)%nat -> exists i t, m !! i = Some t /\ P t = true.
Proof.
  unfold count. intros H. destruct (map_choose (filter (fun kt => P kt.2 = true) m)) as (i & t & E).
  - intros E. rewrite E, map_size_empty in H. lia.
  - apply map_lookup_filter_Some in E as [E1 E2]. by exists i, t.
Qed.

Lemma count_le (P Q : cell A -> bool) (m : gmap nat (cell A)) :
  (forall i t, m !! i = Some t -> P t = true -> Q t = true) -> (count P m <= count Q m)%nat.
Proof.
  induction m as [|i t m Hi IH] using map_ind; intros H; [done|].
  rewrite !count_fresh by done.
  pose proof (H i t (lookup_insert_eq _ _ _)) as Ht.
  assert (count P m <= count Q m)%nat.
  { apply IH. intros j u Hj. apply (H j u). rewrite lookup_insert_ne; [done|].
    by intros ->; rewrite Hj in Hi. }
  destruct (P t), (Q t); cbn; lia.
Qed.
End counts.

(** * The invariant *)

Lemma state_is_true s s' : state_is s s' = true <-> s = s'.
Proof. by destruct s, s'. Qed.

Lemma state_is_false s s' : state_is s s' = false <-> s <> s'.
Proof. by destruct s, s'. Qed.

(** The state of a guard at each point of an operation. *)
Definition pc_state (c : pc) (s : GUARD_STATE) : bool :=
  match c with
  | At_rest _ | Failed _ => true
  | Recheck | Cas_lock | Cas | Cas_undo | Try_shared | Shared_check | Shared_undo =>
      state_is s OPTIMISTIC
  | Recheck_assert => negb (state_is s OPTIMISTIC)
  | Unlock_x_latched | Unlock_x_version | Unlock_x_store | Unlock_x_mutex
  | Reclaim_latched | Reclaim_add | Reclaim_mutex => state_is s EXCLUSIVE
  | Unlock_s_latched | Unlock_s_version | Unlock_s_mutex => state_is s SHARED
  | X_lock _ | X_load _ | X_store _ => state_is s UNINITIALIZED || state_is s MOVED
  | _ => state_is s UNINITIALIZED
  end.

(** The assertions that may stop a guard: those on its own state, and
    [recheck] of a guard that neither is optimistic nor has the latch. *)
Definition excused (c : pc) (g : Guard) : bool :=
  match c with
  | Failed Not_latched | Failed Latched => false
  | Failed Version_moved => negb (holding g) && negb (state_is (state g) OPTIMISTIC)
  | _ => true
  end.

Section invariant.
Context {A : Type}.
Implicit Types (w : world A) (t u : cell A) (l : HybridLatch) (n : Z) (a : A).

(** What a guard's fields say about a latch [l] that was incremented [n]
    times and protects [a]. *)
Record cell_ok l n a t : Prop := {
  ok_pc : pc_state (at_ t) (state (gd t)) = true;
  ok_excused : excused (at_ t) (gd t) = true;
  ok_exclusive : state (gd t) = EXCLUSIVE -> at_ t <> Reclaim_mutex ->
    version (gd t) = l_version l;
  ok_shared : state (gd t) = SHARED -> stamp t = n;
  ok_store : forall c, at_ t = X_store c -> version (gd t) = u64 (n + 1);
  ok_left : at_ t = Unlock_x_mutex -> stamp t = n;
  ok_stamp : state (gd t) = SHARED \/ state (gd t) = OPTIMISTIC \/ at_ t = Unlock_x_mutex ->
    Z.odd (stamp t) = false /\ 0 <= stamp t <= n /\ version (gd t) = u64 (stamp t) /\
    (stamp t = n -> snap t = Some a) }.

(** A guard without a latch. *)
Definition null_ok t : Prop :=
  (resting t = true \/ exists f, at_ t = Failed f /\ (f = Bad_state \/ f = Null_latch)) /\
  (state (gd t) = UNINITIALIZED \/ state (gd t) = MOVED).

Record latch_ok l n (m : gmap nat (cell A)) (p : nat) : Prop := {
  ok_version : l_version l = u64 n /\ 0 <= n;
  ok_mutex : locked (mutex l) = true -> shared (mutex l) = 0%nat;
  ok_locked : count (on p holds_x) m = Nat.b2n (locked (mutex l));
  ok_readers : count (on p holds_s) m = shared (mutex l);
  ok_bit : count (on p writing) m = Nat.b2n (Z.odd n) }.

Record inv w : Prop := {
  inv_latch : forall p, latch_ok (latches w p) (incs w p) (guards w) p;
  inv_cell : forall i t p, guards w !! i = Some t -> latch (gd t) = Some p ->
    cell_ok (latches w p) (incs w p) (content w p) t;
  inv_null : forall i t, guards w !! i = Some t -> latch (gd t) = None -> null_ok t }.

Lemma on_iff p P t : on p P t = true <-> latch (gd t) = Some p /\ P t = true.
Proof. unfold on. rewrite andb_true_iff, bool_decide_eq_true. done. Qed.

Lemma on_other p q (P : cell A -> bool) t : latch (gd t) = Some p -> p <> q -> on q P t = false.
Proof. intros H N. unfold on. rewrite bool_decide_eq_false_2; [done|congruence]. Qed.

Lemma on_here p (P : cell A -> bool) t : latch (gd t) = Some p -> on p P t = P t.
Proof. intros H. unfold on. by rewrite bool_decide_eq_true_2. Qed.

Lemma init_inv (pages : nat -> A) : inv (init_world pages).
Proof.
  split; [|intros i t p H..].
  - intros p. by split.
  - cbn in H. by rewrite lookup_empty in H.
  - cbn in p. by rewrite lookup_empty in p.
Qed.

(** ** Parity of the version *)

Lemma exclusive_bit_odd v : exclusive_bit v = Z.odd v.
Proof.
  unfold exclusive_bit, LATCH_EXCLUSIVE_BIT. change 1 with (Z.ones 1) at 1.
  rewrite Z.land_ones by lia. change (2 ^ 1) with 2. rewrite Zmod_odd. by destruct (Z.odd v).
Qed.

Lemma odd_u64 n : Z.odd (u64 n) = Z.odd n.
Proof.
  unfold wrap. rewrite Z.mod_eq by done. change (2 ^ 64) with (2 * 2 ^ 63).
  rewrite Z.odd_sub, <- Z.mul_assoc, Z.odd_mul. cbn. by rewrite xorb_false_r.
Qed.

Lemma latch_bit l n m p : latch_ok l n m p -> isExclusivelyLatched l = Z.odd n.
Proof.
  intros [[E _] _ _ _ _]. unfold isExclusivelyLatched. by rewrite exclusive_bit_odd, E, odd_u64.
Qed.

Lemma u64_succ n : u64 (u64 n + 1) = u64 (n + 1).
Proof. apply wrap_wrap_add. Qed.

(** ** One guard moves *)

(** The others: a guard on the same latch does not notice that it was
    incremented by a guard that had it exclusively. *)
Lemma other_cell_ok l l' n n' a t m p i j u :
  latch_ok l n m p -> m !! i = Some t -> m !! j = Some u -> i <> j ->
  latch (gd t) = Some p -> latch (gd u) = Some p ->
  n' = n /\ l_version l' = l_version l \/ n' = n + 1 /\ holds_x t = true ->
  cell_ok l n a u -> cell_ok l' n' a u.
Proof.
  intros L Hi Hj N Et Eu Hn C. destruct Hn as [[-> E]|[-> Hx]].
  - destruct C. split; auto. intros. rewrite E. auto.
  - pose proof (count_two (on p holds_x) m i j t u Hi Hj N) as Cx.
    rewrite (ok_locked _ _ _ _ L), !on_here, Hx in Cx by done. cbn in Cx.
    assert (locked (mutex l) = true) as K by (destruct (locked (mutex l)); [done|cbn in Cx; lia]).
    assert (holds_x u = false) as Ux.
    { rewrite K in Cx. destruct (holds_x u); [cbn in Cx; lia|done]. }
    assert (holds_s u = false) as Us.
    { pose proof (count_one (on p holds_s) m j u Hj) as Cs.
      rewrite (ok_readers _ _ _ _ L), (ok_mutex _ _ _ _ L K), on_here in Cs by done.
      destruct (holds_s u); [cbn in Cs; lia|done]. }
    unfold holds_x, holds_s in *. apply orb_false_elim in Ux as [U1 U2], Us as [U3 U4].
    apply state_is_false in U1, U3. destruct C. split; auto; try congruence.
    + intros c Hc. rewrite Hc in U2. discriminate.
    + intros Hc. rewrite Hc in ok_pc0. cbn in ok_pc0. by apply state_is_true in ok_pc0.
    + intros H. destruct (ok_stamp0 H) as (E1 & E2 & E3 & E4). repeat split; auto; lia.
Qed.

Lemma count_move P m i t t' k k' :
  m !! i = Some t -> count P m = k -> (k' + Nat.b2n (P t) = k + Nat.b2n (P t'))%nat ->
  count P (<[i := t']> m) = k'.
Proof. intros H E K. pose proof (cells_insert P m i t t' H). lia. Qed.

Lemma count_still P m i t t' :
  m !! i = Some t -> P t = P t' -> count P (<[i := t']> m) = count P m.
Proof. intros H E. pose proof (cells_insert P m i t t' H) as C. rewrite E in C. lia. Qed.

(** The balance between a latch and the guard that moves on it. *)
Record moves l l' n n' t t' : Prop := {
  mv_version : n' = n /\ l_version l' = l_version l \/
               n' = n + 1 /\ l_version l' = u64 n' /\ holds_x t = true;
  mv_locked : (Nat.b2n (locked (mutex l')) + Nat.b2n (holds_x t)
               = Nat.b2n (locked (mutex l)) + Nat.b2n (holds_x t'))%nat;
  mv_shared : (shared (mutex l') + Nat.b2n (holds_s t)
               = shared (mutex l) + Nat.b2n (holds_s t'))%nat;
  mv_mutex : locked (mutex l') = true -> shared (mutex l') = 0%nat;
  mv_bit : (Nat.b2n (Z.odd n') + Nat.b2n (writing t)
            = Nat.b2n (Z.odd n) + Nat.b2n (writing t'))%nat }.

Lemma latch_ok_here l l' n n' t t' m p i :
  latch_ok l n m p -> m !! i = Some t -> latch (gd t) = Some p -> latch (gd t') = Some p ->
  moves l l' n n' t t' -> latch_ok l' n' (<[i := t']> m) p.
Proof.
  intros L Hi Et Et' M. destruct M as [Mv Ml Ms Mm Mb], L as [[L1 L0] L2 L3 L4 L5]. split.
  - destruct Mv as [[-> E]|(-> & E & _)]; split; (congruence || lia).
  - done.
  - eapply count_move; [done..|]. by rewrite !on_here.
  - eapply count_move; [done..|]. by rewrite !on_here.
  - eapply count_move; [done..|]. by rewrite !on_here.
Qed.

Lemma latch_ok_there l n t t' m p q i :
  latch_ok l n m q -> m !! i = Some t -> latch (gd t) = Some p -> latch (gd t') = Some p ->
  p <> q -> latch_ok l n (<[i := t']> m) q.
Proof.
  intros [L1 L2 L3 L4 L5] Hi Et Et' N.
  split; [done..| | |]; (erewrite count_still; [done..|]);
    by rewrite !(on_other p q) by done.
Qed.

Lemma inv_move w w' i t t' p :
  inv w -> guards w !! i = Some t -> latch (gd t) = Some p -> latch (gd t') = Some p ->
  guards w' = <[i := t']> (guards w) ->
  (forall q, content w' q = content w q) ->
  (forall q, q <> p -> latches w' q = latches w q /\ incs w' q = incs w q) ->
  moves (latches w p) (latches w' p) (incs w p) (incs w' p) t t' ->
  cell_ok (latches w' p) (incs w' p) (content w p) t' ->
  inv w'.
Proof.
  intros I Hi Et Et' Eg Ec Eo M C. split.
  - intros q. rewrite Eg. destruct (decide (q = p)) as [->|N].
    + eapply latch_ok_here; eauto using inv_latch.
    + destruct (Eo q N) as [-> ->]. eapply latch_ok_there; eauto using inv_latch.
  - intros j u q Hj Eu. rewrite Ec. rewrite Eg in Hj. destruct (decide (j = i)) as [->|N].
    + rewrite lookup_insert_eq in Hj. injection Hj as <-. rewrite Et' in Eu. by injection Eu as <-.
    + rewrite lookup_insert_ne in Hj by done. destruct (decide (q = p)) as [->|Nq].
      * eapply other_cell_ok; [apply (inv_latch w I)|exact Hi|exact Hj|done|done|done| |
          by eapply inv_cell]. destruct M as [Mv _ _ _ _]. intuition.
      * destruct (Eo q Nq) as [-> ->]. by eapply inv_cell.
  - intros j u Hj Eu. rewrite Eg in Hj. destruct (decide (j = i)) as [->|N].
    + rewrite lookup_insert_eq in Hj. injection Hj as <-. congruence.
    + rewrite lookup_insert_ne in Hj by done. by eapply inv_null.
Qed.
End invariant.
