(* ===== verification/LatchSteps.v ===== *)
(** Every step of the guards keeps the invariant of the latch. *)
From stdpp Require Import gmap relations.
From S2P Require Import Prelude Latch LatchInv.
Local Open Scope Z_scope.

Section steps.
Context {A : Type}.
Implicit Types (w : world A) (t u : cell A) (l : HybridLatch) (n : Z) (a : A).

(** ** What a guard can conclude about its latch *)

Record sees l n t : Prop := {
  see_version : l_version l = u64 n;
  see_pos : 0 <= n;
  see_mutex : locked (mutex l) = true -> shared (mutex l) = 0%nat;
  see_x : holds_x t = true -> locked (mutex l) = true;
  see_s : holds_s t = true -> locked (mutex l) = false /\ (0 < shared (mutex l))%nat;
  see_odd : writing t = true -> Z.odd n = true;
  see_even : holds_x t = true -> writing t = false -> Z.odd n = false;
  see_free : locked (mutex l) = false -> Z.odd n = false }.

Lemma writing_holds t :
  pc_state (at_ t) (state (gd t)) = true -> writing t = true -> holds_x t = true.
Proof.
  unfold writing, holds_x. destruct (at_ t), (state (gd t)); cbn; done.
Qed.

Lemma writing_le_locked w p : inv w ->
  (count (on p writing) (guards w) <= count (on p holds_x) (guards w))%nat.
Proof.
  intros I. apply count_le. intros i t Hi [Ep Wt]%on_iff. apply on_iff. split; [done|].
  apply writing_holds; [|done]. by eapply ok_pc, inv_cell.
Qed.

Lemma guard_sees w i t p :
  inv w -> guards w !! i = Some t -> latch (gd t) = Some p ->
  sees (latches w p) (incs w p) t.
Proof.
  intros I Hi Et. pose proof (writing_le_locked w p I) as Le.
  destruct (inv_latch w I p) as [[L1 L0] L2 L3 L4 L5]. rewrite L3, L5 in Le.
  pose proof (count_one (on p holds_x) _ i t Hi) as Cx.
  pose proof (count_one (on p holds_s) _ i t Hi) as Cs.
  pose proof (count_one (on p writing) _ i t Hi) as Cw.
  rewrite on_here in Cx, Cs, Cw by done. rewrite L3 in Cx. rewrite L4 in Cs. rewrite L5 in Cw.
  assert (holds_x t = true -> locked (mutex (latches w p)) = true) as Sx.
  { intros E. rewrite E in Cx. destruct (locked _); [done|cbn in Cx; lia]. }
  split; try done.
  - intros E. rewrite E in Cs. cbn in Cs. split; [|lia].
    destruct (locked _); [|done]. rewrite L2 in Cs by done. lia.
  - intros E. rewrite E in Cw. destruct (Z.odd _); [done|cbn in Cw; lia].
  - intros E Ew. apply not_true_is_false. intros O. rewrite O in L5.
    destruct (count_exists (on p writing) (guards w)) as (j & u & Hj & [Eu Wu]%on_iff); [by rewrite L5; cbn; lia|].
    assert (i <> j) as N by (intros ->; rewrite Hi in Hj; congruence).
    pose proof (count_two (on p holds_x) _ i j t u Hi Hj N) as C2.
    rewrite !on_here, E, writing_holds, L3, (Sx E) in C2; try done; [cbn in C2; lia|].
    by eapply ok_pc, inv_cell.
  - intros E. rewrite E in Le. destruct (Z.odd _); [cbn in Le; lia|done].
Qed.

(** ** One access *)

Definition after_n (r : after) n : Z := if a_inc r then n + 1 else n.

Definition keeps l n a t (r : after) : Prop :=
  latch (a_guard r) = latch (gd t) /\
  moves l (a_latch r) n (after_n r n) t (arrive r (after_n r n) a t) /\
  cell_ok (a_latch r) (after_n r n) a (arrive r (after_n r n) a t).

Lemma odd_succ n : Z.odd (n + 1) = negb (Z.odd n).
Proof. rewrite Z.add_1_r, Z.odd_succ, <- Z.negb_odd. done. Qed.

Lemma even_odd_false n : Z.odd n = false -> Z.even n = true.
Proof. intros E. by rewrite <- Z.negb_odd, E. Qed.


(** Uses every hypothesis whose premise holds by computation. *)
Ltac forward :=
  repeat match goal with
  | H : ?x = ?x -> _ |- _ => specialize (H eq_refl)
  | H : ?x = ?x \/ _ -> _ |- _ => specialize (H (or_introl eq_refl))
  | H : _ \/ ?x = ?x \/ _ -> _ |- _ => specialize (H (or_intror (or_introl eq_refl)))
  | H : _ \/ _ \/ ?x = ?x -> _ |- _ => specialize (H (or_intror (or_intror eq_refl)))
  | H : ?P -> _ |- _ => 
      lazymatch type of P with Prop => 
      let K := fresh in assert (K : P) by discriminate; specialize (H K); clear K end
  | H : forall b, ?f _ = ?f b -> _ |- _ => specialize (H _ eq_refl)
  | H : _ /\ _ |- _ => destruct H
  end.

Ltac open_guard t l :=
  destruct t as [[la st v fc] c sp sn], l as [lv [lk sh]];
  unfold holds_x, holds_s, writing, isExclusivelyLatched, load_optimistic, check, goes,
    LATCH_EXCLUSIVE_BIT in *; cbn in *.

Ltac conclude :=
  repeat progress (forward; subst);
  repeat match goal with H : Z.odd ?n = _ |- _ => progress rewrite ?H in * end.

(** The state at this point of the operation, and what it entails. *)
Ltac learn Cp :=
  cbn in Cp; rewrite ?orb_true_iff, ?negb_true_iff, ?state_is_true in Cp;
  try (destruct Cp as [Cp|Cp]); try subst; cbn in *;
  unfold isExclusivelyLatched, check, load_optimistic, goes, try_lock_shared, lock_shared in *; cbn in *;
  rewrite ?exclusive_bit_odd, ?odd_u64 in *; conclude.

Ltac settle :=
  unfold keeps, after_n, arrive, holds_x, holds_s, writing; cbn;
  split; [done|split]; split; cbn; rewrite ?odd_succ, ?u64_succ; intros;
  repeat match goal with H : Z.odd ?n = _ |- _ => progress rewrite ?H in * end;
  try solve [done | lia | congruence | intuition (congruence || lia)].

(** The branches of an access, and the balance of each. *)
Ltac by_access Cp E :=
  learn Cp;
  try match goal with lk : bool, sh : nat |- _ =>
    match type of E with context [lock _] =>
      destruct lk; [discriminate|]; destruct sh; [|discriminate] end end;
  conclude;
  repeat match type of E with
  | context [if ?x =? ?y then _ else _] => destruct (Z.eqb_spec x y); subst
  | context [if ?b then _ else _] => destruct b eqn:?; subst
  end;
  first [discriminate | conclude; cbn in E; injection E as <-; settle].

Lemma access_unlock_keeps l n a t r :
  sees l n t -> cell_ok l n a t ->
  access_unlock l (gd t) (at_ t) = Some r -> keeps l n a t r.
Proof.
  intros [Sv Sp Sm Sx Ss So Se Sf] [Cp Cx Ce Cs Cst Cl Cst2] E. open_guard t l.
  destruct c; try discriminate; by_access Cp E.
Qed.

Lemma access_recheck_keeps l n a t r :
  sees l n t -> cell_ok l n a t ->
  access_recheck l (gd t) (at_ t) = Some r -> keeps l n a t r.
Proof.
  intros [Sv Sp Sm Sx Ss So Se Sf] [Cp Cx Ce Cs Cst Cl Cst2] E. open_guard t l.
  destruct c; try discriminate; [|destruct st]; by_access Cp E.
Qed.

Lemma access_optimistic_keeps l n a t r :
  sees l n t -> cell_ok l n a t ->
  access_optimistic l (gd t) (at_ t) = Some r -> keeps l n a t r.
Proof.
  intros [Sv Sp Sm Sx Ss So Se Sf] [Cp Cx Ce Cs Cst Cl Cst2] E. open_guard t l.
  destruct c; try discriminate; by_access Cp E.
Qed.

Lemma access_lock_shared_keeps l n a t r :
  sees l n t -> cell_ok l n a t ->
  access_lock_shared l (gd t) (at_ t) = Some r -> keeps l n a t r.
Proof.
  intros [Sv Sp Sm Sx Ss So Se Sf] [Cp Cx Ce Cs Cst Cl Cst2] E. open_guard t l.
  destruct c; try discriminate; by_access Cp E.
Qed.

Lemma access_lock_exclusive_keeps l n a t r :
  sees l n t -> cell_ok l n a t ->
  access_lock_exclusive l (gd t) (at_ t) = Some r -> keeps l n a t r.
Proof.
  intros [Sv Sp Sm Sx Ss So Se Sf] [Cp Cx Ce Cs Cst Cl Cst2] E. open_guard t l.
  destruct c; try discriminate; by_access Cp E.
Qed.

Lemma access_cas_keeps l n a t r :
  sees l n t -> cell_ok l n a t ->
  access_cas l (gd t) (at_ t) = Some r -> keeps l n a t r.
Proof.
  intros [Sv Sp Sm Sx Ss So Se Sf] [Cp Cx Ce Cs Cst Cl Cst2] E. open_guard t l.
  destruct c; try discriminate; by_access Cp E.
  right. rewrite <- (u64_succ sp), <- e, u64_succ. done.
Qed.

Lemma access_toShared_keeps ok l n a t r :
  sees l n t -> cell_ok l n a t ->
  access_toShared ok l (gd t) (at_ t) = Some r -> keeps l n a t r.
Proof.
  intros [Sv Sp Sm Sx Ss So Se Sf] [Cp Cx Ce Cs Cst Cl Cst2] E. open_guard t l.
  destruct c; try discriminate; by_access Cp E.
Qed.

Lemma access_reclaim_keeps l n a t r :
  sees l n t -> cell_ok l n a t ->
  access_reclaim l (gd t) (at_ t) = Some r -> keeps l n a t r.
Proof.
  intros [Sv Sp Sm Sx Ss So Se Sf] [Cp Cx Ce Cs Cst Cl Cst2] E. open_guard t l.
  destruct c; try discriminate; by_access Cp E.
Qed.

Lemma access_alloc_keeps l n a t r :
  sees l n t -> cell_ok l n a t ->
  access_alloc l (gd t) (at_ t) = Some r -> keeps l n a t r.
Proof.
  intros [Sv Sp Sm Sx Ss So Se Sf] [Cp Cx Ce Cs Cst Cl Cst2] E. open_guard t l.
  destruct c; try discriminate; by_access Cp E.
Qed.

Lemma access_keeps ok l n a t r :
  sees l n t -> cell_ok l n a t ->
  access ok l (gd t) (at_ t) = Some r -> keeps l n a t r.
Proof.
  intros S C E. unfold access in E. destruct (at_ t) eqn:Ec; try discriminate; rewrite <- Ec in E;
    eauto using access_unlock_keeps, access_recheck_keeps, access_optimistic_keeps,
      access_lock_shared_keeps, access_lock_exclusive_keeps, access_cas_keeps,
      access_toShared_keeps, access_reclaim_keeps, access_alloc_keeps.
Qed.

(** ** The steps of the world *)

Lemma run_inv ok i w w' : inv w -> run ok i w = Some w' -> inv w'.
Proof.
  intros I E. unfold run in E. destruct (guards w !! i) as [t|] eqn:Hi; [|discriminate].
  cbn in E. destruct (latch (gd t)) as [p|] eqn:Et; [|discriminate]. cbn in E.
  destruct (access ok (latches w p) (gd t) (at_ t)) as [r|] eqn:Er; [|discriminate].
  cbn in E. injection E as <-.
  destruct (access_keeps ok _ _ (content w p) _ _ (guard_sees w i t p I Hi Et)
              (inv_cell w I i t p Hi Et) Er) as (K1 & K2 & K3).
  eapply (inv_move w _ i t _ p I Hi Et); cbn; [|done|done| | |].
  - unfold arrive. destruct (a_look r); cbn; congruence.
  - intros q N. unfold upd. by rewrite !decide_False.
  - unfold upd. by rewrite !decide_True.
  - unfold upd. by rewrite !decide_True.
Qed.

(** A guard that does nothing to the latch: it is at rest, or it starts. *)
Definition idle t : Prop := holds_x t = false /\ holds_s t = false /\ writing t = false.

Lemma start_quiet o g :
  acquiring_x (start o g) = false /\ acquiring_s (start o g) = false /\
  leaving_x (start o g) = false /\ start o g <> Alloc_load.
Proof. destruct g as [[p|] [] v f], o; repeat split; cbn; (done || discriminate). Qed.

Lemma start_cell_ok o l n a t p :
  latch (gd t) = Some p -> cell_ok l n a t -> resting t = true ->
  cell_ok l n a (mkCell (gd t) (start o (gd t)) (stamp t) (snap t)).
Proof.
  intros Et [Cp Cx Ce Cs Cst Cl Cst2] R. destruct t as [[la st v fc] c sp sn]. cbn in *.
  subst la. destruct c; try discriminate. destruct o, st; split; cbn; intros; try done;
    first [discriminate | apply Cst2; cbn; intuition discriminate | by apply Ce | by apply Cs].
Qed.

Lemma start_moves o l n t :
  (locked (mutex l) = true -> shared (mutex l) = 0%nat) -> resting t = true ->
  moves l l n n t (mkCell (gd t) (start o (gd t)) (stamp t) (snap t)).
Proof.
  intros M R. destruct (start_quiet o (gd t)) as (Q1 & Q2 & Q3 & Q4).
  assert (acquiring_x (at_ t) = false /\ acquiring_s (at_ t) = false /\
          leaving_x (at_ t) = false /\ at_ t <> Alloc_load) as (R1 & R2 & R3 & R4).
  { destruct t as [? [] ? ?]; try discriminate R. done. }
  split; auto; unfold holds_x, holds_s, writing; cbn [gd at_]; rewrite ?Q1, ?Q2, ?Q3, ?R1, ?R2, ?R3;
    [done..|].
  destruct (start o (gd t)), (at_ t); done || by destruct Q4 || by destruct R4.
Qed.

(** A guard without a latch changes, appears or disappears. *)
Lemma on_none p (P : cell A -> bool) t : latch (gd t) = None -> on p P t = false.
Proof. intros H. unfold on. by rewrite H. Qed.

Lemma on_idle p t : idle t ->
  on p holds_x t = false /\ on p holds_s t = false /\ on p writing t = false.
Proof. intros (E1 & E2 & E3). unfold on. rewrite E1, E2, E3, !andb_false_r. done. Qed.

(** The latches are as before when the guards on them are counted alike. *)
Definition same_counts (m m' : gmap nat (cell A)) : Prop :=
  forall p, count (on p holds_x) m' = count (on p holds_x) m /\
            count (on p holds_s) m' = count (on p holds_s) m /\
            count (on p writing) m' = count (on p writing) m.

Lemma inv_same_counts w m' :
  inv w -> same_counts (guards w) m' ->
  (forall i t p, m' !! i = Some t -> latch (gd t) = Some p ->
     cell_ok (latches w p) (incs w p) (content w p) t) ->
  (forall i t, m' !! i = Some t -> latch (gd t) = None -> null_ok t) ->
  inv (set_guards w m').
Proof.
  intros I S C N. split; cbn; [|done..]. intros p. destruct (S p) as (S1 & S2 & S3).
  destruct (inv_latch w I p). split; cbn; (done || congruence).
Qed.

Lemma latch_inv_fresh w i t :
  inv w -> guards w !! i = None -> idle t ->
  (forall p, latch (gd t) = Some p -> cell_ok (latches w p) (incs w p) (content w p) t) ->
  (latch (gd t) = None -> null_ok t) ->
  inv (set_guards w (<[i := t]> (guards w))).
Proof.
  intros I Hi Id C N. apply inv_same_counts; [done| | |].
  - intros p. destruct (on_idle p t Id) as (E1 & E2 & E3).
    rewrite !count_fresh by done. by rewrite E1, E2, E3.
  - intros j u p Hj Eu. destruct (decide (j = i)) as [->|Nj].
    + rewrite lookup_insert_eq in Hj. injection Hj as <-. auto.
    + rewrite lookup_insert_ne in Hj by done. by eapply inv_cell.
  - intros j u Hj Eu. destruct (decide (j = i)) as [->|Nj].
    + rewrite lookup_insert_eq in Hj. injection Hj as <-. auto.
    + rewrite lookup_insert_ne in Hj by done. by eapply inv_null.
Qed.

Lemma inv_without w i t :
  inv w -> guards w !! i = Some t -> (idle t \/ latch (gd t) = None) ->
  inv (set_guards w (delete i (guards w))).
Proof.
  intros I Hi Id. apply inv_same_counts; [done| | |].
  - intros p. pose proof (cells_delete (on p holds_x) _ i t Hi) as C1.
    pose proof (cells_delete (on p holds_s) _ i t Hi) as C2.
    pose proof (cells_delete (on p writing) _ i t Hi) as C3.
    destruct Id as [Id|Id]; [destruct (on_idle p t Id) as (E1 & E2 & E3); rewrite E1 in C1; rewrite E2 in C2; rewrite E3 in C3|
      rewrite on_none in C1, C2, C3 by done]; cbn in *; lia.
  - intros j u p [N Hj]%lookup_delete_Some Eu. by eapply inv_cell.
  - intros j u [N Hj]%lookup_delete_Some Eu. by eapply inv_null.
Qed.

Lemma make_inv i p w w' : inv w -> make i p w = Some w' -> inv w'.
Proof.
  unfold make. intros I E. destruct (guards w !! i) eqn:Hi; [discriminate|]. injection E as <-.
  apply latch_inv_fresh; [done..| |]; cbn.
  - intros q [= ->]. split; cbn; intros; try done; intuition discriminate.
  - intros _. split; cbn; auto.
Qed.

Lemma allocate_inv i p w w' : inv w -> allocate i p w = Some w' -> inv w'.
Proof.
  unfold allocate. intros I E. destruct (guards w !! i) eqn:Hi; [discriminate|]. injection E as <-.
  apply latch_inv_fresh; [done..| |]; cbn; [|discriminate].
  intros q [= ->]. split; cbn; intros; try done; intuition discriminate.
Qed.

Lemma resting_idle t : resting t = true -> holding (gd t) = false -> idle t.
Proof.
  destruct t as [[la st v fc] c sp sn]. unfold idle, holds_x, holds_s, writing. cbn.
  destruct c, st; try discriminate; done.
Qed.

Lemma drop_inv i w w' : inv w -> drop i w = Some w' -> inv w'.
Proof.
  unfold drop. intros I E. destruct (guards w !! i) as [t|] eqn:Hi; [|discriminate]. cbn in E.
  destruct (resting t) eqn:R; [|discriminate]. destruct (holding (gd t)) eqn:K; [discriminate|].
  injection E as <-. eapply inv_without; [done..|]. left. by apply resting_idle.
Qed.

Lemma start_null o t : latch (gd t) = None -> null_ok t ->
  null_ok (mkCell (gd t) (start o (gd t)) (stamp t) (snap t)).
Proof.
  intros Et [_ S]. split; [|done]. destruct t as [[la st v fc] c sp sn]. cbn in *. subst la.
  destruct S as [->| ->], o; cbn; (by left) || (right; eexists; split; [done|auto]).
Qed.

Lemma call_inv i o w w' : inv w -> call i o w = Some w' -> inv w'.
Proof.
  unfold call. intros I E. destruct (guards w !! i) as [t|] eqn:Hi; [|discriminate]. cbn in E.
  destruct (resting t) eqn:R; [|discriminate]. injection E as <-.
  destruct (latch (gd t)) as [p|] eqn:Et.
  - eapply (inv_move w _ i t (mkCell (gd t) (start o (gd t)) (stamp t) (snap t)) p I Hi Et); cbn; [done..| |].
    + apply start_moves; [|done]. apply (ok_mutex _ _ _ _ (inv_latch w I p)).
    + eapply start_cell_ok; eauto using inv_cell.
  - rewrite <- insert_delete_eq. 
    refine (latch_inv_fresh (set_guards w (delete i (guards w))) i
              (mkCell (gd t) (start o (gd t)) (stamp t) (snap t)) _ _ _ _ _).
    + by eapply inv_without; eauto.
    + apply lookup_delete_eq.
    + pose proof (inv_null w I i t Hi Et) as [_ S]. destruct (start_quiet o (gd t)) as (Q1 & Q2 & Q3 & Q4).
      unfold idle, holds_x, holds_s, writing. cbn. rewrite Q1, Q2.
      destruct S as [-> | ->]; cbn; repeat split; destruct (start o (gd t)); done || by destruct Q4.
    + intros p Ep. cbn in Ep. congruence.
    + intros _. apply start_null; eauto using inv_null.
Qed.

(** ** Moves *)

(** The place a guard moves into: new, or one that has no latch. *)
Definition vacant (m : gmap nat (cell A)) (i : nat) : Prop :=
  match m !! i with None => True | Some s => idle s end.

Lemma move_out_idle t : resting t = true -> idle (move_out t).
Proof. intros R. by apply resting_idle. Qed.

Lemma count_transfer (P : cell A -> bool) m i j t :
  m !! j = Some t -> P (move_out t) = false ->
  match m !! i with None => True | Some s => P s = false end ->
  count P (<[j := move_out t]> (<[i := t]> m)) = count P m.
Proof.
  intros Hj Po Hi. destruct (decide (i = j)) as [->|N].
  - rewrite insert_insert_eq. rewrite Hj in Hi. apply (count_still P m j t); [done|congruence].
  - pose proof (cells_insert P (<[i := t]> m) j t (move_out t)) as C.
    rewrite lookup_insert_ne in C by done. specialize (C Hj). rewrite Po in C.
    destruct (m !! i) as [s|] eqn:Ei.
    + pose proof (cells_insert P m i s t Ei) as C'. rewrite Hi in C'. cbn in *. lia.
    + rewrite (count_fresh P m i t Ei) in C. cbn in *. lia.
Qed.

Lemma move_out_ok l n a t : resting t = true -> cell_ok l n a (move_out t).
Proof.
  destruct t as [[la st v fc] [] sp sn]; try discriminate. intros _.
  split; cbn; intros; try done; intuition discriminate.
Qed.

Lemma move_out_null t : resting t = true -> null_ok (move_out t).
Proof. intros R. split; [by left|by right]. Qed.

Lemma transfer_inv w i j t :
  inv w -> guards w !! j = Some t -> resting t = true -> vacant (guards w) i ->
  inv (set_guards w (<[j := move_out t]> (<[i := t]> (guards w)))).
Proof.
  intros I Hj R V. unfold vacant in V.
  assert (forall k u, <[j := move_out t]> (<[i := t]> (guards w)) !! k = Some u ->
            u = move_out t \/ exists k', guards w !! k' = Some u) as Look.
  { intros k u [[_ <-]|[_ [[_ <-]|[_ H]]%lookup_insert_Some]]%lookup_insert_Some; eauto. }
  apply inv_same_counts; [done| | |].
  - intros p. destruct (on_idle p _ (move_out_idle t R)) as (E1 & E2 & E3).
    repeat split; apply count_transfer; try done; destruct (guards w !! i) as [s|]; try done;
      by apply on_idle.
  - intros k u p Hk Eu. destruct (Look k u Hk) as [->|[k' H]]; [by apply move_out_ok|by eapply inv_cell].
  - intros k u Hk Eu. destruct (Look k u Hk) as [->|[k' H]]; [by apply move_out_null|by eapply inv_null].
Qed.

Lemma move_construct_inv i j w w' : inv w -> move_construct i j w = Some w' -> inv w'.
Proof.
  unfold move_construct. intros I E. destruct (guards w !! j) as [t|] eqn:Hj; [|discriminate].
  cbn in E. destruct (guards w !! i) eqn:Hi; [discriminate|].
  destruct (resting t) eqn:R; [|discriminate]. injection E as <-.
  apply transfer_inv; try done. unfold vacant. by rewrite Hi.
Qed.

Lemma move_assign_inv i j w w' : inv w -> move_assign i j w = Some w' -> inv w'.
Proof.
  unfold move_assign. intros I E. destruct (guards w !! i) as [s|] eqn:Hi; [|discriminate].
  cbn in E. destruct (guards w !! j) as [t|] eqn:Hj; [|discriminate]. cbn in E.
  destruct (resting s) eqn:Rs, (holding (gd s)) eqn:Hs, (resting t) eqn:Rt; try discriminate.
  injection E as <-. apply transfer_inv; try done. unfold vacant. rewrite Hi.
  by apply resting_idle.
Qed.

(** ** Writes *)

(** A page is only written while the count of its latch is odd, and no
    validated guard has an odd count. *)
Lemma write_inv i a w w' : inv w -> write i a w = Some w' -> inv w'.
Proof.
  unfold write. intros I E. destruct (guards w !! i) as [t|] eqn:Hi; [|discriminate].
  cbn in E. destruct (latch (gd t)) as [p|] eqn:Et; [|discriminate]. cbn in E.
  destruct (resting t) eqn:R; [|discriminate].
  destruct (state_is (state (gd t)) EXCLUSIVE) eqn:S; [|discriminate]. injection E as <-.
  assert (Z.odd (incs w p) = true) as O.
  { apply (see_odd _ _ _ (guard_sees w i t p I Hi Et)). unfold writing. rewrite S.
    by destruct t as [? [] ? ?]. }
  split; cbn; [apply (inv_latch w I)| |apply (inv_null w I)].
  intros j u q Hj Eu. destruct (inv_cell w I j u q Hj Eu). split; try done.
  intros H. destruct (ok_stamp H) as (K1 & K2 & K3 & K4). repeat split; try done; try lia.
  intros En. unfold upd. destruct (decide (q = p)) as [->|]; [congruence|auto].
Qed.

Theorem latch_step_inv w w' : step w w' -> inv w -> inv w'.
Proof.
  intros [b E] I. destruct b; cbn in E;
    eauto using make_inv, allocate_inv, call_inv, run_inv, move_construct_inv, move_assign_inv,
      drop_inv, write_inv.
Qed.

Theorem reachable_inv w : reachable w -> inv w.
Proof.
  intros [pages R]. assert (I := init_inv pages).
  induction R as [|w1 w2 w3 S _ IH]; [done|]. apply IH. by eapply latch_step_inv.
Qed.
End steps.
