(* ===== verification/LatchProps.v ===== *)
(** What the hybrid latch guarantees to the code that uses it, whatever the
    interleaving: exclusion, consistent optimistic reads, assertions that hold,
    and waits that have a reason; and the wrappers of PlainGuard.hpp. *)
From stdpp Require Import gmap relations.
From S2P Require Import Prelude Latch LatchInv LatchSteps.
Local Open Scope Z_scope.

Section props.
Context {A : Type}.
Implicit Types (w : world A) (t u : cell A).

(** ** Exclusion *)

Lemma holders_exclude w i j t u p :
  inv w -> guards w !! i = Some t -> guards w !! j = Some u -> i <> j ->
  latch (gd t) = Some p -> latch (gd u) = Some p -> holds_x t = true ->
  holds_x u = false /\ holds_s u = false.
Proof.
  intros I Hi Hj N Et Eu Hx.
  pose proof (see_x _ _ _ (guard_sees w i t p I Hi Et) Hx) as L.
  pose proof (guard_sees w j u p I Hj Eu) as Su. split; apply not_true_is_false; intros K.
  - pose proof (count_two (on p holds_x) _ i j t u Hi Hj N) as C.
    rewrite (ok_locked _ _ _ _ (inv_latch w I p)), !on_here, Hx, K, L in C by done. cbn in C. lia.
  - destruct (see_s _ _ _ Su K) as [L' _]. congruence.
Qed.

Lemma bit_has_writer w p :
  inv w ->
  isExclusivelyLatched (latches w p) = true <->
  exists i t, guards w !! i = Some t /\ latch (gd t) = Some p /\ writing t = true.
Proof.
  intros I. rewrite (latch_bit _ _ _ _ (inv_latch w I p)). split.
  - intros O. pose proof (ok_bit _ _ _ _ (inv_latch w I p)) as B. rewrite O in B.
    destruct (count_exists (on p writing) (guards w)) as (i & t & Hi & [Et Wt]%on_iff);
      [rewrite B; cbn; lia|]. eauto.
  - intros (i & t & Hi & Et & Wt). by apply (see_odd _ _ _ (guard_sees w i t p I Hi Et)).
Qed.

(** C34: in every interleaving of guard operations, a guard that has a latch
    exclusively (from the moment its mutex is locked until it is given back)
    is alone: no other guard has the latch exclusively or shared; and the last
    bit of the version is set exactly while some guard is between setting it
    and clearing it, so an optimistic reader that sees an even version sees
    no writer. *)
Theorem latch_excludes w i t p :
  reachable w -> guards w !! i = Some t -> latch (gd t) = Some p ->
  (holds_x t = true -> forall j u, guards w !! j = Some u -> j <> i -> latch (gd u) = Some p ->
     holds_x u = false /\ holds_s u = false) /\
  (writing t = true -> holds_x t = true /\ isExclusivelyLatched (latches w p) = true) /\
  (isExclusivelyLatched (latches w p) = true ->
     exists j u, guards w !! j = Some u /\ latch (gd u) = Some p /\ writing u = true).
Proof.
  intros I%reachable_inv Hi Et. repeat split.
  - eapply (holders_exclude w i j t u p); eauto.
  - eapply (holders_exclude w i j t u p); eauto.
  - apply writing_holds; [|done]. by eapply ok_pc, inv_cell.
  - apply (bit_has_writer w p I). eauto.
  - by intros ?%(bit_has_writer w p I).
Qed.

(** ** Optimistic reads *)

Lemma step_incs w w' p : step w w' -> incs w p <= incs w' p.
Proof.
  intros [b E]. destruct b; cbn in E;
    unfold make, allocate, call, run, move_construct, move_assign, drop, write in E;
    repeat match type of E with
    | context [match ?x with _ => _ end] => destruct x; try discriminate
    | context [?x ≫= _] => destruct x; cbn in E; try discriminate
    end; injection E as <-; cbn; unfold upd;
    repeat case_match; subst; lia.
Qed.

Lemma steps_incs w w' p : rtc step w w' -> incs w p <= incs w' p.
Proof.
  induction 1 as [|w1 w2 w3 S _ IH]; [lia|]. pose proof (step_incs w1 w2 p S). lia.
Qed.

Lemma steps_inv w w' : inv w -> rtc step w w' -> inv w'.
Proof. intros I R. induction R as [|w1 w2 w3 S _ IH]; [done|]. apply IH. by eapply latch_step_inv. Qed.

Lemma same_version_same_count n m : 0 <= m <= n -> n - m < 2 ^ 64 -> u64 n = u64 m -> n = m.
Proof.
  unfold wrap. intros H1 H2 E.
  assert ((n - m) mod 2 ^ 64 = 0) as K by (by rewrite Zminus_mod, E, Z.sub_diag).
  rewrite Z.mod_small in K by lia. lia.
Qed.

(** A page changes only while the count of its latch is odd. *)
Lemma step_content w w' p :
  inv w -> step w w' -> Z.odd (incs w p) = false -> content w' p = content w p.
Proof.
  intros I [b E] O. destruct b as [| | | | | | |i a]; cbn in E;
    unfold make, allocate, call, run, move_construct, move_assign, drop in E;
    try solve [repeat match type of E with
    | context [match ?x with _ => _ end] => destruct x; try discriminate
    | context [?x ≫= _] => destruct x; cbn in E; try discriminate
    end; by injection E as <-].
  unfold write in E. destruct (guards w !! i) as [t|] eqn:Hi; [|discriminate]. cbn in E.
  destruct (latch (gd t)) as [q|] eqn:Et; [|discriminate]. cbn in E.
  destruct (resting t) eqn:R, (state_is (state (gd t)) EXCLUSIVE) eqn:S; try discriminate.
  injection E as <-. cbn. unfold upd. destruct (decide (p = q)) as [->|]; [|done].
  rewrite (see_odd _ _ _ (guard_sees w i t q I Hi Et)) in O; [done|].
  unfold writing. rewrite S. by destruct t as [? [] ? ?].
Qed.

Lemma steps_content w w' p :
  inv w -> rtc step w w' -> incs w' p = incs w p -> Z.odd (incs w p) = false ->
  content w' p = content w p.
Proof.
  intros I R. induction R as [|w1 w2 w3 S R IH]; [done|]. intros E O.
  pose proof (step_incs w1 w2 p S). pose proof (steps_incs w2 w3 p R).
  assert (incs w2 p = incs w1 p) as E2 by lia.
  rewrite IH; [by apply step_content|by eapply latch_step_inv|lia|by rewrite E2].
Qed.

(** An optimistic guard whose version is still the latch's has seen no writer. *)
Lemma version_vouches w1 w2 i t p :
  inv w1 -> rtc step w1 w2 -> guards w1 !! i = Some t -> latch (gd t) = Some p ->
  state (gd t) = OPTIMISTIC -> l_version (latches w2 p) = version (gd t) ->
  incs w2 p - stamp t < 2 ^ 64 ->
  incs w2 p = incs w1 p /\ content w2 p = content w1 p /\ snap t = Some (content w2 p).
Proof.
  intros I R Hi Et S V B.
  destruct (ok_stamp _ _ _ _ (inv_cell w1 I i t p Hi Et)) as (K1 & K2 & K3 & K4); [auto|].
  pose proof (steps_incs w1 w2 p R) as M. pose proof (steps_inv w1 w2 I R) as I2.
  destruct (ok_version _ _ _ _ (inv_latch w2 I2 p)) as [V2 _].
  assert (incs w2 p = stamp t) as E by (apply same_version_same_count; [lia|done|congruence]).
  assert (stamp t = incs w1 p) as E1 by lia.
  assert (content w2 p = content w1 p) as C by (apply steps_content; [done..|lia|congruence]).
  rewrite C. split; [lia|auto].
Qed.

(** The accesses by which an optimistic guard compares its version with the
    latch's: [recheck], and the upgrades of [toExclusive] and [toShared]. *)
Definition validating (c : pc) : bool :=
  match c with Recheck | Cas | Shared_check => true | _ => false end.

Lemma validation_compares ok i w w' t t' p :
  inv w -> guards w !! i = Some t -> latch (gd t) = Some p -> validating (at_ t) = true ->
  run ok i w = Some w' -> guards w' !! i = Some t' -> at_ t' = At_rest Returned ->
  l_version (latches w p) = version (gd t).
Proof.
  intros I Hi Et V E Hi' Rt. unfold run in E. rewrite Hi in E. cbn in E. rewrite Et in E. cbn in E.
  destruct (access ok (latches w p) (gd t) (at_ t)) as [r|] eqn:Er; [|discriminate].
  cbn in E. injection E as <-. cbn in Hi'. rewrite lookup_insert_eq in Hi'. injection Hi' as <-.
  assert (a_pc r = At_rest Returned) as P by (unfold arrive in Rt; by destruct (a_look r)).
  destruct (at_ t); try discriminate V; cbn in Er.
  - injection Er as <-. cbn in P. destruct (Z.eqb_spec (version (gd t)) (l_version (latches w p))); congruence.
  - destruct (Z.eqb_spec (l_version (latches w p)) (version (gd t))); [done|]. injection Er as <-. discriminate.
  - destruct (Z.eqb_spec (l_version (latches w p)) (version (gd t))); [done|]. injection Er as <-. discriminate.
Qed.

(** C35: an optimistic read is consistent.  A guard is OPTIMISTIC in a world
    [w1], anything happens up to a world [w2], and there the guard, still with
    the version it had, validates it ([recheck], [toShared] or [toExclusive])
    and returns: then the page in [w2] is the page of [w1], no writer having
    had the latch in between, so everything read from the page on the way is
    of one state.  This holds as long as the version has not been incremented
    2^64 times since the guard took it. *)
Theorem optimistic_read_consistent w1 w2 w3 ok i t u v p :
  reachable w1 -> rtc step w1 w2 ->
  guards w1 !! i = Some t -> latch (gd t) = Some p -> state (gd t) = OPTIMISTIC ->
  guards w2 !! i = Some u -> gd u = gd t -> validating (at_ u) = true ->
  run ok i w2 = Some w3 -> guards w3 !! i = Some v -> at_ v = At_rest Returned ->
  incs w2 p - stamp t < 2 ^ 64 ->
  content w2 p = content w1 p /\ incs w2 p = incs w1 p /\ snap t = Some (content w2 p).
Proof.
  intros I%reachable_inv R Ht Et S Hu Eu V E Hv Rv B.
  pose proof (steps_inv w1 w2 I R) as I2.
  pose proof (validation_compares ok i w2 w3 u v p I2 Hu (eq_trans (f_equal latch Eu) Et) V E Hv Rv) as C.
  rewrite Eu in C.
  destruct (version_vouches w1 w2 i t p I R Ht Et S C B) as (E1 & E2 & E3). auto.
Qed.

(** ** Assertions *)

(** C36: the assertions of the guards about their latch hold in every
    interleaving: [unlock] of an exclusive guard finds the latch exclusively
    latched and its own version, [unlock] of a shared guard finds it not so and
    its own version, [reclaimPage] finds it exclusively latched; the assertion
    of [recheck] can only fail for a guard that is neither optimistic nor has
    the latch. *)
Theorem latch_assertions_hold w i t :
  reachable w -> guards w !! i = Some t ->
  at_ t <> Failed Not_latched /\ at_ t <> Failed Latched /\
  (at_ t = Failed Version_moved -> state (gd t) = UNINITIALIZED \/ state (gd t) = MOVED).
Proof.
  intros I%reachable_inv Hi. destruct (latch (gd t)) as [p|] eqn:Et.
  - pose proof (ok_excused _ _ _ _ (inv_cell w I i t p Hi Et)) as X.
    unfold excused, holding in X. repeat split; intros E; rewrite E in X; try discriminate.
    destruct (state (gd t)); try discriminate; auto.
  - destruct (inv_null w I i t Hi Et) as [[R|(f & E & [-> | ->])] S]; rewrite ?E;
      repeat split; try discriminate; unfold resting in R; intros E; rewrite E in R; discriminate.
Qed.

(** ** Waiting *)

Definition stopped t : bool := match at_ t with At_rest _ | Failed _ => true | _ => false end.

Lemma holder_runs ok w j u p :
  inv w -> guards w !! j = Some u -> latch (gd u) = Some p ->
  holds_x u = true \/ holds_s u = true -> stopped u = false -> is_Some (run ok j w).
Proof.
  intros I Hj Eu H S. pose proof (ok_pc _ _ _ _ (inv_cell w I j u p Hj Eu)) as P.
  unfold run. rewrite Hj. cbn. rewrite Eu. cbn.
  assert (is_Some (access ok (latches w p) (gd u) (at_ u))) as [r ->]; [|by eexists].
  destruct u as [[la st v fc] c sp sn]. unfold holds_x, holds_s, stopped in *. cbn in *.
  destruct c; try discriminate; cbn in *;
    unfold access_unlock, access_reclaim, load_optimistic, check, goes;
    repeat match goal with |- context [if ?b then _ else _] => destruct b end;
    try (by eexists);
    destruct st; try discriminate P; destruct H; discriminate.
Qed.

Lemma lock_waits m : lock m = None -> locked m = true \/ (0 < shared m)%nat.
Proof. unfold lock. destruct (locked m); [by left|]. destruct (shared m); [done|right; lia]. Qed.

Lemma latch_has_holder w p :
  inv w -> locked (mutex (latches w p)) = true \/ (0 < shared (mutex (latches w p)))%nat ->
  exists j u, guards w !! j = Some u /\ latch (gd u) = Some p /\ (holds_x u = true \/ holds_s u = true).
Proof.
  intros I [L|L].
  - pose proof (ok_locked _ _ _ _ (inv_latch w I p)) as C. rewrite L in C.
    destruct (count_exists (on p holds_x) (guards w)) as (j & u & Hj & [E1 E2]%on_iff);
      [rewrite C; cbn; lia|]. eauto 10.
  - rewrite <- (ok_readers _ _ _ _ (inv_latch w I p)) in L.
    apply count_exists in L as (j & u & Hj & [E1 E2]%on_iff). eauto 10.
Qed.

Lemma blocked_waits ok w i t p :
  inv w -> guards w !! i = Some t -> latch (gd t) = Some p -> stopped t = false ->
  run ok i w = None ->
  locked (mutex (latches w p)) = true \/ (0 < shared (mutex (latches w p)))%nat.
Proof.
  intros I Hi Et S E. unfold run in E. rewrite Hi in E. cbn in E. rewrite Et in E. cbn in E.
  destruct (access ok (latches w p) (gd t) (at_ t)) as [r|] eqn:Er; [discriminate|].
  unfold stopped in S. unfold access in Er.
  destruct (at_ t); try discriminate S; cbn in Er;
    unfold load_optimistic, check, goes, try_lock_shared in Er;
    repeat match type of Er with
    | context [lock ?m] => destruct (lock m) eqn:?
    | context [lock_shared ?m] => unfold lock_shared in Er; destruct (locked m) eqn:?
    | context [if ?b then _ else _] => destruct b
    end; try discriminate; auto using lock_waits.
Qed.

(** C37: no guard waits without a reason.  If the next access of a guard that
    is inside an operation has to wait, then another guard has the latch, and
    that guard is at rest or stopped by an assertion, or can make its next
    access at once: a guard that has the latch never waits for it, and every
    wait ends when the holder gives the latch back. *)
Theorem latch_waits_for_holder ok w i t p :
  reachable w -> guards w !! i = Some t -> latch (gd t) = Some p -> stopped t = false ->
  run ok i w = None ->
  exists j u, j <> i /\ guards w !! j = Some u /\ latch (gd u) = Some p /\
    (holds_x u = true \/ holds_s u = true) /\
    (stopped u = true \/ is_Some (run ok j w)).
Proof.
  intros I%reachable_inv Hi Et S E.
  destruct (latch_has_holder w p I (blocked_waits ok w i t p I Hi Et S E)) as (j & u & Hj & Eu & Hu).
  destruct (stopped u) eqn:Su.
  - exists j, u. repeat split; auto. intros ->. congruence.
  - pose proof (holder_runs ok w j u p I Hj Eu Hu Su) as R. exists j, u. repeat split; auto.
    intros ->. rewrite E in R. by destruct R.
Qed.
End props.

(** * The wrappers of PlainGuard.hpp

    The constructors and destructors as a thread runs them when no other
    guard is on the latch; an operation makes at most five accesses. *)

Fixpoint finish (fuel : nat) (l : HybridLatch) (g : Guard) (c : pc)
  : option (HybridLatch * Guard * outcome) :=
  match c, fuel with
  | At_rest o, _ => Some (l, g, o)
  | Failed _, _ | _, O => None
  | _, S fuel => a ← access true l g c; finish fuel (a_latch a) (a_guard a) (a_pc a)
  end.

Definition perform (o : op) (l : HybridLatch) (g : Guard) : option (HybridLatch * Guard * outcome) :=
  finish 5 l g (start o g).

Definition OptimisticGuard (l : HybridLatch) (p : nat) : option (HybridLatch * Guard * outcome) :=
  perform toOptimisticSpin l (make_guard (Some p)).
(** The constructor with the extra [bool]. *)
Definition OptimisticGuard_or_jump (l : HybridLatch) (p : nat)
  : option (HybridLatch * Guard * outcome) :=
  perform toOptimisticOrJump l (make_guard (Some p)).

Definition ExclusiveGuard (l : HybridLatch) (g : Guard) : option (HybridLatch * Guard * outcome) :=
  perform toExclusive l g.
Definition ExclusiveGuard_destroy (l : HybridLatch) (g : Guard)
  : option (HybridLatch * Guard * outcome) := perform unlock l g.

Definition SharedGuard (l : HybridLatch) (g : Guard) : option (HybridLatch * Guard * outcome) :=
  perform toShared l g.
Definition SharedGuard_destroy (l : HybridLatch) (g : Guard)
  : option (HybridLatch * Guard * outcome) := perform unlock l g.

(** [was_exclusive] is kept for the destructor. *)
Definition ExclusiveUpgradeIfNeeded (l : HybridLatch) (g : Guard)
  : option (bool * (HybridLatch * Guard * outcome)) :=
  r ← perform toExclusive l g; Some (state_is (state g) EXCLUSIVE, r).
Definition ExclusiveUpgradeIfNeeded_destroy (was_exclusive : bool) (l : HybridLatch) (g : Guard)
  : option (HybridLatch * Guard * outcome) :=
  if was_exclusive then Some (l, g, Returned) else perform unlock l g.

(** A latch that nobody has. *)
Definition free_latch (l : HybridLatch) : Prop :=
  l_version l = u64 (l_version l) /\ Z.odd (l_version l) = false /\
  mutex l = mkMutex false 0.

(** The guard an optimistic constructor returns on a free latch. *)
Definition fresh_guard (l : HybridLatch) (p : nat) : Guard :=
  mkGuard (Some p) OPTIMISTIC (l_version l) false.

Lemma odd_next v : Z.odd v = false -> exclusive_bit (u64 (v + 1)) = true.
Proof. intros E. by rewrite exclusive_bit_odd, odd_u64, odd_succ, E. Qed.

Lemma finish_step f l g c a :
  access true l g c = Some a -> finish (S f) l g c = finish f (a_latch a) (a_guard a) (a_pc a).
Proof. intros E. destruct c; try discriminate; cbn [finish]; by rewrite E. Qed.

Lemma finish_rest f l g o : finish f l g (At_rest o) = Some (l, g, o).
Proof. by destruct f. Qed.

Lemma load_on_free l g c :
  Z.odd (l_version l) = false ->
  load_optimistic l g c =
    Some (mkAfter l (set_state (set_version g (l_version l)) OPTIMISTIC) (At_rest Returned) false true).
Proof. intros O. unfold load_optimistic. cbn. by rewrite exclusive_bit_odd, O. Qed.

Lemma optimistic_on_free l p :
  free_latch l ->
  OptimisticGuard l p = Some (l, fresh_guard l p, Returned) /\
  OptimisticGuard_or_jump l p = Some (l, fresh_guard l p, Returned).
Proof.
  intros (_ & O & _). unfold OptimisticGuard, OptimisticGuard_or_jump, perform.
  cbn [start start_optimistic make_guard state latch].
  split; (erewrite finish_step; [|cbn [access access_optimistic]; by apply load_on_free]);
    cbn [a_latch a_guard a_pc]; rewrite finish_rest; [|done].
  unfold isExclusivelyLatched. by rewrite exclusive_bit_odd, O.
Qed.

Lemma two_apart v : u64 (v + 2) <> u64 v.
Proof.
  unfold wrap. intros E.
  assert ((v + 2 - v) mod 2 ^ 64 = 0) as K by (by rewrite Zminus_mod, E, Z.sub_diag).
  replace (v + 2 - v) with 2 in K by lia. discriminate.
Qed.

Local Opaque wrap.

(** The latch while the guard [g] of version [v] writes. *)
Definition taken (v : Z) : HybridLatch := mkLatch (u64 (v + 1)) (mkMutex true 0).
Definition writer (v : Z) (g : Guard) : Guard :=
  mkGuard (latch g) EXCLUSIVE (u64 (v + 1)) (faced_contention g).

Lemma exclusive_on_free l g p :
  free_latch l -> latch g = Some p -> state g = OPTIMISTIC ->
  ExclusiveGuard l g =
    if l_version l =? version g
    then Some (taken (version g), writer (version g) g, Returned)
    else Some (l, g, Jumped).
Proof.
  destruct l as [lv m], g as [la st v f]. intros (_ & O & M) Et S.
  cbn [l_version mutex latch state version] in *. subst.
  unfold ExclusiveGuard, perform. cbn [start start_toExclusive on_latch state latch].
  erewrite finish_step by reflexivity. cbn [a_latch a_guard a_pc].
  destruct (Z.eqb_spec lv v) as [->|N].
  - erewrite finish_step by (cbn; by rewrite Z.eqb_refl).
    cbn [a_latch a_guard a_pc]. rewrite finish_rest. reflexivity.
  - apply Z.eqb_neq in N. erewrite finish_step by (cbn; by rewrite N).
    by erewrite finish_step by reflexivity.
Qed.

Lemma destroy_writer v g p :
  Z.odd v = false -> latch g = Some p ->
  ExclusiveGuard_destroy (taken v) (writer v g) =
    Some (mkLatch (u64 (v + 2)) (mkMutex false 0),
          mkGuard (latch g) OPTIMISTIC (u64 (v + 2)) (faced_contention g), Returned).
Proof.
  destruct g as [la st gv f]. cbn [latch faced_contention]. intros O Et. subst la.
  unfold ExclusiveGuard_destroy, perform, start, start_unlock, on_latch.
  cbn [state writer latch].
  erewrite finish_step by (cbn; unfold isExclusivelyLatched; cbn; by rewrite odd_next).
  erewrite finish_step by (cbn; by rewrite Z.eqb_refl).
  erewrite finish_step by reflexivity. erewrite finish_step by reflexivity.
  cbn [a_latch a_guard a_pc]. rewrite finish_rest. cbn.
  unfold LATCH_EXCLUSIVE_BIT. rewrite (u64_succ (v + 1)).
  replace (v + 1 + 1) with (v + 2) by lia. reflexivity.
Qed.

Lemma recheck_spec l g p :
  latch g = Some p -> state g = OPTIMISTIC ->
  perform recheck l g = Some (l, g, if version g =? l_version l then Returned else Jumped).
Proof.
  destruct g as [la st v f]. cbn [latch state version]. intros -> ->. unfold perform.
  erewrite finish_step by reflexivity. apply finish_rest.
Qed.

(** An exclusive section on a free latch: [OptimisticGuard] followed by
    [ExclusiveGuard] and its destructor leaves the latch free with its version
    two further; the guard that did it stays valid ([recheck] returns), while
    every other optimistic guard of the old version is sent away: its
    [recheck] jumps and so does its [ExclusiveGuard], without touching the
    latch. *)
Theorem exclusive_section l p g :
  free_latch l -> latch g = Some p -> state g = OPTIMISTIC -> version g = l_version l ->
  exists l1 g1 l2 g2,
    ExclusiveGuard l (fresh_guard l p) = Some (l1, g1, Returned) /\
    isExclusivelyLatched l1 = true /\ state g1 = EXCLUSIVE /\
    ExclusiveGuard_destroy l1 g1 = Some (l2, g2, Returned) /\
    free_latch l2 /\ l_version l2 = u64 (l_version l + 2) /\
    perform recheck l2 g2 = Some (l2, g2, Returned) /\
    perform recheck l2 g = Some (l2, g, Jumped) /\
    ExclusiveGuard l2 g = Some (l2, g, Jumped).
Proof.
  intros F Et S V. pose proof F as (W & O & _).
  rewrite (exclusive_on_free l (fresh_guard l p) p) by done. cbn [version fresh_guard].
  rewrite Z.eqb_refl. do 4 eexists. split; [reflexivity|].
  split; [by apply odd_next|]. split; [done|].
  split; [by apply (destroy_writer (l_version l) (fresh_guard l p) p)|].
  assert (free_latch (mkLatch (u64 (l_version l + 2)) (mkMutex false 0))) as F2.
  { split; [|split; [|done]]; cbn [l_version].
    - symmetry. apply wrap_small, wrap_in_width. lia.
    - rewrite odd_u64, Z.odd_add, O. done. }
  assert (u64 (l_version l + 2) <> version g) as N.
  { rewrite V. intros E. apply (two_apart (l_version l)). congruence. }
  split; [done|]. split; [done|]. split; [|split].
  - rewrite (recheck_spec _ _ p) by done. cbn [version l_version]. by rewrite Z.eqb_refl.
  - rewrite (recheck_spec _ _ p) by done. cbn [l_version]. destruct (Z.eqb_spec (version g) (u64 (l_version l + 2))); congruence.
  - rewrite (exclusive_on_free _ _ p) by done. cbn [l_version]. destruct (Z.eqb_spec (u64 (l_version l + 2)) (version g)); congruence.
Qed.

(** [ExclusiveUpgradeIfNeeded] leaves a guard that was exclusive as it is. *)
Lemma upgrade_if_needed_nested l g :
  state g = EXCLUSIVE ->
  ExclusiveUpgradeIfNeeded l g = Some (true, (l, g, Returned)) /\
  ExclusiveUpgradeIfNeeded_destroy true l g = Some (l, g, Returned).
Proof. destruct g as [la st v f]. cbn [state]. intros ->. split; reflexivity. Qed.

(** * Executions *)

Local Transparent wrap.

Definition sample_pages : nat -> Z := fun p => 7.
Definition world_after (bs : list (label Z)) : world Z :=
  default (init_world sample_pages) (exec_all bs (init_world sample_pages)).

Lemma exec_all_steps {A} bs (w w' : world A) : exec_all bs w = Some w' -> rtc step w w'.
Proof.
  revert w. induction bs as [|b bs IH]; cbn; intros w E; [by injection E as ->|].
  destruct (exec b w) as [w1|] eqn:E1; [|discriminate]. cbn in E.
  eapply rtc_l; [by exists b|]. by apply IH.
Qed.

Lemma world_after_reachable bs : reachable (world_after bs).
Proof.
  exists sample_pages. unfold world_after. destruct (exec_all bs _) as [w|] eqn:E; [|done].
  by eapply exec_all_steps.
Qed.

Definition runs (i n : nat) : list (label Z) := repeat (Run i true) n.

(** Guard 1 reads optimistically, guard 2 allocates, writes and unlocks
    another page, and guard 3 waits for the first one, upgraded. *)
Definition sample_read : list (label Z) :=
  [Make 1%nat (Some 0%nat); Call 1%nat toOptimisticSpin; Run 1%nat true].
Definition sample_busy : list (label Z) :=
  sample_read ++ [Allocate 2%nat 5%nat] ++ runs 2 3 ++ [Write_page 2%nat 9; Call 2%nat unlock]
    ++ runs 2 4 ++ [Call 1%nat recheck].
Definition sample_wait : list (label Z) :=
  sample_read ++ [Call 1%nat toExclusive] ++ runs 1 2 ++
  [Make 3%nat (Some 0%nat); Call 3%nat toOptimisticOrShared; Run 3%nat true].

(** Two guards upgraded: exclusion at work. *)
Lemma latch_excludes_witness :
  exists t, guards (world_after sample_wait) !! 1%nat = Some t /\ holds_x t = true /\
    (holds_x t = true ->
     forall j u, guards (world_after sample_wait) !! j = Some u -> j <> 1%nat ->
       latch (gd u) = Some 0%nat -> holds_x u = false /\ holds_s u = false).
Proof.
  eexists. split; [vm_compute; reflexivity|]. split; [vm_compute; reflexivity|].
  eapply (latch_excludes (world_after sample_wait) 1 _ 0);
    [apply world_after_reachable|vm_compute; reflexivity|vm_compute; reflexivity].
Defined.

Lemma optimistic_read_consistent_witness :
  content (world_after sample_busy) 0%nat = content (world_after sample_read) 0%nat /\
  incs (world_after sample_busy) 0%nat = incs (world_after sample_read) 0%nat /\
  Some 7 = Some (content (world_after sample_busy) 0%nat).
Proof.
  eapply (optimistic_read_consistent (world_after sample_read) (world_after sample_busy)
            (default (world_after sample_busy) (run true 1 (world_after sample_busy))) true 1
            (mkCell (mkGuard (Some 0%nat) OPTIMISTIC 0 false) (At_rest Returned) 0 (Some 7)));
    [apply world_after_reachable
    |apply (exec_all_steps (skipn (length sample_read) sample_busy)); vm_compute; reflexivity
    |vm_compute; reflexivity..].
Defined.

Lemma latch_assertions_hold_witness :
  exists t, guards (world_after sample_busy) !! 2%nat = Some t /\
    at_ t <> Failed Not_latched /\ at_ t <> Failed Latched /\
    (at_ t = Failed Version_moved -> state (gd t) = UNINITIALIZED \/ state (gd t) = MOVED).
Proof.
  eexists. split; [vm_compute; reflexivity|].
  apply (latch_assertions_hold (world_after sample_busy) 2);
    [apply world_after_reachable|vm_compute; reflexivity].
Defined.

Lemma latch_waits_for_holder_witness :
  run true 3 (world_after sample_wait) = None /\
  exists j u, j <> 3%nat /\ guards (world_after sample_wait) !! j = Some u /\
    latch (gd u) = Some 0%nat /\ (holds_x u = true \/ holds_s u = true) /\
    (stopped u = true \/ is_Some (run true j (world_after sample_wait))).
Proof.
  split; [vm_compute; reflexivity|].
  eapply (latch_waits_for_holder true (world_after sample_wait) 3);
    [apply world_after_reachable|vm_compute; reflexivity..].
Defined.

(** The section at version 6. *)
Lemma exclusive_section_witness :
  exists l1 g1 l2 g2,
    ExclusiveGuard (mkLatch 6 (mkMutex false 0)) (mkGuard (Some 1%nat) OPTIMISTIC 6 false)
      = Some (l1, g1, Returned) /\
    isExclusivelyLatched l1 = true /\ state g1 = EXCLUSIVE /\
    ExclusiveGuard_destroy l1 g1 = Some (l2, g2, Returned) /\
    free_latch l2 /\ l_version l2 = u64 (6 + 2) /\
    perform recheck l2 g2 = Some (l2, g2, Returned) /\
    perform recheck l2 (mkGuard (Some 1%nat) OPTIMISTIC 6 true)
      = Some (l2, mkGuard (Some 1%nat) OPTIMISTIC 6 true, Jumped) /\
    ExclusiveGuard l2 (mkGuard (Some 1%nat) OPTIMISTIC 6 true)
      = Some (l2, mkGuard (Some 1%nat) OPTIMISTIC 6 true, Jumped).
Proof.
  apply (exclusive_section (mkLatch 6 (mkMutex false 0)) 1 (mkGuard (Some 1%nat) OPTIMISTIC 6 true));
    [split; [vm_compute|split]; reflexivity|reflexivity..].
Defined.
