(* ===== verification/Swip.v ===== *)
(** Swips (src/backend/leanstore/storage/buffer-manager/Swip.hpp): the 64-bit
    word an inner page keeps for a child, either the address of a buffer frame,
    hot or cooling, or a page identifier on the SSD.  The two top bits are the
    tag: 1x evicted, 01 cooling, 00 hot. *)
From stdpp Require Import base.
From S2P Require Import Prelude.
Local Open Scope Z_scope.

Definition evicted_bit : Z := Z.shiftl 1 63.
Definition evicted_mask : Z := u64 (Z.lnot (Z.shiftl 1 63)).
Definition cool_bit : Z := Z.shiftl 1 62.
Definition cool_mask : Z := u64 (Z.lnot (Z.shiftl 1 62)).
Definition hot_mask : Z := u64 (Z.lnot (Z.shiftl 3 62)).

(** The [static_assert]s of the class. *)
Example swip_constants :
  evicted_bit = 0x8000000000000000 /\ evicted_mask = 0x7FFFFFFFFFFFFFFF /\ hot_mask = 0x3FFFFFFFFFFFFFFF.
Proof. by vm_compute. Qed.

(** A swip is its raw word. *)
Definition isHOT (pid : Z) : bool := Z.land pid (Z.lor evicted_bit cool_bit) =? 0.
Definition isCOOL (pid : Z) : bool := negb (Z.land pid cool_bit =? 0).
Definition isEVICTED (pid : Z) : bool := negb (Z.land pid evicted_bit =? 0).
Definition asPageID (pid : Z) : Z := Z.land pid evicted_mask.
Definition bfPtr (pid : Z) : Z := pid.
Definition bfPtrAsHot (pid : Z) : Z := Z.land pid hot_mask.
Definition warm_to (pid bf : Z) : Z := bf.
(** [assert(isCOOL())] *)
Definition warm (pid : Z) : option Z := if isCOOL pid then Some (Z.land pid (u64 (Z.lnot cool_bit))) else None.
Definition cool (pid : Z) : Z := Z.lor pid cool_bit.
Definition evict (pid new_pid : Z) : Z := Z.lor new_pid evicted_bit.

(** * What a swip stands for *)

Inductive swip := HOT (bf : Z) | COOL (bf : Z) | EVICTED (pid : Z).

#[export] Instance swip_eq_dec : EqDecision swip.
Proof. solve_decision. Defined.

(** Frame addresses and page identifiers leave the tag bits free. *)
Definition swip_valid (s : swip) : Prop :=
  match s with HOT b | COOL b | EVICTED b => 0 <= b < 2 ^ 62 end.

Definition raw_of (s : swip) : Z :=
  match s with
  | HOT b => b
  | COOL b => Z.lor b cool_bit
  | EVICTED pid => Z.lor pid evicted_bit
  end.

(** The tag, read in the order the buffer manager reads it. *)
Definition classify (pid : Z) : swip :=
  if isHOT pid then HOT (bfPtr pid)
  else if isCOOL pid then COOL (bfPtrAsHot pid)
  else EVICTED (asPageID pid).

Definition is_hot (s : swip) : bool := match s with HOT _ => true | _ => false end.
Definition is_cool (s : swip) : bool := match s with COOL _ => true | _ => false end.

(** The three operations of the buffer manager on a swip: unswizzle for
    cooling, swizzle again, write out and drop. *)
Definition swip_cool (s : swip) : option swip := match s with HOT b => Some (COOL b) | _ => None end.
Definition swip_warm (s : swip) : option swip := match s with COOL b => Some (HOT b) | _ => None end.
Definition swip_evict (s : swip) (pid : Z) : option swip := match s with COOL _ => Some (EVICTED pid) | _ => None end.

(** * Bits *)

Section low.
Context (b : Z) (Hb : 0 <= b < 2 ^ 62).

Lemma low_ones : Z.land b (Z.ones 62) = b.
Proof. rewrite Z.land_ones by done. by apply Z.mod_small. Qed.

(** A mask acts on an address through its low 62 bits only. *)
Lemma land_low m m' : Z.land (Z.ones 62) m = m' -> Z.land b m = Z.land b m'.
Proof. intros <-. by rewrite Z.land_assoc, low_ones. Qed.

Lemma land_low_0 m : Z.land (Z.ones 62) m = 0 -> Z.land b m = 0.
Proof. intros H. by rewrite (land_low _ _ H), Z.land_0_r. Qed.

Lemma land_low_id m : Z.land (Z.ones 62) m = Z.ones 62 -> Z.land b m = b.
Proof. intros H. by rewrite (land_low _ _ H), low_ones. Qed.

(** The same for an address with a tag. *)
Lemma tag_0 tag m : Z.land (Z.ones 62) m = 0 -> Z.land (Z.lor b tag) m = Z.land tag m.
Proof. intros H. by rewrite Z.land_lor_distr_l, land_low_0, Z.lor_0_l. Qed.

Lemma tag_id tag m :
  Z.land (Z.ones 62) m = Z.ones 62 -> Z.land tag m = 0 -> Z.land (Z.lor b tag) m = b.
Proof. intros H1 H2. by rewrite Z.land_lor_distr_l, land_low_id, H2, Z.lor_0_r. Qed.

Lemma hot_tests : isHOT b = true /\ isCOOL b = false /\ isEVICTED b = false.
Proof. unfold isHOT, isCOOL, isEVICTED. by rewrite !land_low_0 by reflexivity. Qed.

Lemma cool_tests :
  let w := Z.lor b cool_bit in
  isHOT w = false /\ isCOOL w = true /\ isEVICTED w = false /\ bfPtrAsHot w = b /\ warm w = Some b.
Proof.
  intros w. unfold warm, isHOT, isCOOL, isEVICTED, bfPtrAsHot, w.
  rewrite !(tag_0 _ (Z.lor evicted_bit cool_bit)), !(tag_0 _ cool_bit), (tag_0 _ evicted_bit) by reflexivity.
  by rewrite !tag_id by reflexivity.
Qed.

Lemma evicted_tests :
  let w := Z.lor b evicted_bit in
  isHOT w = false /\ isCOOL w = false /\ isEVICTED w = true /\ asPageID w = b.
Proof.
  intros w. unfold isHOT, isCOOL, isEVICTED, asPageID, w.
  rewrite !(tag_0 _ (Z.lor evicted_bit cool_bit)), !(tag_0 _ cool_bit), (tag_0 _ evicted_bit) by reflexivity.
  by rewrite !tag_id by reflexivity.
Qed.

Lemma tag_width tag : 0 <= tag < 2 ^ 64 -> in_width 64 (Z.lor b tag).
Proof.
  intros Ht. unfold in_width. split; [by apply Z.lor_nonneg; lia|].
  destruct (decide (Z.lor b tag = 0)) as [->|Hn]; [done|].
  apply Z.log2_lt_pow2; [pose proof (proj2 (Z.lor_nonneg b tag) ltac:(lia)); lia|].
  rewrite Z.log2_lor by lia. apply Z.max_lub_lt.
  - destruct (decide (b = 0)) as [->|]; [done|]. apply Z.lt_trans with 62; [|done]. apply Z.log2_lt_pow2; lia.
  - destruct (decide (tag = 0)) as [->|]; [done|]. apply Z.log2_lt_pow2; lia.
Qed.

End low.

(** * Properties *)

(** C14: type safety of the tagged word.  A frame address or page identifier
    below 2^62 and a tag make a 64-bit word from which the tests and the
    accessors of [Swip] give back exactly that address and tag; exactly one of
    [isHOT], [isCOOL] and [isEVICTED] holds; and [cool], [warm] and [evict] are
    the transitions hot to cooling, cooling to hot and to evicted, the
    assertion of [warm] holding exactly on a cooling swip. *)
Theorem swip_typed s new_pid :
  swip_valid s -> 0 <= new_pid < 2 ^ 62 ->
  let w := raw_of s in
  in_width 64 w /\ classify w = s /\
  isHOT w = is_hot s /\ isCOOL w = is_cool s /\
  isEVICTED w = negb (isHOT w || isCOOL w) /\
  (forall s', swip_cool s = Some s' -> raw_of s' = cool w /\ swip_valid s') /\
  warm w = raw_of <$> swip_warm s /\
  (forall s', swip_evict s new_pid = Some s' -> raw_of s' = evict w new_pid /\ swip_valid s').
Proof.
  intros Hs Hp w. destruct s as [b|b|b]; simpl in Hs, w.
  - destruct (hot_tests b Hs) as (E1 & E2 & E3). unfold w, classify, warm. rewrite E1, E2, E3.
    split; [unfold in_width; lia|]. split_and!; try done. by intros s' [= <-].
  - destruct (cool_tests b Hs) as (E1 & E2 & E3 & E4 & E5). unfold w, classify. rewrite E1, E2, E3, E4, E5.
    split; [by apply tag_width|]. split_and!; try done. by intros s' [= <-].
  - destruct (evicted_tests b Hs) as (E1 & E2 & E3 & E4). unfold w, classify, warm. rewrite E1, E2, E3, E4.
    split; [by apply tag_width|]. by split_and!.
Qed.

Lemma swip_typed_witness :
  classify (evict (cool 4096) 77) = EVICTED 77 /\ warm (cool 4096) = Some 4096 /\ isHOT (cool 4096) = false.
Proof.
  destruct (swip_typed (COOL 4096) 77) as (_ & _ & E1 & _ & _ & _ & E2 & _); [done|done|].
  destruct (swip_typed (EVICTED 77) 0) as (_ & E3 & _); [done|done|].
  split; [exact E3|]. split; [exact E2|exact E1].
Defined.

(** A page identifier of 2^62 or more, once evicted, reads as cooling too: its
    swip would be taken for the address of a frame. *)
Example huge_pid_reads_cooling : isCOOL (evict 0 (2 ^ 62)) = true /\ isEVICTED (evict 0 (2 ^ 62)) = true.
Proof. by vm_compute. Qed.
