(* ===== verification/LockTable.v ===== *)
(** The per-key lock table of the concurrent adapters
    (src/backend/LockManager/LockManager.hpp).

    A fixed array of 64-bit words, hashed by key.  [OptimisticLockGuard] uses
    a word as a version counter: even is free, odd is write-locked, readers
    only remember the version and validate it.  [PessimisticLockGuard] packs a
    reader count into the top byte and a writer version below it.

    Every atomic access of a word is one transition of the step relations
    below; [write_lock] of the optimistic guard is split at its two atomic
    accesses (load, compare-exchange), since another thread may run between
    them. *)
From stdpp Require Import gmap relations.
From S2P Require Import Prelude.
Local Open Scope Z_scope.

Definition kLockWords : Z := 131071.

Inductive OptimisticLockState := UNINITIALIZED | READ_LOCKED | WRITE_LOCKED | MOVED.

#[export] Instance OptimisticLockState_eq_dec : EqDecision OptimisticLockState.
Proof. solve_decision. Defined.

(** * OptimisticLockTable *)

(** [words[i]]; positions outside [0, kLockWords) are never touched. *)
Record OptimisticLockTable := mkTable { words : Z -> Z }.

Definition new_table : OptimisticLockTable := mkTable (fun _ => 0).

Definition store_word (t : OptimisticLockTable) (p v : Z) : OptimisticLockTable :=
  mkTable (fun q => if q =? p then v else words t q).

(** [std::atomic<u64>::compare_exchange_strong] *)
Definition compare_exchange (t : OptimisticLockTable) (p expected desired : Z)
  : bool * OptimisticLockTable :=
  if words t p =? expected then (true, store_word t p desired) else (false, t).

Definition get_key_version (t : OptimisticLockTable) (hash : Z) : Z :=
  words t (hash mod kLockWords).

Definition update_key_version (t : OptimisticLockTable) (hash v : Z) : OptimisticLockTable :=
  store_word t (hash mod kLockWords) v.

(** Copies word by word; [n] words are left to copy. *)
Fixpoint copy_words (n : nat) (src dst : OptimisticLockTable) : OptimisticLockTable :=
  match n with
  | O => dst
  | S n' => let dst := copy_words n' src dst in
            store_word dst (Z.of_nat n') (words src (Z.of_nat n'))
  end.

Definition Copy (t : OptimisticLockTable) : OptimisticLockTable :=
  copy_words (Z.to_nat kLockWords) t new_table.

(** * OptimisticLockGuard *)

Module Optimistic.

Record Guard := mkGuard { word_pos : Z; version : Z; state : OptimisticLockState }.

Definition make_guard (t : OptimisticLockTable) (hash : Z) : Guard :=
  let p := u32 (hash mod kLockWords) in
  mkGuard p (words t p) UNINITIALIZED.

Definition set_snapshot_read_version (g : Guard) (v : Z) : Guard :=
  mkGuard (word_pos g) v READ_LOCKED.

Definition read_lock (t : OptimisticLockTable) (g : Guard) : bool * Guard :=
  let v := words t (word_pos g) in
  if v mod 2 =? 0
  then (true, mkGuard (word_pos g) v READ_LOCKED)
  else (false, mkGuard (word_pos g) v (state g)).

(** First half of [write_lock]: the load, and the early return when the word
    is odd ([false]); [true] means the compare-exchange follows. *)
Definition write_lock_load (t : OptimisticLockTable) (g : Guard) : bool * Guard :=
  let v := words t (word_pos g) in
  (negb (v mod 2 =? 1), mkGuard (word_pos g) v (state g)).

(** Second half of [write_lock], and the body of [upgrade_to_write_lock]. *)
Definition lock_cas (t : OptimisticLockTable) (g : Guard)
  : bool * OptimisticLockTable * Guard :=
  let v := version g in
  match compare_exchange t (word_pos g) v (u64 (v + 1)) with
  | (true, t') => (true, t', mkGuard (word_pos g) (u64 (version g + 1)) WRITE_LOCKED)
  | (false, t') => (false, t', g)
  end.

(** [write_lock] when no other thread runs in between. *)
Definition write_lock (t : OptimisticLockTable) (g : Guard)
  : bool * OptimisticLockTable * Guard :=
  match write_lock_load t g with
  | (false, g') => (false, t, g')
  | (true, g') => lock_cas t g'
  end.

Definition upgrade_to_write_lock (t : OptimisticLockTable) (g : Guard)
  : bool * OptimisticLockTable * Guard := lock_cas t g.

Definition more_than_one_writer_since (g : Guard) (v : Z) : bool :=
  1 <? u64 (version g - v).

Definition validate (t : OptimisticLockTable) (g : Guard) : bool :=
  words t (word_pos g) =? version g.

Definition version_if_write_unlocked (t : OptimisticLockTable) (g : Guard) : Z :=
  u64 (words t (word_pos g) + 1).

(** The destructor: a write-locked guard increments its word. *)
Definition destroy (t : OptimisticLockTable) (g : Guard) : OptimisticLockTable * Guard :=
  match state g with
  | WRITE_LOCKED =>
      (store_word t (word_pos g) (u64 (words t (word_pos g) + 1)),
       mkGuard (word_pos g) (version g) MOVED)
  | _ => (t, g)
  end.

(** The move assignment [*this = std::move(other)]: the pair is the new
    [*this] and the moved-from [other]. *)
Definition move_assign (other : Guard) : Guard * Guard :=
  (mkGuard (word_pos other) (version other) (state other),
   mkGuard (word_pos other) (version other) MOVED).

(** ** Interleaved executions

    A thread owns one guard at a time; [Casing] is a thread inside
    [write_lock], between the load and the compare-exchange.  [incs] is a
    ghost: how often each word was incremented since the table was built. *)

Inductive thread := Ready (g : Guard) | Casing (g : Guard).

Record world := World {
  tbl : OptimisticLockTable;
  threads : gmap nat thread;
  incs : Z -> Z }.

Definition init_world : world := World new_table ∅ (fun _ => 0).

Definition bump (p : Z) (f : Z -> Z) : Z -> Z := fun q => if q =? p then f q + 1 else f q.

Inductive step : world -> world -> Prop :=
| step_new t ths n i hash :
    ths !! i = None -> in_width 64 hash ->
    step (World t ths n) (World t (<[i := Ready (make_guard t hash)]> ths) n)
| step_read t ths n i g b g' :
    ths !! i = Some (Ready g) -> state g = UNINITIALIZED ->
    read_lock t g = (b, g') ->
    step (World t ths n) (World t (<[i := Ready g']> ths) n)
| step_write_load t ths n i g b g' :
    ths !! i = Some (Ready g) -> state g = UNINITIALIZED ->
    write_lock_load t g = (b, g') ->
    step (World t ths n) (World t (<[i := if b then Casing g' else Ready g']> ths) n)
| step_write_cas t ths n i g b t' g' :
    ths !! i = Some (Casing g) ->
    lock_cas t g = (b, t', g') ->
    step (World t ths n)
         (World t' (<[i := Ready g']> ths) (if b then bump (word_pos g) n else n))
| step_upgrade t ths n i g b t' g' :
    ths !! i = Some (Ready g) -> state g = READ_LOCKED ->
    upgrade_to_write_lock t g = (b, t', g') ->
    step (World t ths n)
         (World t' (<[i := Ready g']> ths) (if b then bump (word_pos g) n else n))
| step_destroy t ths n i g t' g' :
    ths !! i = Some (Ready g) ->
    destroy t g = (t', g') ->
    step (World t ths n)
         (World t' (delete i ths)
            (if decide (state g = WRITE_LOCKED) then bump (word_pos g) n else n)).

(** Thread [i] is inside the critical section of word [p]. *)
Definition holds (w : world) (i : nat) (p : Z) : Prop :=
  exists g, threads w !! i = Some (Ready g) /\ state g = WRITE_LOCKED /\ word_pos g = p.

End Optimistic.

(** * PessimisticLockGuard *)

Module Pessimistic.

Definition kReadersOffset : Z := 56.
Definition kReadersMask : Z := 0xFF00000000000000.
Definition kWriteVersionOffset : Z := 0.
Definition kWriteVersionMask : Z := Z.ldiff (Z.ones 64) kReadersMask.

Definition get_readers (word : Z) : Z :=
  u16 (Z.shiftr (Z.land word kReadersMask) kReadersOffset).

(** Declared [u16] in the source: the version is cut to 16 bits. *)
Definition get_writer_version (word : Z) : Z :=
  u16 (Z.shiftr (Z.land word kWriteVersionMask) kWriteVersionOffset).

Definition make_word (readers writer_version : Z) : Z :=
  Z.lor (u64 (Z.shiftl readers kReadersOffset)) writer_version.

(** Each operation loads the word, computes the new one and compare-exchanges
    it; the result is [None] when the operation fails without storing, as the
    loaded word excludes it.  A failed compare-exchange leaves the word alone
    as well. *)
Definition do_write_lock (word : Z) : option Z :=
  let readers := get_readers word in
  let writer_version := get_writer_version word in
  if negb (readers =? 0) || negb (writer_version mod 2 =? 0) then None
  else Some (make_word readers (u64 (writer_version + 1))).

Definition do_write_unlock (word : Z) : Z :=
  make_word (get_readers word) (u64 (get_writer_version word + 1)).

Definition do_upgrade_write_lock (word : Z) : option Z :=
  let readers := get_readers word in
  let writer_version := get_writer_version word in
  if negb (readers =? 1) || negb (writer_version mod 2 =? 0) then None
  else Some (make_word 0 (u64 (writer_version + 1))).

Definition do_read_lock (word : Z) : option Z :=
  let readers := get_readers word in
  let writer_version := get_writer_version word in
  if negb (writer_version mod 2 =? 0) then None
  else Some (make_word (u64 (readers + 1)) writer_version).

Definition do_read_unlock (word : Z) : Z :=
  make_word (u64 (get_readers word - 1)) (get_writer_version word).

Definition more_than_one_writer_since (word v : Z) : bool :=
  1 <? get_writer_version word - get_writer_version v.

(** The guards of one word: how each thread holds it, as the guard's [state]
    records it.  A successful compare-exchange sees the word it loaded, so an
    operation that succeeds is one atomic transition. *)
Record cell := Cell { word : Z; holders : gmap nat OptimisticLockState }.

Inductive pstep : cell -> cell -> Prop :=
| p_read w hs i w' :
    hs !! i = None -> do_read_lock w = Some w' ->
    pstep (Cell w hs) (Cell w' (<[i := READ_LOCKED]> hs))
| p_write w hs i w' :
    hs !! i = None -> do_write_lock w = Some w' ->
    pstep (Cell w hs) (Cell w' (<[i := WRITE_LOCKED]> hs))
| p_upgrade w hs i w' :
    hs !! i = Some READ_LOCKED -> do_upgrade_write_lock w = Some w' ->
    pstep (Cell w hs) (Cell w' (<[i := WRITE_LOCKED]> hs))
| p_read_unlock w hs i :
    hs !! i = Some READ_LOCKED ->
    pstep (Cell w hs) (Cell (do_read_unlock w) (delete i hs))
| p_write_unlock w hs i :
    hs !! i = Some WRITE_LOCKED ->
    pstep (Cell w hs) (Cell (do_write_unlock w) (delete i hs)).

Definition init_cell : cell := Cell 0 ∅.

Definition n_readers (c : cell) : nat := size (filter (fun kv => kv.2 = READ_LOCKED) (holders c)).
Definition n_writers (c : cell) : nat := size (filter (fun kv => kv.2 = WRITE_LOCKED) (holders c)).

End Pessimistic.

(** * Proofs: optimistic guards *)

Module OptimisticFacts.
Import Optimistic.

Lemma words_store t p v q :
  words (store_word t p v) q = if q =? p then v else words t q.
Proof. done. Qed.

Lemma wrap64_parity x : u64 x mod 2 = x mod 2.
Proof.
  unfold wrap. change (2 ^ 64) with (2 * 2 ^ 63).
  rewrite Z.rem_mul_r by lia. rewrite Z.mul_comm, Z.mod_add by lia.
  by rewrite Z.mod_mod.
Qed.

Definition word_of (th : thread) : Guard := match th with Ready g | Casing g => g end.

(** What a thread's guard says about the shared word. *)
Definition thread_ok (t : OptimisticLockTable) (th : thread) : Prop :=
  match th with
  | Casing g => version g mod 2 = 0 /\ state g = UNINITIALIZED
  | Ready g =>
      match state g with
      | READ_LOCKED => version g mod 2 = 0
      | WRITE_LOCKED => version g mod 2 = 1 /\ words t (word_pos g) = version g
      | _ => True
      end
  end.

Record inv (w : world) : Prop := Inv {
  inv_threads : map_Forall (fun _ => thread_ok (tbl w)) (threads w);
  inv_excl : forall i j p, holds w i p -> holds w j p -> i = j;
  inv_odd : forall p, words (tbl w) p mod 2 = 1 -> exists i, holds w i p;
  inv_incs : forall p, words (tbl w) p = u64 (incs w p) }.

Lemma inv_init : inv init_world.
Proof.
  split; simpl.
  - apply map_Forall_empty.
  - intros i j p (g & Hg & _). simpl in Hg. by rewrite lookup_empty in Hg.
  - intros p H. by rewrite Z.mod_0_l in H.
  - done.
Qed.

Lemma holds_insert_ne t t' ths n n' i th j p :
  j <> i -> holds (World t (<[i:=th]> ths) n) j p <-> holds (World t' ths n') j p.
Proof. intros. unfold holds. simpl. by rewrite lookup_insert_ne. Qed.

Lemma holds_insert_eq t ths n i th p :
  holds (World t (<[i:=th]> ths) n) i p <->
  exists g, th = Ready g /\ state g = WRITE_LOCKED /\ word_pos g = p.
Proof. unfold holds. simpl. rewrite lookup_insert_eq. naive_solver. Qed.

Lemma holds_delete t t' ths n n' i j p :
  holds (World t (delete i ths) n) j p <-> j <> i /\ holds (World t' ths n') j p.
Proof.
  unfold holds. simpl. destruct (decide (j = i)) as [->|].
  - rewrite lookup_delete_eq. naive_solver.
  - rewrite lookup_delete_ne by done. naive_solver.
Qed.

(** A thread whose guard is replaced by one that does not hold a word, with
    the table untouched. *)
Lemma inv_replace t ths n i th :
  inv (World t ths n) -> thread_ok t th ->
  (forall p, ~ holds (World t ths n) i p) ->
  (forall g, th = Ready g -> state g <> WRITE_LOCKED) ->
  inv (World t (<[i:=th]> ths) n).
Proof.
  intros [It Ie Io Ii] Hth Hno Hnw. simpl in *.
  assert (forall j p, holds (World t (<[i:=th]> ths) n) j p <-> holds (World t ths n) j p) as Hh.
  { intros j p. destruct (decide (j = i)) as [->|].
    - rewrite holds_insert_eq. split; [|intros ?; exfalso; eapply Hno; eauto].
      intros (g & -> & ? & ?). exfalso. by eapply Hnw.
    - by apply holds_insert_ne. }
  split; simpl.
  - apply map_Forall_insert_2; done.
  - intros j k p ??. eapply Ie; apply Hh; done.
  - intros p Hp. destruct (Io p Hp) as [j Hj]. exists j. by apply Hh.
  - done.
Qed.

(** A guard that wins the compare-exchange of an even word becomes its only
    holder. *)
Lemma inv_acquire t ths n i g th :
  inv (World t ths n) -> ths !! i = Some th -> word_of th = g ->
  state g <> WRITE_LOCKED -> version g mod 2 = 0 ->
  words t (word_pos g) = version g ->
  inv (World (store_word t (word_pos g) (u64 (version g + 1)))
         (<[i := Ready (mkGuard (word_pos g) (u64 (version g + 1)) WRITE_LOCKED)]> ths)
         (bump (word_pos g) n)).
Proof.
  intros [It Ie Io Ii] Hi Hg Hs Hev Hw. simpl in *.
  set (p0 := word_pos g) in *. set (v1 := u64 (version g + 1)).
  assert (v1 mod 2 = 1) as Hv1.
  { unfold v1. rewrite wrap64_parity, Zplus_mod, Hev. done. }
  assert (forall j p, j <> i -> holds (World t ths n) j p -> p <> p0) as Hfree.
  { intros j p Hj (g' & Hg' & Hst & Hp) ->. specialize (It _ _ Hg'). simpl in It.
    rewrite Hst in It. destruct It as [Hodd Heq]. rewrite Hp in Heq. rewrite Heq in Hw.
    rewrite Hw in Hodd. lia. }
  split; simpl.
  - apply map_Forall_insert_2; [by simpl; rewrite Z.eqb_refl|].
    intros j th' Hj. destruct (decide (j = i)) as [->|Hne].
    { rewrite Hi in Hj. injection Hj as <-. destruct th as [g0|g0]; simpl in Hg; subst g0.
      - specialize (It _ _ Hi). simpl in *. by destruct (state g).
      - by apply (It _ _ Hi). }
    specialize (It _ _ Hj). destruct th' as [g'|g']; [|done]. simpl in *.
    destruct (state g') eqn:Est; try done. destruct It as [Ho Hq].
    destruct (Z.eqb_spec (word_pos g') p0) as [Hpe|]; [|done].
    exfalso. eapply (Hfree j); [done| |exact Hpe]. exists g'; done.
  - intros j k p Hj Hk. destruct (decide (j = i)) as [->|], (decide (k = i)) as [->|]; try done.
    + apply holds_insert_eq in Hj as (g' & [= <-] & _ & Hp). simpl in Hp.
      rewrite (holds_insert_ne _ t _ _ n) in Hk by done.
      exfalso. by eapply (Hfree k p).
    + apply holds_insert_eq in Hk as (g' & [= <-] & _ & Hp). simpl in Hp.
      rewrite (holds_insert_ne _ t _ _ n) in Hj by done.
      exfalso. by eapply (Hfree j p).
    + rewrite (holds_insert_ne _ t _ _ n) in Hj, Hk by done. by eapply Ie.
  - intros p. destruct (Z.eqb_spec p p0) as [->|]; intros Hp.
    + exists i. apply holds_insert_eq. by eexists.
    + destruct (Io p Hp) as [j Hj]. exists j. destruct (decide (j = i)) as [->|].
      * destruct Hj as (g' & Hg' & Hst & _). simpl in Hg'. rewrite Hi in Hg'.
        injection Hg' as ->. simpl in Hg. congruence.
      * by apply (holds_insert_ne _ t _ _ n).
  - intros p. unfold bump. destruct (Z.eqb_spec p p0) as [->|]; [|done].
    unfold v1. rewrite <- Hw, Ii. apply wrap_wrap_add.
Qed.

Lemma inv_release t ths n i g :
  inv (World t ths n) -> ths !! i = Some (Ready g) -> state g = WRITE_LOCKED ->
  inv (World (store_word t (word_pos g) (u64 (words t (word_pos g) + 1)))
         (delete i ths) (bump (word_pos g) n)).
Proof.
  intros [It Ie Io Ii] Hi Hs. simpl in *. set (p0 := word_pos g) in *.
  assert (holds (World t ths n) i p0) as Hhi by (exists g; done).
  pose proof (It _ _ Hi) as Hg. simpl in Hg. rewrite Hs in Hg. destruct Hg as [Hodd Hw].
  fold p0 in Hw.
  split; simpl.
  - intros j th. destruct (decide (j = i)) as [->|]; [by rewrite lookup_delete_eq|].
    rewrite lookup_delete_ne by done. intros Hj. specialize (It _ _ Hj).
    destruct th as [g'|g']; [|done]. simpl in *. destruct (state g') eqn:E; try done.
    destruct (Z.eqb_spec (word_pos g') p0) as [Hp|]; [|done].
    assert (j = i); [|done]. eapply Ie; [exists g'; done|done].
  - intros j k p Hj Hk. apply (holds_delete _ t _ _ n) in Hj as [_ Hj], Hk as [_ Hk].
    by eapply Ie.
  - intros p. destruct (Z.eqb_spec p p0) as [->|]; intros Hp.
    + rewrite wrap64_parity, Zplus_mod, Hw, Hodd in Hp. done.
    + destruct (Io p Hp) as [j Hj]. exists j. apply (holds_delete _ t _ _ n).
      split; [|done]. intros ->. destruct Hj as (g' & Hg' & _ & Hp'). simpl in Hg'.
      rewrite Hi in Hg'. injection Hg' as <-. done.
  - intros p. unfold bump. destruct (Z.eqb_spec p p0) as [->|]; [|done].
    rewrite Ii. apply wrap_wrap_add.
Qed.

Lemma inv_no_change t ths n i th :
  inv (World t ths n) -> ths !! i = Some th -> inv (World t (<[i:=th]> ths) n).
Proof. intros I Hi. by rewrite insert_id. Qed.

Lemma not_holds_none t ths n i p : ths !! i = None -> ~ holds (World t ths n) i p.
Proof. intros H (g & Hg & _). simpl in Hg. congruence. Qed.

Lemma not_holds_state t ths n i g p :
  ths !! i = Some (Ready g) -> state g <> WRITE_LOCKED -> ~ holds (World t ths n) i p.
Proof. intros H Hs (g' & Hg & ? & _). simpl in Hg. rewrite H in Hg. congruence. Qed.

Lemma not_holds_casing t ths n i g p :
  ths !! i = Some (Casing g) -> ~ holds (World t ths n) i p.
Proof. intros H (g' & Hg & _). simpl in Hg. congruence. Qed.

(** A word is even or odd. *)
Lemma parity x : x mod 2 = 0 \/ x mod 2 = 1.
Proof. pose proof (Z.mod_pos_bound x 2). lia. Qed.

(** The compare-exchange step of a guard that has not locked yet. *)
Lemma inv_cas t ths n i g th b t' g' :
  inv (World t ths n) -> ths !! i = Some th -> word_of th = g ->
  state g <> WRITE_LOCKED -> version g mod 2 = 0 -> thread_ok t (Ready g) ->
  lock_cas t g = (b, t', g') ->
  inv (World t' (<[i := Ready g']> ths) (if b then bump (word_pos g) n else n)).
Proof.
  intros I Hi Hg Hs Hev Hok. unfold lock_cas, compare_exchange.
  destruct (Z.eqb_spec (words t (word_pos g)) (version g)) as [Heq|]; intros [= <- <- <-].
  - by eapply inv_acquire.
  - apply inv_replace; try done.
    + destruct th as [g0|g0]; simpl in Hg; subst g0.
      * intros p. by eapply not_holds_state.
      * intros p. by eapply not_holds_casing.
    + by intros ? [= <-].
Qed.

Lemma inv_step w w' : inv w -> step w w' -> inv w'.
Proof.
  intros I S. destruct S as [t ths n i hash Hi _|t ths n i g b g' Hi Hs E|t ths n i g b g' Hi Hs E
    |t ths n i g b t' g' Hi E|t ths n i g b t' g' Hi Hs E|t ths n i g t' g' Hi E].
  - apply inv_replace; try done; [intros p; by apply not_holds_none|by intros g [= <-]].
  - unfold read_lock in E.
    destruct (Z.eqb_spec (words t (word_pos g) mod 2) 0); injection E as <- <-;
      (apply inv_replace; [done|simpl; rewrite ?Hs; done| |]);
      try (intros p; eapply not_holds_state; [done|congruence]);
      intros ? [= <-]; simpl; congruence.
  - injection E as <- <-.
    destruct (parity (words t (word_pos g))) as [Hp|Hp]; rewrite Hp; simpl;
      (apply inv_replace; [done|simpl; rewrite ?Hs; done| |]);
      try (intros p; eapply not_holds_state; [done|congruence]);
      intros ? [= <-]; simpl; congruence.
  - pose proof (inv_threads _ I _ _ Hi) as [Hev Hst].
    eapply inv_cas; try done; simpl; [congruence|by rewrite Hst].
  - pose proof (inv_threads _ I _ _ Hi) as Hok. pose proof Hok as Hev. simpl in Hev.
    rewrite Hs in Hev. eapply inv_cas; try done. congruence.
  - unfold destroy in E. destruct (state g) eqn:Es; injection E as <- <-;
      rewrite ?decide_False, ?decide_True by done; try (by apply inv_release).
    all: destruct I as [It Ie Io Ii]; simpl in *.
    all: assert (forall p, ~ holds (World t ths n) i p) as Hno
        by (intros p; eapply not_holds_state; [done|congruence]).
    all: split; simpl; [by apply map_Forall_delete| | |done].
    all: try (intros j k p Hj Hk; apply (holds_delete _ t _ _ n) in Hj as [_ Hj], Hk as [_ Hk];
              by eapply Ie).
    all: intros p Hp; destruct (Io p Hp) as [j Hj]; exists j;
      apply (holds_delete _ t _ _ n); split; [intros ->; by apply (Hno p)|done].
Qed.

Lemma inv_steps w w' : inv w -> rtc step w w' -> inv w'.
Proof. intros I S. induction S; eauto using inv_step. Qed.

Lemma inv_reachable w : rtc step init_world w -> inv w.
Proof. apply inv_steps, inv_init. Qed.

Lemma step_incs_mono w w' p : step w w' -> incs w p <= incs w' p.
Proof.
  destruct 1; simpl; repeat (case_match || case_decide); unfold bump; zbool; lia.
Qed.

Lemma steps_incs_mono w w' p : rtc step w w' -> incs w p <= incs w' p.
Proof. induction 1; [lia|]. etransitivity; [by apply step_incs_mono|done]. Qed.

(** The holder of a word sees it odd. *)
Lemma holds_odd w i p : inv w -> holds w i p -> words (tbl w) p mod 2 = 1.
Proof.
  intros I (g & Hg & Hs & <-). pose proof (inv_threads _ I _ _ Hg) as H.
  simpl in H. rewrite Hs in H. by destruct H as [? ->].
Qed.

Lemma u64_window x y : x <= y < x + 2 ^ 64 -> u64 x = u64 y -> x = y.
Proof.
  unfold wrap. intros H E.
  pose proof (Z.div_mod x (2 ^ 64)). pose proof (Z.div_mod y (2 ^ 64)). nia.
Qed.

End OptimisticFacts.

(** * Proofs: pessimistic guards *)

Module PessimisticFacts.
Import Pessimistic.

Lemma make_word_sum r v :
  0 <= r < 256 -> 0 <= v < 2 ^ 56 -> make_word r v = r * 2 ^ 56 + v.
Proof.
  intros Hr Hv. unfold make_word, kReadersOffset.
  rewrite wrap_small by (unfold in_width; rewrite Z.shiftl_mul_pow2; lia).
  by rewrite lor_shiftl_add by lia.
Qed.

Lemma get_readers_make r v :
  0 <= r < 256 -> 0 <= v < 2 ^ 56 -> get_readers (make_word r v) = r.
Proof.
  intros Hr Hv. rewrite make_word_sum by done.
  unfold get_readers, kReadersMask, kReadersOffset.
  rewrite Z.shiftr_land. change (Z.shiftr 0xFF00000000000000 56) with (Z.ones 8).
  rewrite Z.land_ones, Z.shiftr_div_pow2 by lia.
  rewrite Z.div_add_l, Z.div_small, Z.add_0_r, Z.mod_small by lia.
  apply wrap_small. unfold in_width. lia.
Qed.

Lemma get_writer_version_make r v :
  0 <= r < 256 -> 0 <= v < 2 ^ 56 -> get_writer_version (make_word r v) = u16 v.
Proof.
  intros Hr Hv. rewrite make_word_sum by done.
  unfold get_writer_version, kWriteVersionOffset. rewrite Z.shiftr_0_r.
  change kWriteVersionMask with (Z.ones 56). rewrite Z.land_ones by lia.
  by rewrite Z.add_comm, Z.mod_add, (Z.mod_small v) by lia.
Qed.

Lemma u16_parity v : u16 v mod 2 = v mod 2.
Proof.
  unfold wrap. change (2 ^ 16) with (2 * 2 ^ 15).
  rewrite Z.rem_mul_r by lia. rewrite Z.mul_comm, Z.mod_add by lia. by rewrite Z.mod_mod.
Qed.

(** [count X hs]: how many threads hold the word in mode [X]. *)
Definition count (X : OptimisticLockState) (hs : gmap nat OptimisticLockState) : nat :=
  size (filter (fun kv => kv.2 = X) hs).

Lemma count_insert X hs i s :
  hs !! i = None -> count X (<[i:=s]> hs) = (count X hs + if decide (s = X) then 1 else 0)%nat.
Proof.
  intros Hi. unfold count. case_decide as E.
  - rewrite map_filter_insert_True by done.
    rewrite map_size_insert_None; [lia|]. apply map_lookup_filter_None. by left.
  - rewrite map_filter_insert_False by done. rewrite delete_id by done. lia.
Qed.

Lemma count_delete X hs i s :
  hs !! i = Some s -> count X hs = (count X (delete i hs) + if decide (s = X) then 1 else 0)%nat.
Proof.
  intros Hi. rewrite <- (count_insert X (delete i hs) i s) by apply lookup_delete_eq.
  by rewrite insert_delete_id.
Qed.

Lemma size_delete hs i (s : OptimisticLockState) :
  hs !! i = Some s -> size hs = S (size (delete i hs : gmap nat OptimisticLockState)).
Proof.
  intros Hi. rewrite <- (insert_delete_id hs i s) at 1 by done.
  apply map_size_insert_None, lookup_delete_eq.
Qed.

(** The word records the reader count exactly and a version whose parity says
    whether a writer is inside; a writer excludes everybody else. *)
Definition pinv (c : cell) : Prop :=
  exists v, 0 <= v <= 65536 /\
    word c = make_word (Z.of_nat (n_readers c)) v /\
    (size (holders c) <= 255)%nat /\
    size (holders c) = (n_readers c + n_writers c)%nat /\
    v mod 2 = Z.of_nat (n_writers c) /\
    (n_writers c = 1%nat -> n_readers c = 0%nat).

(** One transition taken while at most 255 guards hold the word. *)
Definition small_step (c c' : cell) : Prop :=
  pstep c c' /\ (size (holders c) <= 255)%nat /\ (size (holders c') <= 255)%nat.

Lemma pinv_init : pinv init_cell.
Proof. exists 0. repeat split; (done || (vm_compute; lia)). Qed.

Ltac counts := unfold n_readers, n_writers in *; simpl in *;
  repeat match goal with
  | |- context [size (filter (fun kv => kv.2 = ?X) ?hs)] => fold (count X hs)
  | H : context [size (filter (fun kv => kv.2 = ?X) ?hs)] |- _ => fold (count X hs) in H
  end.

(** ** The operations on a packed word, field by field *)

Section ops.
Context (r v : Z) (Hr : 0 <= r < 256) (Hv : 0 <= v < 2 ^ 56).

Lemma u64_id x : 0 <= x < 2 ^ 64 -> u64 x = x.
Proof. apply wrap_small. Qed.

Lemma u16_range : 0 <= u16 v < 65536.
Proof. apply (wrap_in_width 16). lia. Qed.

Lemma do_read_lock_make :
  do_read_lock (make_word r v) =
  if v mod 2 =? 0 then Some (make_word (r + 1) (u16 v)) else None.
Proof.
  unfold do_read_lock. rewrite get_readers_make, get_writer_version_make, u16_parity by done.
  rewrite u64_id by lia. by destruct (_ =? _).
Qed.

Lemma do_write_lock_make :
  do_write_lock (make_word r v) =
  if (r =? 0) && (v mod 2 =? 0) then Some (make_word 0 (u16 v + 1)) else None.
Proof.
  pose proof u16_range.
  unfold do_write_lock. rewrite get_readers_make, get_writer_version_make, u16_parity by done.
  rewrite u64_id by lia. destruct (Z.eqb_spec r 0) as [->|]; [|done]. by destruct (_ =? _).
Qed.

Lemma do_upgrade_make :
  do_upgrade_write_lock (make_word r v) =
  if (r =? 1) && (v mod 2 =? 0) then Some (make_word 0 (u16 v + 1)) else None.
Proof.
  pose proof u16_range.
  unfold do_upgrade_write_lock.
  rewrite get_readers_make, get_writer_version_make, u16_parity by done.
  rewrite u64_id by lia. destruct (Z.eqb_spec r 1) as [->|]; [|done]. by destruct (_ =? _).
Qed.

Lemma do_read_unlock_make :
  1 <= r -> do_read_unlock (make_word r v) = make_word (r - 1) (u16 v).
Proof.
  intros. unfold do_read_unlock. rewrite get_readers_make, get_writer_version_make by done.
  by rewrite u64_id by lia.
Qed.

Lemma do_write_unlock_make : do_write_unlock (make_word r v) = make_word r (u16 v + 1).
Proof.
  pose proof u16_range.
  unfold do_write_unlock. rewrite get_readers_make, get_writer_version_make by done.
  by rewrite u64_id by lia.
Qed.

Lemma u16_succ_parity : (u16 v + 1) mod 2 = 1 - v mod 2.
Proof.
  pose proof (u16_parity v). pose proof (Z.mod_pos_bound v 2).
  rewrite Zplus_mod, H. assert (v mod 2 = 0 \/ v mod 2 = 1) as [-> | ->] by lia; done.
Qed.
End ops.

Lemma pinv_step c c' : pinv c -> small_step c c' -> pinv c'.
Proof.
  intros (v & Hv & Hw & _ & Hsz & Hpar & Hex) (S & Hb & Hb').
  pose proof (u16_range v) as H16. pose proof (u16_parity v) as Hp16.
  pose proof (u16_succ_parity v) as Hps.
  destruct S as [w hs i w' Hi E|w hs i w' Hi E|w hs i w' Hi E|w hs i Hi|w hs i Hi];
    counts; subst w; try (rewrite map_size_insert_None in Hb' by done).
  - rewrite do_read_lock_make in E by lia. zbool. injection E as <-.
    exists (u16 v). counts. rewrite !count_insert, map_size_insert_None by done. simpl.
    rewrite !Nat.add_0_r, Nat2Z.inj_add. repeat split; lia.
  - rewrite do_write_lock_make in E by lia. zbool. injection E as <-.
    exists (u16 v + 1). counts. rewrite !count_insert, map_size_insert_None by done. simpl.
    rewrite Nat.add_0_r. replace (count READ_LOCKED hs) with 0%nat by lia. repeat split; lia.
  - rewrite do_upgrade_make in E by lia. zbool. injection E as <-.
    exists (u16 v + 1). counts. rewrite <- (insert_delete_eq hs i).
    pose proof (size_delete _ _ _ Hi). pose proof (count_delete READ_LOCKED _ _ _ Hi) as Cr.
    pose proof (count_delete WRITE_LOCKED _ _ _ Hi) as Cw. simpl in Cr, Cw.
    rewrite !count_insert, map_size_insert_None by apply lookup_delete_eq. simpl.
    replace (count READ_LOCKED (delete i hs)) with 0%nat by lia. repeat split; lia.
  - pose proof (size_delete _ _ _ Hi). pose proof (count_delete READ_LOCKED _ _ _ Hi) as Cr.
    pose proof (count_delete WRITE_LOCKED _ _ _ Hi) as Cw. simpl in Cr, Cw.
    rewrite do_read_unlock_make by lia. exists (u16 v). counts.
    replace (Z.of_nat (count READ_LOCKED hs) - 1) with (Z.of_nat (count READ_LOCKED (delete i hs))) by lia.
    repeat split; lia.
  - pose proof (size_delete _ _ _ Hi). pose proof (count_delete READ_LOCKED _ _ _ Hi) as Cr.
    pose proof (count_delete WRITE_LOCKED _ _ _ Hi) as Cw. simpl in Cr, Cw.
    pose proof (Z.mod_pos_bound v 2).
    rewrite do_write_unlock_make by lia. exists (u16 v + 1). counts.
    replace (count READ_LOCKED hs) with (count READ_LOCKED (delete i hs)) by lia.
    repeat split; lia.
Qed.

Lemma pinv_reachable c : rtc small_step init_cell c -> pinv c.
Proof.
  intros S. assert (pinv init_cell) as I by apply pinv_init.
  induction S; eauto using pinv_step.
Qed.
(** ** More than 255 readers *)

Fixpoint many_readers (n : nat) : gmap nat OptimisticLockState :=
  match n with O => ∅ | S n' => <[n' := READ_LOCKED]> (many_readers n') end.

Lemma many_readers_fresh n i : (n <= i)%nat -> many_readers n !! i = None.
Proof.
  induction n as [|n IH]; intros Hi; [done|]. simpl.
  rewrite lookup_insert_ne by lia. apply IH. lia.
Qed.

Lemma many_readers_count n :
  count READ_LOCKED (many_readers n) = n /\ count WRITE_LOCKED (many_readers n) = 0%nat.
Proof.
  induction n as [|n [IHr IHw]]; [done|]. simpl.
  rewrite !count_insert by (by apply many_readers_fresh). simpl. lia.
Qed.

Lemma many_readers_reachable n :
  (n <= 256)%nat ->
  rtc pstep init_cell (Cell (make_word (Z.of_nat n mod 256) 0) (many_readers n)).
Proof.
  induction n as [|n IH]; intros Hn; [apply rtc_refl|].
  eapply rtc_r; [apply IH; lia|]. simpl. apply p_read; [by apply many_readers_fresh|].
  rewrite (Z.mod_small (Z.of_nat n)) by lia. rewrite do_read_lock_make by lia. simpl.
  destruct (decide (n = 255%nat)) as [->|]; [done|].
  rewrite Z.mod_small by lia. do 2 f_equal. lia.
Qed.

Lemma overflow_reachable :
  exists c, rtc pstep init_cell c /\ n_readers c = 256%nat /\ n_writers c = 1%nat.
Proof.
  exists (Cell 1 (<[256%nat := WRITE_LOCKED]> (many_readers 256))). split.
  - eapply rtc_r; [apply (many_readers_reachable 256); lia|].
    apply p_write; [apply many_readers_fresh; lia|reflexivity].
  - pose proof (many_readers_count 256) as [Hr Hw].
    pose proof (many_readers_fresh 256 256 ltac:(lia)) as Hf.
    revert Hr Hw Hf. generalize (many_readers 256). intros m Hr Hw Hf. counts.
    rewrite !count_insert by done. rewrite decide_False, decide_True by done. lia.
Qed.
End PessimisticFacts.

(** * Properties *)

Import Optimistic.

(** C38: In every state reachable by interleaving any number of threads'
    lock operations, at most one guard is inside the write-critical section of
    a word; the word then holds exactly that guard's (odd) version, which is
    what both assertions of the guard's destructor require; and a word nobody
    holds is even, so it can be locked again. *)
Theorem optimistic_mutual_exclusion (w : world) :
  rtc step init_world w ->
  (forall i j p, holds w i p -> holds w j p -> i = j) /\
  (forall i g, threads w !! i = Some (Ready g) -> state g = WRITE_LOCKED ->
     words (tbl w) (word_pos g) = version g /\ words (tbl w) (word_pos g) mod 2 = 1) /\
  (forall p, (forall i, ~ holds w i p) -> words (tbl w) p mod 2 = 0).
Proof.
  intros I%OptimisticFacts.inv_reachable. repeat split.
  - apply (OptimisticFacts.inv_excl _ I).
  - pose proof (OptimisticFacts.inv_threads _ I _ _ H) as Hok. simpl in Hok.
    rewrite H0 in Hok. tauto.
  - eapply OptimisticFacts.holds_odd; [done|]. exists g. done.
  - intros p Hno. destruct (OptimisticFacts.parity (words (tbl w) p)) as [|Ho]; [done|].
    destruct (OptimisticFacts.inv_odd _ I p Ho) as [i Hi]. by destruct (Hno i).
Qed.

(** Soundness of optimistic reads: if a guard read-locked a word and
    [validate] succeeds on it later, then in every state in between the word
    had the version that was read and no guard was write-locked on it, so
    nothing the reader saw under this lock was being changed.  The 64-bit
    counter may not have wrapped completely in between. *)
Theorem optimistic_validate_sound (w1 w2 : world) (g g' : Guard) :
  rtc step init_world w1 ->
  read_lock (tbl w1) g = (true, g') ->
  rtc step w1 w2 ->
  validate (tbl w2) g' = true ->
  incs w2 (word_pos g) - incs w1 (word_pos g) < 2 ^ 64 ->
  forall w, rtc step w1 w -> rtc step w w2 ->
    words (tbl w) (word_pos g) = version g' /\ forall i, ~ holds w i (word_pos g).
Proof.
  intros R E S12 V Hsmall w S1w Sw2.
  pose proof (OptimisticFacts.inv_reachable _ R) as I1.
  pose proof (OptimisticFacts.inv_steps _ _ I1 S12) as I2.
  pose proof (OptimisticFacts.inv_steps _ _ I1 S1w) as Iw.
  unfold read_lock in E. zbool. injection E as <-. unfold validate in V. simpl in *.
  apply Z.eqb_eq in V. set (p := word_pos g) in *.
  pose proof (OptimisticFacts.steps_incs_mono _ _ p S1w).
  pose proof (OptimisticFacts.steps_incs_mono _ _ p Sw2).
  assert (incs w1 p = incs w2 p) as Heq.
  { apply OptimisticFacts.u64_window; [lia|].
    by rewrite <- (OptimisticFacts.inv_incs _ I1), <- (OptimisticFacts.inv_incs _ I2). }
  assert (words (tbl w) p = words (tbl w1) p) as Hw.
  { rewrite (OptimisticFacts.inv_incs _ Iw), (OptimisticFacts.inv_incs _ I1). f_equal. lia. }
  split; [done|]. intros i Hi%(OptimisticFacts.holds_odd _ _ _ Iw). rewrite Hw in Hi. lia.
Qed.

(** The eviction re-read test: a scan remembers the version [version g1']
    of an unlocked word, later a guard write-locks the same word;
    [more_than_one_writer_since] is false exactly when no other writer has
    touched the word between the scan and the lock. *)
Theorem more_than_one_writer_since_exact (w1 w2 : world) (g1 g1' g2 g2' : Guard) (t' : OptimisticLockTable) :
  rtc step init_world w1 ->
  read_lock (tbl w1) g1 = (true, g1') ->
  rtc step w1 w2 ->
  word_pos g2 = word_pos g1 ->
  write_lock (tbl w2) g2 = (true, t', g2') ->
  incs w2 (word_pos g1) - incs w1 (word_pos g1) < 2 ^ 64 - 1 ->
  more_than_one_writer_since g2' (version g1') = false <->
  incs w2 (word_pos g1) = incs w1 (word_pos g1).
Proof.
  intros R E1 S12 Hp E2 Hsmall.
  pose proof (OptimisticFacts.inv_reachable _ R) as I1.
  pose proof (OptimisticFacts.inv_steps _ _ I1 S12) as I2.
  pose proof (OptimisticFacts.steps_incs_mono _ _ (word_pos g1) S12).
  unfold read_lock in E1. destruct (_ =? 0) in E1; [|done]. injection E1 as <-.
  unfold write_lock, write_lock_load, lock_cas, compare_exchange in E2. simpl in E2.
  rewrite Z.eqb_refl, Hp in E2.
  destruct (negb _); [|done]. injection E2 as _ <-.
  unfold more_than_one_writer_since. simpl.
  rewrite (OptimisticFacts.inv_incs _ I1), (OptimisticFacts.inv_incs _ I2).
  set (a := incs w1 (word_pos g1)) in *. set (b := incs w2 (word_pos g1)) in *.
  assert (u64 (u64 (u64 b + 1) - u64 a) = b - a + 1) as ->.
  { unfold wrap. rewrite <- Zminus_mod.
    replace (b mod 2 ^ 64 + 1 - a) with (b mod 2 ^ 64 + (1 - a)) by lia.
    rewrite Zplus_mod_idemp_l, Z.mod_small; lia. }
  rewrite Z.ltb_ge. lia.
Qed.

(** With at most 255 guards on a word at a time, the packed reader/writer
    word is exact: it counts the readers, a writer excludes readers and other
    writers, and the word is write-locked (odd version) exactly while a writer
    is inside. *)
Theorem pessimistic_exclusion (c : Pessimistic.cell) :
  rtc PessimisticFacts.small_step Pessimistic.init_cell c ->
  Pessimistic.get_readers (Pessimistic.word c) = Z.of_nat (Pessimistic.n_readers c) /\
  (Pessimistic.n_writers c <= 1)%nat /\
  (Pessimistic.n_writers c = 1%nat -> Pessimistic.n_readers c = 0%nat) /\
  Pessimistic.get_writer_version (Pessimistic.word c) mod 2
    = Z.of_nat (Pessimistic.n_writers c).
Proof.
  intros (v & Hv & Hw & Hb & Hsz & Hpar & Hex)%PessimisticFacts.pinv_reachable.
  pose proof (Z.mod_pos_bound v 2). rewrite Hw.
  rewrite PessimisticFacts.get_readers_make, PessimisticFacts.get_writer_version_make by lia.
  rewrite PessimisticFacts.u16_parity. repeat split; [lia|done..].
Qed.

(** Beyond that bound exclusion fails: the reader count is one byte, so the
    256th concurrent reader makes the word look free and a writer gets in
    beside all of them. *)
Theorem pessimistic_reader_overflow :
  exists c, rtc Pessimistic.pstep Pessimistic.init_cell c /\
    Pessimistic.n_readers c = 256%nat /\ Pessimistic.n_writers c = 1%nat.
Proof. apply PessimisticFacts.overflow_reachable. Qed.

(** ** Witnesses *)

Definition demo_guard : Guard := make_guard new_table 5.

(** One thread has taken the write lock of word 5. *)
Definition demo_world : world :=
  World (store_word new_table 5 1)
    {[0%nat := Ready (mkGuard 5 1 WRITE_LOCKED)]} (bump 5 (fun _ => 0)).

Lemma demo_world_reachable : rtc step init_world demo_world.
Proof.
  eapply rtc_l; [by apply (step_new _ _ _ 0%nat 5)|].
  eapply rtc_l; [by eapply (step_write_load _ _ _ 0%nat (mkGuard 5 0 UNINITIALIZED))|].
  eapply rtc_l; [by eapply (step_write_cas _ _ _ 0%nat (mkGuard 5 0 UNINITIALIZED) true)|].
  apply rtc_refl.
Defined.

Lemma optimistic_mutual_exclusion_witness :
  holds demo_world 0 5 /\ forall j, holds demo_world j 5 -> 0%nat = j.
Proof.
  split; [by eexists|]. intros j Hj.
  eapply (proj1 (optimistic_mutual_exclusion demo_world demo_world_reachable)); [|exact Hj].
  by eexists.
Defined.

Lemma optimistic_validate_sound_witness :
  words (tbl init_world) 5 = 0 /\ forall i, ~ holds init_world i 5.
Proof.
  apply (optimistic_validate_sound init_world init_world demo_guard (mkGuard 5 0 READ_LOCKED));
    try apply rtc_refl; reflexivity.
Defined.

Lemma more_than_one_writer_since_witness :
  more_than_one_writer_since (mkGuard 5 1 WRITE_LOCKED) 0 = false.
Proof.
  eapply (more_than_one_writer_since_exact init_world init_world demo_guard
           (mkGuard 5 0 READ_LOCKED) demo_guard (mkGuard 5 1 WRITE_LOCKED));
    try apply rtc_refl; reflexivity.
Defined.

Lemma pessimistic_exclusion_witness :
  Pessimistic.get_readers 0 = 0.
Proof.
  apply (proj1 (pessimistic_exclusion Pessimistic.init_cell (rtc_refl _ _))).
Defined.
