(* ===== verification/BTreeNode.v ===== *)
(** The slotted B-tree page of LeanStore
    (src/backend/leanstore/storage/btree/core/BTreeNode.hpp and BTreeNode.cpp):
    definitions only; the proofs are in BTreeNodeSearch.v and BTreeNodeSpace.v.

    A page has a header, a slot array growing up and a heap of key/payload
    bytes growing down from the end of the page.  Keys are stored without the
    prefix shared by the two fence keys, each slot caches the first four key
    bytes as a big-endian integer ([head]), and 16 heads are sampled into
    [hint].  The model keeps the header fields and the slot array as typed
    fields and the heap as bytes ([bytes], addressed by page offset).  A
    pointer with a length is the list of bytes it denotes; a nullable fence
    pointer is an [option].  Uninitialised storage reads as zero. *)
From S2P Require Import Prelude.
Local Open Scope Z_scope.

(** * Layout constants (BufferFrame.hpp, BTreeNode.hpp) *)

Definition PAGE_SIZE : Z := 16 * 1024.

(** [sizeof(Page::dt)]: the page less four 8-byte header words. *)
Definition EFFECTIVE_PAGE_SIZE : Z := PAGE_SIZE - 4 * 8.

(** Offset of [slot] in the page: 8 (upper) + 2*4 (fences) + 2 (count) +
    1 (is_leaf) + 1 (padding) + 3*2 + 2 (padding) + 16*4 (hint); the packed
    slot array follows the last header member. *)
Definition slot_base : Z := 92.

(** [sizeof(Slot)], packed: 2 + 2 + 2 + 4. *)
Definition sizeof_Slot : Z := 10.
Definition sizeof_SwipType : nat := 8.

(** [EFFECTIVE_PAGE_SIZE * 0.6] as a [u16]. *)
Definition underFullSize : Z := EFFECTIVE_PAGE_SIZE * 6 / 10.

Definition hint_count : nat := 16.

(** * Data *)

Record FenceKey := mkFence { fk_offset : Z; fk_length : nat }.

Record Slot := mkSlot { offset : Z; key_len : nat; payload_len : nat; head : Z }.

Record BTreeNode := mkNode {
  upper : Z;                 (* raw Swip *)
  lower_fence : FenceKey;
  upper_fence : FenceKey;
  count : nat;
  is_leaf : bool;
  space_used : Z;
  data_offset : Z;
  prefix_length : nat;
  hint : nat -> Z;
  slot : nat -> Slot;
  bytes : mem }.

Record SeparatorInfo := mkSep { sep_length : nat; sep_slot : nat; sep_trunc : bool }.

(** [BTreeNode(bool is_leaf)] *)
Definition new_node (leaf : bool) : BTreeNode :=
  mkNode 0 (mkFence 0 0) (mkFence 0 0) 0 leaf 0 (u16 EFFECTIVE_PAGE_SIZE) 0
    (fun _ => 0) (fun _ => mkSlot 0 0 0 0) (fun _ => 0).

(** Field updates. *)
Definition set_upper (n : BTreeNode) (u : Z) : BTreeNode :=
  mkNode u (lower_fence n) (upper_fence n) (count n) (is_leaf n) (space_used n)
    (data_offset n) (prefix_length n) (hint n) (slot n) (bytes n).
Definition set_count (n : BTreeNode) (c : nat) : BTreeNode :=
  mkNode (upper n) (lower_fence n) (upper_fence n) c (is_leaf n) (space_used n)
    (data_offset n) (prefix_length n) (hint n) (slot n) (bytes n).
Definition set_hint (n : BTreeNode) (h : nat -> Z) : BTreeNode :=
  mkNode (upper n) (lower_fence n) (upper_fence n) (count n) (is_leaf n) (space_used n)
    (data_offset n) (prefix_length n) h (slot n) (bytes n).
Definition set_slots (n : BTreeNode) (s : nat -> Slot) : BTreeNode :=
  mkNode (upper n) (lower_fence n) (upper_fence n) (count n) (is_leaf n) (space_used n)
    (data_offset n) (prefix_length n) (hint n) s (bytes n).
Definition set_space_used (n : BTreeNode) (s : Z) : BTreeNode :=
  mkNode (upper n) (lower_fence n) (upper_fence n) (count n) (is_leaf n) s
    (data_offset n) (prefix_length n) (hint n) (slot n) (bytes n).
Definition set_prefix_length (n : BTreeNode) (p : nat) : BTreeNode :=
  mkNode (upper n) (lower_fence n) (upper_fence n) (count n) (is_leaf n) (space_used n)
    (data_offset n) p (hint n) (slot n) (bytes n).
Definition set_lower_fence (n : BTreeNode) (f : FenceKey) : BTreeNode :=
  mkNode (upper n) f (upper_fence n) (count n) (is_leaf n) (space_used n)
    (data_offset n) (prefix_length n) (hint n) (slot n) (bytes n).
Definition set_upper_fence (n : BTreeNode) (f : FenceKey) : BTreeNode :=
  mkNode (upper n) (lower_fence n) f (count n) (is_leaf n) (space_used n)
    (data_offset n) (prefix_length n) (hint n) (slot n) (bytes n).

(** Take [length bs] bytes off the heap: [data_offset -= len; space_used += len]
    and copy [bs] to the new [data_offset]. *)
Definition push_bytes (n : BTreeNode) (bs : list Z) : BTreeNode :=
  let space := u16 (Z.of_nat (length bs)) in
  let off := u16 (data_offset n - space) in
  mkNode (upper n) (lower_fence n) (upper_fence n) (count n) (is_leaf n)
    (u16 (space_used n + space)) off (prefix_length n) (hint n) (slot n)
    (write_bytes (bytes n) off bs).

Definition set_slot (n : BTreeNode) (i : nat) (s : Slot) : BTreeNode :=
  set_slots n (fun j => if (j =? i)%nat then s else slot n j).

(** * Header accessors *)

Definition isInner (n : BTreeNode) : bool := negb (is_leaf n).

Definition fence_bytes (n : BTreeNode) (f : FenceKey) : option (list Z) :=
  if fk_offset f =? 0 then None else Some (read_bytes (bytes n) (fk_offset f) (fk_length f)).

Definition getLowerFenceKey (n : BTreeNode) : option (list Z) := fence_bytes n (lower_fence n).
Definition getUpperFenceKey (n : BTreeNode) : option (list Z) := fence_bytes n (upper_fence n).
Definition isLowerFenceInfinity (n : BTreeNode) : bool := fk_offset (lower_fence n) =? 0.
Definition isUpperFenceInfinity (n : BTreeNode) : bool := fk_offset (upper_fence n) =? 0.

(** End of the slot array: [reinterpret_cast<u8*>(slot + count) - ptr()]. *)
Definition slots_end (c : nat) : Z := slot_base + sizeof_Slot * Z.of_nat c.

Definition freeSpace (n : BTreeNode) : Z := u16 (data_offset n - slots_end (count n)).

Definition freeSpaceAfterCompaction (n : BTreeNode) : Z :=
  u16 (EFFECTIVE_PAGE_SIZE - slots_end (count n) - space_used n).

Definition hasEnoughSpaceFor (n : BTreeNode) (space_needed : Z) : bool :=
  (space_needed <=? freeSpace n) || (space_needed <=? freeSpaceAfterCompaction n).

Definition getKey (n : BTreeNode) (i : nat) : list Z :=
  read_bytes (bytes n) (offset (slot n i)) (key_len (slot n i)).
Definition getKeyLen (n : BTreeNode) (i : nat) : nat := key_len (slot n i).
Definition getFullKeyLen (n : BTreeNode) (i : nat) : nat := (prefix_length n + getKeyLen n i)%nat.
Definition getPayloadLength (n : BTreeNode) (i : nat) : nat := payload_len (slot n i).
Definition getPayload (n : BTreeNode) (i : nat) : list Z :=
  read_bytes (bytes n) (offset (slot n i) + Z.of_nat (key_len (slot n i))) (payload_len (slot n i)).

Definition getPrefix (n : BTreeNode) : list Z :=
  take (prefix_length n) (default [] (getLowerFenceKey n)).

Definition copyFullKey (n : BTreeNode) (i : nat) : list Z := getPrefix n ++ getKey n i.

(** [getChild]: the payload read as a little-endian 64-bit swip. *)
Definition getChild (n : BTreeNode) (i : nat) : Z := of_le (getPayload n i).

Definition shortenPayload (n : BTreeNode) (i : nat) (len : nat) : BTreeNode :=
  let s := slot n i in
  let freed_space := Z.of_nat (payload_len s) - Z.of_nat len in
  set_slot (set_space_used n (u16 (space_used n - freed_space))) i
    (mkSlot (offset s) (key_len s) len (head s)).

(** * Key comparison *)

(** The byte loop of [cmpKeys] (and [memcmp]): first difference within
    [len] bytes. *)
Fixpoint memcmp (a b : list Z) (len : nat) : Z :=
  match len, a, b with
  | S len', x :: a', y :: b' =>
      if x =? y then memcmp a' b' len' else if x <? y then -1 else 1
  | _, _, _ => 0
  end.

Definition cmpKeys (a b : list Z) : Z :=
  let aLength := length a in
  let bLength := length b in
  let len := Nat.min aLength bLength in
  if (len <? 4)%nat then
    (* byte loop *)
    let c := memcmp a b len in
    if negb (c =? 0) then c else Z.of_nat aLength - Z.of_nat bLength
  else
    let c := memcmp a b len in
    if negb (c =? 0) then c else Z.of_nat aLength - Z.of_nat bLength.

(** [head]: the first four bytes, zero padded, as a big-endian [u32]. *)
Definition head_of (key : list Z) : Z :=
  match key with
  | [] => 0
  | [k0] => Z.shiftl k0 24
  | [k0; k1] => Z.shiftl (bswap 2 (of_le [k0; k1])) 16
  | [k0; k1; k2] => Z.lor (Z.shiftl (bswap 2 (of_le [k0; k1])) 16) (Z.shiftl k2 8)
  | k0 :: k1 :: k2 :: k3 :: _ => bswap 4 (of_le [k0; k1; k2; k3])
  end.

(** * Hints *)

Definition makeHint (n : BTreeNode) : BTreeNode :=
  let dist := (count n / (hint_count + 1))%nat in
  set_hint n (fun i => if (i <? hint_count)%nat
                       then head (slot n (dist * (i + 1))%nat) else hint n i).

Definition updateHint (n : BTreeNode) (slotId : nat) : BTreeNode :=
  let dist := (count n / (hint_count + 1))%nat in
  let begin :=
    if ((hint_count * 2 + 1 <? count n) && ((count n - 1) / (hint_count + 1) =? dist)
        && (1 <? slotId / dist))%nat
    then (slotId / dist - 1)%nat else 0%nat in
  set_hint n (fun i => if ((begin <=? i) && (i <? hint_count))%nat
                       then head (slot n (dist * (i + 1))%nat) else hint n i).

(** First index [i >= from] with [p (hint i)], else [hint_count]; [fuel]
    bounds the number of hints left. *)
Fixpoint scan_hint (n : BTreeNode) (p : Z -> bool) (from fuel : nat) : nat :=
  match fuel with
  | O => from
  | S fuel' => if p (hint n from) then from else scan_hint n p (S from) fuel'
  end.

Definition searchHint (n : BTreeNode) (keyHead : Z) : nat * nat :=
  let pos := scan_hint n (fun h => keyHead <=? h) 0 hint_count in
  let pos2 := scan_hint n (fun h => negb (h =? keyHead)) pos (hint_count - pos) in
  (pos, pos2).

(** * Search *)

(** Outcome of comparing the search key (prefix stripped) with slot [mid], as
    the loop of [lowerBound] does it: heads, then lengths when the slot key
    fits in its head, then the whole keys. *)
Definition cmp_slot (n : BTreeNode) (key : list Z) (mid : nat) : comparison :=
  let keyHead := head_of key in
  let s := slot n mid in
  if keyHead <? head s then Lt
  else if head s <? keyHead then Gt
  else if (key_len s <=? 4)%nat then
    if (length key <? key_len s)%nat then Lt
    else if (key_len s <? length key)%nat then Gt
    else Eq
  else
    let cmp := cmpKeys key (getKey n mid) in
    if cmp <? 0 then Lt else if 0 <? cmp then Gt else Eq.

(** The binary search loop: [Some (pos, found)], or [None] when [fuel] runs
    out. *)
Fixpoint search_loop (n : BTreeNode) (key : list Z) (fuel lower upper : nat)
  : option (nat * bool) :=
  match fuel with
  | O => None
  | S fuel' =>
      if (lower <? upper)%nat then
        let mid := ((upper - lower) / 2 + lower)%nat in
        match cmp_slot n key mid with
        | Lt => search_loop n key fuel' lower mid
        | Gt => search_loop n key fuel' (S mid) upper
        | Eq => Some (mid, true)
        end
      else Some (lower, false)
  end.

(** The interval the hints leave to search. *)
Definition hint_range (n : BTreeNode) (keyHead : Z) : nat * nat :=
  if (hint_count * 2 <? count n)%nat then
    let dist := (count n / (hint_count + 1))%nat in
    let (pos, pos2) := searchHint n keyHead in
    (pos * dist, if (pos2 <? hint_count)%nat then (pos2 + 1) * dist else count n)%nat
  else (0, count n)%nat.

(** [lowerBound<equalityOnly>(key, keyLength, &is_equal)]: the position ([-1]
    when [equalityOnly] finds nothing) and the value left in [is_equal] when
    the caller passes one initialised to false. *)
Definition lowerBound (equalityOnly : bool) (n : BTreeNode) (key : list Z) : option (Z * bool) :=
  let after_prefix :=
    let rest := drop (prefix_length n) key in
    let (lower, upper) := hint_range n (head_of rest) in
    match search_loop n rest (S (upper - lower)) lower upper with
    | None => None
    | Some (pos, true) => Some (Z.of_nat pos, is_leaf n)
    | Some (pos, false) => Some (if equalityOnly then -1 else Z.of_nat pos, false)
    end in
  if equalityOnly then
    if (length key <? prefix_length n)%nat
       || negb (memcmp key (getPrefix n) (prefix_length n) =? 0)
    then Some (-1, false) else after_prefix
  else
    let prefixCmp := cmpKeys (take (Nat.min (length key) (prefix_length n)) key) (getPrefix n) in
    if prefixCmp <? 0 then Some (0, false)
    else if 0 <? prefixCmp then Some (Z.of_nat (count n), false)
    else after_prefix.

(** [1] below or at the lower fence, [-1] above the upper fence, else [0]. *)
Definition compareKeyWithBoundaries (n : BTreeNode) (key : list Z) : Z :=
  match getLowerFenceKey n with
  | Some lf => if negb (0 <? cmpKeys key lf) then 1 else
      match getUpperFenceKey n with
      | Some uf => if negb (cmpKeys key uf <=? 0) then -1 else 0
      | None => 0
      end
  | None =>
      match getUpperFenceKey n with
      | Some uf => if negb (cmpKeys key uf <=? 0) then -1 else 0
      | None => 0
      end
  end.

(** The swip to follow for [key] in an inner node. *)
Definition lookupInner (n : BTreeNode) (key : list Z) : option Z :=
  match lowerBound false n key with
  | None => None
  | Some (pos, _) =>
      Some (if pos =? Z.of_nat (count n) then upper n else getChild n (Z.to_nat pos))
  end.

(** * Building a page *)

(** [memmove(slot + to, slot + from, ...)] of the slots [from, from + len). *)
Definition memmove_slots (n : BTreeNode) (to from len : nat) : BTreeNode :=
  set_slots n (fun j => if ((to <=? j) && (j <? to + len))%nat
                        then slot n (j - to + from)%nat else slot n j).

(** Assignment to the 15-bit field [payload_len]. *)
Definition payload_bits (len : nat) : nat := Z.to_nat (wrap 15 (Z.of_nat len)).

Definition storeKeyValue (n : BTreeNode) (slotId : nat) (key payload : list Z) : BTreeNode :=
  let key := drop (prefix_length n) key in
  let n' := push_bytes n (key ++ payload) in
  set_slot n' slotId
    (mkSlot (data_offset n') (length key) (payload_bits (length payload)) (head_of key)).

Definition copyKeyValue (src : BTreeNode) (srcSlot : nat) (dst : BTreeNode) (dstSlot : nat) : BTreeNode :=
  storeKeyValue dst dstSlot (copyFullKey src srcSlot) (getPayload src srcSlot).

(** Fast path of [copyKeyValueRange] for one slot: the slot is copied and its
    key/payload bytes follow. *)
Definition copySlot (src : BTreeNode) (srcSlot : nat) (dst : BTreeNode) (dstSlot : nat) : BTreeNode :=
  let s := slot src srcSlot in
  let kv_size := (getKeyLen src srcSlot + getPayloadLength src srcSlot)%nat in
  let dst' := push_bytes dst (read_bytes (bytes src) (offset s) kv_size) in
  set_slot dst' dstSlot (mkSlot (data_offset dst') (key_len s) (payload_len s) (head s)).

(** [for (i = i0; i < i0 + cnt; i++)] with the chosen one-slot copy. *)
Fixpoint copy_loop (one : nat -> BTreeNode -> BTreeNode) (cnt i0 : nat) (dst : BTreeNode) : BTreeNode :=
  match cnt with
  | O => dst
  | S cnt' => copy_loop one cnt' (S i0) (one i0 dst)
  end.

Definition copyKeyValueRange (src dst : BTreeNode) (dstSlot srcSlot cnt : nat) : BTreeNode :=
  let dst' :=
    if (prefix_length src =? prefix_length dst)%nat
    then copy_loop (fun i d => copySlot src (srcSlot + i) d (dstSlot + i)) cnt 0 dst
    else copy_loop (fun i d => copyKeyValue src (srcSlot + i) d (dstSlot + i)) cnt 0 dst in
  set_count dst' (count dst' + cnt).

Definition insertFence (lower : bool) (n : BTreeNode) (key : option (list Z)) : BTreeNode :=
  match key with
  | None => n
  | Some key =>
      let n' := push_bytes n key in
      let fk := mkFence (data_offset n') (length key) in
      if lower then set_lower_fence n' fk else set_upper_fence n' fk
  end.

Fixpoint common_prefix_len (a b : list Z) : nat :=
  match a, b with
  | x :: a', y :: b' => if x =? y then S (common_prefix_len a' b') else O
  | _, _ => O
  end.

Definition setFences (n : BTreeNode) (lowerKey upperKey : option (list Z)) : BTreeNode :=
  let n1 := insertFence true n lowerKey in
  let n2 := insertFence false n1 upperKey in
  set_prefix_length n2 (common_prefix_len (default [] lowerKey) (default [] upperKey)).

(** * Page operations *)

Definition compactify (n : BTreeNode) : BTreeNode :=
  let tmp := setFences (new_node (is_leaf n)) (getLowerFenceKey n) (getUpperFenceKey n) in
  let tmp := copyKeyValueRange n tmp 0 0 (count n) in
  makeHint (set_upper tmp (upper n)).

(** The page after the call and the result. *)
Definition requestSpaceFor (n : BTreeNode) (space_needed : Z) : bool * BTreeNode :=
  if space_needed <=? freeSpace n then (true, n)
  else if space_needed <=? freeSpaceAfterCompaction n then (true, compactify n)
  else (false, n).

(** The static and the member [spaceNeeded]. *)
Definition spaceNeeded_prefix (key_len payload_len prefix_len : nat) : Z :=
  u16 (sizeof_Slot + (Z.of_nat key_len - Z.of_nat prefix_len) + Z.of_nat payload_len).

Definition spaceNeeded (n : BTreeNode) (key_len payload_len : nat) : Z :=
  spaceNeeded_prefix key_len payload_len (prefix_length n).

Definition canInsert (n : BTreeNode) (key_len payload_len : nat) : bool :=
  hasEnoughSpaceFor n (spaceNeeded n key_len payload_len).

Definition prepareInsert (n : BTreeNode) (key_len payload_len : nat) : bool * BTreeNode :=
  requestSpaceFor n (spaceNeeded n key_len payload_len).

(** [None]: the search ran out of fuel, which is proved not to happen. *)
Definition insert (n : BTreeNode) (key payload : list Z) : option (BTreeNode * nat) :=
  let n1 := snd (prepareInsert n (length key) (length payload)) in
  match lowerBound false n1 key with
  | None => None
  | Some (pos, _) =>
      let slotId := Z.to_nat pos in
      let n2 := memmove_slots n1 (slotId + 1) slotId (count n1 - slotId) in
      let n3 := storeKeyValue n2 slotId key payload in
      let n4 := set_count n3 (count n3 + 1) in
      Some (updateHint n4 slotId, slotId)
  end.

(** As [insert], but the payload bytes are left as the heap has them. *)
Definition insertDoNotCopyPayload (n : BTreeNode) (key : list Z) (payload_length : nat)
  : option (BTreeNode * nat) :=
  let n1 := snd (prepareInsert n (length key) payload_length) in
  match lowerBound false n1 key with
  | None => None
  | Some (pos, _) =>
      let slotId := Z.to_nat pos in
      let n2 := memmove_slots n1 (slotId + 1) slotId (count n1 - slotId) in
      let rest := drop (prefix_length n2) key in
      let space := u16 (Z.of_nat (length rest) + Z.of_nat payload_length) in
      let off := u16 (data_offset n2 - space) in
      let stale := read_bytes (bytes n2) (off + Z.of_nat (length rest)) payload_length in
      let n3 := storeKeyValue n2 slotId key stale in
      let n4 := set_count n3 (count n3 + 1) in
      Some (updateHint n4 slotId, slotId)
  end.

Definition removeSlot (n : BTreeNode) (slotId : nat) : BTreeNode :=
  let n1 := set_space_used n (u16 (space_used n
              - (Z.of_nat (getKeyLen n slotId) + Z.of_nat (getPayloadLength n slotId)))) in
  let n2 := memmove_slots n1 slotId (slotId + 1) (count n1 - slotId - 1) in
  makeHint (set_count n2 (count n2 - 1)).

(** The page and whether the key was there. *)
Definition remove (n : BTreeNode) (key : list Z) : option (BTreeNode * bool) :=
  match lowerBound true n key with
  | None => None
  | Some (pos, _) =>
      Some (if pos =? -1 then (n, false) else (removeSlot n (Z.to_nat pos), true))
  end.

(** * Separators, split and merge *)

Definition commonPrefix (n : BTreeNode) (slotA slotB : nat) : nat :=
  if (count n =? 0)%nat then 0%nat
  else common_prefix_len (getKey n slotA) (getKey n slotB).

(** The scan for the split position: [best] is [(maxPrefix, maxPos)]. *)
Fixpoint sep_scan (n : BTreeNode) (i cnt : nat) (best : nat * nat) : nat * nat :=
  match cnt with
  | O => best
  | S cnt' =>
      let prefix := commonPrefix n i 0 in
      sep_scan n (S i) cnt' (if (best.1 <? prefix)%nat then (prefix, i) else best)
  end.

Definition findSep (n : BTreeNode) : SeparatorInfo :=
  if isInner n then mkSep (getFullKeyLen n (count n / 2)) (count n / 2)%nat false
  else
    let lower := (count n / 2 - count n / 16)%nat in
    let upper := (count n / 2 + count n / 16)%nat in
    let maxPos := (count n / 2)%nat in
    let maxPos := (sep_scan n lower (upper - lower) (commonPrefix n maxPos 0, maxPos)).2 in
    let common := commonPrefix n maxPos (maxPos + 1) in
    if ((common <? key_len (slot n maxPos)) && (common + 1 <? key_len (slot n (maxPos + 1))))%nat
    then mkSep (prefix_length n + common + 1)%nat maxPos true
    else mkSep (getFullKeyLen n maxPos) maxPos false.

Definition getSep (n : BTreeNode) (info : SeparatorInfo) : list Z :=
  let src := if sep_trunc info then (sep_slot info + 1)%nat else sep_slot info in
  getPrefix n ++ take (sep_length info - prefix_length n) (getKey n src).

(** [this->split(parent, nodeLeft, sepSlot, sepKey)] with [nodeLeft] freshly
    initialised and [left_swip] the swip to it: parent, left page, and the
    right page that replaces [this]. *)
Definition split (n parent nodeLeft : BTreeNode) (left_swip : Z) (sepSlot : nat) (sepKey : list Z)
  : option (BTreeNode * BTreeNode * BTreeNode) :=
  let nodeLeft := setFences nodeLeft (getLowerFenceKey n) (Some sepKey) in
  let nodeRight := setFences (new_node (is_leaf n)) (Some sepKey) (getUpperFenceKey n) in
  match insert parent sepKey (to_le sizeof_SwipType left_swip) with
  | None => None
  | Some (parent', _) =>
      if is_leaf n then
        let nodeLeft := copyKeyValueRange n nodeLeft 0 0 (sepSlot + 1) in
        let nodeRight := copyKeyValueRange n nodeRight 0 (count nodeLeft) (count n - count nodeLeft) in
        Some (parent', makeHint nodeLeft, makeHint nodeRight)
      else
        let nodeLeft := copyKeyValueRange n nodeLeft 0 0 sepSlot in
        let nodeRight := copyKeyValueRange n nodeRight 0 (count nodeLeft + 1) (count n - count nodeLeft - 1) in
        let nodeLeft := set_upper nodeLeft (getChild n (count nodeLeft)) in
        let nodeRight := set_upper nodeRight (upper n) in
        Some (parent', makeHint nodeLeft, makeHint nodeRight)
  end.

(** The bound [merge] compares with the page size; [growth w] wraps the
    partial results at width [w] ([merge] keeps [u16]s, [mergeSpaceUpperBound]
    [u32]s). *)
Definition merge_bound (w : Z) (left right tmp : BTreeNode) : Z :=
  let leftGrow := wrap w ((Z.of_nat (prefix_length left) - Z.of_nat (prefix_length tmp)) * Z.of_nat (count left)) in
  let rightGrow := wrap w ((Z.of_nat (prefix_length right) - Z.of_nat (prefix_length tmp)) * Z.of_nat (count right)) in
  space_used left + space_used right + slots_end (count left + count right) + leftGrow + rightGrow.

Definition mergeSpaceUpperBound (left right : BTreeNode) : Z :=
  let tmp := setFences (new_node true) (getLowerFenceKey left) (getUpperFenceKey right) in
  u32 (merge_bound 32 left right tmp).

Definition spaceUsedBySlot (n : BTreeNode) (i : nat) : Z :=
  u32 (sizeof_Slot + Z.of_nat (getKeyLen n i) + Z.of_nat (getPayloadLength n i)).

(** [left->merge(slotId, parent, right)]: [None] when the bound does not fit
    ([return false]); else the parent without the separator and the merged
    page that replaces [right]. *)
Definition merge (left : BTreeNode) (slotId : nat) (parent right : BTreeNode)
  : option (BTreeNode * BTreeNode) :=
  let tmp := setFences (new_node (is_leaf left)) (getLowerFenceKey left) (getUpperFenceKey right) in
  if is_leaf left then
    if EFFECTIVE_PAGE_SIZE <? u16 (merge_bound 16 left right tmp) then None
    else
      let tmp := copyKeyValueRange left tmp 0 0 (count left) in
      let tmp := copyKeyValueRange right tmp (count left) 0 (count right) in
      Some (removeSlot parent slotId, makeHint tmp)
  else
    let extraKey := copyFullKey parent slotId in
    let extraKeyLength := getFullKeyLen parent slotId in
    let spaceUpperBound := u16 (merge_bound 16 left right tmp
        + spaceNeeded_prefix extraKeyLength sizeof_SwipType (prefix_length tmp)) in
    if EFFECTIVE_PAGE_SIZE <? spaceUpperBound then None
    else
      let tmp := copyKeyValueRange left tmp 0 0 (count left) in
      let tmp := storeKeyValue tmp (count left) extraKey (to_le sizeof_SwipType (upper left)) in
      let tmp := set_count tmp (count tmp + 1) in
      let tmp := copyKeyValueRange right tmp (count tmp) 0 (count right) in
      Some (removeSlot parent slotId, makeHint (set_upper tmp (upper right))).

(** * Abstract view *)

(** The entry a slot denotes: full key and payload. *)
Definition entry (n : BTreeNode) (i : nat) : list Z * list Z := (copyFullKey n i, getPayload n i).

Definition entries (n : BTreeNode) : list (list Z * list Z) := map (entry n) (seq 0 (count n)).
