(* ===== verification/FreeList.v ===== *)
(** The free list of a partition
    (src/backend/leanstore/storage/buffer-manager/FreeList.cpp): a lock-free
    stack threaded through the frames, at the granularity of its accesses to
    [head] and to the [next_free_bf] fields. *)
From stdpp Require Import gmap.
From S2P Require Import Prelude.
Local Open Scope Z_scope.

(** [head], the [next_free_bf] fields and [counter]; the null pointer is 0. *)
Record FreeList := mkFL { head : Z; next_free_bf : gmap Z Z; counter : Z }.

Definition next_of (s : FreeList) (bf : Z) : Z := default 0 (next_free_bf s !! bf).
Definition set_head (s : FreeList) (h : Z) : FreeList := mkFL h (next_free_bf s) (counter s).
Definition set_next (s : FreeList) (bf h : Z) : FreeList := mkFL (head s) (<[bf := h]> (next_free_bf s)) (counter s).
Definition add_counter (s : FreeList) (d : Z) : FreeList := mkFL (head s) (next_free_bf s) (u64 (counter s + d)).

(** Where a call is.  [bs] is the batch being pushed, head first; [retry]:
    [pop] and [tryPop()] try again after a lost race, [tryPop(lock)] jumps. *)
Inductive pc :=
| PushLoad (bs : list Z) (n : Z)
| PushStore (bs : list Z) (n h : Z)
| PushCas (bs : list Z) (n : Z)
| PushCount (n : Z)
| PopLoad (retry : bool)
| PopNext (retry : bool) (c : Z)
| PopCas (retry : bool) (c nx : Z)
| PopClear (c : Z)
| PopCount (c : Z)
| Pushed
| Popped (c : Z)
| Jumped.

(** The calls. *)
Definition push (bf : Z) : pc := PushLoad [bf] 1.
Definition batchPush (bs : list Z) (batch_counter : Z) : pc := PushLoad bs batch_counter.
Definition tryPop_lock : pc := PopLoad false.
Definition pop : pc := PopLoad true.

Definition batch_head (bs : list Z) : Z := default 0 (list.head bs).
Definition batch_tail (bs : list Z) : Z := default 0 (list.last bs).

(** One access.  A failed [compare_exchange_strong] of a push stores the head
    it saw in [next_free_bf]; of a pop in [c_header], which is then loaded
    again. *)
Definition step_push (s : FreeList) (t : pc) : option (FreeList * pc) :=
  match t with
  | PushLoad bs n => Some (s, PushStore bs n (head s))
  | PushStore bs n h => Some (set_next s (batch_tail bs) h, PushCas bs n)
  | PushCas bs n =>
      if head s =? next_of s (batch_tail bs) then Some (set_head s (batch_head bs), PushCount n)
      else Some (set_next s (batch_tail bs) (head s), PushCas bs n)
  | PushCount n => Some (add_counter s n, Pushed)
  | _ => None
  end.

Definition step_pop (s : FreeList) (t : pc) : option (FreeList * pc) :=
  match t with
  | PopLoad retry => Some (s, if head s =? 0 then Jumped else PopNext retry (head s))
  | PopNext retry c => Some (s, PopCas retry c (next_of s c))
  | PopCas retry c nx =>
      if head s =? c then Some (set_head s nx, PopClear c)
      else Some (s, if negb retry || (head s =? 0) then Jumped else PopLoad retry)
  | PopClear c => Some (set_next s c 0, PopCount c)
  | PopCount c => Some (add_counter s (-1), Popped c)
  | _ => None
  end.

Definition step (s : FreeList) (t : pc) : option (FreeList * pc) :=
  match step_push s t with Some r => Some r | None => step_pop s t end.

(** A call that runs alone. *)
Fixpoint run (fuel : nat) (s : FreeList) (t : pc) : option (FreeList * pc) :=
  match t with
  | Pushed | Popped _ | Jumped => Some (s, t)
  | _ => match fuel with O => None | S fuel' => '(s, t) ← step s t; run fuel' s t end
  end.

(** Many calls: [sched] says whose turn it is. *)
Fixpoint interleave (sched : list nat) (s : FreeList) (ts : list pc) : option (FreeList * list pc) :=
  match sched with
  | [] => Some (s, ts)
  | i :: sched' => t ← ts !! i; '(s, t) ← step s t; interleave sched' s (<[i := t]> ts)
  end.

(** * The list in memory *)

Lemma next_of_set s b h x : next_of (set_next s b h) x = if decide (x = b) then h else next_of s x.
Proof.
  unfold next_of. simpl. case_decide as E; [subst; by rewrite lookup_insert_eq|by rewrite lookup_insert_ne by congruence].
Qed.

Fixpoint chain (nx : Z -> Z) (h : Z) (l : list Z) : Prop :=
  match l with
  | [] => h = 0
  | b :: l' => h = b /\ b <> 0 /\ chain nx (nx b) l'
  end.

(** The links inside a batch. *)
Fixpoint linked (nx : Z -> Z) (bs : list Z) : Prop :=
  match bs with
  | b :: (b' :: _) as bs' => b <> 0 /\ nx b = b' /\ linked nx bs'
  | [b] => b <> 0
  | [] => False
  end.

Lemma chain_ext nx nx' h l : (forall b, b ∈ l -> nx b = nx' b) -> chain nx h l -> chain nx' h l.
Proof.
  revert h; induction l as [|b l IH]; intros h Hx; simpl; [done|]. intros (H1 & H2 & H3). split_and!; [done..|].
  rewrite <- Hx by (apply elem_of_cons; by left). apply IH; [|done]. intros x Hx'. apply Hx, elem_of_cons. by right.
Qed.

Lemma linked_ext nx nx' bs :
  (forall b, b ∈ bs -> b <> batch_tail bs -> nx b = nx' b) -> NoDup bs -> linked nx bs -> linked nx' bs.
Proof.
  induction bs as [|b [|b' bs] IH]; intros Hx Hn; [done|done|]. intros (H1 & H2 & H3).
  apply list.NoDup_cons in Hn as [Hb Hn]. assert (batch_tail (b :: b' :: bs) = batch_tail (b' :: bs)) as Et by done.
  split; [done|]. split.
  - rewrite <- Hx; [done|apply elem_of_cons; by left|]. rewrite Et. intros E. apply Hb. rewrite E. unfold batch_tail.
    destruct (list.last (b' :: bs)) as [x|] eqn:El; [|by apply last_None in El]. by apply last_Some_elem_of in El.
  - apply IH; [|done|done]. intros x Hin Ht. apply Hx; [apply elem_of_cons; by right|]. by rewrite Et.
Qed.

(** A linked batch in front of a list. *)
Lemma linked_chain nx bs h l :
  linked nx bs -> nx (batch_tail bs) = h -> chain nx h l -> chain nx (batch_head bs) (bs ++ l).
Proof.
  intros Hl Ht Hc. induction bs as [|b [|b' bs] IH]; [done| |].
  - simpl in *. unfold batch_tail, batch_head in *. simpl in *. split_and!; [done..|]. by rewrite Ht.
  - destruct Hl as (H1 & H2 & H3). specialize (IH H3 Ht). split; [done|]. split; [done|]. rewrite H2. exact IH.
Qed.

Lemma tail_in bs : bs <> [] -> batch_tail bs ∈ bs.
Proof.
  intros Hb. unfold batch_tail. destruct (list.last bs) as [x|] eqn:E; [by apply last_Some_elem_of|].
  by apply last_None in E.
Qed.

Lemma linked_nonempty nx bs : linked nx bs -> bs <> [].
Proof. by intros H ->. Qed.

(** * Calls that run alone *)

(** The buffer manager's model takes the free list for a list: alone, a push
    adds its frames in front and a pop takes the first one. *)
Lemma run_push s l bs :
  chain (next_of s) (head s) l -> linked (next_of s) bs -> NoDup bs -> (forall b, b ∈ bs -> b ∉ l) ->
  exists s', run 4 s (batchPush bs (Z.of_nat (length bs))) = Some (s', Pushed) /\
    chain (next_of s') (head s') (bs ++ l) /\ counter s' = u64 (counter s + Z.of_nat (length bs)).
Proof.
  intros Hc Hl Hn Hd. pose proof (tail_in bs (linked_nonempty _ _ Hl)) as Ht. unfold run, step, step_push, batchPush.
  cbn [mbind option_bind]. rewrite next_of_set, decide_True, Z.eqb_refl by done. cbn [mbind option_bind]. eexists. split; [done|]. split; [|done]. cbn.
  set (s1 := set_next s (batch_tail bs) (head s)).
  apply (linked_chain (next_of s1) bs (head s) l).
  - eapply linked_ext; [|done|exact Hl]. intros b _ Hne. unfold s1. by rewrite next_of_set, decide_False.
  - unfold s1. by rewrite next_of_set, decide_True.
  - eapply chain_ext; [|exact Hc]. intros b Hb. unfold s1. rewrite next_of_set, decide_False; [done|].
    intros ->. by apply (Hd _ Ht).
Qed.

Lemma run_pop s b l :
  chain (next_of s) (head s) (b :: l) -> b ∉ l ->
  exists s', run 5 s pop = Some (s', Popped b) /\ chain (next_of s') (head s') l /\ counter s' = u64 (counter s - 1).
Proof.
  intros (Eh & Hb & Hc) Hn. unfold run, step, step_push, step_pop, pop. cbn [mbind option_bind].
  rewrite Eh, (proj2 (Z.eqb_neq b 0)) by done. cbn [mbind option_bind]. rewrite Eh, Z.eqb_refl. cbn [mbind option_bind].
  eexists. split; [done|]. split; [|done]. cbn. eapply chain_ext; [|exact Hc]. intros x Hx. symmetry.
  change (next_of (set_next s b 0) x = next_of s x). rewrite next_of_set, decide_False; [done|]. by intros ->.
Qed.

Lemma run_pop_empty s retry : head s = 0 -> run 1 s (PopLoad retry) = Some (s, Jumped).
Proof. intros H. cbn. by rewrite H. Qed.

(** * Threads *)

(** The frames a call holds, and what it still owes to the counter. *)
Definition in_flight (t : pc) : list Z :=
  match t with
  | PushLoad bs _ | PushStore bs _ _ | PushCas bs _ => bs
  | PopClear c | PopCount c | Popped c => [c]
  | _ => []
  end.

Definition pending (t : pc) : Z :=
  match t with PushCount n => n | PopClear _ | PopCount _ => -1 | _ => 0 end.

Definition idle (t : pc) : Prop := t = Pushed \/ t = Jumped.

(** What threads do: run their calls one access at a time, keep what a pop gave
    them, write the links of frames they own, start a push of frames they own
    and have linked, start a pop if they are of those that pop. *)
Inductive tstep (pops : nat -> Prop) : FreeList * list pc * list Z -> FreeList * list pc * list Z -> Prop :=
| ts_access s ts owned i t s' t' :
    ts !! i = Some t -> step s t = Some (s', t') -> tstep pops (s, ts, owned) (s', <[i := t']> ts, owned)
| ts_keep s ts owned i c :
    ts !! i = Some (Popped c) -> tstep pops (s, ts, owned) (s, <[i := Pushed]> ts, c :: owned)
| ts_write s ts owned b h :
    b ∈ owned -> tstep pops (s, ts, owned) (set_next s b h, ts, owned)
| ts_push s ts owned owned' bs i t :
    ts !! i = Some t -> idle t -> owned ≡ₚ bs ++ owned' -> linked (next_of s) bs ->
    tstep pops (s, ts, owned) (s, <[i := batchPush bs (Z.of_nat (length bs))]> ts, owned')
| ts_pop s ts owned i t retry :
    ts !! i = Some t -> idle t -> pops i -> tstep pops (s, ts, owned) (s, <[i := PopLoad retry]> ts, owned).

Inductive treach (pops : nat -> Prop) (w : FreeList * list pc * list Z) : FreeList * list pc * list Z -> Prop :=
| tr_refl : treach pops w w
| tr_step w1 w2 : treach pops w w1 -> tstep pops w1 w2 -> treach pops w w2.

(** ** Invariant *)

(** What a call knows: a batch is linked; a pop has read a frame of the list
    and its successor. *)
Definition local (s : FreeList) (l : list Z) (popper : Prop) (t : pc) : Prop :=
  match t with
  | PushLoad bs n | PushStore bs n _ | PushCas bs n => linked (next_of s) bs /\ n = Z.of_nat (length bs)
  | PopLoad _ => popper
  | PopNext _ c => popper /\ c ∈ l
  | PopCas _ c nx => popper /\ c ∈ l /\ next_of s c = nx
  | _ => True
  end.

Definition sum_pending (ts : list pc) : Z := foldr (fun t a => pending t + a) 0 ts.

(** [all] are the frames of the partition. *)
Record tinv (pops : nat -> Prop) (all : list Z) (w : FreeList * list pc * list Z) (l : list Z) : Prop := TInv {
  ti_all : l ++ w.2 ++ flat_map in_flight w.1.2 ≡ₚ all;
  ti_chain : chain (next_of w.1.1) (head w.1.1) l;
  ti_nodup : NoDup (l ++ w.2 ++ flat_map in_flight w.1.2);
  ti_null : 0 ∉ l ++ w.2 ++ flat_map in_flight w.1.2;
  ti_local : forall i t, w.1.2 !! i = Some t -> local w.1.1 l (pops i) t;
  ti_counter : u64 (counter w.1.1 + sum_pending w.1.2) = u64 (Z.of_nat (length l)) }.

Lemma flat_map_upd {A} (f : pc -> list A) ts i t :
  ts !! i = Some t ->
  exists rest, flat_map f ts ≡ₚ f t ++ rest /\ forall t', flat_map f (<[i := t']> ts) ≡ₚ f t' ++ rest.
Proof.
  intros Hi. pose proof (lookup_lt_Some _ _ _ Hi) as Hl. exists (flat_map f (take i ts) ++ flat_map f (drop (S i) ts)).
  split; [|intros t'].
  - rewrite <- (take_drop_middle ts i t Hi) at 1. rewrite flat_map_app. simpl. apply Permutation_app_swap_app.
  - rewrite insert_take_drop by done. rewrite flat_map_app. simpl. apply Permutation_app_swap_app.
Qed.

Lemma sum_upd ts i t :
  ts !! i = Some t -> forall t', sum_pending (<[i := t']> ts) = sum_pending ts - pending t + pending t'.
Proof.
  revert i; induction ts as [|x ts IH]; intros [|i] Hi t'; simpl in *; try done.
  - injection Hi as ->. unfold sum_pending. simpl. lia.
  - unfold sum_pending in *. simpl. rewrite (IH i Hi t'). lia.
Qed.

Lemma local_mono s s' l l' P t :
  local s l P t -> NoDup (in_flight t) -> (forall b, b ∈ in_flight t ++ l -> next_of s' b = next_of s b) ->
  (P -> forall c, c ∈ l -> c ∈ l') -> local s' l' P t.
Proof.
  intros Hl Hn Hx Hc. destruct t; simpl in *; try done.
  1-3: destruct Hl as [H1 H2]; split; [|done]; eapply linked_ext; [|done|exact H1];
    intros b Hb _; symmetry; apply Hx, elem_of_app; by left.
  - destruct Hl as [H1 H2]. auto.
  - destruct Hl as (H1 & H2 & H3). split_and!; [done|auto|]. rewrite Hx; [done|done].
Qed.

(** The frames of two places are distinct. *)
Lemma nodup_in_flight (ts : list pc) l owned i j ti tj b :
  NoDup (l ++ owned ++ flat_map in_flight ts) -> ts !! i = Some ti -> ts !! j = Some tj -> i <> j ->
  b ∈ in_flight ti -> b ∉ in_flight tj.
Proof.
  intros Hn Hi Hj Hij Hb Hb'. destruct (flat_map_upd in_flight ts i ti Hi) as (rest & Hp & Hq).
  rewrite Hp in Hn. apply list.NoDup_app in Hn as (_ & _ & Hn). apply list.NoDup_app in Hn as (_ & _ & Hn).
  apply list.NoDup_app in Hn as (_ & Hn & _). apply (Hn b Hb).
  specialize (Hq Pushed). simpl in Hq. rewrite <- Hq.
  apply list_elem_of_In. apply in_flat_map. exists tj. split; [|by apply list_elem_of_In].
  apply list_elem_of_In. eapply list_elem_of_lookup_2. by rewrite list_lookup_insert_ne.
Qed.

(** One thread moves; the frames it holds and the owned ones are the only ones
    it may have written. *)
Lemma move_inv pops all s ts owned l i t s' t' owned' l' :
  tinv pops all (s, ts, owned) l -> ts !! i = Some t ->
  (forall x, x ∉ in_flight t -> next_of s' x = next_of s x) ->
  chain (next_of s') (head s') l' ->
  l' ++ owned' ++ in_flight t' ≡ₚ l ++ owned ++ in_flight t ->
  local s' l' (pops i) t' ->
  (forall j, j <> i -> pops j -> forall c, c ∈ l -> c ∈ l') ->
  (forall k, u64 (counter s + pending t + k) = u64 (Z.of_nat (length l)) ->
     u64 (counter s' + pending t' + k) = u64 (Z.of_nat (length l'))) ->
  tinv pops all (s', <[i := t']> ts, owned') l'.
Proof.
  intros [H0 H1 H2 H3 H4 H5] Hi Hx Hc Hp Hl Ho Hk. simpl in *. pose proof (lookup_lt_Some _ _ _ Hi) as Hlt.
  destruct (flat_map_upd in_flight ts i t Hi) as (rest & P1 & P2). specialize (P2 t').
  assert (l' ++ owned' ++ flat_map in_flight (<[i := t']> ts) ≡ₚ l ++ owned ++ flat_map in_flight ts) as Perm.
  { rewrite P1, P2, !(app_assoc owned), !(app_assoc owned'), !app_assoc. apply Permutation_app_tail. by rewrite <- !app_assoc. }
  constructor; simpl; [by rewrite Perm|done|by rewrite Perm|by rewrite Perm| |].
  - intros j tj Hj. destruct (decide (j = i)) as [->|Hn].
    + rewrite list_lookup_insert_eq in Hj by done. by injection Hj as <-.
    + rewrite list_lookup_insert_ne in Hj by done. eapply local_mono; [by apply H4| | |by apply Ho].
      * destruct (flat_map_upd in_flight ts j tj Hj) as (rest' & P3 & _). rewrite P3 in H2.
        apply list.NoDup_app in H2 as (_ & _ & H2). apply list.NoDup_app in H2 as (_ & _ & H2). by apply list.NoDup_app in H2 as (H2 & _).
      * intros b Hb. apply Hx. intros Hbi. apply elem_of_app in Hb as [Hb|Hb].
        -- by eapply (nodup_in_flight ts l owned i j t tj b).
        -- apply list.NoDup_app in H2 as (_ & H2 & _). apply (H2 b Hb), elem_of_app. right. rewrite P1. apply elem_of_app. by left.
  - rewrite (sum_upd ts i t Hi t'). specialize (Hk (sum_pending ts - pending t)).
    rewrite <- Hk; [f_equal; lia|]. rewrite <- H5. f_equal. lia.
Qed.

(** A step of the protocol by a thread, with at most one thread that pops. *)
Lemma access_inv pops all s ts owned l i t s' t' :
  (forall i j, pops i -> pops j -> i = j) ->
  tinv pops all (s, ts, owned) l -> ts !! i = Some t -> step s t = Some (s', t') ->
  exists l', tinv pops all (s', <[i := t']> ts, owned) l'.
Proof.
  intros Hone T Hi Hs. pose proof (ti_local _ _ _ _ T i t Hi) as Hl. pose proof (ti_chain _ _ _ _ T) as Hc.
  pose proof (ti_nodup _ _ _ _ T) as Hn. pose proof (ti_null _ _ _ _ T) as H0. simpl in Hl, Hc, Hn, H0.
  destruct (flat_map_upd in_flight ts i t Hi) as (rest & P1 & _).
  assert (forall b, b ∈ in_flight t -> b ∉ l) as Hd.
  { intros b Hb Hbl. apply list.NoDup_app in Hn as (_ & Hn & _). apply (Hn b Hbl), elem_of_app. right.
    rewrite P1. apply elem_of_app. by left. }
  assert (NoDup (in_flight t)) as Hnt.
  { rewrite P1 in Hn. apply list.NoDup_app in Hn as (_ & _ & Hn). apply list.NoDup_app in Hn as (_ & _ & Hn). by apply list.NoDup_app in Hn as (Hn & _). }
  destruct t as [bs n|bs n h|bs n|n|retry|retry c|retry c nx|c|c| |c|]; unfold step, step_push, step_pop in Hs; cbv beta iota in Hs; try done; simpl in Hl.
  - injection Hs as <- <-. exists l. by eapply (move_inv pops all s ts owned l i _ s _ owned l T Hi).
  - injection Hs as <- <-. destruct Hl as [Hlk ->]. pose proof (tail_in bs (linked_nonempty _ _ Hlk)) as Ht.
    exists l. eapply (move_inv pops all s ts owned l i _ _ _ owned l T Hi); try done.
    + intros x Hx. rewrite next_of_set, decide_False; [done|]. intros ->. done.
    + eapply chain_ext; [|exact Hc]. intros b Hb. rewrite next_of_set, decide_False; [done|]. intros ->. by apply (Hd _ Ht).
    + split; [|done]. eapply linked_ext; [|done|exact Hlk]. intros b Hb Hne. by rewrite next_of_set, decide_False.
  - destruct Hl as [Hlk ->]. pose proof (tail_in bs (linked_nonempty _ _ Hlk)) as Ht.
    destruct (Z.eqb_spec (head s) (next_of s (batch_tail bs))) as [Eh|Eh]; injection Hs as <- <-.
    + exists (bs ++ l). eapply (move_inv pops all s ts owned l i _ _ _ owned (bs ++ l) T Hi); try done.
      * exact (linked_chain (next_of s) bs (head s) l Hlk (eq_sym Eh) Hc).
      * simpl. rewrite app_nil_r, <- app_assoc, (Permutation_app_comm bs), <- app_assoc. done.
      * intros j _ _ c Hcl. apply elem_of_app. by right.
      * intros k E. simpl in *. rewrite Z.add_0_r in E. rewrite length_app, Nat2Z.inj_add.
        replace (counter s + Z.of_nat (length bs) + k) with (Z.of_nat (length bs) + (counter s + k)) by lia.
        by rewrite <- wrap_add_wrap, E, wrap_add_wrap.
    + exists l. eapply (move_inv pops all s ts owned l i _ _ _ owned l T Hi); try done.
      * intros x Hx. rewrite next_of_set, decide_False; [done|]. intros ->. done.
      * eapply chain_ext; [|exact Hc]. intros b Hb. rewrite next_of_set, decide_False; [done|]. intros ->. by apply (Hd _ Ht).
      * split; [|done]. eapply linked_ext; [|done|exact Hlk]. intros b Hb Hne. by rewrite next_of_set, decide_False.
  - injection Hs as <- <-. exists l. eapply (move_inv pops all s ts owned l i _ _ _ owned l T Hi); try done.
    intros k E. simpl in *. rewrite Z.add_0_r, wrap_wrap_add. done.
  - injection Hs as <- <-. exists l. eapply (move_inv pops all s ts owned l i _ _ _ owned l T Hi); try done.
    + destruct (head s =? 0); done.
    + destruct (Z.eqb_spec (head s) 0) as [|Hh]; [done|]. simpl. split; [done|].
      destruct l as [|b l]; [done|]. destruct Hc as (-> & _). apply elem_of_cons. by left.
    + intros k E. by destruct (head s =? 0).
  - injection Hs as <- <-. exists l. eapply (move_inv pops all s ts owned l i _ _ _ owned l T Hi); try done. by destruct Hl.
  - destruct Hl as (Hpop & Hcl & Hnx). destruct (Z.eqb_spec (head s) c) as [Eh|Eh]; injection Hs as <- <-.
    + destruct l as [|b l]; [by apply not_elem_of_nil in Hcl|]. destruct Hc as (Eb & Hb0 & Hc).
      assert (b = c) as -> by congruence. exists l. eapply (move_inv pops all s ts owned (c :: l) i _ _ _ owned l T Hi); try done.
      * change (next_of (set_head s nx)) with (next_of s). simpl. by rewrite <- Hnx.
      * simpl. rewrite app_nil_r, app_assoc, <- Permutation_cons_append. done.
      * intros j Hj Hpj. by destruct Hj; apply Hone.
      * intros k E. simpl in *. rewrite Z.add_0_r in E.
        replace (counter s + -1 + k) with (-1 + (counter s + k)) by lia. rewrite <- wrap_add_wrap, E, wrap_add_wrap. f_equal. lia.
    + exists l. eapply (move_inv pops all s ts owned l i _ _ _ owned l T Hi); try done.
      * destruct (_ || _); done.
      * destruct (_ || _); done.
      * intros k E. by destruct (_ || _).
  - injection Hs as <- <-. exists l. assert (c ∉ l) as Hcl by (apply Hd, elem_of_cons; by left).
    eapply (move_inv pops all s ts owned l i _ _ _ owned l T Hi); try done.
    + intros x Hx. rewrite next_of_set, decide_False; [done|]. intros ->. apply Hx, elem_of_cons. by left.
    + eapply chain_ext; [|exact Hc]. intros b Hb. rewrite next_of_set, decide_False; [done|]. intros ->. done.
  - injection Hs as <- <-. exists l. eapply (move_inv pops all s ts owned l i _ _ _ owned l T Hi); try done.
    intros k E. simpl in *. rewrite Z.add_0_r, wrap_wrap_add. done.
Qed.

Lemma tstep_inv pops all w w' l :
  (forall i j, pops i -> pops j -> i = j) -> tinv pops all w l -> tstep pops w w' -> exists l', tinv pops all w' l'.
Proof.
  intros Hone T Hs. destruct Hs as [s ts owned i t s' t' Hi Hs|s ts owned i c Hi|s ts owned b h Hb|
    s ts owned owned' bs i t Hi Hid Hp Hl|s ts owned i t retry Hi Hid Hpop].
  - by eapply access_inv.
  - exists l. eapply (move_inv pops all s ts owned l i _ _ _ _ l T Hi); try done; [by apply T|].
    simpl. apply Permutation_app_head. by rewrite app_nil_r, Permutation_cons_append.
  - exists l. destruct T as [H0 H1 H2 H3 H4 H5]. simpl in *.
    assert (forall x, x ∈ l ++ flat_map in_flight ts -> x <> b) as Hx.
    { intros x Hx ->. apply list.NoDup_app in H2 as (_ & H2a & H2b). apply list.NoDup_app in H2b as (_ & H2b & _).
      apply elem_of_app in Hx as [Hx|Hx]; [by apply (H2a b Hx), elem_of_app; left|by apply (H2b b Hb)]. }
    assert (forall x, x ∈ l ++ flat_map in_flight ts -> next_of (set_next s b h) x = next_of s x) as Hn.
    { intros x Hin. rewrite next_of_set, decide_False; [done|]. by apply Hx. }
    constructor; simpl; [done| |done|done| |done].
    + eapply chain_ext; [|exact H1]. intros x Hin. symmetry. apply Hn, elem_of_app. by left.
    + intros i t Hi. destruct (flat_map_upd in_flight ts i t Hi) as (rest & P1 & _).
      eapply local_mono; [by apply H4| | |done].
      * rewrite P1 in H2. apply list.NoDup_app in H2 as (_ & _ & H2). apply list.NoDup_app in H2 as (_ & _ & H2).
        by apply list.NoDup_app in H2 as (H2 & _).
      * intros x Hin. apply Hn. apply elem_of_app in Hin as [Hin|Hin]; apply elem_of_app; [right|by left].
        rewrite P1. apply elem_of_app. by left.
  - exists l. assert (in_flight t = [] /\ pending t = 0) as [E1 E2] by (by destruct Hid as [-> | ->]).
    eapply (move_inv pops all s ts owned l i t _ _ owned' l T Hi); try done; [by apply T| | ].
    + simpl. rewrite E1, app_nil_r, Hp. apply Permutation_app_head, Permutation_app_comm.
    + intros k. by rewrite E2.
  - exists l. assert (in_flight t = [] /\ pending t = 0) as [E1 E2] by (by destruct Hid as [-> | ->]).
    eapply (move_inv pops all s ts owned l i t _ _ owned l T Hi); try done; [by apply T| | ].
    + simpl. by rewrite E1.
    + intros k. by rewrite E2.
Qed.

(** Nobody has started yet. *)
Definition quiet (ts : list pc) : Prop := Forall idle ts.

Lemma quiet_facts ts : quiet ts -> flat_map in_flight ts = [] /\ sum_pending ts = 0.
Proof. induction 1 as [|t ts Ht _ [IH1 IH2]]; [done|]. by destruct Ht as [-> | ->]; simpl. Qed.

Lemma quiet_inv pops s ts owned l :
  quiet ts -> chain (next_of s) (head s) l -> NoDup (l ++ owned) -> 0 ∉ l ++ owned ->
  counter s = u64 (Z.of_nat (length l)) -> tinv pops (l ++ owned) (s, ts, owned) l.
Proof.
  intros Hq Hc Hn H0 Hk. destruct (quiet_facts ts Hq) as [E1 E2].
  constructor; simpl; rewrite ?E1, ?E2, ?app_nil_r, ?Z.add_0_r; try done.
  - intros i t Hi. unfold quiet in Hq. rewrite Forall_lookup in Hq. by destruct (Hq i t Hi) as [-> | ->].
  - rewrite Hk. unfold wrap. apply Zmod_mod.
Qed.

Lemma treach_inv pops all w w' l :
  (forall i j, pops i -> pops j -> i = j) -> tinv pops all w l -> treach pops w w' -> exists l', tinv pops all w' l'.
Proof. intros Hone T. induction 1 as [|w1 w2 _ [l1 IH] Hs]; [eauto|]. by eapply tstep_inv. Qed.

(** * Properties *)

(** C17: one thread that pops.  However the accesses of any number of threads
    that push single frames and batches and of one thread that pops interleave,
    the stack stays a list without a cycle, no frame is on it and in somebody's
    hands at the same time, none is lost, and between calls the counter is the
    length of the list. *)
Theorem free_list_one_popper pops s ts owned l s' ts' owned' :
  (forall i j, pops i -> pops j -> i = j) ->
  quiet ts -> chain (next_of s) (head s) l -> NoDup (l ++ owned) -> 0 ∉ l ++ owned ->
  counter s = u64 (Z.of_nat (length l)) -> treach pops (s, ts, owned) (s', ts', owned') ->
  exists l', chain (next_of s') (head s') l' /\ NoDup (l' ++ owned' ++ flat_map in_flight ts') /\
    l' ++ owned' ++ flat_map in_flight ts' ≡ₚ l ++ owned /\
    (quiet ts' -> u64 (counter s') = u64 (Z.of_nat (length l'))).
Proof.
  intros Hone Hq Hc Hn H0 Hk Hr.
  destruct (treach_inv pops _ _ _ l Hone (quiet_inv pops s ts owned l Hq Hc Hn H0 Hk) Hr) as (l' & [T0 T1 T2 T3 T4 T5]).
  exists l'. simpl in *. split_and!; try done. intros Hq'. destruct (quiet_facts ts' Hq') as [_ E]. by rewrite E, Z.add_0_r in T5.
Qed.

(** Frames 1, 2 and 3 on the list. *)
Definition three : FreeList := mkFL 1 {[1 := 2; 2 := 3; 3 := 0]} 3.

Lemma free_list_one_popper_witness :
  exists s', treach (fun i => i = 0%nat) (three, [Pushed; Pushed], []) (s', [PopNext true 1; Pushed], []) /\
    exists l', chain (next_of s') (head s') l'.
Proof.
  set (w0 := (three, [Pushed; Pushed], []) : FreeList * list pc * list Z).
  assert (treach (fun i => i = 0%nat) w0 (three, [PopNext true 1; Pushed], [])) as H.
  { eapply tr_step; [eapply tr_step; [apply tr_refl|]|].
    - exact (ts_pop _ three [Pushed; Pushed] [] 0 Pushed true eq_refl (or_introl eq_refl) eq_refl).
    - exact (ts_access _ three [PopLoad true; Pushed] [] 0 (PopLoad true) three (PopNext true 1) eq_refl eq_refl). }
  exists three. split; [exact H|].
  destruct (free_list_one_popper (fun i => i = 0%nat) three [Pushed; Pushed] [] [1; 2; 3] three [PopNext true 1; Pushed] [])
    as (l' & Hc & _).
  - intros i j -> ->. reflexivity.
  - repeat constructor.
  - repeat split; discriminate.
  - apply (bool_decide_unpack _). vm_compute. exact I.
  - apply (bool_decide_unpack _). vm_compute. exact I.
  - vm_compute. reflexivity.
  - exact H.
  - exists l'. exact Hc.
Defined.

Lemma interleave_app l1 : forall l2 s ts,
  interleave (l1 ++ l2) s ts = '(s, ts) ← interleave l1 s ts; interleave l2 s ts.
Proof.
  induction l1 as [|i l1 IH]; intros l2 s ts; [done|]. cbn [app interleave].
  destruct (ts !! i) as [t|]; [|done]. cbn [mbind option_bind]. destruct (step s t) as [[s1 t1]|]; [|done]. apply IH.
Qed.

(** A step of thread [i]. *)
Lemma interleave_step i l s ts t s1 t1 : ts !! i = Some t -> step s t = Some (s1, t1) ->
  interleave (i :: l) s ts = interleave l s1 (<[i := t1]> ts).
Proof. intros H1 H2. cbn [interleave]. rewrite H1. cbn [mbind option_bind]. by rewrite H2. Qed.

Lemma insert_again (ts : list pc) i t t' u : ts !! i = Some u -> (<[i := t]> ts) !! i = Some t /\ <[i := t']> (<[i := t]> ts) = <[i := t']> ts.
Proof. intros H. split; [apply list_lookup_insert_eq; by apply lookup_lt_Some in H|apply list_insert_insert_eq]. Qed.

(** A pop that runs alone from where it is about to exchange the head. *)
Lemma pop_exchange s ts i c nx : ts !! i = Some (PopCas true c nx) -> head s = c ->
  interleave [i; i; i] s ts = Some (add_counter (set_next (set_head s nx) c 0) (-1), <[i := Popped c]> ts).
Proof.
  intros Hi Hh. rewrite (interleave_step i _ s ts _ (set_head s nx) (PopClear c) Hi) by (cbn; by rewrite Hh, Z.eqb_refl).
  destruct (insert_again ts i (PopClear c) (PopCount c) _ Hi) as [E1 E2].
  rewrite (interleave_step i _ _ _ _ (set_next (set_head s nx) c 0) (PopCount c) E1 eq_refl), E2.
  destruct (insert_again ts i (PopCount c) (Popped c) _ Hi) as [E3 E4].
  rewrite (interleave_step i _ _ _ _ _ (Popped c) E3 eq_refl), E4. done.
Qed.

Lemma pop_begin s ts i : ts !! i = Some pop -> head s <> 0 ->
  interleave [i; i] s ts = Some (s, <[i := PopCas true (head s) (next_of s (head s))]> ts).
Proof.
  intros Hi Hh. rewrite (interleave_step i _ s ts _ s (PopNext true (head s)) Hi)
    by (cbn; by rewrite (proj2 (Z.eqb_neq _ _) Hh)).
  destruct (insert_again ts i (PopNext true (head s)) (PopCas true (head s) (next_of s (head s))) _ Hi) as [E1 E2].
  by rewrite (interleave_step i _ _ _ _ s (PopCas true (head s) (next_of s (head s))) E1 eq_refl), E2.
Qed.

Lemma pop_alone s ts i : ts !! i = Some pop -> head s <> 0 ->
  interleave [i; i; i; i; i] s ts =
    Some (add_counter (set_next (set_head s (next_of s (head s))) (head s) 0) (-1), <[i := Popped (head s)]> ts).
Proof.
  intros Hi Hh. rewrite (interleave_app [i; i] [i; i; i]), (pop_begin s ts i Hi Hh). cbn [mbind option_bind].
  destruct (insert_again ts i (PopCas true (head s) (next_of s (head s))) (Popped (head s)) _ Hi) as [E1 E2].
  by rewrite (pop_exchange s _ i _ _ E1 eq_refl), E2.
Qed.

Lemma push_alone s ts i bf : ts !! i = Some (push bf) -> bf <> 0 ->
  interleave [i; i; i; i] s ts = Some (add_counter (set_head (set_next s bf (head s)) bf) 1, <[i := Pushed]> ts).
Proof.
  intros Hi Hb. rewrite (interleave_step i _ s ts _ s (PushStore [bf] 1 (head s)) Hi eq_refl).
  destruct (insert_again ts i (PushStore [bf] 1 (head s)) (PushCas [bf] 1) _ Hi) as [E1 E2].
  rewrite (interleave_step i _ _ _ _ (set_next s bf (head s)) (PushCas [bf] 1) E1 eq_refl), E2.
  destruct (insert_again ts i (PushCas [bf] 1) (PushCount 1) _ Hi) as [E3 E4].
  rewrite (interleave_step i _ _ _ _ (set_head (set_next s bf (head s)) bf) (PushCount 1) E3), E4.
  2:{ unfold step, step_push. change (batch_tail [bf]) with bf. rewrite next_of_set, decide_True by done.
      change (head (set_next s bf (head s))) with (head s). by rewrite Z.eqb_refl. }
  destruct (insert_again ts i (PushCount 1) Pushed _ Hi) as [E5 E6].
  by rewrite (interleave_step i _ _ _ _ _ Pushed E5 eq_refl), E6.
Qed.

(** The next call of a schedule runs. *)
Ltac next_call lem :=
  rewrite ?interleave_app; erewrite lem; [|reflexivity|cbn; congruence];
  cbn [mbind option_bind list_insert insert add_counter set_next set_head head].

(** C18: two threads that pop.  On every free list of two frames or more the
    same protocol can hand one frame to two threads: the first has read that
    frame [a] is on top of frame [b] when the second pops [a] and [b] and
    pushes [a] back; the exchange of the first then succeeds and puts [b], which
    the second still has, on top of the list, and its next pop takes it.
    (Calls 0 and 4 are the first thread's, 1, 2 and 3 the second's, each run to
    its end before the next one starts.) *)
Theorem free_list_aba s a b l :
  chain (next_of s) (head s) (a :: b :: l) -> NoDup (a :: b :: l) ->
  exists s', interleave ([0; 0] ++ [1; 1; 1; 1; 1] ++ [2; 2; 2; 2; 2] ++ [3; 3; 3; 3] ++ [0; 0; 0] ++ [4; 4; 4; 4; 4])%nat s
    [pop; pop; pop; push a; pop] = Some (s', [Popped a; Popped a; Popped b; Pushed; Popped b]).
Proof.
  intros (Ea & Ha & Eb & Hb & _) Hnd. apply list.NoDup_cons in Hnd as [Hab _].
  assert (a <> b) as Hne by (intros ->; apply Hab, elem_of_cons; by left).
  next_call pop_begin. rewrite Ea, Eb. next_call pop_alone. rewrite Ea, Eb. next_call pop_alone.
  next_call push_alone. next_call pop_exchange. next_call pop_alone. eauto.
Qed.

Lemma free_list_aba_witness : exists s', interleave
  [0; 0; 1; 1; 1; 1; 1; 2; 2; 2; 2; 2; 3; 3; 3; 3; 0; 0; 0; 4; 4; 4; 4; 4]%nat three [pop; pop; pop; push 1; pop] =
    Some (s', [Popped 1; Popped 1; Popped 2; Pushed; Popped 2]).
Proof.
  apply (free_list_aba three 1 2 [3]); [repeat split; discriminate|]. apply (bool_decide_unpack _). vm_compute. exact I.
Defined.
