(* ===== verification/Partition.v ===== *)
(** Partitions of the buffer pool
    (src/backend/leanstore/storage/buffer-manager/Partition.hpp and .cpp): the
    table of reads in flight and the page identifiers of the SSD.  Mutexes are
    left out: every operation below runs under its lock. *)
From stdpp Require Import gmap.
From S2P Require Import Prelude BTreeNode.
Local Open Scope Z_scope.

(** * Reads in flight *)

Inductive io_state := READING | READY | TO_DELETE | UNDEFINED.

#[export] Instance io_state_eq_dec : EqDecision io_state.
Proof. solve_decision. Defined.

(** [bf] is the address of a frame, 0 for [nullptr]. *)
Record IOFrame := mkIO { io_st : io_state; io_bf : Z; readers_counter : Z }.

Definition new_io : IOFrame := mkIO UNDEFINED 0 0.

(** The chains of the buckets, from the head on. *)
Record HashTable := mkHT { ht_mask : Z; ht_entries : list (list (Z * IOFrame)) }.

Definition new_HashTable (sizeInBits : Z) : HashTable :=
  let size := Z.shiftl 1 sizeInBits in mkHT (size - 1) (replicate (Z.to_nat size) []).

(** MurmurHash64A of one word. *)
Definition hashKey (k : Z) : Z :=
  let m := 0xc6a4a7935bd1e995 in
  let r := 47 in
  let h := Z.lxor 0x8445d61a4e774912 (u64 (8 * m)) in
  let k := u64 (k * m) in
  let k := Z.lxor k (Z.shiftr k r) in
  let k := u64 (k * m) in
  let h := Z.lxor h k in
  let h := u64 (h * m) in
  let h := Z.lxor h (Z.shiftr h r) in
  let h := u64 (h * m) in
  Z.lxor h (Z.shiftr h r).

Definition pos_of (ht : HashTable) (key : Z) : nat := Z.to_nat (Z.land (hashKey key) (ht_mask ht)).

Definition set_bucket (ht : HashTable) (pos : nat) (b : list (Z * IOFrame)) : HashTable :=
  mkHT (ht_mask ht) (<[pos := b]> (ht_entries ht)).

(** The new entry goes to the head of its chain. *)
Definition ht_insert (ht : HashTable) (key : Z) : option HashTable :=
  b ← ht_entries ht !! pos_of ht key; Some (set_bucket ht (pos_of ht key) ((key, new_io) :: b)).

(** A handler: the bucket and the place in its chain. *)
Fixpoint chain_find (b : list (Z * IOFrame)) (key : Z) : option nat :=
  match b with
  | [] => None
  | (k, _) :: b' => if k =? key then Some 0%nat else S <$> chain_find b' key
  end.

Definition ht_lookup (ht : HashTable) (key : Z) : option (nat * nat) :=
  b ← ht_entries ht !! pos_of ht key;
  i ← chain_find b key; Some (pos_of ht key, i).

Definition frame_of (ht : HashTable) (h : nat * nat) : option IOFrame :=
  b ← ht_entries ht !! h.1; e ← b !! h.2; Some e.2.

(** Write through the reference [frame()]. *)
Definition write_frame (ht : HashTable) (h : nat * nat) (f : IOFrame -> IOFrame) : option HashTable :=
  b ← ht_entries ht !! h.1;
  Some (set_bucket ht h.1 (alter (fun e => (e.1, f e.2)) h.2 b)).

Definition ht_remove_handler (ht : HashTable) (h : nat * nat) : option HashTable :=
  b ← ht_entries ht !! h.1; Some (set_bucket ht h.1 (take h.2 b ++ drop (S h.2) b)).

(** [assert(handler)] *)
Definition ht_remove (ht : HashTable) (key : Z) : option HashTable :=
  h ← ht_lookup ht key; ht_remove_handler ht h.

Definition ht_has (ht : HashTable) (key : Z) : option bool :=
  b ← ht_entries ht !! pos_of ht key; Some (existsb (fun e => e.1 =? key) b).

(** * Page identifiers *)

(** [freed_pids] with its back at the head; the free list of frames with its
    head first. *)
Record Partition := mkPartition {
  io_ht : HashTable;
  dram_free_list : list Z;
  pid_distance : Z;
  freed_pids : list Z;
  next_pid : Z }.

Definition new_Partition (first_pid distance : Z) (bits : Z) : Partition :=
  mkPartition (new_HashTable bits) [] distance [] first_pid.

(** [None]: the [ensure] on the size of the SSD fails. *)
Definition nextPID (ssd_gib : Z) (p : Partition) : option (Z * Partition) :=
  match freed_pids p with
  | pid :: rest => Some (pid, mkPartition (io_ht p) (dram_free_list p) (pid_distance p) rest (next_pid p))
  | [] =>
      let pid := next_pid p in
      let p := mkPartition (io_ht p) (dram_free_list p) (pid_distance p) [] (u64 (next_pid p + pid_distance p)) in
      if u64 (pid * PAGE_SIZE) / 1024 / 1024 / 1024 <=? ssd_gib then Some (pid, p) else None
  end.

Definition freePage (p : Partition) (pid : Z) : Partition :=
  mkPartition (io_ht p) (dram_free_list p) (pid_distance p) (pid :: freed_pids p) (next_pid p).

Definition allocatedPages (p : Partition) : Z := next_pid p / pid_distance p.
Definition freedPages (p : Partition) : Z := Z.of_nat (length (freed_pids p)).

(** * The table refines a map *)

Fixpoint assoc (b : list (Z * IOFrame)) (key : Z) : option IOFrame :=
  match b with
  | [] => None
  | (k, v) :: b' => if k =? key then Some v else assoc b' key
  end.

Definition ht_get (ht : HashTable) (key : Z) : option IOFrame :=
  b ← ht_entries ht !! pos_of ht key; assoc b key.

(** The mask fits the array, the chains have no key twice, and [m] has what
    the chains have. *)
Record ht_repr (ht : HashTable) (m : gmap Z IOFrame) : Prop := HtRepr {
  hr_bits : exists bits, 0 <= bits /\ ht_mask ht = Z.ones bits /\ length (ht_entries ht) = Z.to_nat (2 ^ bits);
  hr_nodup : forall j b, ht_entries ht !! j = Some b -> NoDup b.*1;
  hr_map : forall key, m !! key = ht_get ht key }.

Lemma assoc_find b key :
  match chain_find b key with
  | Some i => exists v, b !! i = Some (key, v) /\ assoc b key = Some v
  | None => assoc b key = None /\ key ∉ b.*1
  end.
Proof.
  induction b as [|[k v] b IH]; simpl; [by split; [|apply not_elem_of_nil]|].
  destruct (Z.eqb_spec k key) as [->|Hk]; [by exists v|].
  destruct (chain_find b key) as [i|]; simpl; [done|].
  destruct IH as [-> H]. split; [done|]. rewrite not_elem_of_cons. auto.
Qed.

Lemma assoc_not_in b key : key ∉ b.*1 -> assoc b key = None.
Proof.
  induction b as [|[k v] b IH]; simpl; [done|]. rewrite not_elem_of_cons. intros [H1 H2].
  rewrite (proj2 (Z.eqb_neq k key)) by congruence. auto.
Qed.

Lemma assoc_remove b i key v :
  NoDup b.*1 -> b !! i = Some (key, v) ->
  assoc (take i b ++ drop (S i) b) key = None /\
  forall k, k <> key -> assoc (take i b ++ drop (S i) b) k = assoc b k.
Proof.
  revert i; induction b as [|[k0 v0] b IH]; intros i Hd Hi; [done|]. simpl in Hd. apply list.NoDup_cons in Hd as [Hn Hd].
  destruct i as [|i]; simpl in *.
  - injection Hi as -> ->. split; [by apply assoc_not_in|].
    intros k Hk. by rewrite (proj2 (Z.eqb_neq key k)) by congruence.
  - destruct (IH i Hd Hi) as [E1 E2]. split.
    + rewrite (proj2 (Z.eqb_neq k0 key)); [done|]. intros ->. apply Hn. apply list_elem_of_fmap.
      exists (key, v). split; [done|]. by eapply list_elem_of_lookup_2.
    + intros k Hk. destruct (k0 =? k); [done|auto].
Qed.

Lemma assoc_alter b i key v f :
  NoDup b.*1 -> b !! i = Some (key, v) ->
  assoc (alter (fun e => (e.1, f e.2)) i b) key = Some (f v) /\
  forall k, k <> key -> assoc (alter (fun e => (e.1, f e.2)) i b) k = assoc b k.
Proof.
  revert i; induction b as [|[k0 v0] b IH]; intros i Hd Hi; [done|]. simpl in Hd. apply list.NoDup_cons in Hd as [Hn Hd].
  destruct i as [|i]; simpl in *.
  - injection Hi as -> ->. split; [by rewrite Z.eqb_refl|].
    intros k Hk. by rewrite (proj2 (Z.eqb_neq key k)) by congruence.
  - destruct (IH i Hd Hi) as [E1 E2]. split.
    + rewrite (proj2 (Z.eqb_neq k0 key)); [done|]. intros ->. apply Hn. apply list_elem_of_fmap.
      exists (key, v). split; [done|]. by eapply list_elem_of_lookup_2.
    + intros k Hk. destruct (k0 =? k); [done|auto].
Qed.

Lemma alter_keys b i f : (alter (fun e : Z * IOFrame => (e.1, f e.2)) i b).*1 = b.*1.
Proof. revert i; induction b as [|e b IH]; intros [|i]; simpl; [done..|]. f_equal. apply IH. Qed.

Ltac step := cbn [mbind option_bind fst snd fmap list_fmap assoc set_bucket ht_mask ht_entries].

Section repr.
Context (ht : HashTable) (m : gmap Z IOFrame) (R : ht_repr ht m).

Lemma bucket_of key : exists b, ht_entries ht !! pos_of ht key = Some b.
Proof.
  destruct (hr_bits _ _ R) as (bits & Hb & Hm & Hl). apply lookup_lt_is_Some. unfold pos_of. rewrite Hm, Hl.
  rewrite Z.land_ones by done. pose proof (Z.mod_pos_bound (hashKey key) (2 ^ bits) ltac:(lia)). lia.
Qed.

(** A table that differs in one bucket. *)
Lemma set_bucket_repr m' key b :
  ht_entries ht !! pos_of ht key = Some b ->
  forall b', NoDup b'.*1 -> m' !! key = assoc b' key ->
  (forall k, k <> key -> assoc b' k = assoc b k) -> (forall k, k <> key -> m' !! k = m !! k) ->
  ht_repr (set_bucket ht (pos_of ht key) b') m'.
Proof.
  intros Hb b' Hd Hk Ho Hm. pose proof (lookup_lt_Some _ _ _ Hb) as Hlt. constructor.
  - destruct (hr_bits _ _ R) as (bits & H1 & H2 & H3). exists bits. cbn [set_bucket ht_mask ht_entries]. by rewrite length_insert.
  - intros j b0 Hj. cbn [set_bucket ht_entries] in Hj. destruct (decide (j = pos_of ht key)) as [->|Hn].
    + rewrite list_lookup_insert_eq in Hj by done. by injection Hj as <-.
    + rewrite list_lookup_insert_ne in Hj by congruence. by eapply R.
  - intros k. unfold ht_get. change (pos_of (set_bucket ht (pos_of ht key) b') k) with (pos_of ht k). cbn [set_bucket ht_entries].
    destruct (decide (k = key)) as [->|Hn]; [by rewrite list_lookup_insert_eq|].
    rewrite Hm by done. rewrite (hr_map _ _ R). unfold ht_get.
    destruct (decide (pos_of ht k = pos_of ht key)) as [Ep|Hp].
    + rewrite Ep, list_lookup_insert_eq, Hb by done. cbn [mbind option_bind]. by rewrite Ho.
    + by rewrite list_lookup_insert_ne by congruence.
Qed.

Lemma ht_lookup_repr key :
  match m !! key with
  | Some v => exists h, ht_lookup ht key = Some h /\ frame_of ht h = Some v
  | None => ht_lookup ht key = None
  end.
Proof.
  destruct (bucket_of key) as [b Hb]. rewrite (hr_map _ _ R). unfold ht_get, ht_lookup. rewrite Hb. step.
  pose proof (assoc_find b key) as H. destruct (chain_find b key) as [i|].
  - destruct H as (v & Hi & ->). eexists. split; [done|]. unfold frame_of. step. rewrite Hb. step. by rewrite Hi.
  - by destruct H as [-> _].
Qed.

Lemma ht_insert_repr key :
  m !! key = None -> exists ht', ht_insert ht key = Some ht' /\ ht_repr ht' (<[key := new_io]> m).
Proof.
  intros Hn. destruct (bucket_of key) as [b Hb]. unfold ht_insert. rewrite Hb. step. eexists. split; [done|].
  rewrite (hr_map _ _ R) in Hn. unfold ht_get in Hn. rewrite Hb in Hn. cbn [mbind option_bind fst snd] in Hn.
  eapply set_bucket_repr; [exact Hb|..].
  - step. apply list.NoDup_cons. split; [|by eapply R]. pose proof (assoc_find b key) as H.
    destruct (chain_find b key); [destruct H as (v & _ & H); congruence|apply H].
  - rewrite lookup_insert_eq. step. by rewrite Z.eqb_refl.
  - intros k Hk. step. by rewrite (proj2 (Z.eqb_neq key k)) by congruence.
  - intros k Hk. by rewrite lookup_insert_ne by congruence.
Qed.

Lemma ht_remove_repr key :
  match m !! key with
  | Some _ => exists ht', ht_remove ht key = Some ht' /\ ht_repr ht' (delete key m)
  | None => ht_remove ht key = None
  end.
Proof.
  destruct (bucket_of key) as [b Hb]. rewrite (hr_map _ _ R). unfold ht_get, ht_remove, ht_lookup. rewrite Hb. step.
  pose proof (assoc_find b key) as H. destruct (chain_find b key) as [i|]; [|by destruct H as [-> _]].
  destruct H as (v & Hi & ->). step. unfold ht_remove_handler. step. rewrite Hb. step. eexists. split; [done|].
  pose proof (hr_nodup _ _ R _ _ Hb) as Hd. destruct (assoc_remove b i key v Hd Hi) as [E1 E2].
  eapply set_bucket_repr; [exact Hb| |by rewrite E1, lookup_delete_eq|done|].
  - rewrite fmap_app, fmap_take, fmap_drop. eapply sublist_NoDup; [exact Hd|].
    rewrite <- (take_drop i b.*1) at 3. apply sublist_app; [done|]. replace (S i) with (i + 1)%nat by lia. rewrite <- drop_drop. apply sublist_drop.
  - intros k Hk. by rewrite lookup_delete_ne by congruence.
Qed.

Lemma write_frame_repr key v f :
  m !! key = Some v ->
  exists h ht', ht_lookup ht key = Some h /\ write_frame ht h f = Some ht' /\ ht_repr ht' (<[key := f v]> m).
Proof.
  intros Hm. destruct (bucket_of key) as [b Hb]. rewrite (hr_map _ _ R) in Hm. unfold ht_get in Hm. unfold ht_lookup.
  rewrite Hb in *. cbn [mbind option_bind fst snd] in *. pose proof (assoc_find b key) as H.
  destruct (chain_find b key) as [i|]; [|by destruct H as [E _]; rewrite E in Hm].
  destruct H as (v' & Hi & E). rewrite E in Hm. injection Hm as ->. eexists _, _. split; [done|].
  unfold write_frame. step. rewrite Hb. step. split; [done|].
  destruct (assoc_alter b i key v f (hr_nodup _ _ R _ _ Hb) Hi) as [E1 E2].
  eapply set_bucket_repr; [exact Hb| |by rewrite E1, lookup_insert_eq|done|].
  - rewrite alter_keys. by eapply R.
  - intros k Hk. by rewrite lookup_insert_ne by congruence.
Qed.

Lemma ht_has_repr key : ht_has ht key = Some (bool_decide (is_Some (m !! key))).
Proof.
  destruct (bucket_of key) as [b Hb]. unfold ht_has. rewrite Hb, (hr_map _ _ R). unfold ht_get. rewrite Hb. step. f_equal.
  clear Hb. induction b as [|[k v] b IH]; [done|]. cbn [existsb assoc fst].
  by destruct (k =? key).
Qed.

End repr.

Lemma new_HashTable_repr bits : 0 <= bits -> ht_repr (new_HashTable bits) ∅.
Proof.
  intros Hb. unfold new_HashTable. rewrite Z.shiftl_1_l. constructor; simpl.
  - exists bits. rewrite Z.ones_equiv, length_replicate. split_and!; [done|lia|done].
  - intros j b [-> _]%lookup_replicate. constructor.
  - intros key. unfold ht_get. step. destruct (replicate _ _ !! _) as [b|] eqn:E; [|done].
    apply lookup_replicate in E as [-> _]. done.
Qed.

(** * Page identifiers are handed out once *)

Section pids.
Context (ssd_gib first distance : Z).
Context (Hfirst : 0 <= first < distance) (Hdist : distance <= 2 ^ 32) (Hssd : 0 <= ssd_gib < 2 ^ 30).

(** The identifiers in use and the freed ones are distinct, lie on the grid of
    the partition and below the next new one, which the size of the SSD
    bounds. *)
Record pids_ok (p : Partition) (live : list Z) : Prop := PidsOk {
  pi_distance : pid_distance p = distance;
  pi_nodup : NoDup (live ++ freed_pids p);
  pi_grid : forall pid, pid ∈ live ++ freed_pids p -> 0 <= pid < next_pid p /\ pid mod distance = first;
  pi_next : 0 <= next_pid p <= distance + (ssd_gib + 1) * 65536 /\ next_pid p mod distance = first }.

Lemma new_Partition_pids bits : pids_ok (new_Partition first distance bits) [].
Proof.
  constructor; simpl; [done|constructor|intros pid H; by apply not_elem_of_nil in H|].
  split; [lia|]. by apply Z.mod_small.
Qed.

(** The size check, without wrap-around. *)
Lemma ssd_check pid :
  0 <= pid <= distance + (ssd_gib + 1) * 65536 ->
  (u64 (pid * PAGE_SIZE) / 1024 / 1024 / 1024 <=? ssd_gib) = true -> pid < (ssd_gib + 1) * 65536.
Proof.
  intros Hp Hc%Z.leb_le. rewrite wrap_small in Hc by (unfold in_width, PAGE_SIZE; lia).
  rewrite !Z.div_div in Hc by lia. unfold PAGE_SIZE in Hc.
  match type of Hc with ?a / ?b <= _ =>
    pose proof (Z.div_mod a b ltac:(lia)); pose proof (Z.mod_pos_bound a b ltac:(lia)) end. lia.
Qed.

Lemma nextPID_ok p live pid p' :
  pids_ok p live -> nextPID ssd_gib p = Some (pid, p') ->
  pids_ok p' (pid :: live) /\ pid ∉ live /\ pid mod distance = first /\ 0 <= pid.
Proof.
  intros [H1 H2 H3 [H4 H5]] E. unfold nextPID in E. destruct (freed_pids p) as [|q rest] eqn:Ef.
  - destruct (_ <=? _) eqn:Ec; [|done]. injection E as <- <-. rewrite app_nil_r in *.
    pose proof (ssd_check _ H4 Ec) as Hc.
    assert (u64 (next_pid p + pid_distance p) = next_pid p + distance) as Eu
      by (rewrite H1; apply wrap_small; unfold in_width; lia).
    assert (next_pid p ∉ live) as Hn by (intros Hin; apply H3 in Hin; lia).
    split; [|split_and!; [done|done|lia]]. constructor; simpl; rewrite ?Eu, ?app_nil_r; [done| | |].
    + apply list.NoDup_cons. done.
    + intros x [->|Hx]%elem_of_cons; [split; [lia|done]|]. destruct (H3 x Hx). split; [lia|done].
    + split; [lia|]. rewrite <- (Z.mul_1_l distance) at 1. by rewrite Z_mod_plus_full.
  - injection E as <- <-. rewrite <- Permutation_middle in H2.
    assert (q ∉ live) as Hn.
    { apply list.NoDup_cons in H2 as [H2 _]. intros Hq. apply H2, elem_of_app. by left. }
    pose proof (H3 q ltac:(apply elem_of_app; right; apply elem_of_cons; by left)) as [Hq1 Hq2].
    split; [|split_and!; [done..|lia]]. constructor; simpl; [done|done| |done].
    intros x Hx. apply H3. rewrite <- Permutation_middle. done.
Qed.

Lemma freePage_ok p live pid : pids_ok p (pid :: live) -> pids_ok (freePage p pid) live.
Proof.
  intros [H1 H2 H3 H4]. constructor; simpl; [done| | |done].
  - by rewrite <- Permutation_middle.
  - intros x Hx. apply H3. simpl. by rewrite Permutation_middle.
Qed.

Lemma pids_perm p live live' : live ≡ₚ live' -> pids_ok p live -> pids_ok p live'.
Proof. intros E [H1 H2 H3 H4]. constructor; [done|by rewrite <- E| |done]. intros x Hx. apply H3. by rewrite E. Qed.

End pids.
