(* ===== verification/BufferManager.v ===== *)
(** The buffer manager
    (src/backend/leanstore/storage/buffer-manager/BufferManager.hpp and .cpp and
    BufferFrame.hpp): frames, page allocation and the resolution of swips.

    A call runs alone, so latches and mutexes are left out; [recheck] says
    whether the parent's latch is still valid once the page was read, which is
    where a call may jump with the work half done.  The partition a call picks
    at random is an argument.  [None] is a failed assertion.  The SSD is a map
    from page identifiers to pages. *)
From stdpp Require Import gmap.
From S2P Require Import Prelude BTreeNode Swip Partition.
Local Open Scope Z_scope.

Module STATE.
Inductive t := FREE | HOT | COOL | LOADED.

#[global] Instance eq_dec : EqDecision t.
Proof. solve_decision. Defined.
End STATE.

Section manager.
Context {D : Type}.

(** [magic] is [magic_debugging_number]. *)
Record Page := mkPage { GSN : Z; dt_id : Z; magic : Z; hot_data : bool; dt : D }.

Record BufferFrame := mkFrame {
  state : STATE.t; lastWrittenGSN : Z; isWB : bool; keep_in_memory : bool; fpid : Z; page : Page }.

Definition isDirty (f : BufferFrame) : bool := negb (lastWrittenGSN f =? GSN (page f)).
Definition isFree (f : BufferFrame) : bool := bool_decide (state f = STATE.FREE).

Definition set_state (f : BufferFrame) (s : STATE.t) : BufferFrame :=
  mkFrame s (lastWrittenGSN f) (isWB f) (keep_in_memory f) (fpid f) (page f).

(** [assert(!header.isWB)] *)
Definition reset (f : BufferFrame) : option BufferFrame :=
  if isWB f then None else Some (mkFrame STATE.FREE 0 false false 9999 (page f)).

Record BufferManager := mkBM {
  bfs : gmap Z BufferFrame;
  partitions : list Partition;
  ssd : gmap Z Page;
  ssd_gib : Z;
  hot_pages : Z }.

Definition set_bfs (bm : BufferManager) (m : gmap Z BufferFrame) : BufferManager :=
  mkBM m (partitions bm) (ssd bm) (ssd_gib bm) (hot_pages bm).
Definition set_frame (bm : BufferManager) (bf : Z) (f : BufferFrame) : BufferManager :=
  set_bfs bm (<[bf := f]> (bfs bm)).
Definition set_partition (bm : BufferManager) (i : nat) (p : Partition) : BufferManager :=
  mkBM (bfs bm) (<[i := p]> (partitions bm)) (ssd bm) (ssd_gib bm) (hot_pages bm).
Definition set_hot_pages (bm : BufferManager) (n : Z) : BufferManager :=
  mkBM (bfs bm) (partitions bm) (ssd bm) (ssd_gib bm) n.

Definition set_free_list (p : Partition) (l : list Z) : Partition :=
  mkPartition (io_ht p) l (pid_distance p) (freed_pids p) (next_pid p).
Definition set_io (p : Partition) (ht : HashTable) : Partition :=
  mkPartition ht (dram_free_list p) (pid_distance p) (freed_pids p) (next_pid p).

Definition partitions_count (bm : BufferManager) : Z := Z.of_nat (length (partitions bm)).
Definition partitions_mask (bm : BufferManager) : Z := partitions_count bm - 1.

Definition getPartitionID (bm : BufferManager) (pid : Z) : nat := Z.to_nat (Z.land pid (partitions_mask bm)).

(** [assert(partition_i < partitions_count)] *)
Definition getPartition (bm : BufferManager) (pid : Z) : option Partition :=
  partitions bm !! getPartitionID bm pid.

Definition consumedPages (bm : BufferManager) : Z :=
  u64 (foldr (fun p a => allocatedPages p + a) 0 (partitions bm)
       - foldr (fun p a => freedPages p + a) 0 (partitions bm)).

(** The state for a restart and its reading. *)
Definition serialize (bm : BufferManager) : Z := foldr (fun p a => Z.max (next_pid p) a) 0 (partitions bm).

Definition deserialize (bm : BufferManager) (max_pid : Z) : BufferManager :=
  let c := partitions_count bm in
  let max_pid := Z.land (u64 (max_pid + (c - 1))) (u64 (Z.lnot (c - 1))) in
  mkBM (bfs bm)
    (imap (fun i p => mkPartition (io_ht p) (dram_free_list p) (pid_distance p) (freed_pids p) (u64 (max_pid + Z.of_nat i)))
       (partitions bm))
    (ssd bm) (ssd_gib bm) (hot_pages bm).

(** * Allocation *)

(** What a call ends in: a value or a jump, both with the state reached. *)
Inductive outcome (A : Type) := Returns (bm : BufferManager) (a : A) | Jumps (bm : BufferManager).
#[global] Arguments Returns {A}.
#[global] Arguments Jumps {A}.

(** [r] is the partition picked; an empty free list jumps. *)
Definition allocatePage (bm : BufferManager) (r : nat) (from_hot_partition : bool) : option (outcome Z) :=
  p ← partitions bm !! r;
  match dram_free_list p with
  | [] => Some (Jumps bm)
  | bf :: rest =>
      '(free_pid, p) ← nextPID (ssd_gib bm) (set_free_list p rest);
      f ← bfs bm !! bf;
      if negb (isFree f) || negb (getPartitionID bm free_pid =? r)%nat then None
      else
        let pg := mkPage 0 (dt_id (page f)) (magic (page f)) (hot_data (page f)) (dt (page f)) in
        let f := mkFrame STATE.HOT 0 (isWB f) (keep_in_memory f) free_pid pg in
        let bm := set_frame (set_partition bm r p) bf f in
        Some (Returns (set_hot_pages bm (if from_hot_partition then hot_pages bm + 1 else hot_pages bm)) bf)
  end.

(** A frame that is being written stays with the writer. *)
Definition reclaimPage (bm : BufferManager) (bf : Z) : option BufferManager :=
  f ← bfs bm !! bf;
  let i := getPartitionID bm (fpid f) in
  p ← partitions bm !! i;
  let p := freePage p (fpid f) in
  if isFree f then None
  else
    let n := if hot_data (page f) then hot_pages bm - 1 else hot_pages bm in
    if hot_data (page f) && (n <? 0) then None
    else
      let bm := set_hot_pages (set_partition bm i p) n in
      if isWB f then Some bm
      else
        f ← reset f;
        Some (set_partition (set_frame bm bf f) i (set_free_list p (bf :: dram_free_list p))).

(** * Resolution of swips *)

(** [tryPop]: an empty list jumps. *)
Definition tryPop (p : Partition) : option (Z * Partition) :=
  match dram_free_list p with [] => None | bf :: rest => Some (bf, set_free_list p rest) end.

(** [readPageSync] and what follows it: the frame of a page read from the SSD. *)
Definition load_frame (f : BufferFrame) (pid : Z) (pg : Page) : option BufferFrame :=
  if negb (magic pg =? pid) || isWB f then None
  else Some (mkFrame STATE.LOADED (GSN pg) (isWB f) (keep_in_memory f) pid pg).

Definition modify_io (p : Partition) (pid : Z) (g : IOFrame -> IOFrame) : option Partition :=
  h ← ht_lookup (io_ht p) pid; ht ← write_frame (io_ht p) h g; Some (set_io p ht).

Definition remove_io (p : Partition) (pid : Z) : option Partition :=
  ht ← ht_remove (io_ht p) pid; Some (set_io p ht).

(** [if (io_frame.readers_counter.fetch_add(-1) == 1) remove(pid) else ...] *)
Definition leave_io (p : Partition) (pid : Z) (rest : IOFrame -> IOFrame) : option Partition :=
  h ← ht_lookup (io_ht p) pid;
  io ← frame_of (io_ht p) h;
  if readers_counter io =? 1 then remove_io p pid
  else modify_io p pid (fun io => rest (mkIO (io_st io) (io_bf io) (readers_counter io - 1))).

Definition set_io_state (s : io_state) (bf : Z) (io : IOFrame) : IOFrame := mkIO s bf (readers_counter io).

(** The page is not on its way: read it. *)
Definition resolve_miss (bm : BufferManager) (pid : Z) (r : nat) (recheck : bool) : option (outcome (Z * Z)) :=
  let i := getPartitionID bm pid in
  q ← partitions bm !! r;
  match tryPop q with
  | None => Some (Jumps bm)
  | Some (bf, q) =>
      let bm := set_partition bm r q in
      p ← partitions bm !! i;
      ht ← ht_insert (io_ht p) pid;
      p ← modify_io (set_io p ht) pid (fun _ => mkIO READING 0 1);
      f ← bfs bm !! bf;
      pg ← ssd bm !! pid;
      if negb (isFree f) then None
      else
        f ← load_frame f pid pg;
        if recheck then
          p ← leave_io p pid id;
          Some (Returns (set_frame (set_partition bm i p) bf (set_state f STATE.HOT)) (warm_to 0 bf, bf))
        else
          p ← modify_io p pid (set_io_state READY bf);
          Some (Jumps (set_frame (set_partition bm i p) bf f))
  end.

(** The page is on its way. *)
Definition resolve_in_flight (bm : BufferManager) (pid : Z) (p : Partition) (io : IOFrame)
  : option (outcome (Z * Z)) :=
  let i := getPartitionID bm pid in
  match io_st io with
  | READING =>
      (* wait for the reader, then jump; the last one to leave removes the entry *)
      p ← modify_io p pid (fun io => mkIO (io_st io) (io_bf io) (readers_counter io + 1));
      p ← leave_io p pid id;
      Some (Jumps (set_partition bm i p))
  | READY =>
      let bf := io_bf io in
      f ← bfs bm !! bf;
      if negb (bool_decide (state f = STATE.LOADED)) || negb (fpid f =? pid) then None
      else
        p ← modify_io p pid (fun io => mkIO (io_st io) 0 (readers_counter io));
        p ← leave_io p pid (set_io_state TO_DELETE 0);
        if isHOT (warm_to 0 bf)
        then Some (Returns (set_frame (set_partition bm i p) bf (set_state f STATE.HOT)) (warm_to 0 bf, bf))
        else None
  | TO_DELETE =>
      p ← (if readers_counter io =? 0 then remove_io p pid else Some p);
      Some (Jumps (set_partition bm i p))
  | UNDEFINED => None
  end.

(** The new word of the swip and the frame. *)
Definition resolveSwip (bm : BufferManager) (swip_value : Z) (r : nat) (recheck : bool)
  : option (outcome (Z * Z)) :=
  if isHOT swip_value then
    if bfPtr swip_value =? 0 then None else Some (Returns bm (swip_value, bfPtr swip_value))
  else if isCOOL swip_value then
    let bf := bfPtrAsHot swip_value in
    if bf =? 0 then None
    else
      f ← bfs bm !! bf;
      if isFree f then None
      else
        w ← warm swip_value;
        Some (Returns (set_frame bm bf (set_state f STATE.HOT)) (w, bf))
  else
    let pid := asPageID swip_value in
    p ← getPartition bm pid;
    match ht_lookup (io_ht p) pid with
    | None => resolve_miss bm pid r recheck
    | Some h => io ← frame_of (io_ht p) h; resolve_in_flight bm pid p io
    end.

(** [tryFastResolveSwip] *)
Definition tryFastResolveSwip (bm : BufferManager) (swip_value : Z) (r : nat) (recheck : bool)
  : option (outcome (Z * Z)) :=
  if isHOT swip_value then
    if bfPtr swip_value =? 0 then None else Some (Returns bm (swip_value, bfPtr swip_value))
  else resolveSwip bm swip_value r recheck.

End manager.
