(* ===== verification/BufferManagerInv.v ===== *)
(** What the buffer manager keeps: the invariant of frames, free lists and the
    table of reads, and the page a swip stands for. *)
From stdpp Require Import gmap.
From S2P Require Import Prelude BTreeNode Swip Partition BufferManager.
Local Open Scope Z_scope.

(** * Partitions *)

Section io.
Context (p : Partition) (m : gmap Z IOFrame) (R : ht_repr (io_ht p) m).

Lemma modify_io_ok pid io g :
  m !! pid = Some io ->
  exists p', modify_io p pid g = Some p' /\ ht_repr (io_ht p') (<[pid := g io]> m) /\
    p' = set_io p (io_ht p').
Proof.
  intros Hm. destruct (write_frame_repr _ _ R pid io g Hm) as (h & ht' & E1 & E2 & R').
  unfold modify_io. rewrite E1. cbn [mbind option_bind]. rewrite E2. cbn [mbind option_bind].
  eexists. split; [done|]. done.
Qed.

Lemma remove_io_ok pid :
  is_Some (m !! pid) ->
  exists p', remove_io p pid = Some p' /\ ht_repr (io_ht p') (delete pid m) /\ p' = set_io p (io_ht p').
Proof.
  intros [io Hm]. pose proof (ht_remove_repr _ _ R pid) as H. rewrite Hm in H. destruct H as (ht' & E & R').
  unfold remove_io. rewrite E. cbn [mbind option_bind]. eexists. split; [done|]. done.
Qed.

(** The last reader to leave. *)
Lemma leave_io_last pid io rest :
  m !! pid = Some io -> readers_counter io = 1 ->
  exists p', leave_io p pid rest = Some p' /\ ht_repr (io_ht p') (delete pid m) /\ p' = set_io p (io_ht p').
Proof.
  intros Hm Hc. unfold leave_io. pose proof (ht_lookup_repr _ _ R pid) as H. rewrite Hm in H.
  destruct H as (h & -> & E). cbn [mbind option_bind]. rewrite E. cbn [mbind option_bind]. rewrite Hc.
  apply remove_io_ok. eauto.
Qed.

End io.

Lemma ht_repr_ext ht m m' : ht_repr ht m -> m = m' -> ht_repr ht m'.
Proof. by intros ? <-. Qed.

Section manager.
Context {D : Type}.
Implicit Types (bm : @BufferManager D) (f : @BufferFrame D).

(** * Invariant *)

Definition frame_addr (b : Z) : Prop := 0 < b < 2 ^ 62.

(** Between two calls every entry of the table is a page read for a call that
    jumped: one frame, loaded, waiting for the next call. *)
Definition io_ok bm (pid : Z) (io : IOFrame) : Prop :=
  io_st io = READY /\ readers_counter io = 1 /\ frame_addr (io_bf io) /\
  exists f, bfs bm !! io_bf io = Some f /\ state f = STATE.LOADED /\ fpid f = pid.

Definition free_frames bm : list Z := concat (map dram_free_list (partitions bm)).

Record bm_ok bm : Prop := BmOk {
  bo_count : exists k, 0 <= k <= 32 /\ partitions_count bm = 2 ^ k;
  bo_io : forall i p, partitions bm !! i = Some p ->
    exists m, ht_repr (io_ht p) m /\
      forall pid io, m !! pid = Some io -> io_ok bm pid io /\ getPartitionID bm pid = i;
  bo_nodup : NoDup (free_frames bm);
  bo_free : forall b, b ∈ free_frames bm ->
    frame_addr b /\ exists f, bfs bm !! b = Some f /\ state f = STATE.FREE /\ isWB f = false }.

(** A swip some page has: its frame is in use, or the page can be found. *)
Definition io_entry bm (pid : Z) : option IOFrame := p ← getPartition bm pid; ht_get (io_ht p) pid.

Definition swip_ok bm (s : swip) : Prop :=
  swip_valid s /\
  match s with
  | HOT b => b <> 0 /\ exists f, bfs bm !! b = Some f /\ state f = STATE.HOT
  | COOL b => b <> 0 /\ exists f, bfs bm !! b = Some f /\ state f = STATE.COOL
  | EVICTED pid => is_Some (io_entry bm pid) \/ exists pg, ssd bm !! pid = Some pg /\ magic pg = pid
  end.

(** The page a swip stands for. *)
Definition content bm (s : swip) : option (@Page D) :=
  match s with
  | HOT b | COOL b => page <$> bfs bm !! b
  | EVICTED pid =>
      match io_entry bm pid with
      | Some io => page <$> bfs bm !! io_bf io
      | None => ssd bm !! pid
      end
  end.

(** * Lookups *)

Lemma partition_index bm pid : bm_ok bm -> 0 <= pid -> (getPartitionID bm pid < length (partitions bm))%nat.
Proof.
  intros B Hp. destruct (bo_count _ B) as (k & Hk & Ec). unfold getPartitionID, partitions_mask. rewrite Ec.
  replace (2 ^ k - 1) with (Z.ones k) by (rewrite Z.ones_equiv; lia). rewrite Z.land_ones by lia.
  unfold partitions_count in Ec. pose proof (Z.mod_pos_bound pid (2 ^ k) ltac:(lia)). lia.
Qed.

Lemma getPartition_ok bm pid :
  bm_ok bm -> 0 <= pid ->
  exists p m, partitions bm !! getPartitionID bm pid = Some p /\ getPartition bm pid = Some p /\ ht_repr (io_ht p) m /\
    (forall pid' io, m !! pid' = Some io -> io_ok bm pid' io /\ getPartitionID bm pid' = getPartitionID bm pid) /\
    io_entry bm pid = m !! pid.
Proof.
  intros B Hp. destruct (lookup_lt_is_Some_2 _ _ (partition_index bm pid B Hp)) as [p E].
  destruct (bo_io _ B _ _ E) as (m & R & Hio). exists p, m. unfold io_entry, getPartition. rewrite E. split_and!; try done.
  cbn [mbind option_bind]. symmetry. apply R.
Qed.

(** A frame in use is on no free list. *)
Lemma used_not_free bm b f : bm_ok bm -> bfs bm !! b = Some f -> state f <> STATE.FREE -> b ∉ free_frames bm.
Proof. intros B E Hs Hb. destruct (bo_free _ B b Hb) as (_ & f' & E' & Hf & _). congruence. Qed.

(** A partition replaced by one with the same table. *)
Lemma partition_id bm i p' pid : getPartitionID (set_partition bm i p') pid = getPartitionID bm pid.
Proof. unfold getPartitionID, partitions_mask, partitions_count. cbn. by rewrite length_insert. Qed.

Lemma partition_io bm i p p' j q' :
  partitions bm !! i = Some p -> io_ht p' = io_ht p -> partitions (set_partition bm i p') !! j = Some q' ->
  exists q, partitions bm !! j = Some q /\ io_ht q' = io_ht q.
Proof.
  intros Hi Eh Hj. cbn in Hj. destruct (decide (j = i)) as [->|Hn].
  - rewrite list_lookup_insert_eq in Hj by (by eapply lookup_lt_Some). injection Hj as <-. by exists p.
  - rewrite list_lookup_insert_ne in Hj by done. by exists q'.
Qed.

(** Replacing it keeps the invariant as far as the free lists do. *)
Lemma bm_ok_replace bm i p p' :
  bm_ok bm -> partitions bm !! i = Some p -> io_ht p' = io_ht p -> NoDup (free_frames (set_partition bm i p')) ->
  (forall b, b ∈ free_frames (set_partition bm i p') ->
    frame_addr b /\ exists f, bfs bm !! b = Some f /\ state f = STATE.FREE /\ isWB f = false) ->
  bm_ok (set_partition bm i p').
Proof.
  intros B Hi Eh Hn Hf. constructor; [|intros j q' Hj|done|done].
  - unfold partitions_count. cbn. rewrite length_insert. apply B.
  - destruct (partition_io bm i p p' j q' Hi Eh Hj) as (q & Hj' & ->). destruct (bo_io _ B _ _ Hj') as (m & R & Hm).
    exists m. split; [done|]. intros pid io Hio. rewrite partition_id. by apply Hm.
Qed.

Lemma partition_entry bm i p p' pid :
  partitions bm !! i = Some p -> io_ht p' = io_ht p -> io_entry (set_partition bm i p') pid = io_entry bm pid.
Proof.
  intros Hi Eh. unfold io_entry, getPartition. rewrite partition_id. cbn. destruct (decide (getPartitionID bm pid = i)) as [->|Hn].
  - rewrite list_lookup_insert_eq, Hi by (by eapply lookup_lt_Some). cbn. by rewrite Eh.
  - by rewrite list_lookup_insert_ne.
Qed.

(** * Free lists *)

Definition frames_of (ps : list Partition) : list Z := concat (map dram_free_list ps).

Lemma frames_update ps r q q' l :
  ps !! r = Some q -> dram_free_list q = l ++ dram_free_list q' ->
  frames_of ps ≡ₚ l ++ frames_of (<[r := q']> ps).
Proof.
  intros E Hl. pose proof (lookup_lt_Some _ _ _ E) as Hr. rewrite insert_take_drop by done.
  rewrite <- (take_drop_middle ps r q E) at 1. unfold frames_of. rewrite !map_app, !concat_app. cbn [map concat].
  rewrite Hl, <- !app_assoc. apply Permutation_app_swap_app.
Qed.

(** Popping the head of a free list. *)
Lemma pop_ok bm r q b q' :
  bm_ok bm -> partitions bm !! r = Some q -> tryPop q = Some (b, q') ->
  let bm1 := set_partition bm r q' in
  bm_ok bm1 /\ b ∉ free_frames bm1 /\ b ∈ free_frames bm /\ frame_addr b /\
  (exists f, bfs bm !! b = Some f /\ state f = STATE.FREE /\ isWB f = false) /\
  (forall pid, getPartitionID bm1 pid = getPartitionID bm pid) /\
  (forall pid, io_entry bm1 pid = io_entry bm pid).
Proof.
  intros B Er Ep bm1. unfold tryPop in Ep. destruct (dram_free_list q) as [|b0 rest] eqn:Ef; [done|]. injection Ep as -> <-.
  assert (b :: free_frames bm1 ≡ₚ free_frames bm) as Perm
    by (symmetry; exact (frames_update (partitions bm) r q (set_free_list q rest) [b] Er Ef)).
  assert (NoDup (b :: free_frames bm1)) as Hnd by (rewrite Perm; apply B).
  apply list.NoDup_cons in Hnd as [Hb Hnd].
  assert (forall x, x ∈ b :: free_frames bm1 -> x ∈ free_frames bm) as Hsub by (intros x Hx; by rewrite Perm in Hx).
  assert (b ∈ free_frames bm) as Hbf by (apply Hsub, elem_of_cons; by left).
  destruct (bo_free _ B b Hbf) as (Ha & Hf). split; [|split_and!; try done].
  - apply (bm_ok_replace bm r q); [done..|]. intros x Hx. apply B, Hsub, elem_of_cons. by right.
  - intros pid. apply partition_id.
  - intros pid. by apply (partition_entry bm r q).
Qed.

(** * One partition's table and one frame change *)

Lemma io_ok_other bm i p b (f : @BufferFrame D) pid io :
  io_ok bm pid io -> io_bf io <> b -> io_ok (set_frame (set_partition bm i p) b f) pid io.
Proof.
  intros (H1 & H2 & H3 & f1 & H4 & H5) Hne. split_and!; try done. exists f1. cbn. by rewrite lookup_insert_ne by congruence.
Qed.

Section update.
Context bm (B : bm_ok bm) (i : nat) (p p' : Partition) (m m' : gmap Z IOFrame) (bf : Z) (f : @BufferFrame D).
Context (Ep : partitions bm !! i = Some p) (Es : p' = set_io p (io_ht p')).
Context (R : ht_repr (io_ht p) m) (R' : ht_repr (io_ht p') m').
Context (Hbf : bf ∉ free_frames bm).

Let bm2 := set_frame (set_partition bm i p') bf f.

Lemma update_id pid : getPartitionID bm2 pid = getPartitionID bm pid.
Proof. unfold getPartitionID, partitions_mask, partitions_count. cbn. by rewrite length_insert. Qed.

Lemma update_free : free_frames bm2 = free_frames bm.
Proof.
  unfold free_frames. cbn. rewrite list_fmap_insert. f_equal. apply list_insert_id.
  rewrite list_lookup_fmap, Ep, Es. done.
Qed.

Lemma update_entry pid :
  io_entry bm2 pid = if decide (getPartitionID bm pid = i) then m' !! pid else io_entry bm pid.
Proof.
  unfold io_entry, getPartition. rewrite update_id. cbn. case_decide as Hi.
  - rewrite Hi, list_lookup_insert_eq by (by eapply lookup_lt_Some). cbn. symmetry. apply R'.
  - by rewrite list_lookup_insert_ne by done.
Qed.

(** Entries of the other partitions must not use the frame. *)
Lemma update_ok :
  (forall pid io, m' !! pid = Some io -> io_ok bm2 pid io /\ getPartitionID bm pid = i) ->
  (forall pid io, io_ok bm pid io -> getPartitionID bm pid <> i -> io_bf io <> bf) ->
  bm_ok bm2.
Proof.
  intros Hm' Ho. constructor.
  - unfold partitions_count. cbn. rewrite length_insert. apply B.
  - intros j pj Hj. cbn in Hj. destruct (decide (j = i)) as [->|Hn].
    + rewrite list_lookup_insert_eq in Hj by (by eapply lookup_lt_Some). injection Hj as <-.
      exists m'. split; [done|]. intros pid io Hio. rewrite update_id. by apply Hm'.
    + rewrite list_lookup_insert_ne in Hj by done. destruct (bo_io _ B _ _ Hj) as (mj & Rj & Hmj).
      exists mj. split; [done|]. intros pid io Hio. rewrite update_id. destruct (Hmj pid io Hio) as [H1 H2].
      split; [|done]. apply io_ok_other; [done|]. apply (Ho pid io H1). congruence.
  - rewrite update_free. apply B.
  - intros b Hb. rewrite update_free in Hb. destruct (bo_free _ B b Hb) as (Ha & f1 & E1 & H1). split; [done|].
    exists f1. cbn. rewrite lookup_insert_ne by (intros ->; done). done.
Qed.

End update.

(** * Changes of one partition or one frame *)

(** The page identifiers of all partitions are as before. *)
Definition pid_fields (p : Partition) : Z * list Z * Z := (pid_distance p, freed_pids p, next_pid p).

Definition same_pids bm bm' : Prop :=
  map pid_fields (partitions bm') = map pid_fields (partitions bm) /\ ssd_gib bm' = ssd_gib bm.

Lemma same_pids_trans bm1 bm2 bm3 : same_pids bm1 bm2 -> same_pids bm2 bm3 -> same_pids bm1 bm3.
Proof. intros [H1 H2] [H3 H4]. split; congruence. Qed.

Lemma same_pids_partition bm i p p' :
  partitions bm !! i = Some p -> pid_fields p' = pid_fields p -> same_pids bm (set_partition bm i p').
Proof.
  intros Hi Hp. split; [|done]. cbn. rewrite list_fmap_insert. apply list_insert_id. by rewrite list_lookup_fmap, Hi, Hp.
Qed.

(** Another partition with the same table and free list. *)
Lemma bm_ok_partition bm i p p' :
  bm_ok bm -> partitions bm !! i = Some p -> io_ht p' = io_ht p -> dram_free_list p' = dram_free_list p ->
  bm_ok (set_partition bm i p').
Proof.
  intros B Hi Eh El.
  assert (free_frames (set_partition bm i p') = free_frames bm) as Ef.
  { unfold free_frames. cbn. rewrite list_fmap_insert. f_equal. apply list_insert_id. by rewrite list_lookup_fmap, Hi, El. }
  apply (bm_ok_replace bm i p); [done..| |]; rewrite Ef; apply B.
Qed.

(** A frame in use, but not by the table, may change in any way. *)
Lemma bm_ok_frame bm b f f' :
  bm_ok bm -> bfs bm !! b = Some f -> state f <> STATE.FREE -> state f <> STATE.LOADED -> bm_ok (set_frame bm b f').
Proof.
  intros B Ef Hs Hl. constructor; [apply B| |apply B|].
  - intros i p Hi. destruct (bo_io _ B i p Hi) as (m & R & Hm). exists m. split; [done|].
    intros pid io Hio. destruct (Hm pid io Hio) as [(H1 & H2 & H3 & f1 & H4 & H5 & H6) H7]. split; [|done].
    split_and!; try done. exists f1. cbn. rewrite lookup_insert_ne; [done|]. intros Eb. rewrite <- Eb in H4. congruence.
  - intros x Hx. destruct (bo_free _ B x Hx) as (H1 & f1 & H2 & H3 & H4). split; [done|].
    exists f1. cbn. rewrite lookup_insert_ne; [done|]. intros ->. congruence.
Qed.

(** A free frame that is on no list goes to the front of one. *)
Lemma bm_ok_push bm i p b f :
  bm_ok bm -> partitions bm !! i = Some p -> frame_addr b -> bfs bm !! b = Some f -> state f = STATE.FREE ->
  isWB f = false -> b ∉ free_frames bm -> bm_ok (set_partition bm i (set_free_list p (b :: dram_free_list p))).
Proof.
  intros B Hi Ha Ef Hs Hw Hb. set (p' := set_free_list p (b :: dram_free_list p)).
  assert (free_frames (set_partition bm i p') ≡ₚ b :: free_frames bm) as Perm.
  { pose proof (frames_update (<[i := p']> (partitions bm)) i p' p [b]
      (list_lookup_insert_eq _ _ _ (lookup_lt_Some _ _ _ Hi)) eq_refl) as H.
    rewrite list_insert_insert_eq, (list_insert_id (partitions bm) i p Hi) in H. exact H. }
  apply (bm_ok_replace bm i p); [done..| |].
  - rewrite Perm. apply list.NoDup_cons. split; [done|apply B].
  - intros x Hx. rewrite Perm in Hx. apply elem_of_cons in Hx as [->|Hx]; [split; [done|by exists f]|by apply B].
Qed.

(** * A new manager *)

(** [2 ^ k] partitions; the frames all start on the list of the first one. *)
Definition fresh_manager (k : nat) (gib : Z) (frames : list Z) (pages : gmap Z (@Page D)) (pg : @Page D) : BufferManager :=
  mkBM (list_to_map (map (fun b => (b, mkFrame STATE.FREE 0 false false 9999 pg)) frames))
    (map (fun i => mkPartition (new_HashTable 4) (if (i =? 0)%nat then frames else []) (2 ^ Z.of_nat k) [] (Z.of_nat i))
       (seq 0 (Z.to_nat (2 ^ Z.of_nat k)))) pages gib 0.

Lemma fresh_partition k gib frames pages pg i p :
  partitions (fresh_manager k gib frames pages pg) !! i = Some p ->
  (i < Z.to_nat (2 ^ Z.of_nat k))%nat /\ next_pid p = Z.of_nat i /\ freed_pids p = [] /\ pid_distance p = 2 ^ Z.of_nat k /\
  io_ht p = new_HashTable 4.
Proof.
  cbn. intros H. change (partitions _) with (map (fun i => mkPartition (new_HashTable 4) (if (i =? 0)%nat then frames else [])
    (2 ^ Z.of_nat k) [] (Z.of_nat i)) (seq 0 (Z.to_nat (2 ^ Z.of_nat k)))) in H.
  apply list_lookup_fmap_Some in H as (j & -> & Hj). apply lookup_seq in Hj as [-> Hj]. done.
Qed.

Lemma fresh_count k gib frames pages pg : partitions_count (fresh_manager k gib frames pages pg) = 2 ^ Z.of_nat k.
Proof. unfold partitions_count, fresh_manager. cbn [partitions]. rewrite length_map, length_seq. lia. Qed.

Lemma fresh_free k gib frames pages pg : free_frames (fresh_manager k gib frames pages pg) = frames.
Proof.
  unfold free_frames, fresh_manager. cbn [partitions]. rewrite map_map. cbn [dram_free_list].
  destruct (Z.to_nat (2 ^ Z.of_nat k)) as [|n] eqn:En; [lia|]. cbn [seq map Nat.eqb concat].
  assert (concat (map (fun i => if (i =? 0)%nat then frames else []) (seq 1 n)) = []) as ->; [|apply app_nil_r].
  clear. assert (0 < 1)%nat as Hp by lia. revert Hp. generalize 1%nat. induction n as [|n IH]; intros j Hj; [done|].
  cbn [seq map concat]. rewrite (proj2 (Nat.eqb_neq j 0)), IH by lia. done.
Qed.

Lemma fresh_ok k gib frames pages pg :
  (k <= 32)%nat -> NoDup frames -> Forall frame_addr frames -> bm_ok (fresh_manager k gib frames pages pg).
Proof.
  intros Hk Hn Ha. constructor.
  - exists (Z.of_nat k). split; [lia|apply fresh_count].
  - intros i p Hi. apply fresh_partition in Hi as (_ & _ & _ & _ & ->). exists ∅. split; [by apply new_HashTable_repr|done].
  - by rewrite fresh_free.
  - intros b Hb. rewrite fresh_free in Hb. split; [by eapply list.Forall_forall in Ha|].
    exists (mkFrame STATE.FREE 0 false false 9999 pg). split; [|done]. cbn. apply elem_of_list_to_map.
    + rewrite <- list_fmap_compose. unfold compose. cbn. by rewrite list_fmap_id.
    + apply list_elem_of_fmap. eauto.
Qed.

End manager.
