(* ===== verification/BufferManagerProps.v ===== *)
(** What the buffer manager guarantees: resolving a swip gives the page it
    stands for, whatever a jump leaves behind; page identifiers are handed out
    once, also over a restart. *)
From stdpp Require Import gmap.
From S2P Require Import Prelude BTreeNode Swip Partition BufferManager BufferManagerInv.
Local Open Scope Z_scope.

Section resolve.
Context {D : Type}.
Implicit Types (bm : @BufferManager D) (f : @BufferFrame D).

(** What a call leaves alone: all but one frame and one entry. *)
Record elsewhere bm bm' (b pid : Z) : Prop := Elsewhere {
  el_ssd : ssd bm' = ssd bm;
  el_bfs : forall x, x <> b -> bfs bm' !! x = bfs bm !! x;
  el_entry : forall q, q <> pid -> io_entry bm' q = io_entry bm q;
  el_pids : same_pids bm bm';
  el_hot : hot_pages bm' = hot_pages bm }.

(** ** The page is read from the SSD *)

Section miss.
Context bm (B : bm_ok bm) (pid : Z) (pg : @Page D) (r : nat) (q q' : Partition) (b : Z).
Context (Hpid : 0 <= pid) (Hnone : io_entry bm pid = None).
Context (Hpg : ssd bm !! pid = Some pg) (Hmagic : magic pg = pid).
Context (Hr : partitions bm !! r = Some q) (Hpop : tryPop q = Some (b, q')).

Lemma read_steps recheck :
  exists p1 p2 f m,
    let bm1 := set_partition bm r q' in
    let i := getPartitionID bm pid in
    bm_ok bm1 /\ b ∉ free_frames bm1 /\ b ∈ free_frames bm /\ frame_addr b /\ partitions bm1 !! i = Some p1 /\
    ht_repr (io_ht p1) m /\ m !! pid = None /\
    (forall x io, m !! x = Some io -> io_ok bm1 x io /\ getPartitionID bm1 x = i) /\
    (forall x, io_entry bm1 x = io_entry bm x) /\ (forall x, getPartitionID bm1 x = getPartitionID bm x) /\
    bfs bm !! b = Some f /\ state f = STATE.FREE /\ same_pids bm bm1 /\
    ht_repr (io_ht p2) (<[pid := mkIO READING 0 1]> m) /\ p2 = set_io p1 (io_ht p2) /\
    let loaded := mkFrame STATE.LOADED (GSN pg) false (keep_in_memory f) pid pg in
    resolve_miss bm pid r recheck =
      if recheck then
        p ← leave_io p2 pid id;
        Some (Returns (set_frame (set_partition bm1 i p) b (set_state loaded STATE.HOT)) (b, b))
      else
        p ← modify_io p2 pid (set_io_state READY b);
        Some (Jumps (set_frame (set_partition bm1 i p) b loaded)).
Proof.
  destruct (pop_ok bm r q b q' B Hr Hpop) as (B1 & Hb & Hbf & Ha & (f & Ef & Es & Ew) & Eid & Een).
  set (bm1 := set_partition bm r q') in *.
  destruct (getPartition_ok bm1 pid B1 Hpid) as (p1 & m & Ep & _ & R & Hio & Em).
  rewrite Een, Hnone in Em. rewrite Eid in Ep. symmetry in Em.
  destruct (ht_insert_repr _ _ R pid Em) as (ht & Ei & R1).
  destruct (modify_io_ok (set_io p1 ht) _ R1 pid new_io (fun _ => mkIO READING 0 1)) as (p2 & E2 & R2 & Es2);
    [apply lookup_insert_eq|]. rewrite insert_insert_eq in R2.
  assert (same_pids bm bm1) as Hsp.
  { apply (same_pids_partition bm r q); [done|]. unfold tryPop in Hpop. destruct (dram_free_list q); [done|]. by injection Hpop as _ <-. }
  exists p1, p2, f, m. split_and!; try done; [by rewrite <- Eid|].
  unfold resolve_miss. rewrite Hr. cbn [mbind option_bind]. rewrite Hpop. fold bm1. rewrite Ep. cbn [mbind option_bind].
  rewrite Ei. cbn [mbind option_bind]. rewrite E2. cbn [mbind option_bind]. change (bfs bm1) with (bfs bm).
  rewrite Ef. cbn [mbind option_bind]. change (ssd bm1) with (ssd bm). rewrite Hpg. cbn [mbind option_bind].
  unfold isFree. rewrite bool_decide_eq_true_2 by done. cbn [negb].
  unfold load_frame. rewrite Hmagic, Z.eqb_refl, Ew. cbn [negb orb mbind option_bind]. done.
Qed.

Lemma unused_frame bm1 x io f : io_ok bm1 x io -> bfs bm1 !! b = Some f -> state f <> STATE.LOADED -> io_bf io <> b.
Proof. intros (_ & _ & _ & f1 & E1 & E2 & _) Ef Hs <-. congruence. Qed.

(** The latch of the parent is still valid: the swip becomes hot. *)
Lemma miss_returns :
  exists bm' f', resolve_miss bm pid r true = Some (Returns bm' (b, b)) /\ bm_ok bm' /\ frame_addr b /\
    bfs bm' !! b = Some f' /\ (exists keep, f' = mkFrame STATE.HOT (GSN pg) false keep pid pg) /\
    io_entry bm' pid = None /\ elsewhere bm bm' b pid /\ b ∈ free_frames bm.
Proof.
  destruct (read_steps true) as (p1 & p2 & f & m & B1 & Hb & Hbf & Ha & Ep & R & Hm & Hio & Een & Eid & Ef & Es & Hsp & R2 & Es2 & ->).
  set (bm1 := set_partition bm r q') in *.
  destruct (leave_io_last p2 _ R2 pid (mkIO READING 0 1) id) as (p3 & E3 & R3 & Es3); [apply lookup_insert_eq|done|].
  rewrite E3. cbn [mbind option_bind]. rewrite delete_insert_eq, delete_id in R3 by done.
  assert (p3 = set_io p1 (io_ht p3)) as Es3' by (rewrite Es3, Es2; done).
  set (f' := set_state _ _). set (i := getPartitionID bm pid) in *.
  assert (bm_ok (set_frame (set_partition bm1 i p3) b f')) as B2.
  { eapply (update_ok bm1 B1 i p1 p3 m b f' Ep Es3' R3 Hb).
    - intros x io Hx. destruct (Hio x io Hx) as [H1 H2]. split; [|done].
      apply io_ok_other; [done|]. exact (unused_frame bm1 x io f H1 Ef ltac:(congruence)).
    - intros x io H1 _. exact (unused_frame bm1 x io f H1 Ef ltac:(congruence)). }
  eexists _, f'. split; [done|]. split_and!; try done.
  - cbn. apply lookup_insert_eq.
  - by eexists.
  - rewrite (update_entry bm1 i p1 p3 m b f' Ep R3), decide_True by (by rewrite Eid). done.
  - constructor; [done|intros x Hx; cbn; by rewrite lookup_insert_ne by congruence|..].
    1: intros x Hx; rewrite (update_entry bm1 i p1 p3 m b f' Ep R3); case_decide as Hi; [|apply Een].
    + rewrite <- Een. unfold io_entry, getPartition. rewrite Hi, Ep. cbn. apply R.
    + eapply same_pids_trans; [exact Hsp|]. apply (same_pids_partition bm1 i p1); [done|]. by rewrite Es3'.
    + done.
Qed.

(** The latch is gone: the page stays with the table until the next call. *)
Lemma miss_jumps :
  exists bm' f', resolve_miss bm pid r false = Some (Jumps bm') /\ bm_ok bm' /\ frame_addr b /\
    bfs bm' !! b = Some f' /\ (exists keep, f' = mkFrame STATE.LOADED (GSN pg) false keep pid pg) /\
    io_entry bm' pid = Some (mkIO READY b 1) /\ elsewhere bm bm' b pid /\ b ∈ free_frames bm.
Proof.
  destruct (read_steps false) as (p1 & p2 & f & m & B1 & Hb & Hbf & Ha & Ep & R & Hm & Hio & Een & Eid & Ef & Es & Hsp & R2 & Es2 & ->).
  set (bm1 := set_partition bm r q') in *.
  destruct (modify_io_ok p2 _ R2 pid (mkIO READING 0 1) (set_io_state READY b)) as (p3 & E3 & R3 & Es3); [apply lookup_insert_eq|].
  rewrite E3. cbn [mbind option_bind]. rewrite insert_insert_eq in R3.
  assert (p3 = set_io p1 (io_ht p3)) as Es3' by (rewrite Es3, Es2; done).
  set (f' := mkFrame _ _ _ _ _ _). set (i := getPartitionID bm pid) in *.
  assert (bm_ok (set_frame (set_partition bm1 i p3) b f')) as B2.
  { eapply (update_ok bm1 B1 i p1 p3 _ b f' Ep Es3' R3 Hb).
    - intros x io Hx. apply lookup_insert_Some in Hx as [[<- <-]|[Hne Hx]].
      + split; [|by rewrite Eid]. split_and!; try done.
        exists f'. cbn. by rewrite lookup_insert_eq.
      + destruct (Hio x io Hx) as [H1 H2]. split; [|done].
        apply io_ok_other; [done|]. exact (unused_frame bm1 x io f H1 Ef ltac:(congruence)).
    - intros x io H1 _. exact (unused_frame bm1 x io f H1 Ef ltac:(congruence)). }
  eexists _, f'. split; [done|]. split_and!; try done.
  - cbn. apply lookup_insert_eq.
  - by eexists.
  - rewrite (update_entry bm1 i p1 p3 _ b f' Ep R3), decide_True by (by rewrite Eid). apply lookup_insert_eq.
  - constructor; [done|intros x Hx; cbn; by rewrite lookup_insert_ne by congruence|..].
    1: intros x Hx; rewrite (update_entry bm1 i p1 p3 _ b f' Ep R3); case_decide as Hi; [|apply Een].
    + rewrite <- Een. rewrite lookup_insert_ne by congruence. unfold io_entry, getPartition. rewrite Hi, Ep. cbn. apply R.
    + eapply same_pids_trans; [exact Hsp|]. apply (same_pids_partition bm1 i p1); [done|]. by rewrite Es3'.
    + done.
Qed.

End miss.

(** ** The page was read for a call that jumped *)

Lemma ready_returns bm pid io p :
  bm_ok bm -> 0 <= pid -> io_entry bm pid = Some io -> getPartition bm pid = Some p ->
  exists bm' f f', resolve_in_flight bm pid p io = Some (Returns bm' (io_bf io, io_bf io)) /\ bm_ok bm' /\
    frame_addr (io_bf io) /\ bfs bm !! io_bf io = Some f /\ bfs bm' !! io_bf io = Some f' /\
    f' = set_state f STATE.HOT /\ fpid f = pid /\ io_entry bm' pid = None /\
    elsewhere bm bm' (io_bf io) pid /\ state f = STATE.LOADED.
Proof.
  intros B Hpid He Hp. destruct (getPartition_ok bm pid B Hpid) as (p0 & m & Ep & Ep' & R & Hio & Em).
  rewrite Hp in Ep'. injection Ep' as <-. rewrite He in Em. symmetry in Em.
  destruct (Hio pid io Em) as [Hok _]. pose proof Hok as (Hst & Hc & Ha & f & Ef & Hs & Hf).
  unfold resolve_in_flight. rewrite Hst, Ef. cbn [mbind option_bind].
  rewrite bool_decide_eq_true_2, (proj2 (Z.eqb_eq _ _) Hf) by done. cbn [negb orb].
  destruct (modify_io_ok p m R pid io (fun io => mkIO (io_st io) 0 (readers_counter io)) Em) as (p1 & -> & R1 & Es1).
  cbn [mbind option_bind].
  destruct (leave_io_last p1 _ R1 pid _ (set_io_state TO_DELETE 0) (lookup_insert_eq _ _ _) Hc) as (p2 & -> & R2 & Es2).
  cbn [mbind option_bind]. rewrite delete_insert_eq in R2.
  unfold warm_to. rewrite (proj1 (hot_tests (io_bf io) ltac:(unfold frame_addr in Ha; lia))).
  set (b := io_bf io) in *. set (i := getPartitionID bm pid) in *.
  assert (p2 = set_io p (io_ht p2)) as Es by (rewrite Es2, Es1; done).
  assert (b ∉ free_frames bm) as Hnf by (eapply used_not_free; [done..|congruence]).
  set (f' := set_state f STATE.HOT).
  assert (forall x io', io_ok bm x io' -> x <> pid -> io_bf io' <> b) as Hone.
  { intros x io' (_ & _ & _ & f1 & E1 & _ & E3) Hx Eb. rewrite Eb in E1. congruence. }
  assert (bm_ok (set_frame (set_partition bm i p2) b f')) as B2.
  { eapply (update_ok bm B i p p2 _ b f' Ep Es R2 Hnf).
    - intros x io' Hx. apply lookup_delete_Some in Hx as [Hne Hx]. destruct (Hio x io' Hx) as [H1 H2].
      split; [|done]. apply io_ok_other; [done|]. by apply (Hone x).
    - intros x io' H1 Hi. apply (Hone x); [done|]. intros ->. done. }
  eexists _, f, f'. split; [done|]. split_and!; try done.
  - cbn. apply lookup_insert_eq.
  - rewrite (update_entry bm i p p2 _ b f' Ep R2), decide_True by done. apply lookup_delete_eq.
  - constructor; [done|intros x Hx; cbn; by rewrite lookup_insert_ne by congruence|..].
    1: intros x Hx; rewrite (update_entry bm i p p2 _ b f' Ep R2); case_decide as Hi; [|done].
    + rewrite lookup_delete_ne by congruence. unfold io_entry, getPartition. rewrite Hi, Ep. cbn. apply R.
    + apply (same_pids_partition bm i p); [done|]. by rewrite Es.
    + done.
Qed.

(** ** Other swips *)

(** Distinct pages do not share a frame or an identifier. *)
Definition apart (s s' : swip) : Prop :=
  match s, s' with
  | EVICTED pid, EVICTED pid' => pid <> pid'
  | (HOT b | COOL b), (HOT b' | COOL b') => b <> b'
  | _, _ => True
  end.

Lemma elsewhere_content bm bm' b pid s' :
  bm_ok bm -> swip_ok bm s' -> elsewhere bm bm' b pid ->
  (b ∈ free_frames bm \/ exists io, io_entry bm pid = Some io /\ io_bf io = b) ->
  (forall pid', s' = EVICTED pid' -> pid' <> pid) ->
  content bm' s' = content bm s'.
Proof.
  intros B Hs El Hb Hne.
  assert (forall x f, bfs bm !! x = Some f -> state f = STATE.HOT \/ state f = STATE.COOL -> x <> b) as Hx.
  { intros x f Ef Hst ->. destruct Hb as [Hb|(io & He & Hio)].
    - destruct (bo_free _ B b Hb) as (_ & f' & Ef' & Hf' & _). rewrite Ef in Ef'. injection Ef' as <-.
      destruct Hst; congruence.
    - unfold io_entry, getPartition in He. destruct (partitions bm !! getPartitionID bm pid) as [p|] eqn:Ep; [|done].
      destruct (bo_io _ B _ _ Ep) as (m & R & Hm). cbn in He. rewrite <- (hr_map _ _ R) in He.
      destruct (Hm pid io He) as [(_ & _ & _ & f1 & E1 & E2 & _) _]. rewrite Hio in E1. destruct Hst; congruence. }
  destruct Hs as [Hv Hs]. destruct s' as [b'|b'|pid']; simpl in *.
  - destruct Hs as (_ & f & Ef & Hf). by rewrite (el_bfs _ _ _ _ El) by eauto.
  - destruct Hs as (_ & f & Ef & Hf). by rewrite (el_bfs _ _ _ _ El) by eauto.
  - specialize (Hne pid' eq_refl). rewrite (el_entry _ _ _ _ El), (el_ssd _ _ _ _ El) by done.
    destruct (io_entry bm pid') as [io|] eqn:He; [|done]. f_equal. apply (el_bfs _ _ _ _ El). intros Eb.
    destruct (getPartition_ok bm pid' B ltac:(lia)) as (p & m & Ep & _ & R & Hio & Em). rewrite He in Em. symmetry in Em.
    destruct (Hio pid' io Em) as [(_ & _ & _ & f1 & E1 & E2 & E3) _]. rewrite Eb in E1.
    destruct Hb as [Hb|(io' & He' & Hio')].
    + destruct (bo_free _ B b Hb) as (_ & f' & Ef' & Hf' & _). congruence.
    + unfold io_entry, getPartition in He'. destruct (partitions bm !! getPartitionID bm pid) as [p'|] eqn:Ep'; [|done].
      destruct (bo_io _ B _ _ Ep') as (m' & R' & Hm'). cbn in He'. rewrite <- (hr_map _ _ R') in He'.
      destruct (Hm' pid io' He') as [(_ & _ & _ & f2 & E4 & _ & E6) _]. rewrite Hio' in E4. congruence.
Qed.

(** ** A cooling page becomes hot *)

Lemma cool_returns bm b f :
  bm_ok bm -> bfs bm !! b = Some f -> state f = STATE.COOL ->
  let bm' := set_frame bm b (set_state f STATE.HOT) in
  bm_ok bm' /\ forall s', content bm' s' = content bm s'.
Proof.
  intros B Ef Hs bm'.
  assert (forall x, page <$> bfs bm' !! x = page <$> bfs bm !! x) as Hp.
  { intros x. cbn. destruct (decide (x = b)) as [->|]; [by rewrite lookup_insert_eq, Ef|by rewrite lookup_insert_ne]. }
  split; [apply (bm_ok_frame bm b f); congruence|].
  intros [x|x|pid]; simpl; [apply Hp|apply Hp|]. change (io_entry bm' pid) with (io_entry bm pid).
    destruct (io_entry bm pid); [apply Hp|done].
Qed.

(** * Properties *)

(** C15: resolving a swip.  In a consistent buffer manager [resolveSwip] of the
    swip of any page, hot, cooling, evicted, or read in by a call that jumped,
    fails no assertion.  When it returns, the swip has become the hot address
    of a frame that holds exactly the page the swip stood for, and the table
    has no entry left for it.  It jumps only when the page had to be read and
    either the free list it picked is empty, in which case nothing changed, or
    the parent's latch was lost, in which case the page is kept for the next
    call, which does not jump.  No other page changes. *)
Theorem resolve_swip_page bm s r q recheck :
  bm_ok bm -> swip_ok bm s -> partitions bm !! r = Some q ->
  match resolveSwip bm (raw_of s) r recheck with
  | None => False
  | Some (Returns bm' (w, bf)) =>
      w = raw_of (HOT bf) /\ bm_ok bm' /\ swip_ok bm' (HOT bf) /\ content bm' (HOT bf) = content bm s /\
      (forall pid, s = EVICTED pid -> io_entry bm' pid = None) /\
      forall s', swip_ok bm s' -> apart s s' -> content bm' s' = content bm s'
  | Some (Jumps bm') =>
      bm_ok bm' /\ content bm' s = content bm s /\
      (exists pid, s = EVICTED pid /\ io_entry bm pid = None /\
        (dram_free_list q = [] /\ bm' = bm \/ recheck = false /\ is_Some (io_entry bm' pid))) /\
      forall s', swip_ok bm s' -> apart s s' -> content bm' s' = content bm s'
  end.
Proof.
  intros B [Hv Hs] Hq. destruct s as [b|b|pid]; simpl in Hv, Hs; unfold resolveSwip.
  - destruct Hs as (Hb & f & Ef & Hst). destruct (hot_tests b Hv) as (H1 & _). cbn [raw_of]. rewrite H1.
    unfold bfPtr. rewrite (proj2 (Z.eqb_neq b 0)) by done. split; [done|]. split; [done|]. split; [split; [done|split; [done|by exists f]]|]. done.
  - destruct Hs as (Hb & f & Ef & Hst). destruct (cool_tests b Hv) as (H1 & H2 & _ & H4 & H5).
    cbn [raw_of]. rewrite H1, H2, H4, H5, (proj2 (Z.eqb_neq b 0)), Ef by done. cbn [mbind option_bind].
    unfold isFree. rewrite bool_decide_eq_false_2 by congruence. cbn [mbind option_bind].
    destruct (cool_returns bm b f B Ef Hst) as [B' Hc]. split; [done|]. split; [done|]. split; [|split; [|split; [done|auto]]].
    + split; [done|]. split; [done|]. exists (set_state f STATE.HOT). cbn. by rewrite lookup_insert_eq.
    + exact (Hc (HOT b)).
  - destruct (evicted_tests pid Hv) as (H1 & H2 & _ & H4). cbn [raw_of]. rewrite H1, H2, H4.
    destruct (getPartition_ok bm pid B ltac:(lia)) as (p & m & Ep & Ep' & R & Hio & Em). rewrite Ep'. cbn [mbind option_bind].
    pose proof (ht_lookup_repr _ _ R pid) as Hl. destruct (m !! pid) as [io|] eqn:Hm.
    + destruct Hl as (h & -> & Hf). rewrite Hf. cbn [mbind option_bind].
      destruct (ready_returns bm pid io p B ltac:(lia) Em Ep')
        as (bm' & f & f' & -> & B' & Ha & Ef & Ef' & -> & _ & Hn & El & _).
      split; [done|]. split; [done|]. split; [split; [simpl; unfold frame_addr in Ha; lia|split; [unfold frame_addr in Ha; lia|by eexists]]|].
      split; [simpl; by rewrite Em, Ef', Ef|]. split; [by intros ? [= <-]|].
      intros s' Hs1 Hap. eapply elsewhere_content; [done..|eauto|]. intros pid' ->. simpl in Hap. congruence.
    + rewrite Hl. destruct Hs as [[io Hio']|(pg & Hpg & Hmg)]; [congruence|].
      destruct (tryPop q) as [[b q']|] eqn:Hpop.
      * destruct recheck.
        -- destruct (miss_returns bm B pid pg r q q' b ltac:(lia) Em Hpg Hmg Hq Hpop)
             as (bm' & f' & -> & B' & Ha & Ef' & (keep & ->) & Hn & El & Hfr).
           split; [done|]. split; [done|]. split; [split; [simpl; unfold frame_addr in Ha; lia|split; [unfold frame_addr in Ha; lia|by eexists]]|].
           split; [simpl; by rewrite Em, Ef', Hpg|]. split; [by intros ? [= <-]|].
           intros s' Hs1 Hap. eapply elsewhere_content; [done..|by left|]. intros pid' ->. simpl in Hap. congruence.
        -- destruct (miss_jumps bm B pid pg r q q' b ltac:(lia) Em Hpg Hmg Hq Hpop)
             as (bm' & f' & -> & B' & Ha & Ef' & (keep & ->) & He' & El & Hfr).
           split; [done|]. split; [simpl; by rewrite Em, He'; simpl; rewrite Ef', Hpg|].
           split; [exists pid; split_and!; [done..|]; right; eauto|].
           intros s' Hs1 Hap. eapply elsewhere_content; [done..|by left|]. intros pid' ->. simpl in Hap. congruence.
      * unfold resolve_miss. rewrite Hq. cbn [mbind option_bind]. rewrite Hpop. split_and!; try done.
        exists pid. split_and!; try done. left. unfold tryPop in Hpop. by destruct (dram_free_list q).
Qed.

End resolve.

(** A page is read, the parent's latch is lost, and the next call has it. *)
Lemma resolve_swip_page_witness :
  let pg := mkPage 3 1 5 false [7; 7] in
  let bm := fresh_manager 0 1 [4096] {[5 := pg]} (mkPage 0 0 0 false []) in
  exists bm1, resolveSwip bm (evict 0 5) 0 false = Some (Jumps bm1) /\ content bm1 (EVICTED 5) = Some pg.
Proof.
  intros pg bm.
  assert (bm_ok bm) as B by (apply fresh_ok; [lia|apply NoDup_singleton|apply list.Forall_singleton; split; reflexivity]).
  assert (swip_ok bm (EVICTED 5)) as Hs by (split; [simpl; lia|]; right; exists pg; split; reflexivity).
  pose proof (resolve_swip_page bm (EVICTED 5) 0 (mkPartition (new_HashTable 4) [4096] 1 [] 0) false B Hs eq_refl) as H.
  change (raw_of (EVICTED 5)) with (evict 0 5) in H.
  destruct (resolveSwip bm (evict 0 5) 0 false) as [[bm1 [w bf]|bm1]|] eqn:E.
  - exfalso. vm_compute in E. discriminate E.
  - exists bm1. split; [reflexivity|]. destruct H as (_ & Hc & _). rewrite Hc. reflexivity.
  - contradiction.
Defined.
