(* ===== verification/PageIDs.v ===== *)
(** Page identifiers over all partitions: in use at most once, in the partition
    they name, and never reused after a restart. *)
From stdpp Require Import gmap.
From S2P Require Import Prelude BTreeNode Swip Partition BufferManager BufferManagerInv.
Local Open Scope Z_scope.

Section pids.
Context {D : Type}.
Implicit Types (bm : @BufferManager D).

(** The identifiers of partition [i]. *)
Definition pids_of bm (i : nat) (live : list Z) : list Z := filter (fun pid => getPartitionID bm pid = i) live.

Record all_pids_ok bm (live : list Z) : Prop := AllPids {
  ap_count : exists k, 0 <= k <= 32 /\ partitions_count bm = 2 ^ k;
  ap_ssd : 0 <= ssd_gib bm < 2 ^ 30;
  ap_live : forall pid, pid ∈ live -> 0 <= pid;
  ap_part : forall i p, partitions bm !! i = Some p ->
    pids_ok (ssd_gib bm) (Z.of_nat i) (partitions_count bm) p (pids_of bm i live) }.

Lemma partition_mod bm live pid :
  all_pids_ok bm live -> 0 <= pid -> getPartitionID bm pid = Z.to_nat (pid mod partitions_count bm).
Proof.
  intros A Hp. destruct (ap_count _ _ A) as (k & Hk & Ec). unfold getPartitionID, partitions_mask. rewrite Ec.
  replace (2 ^ k - 1) with (Z.ones k) by (rewrite Z.ones_equiv; lia). by rewrite Z.land_ones by lia.
Qed.

Lemma count_bound bm live i p :
  all_pids_ok bm live -> partitions bm !! i = Some p ->
  0 <= Z.of_nat i < partitions_count bm /\ partitions_count bm <= 2 ^ 32.
Proof.
  intros A Hi. apply lookup_lt_Some in Hi. destruct (ap_count _ _ A) as (k & Hk & Ec).
  split; [unfold partitions_count; lia|]. rewrite Ec. apply Z.pow_le_mono_r; lia.
Qed.

(** What [nextPID] of a partition gives is new and belongs to it. *)
Lemma nextPID_fresh bm live r p pid p' :
  all_pids_ok bm live -> partitions bm !! r = Some p -> nextPID (ssd_gib bm) p = Some (pid, p') ->
  pids_ok (ssd_gib bm) (Z.of_nat r) (partitions_count bm) p' (pid :: pids_of bm r live) /\
  pid ∉ live /\ 0 <= pid /\ getPartitionID bm pid = r.
Proof.
  intros A Hr En. destruct (count_bound _ _ _ _ A Hr) as [H1 H2].
  destruct (nextPID_ok _ _ _ H1 H2 (ap_ssd _ _ A) _ _ _ _ (ap_part _ _ A _ _ Hr) En) as (Ok & Hn & Hm & Hp).
  assert (getPartitionID bm pid = r) as Eid by (rewrite (partition_mod bm live) by done; rewrite Hm; lia).
  split_and!; try done. intros Hin. apply Hn. unfold pids_of. by apply list_elem_of_filter.
Qed.

Lemma pids_ok_same s i c p p' live :
  pids_ok s i c p live -> pid_distance p' = pid_distance p -> freed_pids p' = freed_pids p ->
  next_pid p' = next_pid p -> pids_ok s i c p' live.
Proof. intros [H1 H2 H3 H4] E1 E2 E3. constructor; rewrite ?E1, ?E2, ?E3; done. Qed.

(** One partition changes. *)
Lemma all_pids_update bm live live' r p p' bm' :
  all_pids_ok bm live -> partitions bm !! r = Some p -> partitions bm' = <[r := p']> (partitions bm) ->
  ssd_gib bm' = ssd_gib bm -> (forall pid, pid ∈ live' -> 0 <= pid) ->
  pids_ok (ssd_gib bm) (Z.of_nat r) (partitions_count bm) p' (pids_of bm r live') ->
  (forall i, i <> r -> pids_of bm i live' = pids_of bm i live) ->
  all_pids_ok bm' live'.
Proof.
  intros A Hr Ep Es Hl Hp Ho.
  assert (partitions_count bm' = partitions_count bm) as Ec by (unfold partitions_count; by rewrite Ep, length_insert).
  assert (forall i, pids_of bm' i live' = pids_of bm i live') as El.
  { intros i. unfold pids_of, getPartitionID, partitions_mask. by rewrite Ec. }
  constructor; [rewrite Ec; apply A|rewrite Es; apply A|done|]. intros i q Hi. rewrite El, Ec, Es. rewrite Ep in Hi.
  destruct (decide (i = r)) as [->|Hn].
  - rewrite list_lookup_insert_eq in Hi by (by eapply lookup_lt_Some). by injection Hi as <-.
  - rewrite list_lookup_insert_ne in Hi by done. rewrite Ho by done. by apply A.
Qed.

Lemma pids_of_cons bm i pid live :
  pids_of bm i (pid :: live) = if decide (getPartitionID bm pid = i) then pid :: pids_of bm i live else pids_of bm i live.
Proof. unfold pids_of. rewrite filter_cons. by case_decide. Qed.

(** Changes that do not touch the identifiers. *)
Lemma all_pids_same bm bm' live : all_pids_ok bm live -> same_pids bm bm' -> all_pids_ok bm' live.
Proof.
  intros A [Em Es].
  assert (partitions_count bm' = partitions_count bm) as Ec.
  { unfold partitions_count. rewrite <- (length_map pid_fields (partitions bm')), Em. by rewrite length_map. }
  assert (forall i, pids_of bm' i live = pids_of bm i live) as El.
  { intros i. unfold pids_of, getPartitionID, partitions_mask. by rewrite Ec. }
  constructor; [rewrite Ec; apply A|rewrite Es; apply A|apply A|]. intros i p' Hi. rewrite El, Ec, Es.
  assert (exists p, partitions bm !! i = Some p /\ pid_fields p' = pid_fields p) as (p & Hp & Ef).
  { pose proof (f_equal (fun l : list (Z * list Z * Z) => l !! i) Em) as H. cbn beta in H.
    rewrite !list_lookup_fmap, Hi in H. destruct (partitions bm !! i) as [p|]; [|done]. exists p. by injection H as E1 E2 E3; unfold pid_fields; rewrite E1, E2, E3. }
  injection Ef as E1 E2 E3. by eapply pids_ok_same; [apply A|..].
Qed.

(** * Histories *)

(** Pages allocated and reclaimed, with the identifiers in use. *)
Inductive page_history (bm0 : BufferManager) : BufferManager -> list Z -> Prop :=
| ph_new : page_history bm0 bm0 []
| ph_alloc bm live r hot bm' bf f :
    page_history bm0 bm live -> allocatePage bm r hot = Some (Returns bm' bf) -> bfs bm' !! bf = Some f ->
    page_history bm0 bm' (fpid f :: live)
| ph_reclaim bm l1 l2 bf f bm' :
    page_history bm0 bm (l1 ++ fpid f :: l2) -> bfs bm !! bf = Some f -> reclaimPage bm bf = Some bm' ->
    page_history bm0 bm' (l1 ++ l2).

Lemma alloc_pids bm live r hot bm' bf f :
  all_pids_ok bm live -> allocatePage bm r hot = Some (Returns bm' bf) -> bfs bm' !! bf = Some f ->
  all_pids_ok bm' (fpid f :: live) /\ fpid f ∉ live.
Proof.
  intros A Ea Ef. unfold allocatePage in Ea. destruct (partitions bm !! r) as [p|] eqn:Hr; [|done]. cbn [mbind option_bind] in Ea.
  destruct (dram_free_list p) as [|b rest]; [done|].
  destruct (nextPID (ssd_gib bm) (set_free_list p rest)) as [[pid p']|] eqn:En; [|done]. cbn [mbind option_bind] in Ea.
  destruct (bfs bm !! b) as [f0|]; [|done]. cbn [mbind option_bind] in Ea. destruct (_ || _); [done|].
  injection Ea as <- <-. cbn in Ef. rewrite lookup_insert_eq in Ef. injection Ef as <-. cbn [fpid].
  assert (exists p1, nextPID (ssd_gib bm) p = Some (pid, p1) /\ pid_distance p' = pid_distance p1 /\
    freed_pids p' = freed_pids p1 /\ next_pid p' = next_pid p1) as (p1 & E1 & E2 & E3 & E4).
  { unfold nextPID in En |- *. cbn in En. destruct (freed_pids p); [|injection En as <- <-; by eexists].
    destruct (_ <=? _); [|done]. injection En as <- <-. by eexists. }
  destruct (nextPID_fresh bm live r p pid p1 A Hr E1) as (Ok & Hn & Hp & Hid). split; [|done].
  eapply (all_pids_update bm live); [done|exact Hr|done|done| | |].
  - intros x [->|Hx]%elem_of_cons; [done|by apply A].
  - rewrite pids_of_cons, decide_True by done. by eapply pids_ok_same.
  - intros i Hi. rewrite pids_of_cons, decide_False by congruence. done.
Qed.

Lemma reclaim_pids bm l1 l2 bf f bm' :
  all_pids_ok bm (l1 ++ fpid f :: l2) -> bfs bm !! bf = Some f -> reclaimPage bm bf = Some bm' ->
  all_pids_ok bm' (l1 ++ l2).
Proof.
  intros A Ef Er. set (pid := fpid f) in *. unfold reclaimPage in Er. rewrite Ef in Er. cbn [mbind option_bind] in Er.
  fold pid in Er. set (i := getPartitionID bm pid) in *. destruct (partitions bm !! i) as [p|] eqn:Hi; [|done].
  cbn [mbind option_bind] in Er. destruct (isFree f); [done|]. destruct (_ && _); [done|].
  assert (pids_of bm i (l1 ++ pid :: l2) ≡ₚ pid :: pids_of bm i (l1 ++ l2)) as Perm.
  { unfold pids_of. rewrite !list.filter_app, filter_cons, decide_True by done. by rewrite Permutation_middle. }
  assert (pids_ok (ssd_gib bm) (Z.of_nat i) (partitions_count bm) (freePage p pid) (pids_of bm i (l1 ++ l2))) as Ok.
  { apply freePage_ok. eapply pids_perm; [exact Perm|]. by apply A. }
  assert (exists p', partitions bm' = <[i := p']> (partitions bm) /\ ssd_gib bm' = ssd_gib bm /\
    pids_ok (ssd_gib bm) (Z.of_nat i) (partitions_count bm) p' (pids_of bm i (l1 ++ l2))) as (p' & E1 & E2 & E3).
  { destruct (isWB f); [injection Er as <-; eexists; split_and!; done|].
    destruct (reset f) as [f'|]; [|done]. injection Er as <-. eexists. split; [cbn; apply list_insert_insert_eq|].
    split; [done|]. by eapply pids_ok_same. }
  eapply (all_pids_update bm (l1 ++ pid :: l2)); [done|exact Hi|done|done| |done|].
  - intros x Hx. apply A. apply elem_of_app. apply elem_of_app in Hx as [Hx|Hx]; [by left|right; apply elem_of_cons; by right].
  - intros j Hj. unfold pids_of. rewrite !list.filter_app, filter_cons, decide_False by (intros E; by apply Hj). done.
Qed.

Lemma all_pids_NoDup bm live : all_pids_ok bm live -> NoDup live.
Proof.
  intros A. assert (forall i, NoDup (pids_of bm i live)) as Hi.
  { intros i. destruct (partitions bm !! i) as [p|] eqn:Ep.
    - pose proof (pi_nodup _ _ _ _ _ (ap_part _ _ A _ _ Ep)) as H. by apply list.NoDup_app in H as [H _].
    - destruct (pids_of bm i live) as [|pid l] eqn:El; [constructor|]. exfalso.
      assert (pid ∈ pids_of bm i live) as Hin by (rewrite El; apply elem_of_cons; by left).
      apply list_elem_of_filter in Hin as [Hid Hin]. apply lookup_ge_None in Ep.
      rewrite (partition_mod bm live pid A) in Hid by (by apply A).
      destruct (ap_count _ _ A) as (k & Hk & Ec). unfold partitions_count in *.
      pose proof (Z.mod_pos_bound pid (Z.of_nat (length (partitions bm))) ltac:(lia)). lia. }
  clear A. induction live as [|pid live IH]; [constructor|]. apply list.NoDup_cons. split.
  - intros Hin. specialize (Hi (getPartitionID bm pid)). rewrite pids_of_cons, decide_True in Hi by done.
    apply list.NoDup_cons in Hi as [Hi _]. apply Hi. by apply list_elem_of_filter.
  - apply IH. intros i. specialize (Hi i). rewrite pids_of_cons in Hi. case_decide; [|done].
    by apply list.NoDup_cons in Hi as [_ Hi].
Qed.

Lemma history_pids bm0 bm live : all_pids_ok bm0 [] -> page_history bm0 bm live -> all_pids_ok bm live.
Proof.
  intros A. induction 1 as [|bm live r hot bm' bf f _ IH Ea Ef|bm l1 l2 bf f bm' _ IH Ef Er]; [done| |].
  - by eapply alloc_pids.
  - by eapply reclaim_pids.
Qed.

(** * Restart *)

Lemma serialize_max bm j p : partitions bm !! j = Some p -> next_pid p <= serialize bm.
Proof.
  unfold serialize. generalize (partitions bm). intros ps. revert j; induction ps as [|q ps IH]; intros [|j] Hj; try done.
  - injection Hj as ->. simpl. lia.
  - simpl in *. specialize (IH j Hj). lia.
Qed.

(** [& ~(c - 1)] rounds down to a multiple of [c]. *)
Lemma round_down x k : 0 <= x < 2 ^ 64 -> 0 <= k -> Z.land x (u64 (Z.lnot (2 ^ k - 1))) = x / 2 ^ k * 2 ^ k.
Proof.
  intros Hx Hk. unfold u64, wrap. rewrite <- Z.land_ones by lia.
  replace (2 ^ k - 1) with (Z.ones k) by (rewrite Z.ones_equiv; lia).
  rewrite (Z.land_comm (Z.lnot _)), Z.land_assoc, Z.land_ones, Z.mod_small by lia.
  rewrite <- Z.ldiff_land, Z.ldiff_ones_r, Z.shiftl_mul_pow2, Z.shiftr_div_pow2 by lia. done.
Qed.

Lemma fresh_pids k gib frames pages pg :
  (k <= 32)%nat -> 0 <= gib < 2 ^ 30 -> all_pids_ok (fresh_manager k gib frames pages pg) [].
Proof.
  intros Hk Hg. constructor; [rewrite fresh_count; exists (Z.of_nat k); split; [lia|done]|done| |].
  - intros pid H. by apply not_elem_of_nil in H.
  - intros i p Hi. apply fresh_partition in Hi as (Hi & E1 & E2 & E3 & _). rewrite fresh_count.
    assert (0 <= Z.of_nat i < 2 ^ Z.of_nat k) as Hb by lia. cbn [pids_of].
    constructor; rewrite ?E1, ?E2, ?E3; cbn; [done|constructor|intros pid H; by apply not_elem_of_nil in H|].
    split; [lia|]. by apply Z.mod_small.
Qed.

(** * Properties *)

(** C16: page identifiers.  Whatever pages are allocated and reclaimed in
    whatever partitions, the identifiers in use are distinct, and the next one
    any partition hands out is not in use and names that partition, as
    [allocatePage] asserts; this although freed identifiers are reused and the
    partitions count independently of each other. *)
Theorem page_ids_unique bm0 bm live :
  all_pids_ok bm0 [] -> page_history bm0 bm live ->
  NoDup live /\
  forall r p pid p', partitions bm !! r = Some p -> nextPID (ssd_gib bm) p = Some (pid, p') ->
    pid ∉ live /\ getPartitionID bm pid = r.
Proof.
  intros A H. pose proof (history_pids _ _ _ A H) as A'. split; [by eapply all_pids_NoDup|].
  intros r p pid p' Hr En. destruct (nextPID_fresh bm live r p pid p' A' Hr En) as (_ & H1 & _ & H2). done.
Qed.

(** Restart.  A manager with as many partitions that reads what another
    one has serialized starts every partition above all the identifiers the
    other one has handed out, on the grid of the partition. *)
Theorem restart_ids_fresh bm bm2 k i p' :
  partitions_count bm2 = 2 ^ k -> 0 <= k <= 32 -> 0 <= serialize bm < 2 ^ 63 ->
  partitions (deserialize bm2 (serialize bm)) !! i = Some p' ->
  next_pid p' mod 2 ^ k = Z.of_nat i /\
  forall j p, partitions bm !! j = Some p -> next_pid p <= next_pid p'.
Proof.
  intros Hc Hk Hs Hi. unfold deserialize in Hi. cbn [partitions] in Hi. rewrite list_lookup_imap, Hc in Hi.
  destruct (partitions bm2 !! i) as [q|] eqn:Eq; [|done]. cbn in Hi. injection Hi as <-. cbn [next_pid].
  pose proof (lookup_lt_Some _ _ _ Eq) as Hlt. unfold partitions_count in Hc.
  assert (2 ^ k <= 2 ^ 32) as Hk2 by (apply Z.pow_le_mono_r; lia).
  assert (0 < 2 ^ k) as Hk1 by lia. set (s := serialize bm) in *.
  rewrite (wrap_small 64 (s + (2 ^ k - 1))) by (unfold in_width; lia).
  rewrite round_down by lia. set (c := 2 ^ k) in *.
  pose proof (Z.div_mod (s + (c - 1)) c ltac:(lia)) as Dm. pose proof (Z.mod_pos_bound (s + (c - 1)) c ltac:(lia)) as Hm.
  assert (0 <= (s + (c - 1)) / c) as Hq by (apply Z.div_pos; lia).
  rewrite wrap_small by (unfold in_width; nia). split.
  - rewrite Z.add_comm, Z_mod_plus_full. apply Z.mod_small. lia.
  - intros j p Hj. pose proof (serialize_max bm j p Hj). lia.
Qed.

End pids.

Definition plain_page (pid : Z) : @Page unit := mkPage 0 1 pid false tt.

Lemma page_ids_unique_witness :
  exists bm live, page_history (fresh_manager 1 1 [4096; 8192] ∅ (plain_page 0)) bm live /\ length live = 2%nat /\ NoDup live.
Proof.
  set (bm0 := fresh_manager 1 1 [4096; 8192] ∅ (plain_page 0)).
  assert (exists bm1 b1 f1 bm2 b2 f2, allocatePage bm0 0 false = Some (Returns bm1 b1) /\ bfs bm1 !! b1 = Some f1 /\
    allocatePage bm1 0 true = Some (Returns bm2 b2) /\ bfs bm2 !! b2 = Some f2) as (bm1 & b1 & f1 & bm2 & b2 & f2 & E1 & F1 & E2 & F2)
    by (eexists _, _, _, _, _, _; do 3 (split; [vm_compute; reflexivity|]); vm_compute; reflexivity).
  assert (page_history bm0 bm2 [fpid f2; fpid f1]) as H
    by exact (ph_alloc bm0 bm1 [fpid f1] 0 true bm2 b2 f2 (ph_alloc bm0 bm0 [] 0 false bm1 b1 f1 (ph_new bm0) E1 F1) E2 F2).
  exists bm2, [fpid f2; fpid f1]. split; [exact H|]. split; [reflexivity|].
  apply (page_ids_unique bm0 bm2 [fpid f2; fpid f1]); [apply fresh_pids; lia|exact H].
Defined.

Lemma restart_ids_fresh_witness :
  exists p', partitions (deserialize (fresh_manager 2 1 [] ∅ (plain_page 0)) (serialize (fresh_manager 2 1 [] ∅ (plain_page 0)))) !! 1%nat = Some p' /\
    next_pid p' mod 2 ^ 2 = 1.
Proof.
  eexists. split; [vm_compute; reflexivity|].
  apply (restart_ids_fresh (fresh_manager 2 1 [] ∅ (plain_page 0)) (fresh_manager 2 1 [] ∅ (plain_page 0)) 2 1);
    [vm_compute; reflexivity|lia|vm_compute; split; [discriminate|reflexivity]|vm_compute; reflexivity].
Defined.
