(* ===== verification/PageProvider.v ===== *)
(** The page provider
    (src/backend/leanstore/storage/buffer-manager/PageProviderThread.cpp and
    AsyncWriteBuffer.cpp): the thread that cools pages, writes the dirty ones
    and evicts the clean ones.

    One provider thread; the accesses to one page are one step, since they are
    made under its latch.  The callbacks of the data structures are parameters:
    where the swip of a page is ([findParent], [None] jumps), which swips a page
    has ([children]) and which structures are spared ([spare]; never unless
    FLAGS_lower_eviction_prob_for_hot_data).  The callback
    [checkSpaceUtilization] does nothing without FLAGS_xmerge. *)
From stdpp Require Import gmap.
From S2P Require Import Prelude BTreeNode Swip Partition BufferManager.
Local Open Scope Z_scope.

(** The part of a [Partition] that only the provider uses. *)
Record Cooling := mkCooling {
  cooling_queue : list Z;
  cooling_bfs_counter : Z;
  free_bfs_limit : Z;
  cooling_bfs_limit : Z }.

Record config := mkConfig { out_of_place : bool; worker_threads : Z; batch_max_size : Z }.

Section provider.
Context {D : Type}.
Local Notation BufferFrame := (@BufferManager.BufferFrame D).
Local Notation Page := (@BufferManager.Page D).

(** A command of the write buffer with the page copied into it. *)
Record WriteCommand := mkWrite { wc_bf : Z; wc_pid : Z; wc_page : Page }.

(** The buffer manager, the swips by address, the requests of the write buffer
    before and after they are done, and the frames freed but not yet listed. *)
Record world := mkWorld {
  wbm : @BufferManager D;
  coolings : list Cooling;
  swips : gmap Z Z;
  pending : list WriteCommand;
  events : list WriteCommand;
  freed_bfs_batch : list Z;
  dirty_page_flushes : Z }.

Definition set_wbm (w : world) (bm : @BufferManager D) : world :=
  mkWorld bm (coolings w) (swips w) (pending w) (events w) (freed_bfs_batch w) (dirty_page_flushes w).
Definition set_coolings (w : world) (cs : list Cooling) : world :=
  mkWorld (wbm w) cs (swips w) (pending w) (events w) (freed_bfs_batch w) (dirty_page_flushes w).
Definition set_swips (w : world) (m : gmap Z Z) : world :=
  mkWorld (wbm w) (coolings w) m (pending w) (events w) (freed_bfs_batch w) (dirty_page_flushes w).
Definition set_writes (w : world) (ps es : list WriteCommand) : world :=
  mkWorld (wbm w) (coolings w) (swips w) ps es (freed_bfs_batch w) (dirty_page_flushes w).
Definition set_batch (w : world) (b : list Z) : world :=
  mkWorld (wbm w) (coolings w) (swips w) (pending w) (events w) b (dirty_page_flushes w).

Definition set_queue (c : Cooling) (q : list Z) (n : Z) : Cooling :=
  mkCooling q (u64 n) (free_bfs_limit c) (cooling_bfs_limit c).

(** Fields of a frame. *)
Definition set_page (f : BufferFrame) (pg : Page) : BufferFrame :=
  mkFrame (state f) (lastWrittenGSN f) (isWB f) (keep_in_memory f) (fpid f) pg.
Definition set_isWB (f : BufferFrame) (b : bool) : BufferFrame :=
  mkFrame (state f) (lastWrittenGSN f) b (keep_in_memory f) (fpid f) (page f).
Definition set_magic (pg : Page) (pid : Z) : Page := mkPage (GSN pg) (dt_id pg) pid (hot_data pg) (dt pg).

Definition wframe (w : world) (bf : Z) : option BufferFrame := bfs (wbm w) !! bf.
Definition put_frame (w : world) (bf : Z) (f : BufferFrame) : world := set_wbm w (set_frame (wbm w) bf f).

(** * The write buffer *)

Definition pending_requests (w : world) : Z := Z.of_nat (length (pending w)).

Definition full (cfg : config) (w : world) : bool := u64 (batch_max_size cfg - 2) <=? pending_requests w.

(** [assert(!full())]; the frame's page gets the identifier, then is copied. *)
Definition add (cfg : config) (w : world) (bf pid : Z) : option world :=
  f ← wframe w bf;
  if full cfg w || negb (pending_requests w <=? batch_max_size cfg) then None
  else
    let pg := set_magic (page f) pid in
    let w := put_frame w bf (set_page f pg) in
    Some (set_writes w (pending w ++ [mkWrite bf pid pg]) (events w)).

(** [submit] and [pollEventsSync]: the operating system writes every page. *)
Definition write_ssd (m : gmap Z (Page)) (c : WriteCommand) : gmap Z Page := <[wc_pid c := wc_page c]> m.

Definition submit_poll (w : world) : world :=
  let bm := wbm w in
  set_writes
    (set_wbm w (mkBM (bfs bm) (partitions bm) (foldl write_ssd (ssd bm) (pending w)) (ssd_gib bm) (hot_pages bm)))
    [] (events w ++ pending w).

(** The callback of [getWrittenBfs] for the next event. *)
Definition written (cfg : config) (w : world) (p_i : nat) : option world :=
  match events w with
  | [] => Some w
  | c :: es =>
      let bf := wc_bf c in
      let written_lsn := GSN (wc_page c) in
      f ← wframe w bf;
      if negb (isWB f) || negb (lastWrittenGSN f <? written_lsn) then None
      else
        let bm := wbm w in
        bm ← (if out_of_place cfg
              then p ← partitions bm !! p_i; Some (set_partition bm p_i (freePage p (fpid f)))
              else Some bm);
        let pid := if out_of_place cfg then wc_pid c else fpid f in
        let f := mkFrame (state f) written_lsn false (keep_in_memory f) pid (page f) in
        let w := set_writes (set_wbm w (set_frame bm bf f)) (pending w) es in
        Some (mkWorld (wbm w) (coolings w) (swips w) (pending w) (events w) (freed_bfs_batch w)
                (u64 (dirty_page_flushes w + 1)))
  end.

(** * Cooling *)

Section callbacks.
Context (findParent : world -> Z -> option Z) (children : world -> Z -> list Z) (spare : Z -> bool).

Definition phase_1_condition (w : world) (i : nat) : option bool :=
  p ← partitions (wbm w) !! i;
  c ← coolings w !! i;
  Some (u64 (Z.of_nat (length (dram_free_list p)) + cooling_bfs_counter c) <? cooling_bfs_limit c).

Definition phase_2_3_condition (w : world) (i : nat) : option bool :=
  p ← partitions (wbm w) !! i;
  c ← coolings w !! i;
  Some (Z.of_nat (length (dram_free_list p)) <? free_bfs_limit c).

Definition is_cooling_candidate (f : BufferFrame) : bool :=
  negb (keep_in_memory f) && negb (isWB f) && bool_decide (state f = STATE.HOT) && negb (spare (dt_id (page f))).

(** [iterateChildrenSwips]: the first hot child, or whether all are evicted. *)
Fixpoint iterate_children (w : world) (ls : list Z) (all_children_evicted : bool) : option (Z + bool) :=
  match ls with
  | [] => Some (inr all_children_evicted)
  | l :: ls' =>
      s ← swips w !! l;
      if isHOT s then Some (inl (bfPtr s)) else iterate_children w ls' (all_children_evicted && isEVICTED s)
  end.

(** Where the loop goes on: with another frame, after a failed attempt or not,
    with a child, or after the frame was cooled. *)
Inductive attempt := Repick | Jump | Child (bf : Z) | Cooled (w : world) (i : nat).

Definition cool_bf (w : world) (r_buffer : Z) (f : BufferFrame) (l : Z) : option attempt :=
  let pid := fpid f in
  let i := getPartitionID (wbm w) pid in
  c ← coolings w !! i;
  s ← swips w !! l;
  if negb (bool_decide (state f = STATE.HOT)) || isWB f || negb (s =? r_buffer) then None
  else
    let w := set_coolings w (<[i := set_queue c (cooling_queue c ++ [r_buffer]) (cooling_bfs_counter c + 1)]> (coolings w)) in
    let w := put_frame w r_buffer (set_state f STATE.COOL) in
    Some (Cooled (set_swips w (<[l := cool s]> (swips w))) i).

Definition try_cool (w : world) (r_buffer : Z) : option attempt :=
  f ← wframe w r_buffer;
  if negb (is_cooling_candidate f) then Some Repick
  else
    r ← iterate_children w (children w r_buffer) true;
    match r with
    | inl child => if child =? 0 then None else Some (Child child)
    | inr false => Some Repick
    | inr true =>
        match findParent w r_buffer with
        | None => Some Jump
        | Some l => cool_bf w r_buffer f l
        end
    end.

(** Phase 1.  [parts] and [bufs] are what the random generator draws, the
    partitions and the frames; the loop has no other way to end than its own, so
    it fails when they are used up. *)
Fixpoint phase_1 (parts : list nat) (bufs : list Z) (r_buffer : Z) (failed_attempts : Z) (w : world) : option world :=
  match parts with
  | [] => None
  | i :: parts' =>
      cond ← phase_1_condition w i;
      if negb (cond && (failed_attempts <? 10)) then Some w
      else
        a ← try_cool w r_buffer;
        match a, bufs with
        | Child bf, _ => phase_1 parts' bufs bf failed_attempts w
        | _, [] => None
        | Repick, b :: bufs' => phase_1 parts' bufs' b (failed_attempts + 1) w
        | Jump, b :: bufs' => phase_1 parts' bufs' b failed_attempts w
        | Cooled w i', b :: bufs' =>
            more ← phase_1_condition w i';
            if more : bool then phase_1 parts' bufs' b failed_attempts w else Some w
        end
  end.

(** * Eviction *)

Context (cfg : config).

(** [FreedBfsBatch::push]: the batch goes to the front of the free list. *)
Definition batch_push (w : world) (p_i : nat) : option world :=
  p ← partitions (wbm w) !! p_i;
  let p := set_free_list p (freed_bfs_batch w ++ dram_free_list p) in
  Some (set_batch (set_wbm w (set_partition (wbm w) p_i p)) []).

(** [evict_bf] up to the erasure, which the caller does; [Some None] jumps. *)
Definition evict_bf (w : world) (p_i : nat) (bf : Z) : option (option world) :=
  f ← wframe w bf;
  match findParent w bf with
  | None => Some None
  | Some l =>
      s ← swips w !! l;
      if isWB f || negb (bool_decide (state f = STATE.COOL)) || negb (getPartitionID (wbm w) (fpid f) =? p_i)%nat then None
      else
        let w := set_swips w (<[l := evict s (fpid f)]> (swips w)) in
        f ← reset f;
        let w := put_frame w bf f in
        let w := set_batch w (bf :: freed_bfs_batch w) in
        w ← (if Z.of_nat (length (freed_bfs_batch w)) <=? Z.min (worker_threads cfg) 128 then batch_push w p_i else Some w);
        Some (Some w)
  end.

(** What becomes of an entry of the queue: [looked] when a page was counted;
    [Break] ends the loop. *)
Inductive verdict := Erase (w : world) (looked : bool) | Keep (w : world) (looked : bool) | Break (w : world).

Definition of_evict (w : world) (r : option world) : verdict :=
  match r with Some w' => Erase w' true | None => Keep w true end.

Definition visit_2 (w : world) (p_i : nat) (bf : Z) : option verdict :=
  f ← wframe w bf;
  if negb (bool_decide (state f = STATE.COOL)) || negb (getPartitionID (wbm w) (fpid f) =? p_i)%nat then Some (Erase w false)
  else if isWB f then Some (Keep w false)
  else
    p ← partitions (wbm w) !! p_i;
    match ht_lookup (io_ht p) (fpid f) with
    | Some _ => Some (Erase w false)
    | None =>
        if isDirty f then
          if full cfg w then Some (Break w)
          else
            let w := put_frame w bf (set_isWB f true) in
            '(wb_pid, p) ← (if out_of_place cfg then nextPID (ssd_gib (wbm w)) p else Some (fpid f, p));
            if negb (getPartitionID (wbm w) wb_pid =? p_i)%nat then None
            else
              w ← add cfg (set_wbm w (set_partition (wbm w) p_i p)) bf wb_pid;
              Some (Keep w true)
        else r ← evict_bf w p_i bf; Some (of_evict w r)
    end.

Definition visit_3 (w : world) (p_i : nat) (bf : Z) : option verdict :=
  f ← wframe w bf;
  if negb (bool_decide (state f = STATE.COOL)) || negb (getPartitionID (wbm w) (fpid f) =? p_i)%nat then Some (Erase w false)
  else if negb (isWB f) && negb (isDirty f) then r ← evict_bf w p_i bf; Some (of_evict w r)
  else Some (Keep w false).

(** [erase(bf_itr)] and the counter: the entry after [front] goes. *)
Definition erase (w : world) (p_i : nat) (front rest : list Z) : option world :=
  c ← coolings w !! p_i;
  Some (set_coolings w (<[p_i := set_queue c (front ++ rest) (cooling_bfs_counter c - 1)]> (coolings w))).

(** The queue is [front ++ rest], the iterator at the head of [rest]; [left] is
    [pages_left_to_iterate_partition]. *)
Fixpoint phase_2 (w : world) (p_i : nat) (front rest : list Z) (left : Z) : option world :=
  match rest with
  | [] => Some w
  | bf :: rest' =>
      if left =? 0 then Some w
      else
        v ← visit_2 w p_i bf;
        match v with
        | Erase w looked =>
            w ← erase w p_i front rest';
            phase_2 w p_i front rest' (if looked then left - 1 else left)
        | Keep w looked => phase_2 w p_i (front ++ [bf]) rest' (if looked then left - 1 else left)
        | Break w => Some w
        end
  end.

Fixpoint phase_3 (w : world) (p_i : nat) (front rest : list Z) (left : nat) : option world :=
  match rest, left with
  | [], _ | _, O => Some w
  | bf :: rest', S left' =>
      v ← visit_3 w p_i bf;
      match v with
      | Erase w _ => w ← erase w p_i front rest'; phase_3 w p_i front rest' left'
      | Keep w _ => phase_3 w p_i (front ++ [bf]) rest' left'
      | Break w => Some w
      end
  end.

(** [getWrittenBfs] for all events. *)
Fixpoint all_written (n : nat) (w : world) (p_i : nat) : option world :=
  match n with O => Some w | S n' => w ← written cfg w p_i; all_written n' w p_i end.

Definition queue_of (w : world) (p_i : nat) : list Z := default [] (cooling_queue <$> coolings w !! p_i).

(** One partition's turn. *)
Definition phase_2_3 (w : world) (p_i : nat) : option world :=
  cond ← phase_2_3_condition w p_i;
  p ← partitions (wbm w) !! p_i;
  c ← coolings w !! p_i;
  w ← (if cond : bool then
         let pages_to_iterate := free_bfs_limit c - Z.of_nat (length (dram_free_list p)) in
         w ← phase_2 w p_i [] (queue_of w p_i) pages_to_iterate;
         let w := submit_poll w in
         let polled_events := length (events w) in
         w ← all_written polled_events w p_i;
         phase_3 w p_i [] (queue_of w p_i) polled_events
       else Some w);
  if negb (length (freed_bfs_batch w) =? 0)%nat then batch_push w p_i else Some w.

(** [for (p_i = p_begin; p_i < p_end; p_i++)] *)
Fixpoint all_partitions (w : world) (ps : list nat) : option world :=
  match ps with [] => Some w | p_i :: ps' => w ← phase_2_3 w p_i; all_partitions w ps' end.

(** One round of the thread. *)
Definition pageProviderThread (parts : list nat) (bufs : list Z) (r_buffer : Z) (p_begin p_end : nat) (w : world)
  : option world :=
  w ← phase_1 parts bufs r_buffer 0 w;
  all_partitions w (seq p_begin (p_end - p_begin)).

End callbacks.
End provider.
