(* ===== verification/Paging.v ===== *)
(** Pages under the hands of workers and of the page provider.

    The workers' accesses are the guards of
    src/backend/leanstore/sync-primitives/PageGuard.hpp: a page is fixed through
    its swip, created, changed under an exclusive guard or reclaimed.  The file
    gives these and the invariant that ties frames, swips, the SSD and the
    writes in flight together; PagingProps shows that it is kept. *)
From stdpp Require Import gmap.
From S2P Require Import Prelude BTreeNode Swip Partition BufferManager BufferManagerInv PageIDs PageProvider.
Local Open Scope Z_scope.

Section paging.
Context {D : Type}.
Local Notation BufferFrame := (@BufferManager.BufferFrame D).
Local Notation Page := (@BufferManager.Page D).
Local Notation BufferManager := (@BufferManager.BufferManager D).
Local Notation world := (@PageProvider.world D).
Local Notation WriteCommand := (@PageProvider.WriteCommand D).
Implicit Types (w : world) (f : BufferFrame) (b pid l : Z).

(** * Page guards *)

(** [HybridPageGuard(p_guard, swip)]: the frame, or a jump. *)
Definition fix_page w l (r : nat) (recheck : bool) : option (world * option Z) :=
  s ← swips w !! l;
  o ← tryFastResolveSwip (wbm w) s r recheck;
  match o with
  | Jumps bm => Some (set_wbm w bm, None)
  | Returns bm (s, bf) =>
      f ← bfs bm !! bf;
      if isFree f then None else Some (set_swips (set_wbm w bm) (<[l := s]> (swips w)), Some bf)
  end.

(** [incrementGSN]; write-ahead logging is off. *)
Definition incrementGSN (pg : Page) : Page := mkPage (u64 (GSN pg + 1)) (dt_id pg) (magic pg) (hot_data pg) (dt pg).
Definition set_dt (pg : Page) (d : D) : Page := mkPage (GSN pg) (dt_id pg) (magic pg) (hot_data pg) d.

(** [ExclusivePageGuard] of a page and the changes made under it. *)
Definition modify_page w bf (g : D -> D) : option world :=
  f ← wframe w bf;
  let pg := incrementGSN (page f) in
  Some (put_frame w bf (set_page f (set_dt pg (g (dt pg))))).

(** [HybridPageGuard(dt_id, keep_alive, keep_in_memory)], the exclusive guard
    on it, [init], and the swip to it. *)
Definition new_page w l (r : nat) (dtid : Z) (keep : bool) (d : D) : option (world * option Z) :=
  o ← allocatePage (wbm w) r keep;
  match o with
  | Jumps bm => Some (set_wbm w bm, None)
  | Returns bm bf =>
      f ← bfs bm !! bf;
      let pg := incrementGSN (mkPage (GSN (page f)) dtid (magic (page f)) keep (dt (page f))) in
      let f := mkFrame (state f) (lastWrittenGSN f) (isWB f) keep (fpid f) (set_dt pg d) in
      Some (set_swips (set_wbm w (set_frame bm bf f)) (<[l := warm_to 0 bf]> (swips w)), Some bf)
  end.

(** [reclaim]; the swip to the page goes. *)
Definition reclaim_page w l : option world :=
  s ← swips w !! l;
  bm ← reclaimPage (wbm w) (bfPtr s);
  Some (set_swips (set_wbm w bm) (delete l (swips w))).

(** * Invariant *)

(** What is behind a swip's address: the swip, the page's identifier, whether
    it is hot data, and the data. *)
Record cell := mkCell { c_swip : swip; c_pid : Z; c_hot : bool; c_data : D }.
Implicit Types (x : cell) (G : gmap Z cell).

Definition page_has (pg : Page) x : Prop := hot_data pg = c_hot x /\ dt pg = c_data x.
Definition frame_has f x : Prop := fpid f = c_pid x /\ page_has (page f) x.
Definition used f : Prop := state f <> STATE.FREE.

Definition resident (bm : BufferManager) b (st : STATE.t) x : Prop :=
  frame_addr b /\ exists f, bfs bm !! b = Some f /\ state f = st /\ frame_has f x.

Definition cell_ok (bm : BufferManager) x : Prop :=
  0 <= c_pid x < 2 ^ 62 /\
  match c_swip x with
  | HOT b => resident bm b STATE.HOT x
  | COOL b => resident bm b STATE.COOL x
  | EVICTED pid =>
      pid = c_pid x /\
      match io_entry bm pid with
      | Some io => exists f, bfs bm !! io_bf io = Some f /\ frame_has f x
      | None => exists pg, ssd bm !! pid = Some pg /\ magic pg = pid /\ page_has pg x /\ 0 <= GSN pg < 2 ^ 64
      end
  end.

(** The cell's page is in frame [b]. *)
Definition holds (bm : BufferManager) x b : Prop :=
  match c_swip x with
  | HOT b' | COOL b' => b' = b
  | EVICTED pid => exists io, io_entry bm pid = Some io /\ io_bf io = b
  end.

(** The writes in flight of the frame. *)
Definition writes w : list WriteCommand := pending w ++ events w.

(** A frame that is clean and not being written is the page on the SSD. *)
Record frame_ok w b f : Prop := FrameOk {
  fo_gsn : 0 <= lastWrittenGSN f <= GSN (page f) /\ GSN (page f) < 2 ^ 64;
  fo_clean : isWB f = false -> isDirty f = false -> ssd (wbm w) !! fpid f = Some (page f) /\ magic (page f) = fpid f;
  fo_wb : isWB f = true -> b ∈ map wc_bf (writes w);
  fo_loaded : state f = STATE.LOADED -> isWB f = false /\ isDirty f = false }.

(** A write in flight is newer than what is on the SSD, and it is the page
    unless that has been changed since. *)
Record write_ok w (c : WriteCommand) f : Prop := WriteOk {
  wo_used : used f;
  wo_isWB : isWB f = true;
  wo_pid : wc_pid c = fpid f;
  wo_magic : magic (wc_page c) = fpid f;
  wo_gsn : lastWrittenGSN f < GSN (wc_page c) <= GSN (page f);
  wo_same : GSN (wc_page c) = GSN (page f) -> wc_page c = page f;
  wo_done : c ∈ events w -> ssd (wbm w) !! fpid f = Some (wc_page c) }.

Record inv w G : Prop := Inv {
  iv_bm : bm_ok (wbm w);
  iv_pids : exists live, all_pids_ok (wbm w) live /\ forall l x, G !! l = Some x -> c_pid x ∈ live;
  iv_swips : swips w = (raw_of ∘ c_swip) <$> G;
  iv_cell : forall l x, G !! l = Some x -> cell_ok (wbm w) x;
  iv_inj : forall l1 l2 x1 x2, G !! l1 = Some x1 -> G !! l2 = Some x2 -> c_pid x1 = c_pid x2 -> l1 = l2;
  iv_owner : forall b f, bfs (wbm w) !! b = Some f -> used f ->
    frame_ok w b f /\ exists l x, G !! l = Some x /\ c_pid x = fpid f /\ holds (wbm w) x b;
  iv_write : forall c, c ∈ writes w -> exists f, bfs (wbm w) !! wc_bf c = Some f /\ write_ok w c f;
  iv_writes : NoDup (map wc_bf (writes w));
  iv_coolings : length (coolings w) = length (partitions (wbm w));
  iv_queue : forall i c b, coolings w !! i = Some c -> b ∈ cooling_queue c -> is_Some (bfs (wbm w) !! b);
  iv_batch : freed_bfs_batch w = [];
  iv_hot : hot_pages (wbm w) = Z.of_nat (size (filter (fun kh : Z * bool => kh.2 = true) (c_hot <$> G))) }.

(** What the workers see. *)
Definition data G : gmap Z D := c_data <$> G.

(** * Frames and cells *)

Lemma inv_swip w G l x : inv w G -> G !! l = Some x -> swips w !! l = Some (raw_of (c_swip x)).
Proof. intros I E. by rewrite (iv_swips _ _ I), lookup_fmap, E. Qed.

(** A cell determines the frame, and the frame the cell. *)
Lemma holds_fun bm x b1 b2 : holds bm x b1 -> holds bm x b2 -> b1 = b2.
Proof. unfold holds. destruct (c_swip x); [congruence..|]. intros (? & ? & ?) (? & ? & ?). congruence. Qed.

Lemma owner_unique w G b1 b2 f1 f2 :
  inv w G -> bfs (wbm w) !! b1 = Some f1 -> used f1 -> bfs (wbm w) !! b2 = Some f2 -> used f2 ->
  fpid f1 = fpid f2 -> b1 = b2.
Proof.
  intros I E1 U1 E2 U2 Ep. destruct (iv_owner _ _ I _ _ E1 U1) as (_ & l1 & x1 & L1 & P1 & H1).
  destruct (iv_owner _ _ I _ _ E2 U2) as (_ & l2 & x2 & L2 & P2 & H2).
  assert (l1 = l2) as -> by (eapply (iv_inj _ _ I); [done..|congruence]). rewrite L1 in L2. injection L2 as <-.
  by eapply holds_fun.
Qed.

Lemma resident_hot w G l x b :
  inv w G -> G !! l = Some x -> c_swip x = HOT b \/ c_swip x = COOL b ->
  frame_addr b /\ exists f, bfs (wbm w) !! b = Some f /\ used f /\ state f <> STATE.LOADED /\ frame_has f x /\
    state f = (if is_hot (c_swip x) then STATE.HOT else STATE.COOL).
Proof.
  intros I L Hs. destruct (iv_cell _ _ I _ _ L) as [_ H]. destruct Hs as [Hs|Hs]; rewrite Hs in *;
    destruct H as (Ha & f & Ef & Es & Hf); (split; [done|]); exists f; unfold used; rewrite Es; split_and!; done.
Qed.

(** The swip at an address whose frame is [b], as a data structure finds it. *)
Lemma parent_cell w G l s b f :
  inv w G -> swips w !! l = Some s -> isEVICTED s = false -> bfPtrAsHot s = b ->
  bfs (wbm w) !! b = Some f ->
  exists x, G !! l = Some x /\ s = raw_of (c_swip x) /\ frame_has f x /\ used f /\
    (state f = STATE.HOT /\ c_swip x = HOT b \/ state f = STATE.COOL /\ c_swip x = COOL b).
Proof.
  intros I Hs He Hb Ef. rewrite (iv_swips _ _ I), lookup_fmap in Hs.
  destruct (G !! l) as [x|] eqn:L; [|done]. injection Hs as <-. exists x. split; [done|]. split; [done|].
  destruct (iv_cell _ _ I _ _ L) as [Hp H]. unfold compose in *. destruct (c_swip x) as [b'|b'|pid] eqn:Hx.
  - destruct H as (Ha & f' & Ef' & Es & Hf). assert (b' = b) as ->.
    { rewrite <- Hb. cbn [raw_of]. unfold bfPtrAsHot. change hot_mask with (Z.ones 62). unfold frame_addr in Ha.
      rewrite Z.land_ones, Z.mod_small by lia. done. }
    rewrite Ef in Ef'. injection Ef' as <-. unfold used. rewrite Es. eauto.
  - destruct H as (Ha & f' & Ef' & Es & Hf). assert (b' = b) as ->.
    { rewrite <- Hb. cbn [raw_of]. destruct (cool_tests b' ltac:(unfold frame_addr in Ha; lia)) as (_ & _ & _ & H & _). done. }
    rewrite Ef in Ef'. injection Ef' as <-. unfold used. rewrite Es. eauto.
  - destruct H as (-> & _). cbn [raw_of] in He. destruct (evicted_tests (c_pid x) ltac:(lia)) as (_ & _ & H & _). congruence.
Qed.

Lemma holds_frame w G l x b :
  inv w G -> G !! l = Some x -> holds (wbm w) x b ->
  exists f, bfs (wbm w) !! b = Some f /\ used f /\ frame_has f x.
Proof.
  intros I L Hh. destruct (iv_cell _ _ I _ _ L) as [Hp Hc]. unfold holds in Hh. destruct (c_swip x) as [b'|b'|pid].
  1,2: subst b'; destruct Hc as (_ & f & Ef & Es & Hf); exists f; unfold used; by rewrite Es.
  destruct Hh as (io & Eio & <-). destruct Hc as [-> Hc]. rewrite Eio in Hc. destruct Hc as (f & Ef & Hf).
  exists f. split; [done|]. split; [|done].
  destruct (getPartition_ok (wbm w) (c_pid x) (iv_bm _ _ I) ltac:(lia)) as (p & m & _ & _ & _ & Hio & Em).
  rewrite Eio in Em. destruct (Hio _ _ (eq_sym Em)) as [(_ & _ & _ & f1 & E1 & E2 & _) _]. unfold used. congruence.
Qed.

Lemma holds_inj w G l1 l2 x1 x2 b :
  inv w G -> G !! l1 = Some x1 -> G !! l2 = Some x2 -> holds (wbm w) x1 b -> holds (wbm w) x2 b -> l1 = l2.
Proof.
  intros I L1 L2 H1 H2. destruct (holds_frame _ _ _ _ _ I L1 H1) as (f1 & E1 & _ & P1 & _).
  destruct (holds_frame _ _ _ _ _ I L2 H2) as (f2 & E2 & _ & P2 & _). eapply (iv_inj _ _ I); [done..|]. congruence.
Qed.

(** * One page changes *)

(** A step touches the cell at [l], the frame [b] and the page [pid] only. *)
Section step.
Context w G (I : inv w G) w' (G' : gmap Z cell) (l b pid : Z).
Context (Hbm : bm_ok (wbm w')).
Context (Hpids : exists live, all_pids_ok (wbm w') live /\ forall l1 x, G' !! l1 = Some x -> c_pid x ∈ live).
Context (Hswips : swips w' = (raw_of ∘ c_swip) <$> G').
Context (Hbfs : forall b1, b1 <> b -> bfs (wbm w') !! b1 = bfs (wbm w) !! b1).
Context (Hio : forall q, q <> pid -> io_entry (wbm w') q = io_entry (wbm w) q).
Context (Hssd : forall q, q <> pid -> ssd (wbm w') !! q = ssd (wbm w) !! q).
Context (HG : forall l1, l1 <> l -> G' !! l1 = G !! l1).
Context (Hold : forall x, G !! l = Some x -> c_pid x = pid).
Context (Hothers : forall l1 x, l1 <> l -> G !! l1 = Some x -> c_pid x <> pid /\ ~ holds (wbm w) x b).
Context (Hcell : forall x, G' !! l = Some x -> c_pid x = pid /\ cell_ok (wbm w') x).
Context (Hframe : forall f, bfs (wbm w') !! b = Some f -> used f ->
  frame_ok w' b f /\ fpid f = pid /\ exists x, G' !! l = Some x /\ holds (wbm w') x b).
Context (Hwrite : forall c, c ∈ writes w' ->
  if decide (wc_bf c = b) then exists f, bfs (wbm w') !! b = Some f /\ write_ok w' c f
  else c ∈ writes w /\ (c ∈ events w' -> c ∈ events w)).
Context (Hkept : forall c, c ∈ writes w -> wc_bf c <> b -> c ∈ writes w').
Context (Hnodup : NoDup (map wc_bf (writes w'))).
Context (Hlen : length (coolings w') = length (partitions (wbm w'))).
Context (Hqueue : forall i c b1, coolings w' !! i = Some c -> b1 ∈ cooling_queue c -> is_Some (bfs (wbm w') !! b1)).
Context (Hbatch : freed_bfs_batch w' = []).
Context (Hhot : hot_pages (wbm w') = Z.of_nat (size (filter (fun kh : Z * bool => kh.2 = true) (c_hot <$> G')))).

(** The owner of another frame is another cell. *)
Lemma step_owner b1 f :
  b1 <> b -> bfs (wbm w) !! b1 = Some f -> used f -> fpid f <> pid \/ exists x, G !! l = Some x /\ holds (wbm w) x b1.
Proof.
  intros Hn Ef U. destruct (iv_owner _ _ I _ _ Ef U) as (_ & l1 & x1 & L1 & P1 & H1).
  destruct (decide (l1 = l)) as [->|Hl]; [right; eauto|left]. rewrite <- P1. by apply (Hothers l1 x1 Hl L1).
Qed.

Context (Halone : forall x b1, G !! l = Some x -> holds (wbm w) x b1 -> b1 = b).

Lemma step_other_frame b1 f : b1 <> b -> bfs (wbm w) !! b1 = Some f -> used f -> fpid f <> pid.
Proof. intros Hn Ef U. destruct (step_owner b1 f Hn Ef U) as [H|(x & L & H)]; [done|]. by apply Halone in H. Qed.

Lemma step_cell l1 x : l1 <> l -> G !! l1 = Some x -> cell_ok (wbm w') x.
Proof.
  intros Hl L. destruct (Hothers l1 x Hl L) as [Hp Hh]. destruct (iv_cell _ _ I _ _ L) as [Hv Hc]. split; [done|].
  unfold holds in Hh. destruct (c_swip x) as [b1|b1|q].
  1,2: destruct Hc as (Ha & f & Ef & Hs); split; [done|]; exists f; by rewrite Hbfs.
  destruct Hc as [-> Hc]. split; [done|]. rewrite Hio by done. destruct (io_entry (wbm w) (c_pid x)) as [io|] eqn:Eio.
  - rewrite Hbfs; [done|]. intros Eb. apply Hh. eauto.
  - by rewrite Hssd.
Qed.

Lemma step_holds l1 x b1 : l1 <> l -> G !! l1 = Some x -> holds (wbm w) x b1 -> holds (wbm w') x b1.
Proof.
  intros Hl L. destruct (Hothers l1 x Hl L) as [Hp _]. destruct (iv_cell _ _ I _ _ L) as [_ Hc].
  unfold holds. destruct (c_swip x) as [b2|b2|q]; [done..|]. destruct Hc as [-> _]. by rewrite Hio.
Qed.

Lemma step_frame b1 f :
  b1 <> b -> bfs (wbm w) !! b1 = Some f -> used f ->
  frame_ok w' b1 f /\ exists l1 x, G' !! l1 = Some x /\ c_pid x = fpid f /\ holds (wbm w') x b1.
Proof.
  intros Hn Ef U. pose proof (step_other_frame b1 f Hn Ef U) as Hp.
  destruct (iv_owner _ _ I _ _ Ef U) as ([F1 F2 F3 F4] & l1 & x1 & L1 & P1 & H1). split.
  - constructor; [done|by rewrite Hssd| |done]. intros Hw. apply F3 in Hw.
    apply list_elem_of_fmap in Hw as (c & -> & Hc). apply list_elem_of_fmap. exists c. split; [done|]. by apply Hkept.
  - assert (l1 <> l) as Hl by (intros ->; apply Hp; rewrite <- P1; by apply Hold).
    exists l1, x1. rewrite HG by done. split_and!; [done..|]. by eapply step_holds.
Qed.

Lemma step_write c : c ∈ writes w' -> exists f, bfs (wbm w') !! wc_bf c = Some f /\ write_ok w' c f.
Proof.
  intros Hc. specialize (Hwrite c Hc). case_decide as Hb; [by rewrite Hb|]. destruct Hwrite as [Hw He].
  destruct (iv_write _ _ I c Hw) as (f & Ef & [W1 W2 W3 W4 W5 W6 W7]). exists f. rewrite Hbfs by done. split; [done|].
  constructor; try done. intros Hd. rewrite Hssd by (by eapply step_other_frame). auto.
Qed.

Lemma step_inv : inv w' G'.
Proof.
  constructor; try done.
  - intros l1 x L. destruct (decide (l1 = l)) as [->|Hl]; [by apply Hcell|]. rewrite HG in L by done. by eapply step_cell.
  - intros l1 l2 x1 x2 L1 L2 E. destruct (decide (l1 = l)) as [->|H1], (decide (l2 = l)) as [->|H2]; [done|..].
    + rewrite HG in L2 by done. destruct (Hothers _ _ H2 L2). apply Hcell in L1 as []. congruence.
    + rewrite HG in L1 by done. destruct (Hothers _ _ H1 L1). apply Hcell in L2 as []. congruence.
    + rewrite HG in L1, L2 by done. by eapply (iv_inj _ _ I).
  - intros b1 f Ef U. destruct (decide (b1 = b)) as [->|Hn].
    + destruct (Hframe f Ef U) as (H1 & H2 & x & L & H3). split; [done|]. exists l, x. split_and!; try done.
      apply Hcell in L as []. congruence.
    + rewrite Hbfs in Ef by done. by apply step_frame.
  - exact step_write.
Qed.

End step.
End paging.
