(* ===== verification/PagingSteps.v ===== *)
(** The workers' steps keep the invariant of Paging: a page in memory changes,
    a page is read, a frame is freed, a page is created. *)
From stdpp Require Import gmap.
From S2P Require Import Prelude BTreeNode Swip Partition BufferManager BufferManagerInv BufferManagerProps PageIDs PageProvider Paging.
Local Open Scope Z_scope.

Section steps.
Context {D : Type}.
Local Notation BufferFrame := (@BufferManager.BufferFrame D).
Local Notation Page := (@BufferManager.Page D).
Local Notation BufferManager := (@BufferManager.BufferManager D).
Local Notation world := (@PageProvider.world D).
Local Notation WriteCommand := (@PageProvider.WriteCommand D).
Local Notation cell := (@Paging.cell D).
Implicit Types (w : world) (f : BufferFrame) (b pid l : Z) (x : cell) (G : gmap Z cell).

(** The invariant holds, with the same data behind every swip. *)
Definition shows w G : Prop := exists G', inv w G' /\ data G' = data G.

Lemma shows_refl w G : inv w G -> shows w G.
Proof. intros I. by exists G. Qed.

Lemma shows_trans w G G' : data G' = data G -> shows w G' -> shows w G.
Proof. intros E (G2 & I & E2). exists G2. split; [done|congruence]. Qed.

(** * A page that is in memory *)

Lemma other_cells w G l x b :
  inv w G -> G !! l = Some x -> (forall f, bfs (wbm w) !! b = Some f -> used f -> holds (wbm w) x b) ->
  forall l1 x1, l1 <> l -> G !! l1 = Some x1 -> c_pid x1 <> c_pid x /\ ~ holds (wbm w) x1 b.
Proof.
  intros I L Hb l1 x1 Hl L1. split; [intros E; by apply Hl, (iv_inj _ _ I _ _ _ _ L1 L)|]. intros H1.
  destruct (holds_frame _ _ _ _ _ I L1 H1) as (f & Ef & U & _). by apply Hl, (holds_inj _ _ _ _ _ _ b I L1 L H1), (Hb f).
Qed.

(** The cell with another swip and other data. *)
Definition new_cell x (s : swip) (d : D) : cell := mkCell s (c_pid x) (c_hot x) d.

Lemma hot_count_same G l x s d : G !! l = Some x -> c_hot <$> <[l := new_cell x s d]> G = c_hot <$> G.
Proof. intros L. rewrite fmap_insert. cbn. apply insert_id. by rewrite lookup_fmap, L. Qed.

Lemma new_cell_pids (bm : BufferManager) G l x s d :
  (exists live, all_pids_ok bm live /\ forall l1 x, G !! l1 = Some x -> c_pid x ∈ live) -> G !! l = Some x ->
  exists live, all_pids_ok bm live /\ forall l1 x1, <[l := new_cell x s d]> G !! l1 = Some x1 -> c_pid x1 ∈ live.
Proof.
  intros (live & A & Hl) L. exists live. split; [done|]. intros l1 x1 [[<- <-]|[_ L1]]%lookup_insert_Some; [|by eapply Hl].
  exact (Hl l x L).
Qed.

(** The frame of a hot or cooling page changes, with its swip. *)
Section resident.
Context w G (I : inv w G) w' l x b f f' (s : swip).
Context (L : G !! l = Some x) (Hx : c_swip x = HOT b \/ c_swip x = COOL b) (Ef : bfs (wbm w) !! b = Some f).
Context (Hbm : wbm w' = set_frame (wbm w) b f').
Context (Hswips : swips w' = <[l := raw_of s]> (swips w)).
Context (Hs : s = HOT b /\ state f' = STATE.HOT \/ s = COOL b /\ state f' = STATE.COOL).
Context (Hpid : fpid f' = fpid f) (Hhot : hot_data (page f') = hot_data (page f)).
Context (Hframe : frame_ok w' b f').
Context (Hwrite : forall c, c ∈ writes w' ->
  if decide (wc_bf c = b) then write_ok w' c f' else c ∈ writes w /\ (c ∈ events w' -> c ∈ events w)).
Context (Hkept : forall c, c ∈ writes w -> wc_bf c <> b -> c ∈ writes w').
Context (Hnodup : NoDup (map wc_bf (writes w'))).
Context (Hlen : length (coolings w') = length (coolings w)).
Context (Hqueue : forall i c b1, coolings w' !! i = Some c -> b1 ∈ cooling_queue c ->
  b1 = b \/ exists c0, coolings w !! i = Some c0 /\ b1 ∈ cooling_queue c0).
Context (Hbatch : freed_bfs_batch w' = []).

Lemma resident_inv : inv w' (<[l := new_cell x s (dt (page f'))]> G).
Proof.
  destruct (resident_hot _ _ _ _ _ I L Hx) as (Ha & f0 & E0 & U & Hl & (Hp & Hh & Hd) & _).
  rewrite Ef in E0. injection E0 as <-.
  assert (holds (wbm w) x b) as Hxb by (unfold holds; destruct Hx as [-> | ->]; done).
  apply (step_inv w G I w' _ l b (c_pid x)); rewrite ?Hbm; try done.
  - by eapply bm_ok_frame; [apply I|..].
  - apply new_cell_pids; [|done]. destruct (iv_pids _ _ I) as (live & A & Hlive). exists live. split; [|done].
    by eapply all_pids_same; [exact A|].
  - rewrite Hswips, (iv_swips _ _ I), fmap_insert. done.
  - intros b1 Hn. cbn. by rewrite lookup_insert_ne.
  - intros l1 Hn. by rewrite lookup_insert_ne.
  - intros x1. rewrite L. by intros [= <-].
  - by apply other_cells; [done..|].
  - intros x1. rewrite lookup_insert_eq. intros [= <-]. split; [done|]. destruct (iv_cell _ _ I _ _ L) as [Hv _]. split; [done|].
    assert (resident (set_frame (wbm w) b f') b (state f') (new_cell x s (dt (page f')))) as Hr.
    { split; [done|]. exists f'. cbn. rewrite lookup_insert_eq. split_and!; [done..|]. split; [cbn; congruence|]. split; [cbn; congruence|done]. }
    cbn [c_swip new_cell]. destruct Hs as [[-> E]|[-> E]]; by rewrite E in Hr.
  - intros f1. cbn. rewrite lookup_insert_eq. intros [= <-] _. split; [done|]. split; [congruence|].
    eexists. rewrite lookup_insert_eq. split; [done|]. unfold holds. cbn. destruct Hs as [[-> _]|[-> _]]; done.
  - intros c Hc. specialize (Hwrite c Hc). case_decide; [|done]. exists f'. cbn. by rewrite lookup_insert_eq.
  - rewrite Hlen. apply I.
  - intros i c b1 Hc Hb1. cbn. destruct (decide (b1 = b)) as [->|Hn]; [by rewrite lookup_insert_eq|rewrite lookup_insert_ne by done].
    destruct (Hqueue i c b1 Hc Hb1) as [->|(c0 & Hc0 & Hq)]; [by exists f|]. by eapply (iv_queue _ _ I).
  - rewrite (hot_count_same _ _ _ _ _ L). apply I.
  - intros x1 b1. rewrite L. intros [= <-] H1. by eapply holds_fun.
Qed.

End resident.

(** Writes and queues stay as they are. *)
Section quiet.
Context w G (I : inv w G) w' l x b f f' (s : swip).
Context (L : G !! l = Some x) (Hx : c_swip x = HOT b \/ c_swip x = COOL b) (Ef : bfs (wbm w) !! b = Some f).
Context (Ew : w' = set_swips (set_wbm w (set_frame (wbm w) b f')) (<[l := raw_of s]> (swips w))).
Context (Hs : s = HOT b /\ state f' = STATE.HOT \/ s = COOL b /\ state f' = STATE.COOL).
Context (Hpid : fpid f' = fpid f) (Hhot : hot_data (page f') = hot_data (page f)).
Context (Hframe : frame_ok w b f').
Context (Hwrite : forall c, write_ok w c f -> write_ok w c f').

Lemma resident_quiet_inv : inv w' (<[l := new_cell x s (dt (page f'))]> G).
Proof.
  eapply (resident_inv w G I w'); try done; rewrite ?Ew; try done.
  - destruct Hframe. by constructor.
  - intros c Hc. case_decide as Hb; [|done]. destruct (iv_write _ _ I c Hc) as (f1 & E1 & W). rewrite Hb, Ef in E1. injection E1 as <-.
    destruct (Hwrite c W). by constructor.
  - apply I.
  - intros i c b1 Hc Hb. right. eauto.
  - apply I.
Qed.

End quiet.

Lemma data_same G l x s : G !! l = Some x -> data (<[l := new_cell x s (c_data x)]> G) = data G.
Proof. intros L. unfold data. rewrite fmap_insert. cbn. apply insert_id. by rewrite lookup_fmap, L. Qed.

Lemma frame_ok_state w b f st : frame_ok w b f -> st <> STATE.LOADED -> frame_ok w b (set_state f st).
Proof. intros [F1 F2 F3 F4] Hs. by constructor. Qed.

Lemma write_ok_state w c f st : write_ok w c f -> st <> STATE.FREE -> write_ok w c (set_state f st).
Proof. intros [W1 W2 W3 W4 W5 W6 W7] Hs. by constructor. Qed.

(** A cooling page becomes hot again. *)
Lemma warm_inv w G l x b f :
  inv w G -> G !! l = Some x -> c_swip x = COOL b -> bfs (wbm w) !! b = Some f ->
  let w' := set_swips (set_wbm w (set_frame (wbm w) b (set_state f STATE.HOT))) (<[l := raw_of (HOT b)]> (swips w)) in
  inv w' (<[l := new_cell x (HOT b) (c_data x)]> G).
Proof.
  intros I L Hx Ef w'. destruct (resident_hot _ _ _ _ _ I L (or_intror Hx)) as (_ & f0 & E0 & U & _ & (_ & _ & Hd) & _).
  rewrite Ef in E0. injection E0 as <-. rewrite <- Hd. destruct (iv_owner _ _ I _ _ Ef U) as (F & _).
  apply (resident_quiet_inv w G I w' l x b f (set_state f STATE.HOT)); try done; [by right|by left|by apply frame_ok_state|].
  intros c W. by apply write_ok_state.
Qed.

(** An exclusive guard marks the page dirty. *)
Lemma modify_inv w G l x b f g :
  inv w G -> G !! l = Some x -> c_swip x = HOT b -> bfs (wbm w) !! b = Some f -> GSN (page f) + 1 < 2 ^ 64 ->
  exists w', modify_page w b g = Some w' /\ inv w' (<[l := new_cell x (HOT b) (g (c_data x))]> G) /\ swips w' = swips w.
Proof.
  intros I L Hx Ef Hg. destruct (resident_hot _ _ _ _ _ I L (or_introl Hx)) as (_ & f0 & E0 & U & _ & (_ & _ & Hd) & Hst).
  rewrite Ef in E0. injection E0 as <-. rewrite Hx in Hst. cbn in Hst. unfold modify_page, wframe. rewrite Ef. cbn [mbind option_bind].
  eexists. split; [done|]. split; [|done]. rewrite <- Hd. set (f' := set_page _ _).
  destruct (iv_owner _ _ I _ _ Ef U) as ([F1 F2 F3 F4] & _).
  assert (GSN (page f') = GSN (page f) + 1) as Eg by (cbn; apply wrap_small; unfold in_width; lia).
  apply (resident_quiet_inv w G I _ l x b f f' (HOT b)); try done; [by left| |by left| |].
  - unfold put_frame. cbn [raw_of]. rewrite insert_id; [by destruct w|]. rewrite (inv_swip _ _ _ _ I L), Hx. done.
  - constructor; rewrite ?Eg; [cbn; lia| |done|cbn; congruence]. intros _ Hdirty. unfold isDirty in Hdirty. rewrite Eg in Hdirty.
    cbn in Hdirty. apply negb_false_iff, Z.eqb_eq in Hdirty. lia.
  - intros c [W1 W2 W3 W4 W5 W6 W7]. constructor; rewrite ?Eg; try done; cbn; lia.
Qed.

(** * A page that is on the SSD *)

(** The frame [b], free or already holding the page, gets the page [pid]. *)
Section load.
Context w G (I : inv w G) l x pid (bm' : BufferManager) b f' (s : swip).
Context (L : G !! l = Some x) (Hx : c_swip x = EVICTED pid).
Context (B' : bm_ok bm') (El : elsewhere (wbm w) bm' b pid) (Ef' : bfs bm' !! b = Some f').
Context (Hb : forall f, bfs (wbm w) !! b = Some f -> used f -> holds (wbm w) x b).
Context (Halone : forall b1, holds (wbm w) x b1 -> b1 = b).
Context (Hf' : frame_has f' x) (Hclean : isWB f' = false /\ isDirty f' = false).
Context (Hgsn : 0 <= GSN (page f') < 2 ^ 64).
Context (Hssd : ssd (wbm w) !! pid = Some (page f') /\ magic (page f') = pid).
Context (Hcell : cell_ok bm' (new_cell x s (c_data x))) (Hholds : holds bm' (new_cell x s (c_data x)) b).

Lemma load_inv :
  inv (set_swips (set_wbm w bm') (<[l := raw_of s]> (swips w))) (<[l := new_cell x s (c_data x)]> G).
Proof.
  destruct El as [E1 E2 E3 E4 E5]. pose proof (iv_cell _ _ I _ _ L) as [Hv Hc]. rewrite Hx in Hc. destruct Hc as [Hp _].
  assert (forall c, c ∈ writes w -> wc_bf c <> b) as Hnw.
  { intros c Hc Hcb. destruct (iv_write _ _ I c Hc) as (f & Ef & W). rewrite Hcb in Ef.
    assert (state f = STATE.LOADED) as Hst.
    { specialize (Hb f Ef (wo_used _ _ _ W)). unfold holds in Hb. rewrite Hx in Hb. destruct Hb as (io & Eio & Eb).
      destruct (getPartition_ok (wbm w) pid (iv_bm _ _ I) ltac:(lia)) as (p & m & _ & _ & _ & Hio & Em).
      rewrite Eio in Em. destruct (Hio _ _ (eq_sym Em)) as [(_ & _ & _ & f1 & Ef1 & Hs1 & _) _]. congruence. }
    destruct (iv_owner _ _ I _ _ Ef (wo_used _ _ _ W)) as (F & _). pose proof (fo_loaded _ _ _ F Hst) as [H _].
    pose proof (wo_isWB _ _ _ W). congruence. }
  apply (step_inv w G I _ _ l b pid); cbn [wbm set_swips set_wbm swips coolings freed_bfs_batch]; try done.
  - apply new_cell_pids; [|done]. destruct (iv_pids _ _ I) as (live & A & Hlive). exists live. split; [|done].
    by eapply all_pids_same.
  - by rewrite (iv_swips _ _ I), fmap_insert.
  - intros q Hq. by rewrite E1.
  - intros l1 Hn. by rewrite lookup_insert_ne.
  - intros x1. rewrite L. by intros [= <-].
  - rewrite Hp. by apply other_cells.
  - intros x1. rewrite lookup_insert_eq. intros [= <-]. done.
  - intros f1 Ef1 U1. rewrite Ef' in Ef1. injection Ef1 as <-. destruct Hf' as [Hf1 Hf2]. split; [|split; [congruence|]].
    + destruct Hclean as [C1 C2]. pose proof C2 as C3. unfold isDirty in C2. apply negb_false_iff, Z.eqb_eq in C2.
      constructor; [lia| |congruence|done]. intros _ _. cbn. rewrite E1, Hf1, <- Hp. done.
    + eexists. by rewrite lookup_insert_eq.
  - intros c Hc. change (writes _) with (writes w) in Hc. rewrite decide_False by (by apply Hnw). done.
  - apply I.
  - rewrite (iv_coolings _ _ I). destruct E4 as [E4 _]. rewrite <- (length_map pid_fields (partitions bm')), E4. by rewrite length_map.
  - intros i c b1 Hc Hb1. destruct (decide (b1 = b)) as [->|Hn]; [by exists f'|]. rewrite E2 by done. by eapply (iv_queue _ _ I).
  - apply I.
  - rewrite E5, (hot_count_same _ _ _ _ _ L). apply I.
  - intros x1 b1. rewrite L. intros [= <-]. apply Halone.
Qed.

End load.

(** The page was read in for a call that jumped, or is read now. *)
Lemma fix_evicted w G l x pid r q recheck :
  inv w G -> G !! l = Some x -> c_swip x = EVICTED pid -> partitions (wbm w) !! r = Some q ->
  exists w' o s, fix_page w l r recheck = Some (w', o) /\ inv w' (<[l := new_cell x s (c_data x)]> G) /\
    match o with
    | Some bf => s = HOT bf
    | None => recheck = false \/ dram_free_list q = []
    end.
Proof.
  intros I L Hx Hq. unfold fix_page, tryFastResolveSwip, resolveSwip. rewrite (inv_swip _ _ _ _ I L), Hx. cbn [mbind option_bind].
  pose proof (iv_cell _ _ I _ _ L) as [Hv Hc]. rewrite Hx in Hc.
  destruct Hc as [Hp Hc]. cbn [raw_of]. destruct (evicted_tests pid ltac:(lia)) as (-> & -> & _ & ->).
  destruct (getPartition_ok (wbm w) pid (iv_bm _ _ I) ltac:(lia)) as (p & m & Ep & Ep' & R & Hio & Em). rewrite Ep'. cbn [mbind option_bind].
  pose proof (ht_lookup_repr _ _ R pid) as Hl. destruct (m !! pid) as [io|] eqn:Hm; rewrite Em in Hc.
  - (* read in by a call that jumped *)
    destruct Hl as (h & -> & Hf). rewrite Hf. cbn [mbind option_bind].
    destruct (ready_returns (wbm w) pid io p (iv_bm _ _ I) ltac:(lia) Em Ep')
      as (bm' & f & f' & -> & B' & Ha & Ef & Ef' & -> & Hfp & Hn & El & Hst). cbn [mbind option_bind].
    destruct Hc as (f0 & Ef0 & Hh). rewrite Ef in Ef0. injection Ef0 as <-. rewrite Ef'. cbn [mbind option_bind].
    eexists _, _, (HOT (io_bf io)). split; [done|]. split; [|done].
    assert (used f) as U by (unfold used; congruence). destruct (iv_owner _ _ I _ _ Ef U) as ([F1 F2 F3 F4] & _).
    destruct (F4 Hst) as [C1 C2]. destruct (F2 C1 C2) as [S1 S2].
    assert (holds (wbm w) x (io_bf io)) as Hxh by (unfold holds; rewrite Hx; eauto).
    apply (load_inv w G I l x pid bm' (io_bf io) (set_state f STATE.HOT) (HOT (io_bf io)));
      [done..|by intros b1 H1; eapply holds_fun|done|done|cbn; lia|rewrite <- Hfp; split; [exact S1|exact S2]| |done].
    split; [done|]. split; [done|]. by exists (set_state f STATE.HOT).
  - rewrite Hl. destruct Hc as (pg & Hpg & Hmg & Hh & Hg). destruct (tryPop q) as [[b q']|] eqn:Hpop.
    + assert (forall b1, ~ holds (wbm w) x b1) as Hnh by (intros b1; unfold holds; rewrite Hx, Em; by intros (? & ? & _)).
      assert (b ∈ free_frames (wbm w) -> forall f, bfs (wbm w) !! b = Some f -> used f -> holds (wbm w) x b) as Hfree.
      { intros Hfr f Ef U. destruct (bo_free _ (iv_bm _ _ I) b Hfr) as (_ & f1 & Ef1 & Hs1 & _). unfold used in U. congruence. }
      destruct recheck.
      * destruct (miss_returns (wbm w) (iv_bm _ _ I) pid pg r q q' b ltac:(lia) Em Hpg Hmg Hq Hpop)
           as (bm' & f' & -> & B' & Ha & Ef' & (keep & ->) & Hn & El & Hfr). cbn [mbind option_bind]. rewrite Ef'. cbn [mbind option_bind].
         eexists _, _, (HOT b). split; [done|]. split; [|done].
         eapply (load_inv w G I l x pid bm' b _ (HOT b)); try done; [by apply Hfree|by intros b1 H1; destruct (Hnh b1)|..].
         -- split; [done|]. unfold isDirty. cbn. by rewrite Z.eqb_refl.
         -- split; [done|]. split; [done|]. eexists. split; [exact Ef'|]. done.
      * destruct (miss_jumps (wbm w) (iv_bm _ _ I) pid pg r q q' b ltac:(lia) Em Hpg Hmg Hq Hpop)
           as (bm' & f' & -> & B' & Ha & Ef' & (keep & ->) & He' & El & Hfr). cbn [mbind option_bind].
         eexists _, _, (EVICTED pid). split; [done|]. split; [|by left].
         replace (set_wbm w bm') with (set_swips (set_wbm w bm') (<[l := raw_of (EVICTED pid)]> (swips w)));
           [|rewrite insert_id by (by rewrite (inv_swip _ _ _ _ I L), Hx); by destruct w].
         eapply (load_inv w G I l x pid bm' b _ (EVICTED pid)); try done; [by apply Hfree|by intros b1 H1; destruct (Hnh b1)|..].
         -- split; [done|]. unfold isDirty. cbn. by rewrite Z.eqb_refl.
         -- split; [done|]. cbn. split; [done|]. rewrite He'. cbn. eexists. split; [exact Ef'|]. done.
         -- cbn. by rewrite He'; eexists.
    + unfold resolve_miss. rewrite Hq. cbn [mbind option_bind]. rewrite Hpop. eexists _, _, (EVICTED pid). split; [done|].
      split; [|right; unfold tryPop in Hpop; by destruct (dram_free_list q)].
      replace (<[l := _]> G) with G; [by destruct w|]. symmetry. apply insert_id. rewrite L. destruct x; cbn in *; by subst.
Qed.

(** Fixing a page: no assertion fails, and the frame it gives is hot and has
    the data; a jump leaves the page where it was or in the table. *)
Lemma fix_page_inv w G l x r q recheck :
  inv w G -> G !! l = Some x -> partitions (wbm w) !! r = Some q ->
  exists w' o s, fix_page w l r recheck = Some (w', o) /\ inv w' (<[l := new_cell x s (c_data x)]> G) /\
    match o with
    | Some bf => s = HOT bf
    | None => recheck = false \/ dram_free_list q = []
    end.
Proof.
  intros I L Hq. destruct (c_swip x) as [b|b|pid] eqn:Hx; [..|by apply (fix_evicted w G l x pid r q)];
    unfold fix_page, tryFastResolveSwip, resolveSwip; rewrite (inv_swip _ _ _ _ I L), Hx; cbn [mbind option_bind].
  - destruct (resident_hot _ _ _ _ _ I L (or_introl Hx)) as (Ha & f & Ef & U & _ & _ & _). cbn [raw_of]. unfold frame_addr in Ha.
    destruct (hot_tests b ltac:(lia)) as (-> & _). unfold bfPtr. rewrite (proj2 (Z.eqb_neq b 0)) by lia. cbn [mbind option_bind].
    rewrite Ef. cbn [mbind option_bind]. unfold isFree. rewrite bool_decide_eq_false_2 by done. eexists _, _, (HOT b). split; [done|].
    rewrite insert_id by (by rewrite (inv_swip _ _ _ _ I L), Hx). split; [|done]. replace (<[l := _]> G) with G; [by destruct w|].
    symmetry. apply insert_id. rewrite L. destruct x; cbn in *; by subst.
  - destruct (resident_hot _ _ _ _ _ I L (or_intror Hx)) as (Ha & f & Ef & U & _ & _ & _). cbn [raw_of]. unfold frame_addr in Ha.
    destruct (cool_tests b ltac:(lia)) as (-> & -> & _ & -> & ->). rewrite (proj2 (Z.eqb_neq b 0)), Ef by lia. cbn [mbind option_bind].
    unfold isFree. rewrite bool_decide_eq_false_2 by done. cbn [mbind option_bind]. cbn [set_frame set_bfs bfs].
    rewrite lookup_insert_eq. cbn [mbind option_bind]. eexists _, _, (HOT b). split; [done|]. split; [|done].
    exact (warm_inv w G l x b f I L Hx Ef).
Qed.


(** * Freeing frames *)

(** A frame in use that is not in the table belongs to a hot or cooling page. *)
Lemma resident_owner w G b f :
  inv w G -> bfs (wbm w) !! b = Some f -> used f -> state f <> STATE.LOADED ->
  exists l x, G !! l = Some x /\ frame_has f x /\ (c_swip x = HOT b /\ state f = STATE.HOT \/ c_swip x = COOL b /\ state f = STATE.COOL).
Proof.
  intros I Ef U Hl. destruct (iv_owner _ _ I _ _ Ef U) as (_ & l & x & L & Hp & Hh). exists l, x. split; [done|].
  destruct (iv_cell _ _ I _ _ L) as [Hv Hc]. unfold holds in Hh. destruct (c_swip x) as [b'|b'|pid].
  1,2: subst b'; destruct Hc as (_ & f0 & E0 & Es & Hf); rewrite Ef in E0; injection E0 as <-; eauto.
  destruct Hh as (io & Eio & <-). destruct Hc as [-> _].
  destruct (getPartition_ok (wbm w) (c_pid x) (iv_bm _ _ I) ltac:(lia)) as (p & m & _ & _ & _ & Hio & Em).
  rewrite Eio in Em. destruct (Hio _ _ (eq_sym Em)) as [(_ & _ & _ & f1 & E1 & E2 & _) _]. congruence.
Qed.

(** No read is in flight for a page that is in memory. *)
Lemma no_entry w G l x b : inv w G -> G !! l = Some x -> c_swip x = HOT b \/ c_swip x = COOL b -> io_entry (wbm w) (c_pid x) = None.
Proof.
  intros I L Hx. destruct (io_entry (wbm w) (c_pid x)) as [io|] eqn:Eio; [|done]. exfalso.
  destruct (iv_cell _ _ I _ _ L) as [Hv _]. destruct (resident_hot _ _ _ _ _ I L Hx) as (_ & f & Ef & U & Hl & (Hp & _) & _).
  destruct (getPartition_ok (wbm w) (c_pid x) (iv_bm _ _ I) ltac:(lia)) as (p & m & _ & _ & _ & Hio & Em).
  rewrite Eio in Em. destruct (Hio _ _ (eq_sym Em)) as [(_ & _ & _ & f1 & E1 & E2 & E3) _].
  assert (io_bf io = b) as Eb by (eapply (owner_unique w G _ _ f1 f I); unfold used; congruence). congruence.
Qed.

(** The cell of an evicted or reclaimed page: its frame becomes free. *)
Section free.
Context w G (I : inv w G) l x b f f' (i : nat) (p p' : Partition) (hot : Z) (G' : gmap Z cell).
Context (L : G !! l = Some x) (Hx : c_swip x = HOT b \/ c_swip x = COOL b) (Ef : bfs (wbm w) !! b = Some f) (Hwb : isWB f = false).
Context (Hf' : state f' = STATE.FREE /\ isWB f' = false).
Context (Ep : partitions (wbm w) !! i = Some p) (Eio : io_ht p' = io_ht p) (El : dram_free_list p' = b :: dram_free_list p).

Let bm' : BufferManager := set_hot_pages (set_partition (set_frame (wbm w) b f') i p') hot.

Lemma free_bm : bm_ok bm'.
Proof.
  destruct (resident_hot _ _ _ _ _ I L Hx) as (Ha & f0 & E0 & U & Hl & _). rewrite Ef in E0. injection E0 as <-.
  assert (bm_ok (set_frame (wbm w) b f')) as B1 by (by eapply bm_ok_frame; [apply I|..]).
  assert (b ∉ free_frames (set_frame (wbm w) b f')) as Hb by (by eapply (used_not_free (wbm w)); [apply I|..]).
  pose proof (bm_ok_push (set_frame (wbm w) b f') i p b f' B1 Ep Ha ltac:(cbn; by rewrite lookup_insert_eq) (proj1 Hf') (proj2 Hf') Hb) as B2.
  assert (bm_ok (set_partition (set_partition (set_frame (wbm w) b f') i (set_free_list p (b :: dram_free_list p))) i p')) as B3.
  { apply (bm_ok_partition _ i (set_free_list p (b :: dram_free_list p))); [done| |done|done].
    cbn. apply list_lookup_insert_eq. by eapply lookup_lt_Some. }
  unfold set_partition in B3 at 1. cbn [partitions set_partition] in B3. rewrite list_insert_insert_eq in B3.
  destruct B3 as [B31 B32 B33 B34]. by constructor.
Qed.

Context (Hpids : exists live, all_pids_ok bm' live /\ forall l1 x, G' !! l1 = Some x -> c_pid x ∈ live).
Context (HG : forall l1, l1 <> l -> G' !! l1 = G !! l1).
Context (Hcell : forall x', G' !! l = Some x' -> c_pid x' = c_pid x /\ cell_ok bm' x').
Context (Hhot : hot = Z.of_nat (size (filter (fun kh : Z * bool => kh.2 = true) (c_hot <$> G')))).

Lemma free_inv : inv (set_swips (set_wbm w bm') ((raw_of ∘ c_swip) <$> G')) G'.
Proof.
  destruct (resident_hot _ _ _ _ _ I L Hx) as (Ha & f0 & E0 & U & Hl & (Hp & _) & _). rewrite Ef in E0. injection E0 as <-.
  assert (holds (wbm w) x b) as Hxb by (unfold holds; destruct Hx as [-> | ->]; done).
  apply (step_inv w G I _ G' l b (c_pid x)); cbn [wbm set_swips set_wbm swips coolings freed_bfs_batch]; try done.
  - exact free_bm.
  - intros b1 Hn. cbn. by rewrite lookup_insert_ne.
  - intros q _. exact (partition_entry (set_frame (wbm w) b f') i p p' q Ep Eio).
  - intros x1. rewrite L. by intros [= <-].
  - by apply other_cells.
  - intros f1. cbn. rewrite lookup_insert_eq. intros [= <-] U1. by destruct U1, Hf'.
  - intros c Hc. change (c ∈ writes w) in Hc. rewrite decide_False; [done|]. intros Hcb.
    destruct (iv_write _ _ I c Hc) as (f1 & E1 & W). rewrite Hcb, Ef in E1. injection E1 as <-.
    pose proof (wo_isWB _ _ _ W). congruence.
  - apply I.
  - rewrite (iv_coolings _ _ I). cbn. by rewrite length_insert.
  - intros j c b1 Hc Hb1. cbn. destruct (decide (b1 = b)) as [->|Hn]; [by rewrite lookup_insert_eq|rewrite lookup_insert_ne by done].
    by eapply (iv_queue _ _ I).
  - apply I.
  - intros x1 b1. rewrite L. intros [= <-] H1. by eapply holds_fun.
Qed.

End free.

(** * Creating and reclaiming pages *)

Definition hot_count (m : gmap Z bool) : nat := size (filter (fun kh : Z * bool => kh.2 = true) m).

Lemma hot_count_insert (m : gmap Z bool) l (h : bool) :
  m !! l = None -> hot_count (<[l := h]> m) = ((if h then 1 else 0) + hot_count m)%nat.
Proof.
  intros L. unfold hot_count. destruct h.
  - rewrite map_filter_insert_True, map_size_insert_None by (done || apply map_lookup_filter_None; by left). done.
  - by rewrite map_filter_insert_not' by (try done; by rewrite L).
Qed.

Lemma hot_count_delete (m : gmap Z bool) l (h : bool) :
  m !! l = Some h -> hot_count m = ((if h then 1 else 0) + hot_count (delete l m))%nat.
Proof. intros L. rewrite <- (insert_delete_id m l h L) at 1. apply hot_count_insert, lookup_delete_eq. Qed.

Lemma allocate_ok (bm : BufferManager) live r q b rest pid q1 hot :
  bm_ok bm -> all_pids_ok bm live -> partitions bm !! r = Some q -> dram_free_list q = b :: rest ->
  nextPID (ssd_gib bm) q = Some (pid, q1) ->
  exists bm' f, allocatePage bm r hot = Some (Returns bm' b) /\ bm_ok bm' /\ bfs bm !! b = Some f /\ state f = STATE.FREE /\ frame_addr b /\
    bfs bm' = <[b := mkFrame STATE.HOT 0 false (keep_in_memory f) pid
                      (mkPage 0 (dt_id (page f)) (magic (page f)) (hot_data (page f)) (dt (page f)))]> (bfs bm) /\
    (forall y, io_entry bm' y = io_entry bm y) /\ ssd bm' = ssd bm /\ length (partitions bm') = length (partitions bm) /\
    hot_pages bm' = (if hot then hot_pages bm + 1 else hot_pages bm) /\ pid ∉ live /\ 0 <= pid < 2 ^ 62.
Proof.
  intros B A Hr Ef En. destruct (nextPID_fresh bm live r q pid q1 A Hr En) as (Ok & Hn & Hp & Hid).
  destruct (count_bound _ _ _ _ A Hr) as [Hc1 Hc2]. pose proof (ap_ssd _ _ A) as Hg.
  destruct (pi_grid _ _ _ _ _ Ok pid ltac:(apply elem_of_cons; by left)) as [Hlt _]. destruct (pi_next _ _ _ _ _ Ok) as [Hnx _].
  assert (nextPID (ssd_gib bm) (set_free_list q rest) = Some (pid, set_free_list q1 rest)) as En'.
  { unfold nextPID in En |- *. cbn. destruct (freed_pids q); [|by injection En as <- <-].
    destruct (_ <=? _); [|done]. by injection En as <- <-. }
  assert (io_ht q1 = io_ht q) as Eh.
  { unfold nextPID in En. destruct (freed_pids q); [destruct (_ <=? _); [|done]|]; by injection En as <- <-. }
  destruct (pop_ok bm r q b (set_free_list q rest) B Hr ltac:(unfold tryPop; by rewrite Ef))
    as (B1 & Hb & _ & Ha & (f & Eb & Es & Ew) & _ & _).
  unfold allocatePage. rewrite Hr. cbn [mbind option_bind]. rewrite Ef, En'. cbn [mbind option_bind]. rewrite Eb. cbn [mbind option_bind].
  unfold isFree. rewrite bool_decide_eq_true_2, Hid, Nat.eqb_refl, Ew by done. cbn [negb orb]. eexists _, f. split; [done|].
  split; [|split_and!; try done; [|cbn; by rewrite length_insert|lia]].
  - pose proof (bm_ok_partition (set_partition bm r (set_free_list q rest)) r (set_free_list q rest) (set_free_list q1 rest) B1
      ltac:(cbn; apply list_lookup_insert_eq; by eapply lookup_lt_Some) Eh eq_refl) as B2.
    unfold set_partition in B2 at 1. cbn [partitions set_partition] in B2. rewrite list_insert_insert_eq in B2.
    assert (b ∉ free_frames (set_partition bm r (set_free_list q1 rest))) as Hb'.
    { intros H. apply Hb. unfold free_frames in *. cbn in *. by rewrite !list_fmap_insert in *. }
    destruct B2 as [B21 B22 B23 B24]. constructor; [done| |done|].
    + intros j p Hj. destruct (B22 j p Hj) as (m & R & Hm). exists m. split; [done|]. intros x io Hx.
      destruct (Hm x io Hx) as [(H1 & H2 & H3 & f1 & H4 & H5) H6]. split; [|done]. split_and!; try done. exists f1. cbn in H4 |- *.
      rewrite lookup_insert_ne; [done|]. intros E. rewrite <- E in H4. destruct H5. congruence.
    + intros y Hy. destruct (B24 y Hy) as (H1 & f1 & H2 & H3). split; [done|]. exists f1. cbn in H2 |- *.
      rewrite lookup_insert_ne; [done|]. intros <-. done.
  - intros y. exact (partition_entry bm r q (set_free_list q1 rest) y Hr Eh).
Qed.

Lemma new_page_inv w G l r q dtid keep d :
  inv w G -> G !! l = None -> partitions (wbm w) !! r = Some q -> is_Some (nextPID (ssd_gib (wbm w)) q) ->
  exists w' o, new_page w l r dtid keep d = Some (w', o) /\
    match o with
    | None => dram_free_list q = [] /\ w' = w
    | Some bf => exists pid, inv w' (<[l := mkCell (HOT bf) pid keep d]> G)
    end.
Proof.
  intros I L Hq [[pid q1] En]. destruct (dram_free_list q) as [|b rest] eqn:Ed.
  { unfold new_page, allocatePage. rewrite Hq. cbn [mbind option_bind]. rewrite Ed. cbn [mbind option_bind].
    eexists _, None. split; [done|]. split; [done|]. by destruct w. }
  destruct (iv_pids _ _ I) as (live & A & Hlive).
  destruct (allocate_ok (wbm w) live r q b rest pid q1 keep (iv_bm _ _ I) A Hq Ed En)
    as (bm' & f & Ea & B' & Ef & Es & Ha & Ebfs & Eio & Essd & Elen & Ehot & Hn & Hv).
  unfold new_page. rewrite Ea. cbn [mbind option_bind]. rewrite Ebfs, lookup_insert_eq. cbn [mbind option_bind].
  eexists _, (Some b). split; [done|]. exists pid. set (f' := mkFrame _ _ _ _ _ (set_dt _ _)). set (x := mkCell (HOT b) pid keep d).
  assert (GSN (page f') = 1) as Eg by done.
  assert (forall l1 x1, G !! l1 = Some x1 -> ~ holds (wbm w) x1 b) as Hnh.
  { intros l1 x1 L1 H1. destruct (holds_frame _ _ _ _ _ I L1 H1) as (f1 & E1 & U1 & _). unfold used in U1. congruence. }
  destruct (alloc_pids (wbm w) live r keep bm' b _ A Ea ltac:(rewrite Ebfs; by rewrite lookup_insert_eq)) as [A' _]. cbn [fpid] in A'.
  apply (step_inv w G I _ _ l b pid); cbn [wbm set_swips set_wbm swips coolings freed_bfs_batch]; try done.
  - eapply bm_ok_frame; [exact B'|rewrite Ebfs; by rewrite lookup_insert_eq|done|done].
  - exists (pid :: live). split; [by eapply all_pids_same|]. intros l1 x1 [[<- <-]|[_ L1]]%lookup_insert_Some; apply elem_of_cons; [by left|].
    right. by eapply Hlive.
  - by rewrite (iv_swips _ _ I), fmap_insert.
  - intros b1 Hb. cbn. rewrite lookup_insert_ne, Ebfs by done. by rewrite lookup_insert_ne.
  - intros y _. rewrite <- Eio. done.
  - intros y _. cbn. by rewrite Essd.
  - intros l1 Hl. by rewrite lookup_insert_ne.
  - intros x1. by rewrite L.
  - intros l1 x1 Hl L1. split; [|by apply (Hnh l1)]. intros <-. apply Hn. by eapply Hlive.
  - intros x1. rewrite lookup_insert_eq. intros [= <-]. split; [done|]. split; [done|]. split; [done|]. exists f'. cbn.
    by rewrite lookup_insert_eq.
  - intros f1. cbn. rewrite lookup_insert_eq. intros [= <-] _. split; [|split; [done|]].
    + constructor; [rewrite Eg; cbn; lia|done|done|done].
    + exists x. by rewrite lookup_insert_eq.
  - intros c Hc. change (c ∈ writes w) in Hc. rewrite decide_False; [done|]. intros Hcb.
    destruct (iv_write _ _ I c Hc) as (f1 & E1 & W). pose proof (wo_used _ _ _ W) as U1. unfold used in U1. congruence.
  - apply I.
  - cbn. rewrite Elen. apply I.
  - intros j c b1 Hc Hb1. cbn. destruct (decide (b1 = b)) as [->|Hb]; [by rewrite lookup_insert_eq|rewrite lookup_insert_ne by done].
    rewrite Ebfs, lookup_insert_ne by done. by eapply (iv_queue _ _ I).
  - apply I.
  - cbn. rewrite Ehot, (iv_hot _ _ I), fmap_insert. change (size (filter _ (c_hot <$> G))) with (hot_count (c_hot <$> G)).
    change (size (filter _ (<[l := c_hot x]> _))) with (hot_count (<[l := c_hot x]> (c_hot <$> G))).
    rewrite hot_count_insert by (by rewrite lookup_fmap, L). cbn [c_hot x]. destruct keep; lia.
  - intros x1 b1. by rewrite L.
Qed.

Lemma reclaim_page_inv w G l x b f :
  inv w G -> G !! l = Some x -> c_swip x = HOT b -> bfs (wbm w) !! b = Some f -> isWB f = false ->
  exists w', reclaim_page w l = Some w' /\ inv w' (delete l G).
Proof.
  intros I L Hx Ef Hwb. destruct (resident_hot _ _ _ _ _ I L (or_introl Hx)) as (Ha & f0 & E0 & U & Hl & (Hp & Hh & _) & _).
  rewrite Ef in E0. injection E0 as <-. destruct (iv_cell _ _ I _ _ L) as [Hv _].
  destruct (lookup_lt_is_Some_2 _ _ (partition_index (wbm w) (c_pid x) (iv_bm _ _ I) ltac:(lia))) as [p Ep].
  pose proof (hot_count_delete (c_hot <$> G) l (c_hot x) ltac:(by rewrite lookup_fmap, L)) as Hcount.
  pose proof (iv_hot _ _ I) as Hhot. change (size _) with (hot_count (c_hot <$> G)) in Hhot.
  destruct (iv_pids _ _ I) as (live & A & Hlive). destruct (list_elem_of_split _ _ (Hlive l x L)) as (l1 & l2 & El). rewrite El in A.
  assert (exists w', reclaim_page w l = Some w' /\ w' = set_swips (set_wbm w (set_hot_pages (set_partition (set_frame (wbm w) b
      (mkFrame STATE.FREE 0 false false 9999 (page f))) (getPartitionID (wbm w) (c_pid x))
      (set_free_list (freePage p (c_pid x)) (b :: dram_free_list p))) (Z.of_nat (hot_count (c_hot <$> delete l G)))))
      (delete l (swips w)) /\ exists bm', reclaimPage (wbm w) b = Some bm' /\ wbm w' = bm') as (w' & Er & -> & bm' & Er' & Ew).
  { unfold reclaim_page. rewrite (inv_swip _ _ _ _ I L), Hx. cbn [mbind option_bind raw_of]. unfold bfPtr, reclaimPage. rewrite Ef. cbn [mbind option_bind].
    rewrite Hp, Ep. cbn [mbind option_bind]. unfold isFree. rewrite bool_decide_eq_false_2 by done. rewrite Hh, Hhot, Hcount.
    assert ((if c_hot x then Z.of_nat ((if c_hot x then 1 else 0) + hot_count (delete l (c_hot <$> G))) - 1
             else Z.of_nat ((if c_hot x then 1 else 0) + hot_count (delete l (c_hot <$> G)))) = Z.of_nat (hot_count (c_hot <$> delete l G))) as ->
      by (rewrite fmap_delete; destruct (c_hot x); lia).
    rewrite (proj2 (Z.ltb_ge _ _)) by lia. rewrite andb_false_r, Hwb. unfold reset. rewrite Hwb. cbn [mbind option_bind].
    eexists. split; [done|]. split; [|by eexists]. unfold set_swips, set_wbm, set_hot_pages, set_partition, set_frame, set_bfs. cbn.
    by rewrite list_insert_insert_eq. }
  eexists. split; [exact Er|]. rewrite <- Hp in A.
  pose proof (reclaim_pids (wbm w) l1 l2 b f bm' A Ef Er') as A'. rewrite <- Ew in A'. cbn [wbm set_swips set_wbm] in A'.
  pose proof (free_inv w G I l x b f (mkFrame STATE.FREE 0 false false 9999 (page f)) (getPartitionID (wbm w) (c_pid x)) p
    (set_free_list (freePage p (c_pid x)) (b :: dram_free_list p)) (Z.of_nat (hot_count (c_hot <$> delete l G))) (delete l G)
    L (or_introl Hx) Ef Hwb ltac:(done) Ep eq_refl eq_refl) as Hinv.
  rewrite (fmap_delete (raw_of ∘ c_swip)), <- (iv_swips _ _ I) in Hinv. apply Hinv; [|by intros l3 Hl3; rewrite lookup_delete_ne| |done].
  - eexists. split; [exact A'|]. intros l3 x3 [Hl3 L3]%lookup_delete_Some. pose proof (Hlive _ _ L3) as Hin. rewrite El in Hin.
    apply elem_of_app. apply elem_of_app in Hin as [Hin|[Hin|Hin]%elem_of_cons]; [by left| |by right].
    exfalso. apply Hl3. symmetry. by eapply (iv_inj _ _ I).
  - intros x'. by rewrite lookup_delete_eq.
Qed.

End steps.
