(* ===== verification/ProviderSteps.v ===== *)
(** The page provider's steps keep the invariant of Paging and show the workers
    the same data. *)
From stdpp Require Import gmap.
From S2P Require Import Prelude BTreeNode Swip Partition BufferManager BufferManagerInv BufferManagerProps PageIDs PageProvider Paging PagingSteps.
Local Open Scope Z_scope.

Section steps.
Context {D : Type}.
Local Notation BufferFrame := (@BufferManager.BufferFrame D).
Local Notation Page := (@BufferManager.Page D).
Local Notation BufferManager := (@BufferManager.BufferManager D).
Local Notation world := (@PageProvider.world D).
Local Notation WriteCommand := (@PageProvider.WriteCommand D).
Local Notation cell := (@Paging.cell D).
Implicit Types (w : world) (f : BufferFrame) (b pid l : Z) (x : cell) (G : gmap Z cell).

(** The pages of the write buffer reach the SSD. *)
Lemma foldl_write (cs : list WriteCommand) (m : gmap Z Page) :
  (forall pid, pid ∉ map wc_pid cs -> foldl write_ssd m cs !! pid = m !! pid) /\
  (NoDup (map wc_pid cs) -> forall c, c ∈ cs -> foldl write_ssd m cs !! wc_pid c = Some (wc_page c)).
Proof.
  revert m; induction cs as [|c cs IH]; intros m; [split; [done|intros _ c H; by apply not_elem_of_nil in H]|].
  destruct (IH (write_ssd m c)) as [IH1 IH2]. cbn. split.
  - intros pid Hp. rewrite not_elem_of_cons in Hp. rewrite IH1 by tauto. unfold write_ssd. apply lookup_insert_ne. destruct Hp. congruence.
  - intros [Hc Hn]%list.NoDup_cons d [->|Hd]%elem_of_cons; [|by apply IH2].
    rewrite IH1 by done. apply lookup_insert_eq.
Qed.

Lemma pending_pids w G : inv w G -> NoDup (map wc_pid (pending w)).
Proof.
  intros I. assert (forall c, c ∈ pending w -> exists f, bfs (wbm w) !! wc_bf c = Some f /\ used f /\ wc_pid c = fpid f) as Hf.
  { intros c Hc. destruct (iv_write _ _ I c) as (f & Ef & W); [unfold writes; apply elem_of_app; by left|]. exists f. destruct W. done. }
  pose proof (iv_writes _ _ I) as Hn. unfold writes in Hn. rewrite map_app in Hn. apply list.NoDup_app in Hn as (Hn & _).
  induction (pending w) as [|c cs IH]; [constructor|]. cbn in *. apply list.NoDup_cons in Hn as [Hc Hn]. apply list.NoDup_cons.
  split; [|apply IH; [|done]; intros d Hd; apply Hf, elem_of_cons; by right].
  intros (d & Hdp & Hd)%list_elem_of_fmap. apply Hc. apply list_elem_of_fmap. exists d. split; [|done].
  destruct (Hf c ltac:(apply elem_of_cons; by left)) as (f1 & E1 & U1 & P1).
  destruct (Hf d ltac:(apply elem_of_cons; by right)) as (f2 & E2 & U2 & P2). eapply (owner_unique w G _ _ f1 f2); congruence.
Qed.

(** A frame that is not being written has its page at another place. *)
Lemma pending_elsewhere w G b f :
  inv w G -> bfs (wbm w) !! b = Some f -> used f -> isWB f = false -> fpid f ∉ map wc_pid (pending w).
Proof.
  intros I Ef U Hw (c & Ep & Hc)%list_elem_of_fmap.
  destruct (iv_write _ _ I c) as (f1 & E1 & W); [unfold writes; apply elem_of_app; by left|]. destruct W as [W1 W2 W3 _ _ _ _].
  assert (wc_bf c = b) as Eb by (eapply (owner_unique w G _ _ f1 f); congruence). congruence.
Qed.

Lemma submit_poll_inv w G : inv w G -> inv (submit_poll w) G.
Proof.
  intros I. destruct (foldl_write (pending w) (ssd (wbm w))) as [Fo Fi]. specialize (Fi (pending_pids w G I)).
  assert (writes (submit_poll w) ≡ₚ writes w) as Perm by (unfold writes; cbn; apply Permutation_app_comm).
  pose proof I as [V1 V2 V3 V4 V5 V6 V7 V8 V9 V10 V11 V12]. constructor; try done.
  - destruct V1. by constructor.
  - destruct V2 as (live & A & Hl). exists live. split; [|done]. by eapply all_pids_same.
  - intros l x L. destruct (V4 l x L) as [Hv Hc]. split; [done|]. destruct (c_swip x) as [b|b|pid] eqn:Hx; [done..|].
    destruct Hc as [-> Hc]. split; [done|]. change (io_entry (wbm (submit_poll w)) (c_pid x)) with (io_entry (wbm w) (c_pid x)).
    destruct (io_entry (wbm w) (c_pid x)) eqn:Eio; [done|]. cbn. rewrite Fo; [done|].
    intros (c & Ep & Hc')%list_elem_of_fmap. destruct (V7 c) as (f1 & E1 & [W1 W2 W3 _ _ _ _]); [unfold writes; apply elem_of_app; by left|].
    destruct (V6 _ _ E1 W1) as (_ & l1 & x1 & L1 & P1 & H1).
    assert (l1 = l) as -> by (eapply V5; [done..|congruence]). rewrite L in L1. injection L1 as <-.
    unfold holds in H1. rewrite Hx, Eio in H1. by destruct H1 as (? & ? & _).
  - intros b f Ef U. destruct (V6 b f Ef U) as ([F1 F2 F3 F4] & Ho). split; [|done].
    constructor; [done| |intros Hw; rewrite Perm; auto|done].
    intros Hw Hd. cbn. rewrite Fo; [auto|]. by eapply pending_elsewhere.
  - intros c Hc. rewrite Perm in Hc. destruct (V7 c Hc) as (f & Ef & W). exists f. split; [done|].
    pose proof W as [W1 W2 W3 W4 W5 W6 W7]. constructor; try done. intros He. cbn in He |- *. rewrite elem_of_app in He.
    assert (c ∈ pending w \/ c ∈ events w /\ c ∉ pending w) as [Hp|[He' Hp]].
    { destruct (decide (wc_bf c ∈ map wc_bf (pending w))) as [Hin|Hin]; [left|].
      - destruct He as [He|He]; [|done]. exfalso. pose proof V8 as Hn. unfold writes in Hn. rewrite map_app in Hn.
        apply list.NoDup_app in Hn as (_ & Hn & _). apply (Hn _ Hin). apply list_elem_of_fmap. by exists c.
      - right. assert (c ∉ pending w) as Hnp by (intros H; apply Hin; apply list_elem_of_fmap; by exists c). tauto. }
    + rewrite <- W3. by apply Fi.
    + rewrite Fo; [auto|]. intros (d & Ep & Hd)%list_elem_of_fmap.
      destruct (V7 d) as (f1 & E1 & [D1 D2 D3 _ _ _ _]); [unfold writes; apply elem_of_app; by left|].
      assert (wc_bf d = wc_bf c) as Eb by (eapply (owner_unique w G _ _ f1 f I); congruence).
      pose proof V8 as Hn. unfold writes in Hn. rewrite map_app in Hn. apply list.NoDup_app in Hn as (_ & Hn & _).
      apply (Hn (wc_bf d)); [apply list_elem_of_fmap; by exists d|]. rewrite Eb. apply list_elem_of_fmap. by exists c.
  - by rewrite Perm.
Qed.

(** * The queue *)

Lemma erase_inv w G p_i front bf rest c :
  inv w G -> coolings w !! p_i = Some c -> cooling_queue c = front ++ bf :: rest ->
  exists w', erase w p_i front rest = Some w' /\ inv w' G /\ queue_of w' p_i = front ++ rest /\ (p_i < length (coolings w'))%nat.
Proof.
  intros I Hc Eq. unfold erase. rewrite Hc. cbn [mbind option_bind]. eexists. split; [done|].
  pose proof (lookup_lt_Some _ _ _ Hc) as Hlt. split; [|split].
  - destruct I as [V1 V2 V3 V4 V5 V6 V7 V8 V9 V10 V11 V12]. constructor; try done.
    + intros b f Ef U. destruct (V6 b f Ef U) as ([F1 F2 F3 F4] & Ho). split; [by constructor|done].
    + intros d Hd. destruct (V7 d Hd) as (f & Ef & [W1 W2 W3 W4 W5 W6 W7]). exists f. split; [done|by constructor].
    + cbn. by rewrite length_insert.
    + intros j c1 b1 Hj Hb1. cbn in Hj. apply list_lookup_insert_Some in Hj as [(<- & <- & _)|[_ Hj]]; [|by eapply V10].
      cbn in Hb1. eapply V10; [exact Hc|]. rewrite Eq. rewrite elem_of_app in *. rewrite elem_of_cons. tauto.
  - unfold queue_of. cbn. by rewrite list_lookup_insert_eq.
  - cbn. by rewrite length_insert.
Qed.

(** * Cooling *)

(** What the data structures promise: the parent they find has the swip of the
    frame, and a page's swips are there. *)
Class Structures (findParent : world -> Z -> option Z) (children : world -> Z -> list Z) : Prop := {
  findParent_ok : forall w b l, findParent w b = Some l ->
    exists s, swips w !! l = Some s /\ isEVICTED s = false /\ bfPtrAsHot s = b;
  children_ok : forall w b l, l ∈ children w b -> is_Some (swips w !! l) }.

Section cooling.
Context (findParent : world -> Z -> option Z) (children : world -> Z -> list Z) (spare : Z -> bool).
Context `{!Structures findParent children}.

Lemma iterate_children_ok w G ls acc :
  inv w G -> Forall (fun l => is_Some (swips w !! l)) ls ->
  exists r, iterate_children w ls acc = Some r /\ match r with inl b => b <> 0 | inr _ => True end.
Proof.
  intros I. revert acc; induction ls as [|l ls IH]; intros acc Hls; [by eexists|]. apply list.Forall_cons in Hls as [[s Hs] Hls].
  cbn. rewrite Hs. cbn. destruct (isHOT s) eqn:Hh; [|by apply IH]. eexists. split; [done|].
  rewrite (iv_swips _ _ I), lookup_fmap in Hs. destruct (G !! l) as [x|] eqn:L; [|done]. injection Hs as <-. unfold compose in *.
  destruct (iv_cell _ _ I _ _ L) as [Hv Hc]. destruct (c_swip x) as [b|b|pid]; cbn [raw_of] in *.
  - destruct Hc as (Ha & _). unfold frame_addr, bfPtr in *. lia.
  - destruct Hc as (Ha & _). unfold frame_addr in Ha. destruct (cool_tests b ltac:(lia)) as (H & _). congruence.
  - destruct Hc as [-> _]. destruct (evicted_tests (c_pid x) ltac:(lia)) as (H & _). congruence.
Qed.

(** The cooling record of a page's partition. *)
Lemma cooling_of w G l x : inv w G -> G !! l = Some x -> exists c, coolings w !! getPartitionID (wbm w) (c_pid x) = Some c.
Proof.
  intros I L. destruct (iv_cell _ _ I _ _ L) as [Hv _]. apply lookup_lt_is_Some_2. rewrite (iv_coolings _ _ I).
  apply partition_index; [apply I|lia].
Qed.

Lemma try_cool_inv w G b f :
  inv w G -> bfs (wbm w) !! b = Some f ->
  exists a, try_cool findParent children spare w b = Some a /\
    match a with Cooled w' _ => shows w' G | _ => True end.
Proof.
  intros I Ef. unfold try_cool, wframe. rewrite Ef. cbn [mbind option_bind].
  destruct (is_cooling_candidate spare f) eqn:Hcand; cbn [negb]; [|by eexists].
  destruct (iterate_children_ok w G (children w b) true I) as (r & -> & Hr).
  { apply list.Forall_forall. intros l Hl. by eapply children_ok. }
  cbn [mbind option_bind]. destruct r as [child|[|]]; [rewrite (proj2 (Z.eqb_neq child 0)) by done; by eexists| |by eexists].
  destruct (findParent w b) as [l|] eqn:Hp; [|by eexists].
  destruct (findParent_ok _ _ _ Hp) as (s & Hs & He & Hb).
  destruct (parent_cell w G l s b f I Hs He Hb Ef) as (x & L & -> & Hf & U & Hst).
  unfold is_cooling_candidate in Hcand. rewrite !andb_true_iff, !negb_true_iff in Hcand.
  destruct Hcand as [[[_ Hwb] Hhot%bool_decide_eq_true_1] _]. destruct Hst as [[_ Hx]|[Hst _]]; [|congruence].
  unfold cool_bf. cbv zeta. destruct (cooling_of w G l x I L) as (c & Hc). destruct Hf as (Hfp & Hfh & Hfd). rewrite Hfp, Hc. cbn [mbind option_bind].
  rewrite Hs, Hx. cbn [mbind option_bind raw_of]. rewrite bool_decide_eq_true_2, Hwb, Z.eqb_refl by done. cbn [negb orb].
  eexists. split; [done|]. eexists. split.
  - eapply (resident_inv w G I _ l x b f (set_state f STATE.COOL) (COOL b)); try done; [by left|by right|..].
    + destruct (iv_owner _ _ I _ _ Ef U) as ([F1 F2 F3 F4] & _). by constructor.
    + intros d Hd. case_decide as Hdb; [|done]. change (d ∈ writes w) in Hd. destruct (iv_write _ _ I d Hd) as (f1 & E1 & [W1 W2 W3 W4 W5 W6 W7]).
      rewrite Hdb, Ef in E1. injection E1 as <-. congruence.
    + apply I.
    + cbn. by rewrite length_insert.
    + intros j c1 b1 Hj Hb1. cbn in Hj. apply list_lookup_insert_Some in Hj as [(<- & <- & _)|[Hn Hj]]; [|right; eauto].
      cbn in Hb1. apply elem_of_app in Hb1 as [Hb1|Hb1%list_elem_of_singleton]; [right; eauto|by left].
    + apply I.
  - cbn. rewrite Hfd. by apply data_same.
Qed.

End cooling.

(** * Writes *)

Section writes.
Context (cfg : config) (Hplace : out_of_place cfg = false) (Hmax : 2 <= batch_max_size cfg < 2 ^ 64).

(** A dirty page is copied into the write buffer. *)
Lemma start_write_inv w G b f :
  inv w G -> bfs (wbm w) !! b = Some f -> state f = STATE.COOL -> isWB f = false -> isDirty f = true -> full cfg w = false ->
  exists w', add cfg (put_frame w b (set_isWB f true)) b (fpid f) = Some w' /\ coolings w' = coolings w /\
    shows w' G.
Proof.
  intros I Ef Hst Hwb Hd Hfull.
  destruct (resident_owner w G b f I Ef ltac:(unfold used; congruence) ltac:(congruence)) as (l & x & L & (Hfp & Hfh & Hfd) & Hx).
  destruct Hx as [[_ Hbad]|[Hx _]]; [congruence|].
  unfold add, wframe, put_frame. cbn [wbm set_wbm set_frame set_bfs bfs]. rewrite lookup_insert_eq. cbn [mbind option_bind].
  change (full cfg (set_wbm w _)) with (full cfg w). change (pending_requests (set_wbm w _)) with (pending_requests w). rewrite Hfull.
  assert (pending_requests w < batch_max_size cfg - 2) as Hp.
  { unfold full in Hfull. apply Z.leb_gt in Hfull. rewrite wrap_small in Hfull by (unfold in_width; lia). lia. }
  rewrite (proj2 (Z.leb_le _ _)) by lia. cbn [negb orb]. eexists. split; [done|]. split; [done|].
  set (c := mkWrite b (fpid f) _). set (f' := set_page _ _).
  destruct (iv_owner _ _ I _ _ Ef ltac:(unfold used; congruence)) as ([F1 F2 F3 F4] & _).
  unfold isDirty in Hd. apply negb_true_iff, Z.eqb_neq in Hd.
  assert (forall d, d ∈ writes w -> wc_bf d <> b) as Hne.
  { intros d Hdw Hdb. destruct (iv_write _ _ I d Hdw) as (f1 & E1 & W). rewrite Hdb, Ef in E1. injection E1 as <-.
    pose proof (wo_isWB _ _ _ W). congruence. }
  eexists. split; [eapply (resident_inv w G I _ l x b f f' (COOL b)); try done|cbn; rewrite Hfd; by apply data_same]; try (by right); [..|by apply I].
  - cbn [wbm set_writes set_wbm]. unfold set_frame, set_bfs. cbn [bfs partitions ssd ssd_gib hot_pages]. by rewrite insert_insert_eq.
  - cbn. rewrite insert_id; [done|]. by rewrite (inv_swip _ _ _ _ I L), Hx.
  - constructor; [done|done| |cbn; congruence]. intros _. unfold writes. cbn. rewrite !map_app. apply elem_of_app. left.
    apply elem_of_app. right. by apply list_elem_of_singleton.
  - intros d Hdw. unfold writes in Hdw. cbn in Hdw. rewrite !elem_of_app, list_elem_of_singleton in Hdw. case_decide as Hdb.
    + assert (d = c) as ->.
      { destruct Hdw as [[Hdw| ->]|Hdw]; [| done |]; exfalso; eapply (Hne d); try done; unfold writes; apply elem_of_app; auto. }
      constructor; cbn; try done; [by unfold used; cbn; congruence|lia|].
      intros He. exfalso. apply (Hne c); [|done]. unfold writes. apply elem_of_app. by right.
    + split; [|done]. destruct Hdw as [[Hdw| ->]|Hdw]; [unfold writes; apply elem_of_app; by left|done|unfold writes; apply elem_of_app; by right].
  - intros d Hdw _. unfold writes in *. cbn. rewrite !elem_of_app in *. tauto.
  - pose proof (iv_writes _ _ I) as Hn. unfold writes in *. cbn. rewrite !map_app in *. cbn.
    assert ((map wc_bf (pending w) ++ [b]) ++ map wc_bf (events w) ≡ₚ b :: map wc_bf (pending w) ++ map wc_bf (events w)) as ->
      by (rewrite <- app_assoc; symmetry; apply Permutation_middle).
    apply list.NoDup_cons. split; [|done]. rewrite <- map_app. intros (d & Hdb & Hdw)%list_elem_of_fmap. by apply (Hne d).
  - intros j c1 b1 Hc Hb1. right. eauto.
Qed.

(** The next finished write is taken down: the page is clean unless it was
    changed meanwhile. *)
Lemma written_inv w G p_i :
  inv w G -> exists w', written cfg w p_i = Some w' /\ coolings w' = coolings w /\ pending w' = pending w /\
    events w' = tail (events w) /\ shows w' G.
Proof.
  intros I. unfold written. destruct (events w) as [|c es] eqn:Ees; [exists w; rewrite Ees; split_and!; [done..|by apply shows_refl]|].
  assert (c ∈ writes w) as Hc by (unfold writes; rewrite Ees; apply elem_of_app; right; apply elem_of_cons; by left).
  destruct (iv_write _ _ I c Hc) as (f & Ef & [W1 W2 W3 W4 W5 W6 W7]). unfold wframe. rewrite Ef. cbn [mbind option_bind].
  rewrite W2, (proj2 (Z.ltb_lt _ _)) by lia. cbn [negb orb]. rewrite Hplace. cbn [mbind option_bind].
  eexists. split; [done|]. split_and!; [done..|]. set (b := wc_bf c) in *. set (f' := mkFrame _ _ _ _ _ _).
  destruct (iv_owner _ _ I _ _ Ef W1) as ([F1 F2 F3 F4] & _).
  assert (state f <> STATE.LOADED) as Hl by (intros H; destruct (F4 H); congruence).
  destruct (resident_owner w G b f I Ef W1 Hl) as (l & x & L & (Hfp & Hfh & Hfd) & Hx).
  assert (ssd (wbm w) !! fpid f = Some (wc_page c)) as Hs by (apply W7; rewrite Ees; apply elem_of_cons; by left).
  pose proof (iv_writes _ _ I) as Hn. unfold writes in Hn. rewrite Ees, <- Permutation_middle in Hn. cbn [map] in Hn.
  apply list.NoDup_cons in Hn as [Hnc Hn]. fold b in Hnc.
  assert (forall d, d ∈ pending w ++ es -> wc_bf d <> b) as Hne.
  { intros d Hd Hdb. apply Hnc. apply list_elem_of_fmap. by exists d. }
  assert (exists s, raw_of s = raw_of (c_swip x) /\ (s = HOT b /\ state f' = STATE.HOT \/ s = COOL b /\ state f' = STATE.COOL)) as (s & Es & Hs').
  { destruct Hx as [[-> H]|[-> H]]; eexists; (split; [done|]); auto. }
  eexists. split; [eapply (resident_inv w G I _ l x b f f' s); try done|cbn; rewrite Hfd; by apply data_same].
  - destruct Hx as [[H _]|[H _]]; auto.
  - cbn. rewrite insert_id; [done|]. rewrite Es. by rewrite (inv_swip _ _ _ _ I L).
  - constructor; [cbn; lia| |done|done]. intros _ Hd. unfold isDirty in Hd. cbn in Hd |- *. apply negb_false_iff, Z.eqb_eq in Hd.
    rewrite <- (W6 Hd). done.
  - intros d Hd. change (writes _) with (pending w ++ es) in Hd. rewrite decide_False by (by apply Hne). unfold writes. rewrite Ees.
    rewrite elem_of_app in *. split; [|intros He; apply elem_of_cons; by right].
    destruct Hd as [Hd|Hd]; [by left|right; apply elem_of_cons; by right].
  - intros d Hd Hdb. change (writes _) with (pending w ++ es). unfold writes in Hd. rewrite Ees in Hd. rewrite !elem_of_app, elem_of_cons in *.
    destruct Hd as [Hd|[->|Hd]]; [by left|done|by right].
  - intros j c1 b1 Hc1 Hb1. right. eauto.
  - apply I.
Qed.

End writes.

(** * Eviction *)

Section provider.
Context (findParent : world -> Z -> option Z) (children : world -> Z -> list Z) `{!Structures findParent children}.
Context (cfg : config) (Hthreads : 1 <= worker_threads cfg).

Lemma evict_bf_inv w G b f p_i :
  inv w G -> bfs (wbm w) !! b = Some f -> state f = STATE.COOL -> isWB f = false -> isDirty f = false ->
  getPartitionID (wbm w) (fpid f) = p_i ->
  exists o, evict_bf findParent cfg w p_i b = Some o /\
    match o with
    | Some w' => coolings w' = coolings w /\ shows w' G
    | None => True
    end.
Proof.
  intros I Ef Hst Hwb Hcl Hpi. unfold evict_bf, wframe. rewrite Ef. cbn [mbind option_bind].
  destruct (findParent w b) as [l|] eqn:Hp; [|by eexists].
  destruct (findParent_ok _ _ _ Hp) as (s & Hs & He & Hb).
  destruct (parent_cell w G l s b f I Hs He Hb Ef) as (x & L & -> & Hf & U & Hcase).
  destruct Hcase as [[Hbad _]|[_ Hx]]; [congruence|]. rewrite Hs, Hwb, Hst, Hpi, Nat.eqb_refl. cbn [mbind option_bind negb orb].
  rewrite bool_decide_eq_true_2 by done. cbn [negb orb]. unfold reset. rewrite Hwb. cbn [mbind option_bind].
  destruct (iv_cell _ _ I _ _ L) as [Hv _]. pose proof Hf as (Hfp & Hfh & Hfd).
  destruct (lookup_lt_is_Some_2 _ _ (partition_index (wbm w) (c_pid x) (iv_bm _ _ I) ltac:(lia))) as [p Ep].
  rewrite <- Hfp, Hpi in Ep. cbn [freed_bfs_batch set_batch put_frame set_wbm set_swips]. rewrite (iv_batch _ _ I). cbn [length].
  rewrite (proj2 (Z.leb_le _ _)) by lia. unfold batch_push. cbn [wbm set_batch put_frame set_wbm set_swips set_frame set_bfs partitions].
  rewrite Ep. cbn [mbind option_bind freed_bfs_batch app]. eexists. split; [done|]. split; [done|].
  set (f' := mkFrame _ _ _ _ _ _). set (p' := set_free_list p _).
  exists (<[l := new_cell x (EVICTED (c_pid x)) (c_data x)]> G). split; [|by apply data_same].
  destruct (iv_owner _ _ I _ _ Ef U) as ([F1 F2 F3 F4] & _). destruct (F2 Hwb Hcl) as [S1 S2].
  pose proof (free_inv w G I l x b f f' p_i p p' (hot_pages (wbm w)) (<[l := new_cell x (EVICTED (c_pid x)) (c_data x)]> G)
    L (or_intror Hx) Ef Hwb ltac:(done) Ep eq_refl eq_refl) as Hinv.
  rewrite (fmap_insert (raw_of ∘ c_swip)), <- (iv_swips _ _ I) in Hinv. unfold evict. rewrite Hfp in *. rewrite <- (iv_batch _ _ I). apply Hinv.
  - apply new_cell_pids; [|done]. destruct (iv_pids _ _ I) as (live & A & Hlive). exists live. split; [|done].
    eapply all_pids_same; [exact A|]. exact (same_pids_partition (set_frame (wbm w) b f') p_i p p' Ep eq_refl).
  - intros l1 Hn. by rewrite lookup_insert_ne.
  - intros x'. rewrite lookup_insert_eq. intros [= <-]. split; [done|]. split; [done|]. cbn. split; [done|].
    replace (io_entry _ (c_pid x)) with (@None IOFrame).
    + exists (page f). split; [done|]. split; [done|]. split; [by split|lia].
    + symmetry. etransitivity; [exact (partition_entry (set_frame (wbm w) b f') p_i p p' (c_pid x) Ep eq_refl)|].
      exact (no_entry w G l x b I L (or_intror Hx)).
  - rewrite (hot_count_same _ _ _ _ _ L). apply I.
Qed.

Context (Hplace : out_of_place cfg = false) (Hmax : 2 <= batch_max_size cfg < 2 ^ 64).

(** What a visit ends in: the queue is the caller's. *)
Definition visit_ok w G (v : verdict) : Prop :=
  match v with Erase w' _ | Keep w' _ | Break w' => coolings w' = coolings w /\ shows w' G end.

Lemma visit_2_inv w G p_i b f :
  inv w G -> bfs (wbm w) !! b = Some f -> exists v, visit_2 findParent cfg w p_i b = Some v /\ visit_ok w G v.
Proof.
  intros I Ef. pose proof (shows_refl _ _ I) as Sh. unfold visit_2, wframe. rewrite Ef. cbn [mbind option_bind].
  destruct (decide (state f = STATE.COOL)) as [Hst|Hst]; [rewrite bool_decide_eq_true_2 by done|rewrite bool_decide_eq_false_2 by done; by eexists].
  destruct (Nat.eqb_spec (getPartitionID (wbm w) (fpid f)) p_i) as [Hpi|Hpi]; [|by eexists]. cbn [negb orb].
  destruct (isWB f) eqn:Hwb; [by eexists|].
  destruct (resident_owner w G b f I Ef ltac:(unfold used; congruence) ltac:(congruence)) as (l & x & L & (Hfp & _) & _).
  destruct (iv_cell _ _ I _ _ L) as [Hv _].
  destruct (lookup_lt_is_Some_2 _ _ (partition_index (wbm w) (c_pid x) (iv_bm _ _ I) ltac:(lia))) as [p Ep].
  rewrite <- Hfp, Hpi in Ep. rewrite Ep. cbn [mbind option_bind]. destruct (ht_lookup (io_ht p) (fpid f)); [by eexists|].
  destruct (isDirty f) eqn:Hd.
  - destruct (full cfg w) eqn:Hfull; [by eexists|]. rewrite Hplace. cbn [mbind option_bind].
    destruct (start_write_inv cfg Hmax w G b f I Ef Hst Hwb Hd Hfull) as (w' & Ea & Hc & Hs).
    change (getPartitionID (wbm (put_frame w b (set_isWB f true))) (fpid f)) with (getPartitionID (wbm w) (fpid f)).
    rewrite Hpi, Nat.eqb_refl. cbn [negb].
    replace (set_wbm _ (set_partition _ p_i p)) with (put_frame w b (set_isWB f true)).
    + rewrite Ea. cbn [mbind option_bind]. by eexists.
    + unfold put_frame, set_partition, set_wbm. cbn. by rewrite list_insert_id.
  - destruct (evict_bf_inv w G b f p_i I Ef Hst Hwb Hd Hpi) as ([w'|] & -> & H); cbn [mbind option_bind of_evict]; by eexists.
Qed.

Lemma visit_3_inv w G p_i b f :
  inv w G -> bfs (wbm w) !! b = Some f ->
  exists v, visit_3 findParent cfg w p_i b = Some v /\ visit_ok w G v.
Proof.
  intros I Ef. pose proof (shows_refl _ _ I) as Sh. unfold visit_3, wframe. rewrite Ef. cbn [mbind option_bind].
  destruct (decide (state f = STATE.COOL)) as [Hst|Hst]; [rewrite bool_decide_eq_true_2 by done|rewrite bool_decide_eq_false_2 by done; by eexists].
  destruct (Nat.eqb_spec (getPartitionID (wbm w) (fpid f)) p_i) as [Hpi|Hpi]; [|by eexists]. cbn [negb orb].
  destruct (isWB f) eqn:Hwb; [by eexists|]. destruct (isDirty f) eqn:Hd; [by eexists|]. cbn [negb andb].
  destruct (evict_bf_inv w G b f p_i I Ef Hst Hwb Hd Hpi) as ([w'|] & -> & H); cbn [mbind option_bind of_evict]; by eexists.
Qed.

End provider.
End steps.
