(* ===== verification/PagingProps.v ===== *)
(** Paging is transparent: whatever workers and page provider do, in whatever
    order, the workers see the data they wrote. *)
From stdpp Require Import gmap.
From S2P Require Import Prelude BTreeNode Swip Partition BufferManager BufferManagerInv BufferManagerProps PageIDs PageProvider Paging PagingSteps ProviderSteps.
Local Open Scope Z_scope.

Section props.
Context {D : Type}.
Local Notation BufferFrame := (@BufferManager.BufferFrame D).
Local Notation Page := (@BufferManager.Page D).
Local Notation BufferManager := (@BufferManager.BufferManager D).
Local Notation world := (@PageProvider.world D).
Local Notation cell := (@Paging.cell D).
Implicit Types (w : world) (f : BufferFrame) (b pid l : Z) (x : cell) (G : gmap Z cell) (m : gmap Z D).

Context (findParent : world -> Z -> option Z) (children : world -> Z -> list Z) (spare : Z -> bool) (cfg : config).

(** * Histories *)

(** The steps of the workers and of the provider; a page is named by the address
    of its swip, an entry of a queue by its position. *)
Inductive op :=
| Fix (l : Z) (r : nat) (recheck : bool)
| Modify (l : Z) (g : D -> D)
| New (l : Z) (r : nat) (dtid : Z) (keep : bool) (d : D)
| Reclaim (l : Z)
| Cool (b : Z)
| Visit2 (p_i n : nat)
| Visit3 (p_i n : nat)
| Poll
| Written (p_i : nat).

(** A visit and the erasure it asks for. *)
Definition visit_at (visit : world -> nat -> Z -> option verdict) w (p_i n : nat) : option world :=
  bf ← queue_of w p_i !! n;
  v ← visit w p_i bf;
  match v with
  | Erase w' _ => erase w' p_i (take n (queue_of w p_i)) (drop (S n) (queue_of w p_i))
  | Keep w' _ | Break w' => Some w'
  end.

Definition quietly (r : option world) : option (world * option Z) := w ← r; Some (w, None).

Definition exec w (o : op) : option (world * option Z) :=
  match o with
  | Fix l r recheck => fix_page w l r recheck
  | Modify l g => s ← swips w !! l; quietly (modify_page w (bfPtr s) g)
  | New l r dtid keep d => new_page w l r dtid keep d
  | Reclaim l => quietly (reclaim_page w l)
  | Cool b =>
      a ← try_cool findParent children spare w b;
      Some (match a with Cooled w' _ => w' | _ => w end, None)
  | Visit2 p_i n => quietly (visit_at (visit_2 findParent cfg) w p_i n)
  | Visit3 p_i n => quietly (visit_at (visit_3 findParent cfg) w p_i n)
  | Poll => Some (submit_poll w, None)
  | Written p_i => quietly (written cfg w p_i)
  end.

(** What a worker may do: a page is changed or reclaimed while its swip is hot,
    a page that is being written is not reclaimed, a change counter does not
    wrap around, and there is room on the SSD. *)
Definition hot_page w l f : Prop := exists s, swips w !! l = Some s /\ isHOT s = true /\ wframe w (bfPtr s) = Some f.

Definition allowed w (o : op) : Prop :=
  match o with
  | Fix l r _ => is_Some (swips w !! l) /\ is_Some (partitions (wbm w) !! r)
  | Modify l _ => exists f, hot_page w l f /\ GSN (page f) + 1 < 2 ^ 64
  | New l r _ _ _ => swips w !! l = None /\ exists q, partitions (wbm w) !! r = Some q /\ is_Some (nextPID (ssd_gib (wbm w)) q)
  | Reclaim l => exists f, hot_page w l f /\ isWB f = false
  | Cool b => is_Some (wframe w b)
  | Visit2 p_i n | Visit3 p_i n => is_Some (queue_of w p_i !! n)
  | Poll | Written _ => True
  end.

(** On the data: only the workers' changes count. *)
Definition effect m (o : op) (r : option Z) : gmap Z D :=
  match o with
  | Modify l g => alter g l m
  | New l _ _ _ d => match r with Some _ => <[l := d]> m | None => m end
  | Reclaim l => delete l m
  | _ => m
  end.

Inductive history w0 : world -> gmap Z D -> Prop :=
| h_start : history w0 w0 ∅
| h_step w m o w' r :
    history w0 w m -> allowed w o -> exec w o = Some (w', r) -> history w0 w' (effect m o r).

(** A world in which no page exists yet. *)
Record started w0 : Prop := Started {
  st_bm : bm_ok (wbm w0);
  st_pids : all_pids_ok (wbm w0) [];
  st_free : forall b f, bfs (wbm w0) !! b = Some f -> state f = STATE.FREE;
  st_swips : swips w0 = ∅;
  st_writes : pending w0 = [] /\ events w0 = [];
  st_batch : freed_bfs_batch w0 = [];
  st_coolings : length (coolings w0) = length (partitions (wbm w0));
  st_queue : forall i c, coolings w0 !! i = Some c -> cooling_queue c = [];
  st_hot : hot_pages (wbm w0) = 0 }.

Lemma started_inv w0 : started w0 -> inv w0 ∅.
Proof.
  intros [S1 S2 S3 S4 [S5 S6] S7 S8 S9 S10]. constructor; try done.
  - exists []. split; [done|]. intros l x. by rewrite lookup_empty.
  - intros b f Ef U. by destruct U; apply (S3 b).
  - intros c. unfold writes. rewrite S5, S6. intros H. by apply not_elem_of_nil in H.
  - unfold writes. rewrite S5, S6. constructor.
  - intros i c b Hc. rewrite (S9 _ _ Hc). intros H. by apply not_elem_of_nil in H.
Qed.

Context `{!Structures findParent children}.
Context (Hthreads : 1 <= worker_threads cfg) (Hplace : out_of_place cfg = false) (Hmax : 2 <= batch_max_size cfg < 2 ^ 64).

(** * One step *)

Lemma hot_cell w G l f :
  inv w G -> hot_page w l f -> exists x b, G !! l = Some x /\ c_swip x = HOT b /\ bfs (wbm w) !! b = Some f /\ swips w !! l = Some b.
Proof.
  intros I (s & Hs & Hh & Ef). pose proof Hs as Hs'. rewrite (iv_swips _ _ I), lookup_fmap in Hs'.
  destruct (G !! l) as [x|] eqn:L; [|done]. injection Hs' as <-. unfold compose in *.
  destruct (iv_cell _ _ I _ _ L) as [Hv Hc]. destruct (c_swip x) as [b|b|pid] eqn:Hx; cbn [raw_of] in *.
  - exists x, b. done.
  - destruct Hc as (Ha & _). unfold frame_addr in Ha. destruct (cool_tests b ltac:(lia)) as (H & _). congruence.
  - destruct Hc as [-> _]. destruct (evicted_tests (c_pid x) ltac:(lia)) as (H & _). congruence.
Qed.

Lemma swip_cell w G l s : inv w G -> swips w !! l = Some s -> exists x, G !! l = Some x.
Proof. intros I Hs. rewrite (iv_swips _ _ I), lookup_fmap in Hs. destruct (G !! l) as [x|]; [by exists x|done]. Qed.

Lemma visit_at_inv (visit : world -> nat -> Z -> option verdict) w G p_i n bf :
  inv w G -> queue_of w p_i !! n = Some bf ->
  (forall f, bfs (wbm w) !! bf = Some f -> exists v, visit w p_i bf = Some v /\ visit_ok w G v) ->
  exists w', visit_at visit w p_i n = Some w' /\ shows w' G.
Proof.
  intros I Hn Hv. unfold visit_at. rewrite Hn. cbn [mbind option_bind].
  unfold queue_of in Hn. destruct (coolings w !! p_i) as [c|] eqn:Hc; [|done]. cbn [fmap option_fmap option_map default] in Hn.
  destruct (iv_queue _ _ I p_i c bf Hc ltac:(by eapply list_elem_of_lookup_2)) as [f Ef].
  destruct (Hv f Ef) as (v & -> & Hok). cbn [mbind option_bind].
  assert (queue_of w p_i = take n (cooling_queue c) ++ bf :: drop (S n) (cooling_queue c)) as Eq.
  { unfold queue_of. rewrite Hc. cbn. symmetry. by apply take_drop_middle. }
  destruct v as [w'|w'|w']; [|by eexists; split; [|apply Hok]..]. destruct Hok as [Ec (G' & I' & Ed)]. rewrite <- Ec in Hc.
  destruct (erase_inv w' G' p_i (take n (cooling_queue c)) bf (drop (S n) (cooling_queue c)) c I' Hc
    ltac:(symmetry; by apply take_drop_middle)) as (w2 & Ew & I2 & _).
  unfold queue_of. rewrite <- Ec, Hc. cbn. rewrite Ew. eexists. split; [done|]. by exists G'.
Qed.

(** Every step that is allowed succeeds, keeps the invariant and has its effect;
    what a worker gets is a hot frame with the data of its page. *)
Lemma exec_inv w G o :
  inv w G -> allowed w o ->
  exists w' r G', exec w o = Some (w', r) /\ inv w' G' /\ data G' = effect (data G) o r /\
    match o with
    | Fix l i recheck =>
        match r with
        | Some bf => exists f, wframe w' bf = Some f /\ state f = STATE.HOT /\ data G !! l = Some (dt (page f))
        | None => recheck = false \/ exists q, partitions (wbm w) !! i = Some q /\ dram_free_list q = []
        end
    | _ => True
    end.
Proof.
  intros I Ha. destruct o as [l r recheck|l g|l r dtid keep d|l|b|p_i n|p_i n| |p_i]; cbn [allowed exec effect] in *.
  - destruct Ha as [[s Hs] [q Hq]]. destruct (swip_cell _ _ _ _ I Hs) as [x L].
    destruct (fix_page_inv w G l x r q recheck I L Hq) as (w' & o & s' & E & I' & Ho). eexists w', o, _. split; [done|]. split; [done|].
    split; [by apply data_same|]. destruct o as [bf|]; [|destruct Ho; [by left|right; eauto]]. subst s'.
    destruct (resident_hot _ _ l _ bf I' (lookup_insert_eq _ _ _) (or_introl eq_refl)) as (_ & f & Ef & _ & _ & (_ & _ & Hd) & Hst).
    exists f. split; [done|]. split; [done|]. unfold data. rewrite lookup_fmap, L. cbn in *. by rewrite Hd.
  - destruct Ha as (f & Hh & Hg). destruct (hot_cell _ _ _ _ I Hh) as (x & b & L & Hx & Ef & Hs). rewrite Hs. cbn [mbind option_bind].
    destruct (modify_inv w G l x b f g I L Hx Ef Hg) as (w' & E & I' & _). unfold bfPtr. rewrite E. eexists _, _, _. split; [done|]. split; [done|].
    split; [|done]. unfold data. rewrite fmap_insert. cbn. apply map_eq. intros l1. destruct (decide (l1 = l)) as [->|Hn].
    + by rewrite lookup_insert_eq, lookup_alter_eq, lookup_fmap, L.
    + by rewrite lookup_insert_ne, lookup_alter_ne by done.
  - destruct Ha as (Hs & q & Hq & Hpid). assert (G !! l = None) as L.
    { rewrite (iv_swips _ _ I), lookup_fmap in Hs. by destruct (G !! l). }
    destruct (new_page_inv w G l r q dtid keep d I L Hq Hpid) as (w' & [bf|] & E & H).
    + destruct H as (pid & I'). eexists _, _, _. split; [done|]. split; [done|]. split; [|done]. unfold data. by rewrite fmap_insert.
    + destruct H as (_ & ->). by eexists _, _, G.
  - destruct Ha as (f & Hh & Hw). destruct (hot_cell _ _ _ _ I Hh) as (x & b & L & Hx & Ef & Hs).
    destruct (reclaim_page_inv w G l x b f I L Hx Ef Hw) as (w' & -> & I'). eexists _, _, _. split; [done|]. split; [done|].
    split; [|done]. unfold data. by rewrite fmap_delete.
  - destruct Ha as [f Ef]. destruct (try_cool_inv findParent children spare w G b f I Ef) as (a & -> & Hc). cbn [mbind option_bind].
    destruct a as [| | |w' i]; [by eexists _, _, G..|]. destruct Hc as (G' & I' & Ed). by eexists _, _, G'.
  - destruct Ha as [bf Hb]. destruct (visit_at_inv (visit_2 findParent cfg) w G p_i n bf I Hb) as (w' & -> & G' & I' & Ed).
    { intros f Ef. by eapply visit_2_inv. } by eexists _, _, G'.
  - destruct Ha as [bf Hb]. destruct (visit_at_inv (visit_3 findParent cfg) w G p_i n bf I Hb) as (w' & -> & G' & I' & Ed).
    { intros f Ef. by eapply visit_3_inv. } by eexists _, _, G'.
  - eexists _, _, G. split; [done|]. split; [by apply submit_poll_inv|done].
  - destruct (written_inv cfg Hplace w G p_i I) as (w' & -> & _ & _ & _ & G' & I' & Ed). by eexists _, _, G'.
Qed.

Lemma history_inv w0 w m : started w0 -> history w0 w m -> exists G, inv w G /\ data G = m.
Proof.
  intros S. induction 1 as [|w m o w' r _ (G & I & <-) Ha E]; [exists ∅; split; [by apply started_inv|apply fmap_empty]|].
  destruct (exec_inv w G o I Ha) as (w2 & r2 & G' & E2 & I' & Ed & _). rewrite E in E2. injection E2 as <- <-. by exists G'.
Qed.

(** * One round of the provider is such a history *)

(** The data structures answer for every hot page, which is how it is when no
    worker holds a latch: [findParent] does not jump. *)
Definition answered w0 : Prop :=
  forall w m b f, history w0 w m -> wframe w b = Some f -> state f = STATE.HOT -> is_Some (findParent w b).

(** Pages point to pages of smaller rank: they form trees of bounded depth. *)
Definition ranked w0 (rank : world -> Z -> nat) (depth : nat) : Prop :=
  forall w m b, history w0 w m -> (rank w b <= depth)%nat /\
    forall l s, l ∈ children w b -> swips w !! l = Some s -> isHOT s = true -> (rank w (bfPtr s) < rank w b)%nat.

Section round.
Context w0 (S0 : started w0).

Lemma history_step w m o :
  history w0 w m -> allowed w o -> exists w' r, exec w o = Some (w', r) /\ history w0 w' (effect m o r).
Proof.
  intros H Ha. destruct (history_inv w0 w m S0 H) as (G & I & _). destruct (exec_inv w G o I Ha) as (w' & r & _ & E & _).
  exists w', r. split; [done|]. by eapply h_step.
Qed.

Lemma iterate_children_hot w ls acc b :
  iterate_children w ls acc = Some (inl b) -> exists l s, l ∈ ls /\ swips w !! l = Some s /\ isHOT s = true /\ bfPtr s = b.
Proof.
  revert acc; induction ls as [|l ls IH]; intros acc; [done|]. cbn. destruct (swips w !! l) as [s|] eqn:Hs; [|done]. cbn.
  destruct (isHOT s) eqn:Hh.
  - intros [= <-]. exists l, s. split_and!; try done. apply elem_of_cons. by left.
  - intros H. destruct (IH _ H) as (l1 & s1 & Hl & H1). exists l1, s1. split; [apply elem_of_cons; by right|done].
Qed.

Lemma hot_swip_frame w G l s : inv w G -> swips w !! l = Some s -> isHOT s = true -> is_Some (wframe w (bfPtr s)).
Proof.
  intros I Hs Hh. rewrite (iv_swips _ _ I), lookup_fmap in Hs. destruct (G !! l) as [x|] eqn:L; [|done]. injection Hs as <-.
  unfold compose in *. destruct (iv_cell _ _ I _ _ L) as [Hv Hc]. destruct (c_swip x) as [b|b|pid]; cbn [raw_of] in *.
  - destruct Hc as (_ & f & Ef & _). by exists f.
  - destruct Hc as (Ha & _). unfold frame_addr in Ha. destruct (cool_tests b ltac:(lia)) as (H & _). congruence.
  - destruct Hc as [-> _]. destruct (evicted_tests (c_pid x) ltac:(lia)) as (H & _). congruence.
Qed.

(** The frames that phase 1 can still cool. *)
Definition hot_frames w : nat := size (filter (fun bf : Z * BufferFrame => state bf.2 = STATE.HOT) (bfs (wbm w))).

Lemma hot_frames_bound w : (hot_frames w <= size (bfs (wbm w)))%nat.
Proof. apply map_subseteq_size, map_filter_subseteq. Qed.

(** What an attempt leaves for the loop. *)
Lemma try_cool_facts w G b a :
  inv w G -> try_cool findParent children spare w b = Some a ->
  match a with
  | Repick => True
  | Jump => exists f, wframe w b = Some f /\ state f = STATE.HOT /\ findParent w b = None
  | Child c => is_Some (wframe w c) /\ exists l s, l ∈ children w b /\ swips w !! l = Some s /\ isHOT s = true /\ bfPtr s = c
  | Cooled w' i => (forall y, is_Some (wframe w y) -> is_Some (wframe w' y)) /\
      length (coolings w') = length (coolings w) /\ (i < length (coolings w))%nat /\ hot_frames w = S (hot_frames w')
  end.
Proof.
  intros I. unfold try_cool. destruct (wframe w b) as [f|] eqn:Ef; [|done]. cbn [mbind option_bind].
  destruct (is_cooling_candidate spare f) eqn:Ec; cbn [negb]; [|by intros [= <-]].
  assert (state f = STATE.HOT) as Hhot.
  { unfold is_cooling_candidate in Ec. rewrite !andb_true_iff in Ec. destruct Ec as [[_ H] _]. by apply bool_decide_eq_true in H. }
  destruct (iterate_children w (children w b) true) as [[c|[]]|] eqn:Ei; [|..|done]; cbn [mbind option_bind].
  - destruct (c =? 0); [done|]. intros [= <-]. destruct (iterate_children_hot _ _ _ _ Ei) as (l & s & Hl & Hs & Hh & <-).
    split; [by eapply hot_swip_frame|by exists l, s].
  - destruct (findParent w b) as [l|] eqn:El; [|intros [= <-]; by exists f]. unfold cool_bf. cbv zeta.
    destruct (coolings w !! _) as [c|] eqn:Hc; [|done]. cbn [mbind option_bind]. destruct (swips w !! l); [|done]. cbn [mbind option_bind].
    destruct (_ || _); [done|]. intros [= <-]. cbn. rewrite length_insert. split_and!; [|done|by eapply lookup_lt_Some|].
    + intros y Hy. unfold wframe in *. cbn in *. destruct (decide (y = b)) as [->|]; [by rewrite lookup_insert_eq|by rewrite lookup_insert_ne].
    + unfold hot_frames. cbn. rewrite map_filter_insert_False by done. rewrite map_filter_delete.
      rewrite map_size_delete_Some; [|exists f; by apply map_lookup_filter_Some].
      assert (size (filter (fun bf : Z * BufferFrame => state bf.2 = STATE.HOT) (bfs (wbm w))) <> 0)%nat; [|lia].
      intros H%map_size_empty_inv. apply map_filter_empty_not_lookup with (i := b) (x := f) in H; [done|done].
  - by intros [= <-].
Qed.

Lemma partition_at w G i : inv w G -> (i < length (coolings w))%nat -> exists p c, partitions (wbm w) !! i = Some p /\ coolings w !! i = Some c.
Proof.
  intros I Hi. destruct (lookup_lt_is_Some_2 _ _ Hi) as [c Hc]. rewrite (iv_coolings _ _ I) in Hi.
  destruct (lookup_lt_is_Some_2 _ _ Hi) as [p Hp]. by exists p, c.
Qed.

Lemma conditions w G i :
  inv w G -> (i < length (coolings w))%nat ->
  (exists c, phase_1_condition w i = Some c) /\ exists c, phase_2_3_condition w i = Some c.
Proof.
  intros I Hi. destruct (partition_at w G i I Hi) as (p & c & Ep & Ec).
  unfold phase_1_condition, phase_2_3_condition. rewrite Ep, Ec. split; by eexists.
Qed.

(** Phase 1 ends: an attempt that changes nothing counts as failed or goes on
    with a page of smaller rank, and one that cools a page leaves fewer hot ones. *)
Lemma phase_1_history rank depth parts bufs b failed w m :
  answered w0 -> ranked w0 rank depth ->
  history w0 w m -> is_Some (wframe w b) -> Forall (fun y => is_Some (wframe w y)) bufs ->
  Forall (fun i => (i < length (coolings w))%nat) parts ->
  (Z.to_nat (10 - failed) + hot_frames w <= length bufs)%nat ->
  ((Z.to_nat (10 - failed) + hot_frames w) * S depth + rank w b < length parts)%nat ->
  exists w', phase_1 findParent children spare parts bufs b failed w = Some w' /\ history w0 w' m /\
    length (coolings w') = length (coolings w).
Proof.
  intros Ans Rk. revert bufs b failed w. induction parts as [|i parts IH]; intros bufs b failed w H Hb Hbufs Hparts Lb Lp; [by apply Nat.nlt_0_r in Lp|].
  apply list.Forall_cons in Hparts as [Hi Hparts]. destruct (history_inv w0 w m S0 H) as (G & I & _). cbn [length] in Lp.
  destruct (proj1 (conditions w G i I Hi)) as [c Ec]. cbn [phase_1]. rewrite Ec. cbn [mbind option_bind].
  destruct (negb _) eqn:Eg; [by eexists|]. apply negb_false_iff, andb_true_iff in Eg as [_ Hlt%Z.ltb_lt].
  destruct (history_step w m (Cool b) H Hb) as (w1 & r & E1 & H1). cbn [exec effect] in *.
  destruct (try_cool findParent children spare w b) as [a|] eqn:Ea; [|done]. cbn [mbind option_bind] in *.
  pose proof (try_cool_facts w G b a I Ea) as Hf. destruct a as [| |child|w2 i'].
  - destruct bufs as [|b' bufs]; [cbn [length] in Lb; lia|]. apply list.Forall_cons in Hbufs as [Hb' Hbufs]. cbn [length] in Lb.
    destruct (Rk w m b' H) as [Hr _]. apply IH; try done; [lia|].
    replace (Z.to_nat (10 - failed)) with (S (Z.to_nat (10 - (failed + 1)))) in Lp by lia.
    generalize (Z.to_nat (10 - (failed + 1))), Lp. clear -Hr. intros n. nia.
  - destruct Hf as (f & Ef & Hs & Hp). destruct (Ans w m b f H Ef Hs) as [l Hl]. congruence.
  - destruct Hf as [Hc (l & s & Hl & Hs & Hh & <-)]. apply IH; try done. pose proof (proj2 (Rk w m b H) l s Hl Hs Hh). lia.
  - injection E1 as <- <-. destruct Hf as (Hfr & Hlen & Hi' & Hhot). destruct bufs as [|b' bufs]; [cbn [length] in Lb; lia|]. cbn [length] in Lb.
    apply list.Forall_cons in Hbufs as [Hb' Hbufs]. destruct (history_inv w0 w2 m S0 H1) as (G2 & I2 & _). rewrite <- Hlen in Hi'.
    destruct (proj1 (conditions w2 G2 i' I2 Hi')) as [[] Ec2]; rewrite Ec2; cbn [mbind option_bind]; [|by eexists].
    rewrite <- Hlen. destruct (Rk w2 m b' H1) as [Hr _]. rewrite Hhot in *. apply IH; [done|by apply Hfr| |by rewrite Hlen|lia|lia].
    eapply list.Forall_impl; [exact Hbufs|]. intros y. apply Hfr.
Qed.

(** A visit of the entry after [front]. *)
Lemma visit_step (visit : world -> nat -> Z -> option verdict) (mk : nat -> nat -> op) w m p_i front bf rest :
  (forall w n, exec w (mk p_i n) = quietly (visit_at visit w p_i n)) ->
  (forall w n, allowed w (mk p_i n) = is_Some (queue_of w p_i !! n)) -> (forall m n r, effect m (mk p_i n) r = m) ->
  (forall w G f, inv w G -> bfs (wbm w) !! bf = Some f -> exists v, visit w p_i bf = Some v /\ visit_ok w G v) ->
  history w0 w m -> queue_of w p_i = front ++ bf :: rest ->
  exists v, visit w p_i bf = Some v /\
    match v with
    | Erase w1 _ => exists w', erase w1 p_i front rest = Some w' /\ history w0 w' m /\ queue_of w' p_i = front ++ rest /\
        length (coolings w') = length (coolings w)
    | Keep w' _ | Break w' => history w0 w' m /\ queue_of w' p_i = front ++ bf :: rest /\ length (coolings w') = length (coolings w)
    end.
Proof.
  intros He Ha Hm Hv H Eq. destruct (history_inv w0 w m S0 H) as (G & I & _).
  assert (queue_of w p_i !! length front = Some bf) as Hn by (rewrite Eq; by apply list_lookup_middle).
  destruct (history_step w m (mk p_i (length front)) H) as (w' & r & E & H'); [by rewrite Ha, Hn; eexists|]. rewrite Hm in H'.
  rewrite He in E. unfold visit_at in E. rewrite Hn in E. cbn [mbind option_bind] in E.
  assert (take (length front) (queue_of w p_i) = front /\ drop (S (length front)) (queue_of w p_i) = rest) as [Et Er].
  { rewrite Eq. split; [by apply take_app_length|]. replace (front ++ bf :: rest) with ((front ++ [bf]) ++ rest) by (by rewrite <- app_assoc).
    apply drop_app_length'. rewrite length_app. cbn. lia. }
  rewrite Et, Er in E.
  destruct (coolings w !! p_i) as [c|] eqn:Hc; [|unfold queue_of in Hn; by rewrite Hc in Hn].
  assert (cooling_queue c = front ++ bf :: rest) as Ecq by (unfold queue_of in Eq; by rewrite Hc in Eq).
  destruct (iv_queue _ _ I p_i c bf Hc ltac:(rewrite Ecq; apply elem_of_app; right; apply elem_of_cons; by left)) as [f Ef].
  destruct (Hv w G f I Ef) as (v & Ev & Hok). exists v. split; [done|]. rewrite Ev in E. cbn [mbind option_bind quietly] in E.
  destruct v as [w1 k|w1 k|w1]; [|injection E as <- <-; destruct Hok as [Ec _]; unfold queue_of; by rewrite Ec, Hc..].
  destruct Hok as [Ec (G1 & I1 & _)]. rewrite <- Ec in Hc. destruct (erase_inv w1 G1 p_i front bf rest c I1 Hc Ecq) as (w2 & Ew & _ & Eq2 & _).
  rewrite Ew in E. injection E as <- <-. exists w2. split_and!; try done. rewrite <- Ec. unfold erase in Ew. rewrite Hc in Ew. injection Ew as <-.
  cbn. by rewrite length_insert.
Qed.

Lemma phase_2_history w m p_i front rest left :
  history w0 w m -> queue_of w p_i = front ++ rest ->
  exists w', phase_2 findParent cfg w p_i front rest left = Some w' /\ history w0 w' m /\ length (coolings w') = length (coolings w).
Proof.
  revert w front left. induction rest as [|bf rest IH]; intros w front left H Eq; [by eexists|]. cbn [phase_2].
  destruct (left =? 0); [by eexists|].
  destruct (visit_step (visit_2 findParent cfg) Visit2 w m p_i front bf rest) as (v & -> & Hv); try done.
  { intros w1 G f I Ef. by eapply visit_2_inv. }
  cbn [mbind option_bind]. destruct v as [w1 k|w1 k|w1].
  - destruct Hv as (w2 & -> & H2 & Eq2 & <-). cbn [mbind option_bind]. by apply IH.
  - destruct Hv as (H2 & Eq2 & <-). apply IH; [done|]. by rewrite <- app_assoc.
  - destruct Hv as (H2 & _ & E). by eexists.
Qed.

Lemma phase_3_history w m p_i front rest left :
  history w0 w m -> queue_of w p_i = front ++ rest ->
  exists w', phase_3 findParent cfg w p_i front rest left = Some w' /\ history w0 w' m /\ length (coolings w') = length (coolings w).
Proof.
  revert w front left. induction rest as [|bf rest IH]; intros w front left H Eq; [by eexists|]. destruct left as [|left]; [by eexists|].
  cbn [phase_3]. destruct (visit_step (visit_3 findParent cfg) Visit3 w m p_i front bf rest) as (v & -> & Hv); try done.
  { intros w1 G f I Ef. by eapply visit_3_inv. }
  cbn [mbind option_bind]. destruct v as [w1 k|w1 k|w1].
  - destruct Hv as (w2 & -> & H2 & Eq2 & <-). cbn [mbind option_bind]. by apply IH.
  - destruct Hv as (H2 & Eq2 & <-). apply IH; [done|]. by rewrite <- app_assoc.
  - destruct Hv as (H2 & _ & E). by eexists.
Qed.

Lemma all_written_history n w m p_i :
  history w0 w m -> exists w', all_written cfg n w p_i = Some w' /\ history w0 w' m /\ coolings w' = coolings w.
Proof.
  revert w. induction n as [|n IH]; intros w H; [by eexists|]. destruct (history_inv w0 w m S0 H) as (G & I & _).
  destruct (written_inv cfg Hplace w G p_i I) as (w1 & E & Ec & _). cbn [all_written]. rewrite E. cbn [mbind option_bind].
  rewrite <- Ec. apply IH. apply (h_step w0 w m (Written p_i) w1 None H Logic.I). cbn [exec]. by rewrite E.
Qed.

Lemma phase_2_3_history w m p_i :
  history w0 w m -> (p_i < length (coolings w))%nat ->
  exists w', phase_2_3 findParent cfg w p_i = Some w' /\ history w0 w' m /\ length (coolings w') = length (coolings w).
Proof.
  intros H Hi. destruct (history_inv w0 w m S0 H) as (G & I & _). destruct (proj2 (conditions w G p_i I Hi)) as [cond Ec].
  destruct (partition_at w G p_i I Hi) as (p & c & Ep & Ecool). unfold phase_2_3. rewrite Ec, Ep, Ecool. cbn [mbind option_bind].
  assert (forall w', history w0 w' m -> length (coolings w') = length (coolings w) ->
    exists w'', (if negb (length (freed_bfs_batch w') =? 0)%nat then batch_push w' p_i else Some w') = Some w'' /\
      history w0 w'' m /\ length (coolings w'') = length (coolings w)) as Hend.
  { intros w' H' E'. destruct (history_inv w0 w' m S0 H') as (G' & I' & _). rewrite (iv_batch _ _ I'). by eexists. }
  destruct cond; cbn [mbind option_bind]; [|by apply Hend].
  destruct (phase_2_history w m p_i [] (queue_of w p_i) (free_bfs_limit c - Z.of_nat (length (dram_free_list p))) H eq_refl)
    as (w1 & -> & H1 & E1). cbn [mbind option_bind].
  pose proof (h_step w0 w1 m Poll (submit_poll w1) None H1 Logic.I eq_refl) as H2. cbn [effect] in H2.
  destruct (all_written_history (length (events (submit_poll w1))) (submit_poll w1) m p_i H2) as (w3 & -> & H3 & E3). cbn [mbind option_bind].
  destruct (phase_3_history w3 m p_i [] (queue_of w3 p_i) (length (events (submit_poll w1))) H3 eq_refl) as (w4 & -> & H4 & E4).
  cbn [mbind option_bind]. apply Hend; [done|]. rewrite E4, E3. exact E1.
Qed.

Lemma all_partitions_history ps w m :
  history w0 w m -> Forall (fun i => (i < length (coolings w))%nat) ps ->
  exists w', all_partitions findParent cfg w ps = Some w' /\ history w0 w' m.
Proof.
  revert w. induction ps as [|i ps IH]; intros w H Hps; [by eexists|]. apply list.Forall_cons in Hps as [Hi Hps].
  cbn [all_partitions]. destruct (phase_2_3_history w m i H Hi) as (w1 & -> & H1 & E1). cbn [mbind option_bind]. apply IH; [done|].
  by rewrite E1.
Qed.

End round.

(** * Properties *)

(** C19: paging is transparent.  Workers fix, create, change and reclaim pages
    while the provider cools pages, copies dirty ones to the write buffer, has
    them written, takes the results down and evicts, one page at a time and in
    any order.  After any such history no step that is allowed fails an
    assertion; a page has a swip exactly if it was created and not reclaimed;
    and a worker that fixes a page gets a hot frame with exactly the data
    written to it last, no matter how often the page was evicted and read or
    changed while it was being written, or jumps, which takes a lost latch or an
    empty free list.  Writes are in place, as by default. *)
Theorem paging_transparent w0 w m :
  started w0 -> history w0 w m ->
  (forall o, allowed w o -> is_Some (exec w o)) /\
  (forall l, is_Some (swips w !! l) <-> is_Some (m !! l)) /\
  (forall l r recheck w' bf, exec w (Fix l r recheck) = Some (w', Some bf) -> is_Some (partitions (wbm w) !! r) ->
    exists f, wframe w' bf = Some f /\ state f = STATE.HOT /\ m !! l = Some (dt (page f))) /\
  (forall l r recheck w' q, exec w (Fix l r recheck) = Some (w', None) -> partitions (wbm w) !! r = Some q ->
    recheck = false \/ dram_free_list q = []).
Proof.
  intros S H. destruct (history_inv w0 w m S H) as (G & I & <-).
  assert (forall l r recheck w' o, exec w (Fix l r recheck) = Some (w', o) -> is_Some (swips w !! l)) as Hs.
  { intros l r recheck w' o E. cbn in E. unfold fix_page in E. destruct (swips w !! l); [done|discriminate]. }
  split_and!.
  - intros o Ha. destruct (exec_inv w G o I Ha) as (w' & r & G' & E & _). by eexists.
  - intros l. rewrite (iv_swips _ _ I). unfold data. rewrite !lookup_fmap. by destruct (G !! l); split; intros [? ?].
  - intros l r recheck w' bf E Hr. destruct (exec_inv w G (Fix l r recheck) I (conj (Hs _ _ _ _ _ E) Hr)) as (w2 & o & G' & E2 & _ & _ & Hf).
    rewrite E in E2. injection E2 as <- <-. done.
  - intros l r recheck w' q E Hr. destruct (exec_inv w G (Fix l r recheck) I (conj (Hs _ _ _ _ _ E) (mk_is_Some _ _ Hr))) as (w2 & o & G' & E2 & _ & _ & Hf).
    rewrite E in E2. injection E2 as <- <-. destruct Hf as [Hf|(q' & Hq' & Hf)]; [by left|right; congruence].
Qed.

(** C20: a round of the page provider ends.  In any state that workers and
    provider have reached, while no worker moves, the three phases over a range
    of partitions run to the end with no assertion failing, and what is reached is
    again such a state with the same data in every page.  Phase 1 is a loop that
    ends by itself only: with [F] frames and page trees of depth [depth] it draws
    at most [10 + F] frames and looks at no more than [(11 + F) * (depth + 1)]
    of them, the ten failed attempts and the cooled pages with the way down to a
    leaf each; more draws change nothing.  Conditions: writes in place, at least
    one worker thread, a write buffer of 2 to 2^64 requests; [findParent]
    answers for every hot page ([answered]: a page whose parent is latched for
    ever would be tried for ever, since a jump does not count as a failed
    attempt); the drawn frames and partitions exist. *)
Theorem provider_round w0 w m rank depth parts bufs r_buffer p_begin p_end :
  started w0 -> history w0 w m -> answered w0 -> ranked w0 rank depth ->
  is_Some (wframe w r_buffer) -> Forall (fun y => is_Some (wframe w y)) bufs ->
  Forall (fun i => (i < length (partitions (wbm w)))%nat) parts -> (p_end <= length (partitions (wbm w)))%nat ->
  (10 + size (bfs (wbm w)) <= length bufs)%nat ->
  ((11 + size (bfs (wbm w))) * S depth <= length parts)%nat ->
  exists w', pageProviderThread findParent children spare cfg parts bufs r_buffer p_begin p_end w = Some w' /\ history w0 w' m.
Proof.
  intros S H Ans Rk Hb Hbufs Hparts Hend Lb Lp. destruct (history_inv w0 w m S H) as (G & I & _). rewrite <- (iv_coolings _ _ I) in *.
  pose proof (hot_frames_bound w) as Hh. destruct (Rk w m r_buffer H) as [Hr _].
  unfold pageProviderThread. destruct (phase_1_history w0 S rank depth parts bufs r_buffer 0 w m Ans Rk H Hb Hbufs Hparts) as (w1 & -> & H1 & E1).
  - change (Z.to_nat (10 - 0)) with 10%nat. lia.
  - change (Z.to_nat (10 - 0)) with 10%nat. nia.
  - cbn [mbind option_bind]. apply all_partitions_history; [done|done|]. rewrite E1. apply list.Forall_forall. intros i Hi.
    apply elem_of_seq in Hi. lia.
Qed.

End props.

(** * A small world *)

(** A data structure whose pages are found by searching all swips. *)
Definition find_swip {D} (w : @world D) (b : Z) : option Z :=
  fst <$> (snd <$> list_find (fun lw : Z * Z => isEVICTED lw.2 = false /\ bfPtrAsHot lw.2 = b) (map_to_list (swips w))).

#[export] Instance find_swip_structures {D} : @Structures D find_swip (fun _ _ => []).
Proof.
  constructor; [|intros w b l H; by apply not_elem_of_nil in H].
  intros w b l H. unfold find_swip in H. destruct (list_find _ _) as [[i [l' s]]|] eqn:E; [|done]. injection H as ->.
  apply list_find_Some in E as (E & [H1 H2] & _). exists s. split; [|done]. apply elem_of_map_to_list. by eapply list_elem_of_lookup_2.
Qed.

(** Two frames, one partition. *)
Definition small_config : config := mkConfig false 4 256.

Definition small_world : @world Z :=
  mkWorld (fresh_manager 0 1 [4096; 8192] ∅ (mkPage 0 0 0 false 0)) [mkCooling [] 0 2 2] ∅ [] [] [] 0.

Lemma small_started : started small_world.
Proof.
  constructor; try done.
  - apply fresh_ok; [lia| |by repeat constructor]. apply list.NoDup_cons. split; [|apply NoDup_singleton].
    intros H%list_elem_of_singleton. done.
  - apply fresh_pids; lia.
  - intros b f H. cbn in H. rewrite !lookup_insert_Some in H. destruct H as [[_ <-]|[_ [[_ <-]|[_ H]]]]; [done|done|]. by rewrite lookup_empty in H.
  - intros [|i] c [= <-]; done.
Qed.

(** A page is created, cooled, written, evicted. *)
Definition small_ops : list (@op Z) := [New 1 0 7 false 5; Cool 4096; Visit2 0 0; Poll; Written 0; Visit3 0 0].

Fixpoint exec_all (w : @world Z) (os : list op) : option world :=
  match os with
  | [] => Some w
  | o :: os' => '(w, _) ← exec find_swip (fun _ _ => []) (fun _ => false) small_config w o; exec_all w os'
  end.

Definition small_after (n : nat) : @world Z := default small_world (exec_all small_world (take n small_ops)).

Lemma small_step n r (m m' : gmap Z Z) o :
  history find_swip (fun _ _ => []) (fun _ => false) small_config small_world (small_after n) m ->
  allowed (small_after n) o -> exec find_swip (fun _ _ => []) (fun _ => false) small_config (small_after n) o = Some (small_after (S n), r) ->
  m' = effect m o r -> history find_swip (fun _ _ => []) (fun _ => false) small_config small_world (small_after (S n)) m'.
Proof. intros H Ha He ->. by eapply h_step. Qed.

Lemma small_created : history find_swip (fun _ _ => []) (fun _ => false) small_config small_world (small_after 1) {[1 := 5]}.
Proof.
  apply (small_step 0%nat (Some 4096) ∅ _ (New 1 0 7 false 5)); [constructor| |vm_compute; reflexivity|done].
  split; [done|]. eexists. split; [reflexivity|]. eexists. vm_compute. reflexivity.
Qed.

Lemma small_history : history find_swip (fun _ _ => []) (fun _ => false) small_config small_world (small_after 6) {[1 := 5]}.
Proof.
  apply (small_step 5%nat None {[1 := 5]} _ (Visit3 0 0)); [|eexists; vm_compute; reflexivity|vm_compute; reflexivity|done].
  apply (small_step 4%nat None {[1 := 5]} _ (Written 0)); [|done|vm_compute; reflexivity|done].
  apply (small_step 3%nat None {[1 := 5]} _ Poll); [|done|vm_compute; reflexivity|done].
  apply (small_step 2%nat None {[1 := 5]} _ (Visit2 0 0)); [|eexists; vm_compute; reflexivity|vm_compute; reflexivity|done].
  apply (small_step 1%nat None {[1 := 5]} _ (Cool 4096)); [|eexists; vm_compute; reflexivity|vm_compute; reflexivity|done].
  exact small_created.
Qed.

(** After its eviction the page is fixed and has its data. *)
Lemma paging_transparent_witness :
  exists w' f, exec find_swip (fun _ _ => []) (fun _ => false) small_config (small_after 6) (Fix 1 0 true) = Some (w', Some 4096) /\
    wframe w' 4096 = Some f /\ dt (page f) = 5.
Proof.
  destruct (paging_transparent find_swip (fun _ _ => []) (fun _ => false) small_config ltac:(cbn; lia) eq_refl ltac:(cbn; lia)
    small_world (small_after 6) {[1 := 5]} small_started small_history) as (_ & _ & Hfix & _).
  eexists _. destruct (Hfix 1 0%nat true _ 4096 ltac:(vm_compute; reflexivity) ltac:(eexists; vm_compute; reflexivity)) as (f & Ef & _ & Hd).
  exists f. split; [vm_compute; reflexivity|]. split; [exact Ef|]. injection Hd as Hd. by rewrite <- Hd.
Defined.

(** The search finds the swip of every hot frame. *)
Lemma find_swip_answers {D} (w : @world D) G b f :
  inv w G -> wframe w b = Some f -> state f = STATE.HOT -> is_Some (find_swip w b).
Proof.
  intros I Ef Hs. destruct (iv_owner _ _ I b f Ef ltac:(unfold used; by rewrite Hs)) as (_ & l & x & L & _ & Hh).
  destruct (iv_cell _ _ I _ _ L) as [Hv Hc].
  assert (isEVICTED (raw_of (c_swip x)) = false /\ bfPtrAsHot (raw_of (c_swip x)) = b) as Hx.
  { unfold holds in Hh. destruct (c_swip x) as [b'|b'|pid]; cbn [raw_of].
    - subst b'. destruct Hc as (Ha & _). unfold frame_addr in Ha. destruct (hot_tests b ltac:(lia)) as (_ & _ & H).
      split; [done|]. unfold bfPtrAsHot. change hot_mask with (Z.ones 62). rewrite Z.land_ones, Z.mod_small by lia. done.
    - subst b'. destruct Hc as (Ha & _). unfold frame_addr in Ha. destruct (cool_tests b ltac:(lia)) as (_ & _ & H & H' & _). done.
    - destruct Hh as (io & Eio & Eb). destruct Hc as [-> _].
      destruct (getPartition_ok (wbm w) (c_pid x) (iv_bm _ _ I) ltac:(lia)) as (p & q & _ & _ & _ & Hio & Em).
      rewrite Eio in Em. destruct (Hio _ _ (eq_sym Em)) as [(_ & _ & _ & f1 & E1 & E2 & _) _]. unfold wframe in Ef. congruence. }
  unfold find_swip. destruct (list_find _ _) as [[i ls]|] eqn:E; [by eexists|].
  exfalso. apply list_find_None in E. rewrite list.Forall_forall in E. eapply (E (l, _)); [|exact Hx].
  apply elem_of_map_to_list. by eapply inv_swip.
Qed.

(** The round that cools the new page also writes and evicts it. *)
Lemma provider_round_witness :
  exists w', pageProviderThread find_swip (fun _ _ => []) (fun _ => false) small_config (repeat 0%nat 13) (repeat 8192 12) 4096 0 1 (small_after 1) = Some w' /\
    history find_swip (fun _ _ => []) (fun _ => false) small_config small_world w' {[1 := 5]} /\
    swips (small_after 1) !! 1 = Some 4096 /\ swips w' !! 1 = Some (raw_of (EVICTED 0)).
Proof.
  destruct (provider_round find_swip (fun _ _ => []) (fun _ => false) small_config ltac:(cbn; lia) eq_refl ltac:(cbn; lia)
    small_world (small_after 1) {[1 := 5]} (fun _ _ => 0%nat) 0 (repeat 0%nat 13) (repeat 8192 12) 4096 0 1 small_started small_created) as (w' & E & H).
  - intros w m b f H. destruct (history_inv find_swip (fun _ _ => []) (fun _ => false) small_config ltac:(cbn; lia) eq_refl ltac:(cbn; lia)
      small_world w m small_started H) as (G & I & _). by apply (find_swip_answers w G).
  - intros w m b _. split; [done|]. intros l s Hl. by apply not_elem_of_nil in Hl.
  - eexists. vm_compute. reflexivity.
  - apply list.Forall_forall. intros y Hy. apply list_elem_of_In, repeat_spec in Hy as ->. eexists. vm_compute. reflexivity.
  - apply list.Forall_forall. intros y Hy. apply list_elem_of_In, repeat_spec in Hy as ->. apply Nat.ltb_lt. vm_compute. reflexivity.
  - done.
  - apply Nat.leb_le. vm_compute. reflexivity.
  - apply Nat.leb_le. vm_compute. reflexivity.
  - exists w'. split; [exact E|]. split; [exact H|]. split; [vm_compute; reflexivity|].
    assert (swips <$> pageProviderThread find_swip (fun _ _ => []) (fun _ => false) small_config (repeat 0%nat 13) (repeat 8192 12) 4096 0 1 (small_after 1)
      = Some {[1 := raw_of (EVICTED 0)]}) as Hs by (vm_compute; reflexivity).
    rewrite E in Hs. injection Hs as ->. by rewrite lookup_singleton_eq.
Defined.
