(* ===== verification/BTreeNodeSearch.v ===== *)
(** Search in a B-tree page: the optimised [lowerBound] (cached heads, sampled
    hints, prefix stripping, binary search) returns the position that plain
    lexicographic comparison of the full keys determines. *)
From S2P Require Import Prelude BTreeNode.
Local Open Scope Z_scope.

(** * Comparison of keys *)

Lemma memcmp_lex a b len :
  (len = Nat.min (length a) (length b))%nat ->
  lex_cmp a b =
  match memcmp a b len ?= 0 with
  | Eq => (length a ?= length b)%nat
  | c => c
  end.
Proof.
  revert b len; induction a as [|x a IH]; intros [|y b] len Hl; simpl in Hl; subst len;
    simpl; try done.
  destruct (Z.compare_spec x y) as [->|Hlt|Hgt].
  - rewrite Z.eqb_refl. by apply IH.
  - rewrite (proj2 (Z.eqb_neq x y)), (proj2 (Z.ltb_lt x y)) by lia. done.
  - rewrite (proj2 (Z.eqb_neq x y)), (proj2 (Z.ltb_ge x y)) by lia. done.
Qed.

Lemma cmpKeys_lex a b : (cmpKeys a b ?= 0) = lex_cmp a b.
Proof.
  unfold cmpKeys. set (len := Nat.min (length a) (length b)).
  rewrite (memcmp_lex a b len) by done.
  assert (forall c, c = memcmp a b len ->
    ((if negb (c =? 0) then c else Z.of_nat (length a) - Z.of_nat (length b)) ?= 0) =
    match c ?= 0 with Eq => (length a ?= length b)%nat | r => r end) as H.
  { intros c _. destruct (Z.eqb_spec c 0) as [->|Hc]; simpl.
    - destruct (Nat.compare_spec (length a) (length b));
        [apply Z.compare_eq_iff|apply Z.compare_lt_iff|apply Z.compare_gt_iff]; lia.
    - destruct (Z.compare_spec c 0); done. }
  destruct (len <? 4)%nat; by apply H.
Qed.

Lemma memcmp_eq a b len :
  (len <= length a)%nat -> (len <= length b)%nat ->
  memcmp a b len = 0 <-> take len a = take len b.
Proof.
  revert a b; induction len as [|len IH]; intros [|x a] [|y b] Ha Hb; simpl in *; try lia; try done.
  destruct (Z.eqb_spec x y) as [->|]; [|by zbool; split; intros; simplify_eq].
  rewrite IH by lia. split; intros; congruence.
Qed.

(** * Heads *)

Fixpoint pad (n : nat) (a : list Z) : list Z :=
  match n with
  | O => []
  | S n' => match a with [] => 0 :: pad n' [] | x :: a' => x :: pad n' a' end
  end.

Lemma length_pad n a : length (pad n a) = n.
Proof. revert a; induction n; intros [|x a]; simpl; auto. Qed.

Lemma pad_bytes n a : Forall is_byte a -> Forall is_byte (pad n a).
Proof.
  revert a; induction n as [|n IH]; intros a Ha; simpl; [done|].
  destruct Ha; constructor; auto. done.
Qed.

Lemma head_of_pad key : Forall is_byte key -> head_of key = of_be (pad 4 key).
Proof.
  unfold in_width. change (2 ^ 8) with 256. intros H.
  destruct H as [|k0 ? H0 [|k1 ? H1 [|k2 ? H2 [|k3 ? H3 _]]]]; cbn [head_of pad].
  - done.
  - rewrite Z.shiftl_mul_pow2 by lia. simpl. lia.
  - rewrite (bswap_of_le _ [k0; k1]) by (done || (repeat constructor; simpl; lia)).
    rewrite Z.shiftl_mul_pow2 by lia. simpl. lia.
  - rewrite (bswap_of_le _ [k0; k1]) by (done || (repeat constructor; simpl; lia)).
    rewrite lor_shiftl_add; rewrite ?Z.shiftl_mul_pow2 by lia; simpl; lia.
  - by rewrite (bswap_of_le _ [k0; k1; k2; k3]) by (done || (repeat constructor; simpl; lia)).
Qed.

Lemma pad_lt n a b :
  Forall is_byte a -> lex_cmp (pad n a) (pad n b) = Lt -> lex_cmp a b = Lt.
Proof.
  revert a b; induction n as [|n IH]; intros [|x a] [|y b] Ha; simpl; try done.
  - by rewrite lex_cmp_refl.
  - inversion Ha as [|? ? Hx Ha']; subst. unfold in_width in Hx.
    destruct (Z.compare_spec x 0); intros Hp; try done; [|lia].
    apply IH in Hp; [|done]. by destruct a.
  - inversion Ha; subst. destruct (x ?= y); eauto.
Qed.

Lemma pad_eq n a b :
  pad n a = pad n b -> (length b <= n)%nat -> lex_cmp a b = (length a ?= length b)%nat.
Proof.
  revert a b; induction n as [|n IH]; intros [|x a] [|y b] Hp Hl; simpl in *; try done; try lia.
  injection Hp as -> Hp. rewrite Z.compare_refl. apply IH; [done|lia].
Qed.

Lemma head_cmp a b :
  Forall is_byte a -> Forall is_byte b ->
  (head_of a ?= head_of b) = lex_cmp (pad 4 a) (pad 4 b).
Proof.
  intros. rewrite !head_of_pad by done. symmetry.
  apply lex_cmp_of_be; rewrite ?length_pad; auto using pad_bytes.
Qed.

Lemma head_lt a b :
  Forall is_byte a -> Forall is_byte b -> head_of a < head_of b -> a <ₗ b.
Proof.
  intros Ha Hb H. unfold lex_lt. apply (pad_lt 4); [done|].
  rewrite <- head_cmp by done. by apply Z.compare_lt_iff.
Qed.

Lemma head_le a b :
  Forall is_byte a -> Forall is_byte b -> a ≤ₗ b -> head_of a <= head_of b.
Proof.
  intros Ha Hb H. destruct (Z.le_gt_cases (head_of a) (head_of b)) as [|Hgt]; [done|].
  apply head_lt in Hgt; [|done..]. by apply lex_nle_lt in Hgt.
Qed.

(** * Slots *)

(** What search relies on: keys are byte strings in strictly increasing
    order, the cached heads are theirs, and (once they are used) so are the
    hints. *)
Record searchable (n : BTreeNode) : Prop := Searchable {
  s_bytes : forall i, (i < count n)%nat -> Forall is_byte (getKey n i);
  s_head : forall i, (i < count n)%nat -> head (slot n i) = head_of (getKey n i);
  s_sorted : forall i j, (i < j < count n)%nat -> getKey n i <ₗ getKey n j;
  s_hint : (hint_count * 2 < count n)%nat ->
    forall i, (i < hint_count)%nat ->
      hint n i = head (slot n (count n / (hint_count + 1) * (i + 1))%nat) }.

Lemma length_getKey n i : length (getKey n i) = key_len (slot n i).
Proof. apply length_read_bytes. Qed.

Lemma cmp_slot_lex n key i :
  searchable n -> Forall is_byte key -> (i < count n)%nat ->
  cmp_slot n key i = lex_cmp key (getKey n i).
Proof.
  intros S Hk Hi. unfold cmp_slot. rewrite (s_head n S i Hi).
  set (k := getKey n i). assert (Forall is_byte k) as Hb by by apply S.
  rewrite <- (length_getKey n i). fold k.
  destruct (Z.ltb_spec (head_of key) (head_of k)); [by symmetry; apply head_lt|].
  destruct (Z.ltb_spec (head_of k) (head_of key)).
  { symmetry. apply lex_cmp_gt. by apply head_lt. }
  assert (pad 4 key = pad 4 k) as Hp.
  { apply lex_cmp_eq. rewrite <- head_cmp by done. apply Z.compare_eq_iff. lia. }
  destruct (Nat.leb_spec (length k) 4).
  - rewrite (pad_eq 4) by done.
    destruct (Nat.ltb_spec (length key) (length k)); [by symmetry; apply Nat.compare_lt_iff|].
    destruct (Nat.ltb_spec (length k) (length key)); [by symmetry; apply Nat.compare_gt_iff|].
    symmetry. apply Nat.compare_eq_iff. lia.
  - rewrite <- cmpKeys_lex.
    destruct (Z.compare_spec (cmpKeys key k) 0) as [->|?|?]; [done| |]; zbool.
Qed.

(** [pos] splits the slots into those below [key] and those not below it. *)
Definition lower_bound_at (n : BTreeNode) (key : list Z) (pos : nat) : Prop :=
  (pos <= count n)%nat /\
  (forall i, (i < pos)%nat -> getKey n i <ₗ key) /\
  (forall i, (pos <= i < count n)%nat -> key ≤ₗ getKey n i).

Lemma sorted_lt n i j :
  searchable n -> (i <= j < count n)%nat -> getKey n i ≤ₗ getKey n j.
Proof.
  intros S H. apply lex_le_lteq. destruct (decide (i = j)) as [->|]; [by right|].
  left. apply S. lia.
Qed.

Lemma search_loop_correct n key fuel lower upper :
  searchable n -> Forall is_byte key ->
  (lower <= upper <= count n)%nat -> (upper - lower < fuel)%nat ->
  (forall i, (i < lower)%nat -> getKey n i <ₗ key) ->
  (forall i, (upper <= i < count n)%nat -> key <ₗ getKey n i) ->
  exists pos found, search_loop n key fuel lower upper = Some (pos, found) /\
    lower_bound_at n key pos /\
    (found = true <-> (pos < count n)%nat /\ getKey n pos = key).
Proof.
  intros S Hk. revert lower upper. induction fuel as [|fuel IH]; intros lower upper Hlu Hf Hlo Hup;
    [lia|]. cbn [search_loop]. destruct (Nat.ltb_spec lower upper) as [Hlt|Hge].
  - set (mid := ((upper - lower) / 2 + lower)%nat).
    assert (lower <= mid < upper)%nat as Hmid.
    { unfold mid. pose proof (Nat.div_lt (upper - lower) 2). lia. }
    rewrite cmp_slot_lex by (done || lia).
    destruct (lex_cmp key (getKey n mid)) eqn:E.
    + apply lex_cmp_eq in E. exists mid, true. split; [done|]. split.
      * split; [lia|]. split.
        -- intros i Hi. rewrite E. apply S. lia.
        -- intros i Hi. rewrite E. apply sorted_lt; [done|lia].
      * split; intros; [|done]. split; [lia|done].
    + apply IH; [lia|lia|done|]. intros i Hi.
      eapply lex_lt_le_trans; [exact E|]. apply sorted_lt; [done|lia].
    + apply IH; [lia|lia| |done]. intros i Hi. apply lex_cmp_gt in E.
      eapply lex_le_lt_trans; [|exact E]. apply sorted_lt; [done|lia].
  - exists lower, false. split; [done|]. split.
    + split; [lia|]. split; [done|]. intros i Hi. apply lex_le_lteq. left. apply Hup. lia.
    + split; [done|]. intros [Hc Hkey].
      exfalso. eapply (lex_lt_irrefl key). rewrite <- Hkey at 2. apply Hup. lia.
Qed.

(** * Hints *)

Lemma scan_hint_spec n p fuel from :
  let r := scan_hint n p from fuel in
  (from <= r <= from + fuel)%nat /\
  (forall i, (from <= i < r)%nat -> p (hint n i) = false) /\
  ((r < from + fuel)%nat -> p (hint n r) = true).
Proof.
  revert from; induction fuel as [|fuel IH]; intros from; simpl.
  - split; [lia|]. split; intros; lia.
  - destruct (p (hint n from)) eqn:E.
    + split; [lia|]. split; [intros; lia|done].
    + destruct (IH (S from)) as (H1 & H2 & H3). split; [lia|]. split.
      * intros i Hi. destruct (decide (i = from)) as [->|]; [done|]. apply H2. lia.
      * intros. apply H3. lia.
Qed.

Lemma hint_range_correct n key lower upper :
  searchable n -> Forall is_byte key ->
  hint_range n (head_of key) = (lower, upper) ->
  (lower <= upper <= count n)%nat /\
  (forall i, (i < lower)%nat -> getKey n i <ₗ key) /\
  (forall i, (upper <= i < count n)%nat -> key <ₗ getKey n i).
Proof.
  intros S Hk. unfold hint_range.
  destruct (Nat.ltb_spec (hint_count * 2) (count n)) as [Hc|_];
    [|intros [= <- <-]; repeat split; intros; lia].
  set (dist := (count n / (hint_count + 1))%nat).
  assert (dist * 17 <= count n)%nat as Hd.
  { unfold dist, hint_count. change (16 + 1)%nat with 17%nat. pose proof (Nat.mul_div_le (count n) 17). lia. }
  unfold searchHint.
  pose proof (scan_hint_spec n (fun h => head_of key <=? h) hint_count 0) as (P1 & P2 & P3).
  set (pos := scan_hint n (fun h => head_of key <=? h) 0 hint_count) in *.
  pose proof (scan_hint_spec n (fun h => negb (h =? head_of key)) (hint_count - pos) pos)
    as (Q1 & Q2 & Q3).
  set (pos2 := scan_hint n (fun h => negb (h =? head_of key)) pos (hint_count - pos)) in *.
  assert (forall i, (i < hint_count)%nat -> (dist * (i + 1) < count n)%nat /\
            hint n i = head_of (getKey n (dist * (i + 1)))) as Hh.
  { intros i Hi. unfold hint_count in *. assert (dist * (i + 1) < count n)%nat by nia.
    split; [done|]. rewrite (s_hint n S) by done. by apply S. }
  intros [= <- <-]. unfold hint_count in *. split; [|split].
  - destruct (Nat.ltb_spec pos2 16); nia.
  - intros i Hi. destruct pos as [|pos']; [lia|].
    destruct (Hh pos') as [Hin Hv]; [lia|].
    specialize (P2 pos'). rewrite Hv in P2. apply lex_le_lt_trans with (getKey n (dist * (pos' + 1))).
    + apply sorted_lt; [done|]. split; nia.
    + apply head_lt; [by apply S|done|]. apply Z.leb_gt, P2. lia.
  - destruct (Nat.ltb_spec pos2 16) as [Hp2|]; intros i Hi; [|lia].
    destruct (Hh pos2) as [Hin Hv]; [lia|]. destruct (Hh pos) as [Hin' Hv']; [lia|].
    apply lex_lt_le_trans with (getKey n (dist * (pos2 + 1))).
    + apply head_lt; [done|by apply S|]. rewrite <- Hv.
      assert (head_of key <= hint n pos2) as Hle.
      { transitivity (hint n pos); [apply Z.leb_le, P3; lia|]. rewrite Hv, Hv'.
        apply head_le; [by apply S..|]. apply sorted_lt; [done|]. nia. }
      specialize (Q3 ltac:(lia)). destruct (Z.eqb_spec (hint n pos2) (head_of key)); [done|lia].
    + apply sorted_lt; [done|]. nia.
Qed.

(** * The stripped prefix *)

Lemma lex_cmp_strip p key :
  match lex_cmp (take (Nat.min (length key) (length p)) key) p with
  | Eq => key = p ++ drop (length p) key
  | c => forall s, lex_cmp key (p ++ s) = c
  end.
Proof.
  revert key; induction p as [|x p IH]; intros [|y key]; simpl; try done.
  destruct (y ?= x) eqn:E.
  - apply Z.compare_eq in E as ->. specialize (IH key). simpl.
    destruct (lex_cmp _ _); [by rewrite <- IH| |]; exact IH.
  - done.
  - done.
Qed.

#[local] Arguments search_loop : simpl never.

(** [prefix_ok]: the fence key holding the prefix is long enough. *)
Definition prefix_ok (n : BTreeNode) : Prop := length (getPrefix n) = prefix_length n.

Lemma full_key_strip n key i :
  key = getPrefix n ++ drop (prefix_length n) key ->
  lex_cmp (copyFullKey n i) key = lex_cmp (getKey n i) (drop (prefix_length n) key).
Proof. intros E. unfold copyFullKey. rewrite E at 1. apply lex_cmp_app. Qed.

(** The search after the prefix was stripped. *)
Lemma after_prefix_correct n key :
  searchable n -> Forall is_byte key ->
  key = getPrefix n ++ drop (prefix_length n) key ->
  exists lower upper pos found,
    hint_range n (head_of (drop (prefix_length n) key)) = (lower, upper) /\
    search_loop n (drop (prefix_length n) key) (S (upper - lower)) lower upper = Some (pos, found) /\
    (pos <= count n)%nat /\
    (forall i, (i < pos)%nat -> copyFullKey n i <ₗ key) /\
    (forall i, (pos <= i < count n)%nat -> key ≤ₗ copyFullKey n i) /\
    (found = true <-> (pos < count n)%nat /\ copyFullKey n pos = key).
Proof.
  intros HS Hk E. set (rest := drop (prefix_length n) key) in *.
  assert (Forall is_byte rest) as Hr by (by apply Forall_drop).
  destruct (hint_range n (head_of rest)) as [lower upper] eqn:Eh.
  destruct (hint_range_correct n rest lower upper) as (Hb & Hlo & Hup); [done..|].
  destruct (search_loop_correct n rest (S (upper - lower)) lower upper)
    as (pos & found & Es & (Hp & Hl & Hu) & Hf); [done..|lia|done|done|].
  exists lower, upper, pos, found. repeat split; try done.
  - intros i Hi. unfold lex_lt. rewrite full_key_strip by done. by apply Hl.
  - intros i Hi. unfold lex_le. rewrite lex_cmp_antisym, full_key_strip, <- lex_cmp_antisym by done.
    by apply Hu.
  - by apply Hf.
  - apply Hf in H as [Hc Hkey]. unfold copyFullKey. by rewrite Hkey.
  - intros [Hc Hkey]. apply Hf. split; [done|]. unfold copyFullKey in Hkey.
    rewrite E in Hkey at 1. by apply app_inv_head in Hkey.
Qed.

(** [lowerBound<false>] on the full keys. *)
Lemma lowerBound_false_correct n key :
  searchable n -> prefix_ok n -> Forall is_byte key ->
  exists pos eq, lowerBound false n key = Some (Z.of_nat pos, eq) /\
    (pos <= count n)%nat /\
    (forall i, (i < pos)%nat -> copyFullKey n i <ₗ key) /\
    (forall i, (pos <= i < count n)%nat -> key ≤ₗ copyFullKey n i) /\
    (eq = true <-> is_leaf n = true /\ (pos < count n)%nat /\ copyFullKey n pos = key).
Proof.
  intros S Hp Hk. unfold lowerBound. cbn zeta.
  pose proof (lex_cmp_strip (getPrefix n) key) as Hs. rewrite Hp in Hs.
  set (c := cmpKeys _ _). pose proof (cmpKeys_lex
    (take (Nat.min (length key) (prefix_length n)) key) (getPrefix n)) as Hc. fold c in Hc.
  destruct (lex_cmp _ _) in Hs, Hc.
  - apply Z.compare_eq in Hc. rewrite Hc. simpl.
    destruct (after_prefix_correct n key) as (lo & up & pos & found & Eh & Es & H1 & H2 & H3 & H4);
      [done..|]. rewrite Eh. cbv beta iota. rewrite Es.
    destruct found; eexists pos, _; repeat split; try done; intros; try tauto.
  - apply Z.compare_lt_iff in Hc. rewrite (proj2 (Z.ltb_lt _ _)) by done.
    exists 0%nat, false. repeat split; try lia; try done.
    + intros i Hi. unfold lex_le, copyFullKey. by rewrite Hs.
    + intros (_ & _ & Hkey). unfold copyFullKey in Hkey. specialize (Hs (getKey n 0)).
      rewrite Hkey, lex_cmp_refl in Hs. done.
  - apply Z.compare_gt_iff in Hc. rewrite (proj2 (Z.ltb_ge _ _)), (proj2 (Z.ltb_lt _ _)) by lia.
    exists (count n), false. repeat split; try lia; try done.
    + intros i Hi. apply lex_cmp_gt. unfold copyFullKey. by rewrite Hs.
Qed.

(** [lowerBound<true>] finds the key or returns [-1]. *)
Lemma lowerBound_true_correct n key :
  searchable n -> prefix_ok n -> Forall is_byte key ->
  (exists pos, lowerBound true n key = Some (Z.of_nat pos, is_leaf n) /\
     (pos < count n)%nat /\ copyFullKey n pos = key) \/
  (lowerBound true n key = Some (-1, false) /\
     forall i, (i < count n)%nat -> copyFullKey n i <> key).
Proof.
  intros S Hp Hk. unfold lowerBound. cbn zeta.
  destruct (Nat.ltb_spec (length key) (prefix_length n)) as [Hlt|Hge]; simpl.
  { right. split; [done|]. intros i Hi <-. unfold copyFullKey in Hlt.
    rewrite length_app, Hp in Hlt. lia. }
  assert (memcmp key (getPrefix n) (prefix_length n) = 0 <-> take (prefix_length n) key = getPrefix n) as Hm.
  { rewrite memcmp_eq by (rewrite ?Hp; lia).
    by rewrite (take_ge (getPrefix n)) by (rewrite Hp; lia). }
  destruct (Z.eqb_spec (memcmp key (getPrefix n) (prefix_length n)) 0) as [E|E]; simpl.
  - apply Hm in E. assert (key = getPrefix n ++ drop (prefix_length n) key) as Ek
      by by rewrite <- E, take_drop.
    destruct (after_prefix_correct n key) as (lo & up & pos & found & Eh & Es & H1 & H2 & H3 & H4);
      [done..|]. rewrite Eh. cbv beta iota. rewrite Es.
    destruct found.
    + left. exists pos. split; [done|]. by apply H4.
    + right. split; [done|]. intros i Hi Hkey.
      destruct (decide (i = pos)) as [->|]; [by assert (false = true) by by apply H4|].
      destruct (decide (i < pos)%nat).
      * eapply (lex_lt_irrefl key). rewrite <- Hkey at 1. by apply H2.
      * assert (copyFullKey n pos <> key) as Hne by (intros Hc; assert (false = true) by (apply H4; split; [lia|done]); done).
        specialize (H3 pos ltac:(lia)). apply lex_le_lteq in H3 as [H3|H3]; [|done].
        eapply (lex_lt_irrefl key). eapply lex_lt_le_trans; [exact H3|]. rewrite <- Hkey.
        unfold lex_le, copyFullKey. rewrite lex_cmp_app. apply sorted_lt; [done|lia].
  - right. split; [done|]. intros i Hi <-. apply E, Hm. unfold copyFullKey.
    unfold prefix_ok in Hp. rewrite <- Hp at 1. by rewrite take_app_length.
Qed.
