(* ===== verification/BTreeNodeSpace.v ===== *)
(** Space management of a B-tree page: the heap of key/payload bytes, the slot
    array and the space counters stay consistent, and every page operation
    does to the abstract list of (full key, payload) entries what its name
    says.

    [heap_ok L n] says that the slots [L] are stored correctly in page [n];
    it mentions the slots as a list, so the same lemmas serve insertion in the
    middle, removal, and the copy loops that fill a new page. *)
From stdpp Require Import sorting.
From S2P Require Import Prelude BTreeNode BTreeNodeSearch.
Local Open Scope Z_scope.

(** * Slots as a list *)

Definition slot_list (c : nat) (n : BTreeNode) : list Slot := map (slot n) (seq 0 c).

Definition slot_size (s : Slot) : Z := Z.of_nat (key_len s) + Z.of_nat (payload_len s).

Definition slot_key (n : BTreeNode) (s : Slot) : list Z :=
  read_bytes (bytes n) (offset s) (key_len s).

Definition slot_payload (n : BTreeNode) (s : Slot) : list Z :=
  read_bytes (bytes n) (offset s + Z.of_nat (key_len s)) (payload_len s).

Definition slot_entry (n : BTreeNode) (s : Slot) : list Z * list Z :=
  (getPrefix n ++ slot_key n s, slot_payload n s).

Definition total (L : list Slot) : Z := foldr (fun s a => slot_size s + a) 0 L.

Lemma entries_slot_list n : entries n = map (slot_entry n) (slot_list (count n) n).
Proof. unfold entries, slot_list. by rewrite map_map. Qed.

Lemma length_slot_list c n : length (slot_list c n) = c.
Proof. unfold slot_list. by rewrite length_map, length_seq. Qed.

Lemma lookup_slot_list c n i : (i < c)%nat -> slot_list c n !! i = Some (slot n i).
Proof. apply lookup_map_seq. Qed.

Lemma length_entries n : length (entries n) = count n.
Proof. by rewrite entries_slot_list, length_map, length_slot_list. Qed.

Lemma lookup_entries n i : (i < count n)%nat -> entries n !! i = Some (entry n i).
Proof. apply lookup_map_seq. Qed.

(** Two slot lists are equal when they agree index by index. *)
Lemma slot_list_ext c n (L : list Slot) :
  length L = c -> (forall i, (i < c)%nat -> L !! i = Some (slot n i)) -> slot_list c n = L.
Proof.
  intros Hl H. apply list_eq. intros i. destruct (decide (i < c)%nat) as [Hi|Hi].
  - by rewrite H, lookup_slot_list.
  - rewrite !lookup_ge_None_2; [done|lia|rewrite length_slot_list; lia].
Qed.

Lemma slot_list_insert n i x c :
  (i <= c)%nat ->
  slot_list (S c) (set_slot (memmove_slots n (i + 1) i (c - i)) i x) =
  take i (slot_list c n) ++ x :: drop i (slot_list c n).
Proof.
  intros Hi. apply slot_list_ext.
  - rewrite length_app. simpl. rewrite length_take, length_drop, length_slot_list. lia.
  - intros j Hj. simpl.
    destruct (Nat.eqb_spec j i) as [->|Hne].
    + rewrite lookup_app_r by (rewrite length_take, length_slot_list; lia).
      rewrite length_take, length_slot_list. by replace (i - i `min` c)%nat with 0%nat by lia.
    + destruct (Nat.leb_spec (i + 1) j), (Nat.ltb_spec j (i + 1 + (c - i))); simpl; try lia.
      * rewrite lookup_app_r by (rewrite length_take, length_slot_list; lia).
        rewrite length_take, length_slot_list. replace (j - i `min` c)%nat with (S (j - i - 1)) by lia.
        simpl. rewrite lookup_drop, lookup_slot_list by lia. do 2 f_equal. lia.
      * rewrite lookup_app_l by (rewrite length_take, length_slot_list; lia).
        rewrite lookup_take_lt, lookup_slot_list by lia. done.
Qed.

Lemma slot_list_remove n i c :
  (i < c)%nat ->
  slot_list (c - 1) (memmove_slots n i (i + 1) (c - i - 1)) =
  take i (slot_list c n) ++ drop (S i) (slot_list c n).
Proof.
  intros Hi. apply slot_list_ext.
  - rewrite length_app, length_take, length_drop, length_slot_list. lia.
  - intros j Hj. simpl. destruct (Nat.leb_spec i j), (Nat.ltb_spec j (i + (c - i - 1))); simpl; try lia.
    + rewrite lookup_app_r by (rewrite length_take, length_slot_list; lia).
      rewrite length_take, length_slot_list, lookup_drop, lookup_slot_list by lia. do 2 f_equal. lia.
    + rewrite lookup_app_l by (rewrite length_take, length_slot_list; lia).
      rewrite lookup_take_lt, lookup_slot_list by lia. done.
Qed.

Lemma slot_list_snoc n c x : slot_list (S c) (set_slot n c x) = slot_list c n ++ [x].
Proof.
  apply slot_list_ext; [rewrite length_app, length_slot_list; simpl; lia|].
  intros j Hj. simpl. destruct (Nat.eqb_spec j c) as [->|].
  - rewrite lookup_app_r; rewrite length_slot_list; [|lia]. by rewrite Nat.sub_diag.
  - rewrite lookup_app_l by (rewrite length_slot_list; lia). apply lookup_slot_list. lia.
Qed.

Lemma total_app L1 L2 : total (L1 ++ L2) = total L1 + total L2.
Proof. induction L1; simpl; lia. Qed.

Lemma total_nonneg L : 0 <= total L.
Proof. induction L; simpl; unfold slot_size; lia. Qed.

Lemma total_insert i x L : total (take i L ++ x :: drop i L) = slot_size x + total L.
Proof.
  rewrite total_app. simpl. rewrite <- (take_drop i L) at 3. rewrite total_app. lia.
Qed.

Lemma total_remove i x L :
  L !! i = Some x -> total (take i L ++ drop (S i) L) = total L - slot_size x.
Proof.
  intros H. rewrite <- (take_drop_middle L i x H) at 3. rewrite !total_app. simpl. lia.
Qed.

(** * The heap invariant *)

Definition slot_ok (n : BTreeNode) (s : Slot) : Prop :=
  data_offset n <= offset s /\ offset s + slot_size s <= EFFECTIVE_PAGE_SIZE /\
  head s = head_of (slot_key n s).

Definition fence_ok (n : BTreeNode) (f : FenceKey) : Prop :=
  (fk_offset f = 0 /\ fk_length f = 0%nat) \/
  (0 < fk_offset f /\ data_offset n <= fk_offset f /\
   fk_offset f + Z.of_nat (fk_length f) <= EFFECTIVE_PAGE_SIZE).

Definition fences_len (n : BTreeNode) : Z :=
  Z.of_nat (fk_length (lower_fence n)) + Z.of_nat (fk_length (upper_fence n)).

(** The areas of the heap in use, as start and length: no two overlap. *)
Definition apart (a b : Z * Z) : Prop := a.1 + a.2 <= b.1 \/ b.1 + b.2 <= a.1.

Definition slot_area (s : Slot) : Z * Z := (offset s, slot_size s).
Definition fence_area (f : FenceKey) : Z * Z := (fk_offset f, Z.of_nat (fk_length f)).

Definition areas (L : list Slot) (n : BTreeNode) : list (Z * Z) :=
  fence_area (lower_fence n) :: fence_area (upper_fence n) :: map slot_area L.

Definition all_apart (l : list (Z * Z)) : Prop := forall i j a b,
  l !! i = Some a -> l !! j = Some b -> i <> j -> apart a b.

Record heap_ok (L : list Slot) (n : BTreeNode) : Prop := HeapOk {
  ho_apart : all_apart (areas L n);
  ho_bytes : forall a, is_byte (bytes n a);
  ho_low : slots_end (length L) <= data_offset n;
  ho_slots : Forall (slot_ok n) L;
  ho_lower : fence_ok n (lower_fence n);
  ho_upper : fence_ok n (upper_fence n);
  ho_space : space_used n = total L + fences_len n;
  ho_heap : space_used n <= EFFECTIVE_PAGE_SIZE - data_offset n;
  ho_prefix : prefix_length n = common_prefix_len
      (default [] (getLowerFenceKey n)) (default [] (getUpperFenceKey n)) }.

Lemma all_apart_cons a l : all_apart (a :: l) <-> Forall (apart a) l /\ all_apart l.
Proof.
  unfold all_apart. split.
  - intros H. split; [|intros i j b c Hi Hj Hn; apply (H (S i) (S j)); (done || lia)].
    apply list.Forall_forall. intros b [i Hi]%list_elem_of_lookup. by apply (H 0%nat (S i)).
  - intros [Ha H] [|i] [|j] b c Hi Hj Hn; simpl in *; simplify_eq; try done.
    + rewrite Forall_lookup in Ha. eauto.
    + rewrite Forall_lookup in Ha. unfold apart in *. destruct (Ha _ _ Hi); lia.
    + apply (H i j); (done || lia).
Qed.

#[export] Instance all_apart_proper : Proper ((≡ₚ) ==> iff) all_apart.
Proof.
  intros l1 l2 E. induction E as [|a l1 l2 E IH|a b l|l1 l2 l3 E1 IH1 E2 IH2]; [done| | |by rewrite IH1].
  - rewrite !all_apart_cons, IH. by rewrite E.
  - rewrite !all_apart_cons, !list.Forall_cons. unfold apart. intuition.
Qed.

Lemma areas_take_cons j x L n :
  areas (take j L ++ x :: drop j L) n ≡ₚ slot_area x :: areas L n.
Proof.
  unfold areas. rewrite <- (take_drop j L) at 3. rewrite !map_app. simpl.
  rewrite <- Permutation_middle. etransitivity; [constructor; apply Permutation_swap|]. apply Permutation_swap.
Qed.

Lemma areas_remove i x L n :
  L !! i = Some x -> all_apart (areas L n) -> all_apart (areas (take i L ++ drop (S i) L) n).
Proof.
  intros Hx. rewrite <- (take_drop_middle L i x Hx) at 1. unfold areas. rewrite !map_app. simpl.
  rewrite <- Permutation_middle, (Permutation_swap _ (fence_area (upper_fence n))), (Permutation_swap _ (fence_area (lower_fence n))).
  by intros [_ H]%all_apart_cons.
Qed.

Lemma areas_nil n : apart (fence_area (lower_fence n)) (fence_area (upper_fence n)) -> all_apart (areas [] n).
Proof.
  intros H. apply all_apart_cons. split; [constructor; [done|constructor]|].
  apply all_apart_cons. split; [constructor|]. by intros [] ? ? ? Hi.
Qed.

(** Every area lies above [data_offset] or is the empty one at 0. *)
Lemma areas_above L n a :
  heap_ok L n -> a ∈ areas L n -> a = (0, 0) \/ data_offset n <= a.1.
Proof.
  intros H. unfold areas. rewrite !elem_of_cons. intros [->|[->|Ha]].
  - destruct (ho_lower _ _ H) as [[E1 E2]|(H1 & H2 & _)]; unfold fence_area; simpl; [rewrite E1, E2; by left|by right].
  - destruct (ho_upper _ _ H) as [[E1 E2]|(H1 & H2 & _)]; unfold fence_area; simpl; [rewrite E1, E2; by left|by right].
  - apply list_elem_of_fmap in Ha as (s & -> & Hs). right. pose proof (ho_slots _ _ H) as F.
    rewrite list.Forall_forall in F. apply (F s Hs).
Qed.

(** [same_frame n n']: the two pages agree on everything but their slots,
    heap and space counters. *)
Definition same_frame (n n' : BTreeNode) : Prop :=
  getLowerFenceKey n' = getLowerFenceKey n /\ getUpperFenceKey n' = getUpperFenceKey n /\
  prefix_length n' = prefix_length n /\ upper n' = upper n /\ is_leaf n' = is_leaf n.

#[export] Instance same_frame_trans : Transitive same_frame.
Proof. intros a b c (?&?&?&?&?) (?&?&?&?&?). unfold same_frame. intuition congruence. Qed.

#[export] Instance same_frame_refl : Reflexive same_frame.
Proof. done. Qed.

Lemma same_frame_prefix n n' : same_frame n n' -> getPrefix n' = getPrefix n.
Proof. intros (E & _ & Ep & _). unfold getPrefix. by rewrite E, Ep. Qed.

Ltac consts :=
  unfold slots_end, slot_base, sizeof_Slot, EFFECTIVE_PAGE_SIZE, PAGE_SIZE, fences_len in *;
  simpl in *.

Lemma heap_bounds L n :
  heap_ok L n ->
  0 < data_offset n <= EFFECTIVE_PAGE_SIZE /\ 0 <= space_used n <= EFFECTIVE_PAGE_SIZE.
Proof.
  intros []. pose proof (total_nonneg L). consts. lia.
Qed.

(** * Pushing bytes onto the heap *)

Section push.
Context (n : BTreeNode) (bs : list Z).
Context (Hfit : Z.of_nat (length bs) < data_offset n) (Hdo : data_offset n <= EFFECTIVE_PAGE_SIZE).
Context (Hsu : 0 <= space_used n) (Hsu' : space_used n + Z.of_nat (length bs) < 65536).

Lemma push_data_offset : data_offset (push_bytes n bs) = data_offset n - Z.of_nat (length bs).
Proof. consts. rewrite !wrap_small; unfold in_width; rewrite ?wrap_small; unfold in_width; lia. Qed.

Lemma push_space_used : space_used (push_bytes n bs) = space_used n + Z.of_nat (length bs).
Proof. consts. rewrite !wrap_small; unfold in_width; rewrite ?wrap_small; unfold in_width; lia. Qed.

Lemma push_read off len :
  data_offset n <= off ->
  read_bytes (bytes (push_bytes n bs)) off len = read_bytes (bytes n) off len.
Proof.
  intros H. pose proof push_data_offset as E. simpl in *. rewrite E.
  apply read_write_other. lia.
Qed.

Lemma push_read_new :
  read_bytes (bytes (push_bytes n bs)) (data_offset (push_bytes n bs)) (length bs) = bs.
Proof. by apply read_write_same. Qed.

Lemma push_is_byte a :
  (forall a, is_byte (bytes n a)) -> Forall is_byte bs -> is_byte (bytes (push_bytes n bs) a).
Proof.
  intros Hb Hbs. unfold push_bytes, write_bytes. simpl. case_match; [|done].
  rewrite List.Forall_forall in Hbs. destruct (nth_in_or_default
    (Z.to_nat (a - u16 (data_offset n - u16 (Z.of_nat (length bs))))) bs 0) as [Hin| ->]; [auto|done].
Qed.

Lemma push_slot_key s : slot_ok n s -> slot_key (push_bytes n bs) s = slot_key n s.
Proof. intros (H & _). apply push_read. lia. Qed.

Lemma push_slot_payload s : slot_ok n s -> slot_payload (push_bytes n bs) s = slot_payload n s.
Proof. intros (H & _). apply push_read. lia. Qed.

Lemma push_slot_ok s : slot_ok n s -> slot_ok (push_bytes n bs) s.
Proof.
  intros Hs. pose proof Hs as (H1 & H2 & H3). unfold slot_ok.
  rewrite push_data_offset, push_slot_key by done. repeat split; [lia|done|done].
Qed.

Lemma push_fence f : fence_ok n f -> fence_bytes (push_bytes n bs) f = fence_bytes n f.
Proof.
  unfold fence_bytes. intros [[-> _]|(H0 & H1 & H2)]; [done|].
  rewrite (proj2 (Z.eqb_neq _ _)) by lia. by rewrite push_read.
Qed.

Lemma push_fence_ok f : fence_ok n f -> fence_ok (push_bytes n bs) f.
Proof.
  intros [H|(H0 & H1 & H2)]; [by left|]. right. rewrite push_data_offset. lia.
Qed.

End push.

(** * Storing one entry *)

(** The common effect of [storeKeyValue] and of the fast path of
    [copyKeyValueRange]: the stripped key [k] and the payload [p] go to the
    heap and slot [i] describes them. *)
Definition put_slot (n : BTreeNode) (i : nat) (k p : list Z) : BTreeNode :=
  let n' := push_bytes n (k ++ p) in
  set_slot n' i (mkSlot (data_offset n') (length k) (length p) (head_of k)).

Lemma storeKeyValue_put n i key payload :
  Z.of_nat (length payload) < 32768 ->
  storeKeyValue n i key payload = put_slot n i (drop (prefix_length n) key) payload.
Proof.
  intros H. unfold storeKeyValue, put_slot.
  assert (payload_bits (length payload) = length payload) as ->; [|done].
  unfold payload_bits. rewrite wrap_small by (unfold in_width; lia). apply Nat2Z.id.
Qed.

Lemma copySlot_put src j dst i :
  head (slot src j) = head_of (getKey src j) ->
  copySlot src j dst i = put_slot dst i (getKey src j) (getPayload src j).
Proof.
  intros H. unfold copySlot, put_slot, getKeyLen, getPayloadLength.
  rewrite read_bytes_app. fold (getKey src j) (getPayload src j).
  rewrite H, length_getKey.
  assert (length (getPayload src j) = payload_len (slot src j)) as -> by apply length_read_bytes.
  done.
Qed.

(** [heap_ok] does not look at the slot array, the hints or the count. *)
Lemma heap_ok_ext L n n' :
  heap_ok L n ->
  bytes n' = bytes n -> data_offset n' = data_offset n -> space_used n' = space_used n ->
  lower_fence n' = lower_fence n -> upper_fence n' = upper_fence n ->
  prefix_length n' = prefix_length n -> heap_ok L n'.
Proof.
  intros [] Eb Ed Es El Eu Ep.
  constructor; unfold areas, fence_ok, fences_len, getLowerFenceKey, getUpperFenceKey, fence_bytes in *;
    rewrite ?Eb, ?Ed, ?Es, ?El, ?Eu, ?Ep; try done.
  eapply List.Forall_impl; [|exact ho_slots0]. intros s (H1 & H2 & H3). unfold slot_ok, slot_key.
  by rewrite Eb, Ed.
Qed.

Lemma slot_entry_ext n n' s :
  bytes n' = bytes n -> getPrefix n' = getPrefix n -> slot_entry n' s = slot_entry n s.
Proof. intros Eb Ep. unfold slot_entry, slot_key, slot_payload. by rewrite Eb, Ep. Qed.

Section put.
Context (L : list Slot) (n : BTreeNode) (i : nat) (k p : list Z).
Context (Hok : heap_ok L n) (Hk : Forall is_byte k) (Hp : Forall is_byte p).
Context (Hroom : slots_end (S (length L)) + Z.of_nat (length k) + Z.of_nat (length p) <= data_offset n).

Let n' := put_slot n i k p.
Let x := slot n' i.

Lemma put_room :
  Z.of_nat (length (k ++ p)) < data_offset n /\ data_offset n <= EFFECTIVE_PAGE_SIZE /\
  0 <= space_used n /\ space_used n + Z.of_nat (length (k ++ p)) < 65536.
Proof.
  pose proof (heap_bounds L n Hok) as [Hd Hs]. destruct Hok. rewrite length_app.
  pose proof (total_nonneg L). consts. lia.
Qed.

Lemma put_data_offset :
  data_offset n' = data_offset n - Z.of_nat (length k) - Z.of_nat (length p).
Proof.
  destruct put_room as (?&?&?&?). unfold n'. cbn [put_slot set_slot set_slots data_offset].
  rewrite push_data_offset by done. rewrite length_app. lia.
Qed.

Lemma put_slot_self : x = mkSlot (data_offset n') (length k) (length p) (head_of k).
Proof. unfold x, n', put_slot. simpl. by rewrite Nat.eqb_refl. Qed.

Lemma put_fence f : fence_ok n f -> fence_bytes n' f = fence_bytes n f.
Proof. destruct put_room as (?&?&?&?). intros. by apply (push_fence n (k ++ p)). Qed.

Lemma put_same_frame : same_frame n n'.
Proof.
  destruct Hok. unfold same_frame, getLowerFenceKey, getUpperFenceKey.
  repeat split; by apply put_fence.
Qed.

Lemma put_key_new : slot_key n' x = k /\ slot_payload n' x = p.
Proof.
  destruct put_room as (?&?&?&?).
  pose proof (push_read_new n (k ++ p)) as H3. rewrite length_app, read_bytes_app in H3.
  apply app_inj_1 in H3 as [E1 E2]; [|by rewrite length_read_bytes].
  rewrite put_slot_self. done.
Qed.

Lemma put_slot_entry_new : slot_entry n' x = (getPrefix n ++ k, p).
Proof.
  unfold slot_entry. destruct put_key_new as [-> ->].
  by rewrite (same_frame_prefix n n') by apply put_same_frame.
Qed.

Lemma put_slot_entry_old s : slot_ok n s -> slot_entry n' s = slot_entry n s.
Proof.
  intros Hs. destruct put_room as (?&?&?&?). unfold slot_entry.
  rewrite (same_frame_prefix n n') by apply put_same_frame.
  f_equal; [f_equal; by apply (push_slot_key n (k ++ p))|by apply (push_slot_payload n (k ++ p))].
Qed.

Lemma put_entries_old : map (slot_entry n') L = map (slot_entry n) L.
Proof.
  apply map_ext_in. intros s Hs. apply put_slot_entry_old.
  pose proof (ho_slots _ _ Hok) as H. rewrite List.Forall_forall in H. auto.
Qed.

Lemma put_new_ok : slot_ok n' x.
Proof.
  pose proof (heap_bounds L n Hok). destruct put_key_new as [Ek _].
  unfold slot_ok. rewrite Ek. rewrite put_slot_self. unfold slot_size.
  cbn [offset key_len payload_len head]. rewrite put_data_offset. repeat split; lia.
Qed.

(** The new area lies below the ones in use. *)
Lemma put_area : Forall (apart (slot_area x)) (areas L n).
Proof.
  apply list.Forall_forall. intros a Ha. pose proof put_data_offset.
  pose proof put_room as [Hr _]. rewrite length_app in Hr.
  destruct (areas_above L n a Hok Ha) as [-> |H1]; rewrite put_slot_self; unfold apart, slot_area, slot_size; cbn [fst snd offset key_len payload_len]; lia.
Qed.

Lemma put_heap_ok j : heap_ok (take j L ++ x :: drop j L) n'.
Proof.
  destruct put_room as (Hr1&Hr2&Hr3&Hr4). pose proof put_data_offset as Hd.
  pose proof put_same_frame as (Fl & Fu & Fp & _).
  assert (length (take j L ++ x :: drop j L) = S (length L)) as Hlen.
  { rewrite length_app. simpl. rewrite length_take, length_drop. lia. }
  pose proof put_area as Ha. destruct Hok. constructor.
  - rewrite areas_take_cons. by apply all_apart_cons.
  - intros a. apply (push_is_byte n (k ++ p)); [done|by apply Forall_app].
  - rewrite Hlen, Hd. lia.
  - assert (Forall (slot_ok n') L) as HL.
    { eapply List.Forall_impl; [|exact ho_slots0]. intros s Hs.
      by apply (push_slot_ok n (k ++ p)). }
    apply Forall_app. split; [by apply Forall_take|]. constructor; [apply put_new_ok|by apply Forall_drop].
  - by apply (push_fence_ok n (k ++ p)).
  - by apply (push_fence_ok n (k ++ p)).
  - rewrite total_insert. change (fences_len n') with (fences_len n).
    change (space_used n') with (space_used (push_bytes n (k ++ p))).
    rewrite push_space_used, length_app, ho_space0 by done.
    rewrite put_slot_self. unfold slot_size. simpl. lia.
  - change (space_used n') with (space_used (push_bytes n (k ++ p))).
    rewrite push_space_used, length_app, Hd by done. lia.
  - rewrite Fl, Fu, Fp. done.
Qed.

End put.

(** * Filling a page *)

Definition kv_total (kvs : list (list Z * list Z)) : Z :=
  foldr (fun kv a => Z.of_nat (length kv.1) + Z.of_nat (length kv.2) + a) 0 kvs.

Definition kv_bytes (kv : list Z * list Z) : Prop := Forall is_byte kv.1 /\ Forall is_byte kv.2.

(** Append entries (keys stripped) from slot [i] on. *)
Fixpoint put_all (d : BTreeNode) (i : nat) (kvs : list (list Z * list Z)) : BTreeNode :=
  match kvs with
  | [] => d
  | (k, p) :: kvs' => put_all (put_slot d i k p) (S i) kvs'
  end.

Lemma kv_total_nonneg kvs : 0 <= kv_total kvs.
Proof. induction kvs; simpl; lia. Qed.

Lemma kv_total_app a b : kv_total (a ++ b) = kv_total a + kv_total b.
Proof. induction a; simpl; lia. Qed.

Lemma slots_end_add a b : slots_end (a + b) = slots_end a + sizeof_Slot * Z.of_nat b.
Proof. consts. lia. Qed.

Lemma put_all_ok d c kvs :
  heap_ok (slot_list c d) d -> Forall kv_bytes kvs ->
  slots_end (c + length kvs) + kv_total kvs <= data_offset d ->
  let d' := put_all d c kvs in
  heap_ok (slot_list (c + length kvs) d') d' /\ same_frame d d' /\
  map (slot_entry d') (slot_list (c + length kvs) d') =
    map (slot_entry d) (slot_list c d) ++ map (fun kv => (getPrefix d ++ kv.1, kv.2)) kvs /\
  data_offset d' = data_offset d - kv_total kvs /\ count d' = count d.
Proof.
  revert d c. induction kvs as [|[k p] kvs IH]; intros d c Hok Hb Hroom.
  { simpl. rewrite Nat.add_0_r, app_nil_r, Z.sub_0_r. done. }
  inversion Hb as [|? ? [Hk Hp] Hb']; subst. simpl in Hk, Hp.
  cbn [put_all length kv_total foldr fst snd] in *. fold (kv_total kvs) in *.
  pose proof (kv_total_nonneg kvs).
  assert (slots_end (S (length (slot_list c d))) + Z.of_nat (length k) + Z.of_nat (length p)
            <= data_offset d) as Hr1.
  { rewrite length_slot_list. rewrite slots_end_add in Hroom. consts. lia. }
  set (d1 := put_slot d c k p) in *.
  pose proof (put_heap_ok _ d c k p Hok Hk Hp Hr1 c) as H1.
  pose proof (put_same_frame _ d c k p Hok Hr1) as F1.
  pose proof (put_entries_old _ d c k p Hok Hr1) as E1.
  pose proof (put_slot_entry_new _ d c k p Hok Hr1) as E2.
  pose proof (put_data_offset _ d c k p Hok Hr1) as D1. fold d1 in H1, F1, E1, E2, D1.
  assert (slot_list (S c) d1 = slot_list c d ++ [slot d1 c]) as Hsl.
  { unfold d1, put_slot. rewrite slot_list_snoc. simpl. by rewrite Nat.eqb_refl. }
  rewrite take_ge, drop_ge in H1 by (rewrite length_slot_list; lia). rewrite <- Hsl in H1.
  destruct (IH d1 (S c) H1 Hb') as (I1 & I2 & I3 & I4 & I5).
  { rewrite D1. replace (S c + length kvs)%nat with (c + S (length kvs))%nat by lia. lia. }
  replace (c + S (length kvs))%nat with (S c + length kvs)%nat by lia.
  split; [done|]. split; [by etransitivity|]. split; [|split; [lia|done]].
  rewrite I3, Hsl, map_app, E1. cbn [map]. rewrite E2, (same_frame_prefix d d1 F1).
  by rewrite <- app_assoc.
Qed.

(** ** Fences *)

Record fence_stage (n : BTreeNode) : Prop := FenceStage {
  fs_apart : apart (fence_area (lower_fence n)) (fence_area (upper_fence n));
  fs_bytes : forall a, is_byte (bytes n a);
  fs_lower : fence_ok n (lower_fence n);
  fs_upper : fence_ok n (upper_fence n);
  fs_space : space_used n = fences_len n;
  fs_data : data_offset n = EFFECTIVE_PAGE_SIZE - space_used n }.

Definition no_fence (f : FenceKey) : Prop := fk_offset f = 0 /\ fk_length f = 0%nat.

Definition option_len (k : option (list Z)) : Z := Z.of_nat (length (default ([] : list Z) k)).

Lemma new_node_data_offset leaf : data_offset (new_node leaf) = EFFECTIVE_PAGE_SIZE.
Proof. done. Qed.

Lemma fence_stage_new leaf : fence_stage (new_node leaf).
Proof. constructor; try done; by left. Qed.

Lemma below_fence n d (l : Z) f : fence_ok n f -> 0 <= d -> d + l = data_offset n -> apart (d, l) (fence_area f).
Proof. unfold apart, fence_area. intros [[-> ->]|(H0 & H1 & _)] ? ?; simpl; lia. Qed.

Lemma apart_comm a b : apart a b -> apart b a.
Proof. unfold apart. intuition. Qed.

Lemma insertFence_ok (low : bool) n key :
  fence_stage n -> no_fence (if low then lower_fence n else upper_fence n) ->
  Forall is_byte (default [] key) -> slot_base + option_len key <= data_offset n ->
  let n' := insertFence low n key in
  fence_stage n' /\
  fence_bytes n' (if low then lower_fence n' else upper_fence n') = key /\
  fence_bytes n' (if low then upper_fence n' else lower_fence n') =
    fence_bytes n (if low then upper_fence n else lower_fence n) /\
  (if low then upper_fence n' = upper_fence n else lower_fence n' = lower_fence n) /\
  data_offset n' = data_offset n - option_len key.
Proof.
  intros S Hno Hb Hroom. unfold option_len in *. destruct key as [key|]; simpl in *.
  2:{ destruct Hno as [Ho Hl]. unfold fence_bytes. rewrite Z.sub_0_r.
      destruct low; rewrite Ho; simpl; (split; [done|]); done. }
  destruct S as [Sa Sb Sl Su Ss Sd].
  assert (Z.of_nat (length key) < data_offset n /\ data_offset n <= EFFECTIVE_PAGE_SIZE /\
    0 <= space_used n /\ space_used n + Z.of_nat (length key) < 65536) as (H1&H2&H3&H4)
    by (consts; lia).
  pose proof (push_data_offset n key H1 H2) as Ed.
  pose proof (push_space_used n key ltac:(done) ltac:(done) H3 H4) as Es.
  pose proof (push_read_new n key) as Er.
  assert (fence_ok (push_bytes n key) (mkFence (data_offset (push_bytes n key)) (length key))) as Hnew.
  { right. cbn [fk_offset fk_length]. rewrite Ed. consts. lia. }
  assert (forall m, bytes m = bytes (push_bytes n key) ->
     fence_bytes m (mkFence (data_offset (push_bytes n key)) (length key)) = Some key) as Hkey.
  { intros m Hm. unfold fence_bytes. cbn [fk_offset fk_length]. rewrite Hm, Er.
    rewrite (proj2 (Z.eqb_neq _ _)) by (rewrite Ed; consts; lia). done. }
  set (m := push_bytes n key) in *.
  assert (lower_fence m = lower_fence n) as Elf by done.
  assert (upper_fence m = upper_fence n) as Euf by done.
  assert (forall a, is_byte (bytes m a)) as Hmb by (intros; by apply push_is_byte).
  assert (fence_ok m (lower_fence m)) as Hml by by apply push_fence_ok.
  assert (fence_ok m (upper_fence m)) as Hmu by by apply push_fence_ok.
  assert (fence_bytes m (lower_fence n) = fence_bytes n (lower_fence n)) as Fl by by apply push_fence.
  assert (fence_bytes m (upper_fence n) = fence_bytes n (upper_fence n)) as Fu by by apply push_fence.
  assert (forall f, fence_ok n f -> apart (fence_area (mkFence (data_offset m) (length key))) (fence_area f)) as Ha.
  { intros f Hf. apply (below_fence n); [done|cbn [fk_offset fk_length]; lia|cbn [fk_offset fk_length]; lia]. }
  destruct low; destruct Hno as [Ho Hl];
    (split; [constructor|split; [by apply Hkey|split; [assumption|split; [done|]]]]);
    try assumption; try done; try (by apply Ha); try (by apply apart_comm, Ha);
    unfold fences_len in *;
    cbn [set_lower_fence set_upper_fence data_offset space_used lower_fence upper_fence fk_length] in *;
    rewrite ?Elf, ?Euf; lia.
Qed.

Section set_fences.
Context (leaf : bool) (lk uk : option (list Z)).
Context (Hlk : Forall is_byte (default [] lk)) (Huk : Forall is_byte (default [] uk)).
Context (Hroom : slot_base + option_len lk + option_len uk <= EFFECTIVE_PAGE_SIZE).

Lemma setFences_ok :
  let n := setFences (new_node leaf) lk uk in
  heap_ok [] n /\ getLowerFenceKey n = lk /\ getUpperFenceKey n = uk /\
  prefix_length n = common_prefix_len (default [] lk) (default [] uk) /\
  data_offset n = EFFECTIVE_PAGE_SIZE - option_len lk - option_len uk /\
  count n = 0%nat /\ is_leaf n = leaf.
Proof.
  assert (0 <= option_len lk /\ 0 <= option_len uk) as [? ?] by (unfold option_len; lia).
  destruct (insertFence_ok true (new_node leaf) lk) as (S1 & L1 & _ & U1 & D1);
    [apply fence_stage_new|done|done|rewrite new_node_data_offset; lia|].
  set (n1 := insertFence true (new_node leaf) lk) in *.
  destruct (insertFence_ok false n1 uk) as (S2 & U2 & L2 & E2 & D2);
    [done|by rewrite U1|done|rewrite D1, new_node_data_offset; lia|].
  set (n2 := insertFence false n1 uk) in *.
  assert (getLowerFenceKey n2 = lk) as Gl by (unfold getLowerFenceKey; by rewrite L2, L1).
  assert (data_offset n2 = EFFECTIVE_PAGE_SIZE - option_len lk - option_len uk) as Hd
    by (rewrite D2, D1, new_node_data_offset; lia).
  assert (count n2 = 0%nat /\ is_leaf n2 = leaf) as [Hc Hlf].
  { unfold n2, n1. by destruct lk, uk. }
  assert (heap_ok [] (setFences (new_node leaf) lk uk)) as Hh.
  { destruct S2. constructor; try done.
    - by apply areas_nil.
    - change (slot_base <= data_offset n2). lia.
    - change (space_used n2 <= EFFECTIVE_PAGE_SIZE - data_offset n2). lia.
    - change (common_prefix_len (default [] lk) (default [] uk) =
        common_prefix_len (default [] (getLowerFenceKey n2)) (default [] (getUpperFenceKey n2))).
      rewrite Gl. unfold getUpperFenceKey. by rewrite U2. }
  split; [exact Hh|]. split; [exact Gl|]. split; [exact U2|]. split; [done|].
  split; [exact Hd|]. done.
Qed.

End set_fences.

(** ** The prefix shared by the fences *)

(** Lower bound exclusive, upper bound inclusive. *)
Definition in_fences (lk uk : option (list Z)) (key : list Z) : Prop :=
  (forall lf, lk = Some lf -> lf <ₗ key) /\ (forall uf, uk = Some uf -> key ≤ₗ uf).

Lemma common_prefix_take a b :
  take (common_prefix_len a b) a = take (common_prefix_len a b) b /\
  (common_prefix_len a b <= length a)%nat /\ (common_prefix_len a b <= length b)%nat.
Proof.
  revert b; induction a as [|x a IH]; intros [|y b]; simpl; try (split; [done|lia]).
  destruct (Z.eqb_spec x y) as [->|]; [|simpl; split; [done|lia]].
  destruct (IH b) as (H1 & H2 & H3). simpl. rewrite H1. split; [done|lia].
Qed.

(** A key between two strings starts with their common prefix. *)
Lemma sandwich a b k :
  a ≤ₗ k -> k ≤ₗ b -> k = take (common_prefix_len a b) a ++ drop (common_prefix_len a b) k.
Proof.
  unfold lex_le.
  revert b k; induction a as [|x a IH]; intros [|y b] k Ha Hb; simpl; try done.
  destruct (Z.eqb_spec x y) as [->|]; [|done].
  destruct k as [|z k]; [done|]. simpl in *.
  assert (z = y) as ->.
  { destruct (Z.compare_spec y z), (Z.compare_spec z y); try done; lia. }
  rewrite Z.compare_refl in *. f_equal. by apply IH.
Qed.

Lemma in_fences_prefix lk uk key :
  in_fences lk uk key ->
  let p := common_prefix_len (default [] lk) (default [] uk) in
  key = take p (default [] lk) ++ drop p key.
Proof.
  intros [Hl Hu] p. destruct lk as [lf|], uk as [uf|]; simpl in *.
  - apply sandwich; [apply lex_le_lteq; left; auto|auto].
  - unfold p. by destruct lf.
  - done.
  - done.
Qed.

Lemma heap_prefix_key L n key :
  heap_ok L n -> in_fences (getLowerFenceKey n) (getUpperFenceKey n) key ->
  key = getPrefix n ++ drop (prefix_length n) key.
Proof. intros H Hf%in_fences_prefix. unfold getPrefix. rewrite (ho_prefix _ _ H). done. Qed.

Lemma heap_prefix_ok L n : heap_ok L n -> prefix_ok n.
Proof.
  intros H. unfold prefix_ok, getPrefix. rewrite length_take, (ho_prefix _ _ H).
  pose proof (common_prefix_take (default [] (getLowerFenceKey n)) (default [] (getUpperFenceKey n))).
  lia.
Qed.

(** * Copying a range of slots *)

Definition strip (d : BTreeNode) (e : list Z * list Z) : list Z * list Z :=
  (drop (prefix_length d) e.1, e.2).

(** The slots [ss, ss + cnt) of a page, as entries. *)
Definition range (n : BTreeNode) (ss cnt : nat) : list (list Z * list Z) :=
  take cnt (drop ss (entries n)).

Lemma range_map n ss cnt :
  (ss + cnt <= count n)%nat -> range n ss cnt = map (fun i => entry n (ss + i)) (seq 0 cnt).
Proof.
  intros H. apply list_eq. intros i. unfold range. destruct (decide (i < cnt)%nat).
  - rewrite lookup_take_lt, lookup_drop, lookup_entries, lookup_map_seq by lia. done.
  - rewrite !lookup_ge_None_2; [done|rewrite length_map, length_seq; lia|].
    rewrite length_take. lia.
Qed.

Lemma length_range n ss cnt : (ss + cnt <= count n)%nat -> length (range n ss cnt) = cnt.
Proof. intros H. by rewrite range_map, length_map, length_seq. Qed.

Lemma read_bytes_is_byte m off len :
  (forall a, is_byte (m a)) -> Forall is_byte (read_bytes m off len).
Proof. intros H. unfold read_bytes. apply List.Forall_map, List.Forall_forall. auto. Qed.

Lemma getPrefix_bytes L n : heap_ok L n -> Forall is_byte (getPrefix n).
Proof.
  intros H. unfold getPrefix, getLowerFenceKey, fence_bytes. case_match; simpl.
  - by rewrite take_nil.
  - apply Forall_take, read_bytes_is_byte, H.
Qed.

Lemma entries_bytes n : heap_ok (slot_list (count n) n) n -> Forall kv_bytes (entries n).
Proof.
  intros H. unfold entries. apply List.Forall_map, List.Forall_forall. intros i _. split.
  - apply Forall_app. split; [by eapply getPrefix_bytes|apply read_bytes_is_byte, H].
  - apply read_bytes_is_byte, H.
Qed.

Lemma heap_slot L n i :
  heap_ok L n -> L = slot_list (count n) n -> (i < count n)%nat -> slot_ok n (slot n i).
Proof.
  intros H -> Hi. pose proof (ho_slots _ _ H) as Hs. rewrite Forall_lookup in Hs.
  eapply Hs. by apply lookup_slot_list.
Qed.

Lemma slot_payload_small n i :
  heap_ok (slot_list (count n) n) n -> (i < count n)%nat ->
  Z.of_nat (length (getPayload n i)) < 32768.
Proof.
  intros H Hi. destruct (heap_slot _ n i H eq_refl Hi) as (H1 & H2 & _).
  pose proof (heap_bounds _ _ H). unfold getPayload. rewrite length_read_bytes.
  unfold slot_size in *. consts. lia.
Qed.

Lemma copy_loop_put one P (k p : nat -> list Z) ds cnt i0 d :
  (forall i d, (i0 <= i < i0 + cnt)%nat -> prefix_length d = P ->
     one i d = put_slot d (ds + i) (k i) (p i)) ->
  prefix_length d = P ->
  copy_loop one cnt i0 d = put_all d (ds + i0) (map (fun i => (k i, p i)) (seq i0 cnt)).
Proof.
  revert i0 d; induction cnt as [|cnt IH]; intros i0 d H Hd; [done|]. cbn [copy_loop seq map put_all].
  rewrite (H i0 d) by (done || lia). rewrite IH; [by rewrite Nat.add_succ_r| |done].
  intros i d' Hi Hd'. apply H; [lia|done].
Qed.

Lemma put_all_count d i kvs : count (put_all d i kvs) = count d.
Proof. revert d i; induction kvs as [|[k p] kvs IH]; intros; [done|]. simpl. by rewrite IH. Qed.

Lemma copyKeyValueRange_put src dst ds ss cnt :
  heap_ok (slot_list (count src) src) src -> (ss + cnt <= count src)%nat ->
  copyKeyValueRange src dst ds ss cnt =
  set_count (put_all dst ds (map (strip dst) (range src ss cnt))) (count dst + cnt).
Proof.
  intros H Hr. unfold copyKeyValueRange. rewrite range_map, map_map by done.
  assert (forall f, (forall i d, (0 <= i < 0 + cnt)%nat -> prefix_length d = prefix_length dst ->
     f i d = put_slot d (ds + i) (drop (prefix_length dst) (copyFullKey src (ss + i))) (getPayload src (ss + i))) ->
     copy_loop f cnt 0 dst =
     put_all dst ds (map (fun i => strip dst (entry src (ss + i))) (seq 0 cnt))) as Hgen.
  { intros f Hf. erewrite (copy_loop_put f); [|exact Hf|done]. by rewrite Nat.add_0_r. }
  destruct (Nat.eqb_spec (prefix_length src) (prefix_length dst)) as [Ep|].
  - rewrite Hgen; [by rewrite put_all_count|]. intros i d Hi Hd.
    destruct (heap_slot _ src (ss + i) H eq_refl) as (_ & _ & Hh); [lia|].
    rewrite copySlot_put by done. f_equal. unfold copyFullKey.
    rewrite <- Ep, <- (heap_prefix_ok _ _ H), drop_app_length. done.
  - rewrite Hgen; [by rewrite put_all_count|]. intros i d Hi Hd. unfold copyKeyValue.
    rewrite storeKeyValue_put by (apply slot_payload_small; [done|lia]). by rewrite Hd.
Qed.

(** What copying a range does to the destination page. *)
Lemma copyKeyValueRange_ok src dst ss cnt :
  heap_ok (slot_list (count src) src) src -> (ss + cnt <= count src)%nat ->
  heap_ok (slot_list (count dst) dst) dst ->
  Forall (fun e => e.1 = getPrefix dst ++ drop (prefix_length dst) e.1) (range src ss cnt) ->
  slots_end (count dst + cnt) + kv_total (map (strip dst) (range src ss cnt)) <= data_offset dst ->
  let d' := copyKeyValueRange src dst (count dst) ss cnt in
  heap_ok (slot_list (count d') d') d' /\ same_frame dst d' /\
  entries d' = entries dst ++ range src ss cnt /\ count d' = (count dst + cnt)%nat /\
  data_offset d' = data_offset dst - kv_total (map (strip dst) (range src ss cnt)).
Proof.
  intros Hs Hr Hd Hpre Hroom. rewrite copyKeyValueRange_put by done. cbv zeta.
  pose proof (length_range src ss cnt Hr) as Hlen.
  destruct (put_all_ok dst (count dst) (map (strip dst) (range src ss cnt))) as (H1 & H2 & H3 & H4 & H5).
  { done. }
  { apply List.Forall_map.
    eapply List.Forall_impl; [|by apply Forall_take, Forall_drop, (entries_bytes src)].
    intros e [Hb1 Hb2]. split; [by apply Forall_drop|done]. }
  { by rewrite length_map, Hlen. }
  rewrite length_map, Hlen in H1, H3.
  set (d' := put_all dst (count dst) (map (strip dst) (range src ss cnt))) in *.
  split; [by eapply heap_ok_ext|]. split; [done|]. split; [|done].
  rewrite entries_slot_list. change (slot_entry (set_count d' (count dst + cnt))) with (slot_entry d').
  change (slot_list (count (set_count d' (count dst + cnt))) (set_count d' (count dst + cnt)))
    with (slot_list (count dst + cnt) d').
  rewrite H3, <- entries_slot_list. f_equal. rewrite map_map. rewrite <- (map_id (range src ss cnt)) at 2.
  apply map_ext_in. intros e He. rewrite List.Forall_forall in Hpre. specialize (Hpre e He).
  destruct e as [key pl]. simpl in *. by rewrite <- Hpre.
Qed.
