(* ===== verification/BTreeNodeOps.v ===== *)
(** The page operations on the abstract list of entries: search, insertion,
    removal, compaction, separator choice, split and merge of a B-tree page. *)
From stdpp Require Import sorting gmap.
From S2P Require Import Prelude BTreeNode BTreeNodeSearch BTreeNodeSpace.
Local Open Scope Z_scope.

(** * The page invariant *)

Abbreviation key_lt := (fun a b : list Z * list Z => a.1 <ₗ b.1).

Definition hints_ok (n : BTreeNode) : Prop :=
  (hint_count * 2 < count n)%nat -> forall i, (i < hint_count)%nat ->
    hint n i = head (slot n (count n / (hint_count + 1) * (i + 1))%nat).

Record page_ok (n : BTreeNode) : Prop := PageOk {
  po_heap : heap_ok (slot_list (count n) n) n;
  po_sorted : StronglySorted key_lt (entries n);
  po_fences : Forall (fun e => in_fences (getLowerFenceKey n) (getUpperFenceKey n) e.1) (entries n);
  po_hint : hints_ok n }.

Lemma StronglySorted_lookup {A} (R : A -> A -> Prop) l i j x y :
  StronglySorted R l -> l !! i = Some x -> l !! j = Some y -> (i < j)%nat -> R x y.
Proof.
  intros H. revert i j. induction H as [|a l Hs IH Hf]; intros [|i] [|j] Hi Hj Hlt; simpl in *;
    try done; try lia.
  - injection Hi as <-. rewrite Forall_lookup in Hf. eauto.
  - eapply IH; eauto. lia.
Qed.

Lemma page_searchable n : page_ok n -> searchable n.
Proof.
  intros [Hh Hs Hf Hi]. constructor; [..|exact Hi].
  - intros i _. apply read_bytes_is_byte, Hh.
  - intros i Hi'. by apply (heap_slot _ n i Hh eq_refl Hi').
  - intros i j Hij. unfold lex_lt. rewrite <- (lex_cmp_app (getPrefix n)).
    exact (StronglySorted_lookup _ _ i j _ _ Hs
      (lookup_entries n i ltac:(lia)) (lookup_entries n j ltac:(lia)) ltac:(lia)).
Qed.

Lemma page_prefix_ok n : page_ok n -> prefix_ok n.
Proof. intros H. eapply heap_prefix_ok, H. Qed.

#[export] Hint Resolve page_searchable page_prefix_ok po_heap : leanstore.

(** The result of a bulk build: [makeHint] completes the invariant. *)
Lemma makeHint_page n :
  heap_ok (slot_list (count n) n) n -> StronglySorted key_lt (entries n) ->
  Forall (fun e => in_fences (getLowerFenceKey n) (getUpperFenceKey n) e.1) (entries n) ->
  page_ok (makeHint n).
Proof.
  intros Hh Hs Hf. constructor; [by eapply heap_ok_ext|done|done|].
  intros _ i Hi. simpl. by rewrite (proj2 (Nat.ltb_lt _ _) Hi).
Qed.

(** * Space accounting *)

Lemma option_len_fence n f : fence_ok n f -> option_len (fence_bytes n f) = Z.of_nat (fk_length f).
Proof.
  unfold option_len, fence_bytes. intros [[-> ->]|(H & _)]; [done|].
  rewrite (proj2 (Z.eqb_neq _ _)) by lia. simpl. by rewrite length_read_bytes.
Qed.

Lemma fences_len_option L n :
  heap_ok L n -> fences_len n = option_len (getLowerFenceKey n) + option_len (getUpperFenceKey n).
Proof.
  intros []. unfold getLowerFenceKey, getUpperFenceKey. by rewrite !option_len_fence.
Qed.

Lemma fence_is_byte L n f : heap_ok L n -> Forall is_byte (default [] (fence_bytes n f)).
Proof.
  intros H. unfold fence_bytes. case_match; simpl; [done|]. apply read_bytes_is_byte, H.
Qed.

(** Bytes of entries stored behind a prefix of length [p]. *)
Lemma kv_total_strip d l :
  Forall (fun e : list Z * list Z => (prefix_length d <= length e.1)%nat) l ->
  kv_total (map (strip d) l) = kv_total l - Z.of_nat (prefix_length d) * Z.of_nat (length l).
Proof.
  induction 1 as [|e l He _ IH]; [simpl; lia|].
  change (kv_total (map (strip d) (e :: l))) with
    (Z.of_nat (length (drop (prefix_length d) e.1)) + Z.of_nat (length e.2) + kv_total (map (strip d) l)).
  change (kv_total (e :: l)) with (Z.of_nat (length e.1) + Z.of_nat (length e.2) + kv_total l).
  rewrite IH, length_drop. cbn [length]. lia.
Qed.

Lemma total_entries n :
  heap_ok (slot_list (count n) n) n ->
  total (slot_list (count n) n) =
  kv_total (entries n) - Z.of_nat (prefix_length n) * Z.of_nat (count n).
Proof.
  intros H. pose proof (heap_prefix_ok _ _ H) as Hp. unfold prefix_ok in Hp.
  rewrite entries_slot_list. rewrite <- (length_slot_list (count n) n) at 3. clear H.
  induction (slot_list (count n) n) as [|s l IH]; [simpl; lia|]. cbn [map length total foldr].
  change (foldr (fun s a => slot_size s + a) 0 l) with (total l).
  change (kv_total (slot_entry n s :: map (slot_entry n) l)) with
    (Z.of_nat (length (getPrefix n ++ slot_key n s)) + Z.of_nat (length (slot_payload n s))
     + kv_total (map (slot_entry n) l)).
  rewrite length_app, Hp. unfold slot_key, slot_payload. rewrite !length_read_bytes.
  unfold slot_size. lia.
Qed.

Lemma page_space n :
  page_ok n ->
  space_used n = kv_total (entries n) - Z.of_nat (prefix_length n) * Z.of_nat (count n)
    + option_len (getLowerFenceKey n) + option_len (getUpperFenceKey n).
Proof.
  intros P. pose proof (po_heap _ P) as H. rewrite (ho_space _ _ H), (total_entries n H).
  rewrite (fences_len_option _ _ H). lia.
Qed.

Lemma page_room n :
  page_ok n -> slots_end (count n) + space_used n <= EFFECTIVE_PAGE_SIZE /\
  slots_end (count n) <= data_offset n.
Proof.
  intros P. destruct (po_heap _ P). rewrite length_slot_list in *. lia.
Qed.

Lemma page_keys_long n :
  page_ok n -> Forall (fun e : list Z * list Z => (prefix_length n <= length e.1)%nat) (entries n).
Proof.
  intros P. unfold entries. apply List.Forall_map, List.Forall_forall. intros i _. simpl.
  unfold copyFullKey. rewrite length_app, (page_prefix_ok _ P). lia.
Qed.

Lemma range_all n : range n 0 (count n) = entries n.
Proof. unfold range. rewrite drop_0. apply take_ge. by rewrite length_entries. Qed.

(** * Building a page from a range of another page *)

Lemma in_fences_long lk uk key :
  in_fences lk uk key ->
  (common_prefix_len (default [] lk) (default [] uk) <= length key)%nat.
Proof.
  intros H%in_fences_prefix. simpl in H. rewrite H, length_app, length_take.
  pose proof (common_prefix_take (default [] lk) (default [] uk)). lia.
Qed.

(** Bytes the entries [l] take behind the prefix that the fences share. *)
Definition stored_len (lk uk : option (list Z)) (l : list (list Z * list Z)) : Z :=
  kv_total l
  - Z.of_nat (common_prefix_len (default [] lk) (default [] uk)) * Z.of_nat (length l).

Section fresh.
Context (leaf : bool) (lk uk : option (list Z)).
Context (Hlk : Forall is_byte (default [] lk)) (Huk : Forall is_byte (default [] uk)).

Let tmp := setFences (new_node leaf) lk uk.

Lemma strip_total d l :
  prefix_length d = common_prefix_len (default [] lk) (default [] uk) ->
  Forall (fun e => in_fences lk uk e.1) l ->
  kv_total (map (strip d) l) = stored_len lk uk l.
Proof.
  intros Ep Hf. rewrite kv_total_strip, Ep; [done|].
  eapply List.Forall_impl; [|exact Hf]. intros e He. rewrite Ep. by apply in_fences_long.
Qed.

Lemma stored_len_nonneg l : Forall (fun e => in_fences lk uk e.1) l -> 0 <= stored_len lk uk l.
Proof.
  intros Hf. rewrite <- (strip_total (set_prefix_length tmp
    (common_prefix_len (default [] lk) (default [] uk)))) by done. apply kv_total_nonneg.
Qed.

(** One more range copied behind what the page under construction [d] holds. *)
Lemma append_copy_ok d src ss cnt :
  heap_ok (slot_list (count d) d) d -> getLowerFenceKey d = lk -> getUpperFenceKey d = uk ->
  heap_ok (slot_list (count src) src) src -> (ss + cnt <= count src)%nat ->
  Forall (fun e => in_fences lk uk e.1) (range src ss cnt) ->
  slots_end (count d + cnt) + stored_len lk uk (range src ss cnt) <= data_offset d ->
  let d' := copyKeyValueRange src d (count d) ss cnt in
  heap_ok (slot_list (count d') d') d' /\ same_frame d d' /\
  entries d' = entries d ++ range src ss cnt /\ count d' = (count d + cnt)%nat /\
  data_offset d' = data_offset d - stored_len lk uk (range src ss cnt).
Proof.
  intros Hd El Eu Hs Hc Hf Hroom.
  assert (prefix_length d = common_prefix_len (default [] lk) (default [] uk)) as Ep
    by (rewrite <- El, <- Eu; apply Hd).
  pose proof (strip_total d _ Ep Hf) as Et.
  pose proof (copyKeyValueRange_ok src d ss cnt Hs Hc Hd) as C. rewrite Et in C.
  apply C; [|done]. eapply List.Forall_impl; [|exact Hf]. intros e He.
  apply (heap_prefix_key _ d e.1 Hd). by rewrite El, Eu.
Qed.

Lemma fresh_copy_ok src ss cnt :
  heap_ok (slot_list (count src) src) src -> (ss + cnt <= count src)%nat ->
  Forall (fun e => in_fences lk uk e.1) (range src ss cnt) ->
  slots_end cnt + option_len lk + option_len uk + stored_len lk uk (range src ss cnt)
    <= EFFECTIVE_PAGE_SIZE ->
  let d := copyKeyValueRange src tmp 0 ss cnt in
  heap_ok (slot_list (count d) d) d /\ getLowerFenceKey d = lk /\ getUpperFenceKey d = uk /\
  entries d = range src ss cnt /\ count d = cnt /\ is_leaf d = leaf /\
  data_offset d = EFFECTIVE_PAGE_SIZE - option_len lk - option_len uk
                  - stored_len lk uk (range src ss cnt).
Proof.
  intros Hs Hc Hf Hroom. pose proof (stored_len_nonneg _ Hf).
  assert (slot_base <= slots_end cnt) by (unfold slots_end, sizeof_Slot; lia).
  destruct (setFences_ok leaf lk uk Hlk Huk) as (S1 & S2 & S3 & S4 & S5 & S6 & S7); [lia|].
  fold tmp in S1, S2, S3, S4, S5, S6, S7.
  destruct (append_copy_ok tmp src ss cnt) as (C1 & (C2 & C3 & _ & _ & C4) & C5 & C6 & C7);
    [by rewrite S6|done..|rewrite S5, S6; simpl; lia|].
  rewrite S6 in C1, C2, C3, C4, C5, C6, C7.
  assert (entries tmp = []) as E0 by (unfold entries; by rewrite S6).
  rewrite E0 in C5.
  split; [exact C1|]. split; [congruence|]. split; [congruence|]. split; [exact C5|].
  split; [exact C6|]. split; [congruence|]. by rewrite C7, S5.
Qed.

End fresh.

(** * Compaction *)

Lemma page_stored n :
  page_ok n ->
  space_used n = stored_len (getLowerFenceKey n) (getUpperFenceKey n) (entries n)
    + option_len (getLowerFenceKey n) + option_len (getUpperFenceKey n).
Proof.
  intros P. rewrite (page_space n P). unfold stored_len. rewrite length_entries.
  by rewrite (ho_prefix _ _ (po_heap _ P)).
Qed.

Lemma compactify_ok n :
  page_ok n ->
  let n' := compactify n in
  page_ok n' /\ same_frame n n' /\ entries n' = entries n /\ count n' = count n /\
  data_offset n' = EFFECTIVE_PAGE_SIZE - space_used n /\ space_used n' = space_used n.
Proof.
  intros P. pose proof (po_heap _ P) as H. pose proof (page_room n P) as [R1 R2].
  pose proof (page_stored n P) as Sp. pose proof (po_fences _ P) as Pf.
  destruct (fresh_copy_ok (is_leaf n) (getLowerFenceKey n) (getUpperFenceKey n)
    (fence_is_byte _ _ _ H) (fence_is_byte _ _ _ H) n 0 (count n) H ltac:(lia))
    as (C1 & C2 & C3 & C4 & C5 & C6 & C7); [by rewrite range_all|rewrite range_all; lia|].
  unfold compactify. set (tmp := copyKeyValueRange _ _ _ _ _) in *. rewrite range_all in *.
  assert (page_ok (makeHint (set_upper tmp (upper n)))) as PP.
  { apply makeHint_page; [by eapply heap_ok_ext| |].
    - change (StronglySorted key_lt (entries tmp)). rewrite C4. apply P.
    - change (Forall (fun e => in_fences (getLowerFenceKey tmp) (getUpperFenceKey tmp) e.1) (entries tmp)).
      by rewrite C4, C2, C3. }
  split; [exact PP|]. split.
  { split; [exact C2|]. split; [exact C3|]. split; [|split; [done|exact C6]].
    rewrite (ho_prefix _ _ (po_heap _ PP)), (ho_prefix _ _ H).
    change (getLowerFenceKey (makeHint (set_upper tmp (upper n)))) with (getLowerFenceKey tmp).
    change (getUpperFenceKey (makeHint (set_upper tmp (upper n)))) with (getUpperFenceKey tmp).
    by rewrite C2, C3. }
  split; [exact C4|]. split; [exact C5|]. split.
  - transitivity (data_offset tmp); [done|]. rewrite C7. lia.
  - rewrite (page_stored _ PP), Sp.
    change (getLowerFenceKey (makeHint (set_upper tmp (upper n)))) with (getLowerFenceKey tmp).
    change (getUpperFenceKey (makeHint (set_upper tmp (upper n)))) with (getUpperFenceKey tmp).
    change (entries (makeHint (set_upper tmp (upper n)))) with (entries tmp).
    by rewrite C2, C3, C4.
Qed.

(** * Free space *)

Lemma page_bounds n :
  page_ok n ->
  0 < data_offset n <= EFFECTIVE_PAGE_SIZE /\ 0 <= space_used n <= EFFECTIVE_PAGE_SIZE /\
  slot_base <= slots_end (count n).
Proof.
  intros P. pose proof (heap_bounds _ _ (po_heap _ P)).
  unfold slots_end, sizeof_Slot. lia.
Qed.

Lemma freeSpace_eq n : page_ok n -> freeSpace n = data_offset n - slots_end (count n).
Proof.
  intros P. pose proof (page_bounds n P). pose proof (page_room n P).
  apply wrap_small. unfold in_width. consts. lia.
Qed.

Lemma freeSpaceAfterCompaction_eq n :
  page_ok n ->
  freeSpaceAfterCompaction n = EFFECTIVE_PAGE_SIZE - slots_end (count n) - space_used n.
Proof.
  intros P. pose proof (page_bounds n P). pose proof (page_room n P).
  apply wrap_small. unfold in_width. consts. lia.
Qed.

(** [requestSpaceFor] yields the space it promises and changes nothing else. *)
Lemma requestSpaceFor_ok n need :
  page_ok n ->
  let (ok, n') := requestSpaceFor n need in
  page_ok n' /\ same_frame n n' /\ entries n' = entries n /\ count n' = count n /\
  ok = hasEnoughSpaceFor n need /\
  (ok = true -> need <= data_offset n' - slots_end (count n')).
Proof.
  intros P. unfold requestSpaceFor, hasEnoughSpaceFor.
  rewrite freeSpace_eq, freeSpaceAfterCompaction_eq by done.
  destruct (Z.leb_spec need (data_offset n - slots_end (count n))).
  - repeat split; try done; try apply P; lia.
  - destruct (Z.leb_spec need (EFFECTIVE_PAGE_SIZE - slots_end (count n) - space_used n)); cbn [orb].
    + destruct (compactify_ok n P) as (C1 & C2 & C3 & C4 & C5 & C6).
      split; [done|]. split; [done|]. split; [done|]. split; [done|]. split; [done|]. rewrite C4, C5. lia.
    + split; [done|]. split; [done|]. split; [done|]. split; [done|]. split; [done|]. done.
Qed.

Lemma spaceNeeded_eq n kl pl :
  (prefix_length n <= kl)%nat -> sizeof_Slot + Z.of_nat kl + Z.of_nat pl < 65536 ->
  spaceNeeded n kl pl = sizeof_Slot + (Z.of_nat kl - Z.of_nat (prefix_length n)) + Z.of_nat pl.
Proof.
  intros H1 H2. unfold spaceNeeded, spaceNeeded_prefix. apply wrap_small.
  unfold in_width, sizeof_Slot in *. lia.
Qed.

(** * Insertion *)

Lemma updateHint_ok n n1 s :
  hints_ok n1 -> count n = S (count n1) -> hint n = hint n1 ->
  (forall j, (j < s)%nat -> slot n j = slot n1 j) -> hints_ok (updateHint n s).
Proof.
  intros H1 Hc Hh Hs. unfold hints_ok, updateHint. cbn [set_hint count hint slot].
  set (dist := (count n / (hint_count + 1))%nat). intros Hbig i Hi.
  match goal with |- context [if ?c then (s / dist - 1)%nat else _] => destruct c eqn:E end;
    [|simpl; by rewrite (proj2 (Nat.ltb_lt _ _) Hi)].
  destruct (Nat.leb_spec (s / dist - 1) i) as [|Hlt]; [simpl; by rewrite (proj2 (Nat.ltb_lt _ _) Hi)|].
  simpl. apply andb_true_iff in E as [[E1 E2]%andb_true_iff E3].
  apply Nat.ltb_lt in E1, E3. apply Nat.eqb_eq in E2.
  assert (dist <> 0)%nat by (intros E0; rewrite E0 in E3; simpl in E3; lia).
  pose proof (Nat.mul_div_le s dist ltac:(done)).
  rewrite Hh, H1 by lia. replace (count n1 / (hint_count + 1))%nat with dist
    by (rewrite <- E2, Hc; f_equal; lia).
  rewrite Hs by nia. done.
Qed.

Lemma take_entry_lookup {A} (l : list A) s e : e ∈ take s l -> exists i, (i < s)%nat /\ l !! i = Some e.
Proof.
  intros [i Hi]%list_elem_of_lookup. exists i. by apply lookup_take_Some in Hi as [? ?].
Qed.

Lemma drop_entry_lookup {A} (l : list A) s e : e ∈ drop s l -> exists i, (s <= i)%nat /\ l !! i = Some e.
Proof.
  intros [i Hi]%list_elem_of_lookup. rewrite lookup_drop in Hi. exists (s + i)%nat. split; [lia|done].
Qed.

Lemma sorted_insert (l : list (list Z * list Z)) s key payload :
  StronglySorted key_lt l ->
  (forall e, e ∈ take s l -> e.1 <ₗ key) -> (forall e, e ∈ drop s l -> key <ₗ e.1) ->
  StronglySorted key_lt (take s l ++ (key, payload) :: drop s l).
Proof.
  intros Hs Hl Hr. rewrite <- (take_drop s l) in Hs.
  apply StronglySorted_app in Hs as (Hlr & Hsl & Hsr).
  apply StronglySorted_app. split; [|split; [done|]].
  - intros a b Ha [->|Hb]%elem_of_cons; [by apply Hl|]. by apply Hlr.
  - constructor; [done|]. apply Forall_forall. intros b Hb%list_elem_of_In. by apply Hr.
Qed.

Section insert.
Context (n : BTreeNode) (key payload : list Z).
Context (P : page_ok n) (Hk : Forall is_byte key) (Hp : Forall is_byte payload).
Context (Hf : in_fences (getLowerFenceKey n) (getUpperFenceKey n) key).
Context (Hnew : forall e, e ∈ entries n -> e.1 <> key).

(** Insertion into a page that has room. *)
Lemma insert_store_ok s :
  sizeof_Slot + (Z.of_nat (length key) - Z.of_nat (prefix_length n)) + Z.of_nat (length payload)
    <= data_offset n - slots_end (count n) ->
  (s <= count n)%nat ->
  (forall e, e ∈ take s (entries n) -> e.1 <ₗ key) ->
  (forall e, e ∈ drop s (entries n) -> key ≤ₗ e.1) ->
  let n2 := memmove_slots n (s + 1) s (count n - s) in
  let n3 := storeKeyValue n2 s key payload in
  let n' := updateHint (set_count n3 (count n3 + 1)) s in
  page_ok n' /\ same_frame n n' /\ count n' = S (count n) /\
  entries n' = take s (entries n) ++ (key, payload) :: drop s (entries n).
Proof.
  intros Hroom Hs Hlt Hge n2 n3 n'. pose proof (po_heap _ P) as H.
  pose proof (page_bounds n P) as (B1 & B2 & B3).
  pose proof (heap_prefix_key _ n key H Hf) as Ekey.
  assert (prefix_length n <= length key)%nat as Hpl.
  { rewrite Ekey, length_app, (page_prefix_ok _ P). lia. }
  set (L := slot_list (count n) n) in *. set (k := drop (prefix_length n) key) in *.
  assert (Z.of_nat (length k) = Z.of_nat (length key) - Z.of_nat (prefix_length n)) as Hkl
    by (unfold k; rewrite length_drop; lia).
  assert (heap_ok L n2) as H2 by by eapply heap_ok_ext.
  assert (slots_end (S (length L)) + Z.of_nat (length k) + Z.of_nat (length payload) <= data_offset n2) as Hr.
  { unfold L. rewrite length_slot_list. replace (S (count n)) with (count n + 1)%nat by lia.
    rewrite slots_end_add. change (data_offset n2) with (data_offset n). lia. }
  assert (n3 = put_slot n2 s k payload) as E3.
  { unfold n3. rewrite storeKeyValue_put; [done|]. consts. lia. }
  assert (Forall is_byte k) as Hkb by by apply Forall_drop.
  pose proof (put_heap_ok L n2 s k payload H2 Hkb Hp Hr s) as Hh3.
  pose proof (put_same_frame L n2 s k payload H2 Hr) as Fr.
  pose proof (put_entries_old L n2 s k payload H2 Hr) as Eo.
  pose proof (put_slot_entry_new L n2 s k payload H2 Hr) as En.
  rewrite <- E3 in Hh3, Fr, Eo, En. set (x := slot n3 s) in *.
  assert (slot_list (S (count n)) n3 = take s L ++ x :: drop s L) as Esl.
  { unfold L. rewrite <- slot_list_insert by done. unfold x. rewrite E3.
    rewrite put_slot_self by done. done. }
  assert (entries n' = take s (entries n) ++ (key, payload) :: drop s (entries n)) as Ee.
  { transitivity (map (slot_entry n3) (slot_list (S (count n)) n3)).
    - rewrite entries_slot_list. change (count n') with (count n + 1)%nat. by rewrite Nat.add_1_r.
    - rewrite Esl, map_app. cbn [map]. rewrite En.
      assert (map (slot_entry n3) L = entries n) as Eold by (rewrite Eo; by rewrite entries_slot_list).
      rewrite <- Eold. rewrite <- !firstn_map, <- !skipn_map.
      change (getPrefix n2) with (getPrefix n). by rewrite <- Ekey. }
  assert (count n' = S (count n)) as Ec by (change (count n + 1 = S (count n))%nat; lia).
  assert (same_frame n n') as SF by exact Fr.
  split; [|done]. constructor.
  - rewrite Ec. change (slot_list (S (count n)) n') with (slot_list (S (count n)) n3).
    rewrite Esl. by eapply heap_ok_ext; [exact Hh3|..].
  - rewrite Ee. apply sorted_insert; [apply P|done|]. intros e He.
    destruct (proj1 (lex_le_lteq _ _) (Hge e He)) as [|Heq]; [done|].
    exfalso. eapply (Hnew e); [|done]. apply drop_entry_lookup in He as (i & _ & Hi).
    eapply list_elem_of_lookup. eauto.
  - destruct SF as (-> & -> & _). rewrite Ee. pose proof (po_fences _ P) as Pf.
    apply Forall_app. split; [by apply Forall_take|]. constructor; [done|by apply Forall_drop].
  - apply updateHint_ok with n; [apply P|done|done|]. intros j Hj. rewrite E3.
    simpl. rewrite (proj2 (Nat.eqb_neq j s)), (proj2 (Nat.leb_gt (s + 1) j)) by lia. done.
Qed.

End insert.

(** The position [lowerBound<false>] returns splits the entries at the key. *)
Lemma lowerBound_entries n key :
  page_ok n -> Forall is_byte key ->
  exists pos eq, lowerBound false n key = Some (Z.of_nat pos, eq) /\ (pos <= count n)%nat /\
    (forall e, e ∈ take pos (entries n) -> e.1 <ₗ key) /\
    (forall e, e ∈ drop pos (entries n) -> key ≤ₗ e.1) /\
    (eq = true <-> is_leaf n = true /\ exists v, entries n !! pos = Some (key, v)).
Proof.
  intros P Hk. destruct (lowerBound_false_correct n key) as (pos & eq & E & Hp & Hl & Hr & He);
    [auto with leanstore..|].
  assert (forall i e, entries n !! i = Some e -> (i < count n)%nat /\ e = entry n i) as Hi.
  { intros i e H. pose proof (lookup_lt_Some _ _ _ H) as H'. rewrite length_entries in H'.
    rewrite lookup_entries in H by done. by simplify_eq. }
  exists pos, eq. split; [done|]. split; [done|]. split; [|split].
  - intros e (i & Hi1 & [Hi2 ->]%Hi)%take_entry_lookup. by apply Hl.
  - intros e (i & Hi1 & [Hi2 ->]%Hi)%drop_entry_lookup. by apply Hr.
  - rewrite He. split; intros [H1 H2]; (split; [done|]).
    + destruct H2 as [H2 H3]. exists (getPayload n pos). rewrite lookup_entries by done.
      unfold entry. by rewrite H3.
    + destruct H2 as [v [H2 H3]%Hi]. by injection H3 as -> _.
Qed.

(** Where [canInsert] says yes, [insert] puts the entry at its place in the
    order and keeps the page well formed. *)
Lemma insert_ok n key payload :
  page_ok n -> Forall is_byte key -> Forall is_byte payload ->
  in_fences (getLowerFenceKey n) (getUpperFenceKey n) key ->
  (forall e, e ∈ entries n -> e.1 <> key) ->
  sizeof_Slot + Z.of_nat (length key) + Z.of_nat (length payload) < 65536 ->
  canInsert n (length key) (length payload) = true ->
  exists n' s, insert n key payload = Some (n', s) /\
    page_ok n' /\ same_frame n n' /\ count n' = S (count n) /\ (s <= count n)%nat /\
    entries n' = take s (entries n) ++ (key, payload) :: drop s (entries n) /\
    (forall e, e ∈ take s (entries n) -> e.1 <ₗ key) /\
    (forall e, e ∈ drop s (entries n) -> key ≤ₗ e.1).
Proof.
  intros P Hk Hp Hf Hnew Hsz Hcan. unfold insert, prepareInsert.
  assert (prefix_length n <= length key)%nat as Hpl
    by (rewrite (ho_prefix _ _ (po_heap _ P)); by apply in_fences_long).
  pose proof (requestSpaceFor_ok n (spaceNeeded n (length key) (length payload)) P) as R.
  destruct (requestSpaceFor _ _) as [ok n1]. destruct R as (P1 & F1 & E1 & C1 & -> & R).
  specialize (R Hcan). cbn [snd]. rewrite spaceNeeded_eq in R by done.
  destruct (lowerBound_entries n1 key P1 Hk) as (pos & eq & -> & Hpos & Hl & Hr & _).
  rewrite Nat2Z.id. destruct F1 as (F1 & F2 & F3 & F4 & F5).
  destruct (insert_store_ok n1 key payload P1 Hk Hp) with (s := pos) as (I1 & I2 & I3 & I4);
    try done; [by rewrite F1, F2|by rewrite E1|lia|].
  rewrite E1, C1 in *. eexists _, pos. split; [done|].
  split; [done|]. split; [|done]. etrans; [|exact I2]. done.
Qed.

(** * Removal *)

Lemma sorted_take_drop (l : list (list Z * list Z)) i :
  StronglySorted key_lt l -> StronglySorted key_lt (take i l ++ drop (S i) l).
Proof.
  intros Hs. pose proof Hs as Hs'. rewrite <- (take_drop i l) in Hs'.
  apply StronglySorted_app in Hs' as (H1 & H2 & H3).
  assert (drop (S i) l = drop 1 (drop i l)) as -> by (rewrite drop_drop; f_equal; lia).
  apply StronglySorted_app. split; [|split; [done|]].
  - intros a b Ha Hb. apply H1; [done|]. destruct (drop i l); [done|]. simpl in Hb. rewrite drop_0 in Hb.
    by apply elem_of_cons; right.
  - destruct (drop i l); [done|]. simpl. rewrite drop_0. by inversion H3.
Qed.

Lemma removeSlot_ok n i :
  page_ok n -> (i < count n)%nat ->
  let n' := removeSlot n i in
  page_ok n' /\ same_frame n n' /\ count n' = (count n - 1)%nat /\
  entries n' = take i (entries n) ++ drop (S i) (entries n) /\
  space_used n' = space_used n - slot_size (slot n i).
Proof.
  intros P Hi n'. pose proof (po_heap _ P) as H. pose proof (page_bounds n P) as (B1 & B2 & B3).
  set (L := slot_list (count n) n) in *.
  assert (L !! i = Some (slot n i)) as HLi by by apply lookup_slot_list.
  pose proof (total_remove i _ L HLi) as Ht. pose proof (total_nonneg (take i L ++ drop (S i) L)) as Hn.
  assert (space_used n' = space_used n - slot_size (slot n i)) as Es.
  { change (u16 (space_used n - slot_size (slot n i)) = space_used n - slot_size (slot n i)).
    apply wrap_small. rewrite (ho_space _ _ H) in B2 |- *. unfold in_width, slot_size, fences_len in *.
    consts. lia. }
  assert (slot_list (count n - 1) n' = take i L ++ drop (S i) L) as Esl
    by exact (slot_list_remove n i (count n) Hi).
  assert (entries n' = take i (entries n) ++ drop (S i) (entries n)) as Ee.
  { rewrite entries_slot_list. change (count n') with (count n - 1)%nat. rewrite Esl.
    change (slot_entry n') with (slot_entry n). rewrite map_app, (entries_slot_list n).
    by rewrite <- firstn_map, <- skipn_map. }
  split; [|split; [done|split; [done|split; [done|exact Es]]]].
  apply makeHint_page.
  - apply (heap_ok_ext _ n'); [|done..]. change (heap_ok (slot_list (count n - 1) n') n'). rewrite Esl.
    destruct H as [H0 H1 H2 H3 H4 H5 H6 H7 H8]. constructor; try done.
    + by eapply areas_remove.
    + rewrite length_app, length_take, length_drop. change (data_offset n') with (data_offset n).
      unfold L in *. rewrite length_slot_list in *. consts. lia.
    + apply Forall_app; split; [by apply Forall_take|by apply Forall_drop].
    + rewrite Es, Ht. change (fences_len n') with (fences_len n). lia.
    + rewrite Es. change (data_offset n') with (data_offset n). unfold slot_size. lia.
  - change (StronglySorted key_lt (entries n')). rewrite Ee. apply sorted_take_drop, P.
  - change (Forall (fun e => in_fences (getLowerFenceKey n) (getUpperFenceKey n) e.1) (entries n')).
    rewrite Ee. pose proof (po_fences _ P). apply Forall_app. split; [by apply Forall_take|by apply Forall_drop].
Qed.

(** * The page as a finite map *)

Abbreviation kvmap := (gmap (list Z) (list Z)).

Definition page_map (n : BTreeNode) : kvmap := list_to_map (entries n).

Lemma sorted_NoDup_keys (l : list (list Z * list Z)) : StronglySorted key_lt l -> NoDup l.*1.
Proof.
  induction 1 as [|e l _ IH Hf]; [constructor|]. rewrite fmap_cons. constructor; [|done].
  intros (e' & E & He')%list_elem_of_fmap. rewrite List.Forall_forall in Hf.
  apply list_elem_of_In in He'. apply Hf in He'. simpl in He'. rewrite <- E in He'.
  by apply lex_lt_irrefl in He'.
Qed.

Lemma page_map_lookup n key v :
  page_ok n -> page_map n !! key = Some v <-> (key, v) ∈ entries n.
Proof.
  intros P. symmetry. apply elem_of_list_to_map, sorted_NoDup_keys, P.
Qed.

Lemma page_map_None n key :
  page_ok n -> page_map n !! key = None <-> (forall e, e ∈ entries n -> e.1 <> key).
Proof.
  intros P. unfold page_map. rewrite <- not_elem_of_list_to_map. split.
  - intros H e He <-. apply H, list_elem_of_fmap. eauto.
  - intros H (e & -> & He)%list_elem_of_fmap. by eapply H.
Qed.

Lemma list_to_map_insert_mid (l1 l2 : list (list Z * list Z)) key v :
  NoDup (l1 ++ (key, v) :: l2).*1 ->
  (list_to_map (l1 ++ (key, v) :: l2) : kvmap) = <[key := v]> (list_to_map (l1 ++ l2)).
Proof.
  intros H. rewrite <- list_to_map_cons. apply list_to_map_proper; [done|].
  symmetry. apply Permutation_middle.
Qed.

Lemma list_to_map_remove (l : list (list Z * list Z)) i k v :
  NoDup l.*1 -> l !! i = Some (k, v) ->
  (list_to_map (take i l ++ drop (S i) l) : kvmap) = delete k (list_to_map l).
Proof.
  intros Hn Hi. pose proof (take_drop_middle l i _ Hi) as El. rewrite <- El in Hn.
  pose proof (list_to_map_insert_mid _ _ _ _ Hn) as Em. rewrite El in Em. rewrite Em, delete_insert_id; [done|].
  apply not_elem_of_list_to_map. rewrite fmap_app, fmap_cons in Hn. rewrite fmap_app.
  apply list.NoDup_app in Hn as (_ & H1 & H2). apply list.NoDup_cons in H2 as [H2 _].
  rewrite elem_of_app. intros [Hx|Hx]; [|done]. apply (H1 _ Hx), elem_of_cons. by left.
Qed.

#[export] Instance lex_lt_dec a b : Decision (a <ₗ b).
Proof. unfold lex_lt. apply _. Defined.

(** Linear-scan reference for the page search. *)
Fixpoint linear_pos (key : list Z) (l : list (list Z * list Z)) : nat :=
  match l with
  | [] => 0
  | e :: l' => if decide (e.1 <ₗ key) then S (linear_pos key l') else 0
  end.

Definition linear_mem (key : list Z) (l : list (list Z * list Z)) : bool :=
  bool_decide (key ∈ l.*1).

Lemma linear_pos_split key l pos :
  (pos <= length l)%nat ->
  (forall e, e ∈ take pos l -> e.1 <ₗ key) -> (forall e, e ∈ drop pos l -> key ≤ₗ e.1) ->
  linear_pos key l = pos.
Proof.
  revert pos; induction l as [|e l IH]; intros [|pos] Hp Hl Hr; simpl in *; try done; try lia.
  - destruct (decide _) as [H|]; [|done]. exfalso.
    apply (lex_lt_irrefl key). eapply lex_le_lt_trans; [|exact H]. apply Hr, elem_of_cons. by left.
  - rewrite decide_True by (apply Hl, elem_of_cons; by left). f_equal. apply IH; [lia| |done].
    intros e' He'. apply Hl, elem_of_cons. by right.
Qed.

Lemma linear_mem_lookup n key pos :
  page_ok n -> (pos <= count n)%nat ->
  (forall e, e ∈ take pos (entries n) -> e.1 <ₗ key) ->
  (forall e, e ∈ drop pos (entries n) -> key ≤ₗ e.1) ->
  linear_mem key (entries n) = true <-> exists v, entries n !! pos = Some (key, v).
Proof.
  intros P Hp Hl Hr. unfold linear_mem. rewrite bool_decide_eq_true. split.
  - intros ([k v] & -> & He)%list_elem_of_fmap. exists v. simpl in *.
    pose proof He as [i Hi]%list_elem_of_lookup.
    destruct (Nat.lt_trichotomy i pos) as [Hlt|[->|Hgt]]; [|done|]; exfalso.
    + apply (lex_lt_irrefl k). apply (Hl (k, v)). apply list_elem_of_lookup. exists i.
      by rewrite lookup_take_lt.
    + pose proof (lookup_lt_Some _ _ _ Hi) as Hc. rewrite length_entries in Hc.
      assert (exists e, entries n !! pos = Some e) as [e Hpos]
        by (exists (entry n pos); apply lookup_entries; lia).
      pose proof (StronglySorted_lookup _ _ _ _ _ _ (po_sorted _ P) Hpos Hi Hgt) as Hlt.
      apply (lex_lt_irrefl k). eapply lex_le_lt_trans; [|exact Hlt]. apply Hr.
      apply list_elem_of_lookup. exists 0%nat. rewrite lookup_drop, Nat.add_0_r. done.
  - intros [v Hv]. apply list_elem_of_fmap. exists (key, v). split; [done|].
    apply list_elem_of_lookup. eauto.
Qed.

Lemma bool_iff (a b : bool) : (a = true <-> b = true) -> a = b.
Proof. destruct a, b; intuition congruence. Qed.

Lemma lowerBound_true_entries n key :
  page_ok n -> Forall is_byte key ->
  (exists pos, lowerBound true n key = Some (Z.of_nat pos, is_leaf n) /\ (pos < count n)%nat /\
     copyFullKey n pos = key /\ linear_pos key (entries n) = pos /\ linear_mem key (entries n) = true) \/
  (lowerBound true n key = Some (-1, false) /\ linear_mem key (entries n) = false).
Proof.
  intros P Hk.
  destruct (lowerBound_entries n key P Hk) as (q & eq & _ & Hq & Hl & Hr & _).
  pose proof (linear_mem_lookup n key q P Hq Hl Hr) as Hm.
  destruct (lowerBound_true_correct n key) as [(pos & E & Hpos & Ek)|[E Hno]]; [auto with leanstore..| |].
  - left. exists pos. assert (linear_mem key (entries n) = true) as Hmem.
    { apply bool_decide_eq_true, list_elem_of_fmap. exists (entry n pos). split; [done|].
      apply list_elem_of_lookup. exists pos. by apply lookup_entries. }
    pose proof (proj1 Hm Hmem) as [v Hv].
    enough (pos = q) as -> by (repeat split; try done; apply linear_pos_split; by rewrite ?length_entries).
    eapply (NoDup_lookup _ _ _ key (sorted_NoDup_keys _ (po_sorted _ P))); rewrite list_lookup_fmap.
    + rewrite lookup_entries by done. unfold entry. simpl. by rewrite Ek.
    + by rewrite Hv.
  - right. split; [done|]. apply not_true_iff_false. intros [v Hv]%Hm.
    pose proof (lookup_lt_Some _ _ _ Hv) as Hlt. rewrite length_entries in Hlt.
    rewrite lookup_entries in Hv by done. injection Hv as Hv _. by eapply Hno.
Qed.

(** * Sample pages for the witnesses *)

Lemma forallb_bytes l : forallb (fun b => (0 <=? b) && (b <? 256)) l = true -> Forall is_byte l.
Proof.
  intros H. apply List.Forall_forall. intros b Hb. rewrite forallb_forall in H. apply H in Hb.
  apply andb_true_iff in Hb as [H1 H2]. unfold in_width. change (2 ^ 8) with 256. lia.
Qed.

Ltac byte_list := apply forallb_bytes; reflexivity.

Lemma new_node_ok leaf : page_ok (new_node leaf).
Proof.
  constructor; [|constructor|constructor|unfold hints_ok; simpl; lia].
  change (heap_ok [] (new_node leaf)).
  constructor; try done; try (by left); try (by constructor).
  apply areas_nil. by left.
Qed.

#[export] Instance lex_le_dec a b : Decision (a ≤ₗ b).
Proof. unfold lex_le. apply _. Defined.

Definition fence_check (lk uk : option (list Z)) (key : list Z) : bool :=
  match lk with Some lf => bool_decide (lf <ₗ key) | None => true end &&
  match uk with Some uf => bool_decide (key ≤ₗ uf) | None => true end.

Lemma fence_check_in lk uk key : fence_check lk uk key = true -> in_fences lk uk key.
Proof.
  unfold fence_check. intros [H1 H2]%andb_true_iff. split.
  - intros lf ->. by apply bool_decide_eq_true in H1.
  - intros uf ->. by apply bool_decide_eq_true in H2.
Qed.

(** Insert the entries one by one, checking at each step what [insert_ok] asks. *)
Fixpoint load_page (n : BTreeNode) (kvs : list (list Z * list Z)) : option BTreeNode :=
  match kvs with
  | [] => Some n
  | (k, v) :: kvs' =>
      if canInsert n (length k) (length v) && negb (linear_mem k (entries n))
         && (sizeof_Slot + Z.of_nat (length k) + Z.of_nat (length v) <? 65536)
         && forallb (fun b => (0 <=? b) && (b <? 256)) (k ++ v)
         && fence_check (getLowerFenceKey n) (getUpperFenceKey n) k
      then match insert n k v with Some (n', _) => load_page n' kvs' | None => None end
      else None
  end.

Lemma no_fence_in n key :
  isLowerFenceInfinity n = true -> isUpperFenceInfinity n = true ->
  in_fences (getLowerFenceKey n) (getUpperFenceKey n) key.
Proof.
  unfold isLowerFenceInfinity, isUpperFenceInfinity, getLowerFenceKey, getUpperFenceKey, fence_bytes.
  intros -> ->. split; intros ? ?; discriminate.
Qed.

Lemma linear_mem_false key l : linear_mem key l = false -> forall e, e ∈ l -> e.1 <> key.
Proof.
  intros H e He <-. apply bool_decide_eq_false in H. apply H, list_elem_of_fmap. eauto.
Qed.

Lemma load_page_ok n kvs n' : page_ok n -> load_page n kvs = Some n' -> page_ok n'.
Proof.
  revert n; induction kvs as [|[k v] kvs IH]; intros n P H; [by injection H as <-|].
  cbn [load_page] in H. destruct (_ && _) eqn:E; [|discriminate].
  repeat (apply andb_true_iff in E as [E ?]).
  match goal with Hb : forallb _ _ = true |- _ => apply forallb_bytes, Forall_app in Hb as [??] end.
  match goal with Hb : negb _ = true |- _ => apply negb_true_iff in Hb end.
  match goal with Hb : (_ <? _) = true |- _ => apply Z.ltb_lt in Hb end.
  destruct (insert_ok n k v) as (n1 & s & Ei & P1 & _);
    [done..|by apply fence_check_in|by apply linear_mem_false|done|done|].
  rewrite Ei in H. eauto.
Qed.

(** An empty page with fences. *)
Lemma fenced_ok leaf lk uk :
  forallb (fun b => (0 <=? b) && (b <? 256)) (default [] lk ++ default [] uk) = true ->
  (slot_base + option_len lk + option_len uk <=? EFFECTIVE_PAGE_SIZE) = true ->
  page_ok (setFences (new_node leaf) lk uk).
Proof.
  intros [H1 H2]%forallb_bytes%Forall_app Hr%Z.leb_le.
  destruct (setFences_ok leaf lk uk H1 H2 Hr) as (S1 & _ & _ & _ & _ & S6 & _).
  assert (entries (setFences (new_node leaf) lk uk) = []) as E by (unfold entries; by rewrite S6).
  constructor; [by rewrite S6|rewrite E; constructor|rewrite E; constructor|].
  unfold hints_ok. rewrite S6. simpl. lia.
Qed.

Definition sample_kvs : list (list Z * list Z) :=
  [([3; 1; 4], [10; 11]); ([1; 5], [20]); ([9; 2; 6; 5; 3], [30; 31; 32]); ([5; 8], []); ([9; 7], [40])].

Definition sample_page : BTreeNode := default (new_node true) (load_page (new_node true) sample_kvs).

Lemma load_page_default n kvs :
  page_ok n -> (if load_page n kvs then true else false) = true ->
  page_ok (default n (load_page n kvs)).
Proof.
  intros P H. destruct (load_page n kvs) as [p|] eqn:E; [|discriminate].
  by eapply load_page_ok.
Qed.

Lemma sample_page_ok : page_ok sample_page.
Proof. apply load_page_default; [apply new_node_ok|vm_compute; reflexivity]. Qed.

(** * Properties of search, insertion, removal and compaction *)

(** C33: on a well-formed page the optimised search (prefix stripping, hints,
    4-byte heads, binary search) returns, for both template arguments, what a
    linear scan over the full keys returns; in particular it terminates. *)
Theorem lowerBound_linear n key :
  page_ok n -> Forall is_byte key ->
  lowerBound false n key =
    Some (Z.of_nat (linear_pos key (entries n)), is_leaf n && linear_mem key (entries n)) /\
  lowerBound true n key =
    Some (if linear_mem key (entries n) then (Z.of_nat (linear_pos key (entries n)), is_leaf n)
          else (-1, false)).
Proof.
  intros P Hk. split.
  - destruct (lowerBound_entries n key P Hk) as (pos & eq & -> & Hp & Hl & Hr & He).
    rewrite <- (linear_mem_lookup n key pos P Hp Hl Hr) in He.
    rewrite (linear_pos_split key (entries n) pos) by (rewrite ?length_entries; done).
    do 2 f_equal. apply bool_iff. rewrite He, andb_true_iff. done.
  - by destruct (lowerBound_true_entries n key P Hk) as [(pos & -> & _ & _ & -> & ->)|[-> ->]].
Qed.

Lemma lowerBound_linear_witness :
  lowerBound false sample_page [9; 2; 6; 5; 3] = Some (3, true) /\
  lowerBound true sample_page [9; 2] = Some (-1, false).
Proof.
  split.
  - rewrite (proj1 (lowerBound_linear sample_page [9; 2; 6; 5; 3] sample_page_ok
      ltac:(byte_list))). reflexivity.
  - rewrite (proj2 (lowerBound_linear sample_page [9; 2] sample_page_ok
      ltac:(byte_list))). reflexivity.
Defined.

(** When [canInsert] holds, inserting a fresh key inside the fences keeps
    the page well formed (heap, space counters, order, prefix, heads, hints),
    leaves fences, prefix, [upper] and [is_leaf] alone, and adds exactly that
    binding to the page's map; the slot returned is the key's rank. *)
Theorem insert_page_map n key payload :
  page_ok n -> Forall is_byte key -> Forall is_byte payload ->
  in_fences (getLowerFenceKey n) (getUpperFenceKey n) key ->
  page_map n !! key = None ->
  sizeof_Slot + Z.of_nat (length key) + Z.of_nat (length payload) < 65536 ->
  canInsert n (length key) (length payload) = true ->
  exists n', insert n key payload = Some (n', linear_pos key (entries n)) /\
    page_ok n' /\ same_frame n n' /\ page_map n' = <[key := payload]> (page_map n).
Proof.
  intros P Hk Hp Hf Hn Hsz Hcan.
  destruct (insert_ok n key payload) as (n' & s & E & P' & F & C & Hs & Ee & Hl & Hr);
    [done..|by apply page_map_None|done|done|].
  exists n'. rewrite E, (linear_pos_split key (entries n) s) by (rewrite ?length_entries; done).
  do 3 (split; [done|]). pose proof (sorted_NoDup_keys _ (po_sorted _ P')) as Hd.
  unfold page_map. rewrite Ee in *. rewrite list_to_map_insert_mid by done. by rewrite take_drop.
Qed.

Lemma insert_page_map_witness :
  exists n', insert sample_page [5; 9] [7] = Some (n', 3%nat) /\ page_ok n' /\
    page_map n' = <[[5; 9] := [7]]> (page_map sample_page).
Proof.
  destruct (insert_page_map sample_page [5; 9] [7]) as (n' & E & P & _ & M);
    [apply sample_page_ok|byte_list..|apply no_fence_in; reflexivity
    |vm_compute; reflexivity|reflexivity|vm_compute; reflexivity|].
  exists n'. split; [exact E|]. split; [exact P|exact M].
Defined.

(** [remove] reports whether the key was on the page and removes exactly
    that binding; the space counter is reduced, so the bytes come back at the
    next compaction. *)
Theorem remove_page_map n key :
  page_ok n -> Forall is_byte key ->
  exists n', remove n key = Some (n', bool_decide (is_Some (page_map n !! key))) /\
    page_ok n' /\ same_frame n n' /\ page_map n' = delete key (page_map n) /\
    space_used n' <= space_used n.
Proof.
  intros P Hk. unfold remove.
  assert (linear_mem key (entries n) = bool_decide (is_Some (page_map n !! key))) as Em.
  { apply bool_decide_ext. rewrite <- not_eq_None_Some. unfold page_map.
    rewrite <- not_elem_of_list_to_map. destruct (decide (key ∈ (entries n).*1)); naive_solver. }
  destruct (lowerBound_true_entries n key P Hk) as [(pos & -> & Hpos & Ek & _ & Hm)|[-> Hm]].
  - rewrite (proj2 (Z.eqb_neq _ _)), Nat2Z.id by lia. rewrite <- Em, Hm. eexists. split; [done|].
    destruct (removeSlot_ok n pos P Hpos) as (P' & F & C & Ee & Sp).
    split; [done|]. split; [done|]. split; [|unfold slot_size in Sp; lia].
    unfold page_map. rewrite Ee. eapply list_to_map_remove; [by apply sorted_NoDup_keys, P|].
    rewrite lookup_entries by done. unfold entry. by rewrite Ek.
  - simpl. exists n. rewrite <- Em, Hm. split; [done|]. split; [done|]. split; [done|]. split; [|lia].
    rewrite delete_id; [done|]. rewrite Em in Hm. apply bool_decide_eq_false in Hm.
    by apply eq_None_not_Some.
Qed.

Lemma remove_page_map_witness :
  exists n', remove sample_page [9; 2; 6; 5; 3] = Some (n', true) /\ page_ok n' /\
    page_map n' = delete [9; 2; 6; 5; 3] (page_map sample_page).
Proof.
  destruct (remove_page_map sample_page [9; 2; 6; 5; 3]) as (n' & E & P & _ & M & _);
    [apply sample_page_ok|byte_list|].
  exists n'. split; [|split; [exact P|exact M]]. rewrite E. do 2 f_equal.
Defined.

(** [compactify] keeps the page's entries and frame and reclaims all the
    dead space: afterwards [freeSpace] is what [freeSpaceAfterCompaction] had
    promised, the assertion at the end of the source function. *)
Theorem compactify_reclaims n :
  page_ok n ->
  page_ok (compactify n) /\ same_frame n (compactify n) /\ entries (compactify n) = entries n /\
  freeSpace (compactify n) = freeSpaceAfterCompaction n.
Proof.
  intros P. destruct (compactify_ok n P) as (P' & F & E & C & D & S).
  do 3 (split; [done|]). rewrite freeSpace_eq, freeSpaceAfterCompaction_eq by done.
  rewrite C, D. lia.
Qed.

Lemma compactify_reclaims_witness :
  let p := removeSlot sample_page 1 in
  page_ok p /\ freeSpace p < freeSpace (compactify p) /\
  freeSpace (compactify p) = freeSpaceAfterCompaction p.
Proof.
  assert (page_ok (removeSlot sample_page 1)) as P
    by (apply removeSlot_ok; [apply sample_page_ok|apply Nat.ltb_lt; vm_compute; reflexivity]).
  split; [exact P|]. split; [vm_compute; reflexivity|].
  apply (compactify_reclaims _ P).
Defined.

(** [canInsert] is exact.  With live bytes [space_used], it holds exactly
    when the entry, stored behind the page prefix with its slot, fits beside
    the slot array once dead space is reclaimed. *)
Theorem canInsert_exact n kl pl :
  page_ok n -> (prefix_length n <= kl)%nat -> sizeof_Slot + Z.of_nat kl + Z.of_nat pl < 65536 ->
  canInsert n kl pl = true <->
  slots_end (S (count n)) + space_used n + (Z.of_nat kl - Z.of_nat (prefix_length n)) + Z.of_nat pl
    <= EFFECTIVE_PAGE_SIZE.
Proof.
  intros P Hk Hs. unfold canInsert, hasEnoughSpaceFor. rewrite spaceNeeded_eq by done.
  rewrite freeSpace_eq, freeSpaceAfterCompaction_eq by done. rewrite orb_true_iff, !Z.leb_le.
  pose proof (ho_heap _ _ (po_heap _ P)). replace (S (count n)) with (count n + 1)%nat by lia.
  rewrite slots_end_add. lia.
Qed.

Lemma canInsert_exact_witness :
  canInsert sample_page 100 16000 = true /\ ~ canInsert sample_page 200 16000 = true.
Proof.
  split.
  - apply (canInsert_exact sample_page 100 16000);
      [apply sample_page_ok|apply Nat.leb_le; vm_compute; reflexivity|vm_compute; reflexivity|].
    apply Z.leb_le. vm_compute. reflexivity.
  - rewrite (canInsert_exact sample_page 200 16000);
      [|apply sample_page_ok|apply Nat.leb_le; vm_compute; reflexivity|vm_compute; reflexivity].
    rewrite <- Z.leb_le. vm_compute. discriminate.
Defined.
