(* ===== verification/BTreeNodeSplit.v ===== *)
(** Separator choice, split and merge of a B-tree page: the separator lies
    between the two halves, both halves fit and are well formed, and no entry
    is lost or moved across a fence. *)
From stdpp Require Import sorting gmap.
From S2P Require Import Prelude BTreeNode BTreeNodeSearch BTreeNodeSpace BTreeNodeOps.
Local Open Scope Z_scope.

(** * The separator *)

Lemma sep_scan_bound n i cnt best b :
  (best.2 < b)%nat -> (i + cnt <= b)%nat -> ((sep_scan n i cnt best).2 < b)%nat.
Proof.
  revert i best; induction cnt as [|cnt IH]; intros i best Hb Hi; simpl; [done|].
  apply IH; [|lia]. case_match; simpl; lia.
Qed.

Lemma sep_window c : (2 < c -> c / 2 + 1 < c /\ c / 2 + c / 16 <= c - 1)%nat.
Proof.
  intros H. pose proof (Nat.div_mod_eq c 2). pose proof (Nat.mod_upper_bound c 2).
  pose proof (Nat.div_mod_eq c 16). lia.
Qed.

Lemma findSep_slot n : (2 < count n)%nat -> (sep_slot (findSep n) + 1 < count n)%nat.
Proof.
  intros H. pose proof (sep_window _ H). unfold findSep. destruct (isInner n); cbn [sep_slot]; [lia|].
  set (m := (sep_scan _ _ _ _).2).
  assert (m < count n - 1)%nat by (apply sep_scan_bound; cbn [snd]; lia).
  case_match; cbn [sep_slot]; lia.
Qed.

(** Cutting the larger of two keys one byte behind their common prefix leaves
    a string above the smaller key. *)
Lemma lex_trunc_above a b :
  a <ₗ b -> a <ₗ take (common_prefix_len a b + 1) b.
Proof.
  unfold lex_lt. revert b; induction a as [|x a IH]; intros [|y b] H; simpl in *; try done.
  destruct (Z.eqb_spec x y) as [->|].
  - simpl. rewrite Z.compare_refl in *. by apply IH.
  - simpl. destruct (Z.compare_spec x y); done.
Qed.

Lemma lex_take_lt m b : (m < length b)%nat -> take m b <ₗ b.
Proof.
  unfold lex_lt. revert b; induction m as [|m IH]; intros [|y b] H; simpl in *; try lia; try done.
  rewrite Z.compare_refl. apply IH. lia.
Qed.

Lemma lex_lt_app p a b : a <ₗ b <-> p ++ a <ₗ p ++ b.
Proof. unfold lex_lt. by rewrite lex_cmp_app. Qed.

(** The separator of a leaf: at least the last key of the left half, below the
    first key of the right half. *)
Lemma getSep_leaf n :
  page_ok n -> is_leaf n = true -> (2 < count n)%nat ->
  let info := findSep n in
  let s := sep_slot info in
  copyFullKey n s ≤ₗ getSep n info /\ getSep n info <ₗ copyFullKey n (s + 1) /\
  (length (getSep n info) <= prefix_length n + getKeyLen n s)%nat /\
  (sep_trunc info = true -> (length (getSep n info) <= prefix_length n + getKeyLen n (s + 1))%nat).
Proof.
  intros P Hleaf Hc. cbn zeta. pose proof (findSep_slot n Hc) as Hs.
  pose proof (page_searchable n P) as Sr. pose proof (s_sorted n Sr) as Hsort.
  pose proof (page_prefix_ok n P) as Hp. unfold prefix_ok in Hp.
  unfold findSep in *. unfold isInner in *. rewrite Hleaf in *. cbn [negb] in *.
  set (m := (sep_scan _ _ _ _).2) in *.
  assert (forall i, length (getKey n i) = getKeyLen n i) as Hlen
    by (intros i; apply length_read_bytes).
  destruct (((commonPrefix n m (m + 1) <? key_len (slot n m)) &&
    (commonPrefix n m (m + 1) + 1 <? key_len (slot n (m + 1))))%nat) eqn:E;
    cbn [sep_slot sep_trunc] in *; unfold getSep, copyFullKey; cbn [sep_slot sep_trunc sep_length].
  - apply andb_true_iff in E as [E1%Nat.ltb_lt E2%Nat.ltb_lt].
    assert (commonPrefix n m (m + 1) = common_prefix_len (getKey n m) (getKey n (m + 1))) as Ec.
    { unfold commonPrefix. rewrite (proj2 (Nat.eqb_neq _ _)) by lia. done. }
    rewrite Ec in *. change (key_len (slot n ?i)) with (getKeyLen n i) in *.
    set (c := common_prefix_len _ _) in *.
    replace (prefix_length n + c + 1 - prefix_length n)%nat with (c + 1)%nat by lia.
    rewrite length_app, length_take, Hp, Hlen. split; [|split; [|split]]; [..|lia|lia].
    + apply lex_le_lteq. left. rewrite <- lex_lt_app. apply lex_trunc_above, Hsort. lia.
    + rewrite <- lex_lt_app. apply lex_take_lt. rewrite Hlen. lia.
  - unfold getFullKeyLen. replace (prefix_length n + getKeyLen n m - prefix_length n)%nat
      with (getKeyLen n m) by lia.
    rewrite take_ge by (rewrite Hlen; lia). rewrite length_app, Hp, Hlen.
    split; [apply lex_le_lteq; by right|]. split; [|split; [lia|done]].
    rewrite <- lex_lt_app. apply Hsort. lia.
Qed.

Lemma getSep_inner n :
  is_leaf n = false ->
  sep_slot (findSep n) = (count n / 2)%nat /\ getSep n (findSep n) = copyFullKey n (count n / 2).
Proof.
  intros H. unfold findSep, isInner. rewrite H. cbn [negb sep_slot]. split; [done|].
  unfold getSep, copyFullKey. cbn [sep_slot sep_trunc sep_length]. unfold getFullKeyLen.
  replace (prefix_length n + getKeyLen n (count n / 2) - prefix_length n)%nat
    with (getKeyLen n (count n / 2)) by lia.
  rewrite take_ge; [done|]. unfold getKey, getKeyLen. by rewrite length_read_bytes.
Qed.

(** * Prefixes and space of the two halves *)

Lemma common_prefix_ge a b p :
  take p a = take p b -> (p <= length a)%nat -> (p <= length b)%nat -> (p <= common_prefix_len a b)%nat.
Proof.
  revert a b; induction p as [|p IH]; intros [|x a] [|y b] E Ha Hb; simpl in *; try lia.
  injection E as -> E. rewrite Z.eqb_refl. apply le_n_S, IH; [done|lia|lia].
Qed.

Lemma common_prefix_nil_r a : common_prefix_len a [] = 0%nat.
Proof. by destruct a. Qed.

(** Narrowing the fences never shortens the shared prefix. *)
Lemma common_prefix_narrow lk uk sep :
  in_fences lk uk sep ->
  (common_prefix_len (default [] lk) (default [] uk) <= common_prefix_len (default [] lk) sep)%nat /\
  (common_prefix_len (default [] lk) (default [] uk) <= common_prefix_len sep (default [] uk))%nat.
Proof.
  intros H. pose proof (in_fences_prefix _ _ _ H) as E. pose proof (in_fences_long _ _ _ H) as Hl.
  cbn zeta in E. set (p := common_prefix_len (default [] lk) (default [] uk)) in *.
  destruct (common_prefix_take (default [] lk) (default [] uk)) as (T1 & T2 & T3). fold p in T1, T2, T3.
  assert (take p sep = take p (default [] lk)) as Ts.
  { rewrite E, take_app_le by (rewrite length_take; lia). rewrite take_take. f_equal. lia. }
  split; apply common_prefix_ge; congruence || done.
Qed.

Lemma stored_len_mono lk uk lk' uk' l :
  (common_prefix_len (default [] lk) (default [] uk)
    <= common_prefix_len (default [] lk') (default [] uk'))%nat ->
  stored_len lk' uk' l <= stored_len lk uk l.
Proof. intros H. unfold stored_len. nia. Qed.

Lemma stored_len_app lk uk a b : stored_len lk uk (a ++ b) = stored_len lk uk a + stored_len lk uk b.
Proof. unfold stored_len. rewrite kv_total_app, length_app. lia. Qed.

Lemma stored_len_entry n i :
  page_ok n ->
  stored_len (getLowerFenceKey n) (getUpperFenceKey n) [entry n i] =
  Z.of_nat (getKeyLen n i) + Z.of_nat (getPayloadLength n i).
Proof.
  intros P. unfold stored_len, kv_total, entry, copyFullKey. simpl.
  rewrite <- (ho_prefix _ _ (po_heap _ P)), length_app, (page_prefix_ok _ P).
  unfold getKey, getPayload, getKeyLen, getPayloadLength. rewrite !length_read_bytes. lia.
Qed.

Lemma entries_around n i :
  (i < count n)%nat -> entries n = take i (entries n) ++ [entry n i] ++ drop (S i) (entries n).
Proof. intros H. symmetry. apply take_drop_middle, lookup_entries, H. Qed.

Lemma stored_len_in n l :
  page_ok n -> (forall e, e ∈ l -> e ∈ entries n) ->
  0 <= stored_len (getLowerFenceKey n) (getUpperFenceKey n) l.
Proof.
  intros P Hl. apply (stored_len_nonneg true). pose proof (po_fences _ P) as Hf.
  apply list.Forall_forall. intros e He. rewrite list.Forall_forall in Hf. auto.
Qed.

(** Space of a page seen around one entry [i]. *)
Lemma stored_around n i :
  page_ok n -> (i < count n)%nat ->
  let st := stored_len (getLowerFenceKey n) (getUpperFenceKey n) in
  0 <= st (take i (entries n)) /\ 0 <= st (drop (S i) (entries n)) /\
  st (take (S i) (entries n)) = st (take i (entries n)) + Z.of_nat (getKeyLen n i + getPayloadLength n i) /\
  slots_end (count n) + option_len (getLowerFenceKey n) + option_len (getUpperFenceKey n)
    + st (take (S i) (entries n)) + st (drop (S i) (entries n)) <= EFFECTIVE_PAGE_SIZE /\
  Z.of_nat (prefix_length n) <= option_len (getLowerFenceKey n) /\
  Z.of_nat (prefix_length n) <= option_len (getUpperFenceKey n).
Proof.
  intros P Hi st. pose proof (page_room n P) as [R _]. rewrite (page_stored n P) in R.
  rewrite <- (take_drop (S i) (entries n)), stored_len_app in R. fold st in R.
  split; [apply stored_len_in; [done|intros e; apply elem_of_take_in]|].
  split; [apply stored_len_in; [done|intros e; apply elem_of_drop_in]|]. split.
  - rewrite (take_S_r _ _ _ (lookup_entries n i Hi)). unfold st.
    rewrite stored_len_app, stored_len_entry by done. lia.
  - split; [lia|]. rewrite (ho_prefix _ _ (po_heap _ P)).
    pose proof (common_prefix_take (default [] (getLowerFenceKey n)) (default [] (getUpperFenceKey n))).
    unfold option_len. lia.
Qed.

(** * Building one half *)

Lemma sorted_range n ss cnt : page_ok n -> StronglySorted key_lt (range n ss cnt).
Proof.
  intros P. pose proof (po_sorted _ P) as H. unfold range.
  rewrite <- (take_drop ss (entries n)) in H. apply StronglySorted_app in H as (_ & _ & H).
  rewrite <- (take_drop cnt (drop ss (entries n))) in H. by apply StronglySorted_app in H as (_ & H & _).
Qed.

Definition opt_upper (u : option Z) (d : BTreeNode) : BTreeNode :=
  match u with Some u => set_upper d u | None => d end.

Definition half (src : BTreeNode) (lk uk : option (list Z)) (ss cnt : nat) : BTreeNode :=
  copyKeyValueRange src (setFences (new_node (is_leaf src)) lk uk) 0 ss cnt.

Lemma half_ok src lk uk ss cnt u :
  page_ok src -> Forall is_byte (default [] lk) -> Forall is_byte (default [] uk) ->
  (ss + cnt <= count src)%nat -> Forall (fun e => in_fences lk uk e.1) (range src ss cnt) ->
  slots_end cnt + option_len lk + option_len uk + stored_len lk uk (range src ss cnt)
    <= EFFECTIVE_PAGE_SIZE ->
  let d := half src lk uk ss cnt in
  let d' := makeHint (opt_upper u d) in
  count d = cnt /\ page_ok d' /\ getLowerFenceKey d' = lk /\ getUpperFenceKey d' = uk /\
  entries d' = range src ss cnt /\ is_leaf d' = is_leaf src /\
  (forall v, u = Some v -> upper d' = v).
Proof.
  intros P Hlk Huk Hc Hf Hroom d d'.
  destruct (fresh_copy_ok (is_leaf src) lk uk Hlk Huk src ss cnt (po_heap _ P) Hc Hf Hroom)
    as (C1 & C2 & C3 & C4 & C5 & C6 & C7). fold (half src lk uk ss cnt) in *. fold d in C1, C2, C3, C4, C5, C6, C7.
  assert (getLowerFenceKey d' = lk) as E1 by (unfold d'; by destruct u).
  assert (getUpperFenceKey d' = uk) as E2 by (unfold d'; by destruct u).
  assert (entries d' = range src ss cnt) as E3 by (unfold d'; by destruct u).
  split; [done|]. split; [|split; [done|split; [done|split; [done|split]]]].
  - apply makeHint_page.
    + destruct u; [|done]. by eapply heap_ok_ext.
    + change (StronglySorted key_lt (entries d')). rewrite E3. by apply sorted_range.
    + change (Forall (fun e => in_fences (getLowerFenceKey d') (getUpperFenceKey d') e.1) (entries d')).
      by rewrite E1, E2, E3.
  - unfold d'. by destruct u.
  - unfold d'. by intros v ->.
Qed.

(** * Split *)

Lemma entry_lookup n i e : entries n !! i = Some e -> (i < count n)%nat /\ e.1 = copyFullKey n i.
Proof.
  intros H. pose proof (lookup_lt_Some _ _ _ H) as Hl. rewrite length_entries in Hl.
  rewrite lookup_entries in H by done. by injection H as <-.
Qed.

Lemma copyFullKey_lt n i j :
  page_ok n -> (i < j < count n)%nat -> copyFullKey n i <ₗ copyFullKey n j.
Proof.
  intros P H. exact (StronglySorted_lookup _ _ i j _ _ (po_sorted _ P)
    (lookup_entries n i ltac:(lia)) (lookup_entries n j ltac:(lia)) ltac:(lia)).
Qed.

Lemma copyFullKey_le n i j :
  page_ok n -> (i <= j < count n)%nat -> copyFullKey n i ≤ₗ copyFullKey n j.
Proof.
  intros P H. apply lex_le_lteq. destruct (decide (i = j)) as [->|]; [by right|].
  left. apply copyFullKey_lt; [done|lia].
Qed.

Lemma copyFullKey_fences n i :
  page_ok n -> (i < count n)%nat -> in_fences (getLowerFenceKey n) (getUpperFenceKey n) (copyFullKey n i).
Proof.
  intros P Hi. pose proof (po_fences _ P) as Hf. rewrite Forall_lookup in Hf.
  exact (Hf i _ (lookup_entries n i Hi)).
Qed.

Section halves.
Context (n : BTreeNode) (P : page_ok n) (s : nat) (sep : list Z).
Context (Hs : (s < count n)%nat) (Hb : Forall is_byte sep) (Hlo : copyFullKey n s ≤ₗ sep).
Context (Hf : in_fences (getLowerFenceKey n) (getUpperFenceKey n) sep).

(** Left half: the entries before [cnt <= s + 1]. *)
Lemma left_fences cnt :
  (cnt <= s + 1)%nat -> Forall (fun e => in_fences (getLowerFenceKey n) (Some sep) e.1) (range n 0 cnt).
Proof.
  intros Hc. unfold range. rewrite drop_0. apply list.Forall_forall.
  intros e (i & Hi & [Hi' ->]%entry_lookup)%take_entry_lookup.
  split; [apply copyFullKey_fences; auto|]. intros uf [= <-].
  eapply lex_le_trans; [|exact Hlo]. apply copyFullKey_le; [done|lia].
Qed.

(** Right half: the entries from [from] on, all above the separator. *)
Lemma right_fences from cnt :
  (from < count n -> sep <ₗ copyFullKey n from)%nat ->
  Forall (fun e => in_fences (Some sep) (getUpperFenceKey n) e.1) (range n from cnt).
Proof.
  intros Hfr. unfold range. apply list.Forall_forall.
  intros e (i & Hi & [Hi' ->]%entry_lookup)%elem_of_take_in%drop_entry_lookup.
  split; [|apply copyFullKey_fences; auto]. intros lf [= <-].
  eapply lex_lt_le_trans; [apply Hfr; lia|]. apply copyFullKey_le; [done|lia].
Qed.

Lemma stored_left l :
  stored_len (getLowerFenceKey n) (Some sep) l <= stored_len (getLowerFenceKey n) (getUpperFenceKey n) l.
Proof. apply stored_len_mono, (common_prefix_narrow _ _ _ Hf). Qed.

Lemma stored_right l :
  stored_len (Some sep) (getUpperFenceKey n) l <= stored_len (getLowerFenceKey n) (getUpperFenceKey n) l.
Proof. apply stored_len_mono, (common_prefix_narrow _ _ _ Hf). Qed.
End halves.

(** What [BTreeGeneric::trySplit] relies on: the non-truncated separator of a
    leaf, copied into the left half as its upper fence, is not longer than
    what leaves that half with the first entry of the right half.  Truncated
    separators, inner pages and keys of one length always satisfy it. *)
Definition sep_fits (n : BTreeNode) (info : SeparatorInfo) : bool :=
  sep_trunc info || negb (is_leaf n) ||
  (Z.of_nat (getKeyLen n (sep_slot info)) <=?
   sizeof_Slot + Z.of_nat (getKeyLen n (sep_slot info + 1))
   + Z.of_nat (getPayloadLength n (sep_slot info + 1))).

Lemma slots_end_mono a b : (a <= b)%nat -> slots_end a + sizeof_Slot * (Z.of_nat b - Z.of_nat a) = slots_end b.
Proof. intros H. unfold slots_end. lia. Qed.

Lemma range_take n c : range n 0 c = take c (entries n).
Proof. unfold range. by rewrite drop_0. Qed.

Lemma range_drop n c : range n c (count n - c) = drop c (entries n).
Proof. unfold range. apply take_ge. rewrite length_drop, length_entries. lia. Qed.

Lemma sep_bytes n info : page_ok n -> Forall is_byte (getSep n info).
Proof.
  intros P. unfold getSep. apply Forall_app. split; [eapply getPrefix_bytes, P|].
  apply Forall_take, read_bytes_is_byte, P.
Qed.

Lemma option_len_Some k : option_len (Some k) = Z.of_nat (length k).
Proof. done. Qed.

(** ** A leaf cut behind slot [s] at a separator between its neighbours *)

Definition cut_at (n : BTreeNode) (s : nat) (sep : list Z) : Prop :=
  (s + 1 < count n)%nat /\ Forall is_byte sep /\ copyFullKey n s ≤ₗ sep /\
  sep <ₗ copyFullKey n (s + 1) /\ (length sep <= prefix_length n + getKeyLen n s)%nat.

(** The separator is not longer than what leaves the left half, or what stays
    there is small. *)
Definition cut_room (n : BTreeNode) (s : nat) (sep : list Z) : Prop :=
  Z.of_nat (length sep) <= option_len (getUpperFenceKey n)
    + sizeof_Slot * Z.of_nat (count n - (s + 1))
    + stored_len (getLowerFenceKey n) (getUpperFenceKey n) (drop (s + 1) (entries n)) \/
  slots_end (s + 1) + option_len (getLowerFenceKey n) + Z.of_nat (length sep) + kv_total (take (s + 1) (entries n))
    <= EFFECTIVE_PAGE_SIZE.

Lemma cut_fences n s sep :
  page_ok n -> cut_at n s sep -> in_fences (getLowerFenceKey n) (getUpperFenceKey n) sep.
Proof.
  intros P (Hs & _ & S1 & S2 & _). split; [intros lf E|intros uf E].
  - eapply lex_lt_le_trans; [|exact S1]. by apply (copyFullKey_fences n s P ltac:(lia)).
  - apply lex_le_lteq. left. eapply lex_lt_le_trans; [exact S2|].
    by apply (copyFullKey_fences n (s + 1) P Hs).
Qed.

(** Both halves fit. *)
Lemma leaf_room n s sep :
  page_ok n -> cut_at n s sep -> cut_room n s sep ->
  let lk := getLowerFenceKey n in
  let uk := getUpperFenceKey n in
  slots_end (s + 1) + option_len lk + option_len (Some sep)
    + stored_len lk (Some sep) (take (s + 1) (entries n)) <= EFFECTIVE_PAGE_SIZE /\
  slots_end (count n - (s + 1)) + option_len (Some sep) + option_len uk
    + stored_len (Some sep) uk (drop (s + 1) (entries n)) <= EFFECTIVE_PAGE_SIZE.
Proof.
  intros P C R lk uk. pose proof (cut_fences n s sep P C) as Hf. destruct C as (Hs & _ & S1 & S2 & S3).
  destruct (stored_around n s P ltac:(lia)) as (A1 & A2 & A3 & A4 & A5 & A6).
  pose proof (stored_left n sep Hf (take (s + 1) (entries n))) as L1.
  pose proof (stored_right n sep Hf (drop (s + 1) (entries n))) as R1.
  replace (S s) with (s + 1)%nat in * by lia. unfold cut_room in R. subst lk uk.
  pose proof (slots_end_mono (s + 1) (count n) ltac:(lia)).
  pose proof (slots_end_mono (count n - (s + 1)) (count n) ltac:(lia)).
  rewrite option_len_Some. split; [|unfold sizeof_Slot in *; lia].
  destruct R as [R|R]; [unfold sizeof_Slot in *; lia|]. etrans; [|exact R]. unfold stored_len at 1. lia.
Qed.

Lemma leaf_halves n s sep :
  page_ok n -> is_leaf n = true -> cut_at n s sep -> cut_room n s sep ->
  let l := half n (getLowerFenceKey n) (Some sep) 0 (s + 1) in
  let r := half n (Some sep) (getUpperFenceKey n) (s + 1) (count n - (s + 1)) in
  count l = (s + 1)%nat /\ page_ok (makeHint l) /\ page_ok (makeHint r) /\
  getLowerFenceKey l = getLowerFenceKey n /\ getUpperFenceKey l = Some sep /\
  getLowerFenceKey r = Some sep /\ getUpperFenceKey r = getUpperFenceKey n /\
  entries l = take (s + 1) (entries n) /\ entries r = drop (s + 1) (entries n) /\
  is_leaf l = true /\ is_leaf r = true.
Proof.
  intros P Hl C R l r. destruct (leaf_room n s sep P C R) as [RL RR].
  pose proof (cut_fences n s sep P C) as Hf. destruct C as (Hs & Hb & S1 & S2 & _).
  pose proof (po_heap _ P) as H.
  destruct (half_ok n (getLowerFenceKey n) (Some sep) 0 (s + 1) None) as (L0 & L1 & L2 & L3 & L4 & L5 & _);
    [done|by eapply fence_is_byte|done|lia|apply left_fences with s; done || lia|by rewrite range_take|].
  destruct (half_ok n (Some sep) (getUpperFenceKey n) (s + 1) (count n - (s + 1)) None)
    as (R0 & R1 & R2 & R3 & R4 & R5 & _);
    [done|done|by eapply fence_is_byte|lia|apply right_fences with s; done || lia|by rewrite range_drop|].
  rewrite range_take in L4. rewrite range_drop in R4. rewrite Hl in L5, R5.
  repeat (split; [assumption|]). assumption.
Qed.

(** The separator [findSep] chooses. *)
Lemma findSep_cut n :
  page_ok n -> is_leaf n = true -> (2 < count n)%nat ->
  cut_at n (sep_slot (findSep n)) (getSep n (findSep n)).
Proof.
  intros P Hl Hc. destruct (getSep_leaf n P Hl Hc) as (S1 & S2 & S3 & _).
  split; [by apply findSep_slot|]. split; [by apply sep_bytes|]. done.
Qed.

Lemma sep_fits_room n :
  page_ok n -> is_leaf n = true -> (2 < count n)%nat -> sep_fits n (findSep n) = true ->
  cut_room n (sep_slot (findSep n)) (getSep n (findSep n)).
Proof.
  intros P Hl Hc Hfit. destruct (getSep_leaf n P Hl Hc) as (_ & _ & S3 & S4).
  pose proof (findSep_slot n Hc) as Hs. set (s := sep_slot (findSep n)) in *.
  destruct (stored_around n s P ltac:(lia)) as (_ & _ & _ & _ & _ & A6).
  destruct (stored_around n (s + 1) P Hs) as (_ & B2 & _). left.
  assert (drop (s + 1) (entries n) = [entry n (s + 1)] ++ drop (S (s + 1)) (entries n)) as ->.
  { apply drop_S, lookup_entries, Hs. }
  rewrite stored_len_app, stored_len_entry by done.
  unfold sep_fits in Hfit. rewrite Hl in Hfit. fold s in Hfit. unfold sizeof_Slot in *.
  destruct (sep_trunc (findSep n)); [specialize (S4 eq_refl); lia|].
  cbn [orb negb] in Hfit. apply Z.leb_le in Hfit. lia.
Qed.

(** ** An inner page cut at slot [s], whose key moves up *)

Lemma inner_room n s :
  page_ok n -> (s + 1 < count n)%nat ->
  let sep := copyFullKey n s in
  let lk := getLowerFenceKey n in
  let uk := getUpperFenceKey n in
  slots_end s + option_len lk + option_len (Some sep)
    + stored_len lk (Some sep) (take s (entries n)) <= EFFECTIVE_PAGE_SIZE /\
  slots_end (count n - (s + 1)) + option_len (Some sep) + option_len uk
    + stored_len (Some sep) uk (drop (s + 1) (entries n)) <= EFFECTIVE_PAGE_SIZE.
Proof.
  intros P Hs sep lk uk.
  assert (in_fences lk uk sep) as Hf by (apply copyFullKey_fences; [done|lia]).
  assert (length sep = prefix_length n + getKeyLen n s)%nat as Hlen.
  { unfold sep, copyFullKey. by rewrite length_app, (page_prefix_ok n P), length_getKey. }
  destruct (stored_around n s P ltac:(lia)) as (A1 & A2 & A3 & A4 & A5 & A6).
  pose proof (stored_left n sep Hf (take s (entries n))) as SL.
  pose proof (stored_right n sep Hf (drop (s + 1) (entries n))) as SR.
  replace (S s) with (s + 1)%nat in * by lia. subst lk uk.
  pose proof (slots_end_mono s (count n) ltac:(lia)).
  pose proof (slots_end_mono (count n - (s + 1)) (count n) ltac:(lia)).
  unfold sizeof_Slot in *. rewrite option_len_Some. lia.
Qed.

Lemma inner_halves n s u v :
  page_ok n -> is_leaf n = false -> (s + 1 < count n)%nat ->
  let sep := copyFullKey n s in
  let l := half n (getLowerFenceKey n) (Some sep) 0 s in
  let r := half n (Some sep) (getUpperFenceKey n) (s + 1) (count n - (s + 1)) in
  count l = s /\ page_ok (makeHint (set_upper l u)) /\ page_ok (makeHint (set_upper r v)) /\
  getLowerFenceKey l = getLowerFenceKey n /\ getUpperFenceKey l = Some sep /\
  getLowerFenceKey r = Some sep /\ getUpperFenceKey r = getUpperFenceKey n /\
  entries l = take s (entries n) /\ entries r = drop (s + 1) (entries n) /\
  is_leaf l = false /\ is_leaf r = false.
Proof.
  intros P Hl Hs sep l r. destruct (inner_room n s P Hs) as [RL RR]. fold sep in RL, RR.
  assert (Forall is_byte sep) as Hb.
  { apply Forall_app. split; [eapply getPrefix_bytes, P|]. apply read_bytes_is_byte, (po_heap _ P). }
  pose proof (po_heap _ P) as H.
  assert (copyFullKey n s ≤ₗ sep) as Hlo by (apply lex_le_lteq; by right).
  assert (sep <ₗ copyFullKey n (s + 1)) as Hhi by (apply copyFullKey_lt; [done|lia]).
  destruct (half_ok n (getLowerFenceKey n) (Some sep) 0 s (Some u)) as (L0 & L1 & L2 & L3 & L4 & L5 & _);
    [done|by eapply fence_is_byte|done|lia|apply left_fences with s; done || lia|by rewrite range_take|].
  destruct (half_ok n (Some sep) (getUpperFenceKey n) (s + 1) (count n - (s + 1)) (Some v))
    as (R0 & R1 & R2 & R3 & R4 & R5 & _);
    [done|done|by eapply fence_is_byte|lia|apply right_fences with s; done || lia|by rewrite range_drop|].
  rewrite range_take in L4. rewrite range_drop in R4. rewrite Hl in L5, R5.
  repeat (split; [assumption|]). assumption.
Qed.

(** ** The whole split *)

(** The parent can take the separator. *)
Definition parent_ready (parent : BTreeNode) (sep : list Z) : Prop :=
  page_ok parent /\ in_fences (getLowerFenceKey parent) (getUpperFenceKey parent) sep /\
  (forall e, e ∈ entries parent -> e.1 <> sep) /\
  sizeof_Slot + Z.of_nat (length sep) + Z.of_nat sizeof_SwipType < 65536 /\
  canInsert parent (length sep) sizeof_SwipType = true.

(** What the parent becomes. *)
Definition parent_gains (parent parent' : BTreeNode) (sep : list Z) (swip : Z) : Prop :=
  page_ok parent' /\ same_frame parent parent' /\
  exists pos, entries parent' = take pos (entries parent) ++ (sep, to_le sizeof_SwipType swip)
                                :: drop pos (entries parent).

Lemma split_parent parent sep swip :
  parent_ready parent sep -> Forall is_byte sep ->
  exists parent' pos, insert parent sep (to_le sizeof_SwipType swip) = Some (parent', pos) /\
    parent_gains parent parent' sep swip.
Proof.
  intros (Pp & Hf & Hn & Hsz & Hcan) Hb.
  assert (length (to_le sizeof_SwipType swip) = sizeof_SwipType) as El by apply length_to_le.
  destruct (insert_ok parent sep (to_le sizeof_SwipType swip))
    as (p' & s & E & P' & F & C & Hs & Ee & _);
    [done|done|apply to_le_bytes|done|done|by rewrite El|by rewrite El|].
  exists p', s. split; [done|]. split; [done|]. split; [done|]. by exists s.
Qed.

Lemma parent_gains_map parent parent' sep swip :
  parent_gains parent parent' sep swip ->
  page_map parent' = <[sep := to_le sizeof_SwipType swip]> (page_map parent).
Proof.
  intros (P' & _ & pos & Ee). pose proof (sorted_NoDup_keys _ (po_sorted _ P')) as Hd.
  unfold page_map. rewrite Ee in *. rewrite list_to_map_insert_mid by done. by rewrite take_drop.
Qed.

Lemma split_leaf_at n parent swip s sep :
  page_ok n -> is_leaf n = true -> cut_at n s sep -> cut_room n s sep -> parent_ready parent sep ->
  exists parent' left right,
    split n parent (new_node (is_leaf n)) swip s sep = Some (parent', left, right) /\
    parent_gains parent parent' sep swip /\
    page_ok left /\ page_ok right /\ is_leaf left = true /\ is_leaf right = true /\
    getLowerFenceKey left = getLowerFenceKey n /\ getUpperFenceKey left = Some sep /\
    getLowerFenceKey right = Some sep /\ getUpperFenceKey right = getUpperFenceKey n /\
    entries left = take (s + 1) (entries n) /\ entries right = drop (s + 1) (entries n).
Proof.
  intros P Hl C R Hr. destruct (split_parent parent sep swip Hr) as (p' & pos & E & G); [apply C|].
  destruct (leaf_halves n s sep P Hl C R) as (Cl & L1 & R1 & L2 & L3 & R2 & R3 & L4 & R4 & L5 & R5).
  unfold split. rewrite E. unfold half in *. rewrite Hl in *. rewrite Cl.
  eexists _, _, _. split; [done|]. by split_and!.
Qed.

Lemma split_inner_at n parent swip s :
  page_ok n -> is_leaf n = false -> (s + 1 < count n)%nat ->
  let sep := copyFullKey n s in
  parent_ready parent sep ->
  exists parent' left right,
    split n parent (new_node (is_leaf n)) swip s sep = Some (parent', left, right) /\
    parent_gains parent parent' sep swip /\
    page_ok left /\ page_ok right /\ is_leaf left = false /\ is_leaf right = false /\
    getLowerFenceKey left = getLowerFenceKey n /\ getUpperFenceKey left = Some sep /\
    getLowerFenceKey right = Some sep /\ getUpperFenceKey right = getUpperFenceKey n /\
    entries left = take s (entries n) /\ entries right = drop (s + 1) (entries n) /\
    upper left = getChild n s /\ upper right = upper n.
Proof.
  intros P Hl Hs sep Hr.
  assert (Forall is_byte sep) as Hb.
  { apply Forall_app. split; [eapply getPrefix_bytes, P|]. apply read_bytes_is_byte, (po_heap _ P). }
  destruct (split_parent parent sep swip Hr Hb) as (p' & pos & E & G).
  destruct (inner_halves n s (getChild n s) (upper n) P Hl Hs)
    as (Cl & L1 & R1 & L2 & L3 & R2 & R3 & L4 & R4 & L5 & R5).
  unfold split. rewrite E. unfold half in *. rewrite Hl in *. fold sep in Cl, L1, R1, L2, L3, R2, R3, L4, R4, L5, R5.
  rewrite Cl. replace (count n - s - 1)%nat with (count n - (s + 1))%nat by lia.
  eexists _, _, _. split; [done|]. by split_and!.
Qed.

(** * Properties of the split *)

(** The separator of a well-formed leaf of more than two entries separates
    its halves: it is at least the last key that stays left and below the
    first key that moves right, and it is no longer than that last key (the
    truncation only shortens it). *)
Theorem separator_between n :
  page_ok n -> is_leaf n = true -> (2 < count n)%nat ->
  let info := findSep n in
  let s := sep_slot info in
  (s + 1 < count n)%nat /\
  copyFullKey n s ≤ₗ getSep n info /\ getSep n info <ₗ copyFullKey n (s + 1) /\
  (length (getSep n info) <= length (copyFullKey n s))%nat.
Proof.
  intros P Hl Hc info s. destruct (getSep_leaf n P Hl Hc) as (S1 & S2 & S3 & _).
  split; [by apply findSep_slot|]. split; [done|]. split; [done|].
  unfold copyFullKey at 1. by rewrite length_app, (page_prefix_ok n P), length_getKey.
Qed.

Lemma separator_between_witness :
  getSep sample_page (findSep sample_page) = [9] /\
  [9] <ₗ copyFullKey sample_page (sep_slot (findSep sample_page) + 1).
Proof.
  destruct (separator_between sample_page) as (_ & _ & H & _);
    [apply sample_page_ok|reflexivity|apply Nat.ltb_lt; vm_compute; reflexivity|].
  split; [vm_compute; reflexivity|]. exact H.
Defined.

(** What [BTreeGeneric::trySplit] has established when it calls [split]. *)
Definition split_ready (n parent : BTreeNode) : Prop :=
  page_ok n /\ (2 < count n)%nat /\ sep_fits n (findSep n) = true /\
  parent_ready parent (getSep n (findSep n)).

(** Splitting a well-formed leaf whose separator fits: the call completes;
    left and right page are well formed leaves whose fences meet at the
    separator; together they hold the entries of the old page, in order; and
    the parent gains exactly the separator with the swip of the left page. *)
Theorem split_leaf n parent left_swip :
  split_ready n parent -> is_leaf n = true ->
  let info := findSep n in
  let sep := getSep n info in
  exists parent' left right,
    split n parent (new_node (is_leaf n)) left_swip (sep_slot info) sep = Some (parent', left, right) /\
    page_ok parent' /\ same_frame parent parent' /\
    page_map parent' = <[sep := to_le sizeof_SwipType left_swip]> (page_map parent) /\
    page_ok left /\ page_ok right /\ is_leaf left = true /\ is_leaf right = true /\
    getLowerFenceKey left = getLowerFenceKey n /\ getUpperFenceKey left = Some sep /\
    getLowerFenceKey right = Some sep /\ getUpperFenceKey right = getUpperFenceKey n /\
    entries n = entries left ++ entries right.
Proof.
  intros (P & Hc & Hfit & R) Hl info sep.
  destruct (split_leaf_at n parent left_swip (sep_slot info) sep)
    as (p' & l & r & E & G & L1 & R1 & L2 & R2 & F1 & F2 & F3 & F4 & El & Er);
    [done|done|by apply findSep_cut|by apply sep_fits_room|done|].
  exists p', l, r. split; [done|]. pose proof (parent_gains_map _ _ _ _ G) as M.
  destruct G as (G1 & G2 & _). split_and!; try done. by rewrite El, Er, take_drop.
Qed.

(** Splitting a well-formed inner page: the separator entry leaves the
    page, its child becomes the left page's [upper], the right page keeps the
    old [upper], and the other entries go left and right of it. *)
Theorem split_inner n parent left_swip :
  split_ready n parent -> is_leaf n = false ->
  let info := findSep n in
  let s := sep_slot info in
  let sep := getSep n info in
  exists parent' left right,
    split n parent (new_node (is_leaf n)) left_swip s sep = Some (parent', left, right) /\
    page_ok parent' /\ same_frame parent parent' /\
    page_map parent' = <[sep := to_le sizeof_SwipType left_swip]> (page_map parent) /\
    page_ok left /\ page_ok right /\ is_leaf left = false /\ is_leaf right = false /\
    getLowerFenceKey left = getLowerFenceKey n /\ getUpperFenceKey left = Some sep /\
    getLowerFenceKey right = Some sep /\ getUpperFenceKey right = getUpperFenceKey n /\
    entries n = entries left ++ [(sep, getPayload n s)] ++ entries right /\
    upper left = getChild n s /\ upper right = upper n.
Proof.
  intros (P & Hc & _ & R) Hl info s sep. pose proof (findSep_slot n Hc) as Hs.
  assert (sep = copyFullKey n s) as Esep.
  { destruct (getSep_inner n Hl) as [E1 E2]. unfold sep, s, info. by rewrite E1. }
  change (getSep n (findSep n)) with sep in R. rewrite Esep in *.
  destruct (split_inner_at n parent left_swip s)
    as (p' & l & r & E & G & L1 & R1 & L2 & R2 & F1 & F2 & F3 & F4 & El & Er & U1 & U2); [done..|].
  exists p', l, r. split; [done|]. pose proof (parent_gains_map _ _ _ _ G) as M.
  destruct G as (G1 & G2 & _). split_and!; try done. rewrite El, Er.
  rewrite (entries_around n s) at 1 by (fold s info in Hs; lia). by rewrite Nat.add_1_r.
Qed.

(** A leaf page and an inner page split under an empty root. *)
Definition sample_inner : BTreeNode :=
  default (new_node false) (load_page (new_node false)
    [([2], to_le 8 64); ([4; 1], to_le 8 128); ([6], to_le 8 192); ([8; 8], to_le 8 256)]).

Lemma sample_inner_ok : page_ok sample_inner.
Proof. apply load_page_default; [apply new_node_ok|vm_compute; reflexivity]. Qed.

Ltac ready :=
  split; [apply Nat.ltb_lt; vm_compute; reflexivity|]; split; [vm_compute; reflexivity|];
  split; [apply new_node_ok|]; split; [apply no_fence_in; reflexivity|];
  split; [intros e He; destruct (not_elem_of_nil _ He)|]; split; [apply Z.ltb_lt; vm_compute; reflexivity|];
  vm_compute; reflexivity.

Lemma sample_leaf_ready : split_ready sample_page (new_node false).
Proof. split; [apply sample_page_ok|]. ready. Qed.

Lemma sample_inner_ready : split_ready sample_inner (new_node false).
Proof. split; [apply sample_inner_ok|]. ready. Qed.

Lemma split_leaf_witness :
  exists parent' left right,
    split sample_page (new_node false) (new_node true) 4096 2 [9] = Some (parent', left, right) /\
    page_map parent' = {[ [9] := to_le 8 4096 ]} /\
    entries sample_page = entries left ++ entries right.
Proof.
  destruct (split_leaf sample_page (new_node false) 4096 sample_leaf_ready eq_refl)
    as (p & l & r & E & _ & _ & M & _ & _ & _ & _ & _ & _ & _ & _ & H).
  exists p, l, r. split; [exact E|]. split; [exact M|exact H].
Defined.

Lemma split_inner_witness :
  exists parent' left right,
    split sample_inner (new_node false) (new_node false) 4096 2 [6] = Some (parent', left, right) /\
    upper left = 192 /\ entries sample_inner = entries left ++ [([6], to_le 8 192)] ++ entries right.
Proof.
  destruct (split_inner sample_inner (new_node false) 4096 sample_inner_ready eq_refl)
    as (p & l & r & E & _ & _ & M & _ & _ & _ & _ & _ & _ & _ & _ & H & U & _).
  exists p, l, r. split; [exact E|]. split; [exact U|exact H].
Defined.
