(* ===== verification/BTreeNodeMerge.v ===== *)
(** Merging two neighbouring B-tree pages: the space bound, the merged page,
    and where the 16-bit bound wraps. *)
From stdpp Require Import sorting gmap.
From S2P Require Import Prelude BTreeNode BTreeNodeSearch BTreeNodeSpace BTreeNodeOps BTreeNodeSplit.
Local Open Scope Z_scope.

(** [adjacent l r mid]: [r] follows [l] and [mid] is the fence they share. *)
Definition adjacent (l r : BTreeNode) (mid : list Z) : Prop :=
  getUpperFenceKey l = Some mid /\ getLowerFenceKey r = Some mid /\
  in_fences (getLowerFenceKey l) (getUpperFenceKey r) mid.

(** The bound of [merge] over the integers. *)
Definition merge_need (l r : BTreeNode) : Z :=
  let pt := common_prefix_len (default [] (getLowerFenceKey l)) (default [] (getUpperFenceKey r)) in
  space_used l + space_used r + slots_end (count l + count r)
  + (Z.of_nat (prefix_length l) - Z.of_nat pt) * Z.of_nat (count l)
  + (Z.of_nat (prefix_length r) - Z.of_nat pt) * Z.of_nat (count r).

(** One entry stored behind what [d] holds. *)
Lemma append_one_ok d key payload :
  heap_ok (slot_list (count d) d) d -> Forall is_byte key -> Forall is_byte payload ->
  in_fences (getLowerFenceKey d) (getUpperFenceKey d) key ->
  slots_end (count d + 1) + (Z.of_nat (length key) - Z.of_nat (prefix_length d)) + Z.of_nat (length payload)
    <= data_offset d ->
  let d' := storeKeyValue d (count d) key payload in
  let d'' := set_count d' (count d' + 1) in
  heap_ok (slot_list (count d'') d'') d'' /\ same_frame d d'' /\ count d'' = (count d + 1)%nat /\
  entries d'' = entries d ++ [(key, payload)] /\
  data_offset d'' = data_offset d - (Z.of_nat (length key) - Z.of_nat (prefix_length d))
                    - Z.of_nat (length payload).
Proof.
  intros H Hk Hp Hf Hroom. pose proof (heap_bounds _ _ H) as [B1 B2].
  assert (prefix_length d <= length key)%nat as Hpl
    by (rewrite (ho_prefix _ _ H); by apply in_fences_long).
  pose proof (heap_prefix_key _ d key H Hf) as Ek.
  assert (Z.of_nat (length (drop (prefix_length d) key)) =
    Z.of_nat (length key) - Z.of_nat (prefix_length d)) as El by (rewrite length_drop; lia).
  cbv zeta. rewrite storeKeyValue_put by (consts; lia).
  destruct (put_all_ok d (count d) [(drop (prefix_length d) key, payload)]) as (P1 & P2 & P3 & P4 & P5);
    [done|by repeat constructor; [apply Forall_drop|]|cbn [length kv_total foldr fst snd]; lia|].
  cbn [put_all length kv_total foldr fst snd map] in *.
  set (d' := put_slot d (count d) (drop (prefix_length d) key) payload) in *.
  split; [by eapply heap_ok_ext|]. split; [done|]. split; [change (count d + 1 = count d + 1)%nat; done|].
  split; [|change (data_offset (set_count d' (count d' + 1))) with (data_offset d'); lia].
  rewrite (entries_slot_list d), (entries_slot_list (set_count _ _)).
  change (map (slot_entry d') (slot_list (count d + 1) d') =
          map (slot_entry d) (slot_list (count d) d) ++ [(key, payload)]).
  by rewrite P3, <- Ek.
Qed.

Section merge.
Context (l r : BTreeNode) (mid : list Z).
Context (Pl : page_ok l) (Pr : page_ok r) (Ha : adjacent l r mid).

Let lk := getLowerFenceKey l.
Let uk := getUpperFenceKey r.
Let pt := common_prefix_len (default [] lk) (default [] uk).

Lemma merge_prefix : (pt <= prefix_length l)%nat /\ (pt <= prefix_length r)%nat.
Proof.
  destruct Ha as (E1 & E2 & Hf). rewrite (ho_prefix _ _ (po_heap _ Pl)), (ho_prefix _ _ (po_heap _ Pr)).
  rewrite E1, E2. apply (common_prefix_narrow _ _ _ Hf).
Qed.

(** Only one side can lose prefix bytes: [mid] shares a prefix with both ends. *)
Lemma merged_fences_left : Forall (fun e => in_fences lk uk e.1) (entries l).
Proof.
  pose proof (po_fences _ Pl) as H. destruct Ha as (E1 & _ & [Hm1 Hm2]).
  eapply List.Forall_impl; [|exact H]. intros e [H1 H2]. split; [exact H1|].
  intros uf Hu. eapply lex_le_trans; [by apply H2|]. by apply Hm2.
Qed.

Lemma merged_fences_right : Forall (fun e => in_fences lk uk e.1) (entries r).
Proof.
  pose proof (po_fences _ Pr) as H. destruct Ha as (_ & E2 & [Hm1 Hm2]).
  eapply List.Forall_impl; [|exact H]. intros e [H1 H2]. split; [|exact H2].
  intros lf Hl. eapply lex_lt_trans; [by apply Hm1|]. by apply H1.
Qed.

Lemma left_below e : e ∈ entries l -> e.1 ≤ₗ mid.
Proof.
  intros He. pose proof (po_fences _ Pl) as H. rewrite list.Forall_forall in H.
  apply (H e He). apply Ha.
Qed.

Lemma right_above e : e ∈ entries r -> mid <ₗ e.1.
Proof.
  intros He. pose proof (po_fences _ Pr) as H. rewrite list.Forall_forall in H.
  apply (H e He). apply Ha.
Qed.

(** Stored bytes of both pages behind the merged prefix. *)
Lemma merge_need_eq :
  merge_need l r = stored_len lk uk (entries l) + stored_len lk uk (entries r)
    + option_len lk + option_len uk + 2 * Z.of_nat (length mid) + slots_end (count l + count r).
Proof.
  unfold merge_need. rewrite (page_space l Pl), (page_space r Pr). unfold stored_len.
  destruct Ha as (E1 & E2 & _). rewrite E1, E2, !length_entries, !option_len_Some. unfold lk, uk. lia.
Qed.

Lemma merge_need_nonneg : 0 <= merge_need l r.
Proof.
  rewrite merge_need_eq. pose proof (stored_len_nonneg true lk uk _ merged_fences_left).
  pose proof (stored_len_nonneg true lk uk _ merged_fences_right).
  unfold option_len, slots_end, slot_base, sizeof_Slot. lia.
Qed.

Lemma merge_room_fences :
  merge_need l r <= EFFECTIVE_PAGE_SIZE ->
  slot_base + option_len lk + option_len uk <= EFFECTIVE_PAGE_SIZE.
Proof.
  rewrite merge_need_eq. pose proof (stored_len_nonneg true lk uk _ merged_fences_left).
  pose proof (stored_len_nonneg true lk uk _ merged_fences_right).
  unfold option_len, slots_end, slot_base, sizeof_Slot. lia.
Qed.

Lemma merged_prefix_length leaf :
  prefix_length (setFences (new_node leaf) lk uk) = pt.
Proof. reflexivity. Qed.

(** The wrapped bound agrees with the integer one below [2^w]. *)
Lemma merge_bound_wrap w leaf :
  0 <= w -> merge_bound w l r (setFences (new_node leaf) lk uk) mod 2 ^ w = merge_need l r mod 2 ^ w.
Proof.
  intros Hw. unfold merge_bound, wrap. rewrite merged_prefix_length. unfold merge_need.
  change (common_prefix_len _ _) with pt.
  set (a := space_used l + space_used r + slots_end (count l + count r)).
  set (b := (_ - _) * Z.of_nat (count l)). set (c := (_ - _) * Z.of_nat (count r)).
  rewrite Z.add_mod, (Z.add_mod a), !Z.mod_mod by lia.
  rewrite <- (Z.add_mod a), <- Z.add_mod by lia. done.
Qed.

Lemma merged_bytes : Forall is_byte (default [] lk) /\ Forall is_byte (default [] uk).
Proof. split; eapply fence_is_byte, po_heap; eassumption. Qed.

(** Copying the left page into the fresh page. *)
Lemma merge_copy_left leaf :
  merge_need l r <= EFFECTIVE_PAGE_SIZE ->
  let d := copyKeyValueRange l (setFences (new_node leaf) lk uk) 0 0 (count l) in
  heap_ok (slot_list (count d) d) d /\ getLowerFenceKey d = lk /\ getUpperFenceKey d = uk /\
  entries d = entries l /\ count d = count l /\ is_leaf d = leaf /\
  data_offset d = EFFECTIVE_PAGE_SIZE - option_len lk - option_len uk - stored_len lk uk (entries l).
Proof.
  intros Hn. destruct merged_bytes as [B1 B2]. pose proof merge_need_eq as E.
  pose proof (stored_len_nonneg true lk uk _ merged_fences_right).
  destruct (fresh_copy_ok leaf lk uk B1 B2 l 0 (count l) (po_heap _ Pl) ltac:(lia)) as (H1 & H2);
    rewrite ?range_all in *; [apply merged_fences_left| |by split].
  rewrite slots_end_add in E. unfold sizeof_Slot in E. lia.
Qed.

(** Copying the right page behind what [d] holds. *)
Lemma merge_copy_right d :
  heap_ok (slot_list (count d) d) d -> getLowerFenceKey d = lk -> getUpperFenceKey d = uk ->
  slots_end (count d + count r) + stored_len lk uk (entries r) <= data_offset d ->
  let d' := copyKeyValueRange r d (count d) 0 (count r) in
  heap_ok (slot_list (count d') d') d' /\ same_frame d d' /\
  entries d' = entries d ++ entries r.
Proof.
  intros Hd El Eu Hroom.
  destruct (append_copy_ok lk uk d r 0 (count r) Hd El Eu (po_heap _ Pr) ltac:(lia))
    as (C1 & C2 & C3 & _); rewrite ?range_all in *; [apply merged_fences_right|done|by split_and!].
Qed.

(** The assembled page is well formed, whatever [upper] it gets. *)
Lemma merge_finish u d es :
  heap_ok (slot_list (count d) d) d -> getLowerFenceKey d = lk -> getUpperFenceKey d = uk ->
  entries d = entries l ++ es ++ entries r ->
  (forall e, e ∈ es -> e.1 = mid) -> (length es <= 1)%nat -> (forall e, e ∈ entries l -> es <> [] -> e.1 <ₗ mid) ->
  page_ok (makeHint (opt_upper u d)).
Proof.
  intros Hd El Eu Ee Hes Hle Hlt. apply makeHint_page.
  - destruct u; [|done]. by eapply heap_ok_ext.
  - assert (entries (opt_upper u d) = entries l ++ es ++ entries r) as -> by (by destruct u).
    apply StronglySorted_app. split; [|split; [apply Pl|apply StronglySorted_app; split; [|split; [|apply Pr]]]].
    + intros a b Ha' [Hb|Hb]%elem_of_app.
      * rewrite (Hes b Hb). apply Hlt; [done|]. intros ->. by apply not_elem_of_nil in Hb.
      * eapply lex_le_lt_trans; [by apply left_below|by apply right_above].
    + intros a b Ha' Hb. rewrite (Hes a Ha'). by apply right_above.
    + destruct es as [|e [|]]; [constructor|by repeat constructor|simpl in Hle; lia].
  - assert (entries (opt_upper u d) = entries l ++ es ++ entries r) as -> by (by destruct u).
    assert (getLowerFenceKey (opt_upper u d) = lk /\ getUpperFenceKey (opt_upper u d) = uk) as [-> ->]
      by (by destruct u).
    apply Forall_app. split; [apply merged_fences_left|]. apply Forall_app. split; [|apply merged_fences_right].
    apply list.Forall_forall. intros e He. rewrite (Hes e He). apply Ha.
Qed.

Lemma merge_leaf_page leaf :
  merge_need l r <= EFFECTIVE_PAGE_SIZE ->
  let d1 := copyKeyValueRange l (setFences (new_node leaf) lk uk) 0 0 (count l) in
  let d2 := copyKeyValueRange r d1 (count l) 0 (count r) in
  page_ok (makeHint d2) /\ entries d2 = entries l ++ entries r /\
  getLowerFenceKey d2 = lk /\ getUpperFenceKey d2 = uk /\ is_leaf d2 = leaf.
Proof.
  intros Hn d1 d2. destruct (merge_copy_left leaf Hn) as (H1 & H2 & H3 & H4 & H5 & H6 & H7).
  fold d1 in H1, H2, H3, H4, H5, H6, H7. pose proof merge_need_eq as E.
  destruct (merge_copy_right d1 H1 H2 H3) as (C1 & (F1 & F2 & _ & _ & F5) & C3).
  { rewrite H5, H7. lia. }
  rewrite H5 in C1, F1, F2, F5, C3. fold d2 in C1, F1, F2, F5, C3. rewrite H4 in C3.
  split; [|split; [done|split; [congruence|split; congruence]]].
  apply (merge_finish None d2 []); try done; try congruence; simpl; [|lia].
  intros e He. by apply not_elem_of_nil in He.
Qed.

(** Inner pages: the separator [mid] comes down between the two with the
    child [u] it delimits. *)
Lemma merge_inner_page leaf u v :
  merge_need l r + sizeof_Slot + (Z.of_nat (length mid) - Z.of_nat pt) + Z.of_nat sizeof_SwipType
    <= EFFECTIVE_PAGE_SIZE ->
  Forall is_byte mid -> (forall e, e ∈ entries l -> e.1 <ₗ mid) ->
  let d1 := copyKeyValueRange l (setFences (new_node leaf) lk uk) 0 0 (count l) in
  let d2 := storeKeyValue d1 (count l) mid (to_le sizeof_SwipType u) in
  let d3 := set_count d2 (count d2 + 1) in
  let d4 := copyKeyValueRange r d3 (count d3) 0 (count r) in
  page_ok (makeHint (set_upper d4 v)) /\
  entries d4 = entries l ++ [(mid, to_le sizeof_SwipType u)] ++ entries r /\
  getLowerFenceKey d4 = lk /\ getUpperFenceKey d4 = uk /\ is_leaf d4 = leaf.
Proof.
  intros Hn Hb Hlt d1 d2 d3 d4. pose proof merge_need_eq as E.
  assert (pt <= length mid)%nat as Hpm by (apply in_fences_long, Ha).
  destruct (merge_copy_left leaf) as (H1 & H2 & H3 & H4 & H5 & H6 & H7); [unfold sizeof_Slot in *; lia|].
  fold d1 in H1, H2, H3, H4, H5, H6, H7.
  assert (prefix_length d1 = pt) as Hp by (rewrite (ho_prefix _ _ H1), H2, H3; done).
  pose proof (length_to_le sizeof_SwipType u) as El.
  pose proof (stored_len_nonneg true lk uk _ merged_fences_right).
  rewrite slots_end_add in E. unfold sizeof_Slot in *.
  destruct (append_one_ok d1 mid (to_le sizeof_SwipType u))
    as (A1 & (A2 & A3 & _ & _ & A4) & A5 & A6 & A7);
    [done|done|apply to_le_bytes|rewrite H2, H3; apply Ha
    |rewrite H5, H7, Hp, El, slots_end_add; unfold sizeof_Slot; lia|].
  rewrite H5 in A1, A2, A3, A4, A5, A6, A7. rewrite Hp, El in A7. fold d2 d3 in A1, A2, A3, A4, A5, A6, A7.
  destruct (merge_copy_right d3) as (C1 & (F1 & F2 & _ & _ & F5) & C3); [done|congruence|congruence| |].
  { rewrite A5, A7, H7, !slots_end_add. unfold sizeof_Slot. lia. }
  fold d4 in C1, F1, F2, F5, C3. rewrite A6, H4, <- app_assoc in C3.
  split; [|split; [done|split; [congruence|split; congruence]]].
  apply (merge_finish (Some v) d4 [(mid, to_le sizeof_SwipType u)]); try done; try congruence; simpl; [|auto].
  intros e [->|He]%elem_of_cons; [done|]. by apply not_elem_of_nil in He.
Qed.
End merge.

(** The decision of [merge] and the page it assembles, below the wrap. *)
Definition joined_leaf (l r : BTreeNode) : BTreeNode :=
  let d := copyKeyValueRange l (setFences (new_node true) (getLowerFenceKey l) (getUpperFenceKey r)) 0 0 (count l) in
  copyKeyValueRange r d (count l) 0 (count r).

Lemma merge_leaf_eq l r parent slotId mid :
  page_ok l -> page_ok r -> is_leaf l = true -> adjacent l r mid -> merge_need l r < 65536 ->
  merge l slotId parent r =
    if EFFECTIVE_PAGE_SIZE <? merge_need l r then None
    else Some (removeSlot parent slotId, makeHint (joined_leaf l r)).
Proof.
  intros Pl Pr Hl Ha Hw. unfold merge. rewrite Hl.
  pose proof (merge_bound_wrap l r 16 true ltac:(lia)) as Eb.
  pose proof (merge_need_nonneg l r mid Pl Pr Ha) as Hn.
  rewrite (Z.mod_small (merge_need l r)) in Eb by (change (2 ^ 16) with 65536; lia).
  change (u16 ?x) with (x mod 2 ^ 16). by rewrite Eb.
Qed.

(** Merging two adjacent well-formed leaves.  As long as the space bound
    stays below 2^16, [merge] refuses exactly when the bound exceeds the page,
    and otherwise yields a well-formed leaf between the outer fences that holds
    the entries of both in order, and the parent without the slot of the left
    page. *)
Theorem merge_leaf l r parent slotId mid :
  page_ok l -> page_ok r -> page_ok parent -> is_leaf l = true -> adjacent l r mid ->
  (slotId < count parent)%nat -> merge_need l r < 65536 ->
  (EFFECTIVE_PAGE_SIZE < merge_need l r -> merge l slotId parent r = None) /\
  (merge_need l r <= EFFECTIVE_PAGE_SIZE ->
   exists parent' m, merge l slotId parent r = Some (parent', m) /\
     page_ok parent' /\ page_ok m /\ is_leaf m = true /\
     getLowerFenceKey m = getLowerFenceKey l /\ getUpperFenceKey m = getUpperFenceKey r /\
     entries m = entries l ++ entries r /\
     entries parent' = take slotId (entries parent) ++ drop (S slotId) (entries parent)).
Proof.
  intros Pl Pr Pp Hl Ha Hs Hw. rewrite (merge_leaf_eq l r parent slotId mid) by done.
  split; intros Hfit; [by rewrite (proj2 (Z.ltb_lt _ _) Hfit)|].
  rewrite (proj2 (Z.ltb_ge _ _) Hfit).
  destruct (merge_leaf_page l r mid Pl Pr Ha true Hfit) as (M1 & M2 & M3 & M4 & M5).
  destruct (removeSlot_ok parent slotId Pp Hs) as (R1 & _ & _ & R4 & _).
  eexists _, _. split; [done|]. by split_and!.
Qed.

(** The bound [merge] checks for inner pages, over the integers. *)
Definition merge_inner_need (l r : BTreeNode) (mid : list Z) : Z :=
  merge_need l r + sizeof_Slot
  + (Z.of_nat (length mid) - Z.of_nat (common_prefix_len (default [] (getLowerFenceKey l))
                                         (default [] (getUpperFenceKey r))))
  + Z.of_nat sizeof_SwipType.

Definition joined_inner (l r : BTreeNode) (mid : list Z) : BTreeNode :=
  let d := copyKeyValueRange l (setFences (new_node false) (getLowerFenceKey l) (getUpperFenceKey r)) 0 0 (count l) in
  let d := storeKeyValue d (count l) mid (to_le sizeof_SwipType (upper l)) in
  let d := set_count d (count d + 1) in
  copyKeyValueRange r d (count d) 0 (count r).

Lemma copyFullKey_bytes n i : page_ok n -> Forall is_byte (copyFullKey n i).
Proof.
  intros P. apply Forall_app. split; [eapply getPrefix_bytes, P|apply read_bytes_is_byte, (po_heap _ P)].
Qed.

Lemma merge_inner_eq l r parent slotId mid :
  page_ok l -> page_ok r -> page_ok parent -> is_leaf l = false -> adjacent l r mid ->
  copyFullKey parent slotId = mid -> merge_inner_need l r mid < 65536 ->
  merge l slotId parent r =
    if EFFECTIVE_PAGE_SIZE <? merge_inner_need l r mid then None
    else Some (removeSlot parent slotId, makeHint (set_upper (joined_inner l r mid) (upper r))).
Proof.
  intros Pl Pr Pp Hl Ha Hmid Hw. unfold merge. rewrite Hl, Hmid.
  pose proof (merge_bound_wrap l r 16 false ltac:(lia)) as Eb.
  pose proof (merge_need_nonneg l r mid Pl Pr Ha) as Hn.
  assert (common_prefix_len (default [] (getLowerFenceKey l)) (default [] (getUpperFenceKey r))
    <= length mid)%nat as Hpm by (apply in_fences_long, Ha).
  assert (getFullKeyLen parent slotId = length mid) as Efl.
  { rewrite <- Hmid. unfold copyFullKey. by rewrite length_app, (page_prefix_ok parent Pp), length_getKey. }
  rewrite Efl, merged_prefix_length. unfold spaceNeeded_prefix.
  unfold wrap. rewrite Z.add_mod, Eb, Z.mod_mod, <- Z.add_mod by lia.
  assert (forall x, x = merge_inner_need l r mid -> x mod 2 ^ 16 = merge_inner_need l r mid) as Hmod.
  { intros x ->. apply Z.mod_small. change (2 ^ 16) with 65536. unfold merge_inner_need in *.
    unfold sizeof_Slot in *. lia. }
  by rewrite Hmod by (unfold merge_inner_need; lia).
Qed.

(** Merging two adjacent well-formed inner pages whose shared fence is the
    parent's separator: the separator comes down between their entries with
    the left page's [upper] as its child, the right page's [upper] stays, and
    the parent loses the slot. *)
Theorem merge_inner l r parent slotId mid :
  page_ok l -> page_ok r -> page_ok parent -> is_leaf l = false -> adjacent l r mid ->
  (slotId < count parent)%nat -> copyFullKey parent slotId = mid ->
  (forall e, e ∈ entries l -> e.1 <ₗ mid) ->
  merge_inner_need l r mid < 65536 ->
  (EFFECTIVE_PAGE_SIZE < merge_inner_need l r mid -> merge l slotId parent r = None) /\
  (merge_inner_need l r mid <= EFFECTIVE_PAGE_SIZE ->
   exists parent' m, merge l slotId parent r = Some (parent', m) /\
     page_ok parent' /\ page_ok m /\ is_leaf m = false /\ upper m = upper r /\
     getLowerFenceKey m = getLowerFenceKey l /\ getUpperFenceKey m = getUpperFenceKey r /\
     entries m = entries l ++ [(mid, to_le sizeof_SwipType (upper l))] ++ entries r /\
     entries parent' = take slotId (entries parent) ++ drop (S slotId) (entries parent)).
Proof.
  intros Pl Pr Pp Hl Ha Hs Hmid Hlt Hw. rewrite (merge_inner_eq l r parent slotId mid) by done.
  split; intros Hfit; [by rewrite (proj2 (Z.ltb_lt _ _) Hfit)|].
  rewrite (proj2 (Z.ltb_ge _ _) Hfit).
  assert (Forall is_byte mid) as Hb by (rewrite <- Hmid; by apply copyFullKey_bytes).
  destruct (merge_inner_page l r mid Pl Pr Ha false (upper l) (upper r) Hfit Hb Hlt)
    as (M1 & M2 & M3 & M4 & M5).
  destruct (removeSlot_ok parent slotId Pp Hs) as (R1 & _ & _ & R4 & _).
  eexists _, _. split; [done|]. by split_and!.
Qed.

(** * Witnesses *)

Definition fenced_page (leaf : bool) (lk uk : option (list Z)) (kvs : list (list Z * list Z)) : BTreeNode :=
  default (setFences (new_node leaf) lk uk) (load_page (setFences (new_node leaf) lk uk) kvs).

Lemma fenced_page_ok leaf lk uk kvs :
  forallb (fun b => (0 <=? b) && (b <? 256)) (default [] lk ++ default [] uk) = true ->
  (slot_base + option_len lk + option_len uk <=? EFFECTIVE_PAGE_SIZE) = true ->
  (if load_page (setFences (new_node leaf) lk uk) kvs then true else false) = true ->
  page_ok (fenced_page leaf lk uk kvs).
Proof. intros H1 H2 H3. apply load_page_default; [by apply fenced_ok|done]. Qed.

Ltac fenced := apply fenced_page_ok; vm_compute; reflexivity.

Definition wl : BTreeNode := fenced_page true (Some [1; 2; 0]) (Some [1; 2; 9]) [([1; 2; 3], [7]); ([1; 2; 5], [])].
Definition wr : BTreeNode := fenced_page true (Some [1; 2; 9]) None [([1; 3], [8]); ([4], [9; 9])].
Definition wil : BTreeNode := fenced_page false None (Some [5]) [([2], to_le 8 64)].
Definition wir : BTreeNode := fenced_page false (Some [5]) None [([7], to_le 8 128)].
Definition wp : BTreeNode := fenced_page false None None [([1; 2; 9], to_le 8 64)].
Definition wip : BTreeNode := fenced_page false None None [([5], to_le 8 64)].

Lemma samples_ok : page_ok wl /\ page_ok wr /\ page_ok wil /\ page_ok wir /\ page_ok wp /\ page_ok wip.
Proof. split_and!; fenced. Qed.

Lemma adjacent_check l r mid :
  getUpperFenceKey l = Some mid -> getLowerFenceKey r = Some mid ->
  fence_check (getLowerFenceKey l) (getUpperFenceKey r) mid = true -> adjacent l r mid.
Proof. intros H1 H2 H3%fence_check_in. by split_and!. Qed.

Lemma merge_leaf_witness :
  exists parent' m, merge wl 0 wp wr = Some (parent', m) /\ page_ok m /\
    entries m = entries wl ++ entries wr.
Proof.
  destruct samples_ok as (H1 & H2 & _ & _ & H5 & _).
  destruct (merge_leaf wl wr wp 0 [1; 2; 9] H1 H2 H5 eq_refl) as [_ H];
    [apply adjacent_check; vm_compute; reflexivity|apply Nat.ltb_lt; vm_compute; reflexivity
    |apply Z.ltb_lt; vm_compute; reflexivity|].
  destruct H as (p & m & E & _ & M & _ & _ & _ & H & _); [apply Z.leb_le; vm_compute; reflexivity|].
  exists p, m. split; [exact E|]. split; [exact M|exact H].
Defined.

Lemma merge_inner_witness :
  exists parent' m, merge wil 0 wip wir = Some (parent', m) /\ page_ok m /\
    entries m = entries wil ++ [([5], to_le 8 (upper wil))] ++ entries wir.
Proof.
  destruct samples_ok as (_ & _ & H1 & H2 & _ & H5).
  destruct (merge_inner wil wir wip 0 [5] H1 H2 H5 eq_refl) as [_ H];
    [apply adjacent_check; vm_compute; reflexivity|apply Nat.ltb_lt; vm_compute; reflexivity
    |vm_compute; reflexivity| |apply Z.ltb_lt; vm_compute; reflexivity|].
  - apply list.Forall_forall. repeat constructor.
  - destruct H as (p & m & E & _ & M & _ & _ & _ & _ & H & _); [apply Z.leb_le; vm_compute; reflexivity|].
    exists p, m. split; [exact E|]. split; [exact M|exact H].
Defined.

(** * Where the 16-bit bound wraps *)

(** [merge] decides on the bound modulo 2^16: it refuses exactly when the
    wrapped bound exceeds the page, so it accepts two leaves whose bound lies
    between [2^16] and [2^16 + EFFECTIVE_PAGE_SIZE].  [mergeSpaceUpperBound], which
    keeps 32 bits, returns the bound itself. *)
Theorem merge_decision_wraps l r parent slotId mid :
  page_ok l -> page_ok r -> is_leaf l = true -> adjacent l r mid -> merge_need l r < 2 ^ 32 ->
  (merge l slotId parent r = None <-> EFFECTIVE_PAGE_SIZE < merge_need l r mod 2 ^ 16) /\
  mergeSpaceUpperBound l r = merge_need l r.
Proof.
  intros Pl Pr Hl Ha H32. split.
  - unfold merge. rewrite Hl. pose proof (merge_bound_wrap l r 16 true ltac:(lia)) as Eb.
    change (u16 ?x) with (x mod 2 ^ 16). rewrite Eb.
    destruct (Z.ltb_spec EFFECTIVE_PAGE_SIZE (merge_need l r mod 2 ^ 16)); split; try done; lia.
  - unfold mergeSpaceUpperBound, wrap. rewrite merge_bound_wrap by lia.
    apply Z.mod_small. split; [by eapply merge_need_nonneg|done].
Qed.

Lemma merge_decision_wraps_witness : mergeSpaceUpperBound wl wr = 154 /\ merge wl 0 wp wr <> None.
Proof.
  destruct samples_ok as (H1 & H2 & _ & _ & H5 & _).
  destruct (merge_decision_wraps wl wr wp 0 [1; 2; 9] H1 H2 eq_refl) as [E1 E2];
    [apply adjacent_check; vm_compute; reflexivity|apply Z.ltb_lt; vm_compute; reflexivity|].
  split; [rewrite E2; vm_compute; reflexivity|]. rewrite E1. vm_compute. discriminate.
Defined.
