(* ===== verification/BTreeInterface.v ===== *)
(** The B-tree interface of LeanStore
    (src/backend/leanstore/storage/btree/core/BTreeInterface.hpp) as a type
    class: what the two-tree adapters call, what they may rely on, and a
    reference implementation over a finite map.

    Keys and values are byte strings.  A callback that receives a pointer into
    the page and may write through it is a function from the bytes it sees to
    the bytes it leaves there and to what it captures. *)
From stdpp Require Import sorting gmap.
From S2P Require Import Prelude BTreeNodeOps.
Local Open Scope Z_scope.

Inductive OP_RESULT := OK | NOT_FOUND | DUPLICATE | ABORT_TX | NOT_ENOUGH_SPACE | OTHER.

#[export] Instance OP_RESULT_eq_dec : EqDecision OP_RESULT.
Proof. solve_decision. Defined.

(** * Operations *)

Class BTreeInterface (T : Type) := {
  (** [lookup(key, payload_callback)]: [None] is [NOT_FOUND]. *)
  lookup : forall {A}, T -> list Z -> (list Z -> list Z * A) -> T * option A;
  insert : T -> list Z -> list Z -> T * OP_RESULT;
  insert_might_fail : T -> list Z -> list Z -> T * OP_RESULT;
  upsert : T -> list Z -> list Z -> T * OP_RESULT;
  updateSameSize : forall {A}, T -> list Z -> (list Z -> list Z * A) -> T * option A;
  remove : T -> list Z -> bool -> T * OP_RESULT;
  (** [scanAsc(start_key, callback)]: the callback sees key and value, leaves
      the value bytes and says whether to go on. *)
  scanAsc : forall {S}, T -> list Z -> (S -> list Z -> list Z -> S * list Z * bool) -> S -> T * S;
  (** [findLeafNeighbouringNodeBoundary(start_key, num_to_the_right, processor)]:
      the key and the [end] flag given to the processor; [None]: it is not
      called. *)
  findLeafNeighbouringNodeBoundary : T -> list Z -> nat -> option (list Z * bool) }.

(** * Contract *)

(** The bindings of a map in key order. *)
Definition sorted_kvs (m : kvmap) : list (list Z * list Z) :=
  merge_sort (fun a b => a.1 ≤ₗ b.1) (map_to_list m).

(** The bindings from [key] on. *)
Definition kvs_from (key : list Z) (m : kvmap) : list (list Z * list Z) :=
  filter (fun e => key ≤ₗ e.1) (sorted_kvs m).

(** A scan over a list of bindings: what the callback accumulates and what it
    leaves behind. *)
Fixpoint scan_kvs {S} (f : S -> list Z -> list Z -> S * list Z * bool) (s : S)
    (l : list (list Z * list Z)) : S * list (list Z * list Z) :=
  match l with
  | [] => (s, [])
  | (k, v) :: l' =>
      let '(s1, v1, continue) := f s k v in
      if continue then let (s2, l2) := scan_kvs f s1 l' in (s2, (k, v1) :: l2)
      else (s1, [(k, v1)])
  end.

(** Callbacks must keep the length: they write into the page. *)
Definition same_size {A} (cb : list Z -> list Z * A) : Prop :=
  forall v, Forall is_byte v -> length (cb v).1 = length v /\ Forall is_byte (cb v).1.

(** The same for the value at hand only. *)
Definition same_size_at {A} (o : option (list Z)) (cb : list Z -> list Z * A) : Prop :=
  forall v, o = Some v -> Forall is_byte v -> length (cb v).1 = length v /\ Forall is_byte (cb v).1.

Definition same_size_scan {S} (f : S -> list Z -> list Z -> S * list Z * bool) : Prop :=
  forall s k v, Forall is_byte v -> length (f s k v).1.2 = length v /\ Forall is_byte (f s k v).1.2.

(** An entry of a size every page can take. *)
Definition small_entry (key value : list Z) : Prop :=
  Forall is_byte key /\ Forall is_byte value /\ (length key <= 64)%nat /\ (length value <= 4096)%nat.

Class BTreeContract (T : Type) `{BTreeInterface T} := {
  ok : T -> Prop;
  contents : T -> kvmap;
  contents_bytes : forall t k v, ok t -> contents t !! k = Some v -> Forall is_byte v;
  lookup_spec : forall A t k (cb : list Z -> list Z * A), ok t -> Forall is_byte k ->
    same_size_at (contents t !! k) cb ->
    let (t', r) := lookup t k cb in
    ok t' /\ contents t' = alter (fun v => (cb v).1) k (contents t) /\
    r = (fun v => (cb v).2) <$> contents t !! k;
  insert_spec : forall t k v, ok t -> small_entry k v ->
    let (t', r) := insert t k v in
    ok t' /\
    match contents t !! k with
    | None => r = OK /\ contents t' = <[k := v]> (contents t)
    | Some _ => r = DUPLICATE /\ contents t' = contents t
    end;
  insert_might_fail_spec : forall t k v, ok t -> small_entry k v ->
    let (t', r) := insert_might_fail t k v in
    ok t' /\
    match contents t !! k with
    | None => (r = OK /\ contents t' = <[k := v]> (contents t)) \/
              (r = NOT_ENOUGH_SPACE /\ contents t' = contents t)
    | Some _ => r = DUPLICATE /\ contents t' = contents t
    end;
  upsert_spec : forall t k v, ok t -> small_entry k v ->
    (forall v0, contents t !! k = Some v0 -> length v0 = length v) ->
    let (t', r) := upsert t k v in ok t' /\ r = OK /\ contents t' = <[k := v]> (contents t);
  updateSameSize_spec : forall A t k (cb : list Z -> list Z * A), ok t -> Forall is_byte k ->
    same_size_at (contents t !! k) cb ->
    let (t', r) := updateSameSize t k cb in
    ok t' /\ contents t' = alter (fun v => (cb v).1) k (contents t) /\
    r = (fun v => (cb v).2) <$> contents t !! k;
  remove_spec : forall t k no_merge, ok t -> Forall is_byte k ->
    let (t', r) := remove t k no_merge in
    ok t' /\ contents t' = delete k (contents t) /\
    r = (if contents t !! k then OK else NOT_FOUND);
  scanAsc_spec : forall S t k (f : S -> list Z -> list Z -> S * list Z * bool) s,
    ok t -> Forall is_byte k -> same_size_scan f ->
    let (t', s') := scanAsc t k f s in
    let (s2, l2) := scan_kvs f s (kvs_from k (contents t)) in
    ok t' /\ s' = s2 /\ contents t' = list_to_map l2 ∪ contents t }.

(** * Ordered bindings *)

#[export] Instance key_le_total : Total (fun a b : list Z * list Z => a.1 ≤ₗ b.1).
Proof.
  intros a b. destruct (decide (a.1 ≤ₗ b.1)); [by left|]. right.
  unfold lex_le in *. rewrite lex_cmp_antisym. destruct (lex_cmp a.1 b.1); naive_solver.
Qed.

#[export] Instance key_le_trans : Transitive (fun a b : list Z * list Z => a.1 ≤ₗ b.1).
Proof. intros a b c. apply lex_le_trans. Qed.

Lemma sorted_kvs_elem m k v : (k, v) ∈ sorted_kvs m <-> m !! k = Some v.
Proof. unfold sorted_kvs. by rewrite merge_sort_Permutation, elem_of_map_to_list. Qed.

Lemma sorted_kvs_NoDup m : NoDup (sorted_kvs m).*1.
Proof. unfold sorted_kvs. rewrite merge_sort_Permutation. apply NoDup_fst_map_to_list. Qed.

Lemma le_sorted_lt (l : list (list Z * list Z)) :
  StronglySorted (fun a b => a.1 ≤ₗ b.1) l -> NoDup l.*1 -> StronglySorted key_lt l.
Proof.
  induction 1 as [|e l _ IH Hf]; [constructor|]. rewrite fmap_cons. intros Hd.
  apply list.NoDup_cons in Hd as [Hd1 Hd2]. constructor; [auto|].
  rewrite list.Forall_forall in Hf |- *. intros e' He'. specialize (Hf e' He'). simpl in *.
  apply lex_le_lteq in Hf as [|Heq]; [done|]. exfalso. apply Hd1. rewrite Heq.
  apply list_elem_of_fmap. eauto.
Qed.

Lemma sorted_kvs_sorted m : StronglySorted key_lt (sorted_kvs m).
Proof.
  apply le_sorted_lt; [|apply sorted_kvs_NoDup]. apply Sorted_StronglySorted; [apply _|].
  apply Sorted_merge_sort. apply _.
Qed.

(** Two strictly sorted lists with the same elements are equal. *)
Lemma sorted_unique (l1 l2 : list (list Z * list Z)) :
  StronglySorted key_lt l1 -> StronglySorted key_lt l2 -> (forall e, e ∈ l1 <-> e ∈ l2) -> l1 = l2.
Proof.
  intros H1. revert l2. induction H1 as [|a l1 H1 IH Ha]; intros l2 H2 Heq.
  - destruct l2 as [|b l2]; [done|]. exfalso. apply (not_elem_of_nil b), Heq, elem_of_cons. by left.
  - destruct H2 as [|b l2 H2 Hb].
    { exfalso. apply (not_elem_of_nil a), Heq, elem_of_cons. by left. }
    rewrite list.Forall_forall in Ha, Hb. simpl in Ha, Hb.
    assert (a = b) as ->.
    { pose proof (proj1 (Heq a) ltac:(apply elem_of_cons; by left)) as Hab.
      pose proof (proj2 (Heq b) ltac:(apply elem_of_cons; by left)) as Hba.
      apply elem_of_cons in Hab as [|Hab], Hba as [|Hba]; try done.
      exfalso. apply (lex_lt_irrefl a.1). eapply lex_lt_trans; [by apply Ha|by apply Hb]. }
    f_equal. apply IH; [done|]. intros e. specialize (Heq e). rewrite !elem_of_cons in Heq.
    split; intros He.
    + destruct (proj1 Heq (or_intror He)) as [->|]; [|done]. exfalso. by eapply lex_lt_irrefl, Ha.
    + destruct (proj2 Heq (or_intror He)) as [->|]; [|done]. exfalso. by eapply lex_lt_irrefl, Hb.
Qed.

Lemma kvs_from_elem key m k v : (k, v) ∈ kvs_from key m <-> key ≤ₗ k /\ m !! k = Some v.
Proof. unfold kvs_from. rewrite list_elem_of_filter, sorted_kvs_elem. done. Qed.

Lemma StronglySorted_filter {A} (R : A -> A -> Prop) (P : A -> Prop) `{!forall x, Decision (P x)} l :
  StronglySorted R l -> StronglySorted R (filter P l).
Proof.
  induction 1 as [|a l _ IH Ha]; [constructor|]. rewrite filter_cons. case_decide; [|done].
  constructor; [done|]. rewrite list.Forall_forall in Ha |- *.
  intros b [_ Hb]%list_elem_of_filter. auto.
Qed.

Lemma kvs_from_sorted key m : StronglySorted key_lt (kvs_from key m).
Proof. apply StronglySorted_filter, sorted_kvs_sorted. Qed.

Lemma kvs_from_NoDup key m : NoDup (kvs_from key m).*1.
Proof. apply sorted_NoDup_keys, kvs_from_sorted. Qed.

Lemma length_kvs_from key m : (length (kvs_from key m) <= size m)%nat.
Proof.
  unfold kvs_from. etrans; [apply length_filter|]. unfold sorted_kvs.
  by rewrite merge_sort_Permutation, length_map_to_list.
Qed.

(** A scan leaves bindings only at keys it was given. *)
Lemma scan_kvs_keys {S} (f : S -> list Z -> list Z -> S * list Z * bool) s l k v' :
  (k, v') ∈ (scan_kvs f s l).2 -> exists s0 v, (k, v) ∈ l /\ v' = (f s0 k v).1.2.
Proof.
  revert s; induction l as [|[k0 v0] l IH]; intros s; simpl; [intros H; by apply not_elem_of_nil in H|].
  destruct (f s k0 v0) as [[s1 v1] c] eqn:E. destruct c.
  - destruct (scan_kvs f s1 l) as [s2 l2] eqn:E2. simpl. intros [[= -> ->]|H]%elem_of_cons.
    + exists s, v0. rewrite E. split; [apply elem_of_cons; by left|done].
    + specialize (IH s1). rewrite E2 in IH. destruct (IH H) as (s0 & v & Hv & ->).
      exists s0, v. split; [apply elem_of_cons; by right|done].
  - simpl. intros [[= -> ->]|H]%elem_of_cons; [|by apply not_elem_of_nil in H].
    exists s, v0. rewrite E. split; [apply elem_of_cons; by left|done].
Qed.

(** A read-only scan leaves the map as it is. *)
Definition read_only {S} (f : S -> list Z -> list Z -> S * list Z * bool) : Prop :=
  forall s k v, (f s k v).1.2 = v.

Lemma scan_kvs_read_only {S} (f : S -> list Z -> list Z -> S * list Z * bool) s key m :
  read_only f -> list_to_map (scan_kvs f s (kvs_from key m)).2 ∪ m = m.
Proof.
  intros Hf. apply map_eq. intros k. rewrite lookup_union.
  destruct (list_to_map _ !! k) as [v|] eqn:El; [|by destruct (m !! k)].
  apply elem_of_list_to_map_2, scan_kvs_keys in El as (s0 & v0 & H & ->).
  rewrite Hf. apply kvs_from_elem in H as [_ ->]. done.
Qed.

Lemma same_size_read_only {S} (f : S -> list Z -> list Z -> S * list Z * bool) :
  read_only f -> same_size_scan f.
Proof. intros H s k v Hv. by rewrite H. Qed.

Lemma same_size_all {A} o (cb : list Z -> list Z * A) : same_size cb -> same_size_at o cb.
Proof. intros H v _ Hv. by apply H. Qed.

#[export] Hint Resolve same_size_read_only same_size_all : leanstore.

(** * Reference implementation *)

(** A finite map; [full] makes [insert_might_fail] refuse. Every binding is a
    leaf of its own. *)
Record RefTree := mkRef { rt_map : kvmap; rt_full : bool }.

Definition ref_lookup {A} (t : RefTree) (k : list Z) (cb : list Z -> list Z * A) : RefTree * option A :=
  match rt_map t !! k with
  | None => (t, None)
  | Some v => (mkRef (<[k := (cb v).1]> (rt_map t)) (rt_full t), Some (cb v).2)
  end.

Definition ref_insert (t : RefTree) (k v : list Z) : RefTree * OP_RESULT :=
  match rt_map t !! k with
  | Some _ => (t, DUPLICATE)
  | None => (mkRef (<[k := v]> (rt_map t)) (rt_full t), OK)
  end.

Definition ref_insert_might_fail (t : RefTree) (k v : list Z) : RefTree * OP_RESULT :=
  match rt_map t !! k with
  | Some _ => (t, DUPLICATE)
  | None => if rt_full t then (t, NOT_ENOUGH_SPACE) else (mkRef (<[k := v]> (rt_map t)) false, OK)
  end.

Definition ref_boundary (t : RefTree) (k : list Z) (n : nat) : option (list Z * bool) :=
  let l := kvs_from k (rt_map t) in
  match list.last (take n l) with
  | None => Some (k, true)
  | Some e => Some (e.1, bool_decide (length l <= n)%nat)
  end.

#[export] Instance RefTree_interface : BTreeInterface RefTree := {
  lookup := @ref_lookup;
  insert := ref_insert;
  insert_might_fail := ref_insert_might_fail;
  upsert t k v := (mkRef (<[k := v]> (rt_map t)) (rt_full t), OK);
  updateSameSize := @ref_lookup;
  remove t k no_merge :=
    (mkRef (delete k (rt_map t)) (rt_full t), if rt_map t !! k then OK else NOT_FOUND);
  scanAsc S t k f s :=
    let (s', l) := scan_kvs f s (kvs_from k (rt_map t)) in
    (mkRef (list_to_map l ∪ rt_map t) (rt_full t), s');
  findLeafNeighbouringNodeBoundary := ref_boundary }.

Definition ref_ok (t : RefTree) : Prop := forall k v, rt_map t !! k = Some v -> Forall is_byte v.

Lemma ref_lookup_spec A t k (cb : list Z -> list Z * A) :
  ref_ok t -> same_size_at (rt_map t !! k) cb ->
  let (t', r) := ref_lookup t k cb in
  ref_ok t' /\ rt_map t' = alter (fun v => (cb v).1) k (rt_map t) /\
  r = (fun v => (cb v).2) <$> rt_map t !! k.
Proof.
  intros Ho Hs. unfold ref_lookup. destruct (rt_map t !! k) as [v|] eqn:E; simpl.
  - split; [|split; [|done]].
    + intros k' v'. simpl. destruct (decide (k' = k)) as [->|]; [rewrite lookup_insert_eq|
        rewrite lookup_insert_ne by done; apply Ho].
      intros [= <-]. by apply Hs; [|apply (Ho k)].
    + apply map_eq. intros k'. destruct (decide (k' = k)) as [->|].
      * by rewrite lookup_insert_eq, lookup_alter_eq, E.
      * by rewrite lookup_insert_ne, lookup_alter_ne.
  - split; [done|]. split; [|done]. apply map_eq. intros k'. destruct (decide (k' = k)) as [->|].
    + by rewrite lookup_alter_eq, E.
    + by rewrite lookup_alter_ne.
Qed.

Lemma ref_ok_insert t k v b : ref_ok t -> Forall is_byte v -> ref_ok (mkRef (<[k := v]> (rt_map t)) b).
Proof.
  intros Ho Hv k' v'. simpl. destruct (decide (k' = k)) as [->|].
  - rewrite lookup_insert_eq. by intros [= <-].
  - rewrite lookup_insert_ne by done. apply Ho.
Qed.

#[export] Program Instance RefTree_contract : BTreeContract RefTree := {
  ok := ref_ok; contents := rt_map }.
Next Obligation. intros t k v Ho. apply Ho. Qed.
Next Obligation. intros A t k cb Ho _ Hs. exact (ref_lookup_spec A t k cb Ho Hs). Qed.
Next Obligation.
  intros t k v Ho (_ & Hv & _). simpl. unfold ref_insert. destruct (rt_map t !! k) eqn:E; [done|].
  split; [by apply ref_ok_insert|done].
Qed.
Next Obligation.
  intros t k v Ho (_ & Hv & _). simpl. unfold ref_insert_might_fail.
  destruct (rt_map t !! k) eqn:E; [done|]. destruct (rt_full t); [split; [done|by right]|].
  split; [by apply ref_ok_insert|by left].
Qed.
Next Obligation.
  intros t k v Ho (_ & Hv & _) _. simpl. split; [by apply ref_ok_insert|done].
Qed.
Next Obligation. intros A t k cb Ho _ Hs. exact (ref_lookup_spec A t k cb Ho Hs). Qed.
Next Obligation.
  intros t k nm Ho _. simpl. split; [|done]. intros k' v'. simpl.
  intros [_ H]%lookup_delete_Some. by eapply Ho.
Qed.
Next Obligation.
  intros S t k f s Ho _ Hf. simpl. destruct (scan_kvs f s (kvs_from k (rt_map t))) as [s2 l2] eqn:E.
  split; [|done]. intros k' v'. simpl. intros [H|[_ H]]%lookup_union_Some_raw; [|by eapply Ho].
  apply elem_of_list_to_map_2 in H. pose proof (scan_kvs_keys f s (kvs_from k (rt_map t)) k' v') as Hk.
  rewrite E in Hk. destruct (Hk H) as (s0 & v & [_ Hv]%kvs_from_elem & ->). apply Hf. by eapply Ho.
Qed.

(** The boundary is a key of the tree or the one searched for. *)
Lemma ref_boundary_spec t k n b rewind : ref_boundary t k n = Some (b, rewind) -> b = k \/ is_Some (rt_map t !! b).
Proof.
  unfold ref_boundary. destruct (list.last _) as [e|] eqn:E; intros [= <- <-]; [|by left]. right. exists e.2.
  apply last_Some_elem_of, elem_of_take_in in E. destruct e. by apply kvs_from_elem in E as [_ E].
Qed.
