(* ===== verification/BTree.v ===== *)
(** The B-tree of slotted pages
    (src/backend/leanstore/storage/btree/core/BTreeGeneric.hpp and .cpp):
    definitions.

    Every page is resident: a swip is the address of a buffer frame and
    [frames] maps addresses to pages; the free list of the buffer manager is
    the list of free addresses.  Of the meta page only [upper], the swip of
    the root, is used.  The operations are those of one thread, so latches and
    their version checks fall away.  [None] is a jump (a page that is not
    there, no free frame), a failed assertion, or a loop that used up its
    fuel; where the source catches a jump, so does the model. *)
From stdpp Require Import gmap.
From S2P Require Import Prelude BTreeNode.
Local Open Scope Z_scope.

(** * State *)

Record BTree := mkBTree {
  frames : gmap Z BTreeNode;
  free_list : list Z;
  root : Z;      (* meta_node_bf->upper *)
  height : Z }.

Definition set_page (t : BTree) (bf : Z) (n : BTreeNode) : BTree :=
  mkBTree (<[bf := n]> (frames t)) (free_list t) (root t) (height t).
Definition set_root (t : BTree) (bf h : Z) : BTree :=
  mkBTree (frames t) (free_list t) bf h.

(** A new page: a frame from the free list, initialised. *)
Definition allocatePage (t : BTree) (leaf : bool) : option (BTree * Z) :=
  match free_list t with
  | [] => None
  | bf :: rest => Some (mkBTree (<[bf := new_node leaf]> (frames t)) rest (root t) (height t), bf)
  end.

(** [reclaim()]: the frame goes back to the free list. *)
Definition reclaimPage (t : BTree) (bf : Z) : BTree :=
  mkBTree (delete bf (frames t)) (bf :: free_list t) (root t) (height t).

Definition create (pool : list Z) : option BTree :=
  '(t, bf) ← allocatePage (mkBTree ∅ pool 0 1) true;
  Some (set_root t bf 1).

(** * Descent *)

(** [while (!target_guard->is_leaf)] *)
Fixpoint descend (fuel : nat) (t : BTree) (bf : Z) (key : list Z) : option Z :=
  match fuel with
  | O => None
  | S fuel' =>
      n ← frames t !! bf;
      if is_leaf n then Some bf
      else c ← lookupInner n key; descend fuel' t c key
  end.

(** The loop visits one page per level. *)
Definition findLeafCanJump (t : BTree) (key : list Z) : option Z :=
  descend (Z.to_nat (height t)) t (root t) key.

(** The swip [search_condition] selects in page [n] for a page with upper
    fence [key], and its position. *)
Definition parent_swip (n : BTreeNode) (key : option (list Z)) : option (Z * nat) :=
  match key with
  | None => Some (upper n, count n)
  | Some key =>
      '(pos, _) ← lowerBound false n key;
      Some (if pos =? Z.of_nat (count n) then (upper n, count n)
            else (getChild n (Z.to_nat pos), Z.to_nat pos))
  end.

Fixpoint parent_loop (fuel : nat) (t : BTree) (bf : Z) (key : option (list Z)) (to_find : Z)
  : option (Z * nat) :=
  match fuel with
  | O => None
  | S fuel' =>
      n ← frames t !! bf;
      if is_leaf n then None
      else
        '(c, pos) ← parent_swip n key;
        if c =? to_find then Some (bf, pos) else parent_loop fuel' t c key to_find
  end.

(** The parent of a page and the position of its swip in there; [Some None]:
    the page is the root and its parent the meta page. *)
Definition findParent (t : BTree) (to_find : Z) : option (option (Z * nat)) :=
  c_node ← frames t !! to_find;
  if root t =? to_find then Some None
  else Some <$> parent_loop (Z.to_nat (height t)) t (root t) (getUpperFenceKey c_node) to_find.

(** * Split *)

(** Command-line flags and the random numbers of contention management. *)
Record Flags := mkFlags {
  FLAGS_bulk_insert : bool;
  FLAGS_cm_update_on : Z;
  FLAGS_cm_period : Z;
  FLAGS_cm_slowpath_threshold : Z }.

Section with_flags.
Context (flags : Flags).

Definition split_info (c : BTreeNode) (favored_split_pos : Z) : SeparatorInfo :=
  if (favored_split_pos <? 0) || (Z.of_nat (count c) - 1 <=? favored_split_pos) then
    if FLAGS_bulk_insert flags
    then mkSep (getFullKeyLen c (count c - 2)) (count c - 2) false
    else findSep c
  else mkSep (getFullKeyLen c (Z.to_nat favored_split_pos)) (Z.to_nat favored_split_pos) false.

(** Root split: a new root above the old one. *)
Definition split_root (t : BTree) (bf : Z) (c : BTreeNode) (info : SeparatorInfo) : option BTree :=
  '(t, new_root) ← allocatePage t false;
  '(t, new_left) ← allocatePage t true;
  '(p, l, r) ← split c (set_upper (new_node false) bf) (new_node (is_leaf c)) new_left
                 (sep_slot info) (getSep c info);
  let t := set_page (set_page (set_page t new_root p) new_left l) bf r in
  Some (set_root t new_root (height t + 1)).

(** Split below a parent that has room for the separator. *)
Definition split_child (t : BTree) (p bf : Z) (pn c : BTreeNode) (info : SeparatorInfo) : option BTree :=
  let need := spaceNeeded pn (sep_length info) sizeof_SwipType in
  let pn := snd (requestSpaceFor pn need) in
  '(t, new_left) ← allocatePage t true;
  '(pn, l, r) ← split c pn (new_node (is_leaf c)) new_left (sep_slot info) (getSep c info);
  Some (set_page (set_page (set_page t p pn) new_left l) bf r).

Fixpoint trySplit (fuel : nat) (t : BTree) (bf : Z) (favored_split_pos : Z) : option BTree :=
  match fuel with
  | O => None
  | S fuel' =>
      parent ← findParent t bf;
      c ← frames t !! bf;
      if (count c <=? 2)%nat then Some t
      else
        let info := split_info c favored_split_pos in
        match parent with
        | None => split_root t bf c info
        | Some (p, _) =>
            pn ← frames t !! p;
            if hasEnoughSpaceFor pn (spaceNeeded pn (sep_length info) sizeof_SwipType)
            then split_child t p bf pn c info
            else trySplit fuel' t p (-1)   (* must split the parent first *)
        end
  end.

(** One call per level at most. *)
Definition trySplit_page (t : BTree) (bf favored_split_pos : Z) : option BTree :=
  trySplit (Z.to_nat (height t)) t bf favored_split_pos.

End with_flags.

(** * Merge *)

(** [merge_left]: the left sibling goes into page [bf]. *)
Definition merge_left (t : BTree) (p bf : Z) (pos : nat) : option (BTree * bool) :=
  pn ← frames t !! p;
  c ← frames t !! bf;
  let l_swip := getChild pn (pos - 1) in
  l ← frames t !! l_swip;
  if freeSpaceAfterCompaction l <? underFullSize then Some (t, false)
  else match merge l (pos - 1) pn c with
       | None => Some (t, false)
       | Some (pn, c) => Some (reclaimPage (set_page (set_page t p pn) bf c) l_swip, true)
       end.

(** [merge_right]: page [bf] goes into its right sibling. *)
Definition merge_right (t : BTree) (p bf : Z) (pos : nat) : option (BTree * bool) :=
  pn ← frames t !! p;
  c ← frames t !! bf;
  let r_swip := getChild pn (pos + 1) in
  r ← frames t !! r_swip;
  if freeSpaceAfterCompaction r <? underFullSize then Some (t, false)
  else if negb (getChild pn pos =? bf) then None
  else match merge c pos pn r with
       | None => Some (t, false)
       | Some (pn, r) => Some (reclaimPage (set_page (set_page t p pn) r_swip r) bf, true)
       end.

(** Both siblings are tried, the left one first. *)
Definition merge_siblings (t : BTree) (p bf : Z) (pos pcount : nat) : option (BTree * bool) :=
  if (2 <? pcount)%nat then
    '(t, merged) ← (if (0 <? pos)%nat then merge_left t p bf pos else Some (t, false));
    if negb merged && (pos + 1 <? pcount)%nat then merge_right t p bf pos else Some (t, merged)
  else Some (t, false).

(** [tryMerge] of an underfull page; a jump in the nested call is caught. *)
Fixpoint tryMerge (fuel : nat) (t : BTree) (bf : Z) : option (BTree * bool) :=
  match fuel with
  | O => None
  | S fuel' =>
      parent ← findParent t bf;
      c ← frames t !! bf;
      match parent with
      | None => Some (t, false)
      | Some (p, pos) =>
          pn ← frames t !! p;
          if freeSpaceAfterCompaction c <? underFullSize then Some (t, false)
          else if (count pn <=? pos)%nat then Some (t, false)   (* the upper swip is not merged *)
          else
            '(t, merged) ← merge_siblings t p bf pos (count pn);
            pn ← frames t !! p;
            Some (if underFullSize <=? freeSpaceAfterCompaction pn
                  then match tryMerge fuel' t p with Some (t, _) => t | None => t end else t, merged)
      end
  end.

Definition tryMerge_page (t : BTree) (bf : Z) : option (BTree * bool) :=
  tryMerge (Z.to_nat (height t)) t bf.

(** * Traversals *)

(** The swips of an inner page, in order. *)
Definition child_swips (n : BTreeNode) : list Z := map (getChild n) (seq 0 (count n)) ++ [upper n].

(** [iterateChildrenSwips]: until the callback says stop. *)
Fixpoint iterate_swips {S} (callback : S -> Z -> S * bool) (s : S) (l : list Z) : S :=
  match l with
  | [] => s
  | x :: l' => let (s, continue) := callback s x in if continue then iterate_swips callback s l' else s
  end.

Definition iterateChildrenSwips {S} (n : BTreeNode) (callback : S -> Z -> S * bool) (s : S) : S :=
  if is_leaf n then s else iterate_swips callback s (child_swips n).

(** The sum over a list of children; the sums are [s64]s. *)
Fixpoint sum_pages (f : Z -> option Z) (l : list Z) : option Z :=
  match l with
  | [] => Some 0
  | x :: l' => a ← f x; b ← sum_pages f l'; Some (a + b)
  end.

Fixpoint iterateAllPagesRec (fuel : nat) (t : BTree) (inner leaf : BTreeNode -> Z) (bf : Z) : option Z :=
  match fuel with
  | O => None
  | S fuel' =>
      n ← frames t !! bf;
      if is_leaf n then Some (leaf n)
      else res ← sum_pages (iterateAllPagesRec fuel' t inner leaf) (child_swips n); Some (inner n + res)
  end.

Definition iterateAllPages (t : BTree) (inner leaf : BTreeNode -> Z) : option Z :=
  iterateAllPagesRec (Z.to_nat (height t)) t inner leaf (root t).

Definition getHeight (t : BTree) : Z := height t.
Definition countEntries (t : BTree) : option Z :=
  iterateAllPages t (fun _ => 0) (fun n => Z.of_nat (count n)).
Definition countPages (t : BTree) : option Z := iterateAllPages t (fun _ => 1) (fun _ => 1).
Definition countInner (t : BTree) : option Z := iterateAllPages t (fun _ => 1) (fun _ => 0).
Definition bytesFree (t : BTree) : option Z :=
  iterateAllPages t freeSpaceAfterCompaction freeSpaceAfterCompaction.

(** * Abstract view *)

(** The leaf pages from left to right. *)
Fixpoint leaf_pages (fuel : nat) (t : BTree) (bf : Z) : list BTreeNode :=
  match fuel with
  | O => []
  | S fuel' =>
      match frames t !! bf with
      | None => []
      | Some n => if is_leaf n then [n] else flat_map (leaf_pages fuel' t) (child_swips n)
      end
  end.

Definition tree_entries (t : BTree) : list (list Z * list Z) :=
  flat_map entries (leaf_pages (Z.to_nat (height t)) t (root t)).
