(* ===== verification/BTreeIterator.v ===== *)
(** The iterators of the page B-tree
    (src/backend/leanstore/storage/btree/core/BTreeGenericIterator.hpp) and
    the operations of the B-tree interface built on them
    (src/backend/leanstore/storage/btree/BTreeLL.cpp): definitions.

    An iterator holds a leaf and a position in it.  Write-ahead logging is off
    and the GSN counters of the pages are left out. *)
From stdpp Require Import gmap.
From S2P Require Import Prelude BTreeNode BTreeInterface BTree.
Local Open Scope Z_scope.

(** * BTreePessimisticIterator *)

Record iter := mkIter { it_leaf : option Z; cur : Z }.

Definition new_iter : iter := mkIter None (-1).

Section iterator.
Context (t : BTree).

(** The page the iterator is on. *)
Definition leaf_of (it : iter) : option (Z * BTreeNode) :=
  bf ← it_leaf it; n ← frames t !! bf; Some (bf, n).

(** [if (cur == -1 || leaf->compareKeyWithBoundaries(key) != 0) findLeafAndLatch] *)
Definition latch_leaf (it : iter) (key : list Z) : option (Z * BTreeNode) :=
  let find := bf ← findLeafCanJump t key; n ← frames t !! bf; Some (bf, n) in
  if cur it =? -1 then find
  else
    '(bf, n) ← leaf_of it;
    if negb (compareKeyWithBoundaries n key =? 0) then find else Some (bf, n).

(** Both find the neighbouring leaf by the fence key; [false] at the end. *)
Definition nextLeaf (it : iter) : option (iter * bool) :=
  '(bf, n) ← leaf_of it;
  if (fk_length (upper_fence n) =? 0)%nat then Some (it, false)
  else
    let key := default [] (getUpperFenceKey n) ++ [0] in
    bf ← findLeafCanJump t key;
    n ← frames t !! bf;
    '(pos, _) ← lowerBound false n key;
    Some (mkIter (Some bf) pos, true).

Definition prevLeaf (it : iter) : option (iter * bool) :=
  '(bf, n) ← leaf_of it;
  if (fk_length (lower_fence n) =? 0)%nat then Some (it, false)
  else
    let key := default [] (getLowerFenceKey n) in
    bf ← findLeafCanJump t key;
    n ← frames t !! bf;
    '(pos, _) ← lowerBound false n key;
    Some (mkIter (Some bf) (if pos =? Z.of_nat (count n) then pos - 1 else pos), true).

Definition seekExact (it : iter) (key : list Z) : option (iter * OP_RESULT) :=
  '(bf, n) ← latch_leaf it key;
  '(pos, _) ← lowerBound true n key;
  Some (mkIter (Some bf) pos, if pos =? -1 then NOT_FOUND else OK).

Definition toMaxKeyInNode (it : iter) : option iter :=
  '(bf, n) ← leaf_of it; Some (mkIter (Some bf) (Z.of_nat (count n) - 1)).

(** One round of the loop of [next] visits one leaf. *)
Fixpoint next (fuel : nat) (it : iter) : option (iter * OP_RESULT) :=
  match fuel with
  | O => None
  | S fuel' =>
      '(bf, n) ← leaf_of it;
      if cur it + 1 <? Z.of_nat (count n) then Some (mkIter (Some bf) (cur it + 1), OK)
      else if (fk_length (upper_fence n) =? 0)%nat then Some (it, NOT_FOUND)
      else
        let key := default [] (getUpperFenceKey n) ++ [0] in
        bf ← findLeafCanJump t key;
        n ← frames t !! bf;
        if (count n =? 0)%nat then next fuel' (mkIter (Some bf) (cur it))
        else
          '(pos, _) ← lowerBound false n key;
          if pos =? Z.of_nat (count n) then next fuel' (mkIter (Some bf) pos)
          else Some (mkIter (Some bf) pos, OK)
  end.

Fixpoint prev (fuel : nat) (it : iter) : option (iter * OP_RESULT) :=
  match fuel with
  | O => None
  | S fuel' =>
      '(bf, n) ← leaf_of it;
      if 0 <=? cur it - 1 then Some (mkIter (Some bf) (cur it - 1), OK)
      else if (fk_length (lower_fence n) =? 0)%nat then Some (it, NOT_FOUND)
      else
        let key := default [] (getLowerFenceKey n) in
        bf ← findLeafCanJump t key;
        n ← frames t !! bf;
        if (count n =? 0)%nat then prev fuel' (mkIter (Some bf) (cur it))
        else
          '(pos, is_equal) ← lowerBound false n key;
          if is_equal : bool then Some (mkIter (Some bf) pos, OK)
          else prev fuel' (mkIter (Some bf) (if 0 <? pos then pos - 1 else pos))
  end.

Definition seek (fuel : nat) (it : iter) (key : list Z) : option (iter * OP_RESULT) :=
  '(bf, n) ← latch_leaf it key;
  '(pos, _) ← lowerBound false n key;
  let it := mkIter (Some bf) pos in
  if pos <? Z.of_nat (count n) then Some (it, OK) else next fuel it.

Definition seekForPrev (fuel : nat) (it : iter) (key : list Z) : option (iter * OP_RESULT) :=
  '(bf, n) ← latch_leaf it key;
  '(pos, is_equal) ← lowerBound false n key;
  let it := mkIter (Some bf) pos in
  if is_equal : bool then Some (it, OK)
  else if pos =? 0 then prev fuel it
  else Some (mkIter (Some bf) (pos - 1), OK).

(** The slot under the iterator; reading one that does not exist is undefined. *)
Definition current (it : iter) : option (Z * BTreeNode * nat) :=
  '(bf, n) ← leaf_of it;
  if (0 <=? cur it) && (cur it <? Z.of_nat (count n)) then Some (bf, n, Z.to_nat (cur it)) else None.

Definition key_of (it : iter) : option (list Z) :=
  '(_, n, i) ← current it; Some (copyFullKey n i).
Definition value_of (it : iter) : option (list Z) :=
  '(_, n, i) ← current it; Some (getPayload n i).
Definition valueLength (it : iter) : option nat :=
  '(_, n, i) ← current it; Some (getPayloadLength n i).
Definition isKeyEqualTo (it : iter) (other : list Z) : option bool :=
  k ← key_of it; Some (bool_decide (other = k)).
Definition keyPrefix (it : iter) : option (list Z) :=
  '(_, n) ← leaf_of it; Some (getPrefix n).
Definition keyWithoutPrefix (it : iter) : option (list Z) :=
  '(_, n, i) ← current it; Some (getKey n i).
Definition leafFrame (it : iter) : option Z := it_leaf it.

End iterator.

(** * BTreeExclusiveIterator *)

(** Write the bytes of a value through [mutableValue()]. *)
Definition write_payload (n : BTreeNode) (i : nat) (v : list Z) : BTreeNode :=
  mkNode (upper n) (lower_fence n) (upper_fence n) (count n) (is_leaf n) (space_used n)
    (data_offset n) (prefix_length n) (hint n) (slot n)
    (write_bytes (bytes n) (offset (slot n i) + Z.of_nat (key_len (slot n i))) v).

Section exclusive.
Context (flags : Flags).

Definition seekToInsert (t : BTree) (it : iter) (key : list Z) : option (iter * OP_RESULT) :=
  '(bf, n) ← latch_leaf t it key;
  '(pos, is_equal) ← lowerBound false n key;
  Some (mkIter (Some bf) pos, if is_equal : bool then DUPLICATE else OK).

Definition canInsertInCurrentNode (t : BTree) (it : iter) (key : list Z) (value_length : nat)
  : option OP_RESULT :=
  '(_, n) ← leaf_of t it;
  Some (if canInsert n (length key) value_length then OK else NOT_ENOUGH_SPACE).

Definition keyFitsInCurrentNode (n : BTreeNode) (key : list Z) : bool :=
  compareKeyWithBoundaries n key =? 0.

Definition insertInCurrentNode (t : BTree) (it : iter) (key value : list Z) : option (BTree * iter) :=
  '(bf, n) ← leaf_of t it;
  if keyFitsInCurrentNode n key && canInsert n (length key) (length value) then
    '(n, pos) ← BTreeNode.insert n key value;
    Some (set_page t bf n, mkIter (Some bf) (Z.of_nat pos))
  else None.

(** The value bytes of the new slot stay as they are. *)
Definition insertKeyInCurrentNode (t : BTree) (it : iter) (key : list Z) (value_length : nat)
  : option (BTree * iter) :=
  '(bf, n) ← leaf_of t it;
  if keyFitsInCurrentNode n key && canInsert n (length key) value_length then
    '(n, pos) ← insertDoNotCopyPayload n key value_length;
    Some (set_page t bf n, mkIter (Some bf) (Z.of_nat pos))
  else None.

(** The iterator loses its leaf; a jump in [trySplit] gets out. *)
Definition splitForKeyMightFail (t : BTree) (it : iter) (key : list Z) : option (BTree * iter) :=
  '(bf, _) ← (let find := bf ← findLeafCanJump t key; n ← frames t !! bf; Some (bf, n) in
              if cur it =? -1 then find
              else '(bf, n) ← leaf_of t it;
                   if keyFitsInCurrentNode n key then Some (bf, n) else find);
  t ← trySplit_page flags t bf (-1);
  Some (t, mkIter None (-1)).

(** A jump in [trySplit] is retried without end. *)
Definition splitForKey (t : BTree) (it : iter) (key : list Z) : option (BTree * iter) :=
  splitForKeyMightFail t it key.

(** [restart]: the loop ends when the leaf has room. *)
Fixpoint insertKV (fuel : nat) (t : BTree) (it : iter) (key value : list Z)
  : option (BTree * iter * OP_RESULT) :=
  match fuel with
  | O => None
  | S fuel' =>
      '(it, ret) ← seekToInsert t it key;
      if decide (ret = OK) then
        can ← canInsertInCurrentNode t it key (length value);
        if decide (can = OK) then
          '(t, it) ← insertInCurrentNode t it key value; Some (t, it, OK)
        else '(t, it) ← splitForKey t it key; insertKV fuel' t it key value
      else Some (t, it, ret)
  end.

Definition insertKVMightFail (t : BTree) (it : iter) (key value : list Z)
  : option (BTree * iter * OP_RESULT) :=
  '(it, ret) ← seekToInsert t it key;
  if decide (ret = OK) then
    can ← canInsertInCurrentNode t it key (length value);
    if decide (can = OK) then
      '(t, it) ← insertInCurrentNode t it key value; Some (t, it, OK)
    else Some (t, it, NOT_ENOUGH_SPACE)
  else Some (t, it, ret).

Definition removeCurrent (t : BTree) (it : iter) : option (BTree * OP_RESULT) :=
  '(bf, n) ← leaf_of t it;
  Some (if (0 <=? cur it) && (cur it <? Z.of_nat (count n))
        then (set_page t bf (removeSlot n (Z.to_nat (cur it))), OK) else (t, OTHER)).

Definition removeKV (t : BTree) (it : iter) (key : list Z) : option (BTree * iter * OP_RESULT) :=
  '(it, ret) ← seekExact t it key;
  if decide (ret = OK) then
    '(bf, n) ← leaf_of t it;
    Some (set_page t bf (removeSlot n (Z.to_nat (cur it))), it, OK)
  else Some (t, it, ret).

Fixpoint replaceKV (fuel : nat) (t : BTree) (it : iter) (key value : list Z)
  : option (BTree * iter * OP_RESULT) :=
  match fuel with
  | O => None
  | S fuel' =>
      '(it, ret) ← seekExact t it key;
      if decide (ret = OK) then
        '(t, _) ← removeCurrent t it;
        can ← canInsertInCurrentNode t it key (length value);
        if decide (can = OK) then
          '(t, it) ← insertInCurrentNode t it key value; Some (t, it, OK)
        else '(t, it) ← splitForKey t it key; replaceKV fuel' t it key value
      else Some (t, it, ret)
  end.

Definition shorten (t : BTree) (it : iter) (new_size : nat) : option BTree :=
  '(bf, n, i) ← current t it;
  if (new_size <? payload_len (slot n i))%nat
  then Some (set_page t bf (shortenPayload n i new_size)) else None.

(** Jumps in [tryMerge] are caught; with the pages resident there are none. *)
Definition mergeIfNeeded (t : BTree) (it : iter) : option (BTree * iter) :=
  '(bf, n) ← leaf_of t it;
  if underFullSize <=? freeSpaceAfterCompaction n
  then '(t, _) ← tryMerge_page t bf; Some (t, mkIter None (-1))
  else Some (t, it).

Definition currentLeafCount (t : BTree) (it : iter) : option nat :=
  '(_, n) ← leaf_of t it; Some (count n).

(** ** Contention management *)

Record ContentionTracker := mkTracker {
  restarts_counter : Z; access_counter : Z; last_modified_pos : Z }.

(** [contentionSplit] with its random number, the tracker of the leaf's frame
    and whether the leaf has faced contention: the tree, the iterator and the
    new tracker.  The jump of a [trySplit] that finds no free frame (it takes two
    at most) is caught. *)
Definition contentionSplit (random_number : Z) (faced : bool) (tr : ContentionTracker)
    (t : BTree) (it : iter) : option (BTree * iter * ContentionTracker) :=
  let low_bits b := Z.land random_number (u64 (Z.shiftl 1 b - 1)) in
  if negb (low_bits (FLAGS_cm_update_on flags) =? 0) then Some (t, it, tr)
  else
    let last := last_modified_pos tr in
    let restarts := u32 (restarts_counter tr + if faced then 1 else 0) in
    let accesses := u32 (access_counter tr + 1) in
    if negb (low_bits (FLAGS_cm_period flags) =? 0)
    then Some (t, it, mkTracker restarts accesses (cur it))
    else
      let normalized_restarts := 100 * restarts / accesses in
      let tr := mkTracker 0 0 (cur it) in
      '(bf, n) ← leaf_of t it;
      if negb (last =? cur it) && (FLAGS_cm_slowpath_threshold flags <=? normalized_restarts)
         && (2 <? count n)%nat
      then
        let split_pos := Z.min (sint 16 last) (sint 16 (cur it)) in
        match trySplit_page flags t bf split_pos with
        | Some t => Some (t, mkIter None (-1), tr)
        | None => if (length (free_list t) <? 2)%nat then Some (t, mkIter None (-1), tr) else None
        end
      else Some (t, it, tr).

(** * BTreeLL *)

(** [lookup] and [lookupForUpdate]: the callback may write into the value. *)
Definition ll_lookup {A} (t : BTree) (key : list Z) (cb : list Z -> list Z * A) : option (BTree * option A) :=
  bf ← findLeafCanJump t key;
  n ← frames t !! bf;
  '(pos, _) ← lowerBound true n key;
  if pos =? -1 then Some (t, None)
  else
    let (v, a) := cb (getPayload n (Z.to_nat pos)) in
    Some (set_page t bf (write_payload n (Z.to_nat pos) v), Some a).

(** The loop of the scans: [fuel] bounds the records delivered and the leaves
    skipped between two of them. *)
Fixpoint scan_loop {S} (advance : BTree -> iter -> option (iter * OP_RESULT))
    (f : S -> list Z -> list Z -> S * list Z * bool) (fuel : nat) (t : BTree) (it : iter) (s : S)
  : option (BTree * S * OP_RESULT) :=
  match fuel with
  | O => None
  | Datatypes.S fuel' =>
      '(bf, n, i) ← current t it;
      let '(s, v, continue) := f s (copyFullKey n i) (getPayload n i) in
      let t := set_page t bf (write_payload n i v) in
      if negb continue then Some (t, s, OK)
      else
        '(it, ret) ← advance t it;
        if decide (ret = OK) then scan_loop advance f fuel' t it s else Some (t, s, NOT_FOUND)
  end.

(** [scanAsc] and [scanAscExclusive]. *)
Definition ll_scanAsc {S} (fuel : nat) (t : BTree) (start_key : list Z)
    (f : S -> list Z -> list Z -> S * list Z * bool) (s : S) : option (BTree * S * OP_RESULT) :=
  '(it, ret) ← seek t fuel new_iter start_key;
  if decide (ret = OK) then scan_loop (fun t => next t fuel) f fuel t it s else Some (t, s, ret).

Definition ll_scanDesc {S} (fuel : nat) (t : BTree) (start_key : list Z)
    (f : S -> list Z -> list Z -> S * list Z * bool) (s : S) : option (BTree * S * OP_RESULT) :=
  '(it, ret) ← seekForPrev t fuel new_iter start_key;
  if decide (ret = OK) then scan_loop (fun t => prev t fuel) f fuel t it s else Some (t, s, ret).

Definition ll_insert (fuel : nat) (t : BTree) (key value : list Z) : option (BTree * OP_RESULT) :=
  '(t, _, ret) ← insertKV fuel t new_iter key value;
  if decide (ret = DUPLICATE) then Some (t, ret)
  else if decide (ret = OK) then Some (t, OK) else None.

Definition ll_insert_might_fail (t : BTree) (key value : list Z) : option (BTree * OP_RESULT) :=
  '(t, _, ret) ← insertKVMightFail t new_iter key value;
  if decide (ret = DUPLICATE) then Some (t, ret)
  else if decide (ret = NOT_ENOUGH_SPACE) then Some (t, ret)
  else if decide (ret = OK) then Some (t, OK) else None.

Definition ll_upsert (fuel : nat) (t : BTree) (key value : list Z) : option (BTree * OP_RESULT) :=
  '(it, ret) ← seekExact t new_iter key;
  '(t, _, ret) ← (if decide (ret = NOT_FOUND) then insertKV fuel t it key value
                  else replaceKV fuel t it key value);
  Some (t, ret).

(** [for (i = 0; i < num_to_the_right; ++i)]: the largest key so far and
    whether the end was reached; the loop goes on after the end. *)
Fixpoint boundary_loop (fuel : nat) (t : BTree) (it : iter) (key : list Z) (reached_end : bool) (i : nat)
  : option (list Z * bool) :=
  match i with
  | O => Some (key, reached_end)
  | S i' =>
      it ← toMaxKeyInNode t it;
      k ← key_of t it;
      if (length key <? length k)%nat then None   (* beyond the end of max_key_sofar *)
      else
        '(it, ret) ← next t fuel it;
        boundary_loop fuel t it (k ++ drop (length k) key) (reached_end || bool_decide (ret <> OK)) i'
  end.

Definition ll_findLeafNeighbouringNodeBoundary (fuel : nat) (t : BTree) (start_key : list Z)
    (num_to_the_right : nat) : option (list Z * bool) :=
  '(it, ret) ← seek t fuel new_iter start_key;
  if decide (ret = NOT_FOUND) then Some (start_key, true)
  else boundary_loop fuel t it start_key false num_to_the_right.

(** [updateSameSize]; the random number, the contention flag and the tracker
    are those of the leaf. *)
Definition ll_updateSameSize {A} (random_number : Z) (faced : bool) (tr : ContentionTracker)
    (t : BTree) (key : list Z) (cb : list Z -> list Z * A) : option (BTree * option A) :=
  '(it, ret) ← seekExact t new_iter key;
  if decide (ret = OK) then
    '(bf, n, i) ← current t it;
    let (v, a) := cb (getPayload n i) in
    let t := set_page t bf (write_payload n i v) in
    '(t, _, _) ← contentionSplit random_number faced tr t it;
    Some (t, Some a)
  else Some (t, None).

Definition ll_remove (t : BTree) (key : list Z) (no_merge : bool) : option (BTree * OP_RESULT) :=
  '(it, ret) ← seekExact t new_iter key;
  if decide (ret = OK) then
    '(t, ret) ← removeCurrent t it;
    if decide (ret = OK) then
      left ← currentLeafCount t it;
      if negb no_merge || (left <=? 1)%nat
      then '(t, _) ← mergeIfNeeded t it; Some (t, OK)
      else Some (t, OK)
    else None
  else Some (t, ret).

End exclusive.
