(* ===== verification/BTreeShape.v ===== *)
(** The shape of a page B-tree: the tree of pages a root swip stands for, its
    invariant, and the path from the root to a page as a context.

    [wf h lo hi T]: [T] is a tree of height [h] over the keys in [(lo, hi]];
    every page is well formed and carries its bounds as fences, and the
    separators of an inner page are the bounds of its children. *)
From stdpp Require Import sorting gmap.
From S2P Require Import Prelude Swip BTreeNode BTreeNodeSearch BTreeNodeSpace BTreeNodeOps BTreeNodeSplit BTreeInterface BTree.
Local Open Scope Z_scope.

(** * Trees of pages *)

Inductive tree := Node (bf : Z) (n : BTreeNode) (cs : list tree).

Definition bf_of (T : tree) : Z := let 'Node bf _ _ := T in bf.
Definition node_of (T : tree) : BTreeNode := let 'Node _ n _ := T in n.

Fixpoint nodes (T : tree) : list (Z * BTreeNode) :=
  let 'Node bf n cs := T in (bf, n) :: flat_map nodes cs.

Fixpoint leaves (T : tree) : list BTreeNode :=
  let 'Node _ n cs := T in match cs with [] => [n] | _ => flat_map leaves cs end.

Definition kvs (T : tree) : list (list Z * list Z) := flat_map entries (leaves T).

(** Addresses of frames: hot swips. *)
Definition addr_ok (b : Z) : Prop := 0 < b < 2 ^ 62.

(** Such an address, taken as a swip, is hot and stands for itself. *)
Lemma addr_hot b : addr_ok b -> classify b = HOT b.
Proof. intros Hb. unfold classify. destruct (hot_tests b) as [-> _]; [unfold addr_ok in Hb; lia|done]. Qed.

Abbreviation bound := (option (list Z)).

(** Limits under which a page always splits into pages that fit: the longest
    key and the longest value. *)
Definition max_key : nat := 64.
Definition max_value : nat := 1000.

Definition small (e : list Z * list Z) : Prop :=
  (length e.1 <= max_key)%nat /\ (length e.2 <= max_value)%nat.

Definition fence_good (f : bound) : Prop :=
  forall k, f = Some k -> k <> [] /\ (length k <= max_key)%nat.

Record page_at (leaf : bool) (lo hi : bound) (n : BTreeNode) : Prop := PageAt {
  pa_ok : page_ok n;
  pa_leaf : is_leaf n = leaf;
  pa_lo : getLowerFenceKey n = lo;
  pa_hi : getUpperFenceKey n = hi;
  pa_good_lo : fence_good lo;
  pa_good_hi : fence_good hi;
  pa_order : forall l u, lo = Some l -> hi = Some u -> l <ₗ u }.

(** An inner page with separators [ss] and child swips [bs]; the last swip is
    [upper]. *)
Record links (n : BTreeNode) (ss : list (list Z)) (bs : list Z) : Prop := Links {
  li_entries : entries n = zip_with (fun s b => (s, to_le sizeof_SwipType b)) ss bs;
  li_upper : list.last bs = Some (upper n);
  li_length : length bs = S (length ss);
  li_addr : Forall addr_ok bs }.

Section segments.
Context (P : bound -> bound -> tree -> Prop).

(** Children left of a point, each with its upper separator, and right of a
    point, each with its lower separator. *)
Fixpoint lseg (lo : bound) (ss : list (list Z)) (cs : list tree) (m : bound) : Prop :=
  match ss, cs with
  | [], [] => lo = m
  | s :: ss', c :: cs' => P lo (Some s) c /\ lseg (Some s) ss' cs' m
  | _, _ => False
  end.

Fixpoint rseg (m : bound) (ss : list (list Z)) (cs : list tree) (hi : bound) : Prop :=
  match ss, cs with
  | [], [] => m = hi
  | s :: ss', c :: cs' => m = Some s /\ exists m', P (Some s) m' c /\ rseg m' ss' cs' hi
  | _, _ => False
  end.

Definition kids (lo : bound) (ss : list (list Z)) (cs : list tree) (hi : bound) : Prop :=
  match cs with
  | [] => False
  | c :: cs' => exists m, P lo m c /\ rseg m ss cs' hi
  end.

Lemma rseg_cons m s ss cs hi : rseg m (s :: ss) cs hi <-> m = Some s /\ kids (Some s) ss cs hi.
Proof. destruct cs; simpl; naive_solver. Qed.

Lemma kids_focus lo sl sr cl c cr hi :
  length sl = length cl ->
  kids lo (sl ++ sr) (cl ++ c :: cr) hi <->
  exists m1 m2, lseg lo sl cl m1 /\ P m1 m2 c /\ rseg m2 sr cr hi.
Proof.
  revert lo cl; induction sl as [|s sl IH]; intros lo [|c0 cl] Hl; simpl in Hl; try lia.
  - simpl. naive_solver.
  - cbn [app lseg]. change (kids lo (s :: sl ++ sr) (c0 :: cl ++ c :: cr) hi) with
      (exists m, P lo m c0 /\ rseg m (s :: sl ++ sr) (cl ++ c :: cr) hi).
    setoid_rewrite rseg_cons. setoid_rewrite IH; [|lia]. naive_solver.
Qed.

Lemma rseg_length m ss cs hi : rseg m ss cs hi -> length ss = length cs.
Proof.
  revert m cs; induction ss as [|s ss IH]; intros m [|c cs] H; simpl in *; try done.
  destruct H as (_ & m' & _ & H). f_equal. eauto.
Qed.

Lemma lseg_length lo ss cs m : lseg lo ss cs m -> length ss = length cs.
Proof.
  revert lo cs; induction ss as [|s ss IH]; intros lo [|c cs] H; simpl in *; try done.
  destruct H as [_ H]. f_equal. eauto.
Qed.

Lemma kids_length lo ss cs hi : kids lo ss cs hi -> length cs = S (length ss).
Proof. destruct cs; [done|]. intros (m & _ & H%rseg_length). simpl. lia. Qed.

Lemma rseg_head m ss cs hi : rseg m ss cs hi -> m = match ss with [] => hi | s :: _ => Some s end.
Proof. destruct ss, cs; simpl; naive_solver. Qed.

Lemma lseg_last lo ss cs m :
  lseg lo ss cs m -> m = match list.last ss with None => lo | Some s => Some s end.
Proof.
  revert lo cs; induction ss as [|s ss IH]; intros lo [|c cs] H; cbn [lseg] in *; try done.
  destruct H as [_ H%IH]. rewrite last_cons. subst m. by destruct (list.last ss).
Qed.

(** Every child is between some bounds. *)
Lemma kids_elem lo ss cs hi c : kids lo ss cs hi -> c ∈ cs -> exists l u, P l u c.
Proof.
  destruct cs as [|c0 cs]; [done|]. intros (m & H0 & H) Hc.
  apply elem_of_cons in Hc as [->|Hc]; [eauto|]. clear H0 c0.
  revert m cs H Hc; induction ss as [|s ss IH]; intros m [|c1 cs] H Hc; simpl in *; try done.
  { by apply not_elem_of_nil in Hc. }
  destruct H as (_ & m' & H1 & H). apply elem_of_cons in Hc as [->|Hc]; eauto.
Qed.

(** The child a key belongs to. *)
Lemma kids_find lo ss cs hi key :
  kids lo ss cs hi -> in_fences lo hi key -> StronglySorted lex_lt ss ->
  exists sl sr cl c cr, ss = sl ++ sr /\ cs = cl ++ c :: cr /\ length sl = length cl /\
    length sr = length cr /\
    (forall s, s ∈ sl -> s <ₗ key) /\ (forall s, s ∈ sr -> key ≤ₗ s) /\
    exists m1 m2, lseg lo sl cl m1 /\ P m1 m2 c /\ rseg m2 sr cr hi /\ in_fences m1 m2 key.
Proof.
  revert lo cs; induction ss as [|s ss IH]; intros lo cs Hk Hf Hs.
  - destruct cs as [|c [|c' cs]]; simpl in Hk; [done| |destruct Hk as (m & _ & []) ].
    destruct Hk as (m & Hc & ->). exists [], [], [], c, []. do 4 (split; [done|]).
    split; [by intros s ?%not_elem_of_nil|]. split; [by intros s ?%not_elem_of_nil|].
    exists lo, hi. by split_and!.
  - destruct cs as [|c cs]; [done|]. destruct Hk as (m & Hc & Hr).
    pose proof Hr as [-> Hk]%rseg_cons. inversion Hs as [|? ? Hs1 Hs2]; subst.
    destruct (decide (s <ₗ key)) as [Hlt|Hge].
    + destruct (IH (Some s) cs) as (sl & sr & cl & c1 & cr & -> & -> & El & Er & Hl & Hr' & m1 & m2 & H1 & H2 & H3 & H4);
        [done|split; [by intros lf [= <-]|apply Hf]|done|].
      exists (s :: sl), sr, (c :: cl), c1, cr. do 2 (split; [done|]). split; [simpl; lia|]. split; [done|].
      split; [intros s' [->|?]%elem_of_cons; auto|]. split; [done|].
      exists m1, m2. split; [done|]. by split_and!.
    + apply lex_nlt_le in Hge. exists [], (s :: ss), [], c, cs. do 2 (split; [done|]). split; [done|].
      split; [by apply rseg_length in Hr|].
      split; [by intros s' ?%not_elem_of_nil|]. split.
      * rewrite List.Forall_forall in Hs2. intros s' [->|Hin]%elem_of_cons; [done|].
        apply lex_le_lteq. left. eapply lex_le_lt_trans; [exact Hge|]. apply Hs2. by apply list_elem_of_In.
      * exists lo, (Some s). split; [done|]. split; [done|]. split; [done|].
        split; [apply Hf|by intros uf [= <-]].
Qed.
End segments.

Fixpoint wf (h : nat) (lo hi : bound) (T : tree) : Prop :=
  let 'Node bf n cs := T in
  match h with
  | O => page_at true lo hi n /\ cs = [] /\ Forall small (entries n)
  | S h' => page_at false lo hi n /\ exists ss, links n ss (map bf_of cs) /\ kids (wf h') lo ss cs hi
  end.

Lemma wf_page h lo hi T : wf h lo hi T -> exists leaf, page_at leaf lo hi (node_of T).
Proof. destruct T, h; simpl; intros [H _]; eauto. Qed.

Lemma wf_fences h lo hi T :
  wf h lo hi T -> getLowerFenceKey (node_of T) = lo /\ getUpperFenceKey (node_of T) = hi.
Proof. intros [leaf H]%wf_page. split; apply H. Qed.

(** * Searching an inner page *)

Lemma links_keys n ss bs : links n ss bs -> (entries n).*1 = ss.
Proof.
  intros [E _ Hl _]. rewrite E. clear E. revert bs Hl. induction ss as [|s ss IH]; intros [|b bs] Hl; simpl in *; try done.
  f_equal. apply IH. lia.
Qed.

Lemma links_sorted n ss bs : page_ok n -> links n ss bs -> StronglySorted lex_lt ss.
Proof.
  intros P L. rewrite <- (links_keys _ _ _ L). pose proof (po_sorted _ P) as H.
  induction H as [|e l _ IH Hf]; simpl; constructor; [done|].
  rewrite List.Forall_forall in *. intros k (e' & <- & He')%List.in_map_iff. auto.
Qed.

Lemma links_count n ss bs : links n ss bs -> count n = length ss.
Proof. intros L. rewrite <- (links_keys _ _ _ L), length_fmap. by rewrite length_entries. Qed.

Lemma links_fences n ss bs s :
  page_ok n -> links n ss bs -> s ∈ ss -> in_fences (getLowerFenceKey n) (getUpperFenceKey n) s.
Proof.
  intros P L Hs. rewrite <- (links_keys _ _ _ L) in Hs. apply list_elem_of_fmap in Hs as (e & -> & He).
  pose proof (po_fences _ P) as Hf. rewrite list.Forall_forall in Hf. auto.
Qed.

(** The search position is determined by what is left and right of it. *)
Lemma search_pos n key i :
  page_ok n -> Forall is_byte key -> (i <= count n)%nat ->
  (forall k, k ∈ take i (entries n).*1 -> k <ₗ key) ->
  (forall k, k ∈ drop i (entries n).*1 -> key ≤ₗ k) ->
  exists eq, lowerBound false n key = Some (Z.of_nat i, eq).
Proof.
  intros P Hk Hi Hl Hr. destruct (lowerBound_entries n key P Hk) as (pos & eq & E & Hp & Hpl & Hpr & _).
  exists eq. rewrite E. do 2 f_equal.
  rewrite <- (linear_pos_split key (entries n) pos), <- (linear_pos_split key (entries n) i);
    rewrite ?length_entries; try done.
  - intros e He. apply Hl. rewrite <- fmap_take. apply list_elem_of_fmap. eauto.
  - intros e He. apply Hr. rewrite <- fmap_drop. apply list_elem_of_fmap. eauto.
Qed.

Lemma of_to_swip b : addr_ok b -> of_le (to_le sizeof_SwipType b) = b.
Proof.
  intros H. rewrite of_to_le. apply Z.mod_small. unfold addr_ok in H.
  change (256 ^ Z.of_nat sizeof_SwipType) with (2 ^ 64). lia.
Qed.

Lemma links_child n ss bs i b :
  links n ss bs -> bs !! i = Some b ->
  (i < length ss)%nat /\ getChild n i = b \/ i = length ss /\ upper n = b.
Proof.
  intros L Hb. pose proof (lookup_lt_Some _ _ _ Hb) as Hi. rewrite (li_length _ _ _ L) in Hi.
  destruct (decide (i = length ss)) as [->|Hne].
  - right. split; [done|]. pose proof (li_upper _ _ _ L) as Hu. rewrite last_lookup, (li_length _ _ _ L) in Hu.
    simpl in Hu. congruence.
  - left. split; [lia|]. destruct (lookup_lt_is_Some_2 ss i ltac:(lia)) as [s Hs].
    assert (entries n !! i = Some (s, to_le sizeof_SwipType b)) as He
      by (rewrite (li_entries _ _ _ L), lookup_zip_with, Hs; simpl; by rewrite Hb).
    rewrite lookup_entries in He by (rewrite (links_count _ _ _ L); lia).
    injection He as _ Hp. unfold getChild. rewrite Hp. apply of_to_swip.
    pose proof (li_addr _ _ _ L) as Ha. rewrite Forall_lookup in Ha. eauto.
Qed.

Lemma child_swips_links n ss bs : links n ss bs -> child_swips n = bs.
Proof.
  intros L. unfold child_swips. rewrite (links_count _ _ _ L). apply list_eq. intros i.
  destruct (decide (i < S (length ss))%nat) as [Hi|Hi].
  - destruct (lookup_lt_is_Some_2 bs i) as [b Hb]; [rewrite (li_length _ _ _ L); lia|]. rewrite Hb.
    destruct (links_child _ _ _ _ _ L Hb) as [[Hlt <-]|[-> <-]].
    + rewrite lookup_app_l by (rewrite length_map, length_seq; lia).
      rewrite list_lookup_fmap, lookup_seq_lt by lia. done.
    + rewrite lookup_app_r by (rewrite length_map, length_seq; lia).
      rewrite length_map, length_seq. by replace (length ss - length ss)%nat with 0%nat by lia.
  - rewrite !lookup_ge_None_2; [done|rewrite (li_length _ _ _ L); lia|].
    rewrite length_app, length_map, length_seq. simpl. lia.
Qed.

(** An inner page searched for a key between the separators at position
    [length sl]. *)
Lemma links_search n sl sr bl b br key :
  page_ok n -> links n (sl ++ sr) (bl ++ b :: br) -> length sl = length bl -> Forall is_byte key ->
  (forall s, s ∈ sl -> s <ₗ key) -> (forall s, s ∈ sr -> key ≤ₗ s) ->
  lookupInner n key = Some b /\ parent_swip n (Some key) = Some (b, length bl).
Proof.
  intros P L Hlen Hk Hl Hr. pose proof (links_count _ _ _ L) as Hc. rewrite length_app in Hc.
  destruct (search_pos n key (length sl) P Hk) as [eq E].
  - lia.
  - by rewrite (links_keys _ _ _ L), take_app_length.
  - by rewrite (links_keys _ _ _ L), drop_app_length.
  - unfold lookupInner, parent_swip. rewrite E. cbn [mbind option_bind].
    assert ((bl ++ b :: br) !! length sl = Some b) as Hb.
    { rewrite Hlen, lookup_app_r by lia. by rewrite Nat.sub_diag. }
    destruct (links_child _ _ _ _ _ L Hb) as [[Hlt Hch]|[Heq Hu]]; rewrite length_app in *.
    + rewrite (proj2 (Z.eqb_neq _ _)) by lia. rewrite Nat2Z.id, Hch. by rewrite Hlen.
    + rewrite (proj2 (Z.eqb_eq _ _)) by lia. rewrite Hu. rewrite Hc, <- Hlen.
      split; [done|]. do 2 f_equal. lia.
Qed.
