(* ===== verification/BTreePath.v ===== *)
(** Paths in a page B-tree: a page in its context, the state a tree of pages
    represents, and the searches from the root ([findLeafCanJump],
    [findParent]) as walks along the context. *)
From stdpp Require Import sorting gmap.
From S2P Require Import Prelude BTreeNode BTreeNodeSearch BTreeNodeSpace BTreeNodeOps BTreeNodeSplit BTreeInterface BTree BTreeShape.
Local Open Scope Z_scope.

(** * Contexts *)

(** An inner page with a hole between its children. *)
Record crumb := mkCrumb { cb : Z; cn : BTreeNode; cl : list tree; cr : list tree }.

Definition plug1 (k : crumb) (T : tree) : tree := Node (cb k) (cn k) (cl k ++ T :: cr k).

(** The hole's ancestors, the nearest first. *)
Definition plug (ctx : list crumb) (T : tree) : tree := foldl (fun T k => plug1 k T) T ctx.

Lemma plug_cons k ctx T : plug (k :: ctx) T = plug ctx (plug1 k T).
Proof. done. Qed.

(** [b]: the swip in the hole. *)
Record crumb_wf (k : crumb) (b : Z) (h : nat) (lo hi plo phi : bound) (sl sr : list (list Z)) : Prop := CrumbWf {
  cw_page : page_at false plo phi (cn k);
  cw_links : links (cn k) (sl ++ sr) (map bf_of (cl k) ++ b :: map bf_of (cr k));
  cw_left : lseg (wf h) plo sl (cl k) lo;
  cw_right : rseg (wf h) hi sr (cr k) phi }.

Fixpoint ctx_wf (H : nat) (ctx : list crumb) (b : Z) (h : nat) (lo hi : bound) : Prop :=
  match ctx with
  | [] => h = H /\ lo = None /\ hi = None
  | k :: ctx' => exists plo phi sl sr, crumb_wf k b h lo hi plo phi sl sr /\ ctx_wf H ctx' (cb k) (S h) plo phi
  end.

Lemma plug1_wf k h lo hi plo phi sl sr T :
  crumb_wf k (bf_of T) h lo hi plo phi sl sr -> wf h lo hi T -> wf (S h) plo phi (plug1 k T).
Proof.
  intros [P L Hl Hr] HT. cbn [plug1 wf]. split; [done|]. exists (sl ++ sr). split; [by rewrite map_app|].
  apply kids_focus; [by eapply lseg_length|]. eauto.
Qed.

Lemma plug_wf H ctx T h lo hi :
  ctx_wf H ctx (bf_of T) h lo hi -> wf h lo hi T -> wf H None None (plug ctx T).
Proof.
  revert T h lo hi; induction ctx as [|k ctx IH]; intros T h lo hi Hc HT.
  - by destruct Hc as (-> & -> & ->).
  - destruct Hc as (plo & phi & sl & sr & Hk & Hc). rewrite plug_cons. eapply IH; [exact Hc|].
    by eapply plug1_wf.
Qed.

Lemma ctx_height H ctx b h lo hi : ctx_wf H ctx b h lo hi -> (length ctx + h = H)%nat.
Proof.
  revert b h lo hi; induction ctx as [|k ctx IH]; intros b h lo hi Hc; simpl in *.
  - naive_solver.
  - destruct Hc as (? & ? & ? & ? & _ & Hc%IH). lia.
Qed.

(** The bounds of a child lie within those of its parent. *)
Lemma crumb_within k b h lo hi plo phi sl sr key :
  crumb_wf k b h lo hi plo phi sl sr -> in_fences lo hi key -> in_fences plo phi key.
Proof.
  intros [[P _ <- <- _ _ _] L Hl Hr] [H1 H2]. apply lseg_last in Hl. apply rseg_head in Hr. split.
  - intros lf E. destruct (list.last sl) as [s|] eqn:Es; subst lo; [|auto].
    eapply lex_lt_trans; [|by apply H1].
    apply (links_fences _ _ _ s P L); [|done]. apply elem_of_app. left.
    by apply last_Some_elem_of in Es.
  - intros uf E. destruct sr as [|s sr]; subst hi; [auto|].
    eapply lex_le_trans; [by apply H2|]. apply (links_fences _ _ _ s P L); [|done].
    apply elem_of_app. right. apply elem_of_cons. by left.
Qed.

Lemma crumb_separates k b h lo hi plo phi sl sr key :
  crumb_wf k b h lo hi plo phi sl sr -> in_fences lo hi key ->
  (forall s, s ∈ sl -> s <ₗ key) /\ (forall s, s ∈ sr -> key ≤ₗ s).
Proof.
  intros [[P _ <- <- _ _ _] L Hl Hr] [H1 H2]. apply lseg_last in Hl. apply rseg_head in Hr.
  pose proof (links_sorted _ _ _ P L) as Hs. apply StronglySorted_app in Hs as (_ & Hs1 & Hs2). split.
  - intros s Hin. destruct (list.last sl) as [s'|] eqn:Es; subst lo.
    + apply lex_le_lt_trans with s'; [|by apply H1].
      apply last_Some in Es as [sl' ->]. apply StronglySorted_app in Hs1 as (Hs1 & _ & _).
      apply lex_le_lteq. apply elem_of_app in Hin as [Hin|Hin%list_elem_of_singleton]; [left|by right].
      apply Hs1; [done|]. by apply list_elem_of_singleton.
    + apply last_None in Es as ->. by apply not_elem_of_nil in Hin.
  - intros s Hin. destruct sr as [|s' sr]; [by apply not_elem_of_nil in Hin|]. subst hi.
    eapply lex_le_trans; [by apply H2|]. apply lex_le_lteq.
    apply elem_of_cons in Hin as [->|Hin]; [by right|]. left. inversion Hs2 as [|? ? _ Hf]; subst.
    rewrite list.Forall_forall in Hf. auto.
Qed.

(** Searching an ancestor for a key of the hole finds the hole. *)
Lemma crumb_search k b h lo hi plo phi sl sr key :
  crumb_wf k b h lo hi plo phi sl sr -> in_fences lo hi key -> Forall is_byte key ->
  lookupInner (cn k) key = Some b /\ parent_swip (cn k) (Some key) = Some (b, length (cl k)).
Proof.
  intros W Hf Hk. destruct (crumb_separates _ _ _ _ _ _ _ _ _ _ W Hf) as [H1 H2].
  destruct W as [P L Hl Hr]. rewrite <- (length_map bf_of (cl k)).
  eapply links_search; eauto; [apply P|]. rewrite length_map. by eapply lseg_length.
Qed.

(** An unbounded hole is the last child. *)
Lemma crumb_last k b h lo plo phi sl sr :
  crumb_wf k b h lo None plo phi sl sr ->
  parent_swip (cn k) None = Some (b, length (cl k)) /\ phi = None.
Proof.
  intros [P L Hl Hr]. destruct sr as [|s sr]; [|destruct (cr k); simpl in Hr; naive_solver].
  destruct (cr k) eqn:Ecr; [|done]. simpl in Hr. subst phi. rewrite app_nil_r in L. split; [|done].
  unfold parent_swip. rewrite (links_count _ _ _ L). pose proof (li_upper _ _ _ L) as Hu.
  simpl in Hu. rewrite last_snoc in Hu. injection Hu as <-. by rewrite (lseg_length _ _ _ _ _ Hl).
Qed.

(** * The nodes and leaves of a plugged context *)

Definition crumb_nodes (k : crumb) : list (Z * BTreeNode) :=
  (cb k, cn k) :: flat_map nodes (cl k) ++ flat_map nodes (cr k).

Definition ctx_nodes (ctx : list crumb) : list (Z * BTreeNode) := flat_map crumb_nodes ctx.

Lemma nodes_plug ctx T : nodes (plug ctx T) ≡ₚ nodes T ++ ctx_nodes ctx.
Proof.
  revert T; induction ctx as [|k ctx IH]; intros T; simpl.
  - by rewrite app_nil_r.
  - change (foldl (fun T0 k0 => plug1 k0 T0) (plug1 k T) ctx) with (plug ctx (plug1 k T)).
    rewrite IH. unfold ctx_nodes at 2. simpl. rewrite flat_map_app. simpl. solve_Permutation.
Qed.

Fixpoint ctx_left (ctx : list crumb) : list BTreeNode :=
  match ctx with [] => [] | k :: ctx' => ctx_left ctx' ++ flat_map leaves (cl k) end.
Fixpoint ctx_right (ctx : list crumb) : list BTreeNode :=
  match ctx with [] => [] | k :: ctx' => flat_map leaves (cr k) ++ ctx_right ctx' end.

Lemma leaves_plug1 k T : leaves (plug1 k T) = flat_map leaves (cl k) ++ leaves T ++ flat_map leaves (cr k).
Proof.
  unfold plug1. cbn [leaves].
  replace (match cl k ++ T :: cr k with [] => [cn k] | _ => flat_map leaves (cl k ++ T :: cr k) end)
    with (flat_map leaves (cl k ++ T :: cr k)) by (by destruct (cl k)).
  by rewrite flat_map_app.
Qed.

Lemma leaves_plug ctx T : leaves (plug ctx T) = ctx_left ctx ++ leaves T ++ ctx_right ctx.
Proof.
  revert T; induction ctx as [|k ctx IH]; intros T; simpl.
  - by rewrite app_nil_r.
  - change (foldl (fun T0 k0 => plug1 k0 T0) (plug1 k T) ctx) with (plug ctx (plug1 k T)).
    rewrite IH, leaves_plug1. by rewrite <- !app_assoc.
Qed.

(** * Focusing on the leaf of a key *)

Lemma focus_leaf H ctx T h lo hi key :
  ctx_wf H ctx (bf_of T) h lo hi -> wf h lo hi T -> in_fences lo hi key ->
  exists ctx' L lo' hi', plug ctx T = plug ctx' L /\ wf 0 lo' hi' L /\
    ctx_wf H ctx' (bf_of L) 0 lo' hi' /\ in_fences lo' hi' key.
Proof.
  revert ctx T lo hi; induction h as [|h IH]; intros ctx [bf n cs] lo hi Hc HT Hf.
  - exists ctx, (Node bf n cs), lo, hi. done.
  - destruct HT as (P & ss & L & Hk).
    destruct (kids_find _ _ _ _ _ _ Hk Hf) as (sl & sr & cl & c & cr & -> & -> & El & Er & _ & _ & m1 & m2 & H1 & H2 & H3 & H4);
      [eapply links_sorted; [apply P|done]|].
    destruct (IH (mkCrumb bf n cl cr :: ctx) c m1 m2) as (ctx' & L' & lo' & hi' & E & H5 & H6 & H7); [|done|done|].
    + exists lo, hi, sl, sr. split; [|done]. constructor; cbn; try done. by rewrite map_app in L.
    + exists ctx', L', lo', hi'. done.
Qed.

(** * Represented states *)

Record repr (t : BTree) (T : tree) (H : nat) : Prop := Repr {
  re_wf : wf H None None T;
  re_root : root t = bf_of T;
  re_height : height t = Z.of_nat (S H);
  re_frames : frames t = list_to_map (nodes T);
  re_nodup : NoDup (free_list t ++ (nodes T).*1);
  re_addr : Forall addr_ok (free_list t ++ (nodes T).*1) }.

Lemma repr_NoDup t T H : repr t T H -> NoDup (nodes T).*1.
Proof. intros R. pose proof (re_nodup _ _ _ R) as Hn. by apply list.NoDup_app in Hn as (_ & _ & ?). Qed.

Lemma repr_lookup t T H bf n : repr t T H -> (bf, n) ∈ nodes T -> frames t !! bf = Some n.
Proof.
  intros R Hin. rewrite (re_frames _ _ _ R). apply elem_of_list_to_map; [by eapply repr_NoDup|done].
Qed.

Lemma nodes_self T : (bf_of T, node_of T) ∈ nodes T.
Proof. destruct T. simpl. apply elem_of_cons. by left. Qed.

Lemma repr_page t ctx T H : repr t (plug ctx T) H -> frames t !! bf_of T = Some (node_of T).
Proof.
  intros R. eapply repr_lookup; [done|]. rewrite nodes_plug. apply elem_of_app. left. apply nodes_self.
Qed.

Lemma repr_crumb t ctx k ctx' T H :
  repr t (plug (ctx ++ k :: ctx') T) H -> frames t !! cb k = Some (cn k).
Proof.
  intros R. eapply repr_lookup; [done|]. rewrite nodes_plug. apply elem_of_app. right.
  unfold ctx_nodes. rewrite flat_map_app. apply elem_of_app. right. simpl. apply elem_of_cons. by left.
Qed.

(** * Walks along the context *)

(** Every key of the hole leads down to it. *)
Lemma descend_ctx t H ctx T h lo hi key f :
  repr t (plug ctx T) H -> ctx_wf H ctx (bf_of T) h lo hi -> in_fences lo hi key -> Forall is_byte key ->
  descend (length ctx + f) t (bf_of (plug ctx T)) key = descend f t (bf_of T) key.
Proof.
  revert T h lo hi f; induction ctx as [|k ctx IH]; intros T h lo hi f R Hc Hf Hk; [done|].
  destruct Hc as (plo & phi & sl & sr & W & Hc). rewrite plug_cons in *.
  replace (length (k :: ctx) + f)%nat with (length ctx + S f)%nat by (simpl; lia).
  erewrite IH; [|done|exact Hc|by eapply crumb_within|done]. cbn [descend plug1 bf_of].
  pose proof (repr_crumb t [] k ctx T H R) as ->. cbn [mbind option_bind].
  rewrite (pa_leaf _ _ _ _ (cw_page _ _ _ _ _ _ _ _ _ W)).
  by rewrite (proj1 (crumb_search _ _ _ _ _ _ _ _ _ _ W Hf Hk)).
Qed.

Lemma findLeaf_ctx t H ctx bf n lo hi key :
  repr t (plug ctx (Node bf n [])) H -> ctx_wf H ctx bf 0 lo hi -> wf 0 lo hi (Node bf n []) ->
  in_fences lo hi key -> Forall is_byte key ->
  findLeafCanJump t key = Some bf.
Proof.
  intros R Hc HT Hf Hk. unfold findLeafCanJump. rewrite (re_root _ _ _ R), (re_height _ _ _ R), Nat2Z.id.
  pose proof (ctx_height _ _ _ _ _ _ Hc) as <-.
  replace (S (length ctx + 0)) with (length ctx + 1)%nat by lia.
  rewrite (descend_ctx t _ ctx (Node bf n []) 0 lo hi key 1 R Hc Hf Hk). cbn [descend bf_of].
  pose proof (repr_page t ctx _ _ R) as E. simpl in E. rewrite E. cbn [mbind option_bind].
  destruct HT as (P & _). by rewrite (pa_leaf _ _ _ _ P).
Qed.

(** The upper fence of the hole as [findParent] uses it. *)
Definition covers (lo hi : bound) (key : bound) : Prop :=
  match key with None => hi = None | Some u => in_fences lo hi u /\ Forall is_byte u end.

Lemma crumb_covers k b h lo hi plo phi sl sr key :
  crumb_wf k b h lo hi plo phi sl sr -> covers lo hi key ->
  parent_swip (cn k) key = Some (b, length (cl k)) /\ covers plo phi key.
Proof.
  intros W Hc. destruct key as [u|]; simpl in Hc.
  - destruct Hc as [Hf Hb]. split; [by apply (crumb_search _ _ _ _ _ _ _ _ _ _ W Hf Hb)|].
    split; [by eapply crumb_within|done].
  - subst hi. by eapply crumb_last.
Qed.

Lemma parent_loop_ctx t H ctx T h lo hi key tf f :
  repr t (plug ctx T) H -> ctx_wf H ctx (bf_of T) h lo hi -> covers lo hi key ->
  tf ∉ map cb ctx -> tf <> bf_of T ->
  parent_loop (length ctx + f) t (bf_of (plug ctx T)) key tf = parent_loop f t (bf_of T) key tf.
Proof.
  revert T h lo hi f; induction ctx as [|k ctx IH]; intros T h lo hi f R Hc Hf Hn1 Hn2; [done|].
  destruct Hc as (plo & phi & sl & sr & W & Hc). rewrite plug_cons in *. simpl in Hn1.
  apply not_elem_of_cons in Hn1 as [Hn0 Hn1].
  replace (length (k :: ctx) + f)%nat with (length ctx + S f)%nat by (simpl; lia).
  destruct (crumb_covers _ _ _ _ _ _ _ _ _ _ W Hf) as [E Hf'].
  erewrite IH; [|done|exact Hc|done|done|done]. cbn [parent_loop plug1 bf_of].
  pose proof (repr_crumb t [] k ctx T H R) as ->. cbn [mbind option_bind].
  rewrite (pa_leaf _ _ _ _ (cw_page _ _ _ _ _ _ _ _ _ W)), E. cbn [mbind option_bind].
  by rewrite (proj2 (Z.eqb_neq _ _)) by congruence.
Qed.

Lemma bf_plug ctx T : bf_of (plug ctx T) = match list.last ctx with None => bf_of T | Some k => cb k end.
Proof.
  revert T; induction ctx as [|k ctx IH]; intros T; [done|].
  rewrite plug_cons, IH, last_cons. by destruct (list.last ctx).
Qed.

Lemma ctx_addr_in ctx k : k ∈ ctx -> cb k ∈ (ctx_nodes ctx).*1.
Proof.
  intros Hk. unfold ctx_nodes. apply list_elem_of_fmap. exists (cb k, cn k). split; [done|].
  apply list_elem_of_In, in_flat_map. exists k. split; [by apply list_elem_of_In|]. by left.
Qed.

Lemma repr_fresh t ctx T H :
  repr t (plug ctx T) H -> bf_of T ∉ map cb ctx.
Proof.
  intros R Hin. pose proof (repr_NoDup _ _ _ R) as Hn. rewrite nodes_plug, fmap_app in Hn.
  apply list.NoDup_app in Hn as (_ & Hd & _). apply list_elem_of_fmap in Hin as (k & E & Hk).
  apply (Hd (bf_of T)).
  - apply list_elem_of_fmap. exists (bf_of T, node_of T). split; [done|]. apply nodes_self.
  - rewrite E. by apply ctx_addr_in.
Qed.

Lemma wf_covers h lo hi T : wf h lo hi T -> covers lo hi (getUpperFenceKey (node_of T)).
Proof.
  intros [leaf W]%wf_page. rewrite (pa_hi _ _ _ _ W). destruct hi as [u|]; [|done]. split.
  - split; [|by intros uf [= <-]; apply lex_le_lteq; right]. intros lf E.
    by apply (pa_order _ _ _ _ W).
  - pose proof (fence_is_byte _ _ (upper_fence (node_of T)) (po_heap _ (pa_ok _ _ _ _ W))) as Hb.
    change (fence_bytes (node_of T) (upper_fence (node_of T))) with (getUpperFenceKey (node_of T)) in Hb.
    by rewrite (pa_hi _ _ _ _ W) in Hb.
Qed.

(** [findParent] of the root and of a page below. *)
Lemma findParent_root t T H : repr t T H -> findParent t (bf_of T) = Some None.
Proof.
  intros R. unfold findParent. pose proof (repr_page t [] T H R) as ->. cbn [mbind option_bind].
  by rewrite (re_root _ _ _ R), Z.eqb_refl.
Qed.

Lemma findParent_ctx t H k ctx T h lo hi :
  repr t (plug (k :: ctx) T) H -> ctx_wf H (k :: ctx) (bf_of T) h lo hi -> wf h lo hi T ->
  findParent t (bf_of T) = Some (Some (cb k, length (cl k))).
Proof.
  intros R Hc HT. pose proof (repr_fresh t (k :: ctx) T H R) as Hfr.
  pose proof (repr_page t (k :: ctx) T H R) as Ep. pose proof (repr_crumb t [] k ctx T H R) as Ek.
  unfold findParent. rewrite Ep. cbn [mbind option_bind].
  rewrite (re_root _ _ _ R), (re_height _ _ _ R), Nat2Z.id.
  rewrite (proj2 (Z.eqb_neq _ _)).
  2: { intros E. apply Hfr. rewrite <- E, bf_plug. destruct (list.last (k :: ctx)) as [k'|] eqn:El.
       - apply list_elem_of_fmap. exists k'. split; [done|]. by apply last_Some_elem_of.
       - by apply last_None in El. }
  pose proof (ctx_height _ _ _ _ _ _ Hc) as Hh. simpl in Hh.
  destruct Hc as (plo & phi & sl & sr & W & Hc).
  destruct (crumb_covers _ _ _ _ _ _ _ _ _ _ W (wf_covers _ _ _ _ HT)) as [E Hcov].
  rewrite plug_cons in *. simpl in Hfr. apply not_elem_of_cons in Hfr as [Hf1 Hf2].
  replace (S H) with (length ctx + S (S h))%nat by lia.
  erewrite parent_loop_ctx; [|done|exact Hc|exact Hcov|done|done].
  cbn [parent_loop plug1 bf_of]. rewrite Ek. cbn [mbind option_bind].
  rewrite (pa_leaf _ _ _ _ (cw_page _ _ _ _ _ _ _ _ _ W)), E. cbn [mbind option_bind].
  by rewrite Z.eqb_refl.
Qed.

(** * Contents *)

Lemma flat_map_ext_elem {A B} (f g : A -> list B) l : (forall x, x ∈ l -> f x = g x) -> flat_map f l = flat_map g l.
Proof.
  induction l as [|x l IH]; intros H; [done|]. simpl. rewrite H by (apply elem_of_cons; by left).
  f_equal. apply IH. intros y Hy. apply H, elem_of_cons. by right.
Qed.

Lemma flat_map_flat_map {A B C} (f : A -> list B) (g : B -> list C) l :
  flat_map g (flat_map f l) = flat_map (fun x => flat_map g (f x)) l.
Proof. induction l as [|x l IH]; [done|]. simpl. by rewrite flat_map_app, IH. Qed.

Lemma nodes_child c bf n cs e : c ∈ cs -> e ∈ nodes c -> e ∈ nodes (Node bf n cs).
Proof.
  intros Hc He. simpl. apply elem_of_cons. right. apply list_elem_of_In, in_flat_map. exists c.
  split; by apply list_elem_of_In.
Qed.

Lemma leaf_pages_wf t h lo hi T :
  wf h lo hi T -> (forall bf n, (bf, n) ∈ nodes T -> frames t !! bf = Some n) ->
  leaf_pages (S h) t (bf_of T) = leaves T.
Proof.
  revert lo hi T; induction h as [|h IH]; intros lo hi [bf n cs] HT Hn.
  - destruct HT as (P & -> & _). cbn [leaf_pages bf_of leaves].
    rewrite (Hn bf n) by (apply elem_of_cons; by left). by rewrite (pa_leaf _ _ _ _ P).
  - destruct HT as (P & ss & L & Hk). cbn [bf_of]. remember (S h) as h'. cbn [leaf_pages].
    rewrite (Hn bf n) by (apply elem_of_cons; by left). rewrite (pa_leaf _ _ _ _ P).
    rewrite (child_swips_links _ _ _ L), !List.flat_map_concat_map, map_map, <- List.flat_map_concat_map.
    pose proof (kids_length _ _ _ _ _ Hk) as Hlen. destruct cs as [|c0 cs]; [done|].
    change (leaves (Node bf n (c0 :: cs))) with (flat_map leaves (c0 :: cs)). subst h'.
    apply flat_map_ext_elem. intros c Hc.
    destruct (kids_elem _ _ _ _ _ _ Hk Hc) as (l & u & Hcw). eapply IH; [done|].
    intros bf' n' Hin. apply Hn. by eapply nodes_child.
Qed.

Lemma repr_entries t T H : repr t T H -> tree_entries t = kvs T.
Proof.
  intros R. unfold tree_entries, kvs. rewrite (re_root _ _ _ R), (re_height _ _ _ R), Nat2Z.id.
  f_equal. eapply leaf_pages_wf; [apply R|]. intros bf n. by apply repr_lookup with (T := T) (H := H).
Qed.
