(* ===== verification/BTreeContents.v ===== *)
(** The bindings a page B-tree holds: order, the part of one leaf, and how
    replacing a leaf changes the map. *)
From stdpp Require Import sorting gmap.
From S2P Require Import Prelude BTreeNode BTreeNodeSearch BTreeNodeSpace BTreeNodeOps BTreeNodeSplit BTreeInterface BTree BTreeShape BTreePath.
Local Open Scope Z_scope.

(** The map a tree stands for. *)
Definition tree_map (t : BTree) : kvmap := list_to_map (tree_entries t).

(** * Order *)

Definition between (lo hi : bound) (l : list (list Z * list Z)) : Prop :=
  StronglySorted key_lt l /\ Forall (fun e => in_fences lo hi e.1) l.

Lemma sorted_app (l1 l2 : list (list Z * list Z)) s :
  StronglySorted key_lt l1 -> StronglySorted key_lt l2 ->
  (forall e, e ∈ l1 -> e.1 ≤ₗ s) -> (forall e, e ∈ l2 -> s <ₗ e.1) -> StronglySorted key_lt (l1 ++ l2).
Proof.
  intros H1 H2 Hl Hr. apply StronglySorted_app. split; [|done]. intros a b Ha Hb.
  eapply lex_le_lt_trans; eauto.
Qed.

Lemma kids_between (P : bound -> bound -> tree -> Prop) lo ss cs hi :
  (forall l u c, P l u c -> between l u (kvs c)) ->
  kids P lo ss cs hi -> StronglySorted lex_lt ss ->
  (forall s, s ∈ ss -> in_fences lo hi s) -> between lo hi (flat_map kvs cs).
Proof.
  intros HP. revert lo cs; induction ss as [|s ss IH]; intros lo cs Hk Hs Hf.
  - destruct cs as [|c [|c' cs]]; simpl in Hk; [done| |destruct Hk as (m & _ & [])].
    destruct Hk as (m & Hc & ->). simpl. rewrite app_nil_r. by apply HP.
  - destruct cs as [|c cs]; [done|]. destruct Hk as (m & Hc & [-> Hk]%rseg_cons).
    inversion Hs as [|? ? Hs1 Hs2]; subst. rewrite list.Forall_forall in Hs2.
    destruct (HP _ _ _ Hc) as [C1 C2]. rewrite list.Forall_forall in C2.
    destruct (IH (Some s) cs Hk Hs1) as [K1 K2].
    { intros s' Hin. split; [intros lf [= <-]; auto|]. apply Hf, elem_of_cons. by right. }
    rewrite list.Forall_forall in K2. cbn [flat_map].
    pose proof (Hf s ltac:(apply elem_of_cons; by left)) as [F1 F2]. split.
    + eapply sorted_app; [done|done|intros e He; by apply C2|intros e He; by apply K2].
    + apply list.Forall_forall. intros e [He|He]%elem_of_app.
      * split; [apply C2; done|]. intros uf E. eapply lex_le_trans; [by apply C2|by apply F2].
      * split; [|apply K2; done]. intros lf E. eapply lex_lt_trans; [by apply F1|by apply K2].
Qed.

Lemma kvs_inner bf n c cs : kvs (Node bf n (c :: cs)) = flat_map kvs (c :: cs).
Proof. unfold kvs. rewrite <- flat_map_flat_map. done. Qed.

Lemma wf_between h lo hi T : wf h lo hi T -> between lo hi (kvs T).
Proof.
  revert lo hi T; induction h as [|h IH]; intros lo hi [bf n cs] HT.
  - destruct HT as (P & -> & _). unfold kvs. simpl. rewrite app_nil_r. split; [apply P|].
    rewrite <- (pa_lo _ _ _ _ P), <- (pa_hi _ _ _ _ P). apply P.
  - destruct HT as (P & ss & L & Hk). pose proof (kids_length _ _ _ _ _ Hk) as Hl.
    destruct cs as [|c cs]; [done|]. rewrite kvs_inner. eapply kids_between; eauto.
    + eapply links_sorted; [apply P|done].
    + intros s Hin. rewrite <- (pa_lo _ _ _ _ P), <- (pa_hi _ _ _ _ P). eapply links_fences; eauto. apply P.
Qed.

Lemma repr_sorted t T H : repr t T H -> StronglySorted key_lt (kvs T).
Proof. intros R. by destruct (wf_between _ _ _ _ (re_wf _ _ _ R)). Qed.

(** * The bindings around a hole *)

Lemma lseg_elem (P : bound -> bound -> tree -> Prop) lo ss cs m c :
  lseg P lo ss cs m -> c ∈ cs -> exists l s, P l (Some s) c /\ s ∈ ss.
Proof.
  revert lo cs; induction ss as [|s ss IH]; intros lo [|c0 cs] H Hc; simpl in *; try done;
    [by apply not_elem_of_nil in Hc|]. destruct H as [H1 H].
  apply elem_of_cons in Hc as [->|Hc]; [exists lo, s; split; [done|apply elem_of_cons; by left]|].
  destruct (IH _ _ H Hc) as (l & s' & ? & ?). exists l, s'. split; [done|]. apply elem_of_cons. by right.
Qed.

Lemma rseg_elem (P : bound -> bound -> tree -> Prop) m ss cs hi c :
  rseg P m ss cs hi -> c ∈ cs -> exists s u, P (Some s) u c /\ s ∈ ss.
Proof.
  revert m cs; induction ss as [|s ss IH]; intros m [|c0 cs] H Hc; simpl in *; try done;
    [by apply not_elem_of_nil in Hc|]. destruct H as (_ & m' & H1 & H).
  apply elem_of_cons in Hc as [->|Hc]; [exists s, m'; split; [done|apply elem_of_cons; by left]|].
  destruct (IH _ _ H Hc) as (s' & u & ? & ?). exists s', u. split; [done|]. apply elem_of_cons. by right.
Qed.

Lemma elem_of_flat_map {A B} (f : A -> list B) l y : y ∈ flat_map f l <-> exists x, x ∈ l /\ y ∈ f x.
Proof.
  rewrite list_elem_of_In, in_flat_map. split; intros (x & H1 & H2); exists x; by rewrite ?list_elem_of_In in *.
Qed.

Definition ctx_lkvs (ctx : list crumb) : list (list Z * list Z) := flat_map entries (ctx_left ctx).
Definition ctx_rkvs (ctx : list crumb) : list (list Z * list Z) := flat_map entries (ctx_right ctx).

Lemma kvs_plug ctx T : kvs (plug ctx T) = ctx_lkvs ctx ++ kvs T ++ ctx_rkvs ctx.
Proof. unfold kvs, ctx_lkvs, ctx_rkvs. by rewrite leaves_plug, !flat_map_app. Qed.

Lemma ctx_sides H ctx b h lo hi key :
  ctx_wf H ctx b h lo hi -> in_fences lo hi key ->
  (forall e, e ∈ ctx_lkvs ctx -> e.1 <ₗ key) /\ (forall e, e ∈ ctx_rkvs ctx -> key <ₗ e.1).
Proof.
  revert b h lo hi; induction ctx as [|k ctx IH]; intros b h lo hi Hc Hf.
  { split; intros e He; by apply not_elem_of_nil in He. }
  destruct Hc as (plo & phi & sl & sr & W & Hc).
  destruct (IH _ _ _ _ Hc (crumb_within _ _ _ _ _ _ _ _ _ _ W Hf)) as [IH1 IH2].
  destruct (crumb_separates _ _ _ _ _ _ _ _ _ _ W Hf) as [S1 S2].
  unfold ctx_lkvs, ctx_rkvs in *. simpl. rewrite !flat_map_app, !flat_map_flat_map. split.
  - intros e [He|(c & Hc1 & He)%elem_of_flat_map]%elem_of_app; [auto|].
    destruct (lseg_elem _ _ _ _ _ _ (cw_left _ _ _ _ _ _ _ _ _ W) Hc1) as (l & s & Hw & Hs).
    apply wf_between in Hw as [_ Hw]. rewrite list.Forall_forall in Hw.
    eapply lex_le_lt_trans; [by apply (Hw e He)|auto].
  - intros e [(c & Hc1 & He)%elem_of_flat_map|He]%elem_of_app; [|auto].
    destruct (rseg_elem _ _ _ _ _ _ (cw_right _ _ _ _ _ _ _ _ _ W) Hc1) as (s & u & Hw & Hs).
    apply wf_between in Hw as [_ Hw]. rewrite list.Forall_forall in Hw.
    eapply lex_le_lt_trans; [by apply S2|by apply (Hw e He)].
Qed.

Lemma not_in_keys (l : list (list Z * list Z)) key :
  (forall e, e ∈ l -> e.1 <> key) -> (list_to_map l : kvmap) !! key = None.
Proof. intros H. apply not_elem_of_list_to_map. intros (e & -> & He)%list_elem_of_fmap. by apply (H e). Qed.

(** The map seen from a leaf: bindings of other leaves do not interfere at the
    keys of this one. *)
Lemma map_around (l r es : list (list Z * list Z)) :
  (list_to_map (l ++ es ++ r) : kvmap) = list_to_map l ∪ (list_to_map es ∪ list_to_map r).
Proof. by rewrite !list_to_map_app. Qed.

Section around.
Context (l r : list (list Z * list Z)) (key : list Z).
Context (Hl : forall e, e ∈ l -> e.1 <ₗ key) (Hr : forall e, e ∈ r -> key <ₗ e.1).

Lemma left_none : (list_to_map l : kvmap) !! key = None.
Proof. apply not_in_keys. intros e He <-. by eapply lex_lt_irrefl, Hl. Qed.

Lemma right_none : (list_to_map r : kvmap) !! key = None.
Proof. apply not_in_keys. intros e He <-. by eapply lex_lt_irrefl, Hr. Qed.

Lemma around_lookup es : (list_to_map (l ++ es ++ r) : kvmap) !! key = (list_to_map es : kvmap) !! key.
Proof.
  rewrite map_around, lookup_union_r by apply left_none.
  rewrite lookup_union, right_none. by destruct (_ !! key).
Qed.

Lemma around_insert es es' v :
  list_to_map es' = <[key := v]> (list_to_map es : kvmap) ->
  (list_to_map (l ++ es' ++ r) : kvmap) = <[key := v]> (list_to_map (l ++ es ++ r)).
Proof.
  intros E. rewrite !map_around, E. rewrite insert_union_r by apply left_none.
  by rewrite insert_union_l.
Qed.

Lemma around_delete es es' :
  list_to_map es' = delete key (list_to_map es : kvmap) ->
  (list_to_map (l ++ es' ++ r) : kvmap) = delete key (list_to_map (l ++ es ++ r)).
Proof.
  intros E. rewrite !map_around, E, !delete_union. f_equal; [|f_equal].
  - by rewrite delete_id by apply left_none.
  - by rewrite delete_id by apply right_none.
Qed.
End around.

(** * Focus *)

(** [t] represents a tree whose leaf for [key] is page [n] in frame [bf]. *)
Record focus (t : BTree) (H : nat) (ctx : list crumb) (bf : Z) (n : BTreeNode) (lo hi : bound) (key : list Z) : Prop := Focus {
  fo_repr : repr t (plug ctx (Node bf n [])) H;
  fo_ctx : ctx_wf H ctx bf 0 lo hi;
  fo_page : page_at true lo hi n;
  fo_small : Forall small (entries n);
  fo_in : in_fences lo hi key;
  fo_key : Forall is_byte key }.

Lemma repr_focus t T H key :
  repr t T H -> Forall is_byte key ->
  exists ctx bf n lo hi, T = plug ctx (Node bf n []) /\ focus t H ctx bf n lo hi key.
Proof.
  intros R Hk. destruct (focus_leaf H [] T H None None key) as (ctx & [bf n cs] & lo & hi & E & HL & Hc & Hf);
    [done|apply R|done|]. pose proof HL as (P & -> & Hsm). change (plug [] T) with T in E. subst T.
  exists ctx, bf, n, lo, hi. done.
Qed.

Lemma focus_find t H ctx bf n lo hi key :
  focus t H ctx bf n lo hi key -> findLeafCanJump t key = Some bf /\ frames t !! bf = Some n.
Proof.
  intros [R Hc P Hs Hf Hk]. split.
  - eapply findLeaf_ctx; eauto. by split_and!.
  - exact (repr_page t ctx (Node bf n []) H R).
Qed.

Lemma focus_entries t H ctx bf n lo hi key :
  focus t H ctx bf n lo hi key -> tree_entries t = ctx_lkvs ctx ++ entries n ++ ctx_rkvs ctx.
Proof.
  intros F. rewrite (repr_entries _ _ _ (fo_repr _ _ _ _ _ _ _ _ F)), kvs_plug.
  unfold kvs at 1. simpl. by rewrite app_nil_r.
Qed.

Lemma focus_lookup t H ctx bf n lo hi key :
  focus t H ctx bf n lo hi key -> tree_map t !! key = page_map n !! key.
Proof.
  intros F. unfold tree_map. rewrite (focus_entries _ _ _ _ _ _ _ _ F).
  destruct (ctx_sides _ _ _ _ _ _ _ (fo_ctx _ _ _ _ _ _ _ _ F) (fo_in _ _ _ _ _ _ _ _ F)).
  by apply around_lookup.
Qed.

(** A leaf replaced by another page with the same bounds. *)
Lemma repr_set_page t H ctx bf n cs h lo hi n' :
  repr t (plug ctx (Node bf n cs)) H -> ctx_wf H ctx bf h lo hi -> wf h lo hi (Node bf n' cs) ->
  repr (set_page t bf n') (plug ctx (Node bf n' cs)) H.
Proof.
  intros R Hc Hw. pose proof (nodes_plug ctx (Node bf n cs)) as E1.
  pose proof (nodes_plug ctx (Node bf n' cs)) as E2. simpl in E1, E2.
  assert ((nodes (plug ctx (Node bf n' cs))).*1 ≡ₚ (nodes (plug ctx (Node bf n cs))).*1) as E3
    by (rewrite E1, E2; done).
  pose proof (repr_NoDup _ _ _ R) as Hn.
  constructor; cbn [set_page root height frames free_list].
  - by eapply plug_wf.
  - rewrite (re_root _ _ _ R), !bf_plug. done.
  - apply R.
  - rewrite (re_frames _ _ _ R), (list_to_map_proper _ _ Hn E1).
    rewrite <- E3 in Hn. rewrite (list_to_map_proper _ _ Hn E2). simpl. by rewrite insert_insert_eq.
  - rewrite E3. apply R.
  - rewrite E3. apply R.
Qed.

Lemma focus_set_leaf t H ctx bf n lo hi key n' :
  focus t H ctx bf n lo hi key -> page_at true lo hi n' -> Forall small (entries n') ->
  focus (set_page t bf n') H ctx bf n' lo hi key.
Proof.
  intros [R Hc P Hs Hf Hk] P' Hs'. constructor; try done. by eapply repr_set_page.
Qed.
