(* ===== verification/BTreeLookup.v ===== *)
(** Lookups and in-place updates in the page B-tree, and the counting
    traversals. *)
From stdpp Require Import sorting gmap.
From S2P Require Import Prelude BTreeNode BTreeNodeSearch BTreeNodeSpace BTreeNodeOps BTreeNodeSplit BTreeInterface BTree BTreeIterator BTreeShape BTreePath BTreeContents.
Local Open Scope Z_scope.

(** * Writing through a pointer into the page *)

Section write.
Context (n : BTreeNode) (i : nat) (v : list Z).
Context (P : page_ok n) (Hi : (i < count n)%nat) (Hv : Forall is_byte v).
Context (Hlen : length v = payload_len (slot n i)).

Let n' := write_payload n i v.

Lemma write_is_byte a : is_byte (bytes n' a).
Proof.
  unfold n', write_payload, write_bytes. simpl. case_match; [|apply P].
  rewrite List.Forall_forall in Hv. by destruct (nth_in_or_default
    (Z.to_nat (a - (offset (slot n i) + Z.of_nat (key_len (slot n i))))) v 0) as [?| ->]; [auto|].
Qed.

(** Another area, or a part of one, keeps its bytes. *)
Lemma write_other off len a b j :
  areas (slot_list (count n) n) n !! j = Some (a, b) -> j <> (2 + i)%nat ->
  a <= off -> off + Z.of_nat len <= a + b ->
  read_bytes (bytes n') off len = read_bytes (bytes n) off len.
Proof.
  intros Hj Hne H1 H2. apply read_write_other. rewrite Hlen.
  assert (areas (slot_list (count n) n) n !! (2 + i)%nat = Some (slot_area (slot n i))) as Ha.
  { unfold areas. simpl. by rewrite list_lookup_fmap, lookup_slot_list. }
  destruct (ho_apart _ _ (po_heap _ P) _ _ _ _ Hj Ha Hne) as [H|H];
    unfold slot_area, slot_size in H; simpl in H; lia.
Qed.

Lemma write_slot_key j : (j < count n)%nat -> slot_key n' (slot n j) = slot_key n (slot n j).
Proof.
  intros Hj. unfold slot_key. destruct (decide (j = i)) as [->|Hne].
  - apply read_write_other. lia.
  - eapply (write_other _ _ _ _ (2 + j)); [|lia|done|].
    + unfold areas. simpl. by rewrite list_lookup_fmap, lookup_slot_list.
    + unfold slot_size. lia.
Qed.

Lemma write_slot_payload j :
  (j < count n)%nat -> slot_payload n' (slot n j) = if decide (j = i) then v else slot_payload n (slot n j).
Proof.
  intros Hj. unfold slot_payload. destruct (decide (j = i)) as [->|Hne].
  - by apply read_write_same.
  - eapply (write_other _ _ _ _ (2 + j)); [|lia| |].
    + unfold areas. simpl. by rewrite list_lookup_fmap, lookup_slot_list.
    + lia.
    + unfold slot_size. lia.
Qed.

Lemma write_fences : getLowerFenceKey n' = getLowerFenceKey n /\ getUpperFenceKey n' = getUpperFenceKey n.
Proof.
  unfold getLowerFenceKey, getUpperFenceKey, fence_bytes. simpl. split; (case_match; [done|]); f_equal.
  - eapply (write_other _ _ _ _ 0); [done|lia|simpl; lia..].
  - eapply (write_other _ _ _ _ 1); [done|lia|simpl; lia..].
Qed.

Lemma write_frame : same_frame n n'.
Proof. destruct write_fences. done. Qed.

Lemma write_entries : entries n' = <[i := (copyFullKey n i, v)]> (entries n).
Proof.
  apply list_eq. intros j. destruct (decide (j < count n)%nat) as [Hj|Hj].
  - rewrite lookup_entries by done.
    assert (entry n' j = (getPrefix n ++ slot_key n' (slot n j), slot_payload n' (slot n j))) as ->.
    { unfold entry, copyFullKey. by rewrite (same_frame_prefix n n') by apply write_frame. }
    rewrite write_slot_key, write_slot_payload by done. destruct (decide (j = i)) as [->|Hne].
    + by rewrite list_lookup_insert_eq by (by rewrite length_entries).
    + by rewrite list_lookup_insert_ne, lookup_entries by done.
  - rewrite !lookup_ge_None_2; [done|rewrite length_insert, length_entries; lia|].
    rewrite length_entries. simpl. lia.
Qed.

Lemma write_keys : (entries n').*1 = (entries n).*1.
Proof.
  rewrite write_entries, list_fmap_insert. simpl. apply list_insert_id.
  by rewrite list_lookup_fmap, lookup_entries.
Qed.

Lemma write_payload_ok :
  page_ok n' /\ same_frame n n' /\ entries n' = <[i := (copyFullKey n i, v)]> (entries n).
Proof.
  pose proof write_frame as F. pose proof write_keys as K. pose proof (po_heap _ P) as H.
  split; [|split; [done|apply write_entries]]. constructor.
  - constructor; try (by apply H).
    + apply write_is_byte.
    + apply Forall_lookup. intros j s Hs. change (slot_list (count n') n') with (slot_list (count n) n) in Hs.
      pose proof (lookup_lt_Some _ _ _ Hs) as Hj. rewrite length_slot_list in Hj.
      rewrite lookup_slot_list in Hs by done. injection Hs as <-.
      destruct (heap_slot _ n j H eq_refl Hj) as (H1 & H2 & H3). split; [done|]. split; [done|].
      by rewrite write_slot_key.
    + destruct F as (-> & -> & _). apply H.
  - pose proof (po_sorted _ P) as Hs. revert Hs K. generalize (entries n) (entries n'). clear.
    intros l l' H. revert l'. induction H as [|e l _ IH Hf]; intros [|e' l'] E; try done; [constructor|].
    rewrite !fmap_cons in E. injection E as E1 E2. constructor; [by apply IH|].
    rewrite list.Forall_forall in *. intros x Hx. rewrite E1.
    assert (x.1 ∈ l.*1) as (y & -> & Hy)%list_elem_of_fmap by (rewrite <- E2; apply list_elem_of_fmap; eauto).
    by apply Hf.
  - destruct F as (-> & -> & _). pose proof (po_fences _ P) as Hf.
    rewrite list.Forall_forall in *. intros x Hx.
    assert (x.1 ∈ (entries n).*1) as (y & -> & Hy)%list_elem_of_fmap by (rewrite <- K; apply list_elem_of_fmap; eauto).
    by apply Hf.
  - apply P.
Qed.

End write.

(** * Well-formed trees *)

Definition tree_ok (t : BTree) : Prop := exists T H, repr t T H.

Lemma focus_tree_ok t H ctx bf n lo hi key : focus t H ctx bf n lo hi key -> tree_ok t.
Proof. intros F. eexists _, H. apply F. Qed.

Lemma tree_focus t key :
  tree_ok t -> Forall is_byte key -> exists H ctx bf n lo hi, focus t H ctx bf n lo hi key.
Proof.
  intros (T & H & R) Hk. destruct (repr_focus t T H key R Hk) as (ctx & bf & n & lo & hi & _ & F). eauto 10.
Qed.

(** The leaf of a key inside its fences. *)
Lemma focus_in_page t H ctx bf n lo hi key :
  focus t H ctx bf n lo hi key -> in_fences (getLowerFenceKey n) (getUpperFenceKey n) key.
Proof. intros [R Hc P Hs Hf Hk]. by rewrite (pa_lo _ _ _ _ P), (pa_hi _ _ _ _ P). Qed.

Lemma page_at_frame leaf lo hi n n' :
  page_at leaf lo hi n -> page_ok n' -> same_frame n n' -> page_at leaf lo hi n'.
Proof. intros [P E1 E2 E3 G1 G2 O] P' (F1 & F2 & F3 & F4 & F5). constructor; congruence || done. Qed.

(** A new leaf page with other entries, seen as a map. *)
Lemma focus_set_map t H ctx bf n lo hi key n' :
  focus t H ctx bf n lo hi key -> page_ok n' -> same_frame n n' -> Forall small (entries n') ->
  let t' := set_page t bf n' in
  focus t' H ctx bf n' lo hi key /\
  (forall v, page_map n' = <[key := v]> (page_map n) -> tree_map t' = <[key := v]> (tree_map t)) /\
  (page_map n' = delete key (page_map n) -> tree_map t' = delete key (tree_map t)).
Proof.
  intros F P' Fr Hs. pose proof (page_at_frame _ _ _ _ _ (fo_page _ _ _ _ _ _ _ _ F) P' Fr) as PA.
  pose proof (focus_set_leaf _ _ _ _ _ _ _ _ _ F PA Hs) as F'. cbv zeta. split; [done|].
  destruct (ctx_sides _ _ _ _ _ _ _ (fo_ctx _ _ _ _ _ _ _ _ F) (fo_in _ _ _ _ _ _ _ _ F)).
  unfold tree_map. rewrite (focus_entries _ _ _ _ _ _ _ _ F), (focus_entries _ _ _ _ _ _ _ _ F').
  split; [intros v E; by apply around_insert|intros E; by apply around_delete].
Qed.

Lemma small_insert i e l : Forall small l -> small e -> Forall small (<[i := e]> l).
Proof. intros. by apply Forall_insert. Qed.

(** [alter] seen from the value at hand. *)
Lemma alter_insert (m : kvmap) key f v : m !! key = Some v -> alter f key m = <[key := f v]> m.
Proof.
  intros E. apply map_eq. intros k. destruct (decide (k = key)) as [->|].
  - by rewrite lookup_insert_eq, lookup_alter_eq, E.
  - by rewrite lookup_insert_ne, lookup_alter_ne.
Qed.

Lemma list_to_map_set i (l : list (list Z * list Z)) k v v' :
  NoDup l.*1 -> l !! i = Some (k, v) ->
  (list_to_map (<[i := (k, v')]> l) : kvmap) = <[k := v']> (list_to_map l).
Proof.
  intros Hn Hi. apply map_eq. intros k'. apply option_eq. intros w.
  assert ((<[i := (k, v')]> l).*1 = l.*1) as Ek.
  { rewrite list_fmap_insert. apply list_insert_id. by rewrite list_lookup_fmap, Hi. }
  rewrite <- elem_of_list_to_map by (by rewrite Ek). destruct (decide (k' = k)) as [->|Hne].
  - rewrite lookup_insert_eq. split; [|intros [= ->]; apply list_elem_of_lookup; exists i;
      apply list_lookup_insert_eq; by eapply lookup_lt_Some].
    intros [j Hj]%list_elem_of_lookup. destruct (decide (j = i)) as [->|Hji].
    + rewrite list_lookup_insert_eq in Hj by (by eapply lookup_lt_Some). congruence.
    + rewrite list_lookup_insert_ne in Hj by done. exfalso. apply Hji.
      eapply (NoDup_lookup _ _ _ k Hn); rewrite list_lookup_fmap; [by rewrite Hj|by rewrite Hi].
  - rewrite lookup_insert_ne by done. rewrite <- elem_of_list_to_map by done.
    rewrite !list_elem_of_lookup. split; intros [j Hj]; exists j;
      (destruct (decide (j = i)) as [->|Hji];
       [|by rewrite list_lookup_insert_ne in * by done]); exfalso.
    + rewrite list_lookup_insert_eq in Hj by (by eapply lookup_lt_Some). congruence.
    + congruence.
Qed.

(** Overwriting the value of a key in its leaf. *)
Lemma focus_write t H ctx bf n lo hi key i v w :
  focus t H ctx bf n lo hi key -> entries n !! i = Some (key, v) ->
  length w = length v -> Forall is_byte w ->
  let n' := write_payload n i w in
  focus (set_page t bf n') H ctx bf n' lo hi key /\
  tree_map (set_page t bf n') = <[key := w]> (tree_map t) /\ page_ok n' /\
  entries n' = <[i := (key, w)]> (entries n).
Proof.
  intros F Hi Hl Hw. pose proof (pa_ok _ _ _ _ (fo_page _ _ _ _ _ _ _ _ F)) as P.
  pose proof (lookup_lt_Some _ _ _ Hi) as Hlt. rewrite length_entries in Hlt.
  pose proof Hi as He. rewrite lookup_entries in He by done. injection He as Ek Ev.
  assert (length w = payload_len (slot n i)) as Hlen.
  { rewrite Hl, <- Ev. apply length_read_bytes. }
  destruct (write_payload_ok n i w P Hlt Hw Hlen) as (P' & Fr & Ee). rewrite Ek in Ee.
  pose proof (fo_small _ _ _ _ _ _ _ _ F) as Hs.
  destruct (focus_set_map _ _ _ _ _ _ _ _ (write_payload n i w) F P' Fr) as (F' & Hm & _).
  { rewrite Ee. apply small_insert; [done|]. rewrite Forall_lookup in Hs. specialize (Hs _ _ Hi).
    destruct Hs as [H1 H2]. split; [done|]. simpl in *. lia. }
  split; [done|]. split; [|done]. apply Hm. unfold page_map. rewrite Ee. eapply list_to_map_set; [|done].
  apply sorted_NoDup_keys, P.
Qed.

(** The leaf's search for an existing key, in terms of the map. *)
Lemma focus_search t H ctx bf n lo hi key :
  focus t H ctx bf n lo hi key ->
  (exists i v, lowerBound true n key = Some (Z.of_nat i, true) /\ (i < count n)%nat /\
     entries n !! i = Some (key, v) /\ getPayload n i = v /\ tree_map t !! key = Some v) \/
  (lowerBound true n key = Some (-1, false) /\ tree_map t !! key = None /\
     forall e, e ∈ entries n -> e.1 <> key).
Proof.
  intros F. pose proof (fo_page _ _ _ _ _ _ _ _ F) as PA. pose proof (pa_ok _ _ _ _ PA) as P.
  rewrite (focus_lookup _ _ _ _ _ _ _ _ F).
  destruct (lowerBound_true_entries n key P (fo_key _ _ _ _ _ _ _ _ F)) as [(i & E & Hi & Ek & _)|[E Hno]].
  - left. exists i, (getPayload n i). rewrite E, (pa_leaf _ _ _ _ PA).
    assert (entries n !! i = Some (key, getPayload n i)) as He by (rewrite lookup_entries by done; by rewrite <- Ek).
    do 4 (split; [done|]). apply page_map_lookup; [done|]. by eapply list_elem_of_lookup_2.
  - right. split; [done|]. assert (forall e, e ∈ entries n -> e.1 <> key) as Hn by (by apply linear_mem_false).
    split; [|done]. by apply not_in_keys.
Qed.

Lemma tree_map_bytes t k v : tree_ok t -> Forall is_byte k -> tree_map t !! k = Some v -> Forall is_byte v.
Proof.
  intros Ht Hk E. destruct (tree_focus t k Ht Hk) as (H & ctx & bf & n & lo & hi & F).
  pose proof (pa_ok _ _ _ _ (fo_page _ _ _ _ _ _ _ _ F)) as P.
  rewrite (focus_lookup _ _ _ _ _ _ _ _ F) in E. apply page_map_lookup in E; [|done].
  pose proof (entries_bytes n (po_heap _ P)) as Hb. rewrite list.Forall_forall in Hb. by apply (Hb _ E).
Qed.

(** * lookup, updateSameSize *)

Lemma ll_lookup_ok {A} t key (cb : list Z -> list Z * A) :
  tree_ok t -> Forall is_byte key -> same_size_at (tree_map t !! key) cb ->
  exists t', ll_lookup t key cb = Some (t', (fun v => (cb v).2) <$> tree_map t !! key) /\
    tree_ok t' /\ tree_map t' = alter (fun v => (cb v).1) key (tree_map t).
Proof.
  intros Ht Hk Hcb. destruct (tree_focus t key Ht Hk) as (H & ctx & bf & n & lo & hi & F).
  destruct (focus_find _ _ _ _ _ _ _ _ F) as [Ef En]. unfold ll_lookup. rewrite Ef. cbn [mbind option_bind].
  rewrite En. cbn [mbind option_bind].
  destruct (focus_search _ _ _ _ _ _ _ _ F) as [(i & v & E & Hi & He & Ev & Em)|(E & Em & _)];
    rewrite E; cbn [mbind option_bind].
  - rewrite (proj2 (Z.eqb_neq _ _)) by lia. rewrite Nat2Z.id, Ev, Em.
    destruct (Hcb v Em (tree_map_bytes _ _ _ Ht Hk Em)) as [Hl Hb].
    destruct (focus_write _ _ _ _ _ _ _ _ i v (cb v).1 F He Hl Hb) as (F' & Hm & _).
    exists (set_page t bf (write_payload n i (cb v).1)). split; [simpl; clear; by destruct (cb v)|].
    split; [by eapply focus_tree_ok|]. rewrite Hm. symmetry.
    by apply alter_insert with (f := fun v => (cb v).1).
  - rewrite Em. exists t. split; [done|]. split; [done|]. symmetry. by apply alter_id'.
Qed.
