(* ===== verification/BTreeSplit.v ===== *)
(** Page splits in the tree: [trySplit] keeps the tree well formed and its
    bindings, whether it splits the page itself, the root, or a full ancestor
    first. *)
From stdpp Require Import sorting gmap.
From S2P Require Import Prelude BTreeNode BTreeNodeSearch BTreeNodeSpace BTreeNodeOps BTreeNodeSplit BTreeInterface BTree BTreeIterator BTreeShape BTreePath BTreeContents BTreeLookup.
Local Open Scope Z_scope.

(** * Splitting one page *)

(** A cut the page can take: behind slot [s] of a leaf, at slot [s] of an
    inner page. *)
Definition cut (n : BTreeNode) (s : nat) (sep : list Z) : Prop :=
  sep <> [] /\
  if is_leaf n then cut_at n s sep /\ cut_room n s sep
  else (s + 1 < count n)%nat /\ sep = copyFullKey n s.

(** The first slot of the right half. *)
Definition cut_end (n : BTreeNode) (s : nat) : nat := if is_leaf n then (s + 1)%nat else s.

Section segments.
Context (P : bound -> bound -> tree -> Prop).

Lemma kids_split lo sl sep sr csl csr hi :
  length csl = S (length sl) -> kids P lo (sl ++ sep :: sr) (csl ++ csr) hi ->
  kids P lo sl csl (Some sep) /\ kids P (Some sep) sr csr hi.
Proof.
  revert lo csl; induction sl as [|s sl IH]; intros lo [|c csl] Hl Hk; simpl in Hl; try lia.
  - destruct csl; [|simpl in Hl; lia]. destruct Hk as (m & Hc & [-> Hk]%rseg_cons). split; [|done].
    exists (Some sep). done.
  - destruct Hk as (m & Hc & [-> Hk]%rseg_cons). destruct (IH (Some s) csl) as [H1 H2]; [lia|done|].
    split; [|done]. exists (Some s). split; [done|]. by apply rseg_cons.
Qed.
End segments.

Lemma zip_split {A B C} (f : A -> B -> C) l1 l2 k1 k2 :
  length l1 = length k1 -> zip_with f (l1 ++ l2) (k1 ++ k2) = zip_with f l1 k1 ++ zip_with f l2 k2.
Proof. apply zip_with_app. Qed.

Lemma zip_extra {A B C} (f : A -> B -> C) l k k' :
  length l = length k -> zip_with f l (k ++ k') = zip_with f l k.
Proof. revert k; induction l as [|a l IH]; intros [|b k] H; simpl in *; try done. f_equal. apply IH. lia. Qed.

(** The two halves of an inner page keep their part of the links. *)
Lemma links_cut n sl sep sr bl b br l r :
  links n (sl ++ sep :: sr) (bl ++ b :: br) -> length sl = length bl ->
  entries l = take (length sl) (entries n) -> upper l = getChild n (length sl) ->
  entries r = drop (length sl + 1) (entries n) -> upper r = upper n ->
  links l sl (bl ++ [b]) /\ links r sr br.
Proof.
  intros L Hlen El Ul Er Ur. pose proof L as [Ee Eu Hl Ha].
  rewrite zip_split in Ee by done. cbn [zip_with] in Ee.
  assert (length (zip_with (fun s b => (s, to_le sizeof_SwipType b)) sl bl) = length sl) as Hz
    by (rewrite length_zip_with_l; lia).
  rewrite Ee in El, Er. rewrite !length_app in Hl. simpl in Hl.
  assert ((bl ++ b :: br) !! length sl = Some b) as Hb.
  { rewrite Hlen, lookup_app_r by lia. by rewrite Nat.sub_diag. }
  destruct (links_child _ _ _ _ _ L Hb) as [[_ Hch]|[Hx _]]; [|rewrite length_app in Hx; simpl in Hx; lia].
  apply Forall_app in Ha as [Ha1 Ha2]. apply list.Forall_cons in Ha2 as [Hb1 Hb2]. split; constructor.
  - rewrite El, zip_extra by done. apply take_app_length'. symmetry. exact Hz.
  - by rewrite last_snoc, Ul, Hch.
  - rewrite length_app. simpl. lia.
  - apply Forall_app. split; [done|by constructor].
  - rewrite Er. rewrite Nat.add_1_r, drop_app_ge by lia. by replace (S (length sl) - _)%nat with 1%nat by lia.
  - rewrite Ur. rewrite <- Eu. destruct br as [|b' br]; [simpl in Hl; lia|].
    by rewrite last_app_cons.
  - lia.
  - done.
Qed.

Lemma cut_between h lo hi bf n cs s sep :
  wf h lo hi (Node bf n cs) -> cut n s sep ->
  in_fences lo hi sep /\ (forall u, hi = Some u -> sep <ₗ u) /\ Forall is_byte sep /\ (s + 1 < count n)%nat.
Proof.
  intros HT [_ C]. destruct (wf_page _ _ _ _ HT) as [leaf PA]. simpl in PA. pose proof (pa_ok _ _ _ _ PA) as P.
  rewrite <- (pa_lo _ _ _ _ PA), <- (pa_hi _ _ _ _ PA).
  destruct (is_leaf n).
  - destruct C as [C _]. split; [by eapply cut_fences|]. destruct C as (Hs & Hb & _ & S2 & _). split; [|done].
    intros u E. eapply lex_lt_le_trans; [exact S2|]. by apply (copyFullKey_fences n (s + 1) P Hs).
  - destruct C as [Hs ->]. split; [apply copyFullKey_fences; [done|lia]|]. split; [|split; [|done]].
    + intros u E. eapply lex_lt_le_trans; [apply (copyFullKey_lt n s (s + 1) P); lia|].
      by apply (copyFullKey_fences n (s + 1) P Hs).
    + apply Forall_app. split; [eapply getPrefix_bytes, P|apply read_bytes_is_byte, (po_heap _ P)].
Qed.

(** The halves of the subtree below the page that is cut. *)
Record halves (h : nat) (lo hi : bound) (n : BTreeNode) (s : nat) (sep : list Z)
    (T L R : tree) : Prop := Halves {
  hv_left : wf h lo (Some sep) L;
  hv_right : wf h (Some sep) hi R;
  hv_kvs : kvs T = kvs L ++ kvs R;
  hv_nodes : (bf_of T, n) :: nodes L ++ nodes R ≡ₚ
               (bf_of L, node_of L) :: (bf_of R, node_of R) :: nodes T;
  hv_bf : bf_of R = bf_of T;
  hv_lentries : entries (node_of L) = take (cut_end n s) (entries n);
  hv_rentries : entries (node_of R) = drop (s + 1) (entries n);
  hv_children : forall bf n' cl T' cr, T = Node bf n' (cl ++ T' :: cr) ->
    (exists bl nl cr1 cr2, L = Node bl nl (cl ++ T' :: cr1) /\ cr = cr1 ++ cr2) \/
    (exists br nr cl1 cl2, R = Node br nr (cl2 ++ T' :: cr) /\ cl = cl1 ++ cl2) }.

Lemma child_side {A} (cl cr csl csr : list A) x :
  cl ++ x :: cr = csl ++ csr ->
  (exists cr1, csl = cl ++ x :: cr1 /\ cr = cr1 ++ csr) \/ (exists cl2, csr = cl2 ++ x :: cr /\ cl = csl ++ cl2).
Proof.
  revert csl; induction cl as [|a cl IH]; intros [|b csl] E; simpl in *.
  - right. exists []. done.
  - left. injection E as -> ->. by exists csl.
  - right. exists (a :: cl). done.
  - injection E as -> E. destruct (IH _ E) as [(cr1 & -> & ->)|(cl2 & -> & ->)]; [left|right]; eauto.
Qed.

Lemma kvs_leaf bf n : kvs (Node bf n []) = entries n.
Proof. unfold kvs. simpl. by rewrite app_nil_r. Qed.

Lemma sep_good h lo hi bf n cs s sep :
  wf h lo hi (Node bf n cs) -> cut n s sep -> fence_good (Some sep).
Proof.
  intros HT C k [= <-]. split; [apply C|]. pose proof (cut_between _ _ _ _ _ _ _ _ HT C) as (_ & _ & _ & Hs).
  destruct C as [_ C]. destruct h as [|h].
  - destruct HT as (PA & _ & Hsm). rewrite (pa_leaf _ _ _ _ PA) in C. destruct C as [(_ & _ & _ & _ & Hl) _].
    etrans; [exact Hl|]. rewrite Forall_lookup in Hsm.
    destruct (Hsm s _ (lookup_entries n s ltac:(lia))) as [Hk _]. etrans; [|exact Hk].
    simpl. unfold copyFullKey. rewrite length_app, (page_prefix_ok n (pa_ok _ _ _ _ PA)), length_getKey. done.
  - destruct HT as (PA & ss & L & Hk). rewrite (pa_leaf _ _ _ _ PA) in C. destruct C as [_ ->].
    assert (ss !! s = Some (copyFullKey n s)) as Hx.
    { rewrite <- (links_keys _ _ _ L), list_lookup_fmap, lookup_entries by lia. done. }
    rewrite <- (take_drop_middle ss s _ Hx) in Hk. pose proof (kids_length _ _ _ _ _ Hk) as Hlen.
    rewrite length_app in Hlen. simpl in Hlen.
    rewrite <- (take_drop (S (length (take s ss))) cs) in Hk.
    apply kids_split in Hk as [_ Hk]; [|rewrite length_take; lia].
    destruct (drop _ cs) as [|c cr]; [done|]. destruct Hk as (m & Hc & _). apply wf_page in Hc as [lf Hc].
    by apply (pa_good_lo _ _ _ _ Hc).
Qed.

Lemma page_at_new leaf lo hi n :
  page_ok n -> is_leaf n = leaf -> getLowerFenceKey n = lo -> getUpperFenceKey n = hi ->
  fence_good lo -> fence_good hi -> (forall l u, lo = Some l -> hi = Some u -> l <ₗ u) ->
  page_at leaf lo hi n.
Proof. by constructor. Qed.

Lemma node_split h lo hi bf n cs newb s sep parent :
  wf h lo hi (Node bf n cs) -> cut n s sep -> parent_ready parent sep ->
  exists p' l r csl csr,
    split n parent (new_node (is_leaf n)) newb s sep = Some (p', l, r) /\
    parent_gains parent p' sep newb /\
    halves h lo hi n s sep (Node bf n cs) (Node newb l csl) (Node bf r csr).
Proof.
  intros HT C Hr. pose proof (cut_between _ _ _ _ _ _ _ _ HT C) as (Hf & Hu & Hb & Hs).
  pose proof (sep_good _ _ _ _ _ _ _ _ HT C) as Hg. destruct C as [Hne C].
  assert (forall l u, lo = Some l -> Some sep = Some u -> l <ₗ u) as O1
    by (intros l u E [= <-]; by apply Hf).
  assert (forall l u, Some sep = Some l -> hi = Some u -> l <ₗ u) as O2 by (intros l u [= <-]; by apply Hu).
  destruct h as [|h].
  - destruct HT as (PA & -> & Hsm). pose proof PA as [P El E1 E2 G1 G2 _]. rewrite El in C. destruct C as [C1 C2].
    destruct (split_leaf_at n parent newb s sep P El C1 C2 Hr)
      as (p' & l & r & E & G & L1 & R1 & L2 & R2 & F1 & F2 & F3 & F4 & Ll & Lr).
    exists p', l, r, [], []. split; [done|]. split; [done|]. constructor; simpl; try done.
    + split; [apply page_at_new; congruence || done|]. split; [done|]. rewrite Ll. by apply Forall_take.
    + split; [apply page_at_new; congruence || done|]. split; [done|]. rewrite Lr. by apply Forall_drop.
    + rewrite !kvs_leaf. by rewrite Ll, Lr, take_drop.
    + solve_Permutation.
    + unfold cut_end. by rewrite El.
    + intros b0 n0 cl T' cr [= _ _ Ex]. by destruct cl.
  - destruct HT as (PA & ss & L & Hk). pose proof PA as [P El E1 E2 G1 G2 _]. rewrite El in C. destruct C as [_ ->].
    destruct (split_inner_at n parent newb s P El Hs Hr)
      as (p' & l & r & E & G & L1 & R1 & L2 & R2 & F1 & F2 & F3 & F4 & Ll & Lr & U1 & U2).
    set (sep := copyFullKey n s) in *.
    assert (ss !! s = Some sep) as Hx.
    { rewrite <- (links_keys _ _ _ L), list_lookup_fmap, lookup_entries by lia. done. }
    pose proof (lookup_lt_Some _ _ _ Hx) as Hlt. rewrite <- (take_drop_middle ss s _ Hx) in Hk, L.
    pose proof (kids_length _ _ _ _ _ Hk) as Hlen. rewrite length_app, length_take in Hlen. simpl in Hlen.
    rewrite length_drop in Hlen.
    destruct (lookup_lt_is_Some_2 cs s ltac:(lia)) as [c Hc].
    rewrite <- (take_drop_middle cs s c Hc) in Hk, L |- *.
    set (csl := take s cs) in *. set (csr := drop (S s) cs) in *.
    assert (length (take s ss) = s) as Hts by (rewrite length_take; lia).
    assert (length csl = s) as Hcl by (unfold csl; rewrite length_take; lia).
    rewrite map_app in L. cbn [map] in L.
    destruct (links_cut n (take s ss) sep (drop (S s) ss) (map bf_of csl) (bf_of c) (map bf_of csr) l r) as [Kl Kr];
      [done|by rewrite length_map, Hts, Hcl|by rewrite Hts|by rewrite Hts|by rewrite Hts|done|].
    replace (csl ++ c :: csr) with ((csl ++ [c]) ++ csr) in Hk |- * by (by rewrite <- app_assoc).
    apply kids_split in Hk as [Hk1 Hk2]; [|rewrite length_app, Hcl, Hts; simpl; lia].
    exists p', l, r, (csl ++ [c]), csr. split; [done|]. split; [done|]. constructor; simpl; try done.
    + split; [apply page_at_new; congruence || done|]. exists (take s ss). split; [|done].
      by rewrite map_app.
    + split; [apply page_at_new; congruence || done|]. exists (drop (S s) ss). done.
    + destruct csr as [|c' csr]; [done|]. unfold kvs. simpl.
      assert (csl ++ [c] <> []) as Hnn by (by destruct csl).
      destruct (csl ++ [c]) as [|c0 cs0] eqn:E0; [done|]. simpl. rewrite !flat_map_app, <- !app_assoc. simpl.
      by rewrite !flat_map_app.
    + rewrite !flat_map_app. simpl. solve_Permutation.
    + rewrite Ll. unfold cut_end. by rewrite El.
    + intros b0 n0 cl T' cr [= -> -> Ex]. symmetry in Ex.
      destruct (child_side _ _ _ _ _ Ex) as [(cr1 & -> & ->)|(cl2 & -> & ->)]; [left|right]; eauto 10.
Qed.

(** * The parent *)

(** The separator goes between its neighbours, with the left swip before the
    old one. *)
Lemma links_gain n n0 n' sl sr bl b br sep newb :
  links n (sl ++ sr) (bl ++ b :: br) -> length sl = length bl ->
  (forall s, s ∈ sl -> s <ₗ sep) -> (forall s, s ∈ sr -> sep <ₗ s) -> page_ok n ->
  entries n0 = entries n -> upper n0 = upper n -> addr_ok newb ->
  parent_gains n0 n' sep newb ->
  links n' (sl ++ sep :: sr) (bl ++ newb :: b :: br).
Proof.
  intros L Hlen Hl Hr P E0 U0 Ha (P' & F & pos & Ee). pose proof L as [En Eu Hn Had].
  rewrite E0 in Ee. rewrite zip_split in En by done.
  set (zl := zip_with _ sl bl) in *. set (zr := zip_with _ sr (b :: br)) in *.
  assert (entries n' = zl ++ (sep, to_le sizeof_SwipType newb) :: zr) as E.
  { assert (length zl = length sl) as Hz by (unfold zl; rewrite length_zip_with_l; lia).
    apply sorted_unique; [apply P'| |].
    - pose proof (sorted_insert (entries n) (length sl) sep (to_le sizeof_SwipType newb) (po_sorted _ P)) as Hs.
      rewrite En, <- Hz, take_app_length, drop_app_length in Hs. apply Hs.
      + intros e He. apply Hl. unfold zl in He.
        apply elem_of_lookup_zip_with_1 in He as (i & x & y & -> & Hx & _). by eapply list_elem_of_lookup_2.
      + intros e He. apply Hr. unfold zr in He.
        apply elem_of_lookup_zip_with_1 in He as (i & x & y & -> & Hx & _). by eapply list_elem_of_lookup_2.
    - intros e. rewrite Ee. rewrite !elem_of_app, !elem_of_cons.
      assert (e ∈ zl \/ e ∈ zr <-> e ∈ take pos (entries n) \/ e ∈ drop pos (entries n)) as Hx.
      { rewrite <- !elem_of_app, take_drop, En. done. }
      tauto. }
  apply Forall_app in Had as [Ha1 Ha2]. constructor.
  - rewrite E, zip_split by done. done.
  - destruct F as (_ & _ & _ & -> & _). rewrite U0, <- Eu, !last_app_cons. done.
  - rewrite !length_app in *. simpl in *. lia.
  - apply Forall_app. split; [done|by constructor].
Qed.

(** The parent above the two halves. *)
Lemma crumb_split k h lo hi plo phi sl sr n s sep T L R p0 p' :
  crumb_wf k (bf_of T) h lo hi plo phi sl sr -> halves h lo hi n s sep T L R ->
  in_fences lo hi sep -> (forall u, hi = Some u -> sep <ₗ u) -> addr_ok (bf_of L) ->
  same_frame (cn k) p0 -> entries p0 = entries (cn k) -> parent_gains p0 p' sep (bf_of L) ->
  wf (S h) plo phi (Node (cb k) p' (cl k ++ L :: R :: cr k)).
Proof.
  intros W Hv Hf Hu Ha Fr E0 G. destruct (crumb_separates _ _ _ _ _ _ _ _ _ _ W Hf) as [S1 S2].
  destruct W as [PA Lk Hl Hr]. pose proof (lseg_length _ _ _ _ _ Hl) as Hlen.
  assert (forall s, s ∈ sr -> sep <ₗ s) as S2'.
  { intros x Hx. pose proof (rseg_head _ _ _ _ _ Hr) as Eh. destruct sr as [|s0 sr]; [by apply not_elem_of_nil in Hx|].
    pose proof (links_sorted _ _ _ (pa_ok _ _ _ _ PA) Lk) as Hs. apply StronglySorted_app in Hs as (_ & _ & Hs).
    apply elem_of_cons in Hx as [->|Hx]; [by apply Hu|]. inversion Hs as [|? ? _ Hs2]; subst.
    eapply lex_lt_trans; [by apply Hu|]. rewrite list.Forall_forall in Hs2. by apply Hs2. }
  assert (page_at false plo phi p') as PA'.
  { destruct G as (G1 & G2 & _). eapply page_at_frame; [exact PA|done|by etrans]. }
  cbn [wf]. split; [done|]. exists (sl ++ sep :: sr). split.
  - rewrite map_app. cbn [map]. rewrite (hv_bf _ _ _ _ _ _ _ _ _ Hv).
    eapply links_gain; try done; [by rewrite length_map|apply PA|by destruct Fr as (_ & _ & _ & -> & _)].
  - apply (kids_focus _ _ sl (sep :: sr)); [done|]. exists lo, (Some sep). split; [done|].
    split; [apply Hv|]. cbn [rseg]. split; [done|]. exists hi. split; [apply Hv|done].
Qed.

(** A child of a well-formed subtree, with the rest as its crumb. *)
Lemma crumb_of_wf h lo hi plo phi b n cl T cr :
  wf (S h) plo phi (Node b n (cl ++ T :: cr)) -> wf h lo hi T ->
  exists sl sr, crumb_wf (mkCrumb b n cl cr) (bf_of T) h lo hi plo phi sl sr.
Proof.
  intros (PA & ss & L & Hk) HT. pose proof (kids_length _ _ _ _ _ Hk) as Hlen.
  rewrite length_app in Hlen. simpl in Hlen.
  rewrite <- (take_drop (length cl) ss) in Hk, L.
  apply kids_focus in Hk as (m1 & m2 & H1 & H2 & H3); [|rewrite length_take; lia].
  destruct (wf_fences _ _ _ _ HT) as [<- <-]. destruct (wf_fences _ _ _ _ H2) as [-> ->].
  exists (take (length cl) ss), (drop (length cl) ss). constructor; try done. by rewrite map_app in L.
Qed.

(** * Represented states *)

(** The tree after the page of [T] was cut: both halves in their contexts. *)
Record split_at (t : BTree) (ctx : list crumb) (T : tree) (h : nat) (lo hi : bound) (n : BTreeNode)
    (s : nat) (sep : list Z) (t' : BTree) (H' : nat) (ctxL ctxR : list crumb) (L R : tree) : Prop := SplitAt {
  sa_repr : repr t' (plug ctxL L) H';
  sa_same : plug ctxL L = plug ctxR R;
  sa_left : ctx_wf H' ctxL (bf_of L) h lo (Some sep);
  sa_right : ctx_wf H' ctxR (bf_of R) h (Some sep) hi;
  sa_halves : halves h lo hi n s sep T L R;
  sa_kvs : kvs (plug ctxL L) = kvs (plug ctx T);
  sa_frames : (length (free_list t') < length (free_list t) <= 2 + length (free_list t'))%nat;
  sa_height : (length ctxL <= Nat.max 1 (length ctx))%nat /\ length ctxR = length ctxL }.

Lemma frames_perm t T H l : repr t T H -> nodes T ≡ₚ l -> frames t = list_to_map l /\ NoDup l.*1.
Proof.
  intros R E. pose proof (repr_NoDup _ _ _ R) as Hn. rewrite (re_frames _ _ _ R). split.
  - by apply list_to_map_proper.
  - by rewrite <- E.
Qed.

(** Three frames of a map written over. *)
Lemma write_frames (m : gmap Z BTreeNode) a b c xa xb xc ya yb0 yb :
  a <> b -> a <> c -> b <> c ->
  <[a := ya]> (<[c := xc]> (<[b := yb]> (<[c := yb0]> (<[a := xa]> (<[b := xb]> m))))) =
  <[c := xc]> (<[a := ya]> (<[b := yb]> m)).
Proof.
  intros Hab Hac Hbc. apply map_eq. intros i.
  destruct (decide (i = a)) as [->|]; [by simplify_map_eq|].
  destruct (decide (i = b)) as [->|]; [by simplify_map_eq|].
  destruct (decide (i = c)) as [->|]; by simplify_map_eq.
Qed.

Lemma plug_nodes_split k ctx h lo hi n s sep T L R p' :
  halves h lo hi n s sep T L R ->
  (bf_of T, n) :: (cb k, cn k) :: nodes (plug ctx (Node (cb k) p' (cl k ++ L :: R :: cr k))) ≡ₚ
  (bf_of L, node_of L) :: (bf_of R, node_of R) :: (cb k, p') :: nodes (plug (k :: ctx) T).
Proof.
  intros Hv. pose proof (hv_nodes _ _ _ _ _ _ _ _ _ Hv) as E.
  rewrite !nodes_plug. simpl. rewrite !flat_map_app. simpl. unfold crumb_nodes.
  transitivity ((cb k, cn k) :: (cb k, p') :: ((bf_of T, n) :: nodes L ++ nodes R) ++
    flat_map nodes (cl k) ++ flat_map nodes (cr k) ++ ctx_nodes ctx); [solve_Permutation|].
  rewrite E. solve_Permutation.
Qed.

Lemma repr_child_split t H k ctx bf n cs h lo hi plo phi sl sr s sep newb l r csl csr fl p' :
  let T := Node bf n cs in
  let L := Node newb l csl in
  let R := Node bf r csr in
  repr t (plug (k :: ctx) T) H -> free_list t = newb :: fl ->
  crumb_wf k bf h lo hi plo phi sl sr -> ctx_wf H ctx (cb k) (S h) plo phi ->
  halves h lo hi n s sep T L R ->
  wf (S h) plo phi (Node (cb k) p' (cl k ++ L :: R :: cr k)) ->
  repr (set_page (set_page (set_page
    (mkBTree (<[newb := new_node true]> (frames t)) fl (root t) (height t)) (cb k) p') newb l) bf r)
    (plug ctx (Node (cb k) p' (cl k ++ L :: R :: cr k))) H.
Proof.
  intros T L R Rp Efl W Hc Hv Hw.
  set (rest := flat_map nodes cs ++ (flat_map nodes (cl k) ++ flat_map nodes (cr k)) ++ ctx_nodes ctx).
  assert (nodes (plug (k :: ctx) T) ≡ₚ (bf, n) :: (cb k, cn k) :: rest) as E1.
  { rewrite nodes_plug. simpl. unfold rest, crumb_nodes. solve_Permutation. }
  set (T' := plug ctx _). assert (nodes T' ≡ₚ (newb, l) :: (bf, r) :: (cb k, p') :: rest) as E2.
  { pose proof (plug_nodes_split k ctx _ _ _ _ _ _ _ _ _ p' Hv) as E. fold T' in E. rewrite E1 in E. simpl in E.
    apply (Permutation_cons_inv (a := (cb k, cn k))), (Permutation_cons_inv (a := (bf, n))).
    etrans; [exact E|]. solve_Permutation. }
  destruct (frames_perm _ _ _ _ Rp E1) as [Ef Hn].
  pose proof (re_nodup _ _ _ Rp) as Hnd. rewrite Efl, E1 in Hnd. simpl in Hnd.
  pose proof (re_addr _ _ _ Rp) as Had. rewrite Efl, E1 in Had. simpl in Had.
  assert (newb ∉ [bf; cb k]) as Hnb.
  { apply list.NoDup_cons in Hnd as [Hx _]. intros Hin. apply Hx, elem_of_app. right.
    apply elem_of_cons in Hin as [->|Hin%list_elem_of_singleton]; [apply elem_of_cons; by left|].
    apply elem_of_cons. right. apply elem_of_cons. by left. }
  assert (bf <> cb k) as Hbk.
  { simpl in Hn. apply list.NoDup_cons in Hn as [Hx _]. intros ->. apply Hx, elem_of_cons. by left. }
  apply not_elem_of_cons in Hnb as [Hb1 Hb2]. apply not_elem_of_cons in Hb2 as [Hb2 _].
  assert (NoDup (fl ++ (nodes T').*1)) as Hnd'.
  { rewrite E2. simpl. by rewrite <- Permutation_middle. }
  constructor; cbn [set_page root height frames free_list].
  - eapply plug_wf; [|exact Hw]. done.
  - rewrite (re_root _ _ _ Rp). unfold T'. rewrite !bf_plug, last_cons. by destruct (list.last ctx).
  - apply Rp.
  - apply list.NoDup_app in Hnd' as (_ & _ & Hn'). rewrite Ef, (list_to_map_proper _ _ Hn' E2). simpl.
    apply write_frames; done.
  - done.
  - rewrite E2. simpl. by rewrite <- Permutation_middle.
Qed.

(** ** A new root *)

Definition new_root (bf : Z) : BTreeNode := set_upper (new_node false) bf.

Lemma new_root_wf h n s sep T L R p' :
  halves h None None n s sep T L R -> addr_ok (bf_of L) -> addr_ok (bf_of R) ->
  parent_gains (new_root (bf_of R)) p' sep (bf_of L) ->
  forall nr, wf (S h) None None (Node nr p' [L; R]).
Proof.
  intros Hv Ha1 Ha2 (P' & (F1 & F2 & _ & F4 & F5) & pos & Ee) nr.
  change (entries (new_root (bf_of R))) with (@nil (list Z * list Z)) in Ee. rewrite take_nil, drop_nil in Ee.
  cbn [wf]. split; [by apply page_at_new|]. exists [sep]. split.
  - constructor; cbn [map]; [done|by rewrite F4|done|].
    apply list.Forall_cons. split; [done|]. apply list.Forall_cons. split; [done|constructor].
  - exists (Some sep). split; [apply Hv|]. cbn [rseg]. split; [done|]. exists None. split; [apply Hv|done].
Qed.

Lemma write_root_frames (m : gmap Z BTreeNode) a b c x xb0 xb xc0 xc y :
  a <> b -> a <> c -> b <> c ->
  <[a := y]> (<[c := xc]> (<[b := xb]> (<[c := xc0]> (<[b := xb0]> (<[a := x]> m))))) =
  <[b := xb]> (<[c := xc]> (<[a := y]> m)).
Proof.
  intros Hab Hac Hbc. apply map_eq. intros i.
  destruct (decide (i = a)) as [->|]; [by simplify_map_eq|].
  destruct (decide (i = b)) as [->|]; [by simplify_map_eq|].
  destruct (decide (i = c)) as [->|]; by simplify_map_eq.
Qed.

Lemma repr_root_split t H bf n cs s sep nr nl l r csl csr fl p' :
  let T := Node bf n cs in
  let L := Node nl l csl in
  let R := Node bf r csr in
  repr t T H -> free_list t = nr :: nl :: fl -> halves H None None n s sep T L R ->
  wf (S H) None None (Node nr p' [L; R]) ->
  repr (set_root (set_page (set_page (set_page
    (mkBTree (<[nl := new_node true]> (<[nr := new_node false]> (frames t))) fl (root t) (height t)) nr p') nl l) bf r)
    nr (height t + 1)) (Node nr p' [L; R]) (S H).
Proof.
  intros T L R Rp Efl Hv Hw.
  assert (nodes (Node nr p' [L; R]) ≡ₚ (nr, p') :: (nl, l) :: (bf, r) :: flat_map nodes cs) as E2.
  { pose proof (hv_nodes _ _ _ _ _ _ _ _ _ Hv) as E. simpl in E |- *. rewrite app_nil_r. constructor.
    apply (Permutation_cons_inv (a := (bf, n))). etrans; [exact E|]. solve_Permutation. }
  destruct (frames_perm _ _ _ _ Rp (reflexivity _)) as [Ef Hn]. simpl in Ef, Hn.
  pose proof (re_nodup _ _ _ Rp) as Hnd. rewrite Efl in Hnd. simpl in Hnd.
  pose proof (re_addr _ _ _ Rp) as Had. rewrite Efl in Had. simpl in Had.
  pose proof Hnd as [Hx1 [Hx2 _]%list.NoDup_cons]%list.NoDup_cons.
  apply not_elem_of_cons in Hx1 as [H1 Hx1]. apply not_elem_of_app in Hx1 as [_ Hx1].
  apply not_elem_of_cons in Hx1 as [H2 _]. apply not_elem_of_app in Hx2 as [_ Hx2].
  apply not_elem_of_cons in Hx2 as [H3 _].
  assert (NoDup (fl ++ (nodes (Node nr p' [L; R])).*1)) as Hnd'.
  { rewrite E2. cbn [fmap list_fmap fst]. by rewrite <- !Permutation_middle, Permutation_middle. }
  constructor; cbn [set_page set_root root height frames free_list].
  - done.
  - done.
  - rewrite (re_height _ _ _ Rp). lia.
  - apply list.NoDup_app in Hnd' as (_ & _ & Hn'). rewrite Ef, (list_to_map_proper _ _ Hn' E2). simpl.
    apply write_root_frames; done.
  - done.
  - rewrite E2. cbn [fmap list_fmap fst]. by rewrite <- !Permutation_middle, Permutation_middle.
Qed.

(** * The two ways to split *)

Lemma cut_small h lo hi bf n cs s sep :
  wf h lo hi (Node bf n cs) -> cut n s sep -> (length sep <= max_key)%nat.
Proof. intros HT C. by apply (sep_good _ _ _ _ _ _ _ _ HT C sep eq_refl). Qed.

Lemma set_upper_ok n u : page_ok n -> page_ok (set_upper n u).
Proof. intros [H1 H2 H3 H4]. constructor; [by eapply heap_ok_ext|done|done|done]. Qed.

Lemma root_ready bf sep :
  (length sep <= max_key)%nat -> parent_ready (new_root bf) sep.
Proof.
  intros Hl. pose proof (set_upper_ok _ bf (new_node_ok false)) as P. fold (new_root bf) in P.
  unfold max_key in Hl. split; [done|]. split; [by apply no_fence_in|].
  split; [intros e He; by apply not_elem_of_nil in He|].
  split; [unfold sizeof_Slot, sizeof_SwipType; lia|]. unfold canInsert, hasEnoughSpaceFor.
  rewrite freeSpace_eq, spaceNeeded_eq by (done || (unfold sizeof_Slot, sizeof_SwipType; simpl; lia)).
  apply orb_true_iff. left. apply Z.leb_le. change (data_offset (new_root bf)) with EFFECTIVE_PAGE_SIZE.
  change (prefix_length (new_root bf)) with 0%nat. change (count (new_root bf)) with 0%nat.
  unfold sizeof_SwipType. consts. lia.
Qed.

Lemma allocate_cons t leaf nb fl :
  free_list t = nb :: fl ->
  allocatePage t leaf = Some (mkBTree (<[nb := new_node leaf]> (frames t)) fl (root t) (height t), nb).
Proof. unfold allocatePage. by intros ->. Qed.

Lemma free_addr t T H nb fl : repr t T H -> free_list t = nb :: fl -> addr_ok nb.
Proof. intros R E. pose proof (re_addr _ _ _ R) as Ha. rewrite E in Ha. by inversion Ha. Qed.

Lemma split_root_ok t H bf n cs info :
  let T := Node bf n cs in
  let s := sep_slot info in
  let sep := getSep n info in
  repr t T H -> cut n s sep -> (2 <= length (free_list t))%nat ->
  exists t' ctxL ctxR L R, split_root t bf n info = Some t' /\
    split_at t [] T H None None n s sep t' (S H) ctxL ctxR L R.
Proof.
  intros T s sep Rp C Hfl. pose proof (re_wf _ _ _ Rp) as HT.
  destruct (free_list t) as [|nr [|nl fl]] eqn:Efl; simpl in Hfl; try lia.
  pose proof (cut_small _ _ _ _ _ _ _ _ HT C) as Hl.
  destruct (node_split H None None bf n cs nl s sep (new_root bf) HT C (root_ready bf sep Hl))
    as (p' & l & r & csl & csr & Es & G & Hv).
  unfold split_root. rewrite (allocate_cons t false nr (nl :: fl) Efl). cbn [mbind option_bind].
  erewrite allocate_cons by done. cbn [mbind option_bind frames root height].
  fold s sep. fold (new_root bf). rewrite Es. cbn [mbind option_bind].
  set (L := Node nl l csl) in *. set (R := Node bf r csr) in *.
  assert (addr_ok nl /\ addr_ok bf) as [Hnl Hbf].
  { pose proof (re_addr _ _ _ Rp) as Ha. rewrite Efl in Ha. rewrite list.Forall_forall in Ha.
    split; apply Ha; simpl; rewrite ?elem_of_cons, ?elem_of_app, ?elem_of_cons; tauto. }
  pose proof (new_root_wf _ _ _ _ _ _ _ _ Hv Hnl Hbf G nr) as Hw.
  exists (set_root (set_page (set_page (set_page (mkBTree (<[nl := new_node true]> (<[nr := new_node false]> (frames t)))
    fl (root t) (height t)) nr p') nl l) bf r) nr (height t + 1)),
    [mkCrumb nr p' [] [R]], [mkCrumb nr p' [L] []], L, R. split; [done|]. constructor; try done.
  - by eapply repr_root_split.
  - destruct (crumb_of_wf H None (Some sep) None None nr p' [] L [R] Hw (hv_left _ _ _ _ _ _ _ _ _ Hv)) as (sl & sr & W).
    exists None, None, sl, sr. done.
  - destruct (crumb_of_wf H (Some sep) None None None nr p' [L] R [] Hw (hv_right _ _ _ _ _ _ _ _ _ Hv)) as (sl & sr & W).
    exists None, None, sl, sr. done.
  - etrans; [|symmetry; exact (hv_kvs _ _ _ _ _ _ _ _ _ Hv)]. rewrite kvs_plug. unfold ctx_lkvs, ctx_rkvs. simpl.
    rewrite !app_nil_r. done.
  - rewrite Efl. simpl. lia.
Qed.

Lemma parent_request k b h lo hi plo phi sl sr sep :
  crumb_wf k b h lo hi plo phi sl sr -> in_fences lo hi sep -> (forall u, hi = Some u -> sep <ₗ u) ->
  (length sep <= max_key)%nat ->
  let need := spaceNeeded (cn k) (length sep) sizeof_SwipType in
  hasEnoughSpaceFor (cn k) need = true ->
  let p0 := snd (requestSpaceFor (cn k) need) in
  parent_ready p0 sep /\ same_frame (cn k) p0 /\ entries p0 = entries (cn k).
Proof.
  intros W Hf Hu Hl need Hneed p0. pose proof (pa_ok _ _ _ _ (cw_page _ _ _ _ _ _ _ _ _ W)) as P.
  pose proof (requestSpaceFor_ok (cn k) need P) as Q. subst p0. destruct (requestSpaceFor (cn k) need) as [okb p0].
  destruct Q as (P0 & F0 & E0 & C0 & -> & Hroom). specialize (Hroom Hneed). cbn [snd].
  split; [|done]. pose proof F0 as (F1 & F2 & F3 & _ & _).
  split; [done|]. split.
  { rewrite F1, F2, (pa_lo _ _ _ _ (cw_page _ _ _ _ _ _ _ _ _ W)), (pa_hi _ _ _ _ (cw_page _ _ _ _ _ _ _ _ _ W)).
    by eapply crumb_within. }
  split.
  { rewrite E0. intros e He Eq. destruct (crumb_separates _ _ _ _ _ _ _ _ _ _ W Hf) as [S1 S2].
    assert (e.1 ∈ sl ++ sr) as Hx.
    { rewrite <- (links_keys _ _ _ (cw_links _ _ _ _ _ _ _ _ _ W)). apply list_elem_of_fmap. eauto. }
    rewrite Eq in Hx. apply elem_of_app in Hx as [Hx|Hx]; [by eapply lex_lt_irrefl, S1|].
    destruct W as [PA L Hsl Hsr]. pose proof (rseg_head _ _ _ _ _ Hsr) as Eh.
    destruct sr as [|s0 sr]; [by apply not_elem_of_nil in Hx|]. specialize (Hu _ Eh).
    pose proof (links_sorted _ _ _ P L) as Hs. apply StronglySorted_app in Hs as (_ & _ & Hs).
    apply elem_of_cons in Hx as [Hx|Hx]; [rewrite Hx in Hu; by eapply lex_lt_irrefl|].
    inversion Hs as [|? ? _ Hs2]; subst. rewrite list.Forall_forall in Hs2. specialize (Hs2 _ Hx).
    eapply lex_lt_irrefl, lex_lt_trans; [exact Hu|exact Hs2]. }
  unfold max_key in Hl. split; [unfold sizeof_Slot, sizeof_SwipType; lia|].
  unfold canInsert, hasEnoughSpaceFor, spaceNeeded in *. rewrite F3. apply orb_true_iff. left.
  rewrite freeSpace_eq by done. apply Z.leb_le. exact Hroom.
Qed.

Lemma plug1_split k ctx L R p' :
  plug (mkCrumb (cb k) p' (cl k) (R :: cr k) :: ctx) L = plug ctx (Node (cb k) p' (cl k ++ L :: R :: cr k)) /\
  plug (mkCrumb (cb k) p' (cl k ++ [L]) (cr k) :: ctx) R = plug ctx (Node (cb k) p' (cl k ++ L :: R :: cr k)).
Proof. rewrite !plug_cons. unfold plug1. simpl. by rewrite <- app_assoc. Qed.

Lemma split_child_ok t H k ctx bf n cs h lo hi info :
  let T := Node bf n cs in
  let s := sep_slot info in
  let sep := getSep n info in
  repr t (plug (k :: ctx) T) H -> ctx_wf H (k :: ctx) bf h lo hi -> wf h lo hi T ->
  cut n s sep -> length sep = sep_length info -> (1 <= length (free_list t))%nat ->
  hasEnoughSpaceFor (cn k) (spaceNeeded (cn k) (sep_length info) sizeof_SwipType) = true ->
  exists t' ctxL ctxR L R, split_child t (cb k) bf (cn k) n info = Some t' /\
    split_at t (k :: ctx) T h lo hi n s sep t' H ctxL ctxR L R.
Proof.
  intros T s sep Rp (plo & phi & sl & sr & W & Hc) HT C Elen Hfl Hsp.
  pose proof (cut_between _ _ _ _ _ _ _ _ HT C) as (Hf & Hu & _).
  pose proof (cut_small _ _ _ _ _ _ _ _ HT C) as Hl.
  rewrite <- Elen in Hsp. destruct (parent_request _ _ _ _ _ _ _ _ _ _ W Hf Hu Hl Hsp) as (Hr & Fr & E0).
  set (p0 := snd (requestSpaceFor (cn k) _)) in *.
  destruct (free_list t) as [|nl fl] eqn:Efl; simpl in Hfl; [lia|].
  destruct (node_split h lo hi bf n cs nl s sep p0 HT C Hr) as (p' & l & r & csl & csr & Es & G & Hv).
  unfold split_child. rewrite <- Elen. fold p0. rewrite (allocate_cons t true nl fl Efl). cbn [mbind option_bind].
  fold s sep. rewrite Es. cbn [mbind option_bind].
  set (L := Node nl l csl) in *. set (R := Node bf r csr) in *.
  pose proof (crumb_split k h lo hi plo phi sl sr n s sep T L R p0 p' W Hv Hf Hu (free_addr _ _ _ _ _ Rp Efl) Fr E0 G) as Hw.
  pose proof (repr_child_split t H k ctx bf n cs h lo hi plo phi sl sr s sep nl l r csl csr fl p' Rp Efl W Hc Hv Hw) as Rp'.
  destruct (plug1_split k ctx L R p') as [PL PR]. fold L R in Rp'.
  eexists _, (mkCrumb (cb k) p' (cl k) (R :: cr k) :: ctx), (mkCrumb (cb k) p' (cl k ++ [L]) (cr k) :: ctx), L, R.
  split; [done|]. constructor; try done.
  - destruct (crumb_of_wf h lo (Some sep) plo phi (cb k) p' (cl k) L (R :: cr k) Hw (hv_left _ _ _ _ _ _ _ _ _ Hv))
      as (sl' & sr' & W'). exists plo, phi, sl', sr'. done.
  - assert (wf (S h) plo phi (Node (cb k) p' ((cl k ++ [L]) ++ R :: cr k))) as Hw' by (by rewrite <- app_assoc).
    destruct (crumb_of_wf h (Some sep) hi plo phi (cb k) p' (cl k ++ [L]) R (cr k) Hw' (hv_right _ _ _ _ _ _ _ _ _ Hv))
      as (sl' & sr' & W'). exists plo, phi, sl', sr'. done.
  - rewrite !kvs_plug. pose proof (hv_kvs _ _ _ _ _ _ _ _ _ Hv) as Ek. unfold ctx_lkvs, ctx_rkvs. simpl.
    rewrite !flat_map_app, <- !app_assoc. unfold T. rewrite Ek, <- !app_assoc.
    done.
  - rewrite Efl. simpl. lia.
Qed.
