(* ===== verification/BTreeRoom.v ===== *)
(** Room in the pages of a tree with small entries: a page that refuses an
    entry is full of them, so it can be cut, and both halves of a full inner
    page have room for a separator. *)
From stdpp Require Import sorting gmap.
From S2P Require Import Prelude BTreeNode BTreeNodeSearch BTreeNodeSpace BTreeNodeOps BTreeNodeSplit BTreeInterface BTree BTreeIterator BTreeShape BTreePath BTreeContents BTreeLookup BTreeSplit.
Local Open Scope Z_scope.

(** Room for the longest separator: slot, key, swip. *)
Definition sep_room : Z := sizeof_Slot + Z.of_nat max_key + Z.of_nat sizeof_SwipType.

Definition roomy (n : BTreeNode) : bool := sep_room <=? freeSpaceAfterCompaction n.

(** * Bounds on what entries take *)

Lemma kv_total_le (B : Z) l :
  Forall (fun e : list Z * list Z => Z.of_nat (length e.1) + Z.of_nat (length e.2) <= B) l ->
  kv_total l <= B * Z.of_nat (length l).
Proof. induction 1 as [|e l He _ IH]; simpl in *; [lia|]. lia. Qed.

Lemma stored_len_ge lk uk (w : nat) l :
  Forall (fun e => in_fences lk uk e.1) l -> Forall (fun e : list Z * list Z => length e.2 = w) l ->
  Z.of_nat w * Z.of_nat (length l) <= stored_len lk uk l.
Proof.
  unfold stored_len. induction l as [|e l IH]; intros Hf Hw; simpl; [lia|].
  apply list.Forall_cons in Hf as [Hf1 Hf]. apply list.Forall_cons in Hw as [Hw1 Hw]. specialize (IH Hf Hw).
  apply in_fences_long in Hf1. simpl in Hf1. fold (kv_total l). nia.
Qed.

Lemma fences_le leaf lo hi n :
  page_at leaf lo hi n ->
  option_len (getLowerFenceKey n) <= Z.of_nat max_key /\ option_len (getUpperFenceKey n) <= Z.of_nat max_key.
Proof.
  intros PA. rewrite (pa_lo _ _ _ _ PA), (pa_hi _ _ _ _ PA). unfold option_len.
  split; [destruct lo as [k|]; simpl; [|lia]|destruct hi as [k|]; simpl; [|lia]].
  - destruct (pa_good_lo _ _ _ _ PA k eq_refl). lia.
  - destruct (pa_good_hi _ _ _ _ PA k eq_refl). lia.
Qed.

Lemma space_le leaf lo hi n B :
  page_at leaf lo hi n ->
  Forall (fun e : list Z * list Z => Z.of_nat (length e.1) + Z.of_nat (length e.2) <= B) (entries n) ->
  space_used n <= B * Z.of_nat (count n) + 2 * Z.of_nat max_key.
Proof.
  intros PA HB. rewrite (page_space n (pa_ok _ _ _ _ PA)). apply kv_total_le in HB. rewrite length_entries in HB.
  pose proof (fences_le _ _ _ _ PA). nia.
Qed.

(** Separators are small. *)
Lemma rseg_seps h m ss cs hi s : rseg (wf h) m ss cs hi -> s ∈ ss -> fence_good (Some s).
Proof.
  revert m cs; induction ss as [|s0 ss IH]; intros m [|c cs] H Hs; simpl in *; try done;
    [by apply not_elem_of_nil in Hs|]. destruct H as (_ & m' & Hc & H).
  apply elem_of_cons in Hs as [->|Hs]; [|eauto]. apply wf_page in Hc as [lf Hc]. apply Hc.
Qed.

Lemma inner_entries h lo hi bf n cs :
  wf (S h) lo hi (Node bf n cs) ->
  Forall (fun e : list Z * list Z => (length e.1 <= max_key)%nat /\ length e.2 = sizeof_SwipType /\ e.1 <> []) (entries n).
Proof.
  intros (PA & ss & L & Hk). rewrite (li_entries _ _ _ L). apply list.Forall_forall.
  intros e He. apply elem_of_lookup_zip_with_1 in He as (i & s & b & -> & Hs & _). simpl.
  apply list_elem_of_lookup_2 in Hs. destruct cs as [|c cs]; [done|]. destruct Hk as (m & _ & Hr).
  destruct (rseg_seps _ _ _ _ _ _ Hr Hs s eq_refl) as [H1 H2]. split; [done|]. split; [|done].
  exact (length_to_le sizeof_SwipType b).
Qed.

Ltac room_consts := unfold roomy, sep_room, max_key, max_value, sizeof_SwipType in *; consts.

Lemma full_inner_count h lo hi bf n cs :
  wf (S h) lo hi (Node bf n cs) -> roomy n = false -> (196 <= count n)%nat.
Proof.
  intros HT Hr. pose proof (inner_entries _ _ _ _ _ _ HT) as He. destruct HT as (PA & _).
  apply Z.leb_gt in Hr. rewrite freeSpaceAfterCompaction_eq in Hr by apply PA.
  pose proof (space_le _ _ _ _ 72 PA) as Hs. room_consts.
  assert (space_used n <= 72 * Z.of_nat (count n) + 2 * Z.of_nat 64); [|lia]. apply Hs.
  rewrite list.Forall_forall in *. intros e (H1 & H2 & _)%He. lia.
Qed.

(** * The halves of a full inner page *)

Lemma half_free n m y :
  page_ok n -> page_ok m -> count n = (count m + length y)%nat ->
  stored_len (getLowerFenceKey n) (getUpperFenceKey n) (entries n) =
    stored_len (getLowerFenceKey n) (getUpperFenceKey n) (entries m)
    + stored_len (getLowerFenceKey n) (getUpperFenceKey n) y ->
  stored_len (getLowerFenceKey m) (getUpperFenceKey m) (entries m)
    <= stored_len (getLowerFenceKey n) (getUpperFenceKey n) (entries m) ->
  option_len (getLowerFenceKey m) + option_len (getUpperFenceKey m)
    <= option_len (getLowerFenceKey n) + option_len (getUpperFenceKey n) + Z.of_nat max_key ->
  8 * Z.of_nat (length y) <= stored_len (getLowerFenceKey n) (getUpperFenceKey n) y ->
  18 * Z.of_nat (length y) - Z.of_nat max_key <= freeSpaceAfterCompaction m.
Proof.
  intros Pn Pm Hc Hs Hm Hf Hy. rewrite freeSpaceAfterCompaction_eq by done.
  pose proof (page_room n Pn) as [R _]. rewrite (page_stored n Pn) in R. rewrite (page_stored m Pm). consts. lia.
Qed.

Lemma halves_roomy h lo hi bf n cs s sep T L R :
  wf (S h) lo hi (Node bf n cs) -> cut n s sep -> halves (S h) lo hi n s sep T L R ->
  (8 < s)%nat -> (s + 10 < count n)%nat -> roomy (node_of L) = true /\ roomy (node_of R) = true.
Proof.
  intros HT C Hv Hs1 Hs2. pose proof (inner_entries _ _ _ _ _ _ HT) as He.
  pose proof (cut_between _ _ _ _ _ _ _ _ HT C) as (Hf & _). pose proof (cut_small _ _ _ _ _ _ _ _ HT C) as Hl.
  destruct HT as (PA & _). pose proof PA as [P El E1 E2 _ _ _].
  destruct (wf_page _ _ _ _ (hv_left _ _ _ _ _ _ _ _ _ Hv)) as [lf PL].
  destruct (wf_page _ _ _ _ (hv_right _ _ _ _ _ _ _ _ _ Hv)) as [rf PR].
  pose proof (hv_lentries _ _ _ _ _ _ _ _ _ Hv) as EL. pose proof (hv_rentries _ _ _ _ _ _ _ _ _ Hv) as ER.
  unfold cut_end in EL. rewrite El in EL.
  pose proof (pa_lo _ _ _ _ PL) as FL1. pose proof (pa_hi _ _ _ _ PL) as FL2.
  pose proof (pa_lo _ _ _ _ PR) as FR1. pose proof (pa_hi _ _ _ _ PR) as FR2.
  assert (forall y, (forall e, e ∈ y -> e ∈ entries n) -> 8 * Z.of_nat (length y) <= stored_len lo hi y) as Hy.
  { intros y Hin. apply (stored_len_ge lo hi 8).
    - pose proof (po_fences _ P) as Hpf. rewrite E1, E2 in Hpf. rewrite list.Forall_forall in *. auto.
    - rewrite list.Forall_forall in *. intros e Hey. by apply He, Hin. }
  rewrite <- E1, <- E2 in Hf.
  pose proof (stored_left n sep Hf (take s (entries n))) as SL.
  pose proof (stored_right n sep Hf (drop (s + 1) (entries n))) as SR. rewrite E1, E2 in SL, SR.
  assert (0 <= option_len lo /\ 0 <= option_len hi) as [? ?] by (unfold option_len; lia).
  pose proof (length_entries (node_of L)) as CL. pose proof (length_entries (node_of R)) as CR.
  rewrite EL, length_take, length_entries in CL. rewrite ER, length_drop, length_entries in CR.
  split; apply Z.leb_le.
  - pose proof (half_free n (node_of L) (drop s (entries n)) P (pa_ok _ _ _ _ PL)) as Hh.
    rewrite length_drop, length_entries, FL1, FL2, E1, E2, EL in Hh. room_consts.
    enough (18 * Z.of_nat (count n - s) - 64 <= freeSpaceAfterCompaction (node_of L)) by lia.
    apply Hh; [lia| |done| |].
    + by rewrite <- stored_len_app, take_drop.
    + rewrite option_len_Some. lia.
    + specialize (Hy (drop s (entries n)) ltac:(intros e; apply elem_of_drop_in)).
      by rewrite length_drop, length_entries in Hy.
  - pose proof (half_free n (node_of R) (take (s + 1) (entries n)) P (pa_ok _ _ _ _ PR)) as Hh.
    rewrite length_take, length_entries, FR1, FR2, E1, E2, ER in Hh. room_consts.
    enough (18 * Z.of_nat ((s + 1) `min` count n) - 64 <= freeSpaceAfterCompaction (node_of R)) by lia.
    apply Hh; [lia| |done| |].
    + rewrite <- (take_drop (s + 1) (entries n)) at 1. rewrite stored_len_app. lia.
    + rewrite option_len_Some. lia.
    + specialize (Hy (take (s + 1) (entries n)) ltac:(intros e; apply elem_of_take_in)).
      by rewrite length_take, length_entries in Hy.
Qed.

(** * Full leaves *)

Lemma needed_small n key value :
  page_ok n -> in_fences (getLowerFenceKey n) (getUpperFenceKey n) key -> small (key, value) ->
  spaceNeeded n (length key) (length value) <= sizeof_Slot + Z.of_nat max_key + Z.of_nat max_value.
Proof.
  intros P Hf [H1 H2]. simpl in H1, H2.
  pose proof (in_fences_long _ _ _ Hf) as Hp. rewrite <- (ho_prefix _ _ (po_heap _ P)) in Hp.
  unfold max_key, max_value in *. rewrite spaceNeeded_eq; [lia|done|consts; lia].
Qed.

Lemma full_leaf_count lo hi n key value :
  page_at true lo hi n -> Forall small (entries n) -> in_fences lo hi key -> small (key, value) ->
  canInsert n (length key) (length value) = false -> (15 <= count n)%nat.
Proof.
  intros PA Hsm Hf Hkv Hno. pose proof PA as [P _ E1 E2 _ _ _]. rewrite <- E1, <- E2 in Hf.
  pose proof (needed_small n key value P Hf Hkv) as Hn.
  apply orb_false_iff in Hno as [_ Hno]. apply Z.leb_gt in Hno.
  rewrite freeSpaceAfterCompaction_eq in Hno by done.
  pose proof (space_le _ _ _ _ 1064 PA) as Hs. room_consts.
  assert (space_used n <= 1064 * Z.of_nat (count n) + 2 * Z.of_nat 64); [|lia]. apply Hs.
  rewrite list.Forall_forall in *. intros e [H1 H2]%Hsm. room_consts. lia.
Qed.

Lemma sep_scan_lower n i cnt best a : (a <= best.2)%nat -> (a <= i)%nat -> (a <= (sep_scan n i cnt best).2)%nat.
Proof.
  revert i best; induction cnt as [|cnt IH]; intros i best Hb Hi; simpl; [done|].
  apply IH; [|lia]. case_match; simpl; lia.
Qed.

(** Where [findSep] cuts a page. *)
Lemma findSep_window n :
  (2 < count n)%nat ->
  (1 <= sep_slot (findSep n))%nat /\
  (count n / 2 - count n / 16 <= sep_slot (findSep n))%nat /\
  (sep_slot (findSep n) < Nat.max (count n / 2 + 1) (count n / 2 + count n / 16))%nat.
Proof.
  intros Hc. pose proof (Nat.div_mod_eq (count n) 2) as D2. pose proof (Nat.mod_upper_bound (count n) 2 ltac:(lia)).
  pose proof (Nat.div_mod_eq (count n) 16) as D16. pose proof (Nat.mod_upper_bound (count n) 16 ltac:(lia)).
  unfold findSep. destruct (isInner n); cbn [sep_slot]; [lia|]. cbv zeta. set (m := (sep_scan _ _ _ _).2).
  assert (count n / 2 - count n / 16 <= m)%nat as H1 by (apply sep_scan_lower; cbn [snd]; lia).
  assert (m < Nat.max (count n / 2 + 1) (count n / 2 + count n / 16))%nat as H2
    by (apply sep_scan_bound; cbn [snd]; lia).
  destruct (_ && _); cbn [sep_slot]; lia.
Qed.

Lemma findSep_length n :
  page_ok n -> (2 < count n)%nat -> length (getSep n (findSep n)) = sep_length (findSep n).
Proof.
  intros P Hc. pose proof (page_prefix_ok n P) as Hp. unfold prefix_ok in Hp.
  unfold getSep. rewrite length_app, length_take, length_getKey, Hp.
  unfold findSep. destruct (isInner n); cbn [sep_trunc sep_length sep_slot]; [unfold getFullKeyLen, getKeyLen; lia|].
  cbv zeta. set (m := (sep_scan _ _ _ _).2).
  destruct (_ && _) eqn:E; cbn [sep_trunc sep_length sep_slot]; [|unfold getFullKeyLen, getKeyLen; lia].
  apply andb_true_iff in E as [_ E%Nat.ltb_lt]. lia.
Qed.

Lemma sep_nonempty n i sep :
  page_ok n -> (0 < i < count n)%nat -> copyFullKey n i ≤ₗ sep -> sep <> [].
Proof.
  intros P Hi Hle ->. pose proof (copyFullKey_lt n 0 i P ltac:(lia)) as Hlt.
  pose proof (lex_lt_le_trans _ _ _ Hlt Hle) as H. unfold lex_lt in H. by destruct (copyFullKey n 0).
Qed.

Lemma kv_total_small l : Forall small l -> kv_total l <= 1064 * Z.of_nat (length l).
Proof.
  induction 1 as [|e l [H1 H2] _ IH]; [done|]. unfold max_key, max_value in *.
  change (kv_total (e :: l)) with (Z.of_nat (length e.1) + Z.of_nat (length e.2) + kv_total l). cbn [length]. lia.
Qed.

Lemma findSep_leaf_cut lo hi n :
  page_at true lo hi n -> Forall small (entries n) -> (2 < count n)%nat ->
  cut n (sep_slot (findSep n)) (getSep n (findSep n)).
Proof.
  intros PA Hsm Hc. pose proof PA as [P El _ _ _ _ _]. pose proof (findSep_cut n P El ltac:(lia)) as C.
  pose proof (findSep_window n ltac:(lia)) as (W1 & W2 & W3). pose proof (findSep_slot n ltac:(lia)) as Hs.
  set (s := sep_slot (findSep n)) in *. set (sep := getSep n (findSep n)) in *.
  assert (length sep <= max_key)%nat as Hl.
  { destruct C as (_ & _ & _ & _ & Hl). etrans; [exact Hl|]. rewrite Forall_lookup in Hsm.
    destruct (Hsm s _ (lookup_entries n s ltac:(lia))) as [Hk _]. etrans; [|exact Hk].
    simpl. unfold copyFullKey. by rewrite length_app, (page_prefix_ok n P), length_getKey. }
  split; [apply (sep_nonempty n s); [done|lia|apply C]|]. rewrite El. split; [done|].
  destruct (decide (15 <= count n)%nat) as [H15|H15]; [left|right].
  2:{ assert (kv_total (take (s + 1) (entries n)) <= 1064 * Z.of_nat (length (take (s + 1) (entries n)))) as Hkv.
      { apply kv_total_small. by apply Forall_take. }
      rewrite length_take in Hkv. pose proof (pa_good_lo _ _ _ _ PA) as Hlo.
      pose proof (Nat.div_mod_eq (count n) 2) as D2. pose proof (Nat.mod_upper_bound (count n) 2 ltac:(lia)).
      rewrite (Nat.div_small (count n) 16) in W2, W3 by lia. rewrite (pa_lo _ _ _ _ PA).
      assert (option_len lo <= 64) by (unfold option_len; destruct lo as [k|]; [destruct (Hlo k eq_refl); unfold max_key in *; cbn; lia|cbn; lia]).
      room_consts. lia. }
  pose proof (stored_len_in n (drop (s + 1) (entries n)) P ltac:(intros e; apply elem_of_drop_in)).
  pose proof (Nat.div_mod_eq (count n) 2) as D2. pose proof (Nat.mod_upper_bound (count n) 2 ltac:(lia)).
  pose proof (Nat.div_mod_eq (count n) 16) as D16. pose proof (Nat.mod_upper_bound (count n) 16 ltac:(lia)).
  assert (0 <= option_len (getUpperFenceKey n)) by (unfold option_len; lia). room_consts. lia.
Qed.

Lemma findSep_inner_cut h lo hi bf n cs :
  wf (S h) lo hi (Node bf n cs) -> (2 < count n)%nat ->
  cut n (sep_slot (findSep n)) (getSep n (findSep n)).
Proof.
  intros HT Hc. pose proof (inner_entries _ _ _ _ _ _ HT) as He. destruct HT as (PA & _).
  pose proof (pa_leaf _ _ _ _ PA) as El. destruct (getSep_inner n El) as [E1 E2].
  pose proof (findSep_slot n Hc) as Hs. rewrite E1 in Hs. unfold cut. rewrite El, E1, E2. split; [|done].
  rewrite Forall_lookup in He. by apply (He (count n / 2)%nat (entry n (count n / 2))), lookup_entries; lia.
Qed.
