(* ===== verification/BTreeTrySplit.v ===== *)
(** [trySplit]: the call splits the page, or a full ancestor that is in the
    way, and keeps every binding. *)
From stdpp Require Import sorting gmap.
From S2P Require Import Prelude BTreeNode BTreeNodeSearch BTreeNodeSpace BTreeNodeOps BTreeNodeSplit BTreeInterface BTree BTreeIterator BTreeShape BTreePath BTreeContents BTreeLookup BTreeSplit BTreeRoom.
Local Open Scope Z_scope.

(** The ancestors without room for a separator, from the page up to the first
    one with room. *)
Fixpoint leading (ctx : list crumb) : nat :=
  match ctx with
  | [] => 0
  | k :: ctx' => if roomy (cn k) then 0 else S (leading ctx')
  end.

Lemma leading_le ctx : (leading ctx <= length ctx)%nat.
Proof. induction ctx as [|k ctx IH]; simpl; [done|]. case_match; lia. Qed.

(** An ancestor was split: the subtree [T] is as before, under fewer full
    ancestors. *)
Record grown (t : BTree) (ctx : list crumb) (T : tree) (h : nat) (lo hi : bound)
    (t' : BTree) (H' : nat) (ctx' : list crumb) : Prop := Grown {
  gr_repr : repr t' (plug ctx' T) H';
  gr_ctx : ctx_wf H' ctx' (bf_of T) h lo hi;
  gr_kvs : kvs (plug ctx' T) = kvs (plug ctx T);
  gr_frames : (length (free_list t') < length (free_list t) <= 2 + length (free_list t'))%nat;
  gr_height : (length ctx' <= length ctx)%nat \/
    leading ctx = length ctx /\ (length ctx' <= S (length ctx))%nat;
  gr_leading : (leading ctx' < leading ctx)%nat }.

Lemma no_room_full k b h lo hi plo phi sl sr sep :
  crumb_wf k b h lo hi plo phi sl sr -> in_fences lo hi sep -> (length sep <= max_key)%nat ->
  hasEnoughSpaceFor (cn k) (spaceNeeded (cn k) (length sep) sizeof_SwipType) = false ->
  roomy (cn k) = false.
Proof.
  intros W Hf Hl [_ Hno]%orb_false_iff. pose proof (crumb_within _ _ _ _ _ _ _ _ _ _ W Hf) as Hp.
  destruct W as [PA _ _ _]. pose proof PA as [P _ E1 E2 _ _ _].
  apply in_fences_long in Hp. rewrite <- E1, <- E2, <- (ho_prefix _ _ (po_heap _ P)) in Hp.
  apply Z.leb_gt in Hno. apply Z.leb_gt. rewrite spaceNeeded_eq in Hno; [|done|room_consts; lia]. room_consts. lia.
Qed.

(** The child of a page that was cut, below its half. *)
Lemma child_of_half t k ctx T h lo hi plo phi s sep t' H' ctxL ctxR L R :
  wf h lo hi T ->
  split_at t ctx (plug1 k T) (S h) plo phi (cn k) s sep t' H' ctxL ctxR L R ->
  exists c ctx', repr t' (plug (c :: ctx') T) H' /\ ctx_wf H' (c :: ctx') (bf_of T) h lo hi /\
    kvs (plug (c :: ctx') T) = kvs (plug ctx (plug1 k T)) /\ (length ctx' <= Nat.max 1 (length ctx))%nat /\
    (cn c = node_of L \/ cn c = node_of R).
Proof.
  intros HT [Rp Same CL CR Hv Ek Hfr [Hh1 Hh2]].
  destruct (hv_children _ _ _ _ _ _ _ _ _ Hv (cb k) (cn k) (cl k) T (cr k) eq_refl)
    as [(bl & nl & cr1 & cr2 & EL & Ecr)|(br & nr & cl1 & cl2 & ER & Ecl)].
  - pose proof (hv_left _ _ _ _ _ _ _ _ _ Hv) as Hw. rewrite EL in *.
    destruct (crumb_of_wf _ _ _ _ _ _ _ _ _ _ Hw HT) as (sl & sr & W).
    exists (mkCrumb bl nl (cl k) cr1), ctxL. rewrite plug_cons. split; [done|].
    split; [exists plo, (Some sep), sl, sr; done|]. split; [exact Ek|]. split; [done|]. by left.
  - pose proof (hv_right _ _ _ _ _ _ _ _ _ Hv) as Hw. rewrite Same in Rp, Ek. rewrite ER in *.
    destruct (crumb_of_wf _ _ _ _ _ _ _ _ _ _ Hw HT) as (sl & sr & W).
    exists (mkCrumb br nr cl2 (cr k)), ctxR. rewrite plug_cons. split; [done|].
    split; [exists (Some sep), phi, sl, sr; done|]. split; [exact Ek|]. split; [lia|]. by right.
Qed.

Section trySplit.
Context (flags : Flags).
Context (Hbulk : FLAGS_bulk_insert flags = false).

Lemma split_info_default n : split_info flags n (-1) = findSep n.
Proof. unfold split_info. simpl. by rewrite Hbulk. Qed.

Lemma trySplit_ok ctx : forall fuel t H bf n cs h lo hi pos,
  let T := Node bf n cs in
  let info := split_info flags n pos in
  let s := sep_slot info in
  let sep := getSep n info in
  repr t (plug ctx T) H -> ctx_wf H ctx bf h lo hi -> wf h lo hi T ->
  (2 < count n)%nat -> cut n s sep -> length sep = sep_length info ->
  (2 <= length (free_list t))%nat -> (length ctx < fuel)%nat ->
  exists t' H', trySplit flags fuel t bf pos = Some t' /\
    ((exists ctxL ctxR L R, split_at t ctx T h lo hi n s sep t' H' ctxL ctxR L R) \/
     (exists ctx', grown t ctx T h lo hi t' H' ctx')).
Proof.
  induction ctx as [|k ctx IH]; intros [|fuel] t H bf n cs h lo hi pos T info s sep Rp Hc HT Hn C El Hfl Hfuel;
    simpl in Hfuel; try lia.
  - pose proof Hc as (-> & -> & ->). cbn [trySplit]. pose proof (findParent_root t T H Rp) as Ep.
    simpl in Ep. rewrite Ep. cbn [mbind option_bind].
    pose proof (repr_page t [] T H Rp) as En. simpl in En. rewrite En. cbn [mbind option_bind].
    rewrite (proj2 (Nat.leb_gt _ _)) by lia. cbv zeta.
    destruct (split_root_ok t H bf n cs info Rp C Hfl) as (t' & ctxL & ctxR & L & R & Es & Sa).
    exists t', (S H). split; [exact Es|]. left. exists ctxL, ctxR, L, R. exact Sa.
  - cbn [trySplit]. pose proof (findParent_ctx t H k ctx T h lo hi Rp Hc HT) as Ep. simpl in Ep. rewrite Ep.
    cbn [mbind option_bind]. pose proof (repr_page t (k :: ctx) T H Rp) as En. simpl in En. rewrite En.
    cbn [mbind option_bind]. rewrite (proj2 (Nat.leb_gt _ _)) by lia. cbv zeta.
    pose proof (repr_crumb t [] k ctx T H Rp) as Ek. rewrite Ek. cbn [mbind option_bind].
    fold info. destruct (hasEnoughSpaceFor (cn k) _) eqn:Hsp.
    + destruct (split_child_ok t H k ctx bf n cs h lo hi info Rp Hc HT C El ltac:(lia) Hsp)
        as (t' & ctxL & ctxR & L & R & Es & Sa).
      exists t', H. split; [exact Es|]. left. exists ctxL, ctxR, L, R. exact Sa.
    + pose proof (cut_between _ _ _ _ _ _ _ _ HT C) as (Hf & _).
      pose proof (cut_small _ _ _ _ _ _ _ _ HT C) as Hl.
      destruct Hc as (plo & phi & sl & sr & W & Hc). rewrite <- El in Hsp.
      pose proof (no_room_full _ _ _ _ _ _ _ _ _ _ W Hf Hl Hsp) as Hfull.
      pose proof (plug1_wf k h lo hi plo phi sl sr T W HT) as HT1.
      pose proof (full_inner_count _ _ _ _ _ _ HT1 Hfull) as Hcnt.
      pose proof (pa_ok _ _ _ _ (cw_page _ _ _ _ _ _ _ _ _ W)) as P.
      pose proof (split_info_default (cn k)) as Ei.
      pose proof (findSep_inner_cut _ _ _ _ _ _ HT1 ltac:(lia)) as Ck.
      destruct (IH fuel t H (cb k) (cn k) (cl k ++ T :: cr k) (S h) plo phi (-1)) as (t' & H' & Et & [Sa|Gr]);
        rewrite ?Ei; try done; try lia; [by apply findSep_length; [|lia]|..].
      * exists t', H'. split; [done|]. right. destruct Sa as (ctxL & ctxR & L & R & Sa). rewrite Ei in Sa.
        destruct (child_of_half _ _ _ _ _ _ _ _ _ _ _ _ _ _ _ _ _ HT Sa) as (c & ctx' & R1 & R2 & R3 & R4 & R5).
        exists (c :: ctx'). constructor; [done..|by eapply sa_frames| |].
        { simpl. rewrite Hfull. destruct ctx; simpl in *; [right|left]; lia. }
        destruct (halves_roomy _ _ _ _ _ _ _ _ _ _ _ HT1 Ck
          (sa_halves _ _ _ _ _ _ _ _ _ _ _ _ _ _ _ Sa)) as [Rm1 Rm2].
        { rewrite (proj1 (getSep_inner (cn k) (pa_leaf _ _ _ _ (cw_page _ _ _ _ _ _ _ _ _ W)))).
          apply (Nat.div_le_lower_bound _ 2); lia. }
        { rewrite (proj1 (getSep_inner (cn k) (pa_leaf _ _ _ _ (cw_page _ _ _ _ _ _ _ _ _ W)))).
          pose proof (Nat.div_mod_eq (count (cn k)) 2). lia. }
        simpl. rewrite Hfull. destruct R5 as [->| ->]; [rewrite Rm1|rewrite Rm2]; lia.
      * exists t', H'. split; [done|]. right. destruct Gr as (ctx' & [R1 R2 R3 R4 R5 R6]).
        exists (k :: ctx'). constructor; [done| |done|done| |].
        -- exists plo, phi, sl, sr. done.
        -- simpl. rewrite Hfull. lia.
        -- simpl. rewrite Hfull. lia.
Qed.

End trySplit.
