(* ===== verification/BTreeInsert.v ===== *)
(** Insertion into the page B-tree: the restart loop of [insertKV] ends, and
    adds exactly the new binding. *)
From stdpp Require Import sorting gmap.
From S2P Require Import Prelude BTreeNode BTreeNodeSearch BTreeNodeSpace BTreeNodeOps BTreeNodeSplit BTreeInterface BTree BTreeIterator BTreeShape BTreePath BTreeContents BTreeLookup BTreeSplit BTreeRoom BTreeTrySplit.
Local Open Scope Z_scope.

(** * Seeking *)

(** [compareKeyWithBoundaries] decides the fences. *)
Lemma boundaries_zero n key :
  compareKeyWithBoundaries n key = 0 <-> in_fences (getLowerFenceKey n) (getUpperFenceKey n) key.
Proof.
  unfold compareKeyWithBoundaries, in_fences, lex_lt, lex_le.
  assert (forall lf, negb (0 <? cmpKeys key lf) = negb (bool_decide (lex_cmp lf key = Lt))) as H1.
  { intros lf. f_equal. apply bool_iff. rewrite Z.ltb_lt, bool_decide_eq_true, lex_cmp_antisym, <- cmpKeys_lex.
    destruct (Z.compare_spec (cmpKeys key lf) 0); simpl; split; (done || lia). }
  assert (forall uf, negb (cmpKeys key uf <=? 0) = negb (bool_decide (lex_cmp key uf <> Gt))) as H2.
  { intros uf. f_equal. apply bool_iff. rewrite Z.leb_le, bool_decide_eq_true, <- cmpKeys_lex. done. }
  destruct (getLowerFenceKey n) as [lf|], (getUpperFenceKey n) as [uf|]; rewrite ?H1, ?H2;
    repeat case_bool_decide; simpl; naive_solver.
Qed.

Section seek.
Context (t : BTree) (H : nat) (ctx : list crumb) (bf : Z) (n : BTreeNode) (lo hi : bound) (key : list Z).
Context (F : focus t H ctx bf n lo hi key).

(** An iterator without a leaf, or on the leaf of the key. *)
Definition at_leaf (it : iter) : Prop := cur it = -1 \/ it_leaf it = Some bf.

Lemma leaf_of_focus i : leaf_of t (mkIter (Some bf) i) = Some (bf, n).
Proof. unfold leaf_of. simpl. by rewrite (proj2 (focus_find _ _ _ _ _ _ _ _ F)). Qed.

Lemma boundaries_focus : compareKeyWithBoundaries n key = 0.
Proof. apply boundaries_zero. by eapply focus_in_page. Qed.

Lemma latch_focus it : at_leaf it -> latch_leaf t it key = Some (bf, n).
Proof.
  destruct (focus_find _ _ _ _ _ _ _ _ F) as [E1 E2]. unfold latch_leaf, leaf_of.
  intros [->|E]; [simpl; by rewrite E1; simpl; rewrite E2|].
  case_match; [rewrite E1; simpl; by rewrite E2|]. rewrite E. cbn [mbind option_bind]. rewrite E2. cbn [mbind option_bind].
  by rewrite boundaries_focus.
Qed.

Lemma seekExact_focus it :
  at_leaf it ->
  exists pos, seekExact t it key = Some (mkIter (Some bf) pos, if tree_map t !! key then OK else NOT_FOUND) /\
    (forall v, tree_map t !! key = Some v -> exists i, pos = Z.of_nat i /\ (i < count n)%nat /\ entries n !! i = Some (key, v) /\ getPayload n i = v).
Proof.
  intros A. unfold seekExact. rewrite latch_focus by done. cbn [mbind option_bind].
  destruct (focus_search _ _ _ _ _ _ _ _ F) as [(i & v & E & Hi & He & Ev & Em)|(E & Em & _)];
    rewrite E, Em; cbn [mbind option_bind].
  - exists (Z.of_nat i). rewrite (proj2 (Z.eqb_neq _ _)) by lia. split; [done|]. intros w [= <-]. eauto.
  - exists (-1). done.
Qed.

Lemma seekToInsert_focus it :
  at_leaf it ->
  exists pos, seekToInsert t it key =
    Some (mkIter (Some bf) (Z.of_nat pos), if tree_map t !! key then DUPLICATE else OK).
Proof.
  intros A. unfold seekToInsert. rewrite latch_focus by done. cbn [mbind option_bind].
  pose proof (fo_page _ _ _ _ _ _ _ _ F) as PA. pose proof (pa_ok _ _ _ _ PA) as P.
  destruct (lowerBound_entries n key P (fo_key _ _ _ _ _ _ _ _ F)) as (pos & eq & E & Hp & Hl & Hr & He).
  exists pos. rewrite E. cbn [mbind option_bind]. do 2 f_equal. rewrite (focus_lookup _ _ _ _ _ _ _ _ F).
  destruct (page_map n !! key) as [v|] eqn:Em.
  - enough (eq = true) as -> by done. apply He. split; [apply PA|]. apply page_map_lookup in Em; [|done].
    exists v. rewrite <- (take_drop pos (entries n)) in Em. apply elem_of_app in Em as [Em|Em].
    { apply Hl in Em. by apply lex_lt_irrefl in Em. }
    pose proof (po_sorted _ P) as Hs. rewrite <- (take_drop pos (entries n)) in Hs |- *.
    apply StronglySorted_app in Hs as (_ & _ & Hs).
    assert (length (take pos (entries n)) = pos) as Hlen by (rewrite length_take, length_entries; lia).
    rewrite lookup_app_r by lia. rewrite Hlen, Nat.sub_diag.
    destruct (drop pos (entries n)) as [|[k0 v0] r]; [by apply not_elem_of_nil in Em|].
    apply elem_of_cons in Em as [[= <- <-]|Em]; [done|]. exfalso.
    inversion Hs as [|? ? _ Hs2]; subst. rewrite list.Forall_forall in Hs2. specialize (Hs2 _ Em). simpl in Hs2.
    specialize (Hr (k0, v0) ltac:(apply elem_of_cons; by left)). simpl in Hr.
    by eapply lex_lt_irrefl, lex_lt_le_trans.
  - destruct eq; [|done]. destruct (proj1 He eq_refl) as [_ [v Hv]]. apply list_elem_of_lookup_2 in Hv.
    apply page_map_lookup in Hv; [|done]. congruence.
Qed.

(** The insertion itself, once the leaf has room. *)
Lemma insertInCurrentNode_focus value pos :
  tree_map t !! key = None -> small (key, value) -> Forall is_byte value ->
  canInsert n (length key) (length value) = true ->
  exists t' it', insertInCurrentNode t (mkIter (Some bf) pos) key value = Some (t', it') /\
    tree_ok t' /\ tree_map t' = <[key := value]> (tree_map t) /\ free_list t' = free_list t.
Proof.
  intros Hno Hsm Hv Hcan. pose proof (fo_page _ _ _ _ _ _ _ _ F) as PA. pose proof (pa_ok _ _ _ _ PA) as P.
  rewrite (focus_lookup _ _ _ _ _ _ _ _ F) in Hno.
  assert (forall e, e ∈ entries n -> e.1 <> key) as Hnew.
  { intros [k v] He <-. apply page_map_lookup in He; [|done]. simpl in *. congruence. }
  destruct (insert_ok n key value P (fo_key _ _ _ _ _ _ _ _ F) Hv (focus_in_page _ _ _ _ _ _ _ _ F) Hnew)
    as (n' & s & E & P' & Fr & _ & _ & Ee & _).
  { destruct Hsm. room_consts. lia. }
  { done. }
  unfold insertInCurrentNode. rewrite leaf_of_focus. cbn [mbind option_bind].
  unfold keyFitsInCurrentNode. rewrite boundaries_focus, Hcan. simpl (_ && _).
  cbn match. rewrite E. cbn [mbind option_bind]. eexists _, _. split; [done|].
  destruct (focus_set_map _ _ _ _ _ _ _ _ n' F P' Fr) as (F' & Hm & _).
  { rewrite Ee. pose proof (fo_small _ _ _ _ _ _ _ _ F). apply Forall_app. split; [by apply Forall_take|].
    constructor; [done|by apply Forall_drop]. }
  split; [by eapply focus_tree_ok|]. split; [|done]. apply Hm. unfold page_map.
  pose proof (sorted_NoDup_keys _ (po_sorted _ P')) as Hd. rewrite Ee in *.
  rewrite list_to_map_insert_mid by done. by rewrite take_drop.
Qed.
End seek.

(** * Splits seen from the key *)

Lemma repr_map t T H t' T' H' : repr t T H -> repr t' T' H' -> kvs T' = kvs T -> tree_map t' = tree_map t.
Proof. intros R R' E. unfold tree_map. by rewrite (repr_entries _ _ _ R), (repr_entries _ _ _ R'), E. Qed.

(** The key's leaf after its page was cut: one of the halves. *)
Lemma split_focus t H ctx bf n lo hi key s sep t' H' ctxL ctxR L R :
  focus t H ctx bf n lo hi key ->
  split_at t ctx (Node bf n []) 0 lo hi n s sep t' H' ctxL ctxR L R ->
  exists ctx' bf' n' lo' hi', focus t' H' ctx' bf' n' lo' hi' key /\ tree_map t' = tree_map t /\
    (length ctx' <= Nat.max 1 (length ctx))%nat /\
    (entries n' = take (s + 1) (entries n) \/ entries n' = drop (s + 1) (entries n)).
Proof.
  intros F [Rp Same CL CR Hv Ek Hfr [Hh1 Hh2]]. pose proof (fo_page _ _ _ _ _ _ _ _ F) as PA.
  pose proof (repr_map _ _ _ _ _ _ (fo_repr _ _ _ _ _ _ _ _ F) Rp Ek) as Em.
  pose proof (hv_lentries _ _ _ _ _ _ _ _ _ Hv) as EL. pose proof (hv_rentries _ _ _ _ _ _ _ _ _ Hv) as ER.
  unfold cut_end in EL. rewrite (pa_leaf _ _ _ _ PA) in EL.
  pose proof (hv_left _ _ _ _ _ _ _ _ _ Hv) as HL. pose proof (hv_right _ _ _ _ _ _ _ _ _ Hv) as HR.
  destruct L as [bl l csl], R as [br r csr]. destruct HL as (PL & -> & SL), HR as (PR & -> & SR). simpl in *.
  pose proof (fo_in _ _ _ _ _ _ _ _ F) as [I1 I2]. pose proof (fo_key _ _ _ _ _ _ _ _ F) as Hk.
  destruct (decide (sep <ₗ key)) as [Hlt|Hge].
  - exists ctxR, br, r, (Some sep), hi. split; [|split; [done|split; [lia|by right]]].
    rewrite Same in Rp. constructor; try done. split; [by intros lf [= <-]|done].
  - apply lex_nlt_le in Hge. exists ctxL, bl, l, lo, (Some sep). split; [|split; [done|split; [lia|by left]]].
    constructor; try done. split; [done|by intros uf [= <-]].
Qed.

Section insert.
Context (flags : Flags) (Hbulk : FLAGS_bulk_insert flags = false).
Context (key value : list Z) (Hsm : small (key, value)) (Hv : Forall is_byte value).

(** What one split of a full leaf, or of an ancestor in its way, leaves. *)
Lemma splitForKey_focus t H ctx bf n lo hi pos :
  focus t H ctx bf n lo hi key -> 0 <= pos ->
  canInsert n (length key) (length value) = false -> (2 <= length (free_list t))%nat ->
  exists t' H' ctx' bf' n' lo' hi',
    splitForKey flags t (mkIter (Some bf) pos) key = Some (t', new_iter) /\
    focus t' H' ctx' bf' n' lo' hi' key /\ tree_map t' = tree_map t /\
    (length (free_list t) <= 2 + length (free_list t'))%nat /\
    ((length ctx' <= Nat.max 1 (length ctx) /\ 15 <= count n /\
      count n' <= count n / 2 + count n / 16 + 1)%nat \/
     (n' = n /\ leading ctx' < leading ctx /\
      (length ctx' <= length ctx \/ leading ctx = length ctx /\ length ctx' <= S (length ctx)))%nat).
Proof.
  intros F Hpos Hno Hfl. pose proof (fo_page _ _ _ _ _ _ _ _ F) as PA. pose proof (fo_small _ _ _ _ _ _ _ _ F) as Hs.
  pose proof (full_leaf_count _ _ _ _ _ PA Hs (fo_in _ _ _ _ _ _ _ _ F) Hsm Hno) as Hc.
  pose proof (findSep_leaf_cut _ _ _ PA Hs ltac:(lia)) as C. pose proof (pa_ok _ _ _ _ PA) as P.
  unfold splitForKey, splitForKeyMightFail. cbn [cur]. rewrite (proj2 (Z.eqb_neq pos (-1))) by lia.
  rewrite (leaf_of_focus _ _ _ _ _ _ _ _ F). cbn [mbind option_bind].
  unfold keyFitsInCurrentNode. rewrite (boundaries_focus _ _ _ _ _ _ _ _ F). cbn [Z.eqb mbind option_bind].
  destruct (trySplit_ok flags Hbulk ctx (Z.to_nat (height t)) t H bf n [] 0 lo hi (-1)) as (t' & H' & Et & Out);
    rewrite ?split_info_default by done; try done.
  - apply F.
  - apply F.
  - lia.
  - apply findSep_length; [done|lia].
  - pose proof (ctx_height _ _ _ _ _ _ (fo_ctx _ _ _ _ _ _ _ _ F)). rewrite (re_height _ _ _ (fo_repr _ _ _ _ _ _ _ _ F)). lia.
  - unfold trySplit_page. rewrite Et. cbn [mbind option_bind].
    destruct Out as [(ctxL & ctxR & L & R & Sa)|(ctx' & Gr)].
    + rewrite split_info_default in Sa by done.
      destruct (split_focus _ _ _ _ _ _ _ _ _ _ _ _ _ _ _ _ F Sa) as (ctx' & bf' & n' & lo' & hi' & F' & Em & Hlen & Ee).
      exists t', H', ctx', bf', n', lo', hi'. split; [done|]. split; [done|]. split; [done|].
      split; [apply Sa|]. left. split; [done|]. split; [done|].
      pose proof (length_entries n') as Hn'. pose proof (findSep_window n ltac:(lia)) as (_ & W2 & W3).
      pose proof (Nat.div_mod_eq (count n) 2). pose proof (Nat.mod_upper_bound (count n) 2 ltac:(lia)).
      pose proof (Nat.div_mod_eq (count n) 16). pose proof (Nat.mod_upper_bound (count n) 16 ltac:(lia)).
      destruct Ee as [Ee|Ee]; rewrite Ee in Hn'; rewrite ?length_take, ?length_drop, length_entries in Hn'; lia.
    + destruct Gr as [R1 R2 R3 R4 R5 R6]. exists t', H', ctx', bf, n, lo, hi. split; [done|].
      split; [destruct F; by constructor|]. split; [by eapply repr_map; [apply F|..]|]. split; [lia|].
      right. done.
Qed.

(** ** Termination of the restart loop *)

(** A leaf of at most [phase p] entries is cut at most [p] times: a cut leaves
    9/16 of the entries at most, and 14 entries always leave room. *)
Fixpoint phase (p : nat) : nat :=
  match p with O => 14 | S p' => phase p' + phase p' / 2 end.

(** Rounds of the loop: [d] full ancestors are split before a cut of the leaf;
    the path has at most [m] pages. *)
Fixpoint rounds (p d m : nat) : nat :=
  match p with O => 1 | S p' => d + 1 + rounds p' (S m) (S m) end.

Lemma phase_ge p : (14 <= phase p)%nat.
Proof. induction p; simpl phase; lia. Qed.

Lemma phase_cut c p : (c <= phase (S p) -> c / 2 + c / 16 + 1 <= phase p)%nat.
Proof.
  pose proof (phase_ge p). cbn [phase]. generalize dependent (phase p). intros b Hb Hc.
  pose proof (Nat.div_mod_eq c 2). pose proof (Nat.div_mod_eq c 16). pose proof (Nat.div_mod_eq b 2).
  pose proof (Nat.mod_upper_bound b 2 ltac:(lia)). lia.
Qed.

Lemma rounds_pos p d m : (1 <= rounds p d m)%nat.
Proof. destruct p; simpl; lia. Qed.

(** The path's length, counting the root that a split through it would add. *)
Definition path_cap (ctx : list crumb) : nat :=
  length ctx + if (leading ctx =? length ctx)%nat then 1 else 0.

(** One round: the key goes in, or the loop goes on after a split. *)
Lemma insertKV_round fuel t H ctx bf n lo hi it :
  focus t H ctx bf n lo hi key -> at_leaf bf it -> tree_map t !! key = None ->
  (2 <= length (free_list t))%nat ->
  (exists t' it', insertKV flags (S fuel) t it key value = Some (t', it', OK) /\
     tree_ok t' /\ tree_map t' = <[key := value]> (tree_map t) /\ free_list t' = free_list t) \/
  (exists t' H' ctx' bf' n' lo' hi',
     insertKV flags (S fuel) t it key value = insertKV flags fuel t' new_iter key value /\
     focus t' H' ctx' bf' n' lo' hi' key /\ tree_map t' = tree_map t /\
     (length (free_list t) <= 2 + length (free_list t'))%nat /\
     (15 <= count n)%nat /\
     ((path_cap ctx' <= S (path_cap ctx) /\ count n' <= count n / 2 + count n / 16 + 1)%nat \/
      (n' = n /\ leading ctx' < leading ctx /\ path_cap ctx' <= path_cap ctx)%nat)).
Proof.
  intros F A Hno Hfr. cbn [insertKV]. destruct (seekToInsert_focus _ _ _ _ _ _ _ _ F it A) as [pos ->].
  cbn [mbind option_bind]. rewrite Hno. rewrite decide_True by done.
  unfold canInsertInCurrentNode. rewrite (leaf_of_focus _ _ _ _ _ _ _ _ F). cbn [mbind option_bind].
  destruct (canInsert n (length key) (length value)) eqn:Hcan.
  - left. destruct (insertInCurrentNode_focus _ _ _ _ _ _ _ _ F value (Z.of_nat pos) Hno Hsm Hv Hcan)
      as (t' & it' & E & T1 & T2 & T3).
    rewrite decide_True by done. rewrite E. cbn [mbind option_bind]. eauto 10.
  - right. rewrite decide_False by done.
    destruct (splitForKey_focus _ _ _ _ _ _ _ (Z.of_nat pos) F ltac:(lia) Hcan Hfr)
      as (t' & H' & ctx' & bf' & n' & lo' & hi' & E & F' & Em & Hfr' & Out).
    exists t', H', ctx', bf', n', lo', hi'. rewrite E. cbn [mbind option_bind].
    do 4 (split; [done|]). split; [by eapply full_leaf_count; [apply F..| |]|].
    pose proof (leading_le ctx). pose proof (leading_le ctx'). unfold path_cap.
    destruct (Nat.eqb_spec (leading ctx) (length ctx)), (Nat.eqb_spec (leading ctx') (length ctx'));
      destruct Out as [(O1 & _ & O3)|(O1 & O2 & O3)]; [left|right|left|right|left|right|left|right]; split_and!;
      try done; try lia.
    all: destruct ctx; simpl in *; lia.
Qed.

Lemma insertKV_loop p : forall d m fuel t H ctx bf n lo hi it,
  focus t H ctx bf n lo hi key -> at_leaf bf it -> tree_map t !! key = None ->
  (count n <= phase p)%nat -> (leading ctx <= d)%nat -> (path_cap ctx <= m)%nat ->
  (rounds p d m <= fuel)%nat -> (2 * rounds p d m <= length (free_list t))%nat ->
  exists t' it', insertKV flags fuel t it key value = Some (t', it', OK) /\
    tree_ok t' /\ tree_map t' = <[key := value]> (tree_map t) /\
    (length (free_list t) <= 2 * rounds p d m + length (free_list t'))%nat.
Proof.
  induction p as [|p IHp]; intros d; induction d as [|d IHd];
    intros m fuel t H ctx bf n lo hi it F A Hno Hp Hd Hm Hfuel Hfr;
    (destruct fuel as [|fuel]; [simpl in Hfuel; lia|]);
    (destruct (insertKV_round fuel _ _ _ _ _ _ _ it F A Hno) as
      [(t' & it' & E & T1 & T2 & T3)|(t' & H' & ctx' & bf' & n' & lo' & hi' & E & F' & Em & Hfr' & H15 & Out)];
      [simpl in Hfr; lia|exists t', it'; rewrite T3; split_and!; (done || lia)|]);
    try (simpl in Hp; lia); destruct Out as [(O1 & O3)|(-> & O2 & O3)]; try lia;
    rewrite E, <- Em; rewrite <- Em in Hno; cbn [rounds] in Hfuel, Hfr |- *.
  - pose proof (phase_cut _ _ Hp) as Hp'. pose proof (leading_le ctx').
    destruct (IHp (S m) (S m) fuel _ _ _ _ _ _ _ new_iter F') as (t2 & it2 & E2 & T1 & T2 & T3);
      [by left|done|lia|unfold path_cap in *; lia|lia|lia|lia|].
    exists t2, it2. split_and!; (done || lia).
  - pose proof (phase_cut _ _ Hp) as Hp'. pose proof (leading_le ctx').
    destruct (IHp (S m) (S m) fuel _ _ _ _ _ _ _ new_iter F') as (t2 & it2 & E2 & T1 & T2 & T3);
      [by left|done|lia|unfold path_cap in *; lia|lia|lia|lia|].
    exists t2, it2. split_and!; (done || lia).
  - cbn [rounds] in IHd. destruct (IHd m fuel _ _ _ _ _ _ _ new_iter F') as (t2 & it2 & E2 & T1 & T2 & T3);
      [by left|done|done|lia|lia|lia|lia|].
    exists t2, it2. split_and!; (done || lia).
Qed.
End insert.

(** * insert *)

(** Rounds that are always enough: twelve cuts of the leaf, each behind splits
    of full ancestors. *)
Definition insert_rounds (t : BTree) : nat := 12 * Z.to_nat (height t) + 79.

Lemma rounds_12 m : rounds 12 m m = (12 * m + 79)%nat.
Proof. cbn [rounds]. lia. Qed.

Lemma page_count_le n : page_ok n -> (count n <= phase 12)%nat.
Proof.
  intros P. pose proof (page_room n P) as [_ R]. pose proof (page_bounds n P) as (B & _).
  assert (phase 12 = 1750)%nat as -> by reflexivity. consts. lia.
Qed.

Section insert_top.
Context (flags : Flags) (Hbulk : FLAGS_bulk_insert flags = false).

Lemma insertKV_ok fuel t key value it :
  tree_ok t -> Forall is_byte key -> Forall is_byte value -> small (key, value) ->
  (cur it = -1 \/ exists bf, findLeafCanJump t key = Some bf /\ it_leaf it = Some bf) ->
  (insert_rounds t <= fuel)%nat -> (2 * insert_rounds t <= length (free_list t))%nat ->
  exists t' it' r, insertKV flags fuel t it key value = Some (t', it', r) /\ tree_ok t' /\
    (length (free_list t) <= 2 * insert_rounds t + length (free_list t'))%nat /\
    match tree_map t !! key with
    | None => r = OK /\ tree_map t' = <[key := value]> (tree_map t)
    | Some _ => r = DUPLICATE /\ t' = t
    end.
Proof.
  intros Ht Hk Hv Hsm Hit Hfuel Hfr. destruct (tree_focus t key Ht Hk) as (H & ctx & bf & n & lo & hi & F).
  pose proof (fo_repr _ _ _ _ _ _ _ _ F) as R.
  assert (at_leaf bf it) as A.
  { destruct Hit as [?|(bf' & E & Eit)]; [by left|]. right. rewrite Eit, <- E. f_equal.
    by apply (focus_find _ _ _ _ _ _ _ _ F). }
  unfold insert_rounds in *. rewrite (re_height _ _ _ R), Nat2Z.id in *.
  pose proof (ctx_height _ _ _ _ _ _ (fo_ctx _ _ _ _ _ _ _ _ F)) as Hh. pose proof (leading_le ctx) as Hld.
  destruct (tree_map t !! key) as [v|] eqn:Em.
  - destruct fuel as [|fuel]; [lia|]. cbn [insertKV].
    destruct (seekToInsert_focus _ _ _ _ _ _ _ _ F it A) as [pos ->]. rewrite Em. cbn [mbind option_bind].
    rewrite decide_False by done. eexists _, _, _. split; [done|]. split; [done|]. split; [lia|done].
  - destruct (insertKV_loop flags Hbulk key value Hsm Hv 12 (S H) (S H) fuel t H ctx bf n lo hi it F A Em)
      as (t' & it' & E & T1 & T2 & T3); rewrite ?rounds_12; try lia.
    + apply page_count_le, F.
    + unfold path_cap. destruct (_ =? _)%nat; lia.
    + exists t', it', OK. rewrite rounds_12 in T3. split_and!; (done || lia).
Qed.

Lemma ll_insert_ok fuel t key value :
  tree_ok t -> Forall is_byte key -> Forall is_byte value -> small (key, value) ->
  (insert_rounds t <= fuel)%nat -> (2 * insert_rounds t <= length (free_list t))%nat ->
  exists t' r, ll_insert flags fuel t key value = Some (t', r) /\ tree_ok t' /\
    (length (free_list t) <= 2 * insert_rounds t + length (free_list t'))%nat /\
    match tree_map t !! key with
    | None => r = OK /\ tree_map t' = <[key := value]> (tree_map t)
    | Some _ => r = DUPLICATE /\ t' = t
    end.
Proof.
  intros Ht Hk Hv Hsm Hfuel Hfr.
  destruct (insertKV_ok fuel t key value new_iter Ht Hk Hv Hsm (or_introl eq_refl) Hfuel Hfr) as (t' & it' & r & E & T1 & T2 & T3).
  unfold ll_insert. rewrite E. cbn [mbind option_bind]. exists t', r.
  destruct (tree_map t !! key) as [v|]; destruct T3 as [-> T3].
  - rewrite decide_True by done. done.
  - rewrite decide_False, decide_True by done. done.
Qed.

(** [insert_might_fail]: no split, so no condition on the frames. *)
Lemma ll_insert_might_fail_ok t key value :
  tree_ok t -> Forall is_byte key -> Forall is_byte value -> small (key, value) ->
  exists t' r, ll_insert_might_fail t key value = Some (t', r) /\ tree_ok t' /\ free_list t' = free_list t /\
    match tree_map t !! key with
    | None => (r = OK /\ tree_map t' = <[key := value]> (tree_map t)) \/ (r = NOT_ENOUGH_SPACE /\ t' = t)
    | Some _ => r = DUPLICATE /\ t' = t
    end.
Proof.
  intros Ht Hk Hv Hsm. destruct (tree_focus t key Ht Hk) as (H & ctx & bf & n & lo & hi & F).
  unfold ll_insert_might_fail, insertKVMightFail.
  destruct (seekToInsert_focus _ _ _ _ _ _ _ _ F new_iter (or_introl eq_refl)) as [pos ->].
  cbn [mbind option_bind]. destruct (tree_map t !! key) as [v|] eqn:Em.
  - rewrite decide_False by done. cbn [mbind option_bind]. rewrite decide_True by done. eauto 10.
  - rewrite decide_True by done. unfold canInsertInCurrentNode.
    rewrite (leaf_of_focus _ _ _ _ _ _ _ _ F). cbn [mbind option_bind].
    destruct (canInsert n (length key) (length value)) eqn:Hcan.
    + destruct (insertInCurrentNode_focus _ _ _ _ _ _ _ _ F value (Z.of_nat pos) Em Hsm Hv Hcan)
        as (t' & it' & E & T1 & T2 & T3).
      rewrite decide_True by done. rewrite E. cbn [mbind option_bind].
      rewrite !decide_False, decide_True by done. exists t', OK. eauto 10.
    + rewrite decide_False by done. cbn [mbind option_bind]. rewrite decide_False, decide_True by done.
      exists t, NOT_ENOUGH_SPACE. eauto 10.
Qed.

End insert_top.
