(* ===== verification/BTreeMerge.v ===== *)
(** Page merges in the tree: [tryMerge] keeps the tree well formed and its
    bindings, whether it merges with the left sibling, the right one, or not
    at all, and on every level it climbs to. *)
From stdpp Require Import sorting gmap.
From S2P Require Import Prelude BTreeNode BTreeNodeSearch BTreeNodeSpace BTreeNodeOps BTreeNodeSplit BTreeNodeMerge BTreeInterface BTree BTreeIterator BTreeShape BTreePath BTreeContents BTreeLookup BTreeSplit BTreeRoom BTreeInsert.
Local Open Scope Z_scope.

(** * The space bound does not wrap in the tree *)

Lemma common_prefix_ultra a b c :
  (Nat.min (common_prefix_len a b) (common_prefix_len b c) <= common_prefix_len a c)%nat.
Proof.
  revert b c; induction a as [|x a IH]; intros [|y b] [|z c]; simpl; try lia.
  specialize (IH b c). destruct (Z.eqb_spec x y) as [->|]; [|simpl; lia].
  destruct (Z.eqb_spec y z) as [->|]; simpl; lia.
Qed.

Lemma common_prefix_le a b : (common_prefix_len a b <= length b)%nat.
Proof. apply common_prefix_take. Qed.

Lemma merge_need_small l r mid :
  page_ok l -> page_ok r -> adjacent l r mid -> (length mid <= max_key)%nat ->
  underFullSize <= freeSpaceAfterCompaction l -> underFullSize <= freeSpaceAfterCompaction r ->
  merge_need l r < 65000.
Proof.
  intros Pl Pr (E1 & E2 & Hf) Hm Ul Ur. rewrite !freeSpaceAfterCompaction_eq in * by done.
  pose proof (common_prefix_ultra (default [] (getLowerFenceKey l)) mid (default [] (getUpperFenceKey r))) as Hu.
  pose proof (ho_prefix _ _ (po_heap _ Pl)) as Hpl. pose proof (ho_prefix _ _ (po_heap _ Pr)) as Hpr.
  rewrite E1 in Hpl. rewrite E2 in Hpr. simpl in Hpl, Hpr. rewrite <- Hpl, <- Hpr in Hu.
  pose proof (common_prefix_le (default [] (getLowerFenceKey l)) mid) as L1.
  pose proof (proj1 (proj2 (common_prefix_take mid (default [] (getUpperFenceKey r))))) as L2.
  rewrite <- Hpl in L1. rewrite <- Hpr in L2.
  pose proof (common_prefix_narrow _ _ _ Hf) as [N1 N2]. rewrite <- Hpl in N1. rewrite <- Hpr in N2.
  pose proof (page_bounds l Pl) as (_ & B1 & _). pose proof (page_bounds r Pr) as (_ & B2 & _).
  change underFullSize with 9811 in *.
  unfold merge_need. set (pt := common_prefix_len _ _) in *. room_consts.
  pose proof (Z.mul_le_mono_nonneg_r (Z.of_nat (prefix_length l) - Z.of_nat pt) 64 (Z.of_nat (count l)) ltac:(lia) ltac:(lia)).
  pose proof (Z.mul_le_mono_nonneg_r (Z.of_nat (prefix_length r) - Z.of_nat pt) 64 (Z.of_nat (count r)) ltac:(lia) ltac:(lia)).
  assert (pt = prefix_length l \/ pt = prefix_length r) as [Hp|Hp] by lia; rewrite Hp in *; lia.
Qed.

(** * Merging two siblings *)

Section segments.
Context (P : bound -> bound -> tree -> Prop).

Lemma kids_join lo sl csl mid sr csr hi :
  kids P lo sl csl (Some mid) -> kids P (Some mid) sr csr hi ->
  kids P lo (sl ++ mid :: sr) (csl ++ csr) hi.
Proof.
  revert lo csl; induction sl as [|s sl IH]; intros lo [|c csl] H1 H2; try done.
  - destruct H1 as (m & Hc & Hr). destruct csl; [|done]. simpl in Hr. subst m.
    exists (Some mid). split; [done|]. by apply rseg_cons.
  - destruct H1 as (m & Hc & [-> H1]%rseg_cons). exists (Some s). split; [done|].
    apply (rseg_cons P (Some s) s (sl ++ mid :: sr) (csl ++ csr) hi). split; [done|]. by apply IH.
Qed.
End segments.

(** All separators lie below the bound of the last child. *)
Lemma kids_below h lo ss cs u : kids (wf h) lo ss cs (Some u) -> forall s, s ∈ ss -> s <ₗ u.
Proof.
  revert lo cs; induction ss as [|s0 ss IH]; intros lo [|c cs] Hk s Hs; try done; [by apply not_elem_of_nil in Hs|].
  destruct Hk as (m & _ & [-> Hk]%rseg_cons). pose proof (IH _ _ Hk) as Hb.
  apply elem_of_cons in Hs as [->|Hs]; [|by apply Hb].
  destruct cs as [|c1 cs]; [done|]. destruct Hk as (m & Hc1 & Hr).
  apply wf_page in Hc1 as [lf Hc1]. apply rseg_head in Hr. destruct ss as [|s1 ss]; subst m.
  - by apply (pa_order _ _ _ _ Hc1).
  - eapply lex_lt_trans; [by apply (pa_order _ _ _ _ Hc1)|]. apply Hb, elem_of_cons. by left.
Qed.

Lemma links_join l r m sl bl sr br mid :
  links l sl bl -> links r sr br ->
  entries m = entries l ++ [(mid, to_le sizeof_SwipType (upper l))] ++ entries r -> upper m = upper r ->
  links m (sl ++ mid :: sr) (bl ++ br).
Proof.
  intros [El Ul Ll Al] [Er Ur Lr Ar] Em Um. apply last_Some in Ul as [bl' ->].
  rewrite length_app in Ll. simpl in Ll. rewrite zip_extra in El by lia. constructor.
  - rewrite <- app_assoc, zip_split by lia. rewrite Em, El, Er. done.
  - destruct br as [|b br]; [done|]. rewrite last_app_cons, Um. exact Ur.
  - rewrite !length_app. simpl. lia.
  - by apply Forall_app.
Qed.

Lemma page_at_join leaf lo mid hi l r m :
  page_at leaf lo (Some mid) l -> page_at leaf (Some mid) hi r -> page_ok m -> is_leaf m = leaf ->
  getLowerFenceKey m = lo -> getUpperFenceKey m = hi -> page_at leaf lo hi m.
Proof.
  intros Al Ar P Hl E1 E2. apply page_at_new; try done; [apply Al|apply Ar|].
  intros a b Ea Eb. eapply lex_lt_trans; [by apply (pa_order _ _ _ _ Al)|by apply (pa_order _ _ _ _ Ar)].
Qed.

Lemma page_at_adjacent leaf lo mid hi l r :
  page_at leaf lo (Some mid) l -> page_at leaf (Some mid) hi r -> adjacent l r mid.
Proof.
  intros Al Ar. split; [apply Al|]. split; [apply Ar|]. rewrite (pa_lo _ _ _ _ Al), (pa_hi _ _ _ _ Ar). split.
  - intros lf E. by apply (pa_order _ _ _ _ Al).
  - intros uf E. apply lex_le_lteq. left. by apply (pa_order _ _ _ _ Ar).
Qed.

Lemma node_merge h lo mid hi bl l csl br r csr parent slotId :
  let L := Node bl l csl in
  let R := Node br r csr in
  wf h lo (Some mid) L -> wf h (Some mid) hi R ->
  page_ok parent -> copyFullKey parent slotId = mid ->
  underFullSize <= freeSpaceAfterCompaction l -> underFullSize <= freeSpaceAfterCompaction r ->
  merge l slotId parent r = None \/
  exists m, merge l slotId parent r = Some (removeSlot parent slotId, m) /\
    wf h lo hi (Node br m (csl ++ csr)) /\ kvs (Node br m (csl ++ csr)) = kvs L ++ kvs R.
Proof.
  intros L R HL HR Pp Em Ul Ur.
  assert (exists leaf, page_at leaf lo (Some mid) l /\ page_at leaf (Some mid) hi r) as (leaf & PL & PR).
  { destruct h; [exists true|exists false]; split; apply HL || apply HR. }
  assert (length mid <= max_key)%nat as Hm by (by apply (pa_good_hi _ _ _ _ PL)).
  pose proof (page_at_adjacent _ _ _ _ _ _ PL PR) as Ha.
  pose proof (pa_ok _ _ _ _ PL) as Pl. pose proof (pa_ok _ _ _ _ PR) as Pr.
  pose proof (merge_need_small _ _ _ Pl Pr Ha Hm Ul Ur) as Hn.
  destruct h as [|h].
  - destruct HL as (PL' & -> & SL), HR as (PR' & -> & SR). pose proof (pa_leaf _ _ _ _ PL') as Hl.
    rewrite (merge_leaf_eq l r parent slotId mid) by (done || lia).
    destruct (Z.ltb_spec EFFECTIVE_PAGE_SIZE (merge_need l r)) as [|Hfit]; [by left|]. right.
    destruct (merge_leaf_page l r mid Pl Pr Ha true Hfit) as (M1 & M2 & M3 & M4 & M5).
    eexists. split; [done|]. split.
    + simpl. split; [eapply page_at_join; [exact PL'|exact PR'|exact M1|exact M5| |]|].
      * rewrite <- (pa_lo _ _ _ _ PL'). exact M3.
      * rewrite <- (pa_hi _ _ _ _ PR'). exact M4.
      * split; [done|]. change (Forall small (entries (joined_leaf l r))).
        rewrite (M2 : entries (joined_leaf l r) = _). by apply Forall_app.
    + unfold L, R. cbn [app]. rewrite !kvs_leaf. exact M2.
  - destruct HL as (PL' & ssl & LL & KL), HR as (PR' & ssr & LR & KR). pose proof (pa_leaf _ _ _ _ PL') as Hl.
    assert (merge_inner_need l r mid < 65536) as Hw.
    { unfold merge_inner_need. room_consts. lia. }
    rewrite (merge_inner_eq l r parent slotId mid) by (done || lia).
    destruct (Z.ltb_spec EFFECTIVE_PAGE_SIZE (merge_inner_need l r mid)) as [|Hfit]; [by left|]. right.
    assert (forall e, e ∈ entries l -> e.1 <ₗ mid) as Hlt.
    { intros e He. apply (kids_below _ _ _ _ _ KL). rewrite <- (links_keys _ _ _ LL).
      apply list_elem_of_fmap. eauto. }
    assert (Forall is_byte mid) as Hb by (rewrite <- Em; by apply copyFullKey_bytes).
    destruct (merge_inner_page l r mid Pl Pr Ha false (upper l) (upper r) Hfit Hb Hlt) as (M1 & M2 & M3 & M4 & M5).
    eexists. split; [done|]. split.
    + simpl. split; [eapply page_at_join; [exact PL'|exact PR'|exact M1|exact M5| |]|].
      * rewrite <- (pa_lo _ _ _ _ PL'). exact M3.
      * rewrite <- (pa_hi _ _ _ _ PR'). exact M4.
      * exists (ssl ++ mid :: ssr). split; [|by apply kids_join].
        rewrite map_app. eapply links_join; [exact LL|exact LR|exact M2|done].
    + pose proof (kids_length _ _ _ _ _ KL). pose proof (kids_length _ _ _ _ _ KR).
      unfold L, R. destruct csl as [|cl csl]; [done|]. destruct csr as [|cr csr]; [done|].
      simpl app. rewrite !kvs_inner. change (cl :: csl ++ cr :: csr) with ((cl :: csl) ++ cr :: csr).
      by rewrite flat_map_app.
Qed.

(** * The parent *)

Lemma links_lose n n' sl mid sr bl bL bR br :
  links n (sl ++ mid :: sr) (bl ++ bL :: bR :: br) -> length sl = length bl ->
  entries n' = take (length sl) (entries n) ++ drop (S (length sl)) (entries n) -> upper n' = upper n ->
  links n' (sl ++ sr) (bl ++ bR :: br).
Proof.
  intros [E U Ln A] Hl E' U'. rewrite zip_split in E by done. cbn [zip_with] in E.
  assert (length (zip_with (fun s b => (s, to_le sizeof_SwipType b)) sl bl) = length sl) as Hz
    by (rewrite length_zip_with_l; lia).
  apply Forall_app in A as [A1 A2]. apply list.Forall_cons in A2 as [_ A2]. constructor.
  - rewrite E', E, zip_split by done. f_equal.
    + apply take_app_length'. symmetry. exact Hz.
    + rewrite drop_app_ge by lia. by replace (S (length sl) - _)%nat with 1%nat by lia.
  - rewrite U', <- U, !last_app_cons. done.
  - rewrite !length_app in *. simpl in *. lia.
  - by apply Forall_app.
Qed.

(** Two neighbouring children of a page: the fence they share is the key of
    the left one's slot, and one subtree between their outer bounds can take
    their place. *)
Lemma siblings h plo phi p pn cl L R cr :
  wf (S h) plo phi (Node p pn (cl ++ L :: R :: cr)) ->
  exists lo mid hi, wf h lo (Some mid) L /\ wf h (Some mid) hi R /\
    copyFullKey pn (length cl) = mid /\ getChild pn (length cl) = bf_of L /\ (length cl < count pn)%nat /\
    (S (length cl) < count pn -> getChild pn (S (length cl)) = bf_of R)%nat /\
    forall M, wf h lo hi M -> bf_of M = bf_of R ->
      wf (S h) plo phi (Node p (removeSlot pn (length cl)) (cl ++ M :: cr)).
Proof.
  intros (PA & ss & Lk & Hk). pose proof (kids_length _ _ _ _ _ Hk) as Hlen. rewrite length_app in Hlen. simpl in Hlen.
  rewrite <- (take_drop (length cl) ss) in Hk, Lk.
  assert (length (take (length cl) ss) = length cl) as Ht by (rewrite length_take; lia).
  apply kids_focus in Hk as (lo & m & H1 & H2 & H3); [|done].
  destruct (drop (length cl) ss) as [|mid sr] eqn:Ed; [done|].
  destruct H3 as (-> & hi & H3 & H4). set (sl := take (length cl) ss) in *.
  rewrite map_app in Lk. cbn [map] in Lk. pose proof (links_count _ _ _ Lk) as Hc. rewrite length_app, Ht in Hc. simpl in Hc.
  assert ((entries pn).*1 !! length cl = Some mid) as Hmid.
  { rewrite (links_keys _ _ _ Lk), lookup_app_r by lia. by rewrite Ht, Nat.sub_diag. }
  exists lo, mid, hi. split; [done|]. split; [done|]. split; [|split; [|split; [lia|split]]].
  - rewrite list_lookup_fmap, lookup_entries in Hmid by lia. by injection Hmid.
  - destruct (links_child _ _ _ (length cl) (bf_of L) Lk) as [[_ E]|[E _]]; [|done|rewrite length_app, Ht in E; simpl in E; lia].
    rewrite lookup_app_r; rewrite length_map; [|lia]. by rewrite Nat.sub_diag.
  - intros Hlt. destruct (links_child _ _ _ (S (length cl)) (bf_of R) Lk) as [[_ E]|[E _]]; [|done|rewrite length_app, Ht in E; simpl in E; lia].
    rewrite lookup_app_r; rewrite length_map; [|lia]. by replace (S (length cl) - length cl)%nat with 1%nat by lia.
  - intros M HM EM. destruct (removeSlot_ok pn (length cl) (pa_ok _ _ _ _ PA) ltac:(lia)) as (P' & F & _ & Ee & _).
    cbn [wf]. split; [by eapply page_at_frame|]. exists (sl ++ sr). split.
    + rewrite map_app. cbn [map]. rewrite EM. eapply links_lose; [exact Lk|by rewrite Ht, length_map|by rewrite Ht|].
      by destruct F as (_ & _ & _ & -> & _).
    + apply kids_focus; [done|]. eauto.
Qed.

(** * The state after a merge *)

Lemma delete_frames (m : gmap Z BTreeNode) a b c xa xb xc yb yc :
  a <> b -> a <> c -> b <> c -> m !! a = None ->
  delete a (<[b := yb]> (<[c := yc]> (<[a := xa]> (<[b := xb]> (<[c := xc]> m))))) = <[b := yb]> (<[c := yc]> m).
Proof.
  intros Hab Hac Hbc Ha. apply map_eq. intros i.
  destruct (decide (i = a)) as [->|]; [by simplify_map_eq|].
  destruct (decide (i = b)) as [->|]; [by simplify_map_eq|].
  destruct (decide (i = c)) as [->|]; by simplify_map_eq.
Qed.

Lemma repr_merge t H ctx h plo phi p pn pn' cl bl l csl br r csr cr m :
  repr t (plug ctx (Node p pn (cl ++ Node bl l csl :: Node br r csr :: cr))) H ->
  ctx_wf H ctx p (S h) plo phi ->
  wf (S h) plo phi (Node p pn' (cl ++ Node br m (csl ++ csr) :: cr)) ->
  repr (reclaimPage (set_page (set_page t p pn') br m) bl) (plug ctx (Node p pn' (cl ++ Node br m (csl ++ csr) :: cr))) H.
Proof.
  intros Rp Hc Hw.
  set (rest := flat_map nodes csl ++ flat_map nodes csr ++ flat_map nodes cl ++ flat_map nodes cr ++ ctx_nodes ctx).
  set (T := plug ctx _) in Rp. set (T' := plug ctx _).
  assert (nodes T ≡ₚ (bl, l) :: (br, r) :: (p, pn) :: rest) as E1.
  { unfold T. rewrite nodes_plug. simpl. rewrite !flat_map_app. simpl. unfold rest. solve_Permutation. }
  assert (nodes T' ≡ₚ (br, m) :: (p, pn') :: rest) as E2.
  { unfold T'. rewrite nodes_plug. simpl. rewrite !flat_map_app. simpl. rewrite !flat_map_app. unfold rest. solve_Permutation. }
  destruct (frames_perm _ _ _ _ Rp E1) as [Ef Hn].
  pose proof (re_nodup _ _ _ Rp) as Hnd. rewrite E1 in Hnd. cbn [fmap list_fmap fst] in Hnd.
  pose proof (re_addr _ _ _ Rp) as Had. rewrite E1 in Had. cbn [fmap list_fmap fst] in Had.
  cbn [fmap list_fmap fst] in Hn. pose proof Hn as [Hx1 [Hx2 _]%list.NoDup_cons]%list.NoDup_cons.
  apply not_elem_of_cons in Hx1 as [H1 Hx1]. apply not_elem_of_cons in Hx1 as [H2 Hx1].
  apply not_elem_of_cons in Hx2 as [H3 _].
  assert (NoDup ((bl :: free_list t) ++ (nodes T').*1)) as Hnd'.
  { rewrite E2. cbn [fmap list_fmap fst app]. by rewrite Permutation_middle. }
  constructor; cbn [reclaimPage set_page root height frames free_list].
  - by eapply plug_wf.
  - rewrite (re_root _ _ _ Rp). unfold T, T'. by rewrite !bf_plug.
  - apply Rp.
  - apply list.NoDup_app in Hnd' as (_ & _ & Hn'). rewrite Ef, (list_to_map_proper _ _ Hn' E2). cbn [list_to_map].
    apply delete_frames; try done. by apply not_elem_of_list_to_map.
  - done.
  - rewrite E2. cbn [fmap list_fmap fst app]. by rewrite Permutation_middle.
Qed.

(** The parent [p] is still there, over the same bindings. *)
Definition parent_stays (t t' : BTree) (H : nat) (ctx : list crumb) (p : Z) (h : nat) (plo phi : bound)
    (entries0 : list (list Z * list Z)) : Prop :=
  exists pn cs, repr t' (plug ctx (Node p pn cs)) H /\ wf (S h) plo phi (Node p pn cs) /\
    kvs (plug ctx (Node p pn cs)) = entries0 /\ (length (free_list t) <= length (free_list t'))%nat.

Lemma merge_pair t H ctx h plo phi p pn cl L R cr :
  let T := Node p pn (cl ++ L :: R :: cr) in
  repr t (plug ctx T) H -> ctx_wf H ctx p (S h) plo phi -> wf (S h) plo phi T ->
  underFullSize <= freeSpaceAfterCompaction (node_of L) ->
  underFullSize <= freeSpaceAfterCompaction (node_of R) ->
  merge (node_of L) (length cl) pn (node_of R) = None \/
  exists pn' m, merge (node_of L) (length cl) pn (node_of R) = Some (pn', m) /\
    parent_stays t (reclaimPage (set_page (set_page t p pn') (bf_of R) m) (bf_of L)) H ctx p h plo phi
      (kvs (plug ctx T)).
Proof.
  intros T Rp Hc HT Ul Ur. destruct (siblings _ _ _ _ _ _ _ _ _ HT) as (lo & mid & hi & HL & HR & Em & _ & Hi & _ & HM).
  destruct L as [bl l csl], R as [br r csr]. simpl in Ul, Ur |- *.
  pose proof HT as (PA & _). destruct (node_merge h lo mid hi bl l csl br r csr pn (length cl) HL HR (pa_ok _ _ _ _ PA) Em Ul Ur)
    as [|(m & Emg & Hm & Ek)]; [by left|]. right.
  exists (removeSlot pn (length cl)), m. split; [done|]. specialize (HM _ Hm eq_refl).
  exists (removeSlot pn (length cl)), (cl ++ Node br m (csl ++ csr) :: cr).
  split; [by eapply repr_merge|]. split; [done|]. split; [|simpl; lia].
  assert (forall q x y z, kvs (Node p q (x ++ y :: z)) = flat_map kvs x ++ kvs y ++ flat_map kvs z) as Hkv.
  { intros q x y z. destruct x as [|x0 x]; cbn [app]; [by rewrite kvs_inner|].
    rewrite kvs_inner. change (x0 :: x ++ y :: z) with ((x0 :: x) ++ y :: z). by rewrite flat_map_app. }
  rewrite !kvs_plug. unfold T. rewrite !Hkv, Ek. cbn [flat_map]. by rewrite <- !app_assoc.
Qed.

Section try_merge.
Context (t : BTree) (H : nat) (k : crumb) (ctx : list crumb) (T : tree) (h : nat) (lo hi plo phi : bound).
Context (sl sr : list (list Z)).
Context (Rp : repr t (plug (k :: ctx) T) H) (W : crumb_wf k (bf_of T) h lo hi plo phi sl sr).
Context (Hc : ctx_wf H ctx (cb k) (S h) plo phi) (HT : wf h lo hi T).
Context (Hu : underFullSize <= freeSpaceAfterCompaction (node_of T)).

Let stays t' := parent_stays t t' H ctx (cb k) h plo phi (kvs (plug (k :: ctx) T)).

Lemma stays_refl : stays t.
Proof.
  exists (cn k), (cl k ++ T :: cr k). split; [exact Rp|]. split; [by eapply plug1_wf|]. done.
Qed.

Lemma sibling_frame T' : T' ∈ cl k ++ T :: cr k -> frames t !! bf_of T' = Some (node_of T').
Proof.
  intros Hin. eapply repr_lookup; [exact Rp|]. rewrite plug_cons, nodes_plug. apply elem_of_app. left.
  eapply nodes_child; [exact Hin|]. apply nodes_self.
Qed.

Lemma parent_frame : frames t !! cb k = Some (cn k).
Proof. exact (repr_crumb t [] k ctx T H Rp). Qed.

Lemma merge_left_ok :
  (0 < length (cl k))%nat ->
  exists t' b, merge_left t (cb k) (bf_of T) (length (cl k)) = Some (t', b) /\ stays t' /\ (b = false -> t' = t).
Proof.
  intros Hpos. destruct (exists_last (l := cl k)) as (cl0 & L & Ecl); [intros E; rewrite E in Hpos; simpl in Hpos; lia|].
  pose proof (plug1_wf _ _ _ _ _ _ _ _ _ W HT) as HP. pose proof Rp as Rp0. rewrite plug_cons in Rp0.
  unfold plug1 in HP, Rp0. rewrite Ecl in HP, Rp0. rewrite <- app_assoc in HP, Rp0. cbn [app] in HP, Rp0.
  destruct (siblings _ _ _ _ _ _ _ _ _ HP) as (lo' & mid & hi' & _ & _ & _ & Eg & _).
  assert (length (cl k) - 1 = length cl0)%nat as Hl by (rewrite Ecl, length_app; simpl; lia).
  unfold merge_left. rewrite parent_frame. cbn [mbind option_bind].
  rewrite (sibling_frame T) by (apply elem_of_app; right; apply elem_of_cons; by left). cbn [mbind option_bind].
  rewrite Hl, Eg. rewrite (sibling_frame L).
  2: { rewrite Ecl. apply elem_of_app. left. apply elem_of_app. right. by apply list_elem_of_singleton. }
  cbn [mbind option_bind]. destruct (Z.ltb_spec (freeSpaceAfterCompaction (node_of L)) underFullSize).
  { exists t, false. split; [done|]. split; [apply stays_refl|done]. }
  destruct (merge_pair t H ctx h plo phi (cb k) (cn k) cl0 L T (cr k) Rp0 Hc HP) as [->|(pn' & m & -> & Hs)];
    [lia|done|exists t, false; split; [done|split; [apply stays_refl|done]]|].
  eexists _, true. split; [done|]. split; [|done]. unfold stays. rewrite plug_cons. unfold plug1.
  rewrite Ecl, <- app_assoc. exact Hs.
Qed.

Lemma merge_right_ok :
  (length (cl k) + 1 < count (cn k))%nat ->
  exists t' b, merge_right t (cb k) (bf_of T) (length (cl k)) = Some (t', b) /\ stays t'.
Proof.
  intros Hpos. pose proof (links_count _ _ _ (cw_links _ _ _ _ _ _ _ _ _ W)) as Hcnt. rewrite length_app in Hcnt.
  pose proof (lseg_length _ _ _ _ _ (cw_left _ _ _ _ _ _ _ _ _ W)) as H1.
  pose proof (rseg_length _ _ _ _ _ (cw_right _ _ _ _ _ _ _ _ _ W)) as H2.
  destruct (cr k) as [|R cr0] eqn:Ecr; [simpl in H2; lia|].
  pose proof (plug1_wf _ _ _ _ _ _ _ _ _ W HT) as HP. pose proof Rp as Rp0. rewrite plug_cons in Rp0.
  unfold plug1 in HP, Rp0. rewrite Ecr in HP, Rp0.
  destruct (siblings _ _ _ _ _ _ _ _ _ HP) as (lo' & mid & hi' & _ & _ & _ & Eg & _ & Eg2 & _).
  unfold merge_right. rewrite parent_frame. cbn [mbind option_bind].
  rewrite (sibling_frame T) by (apply elem_of_app; right; apply elem_of_cons; by left). cbn [mbind option_bind].
  rewrite Nat.add_1_r, Eg2 by lia. rewrite (sibling_frame R).
  2: { rewrite Ecr. apply elem_of_app. right. apply elem_of_cons. right. apply elem_of_cons. by left. }
  cbn [mbind option_bind]. destruct (Z.ltb_spec (freeSpaceAfterCompaction (node_of R)) underFullSize).
  { exists t, false. split; [done|]. apply stays_refl. }
  rewrite Eg, Z.eqb_refl. cbn [negb].
  destruct (merge_pair t H ctx h plo phi (cb k) (cn k) (cl k) T R cr0 Rp0 Hc HP) as [->|(pn' & m & -> & Hs)];
    [done|lia|exists t, false; split; [done|apply stays_refl]|].
  eexists _, true. split; [done|]. unfold stays. rewrite plug_cons. unfold plug1. by rewrite Ecr.
Qed.

Lemma merge_siblings_ok :
  exists t' b, merge_siblings t (cb k) (bf_of T) (length (cl k)) (count (cn k)) = Some (t', b) /\ stays t'.
Proof.
  unfold merge_siblings. destruct (Nat.ltb_spec 2 (count (cn k))); [|exists t, false; split; [done|apply stays_refl]].
  assert (exists t1 b1, (if (0 <? length (cl k))%nat then merge_left t (cb k) (bf_of T) (length (cl k)) else Some (t, false))
    = Some (t1, b1) /\ stays t1 /\ (b1 = false -> t1 = t)) as (t1 & b1 & -> & S1 & E1).
  { destruct (Nat.ltb_spec 0 (length (cl k))); [by apply merge_left_ok|].
    exists t, false. split; [done|]. split; [apply stays_refl|done]. }
  cbn [mbind option_bind]. destruct b1; cbn [negb andb]; [by exists t1, true|]. rewrite E1 by done.
  destruct (Nat.ltb_spec (length (cl k) + 1) (count (cn k))); [by apply merge_right_ok|].
  exists t, false. split; [done|apply stays_refl].
Qed.
End try_merge.

Lemma tryMerge_ok ctx : forall fuel t H T h lo hi,
  repr t (plug ctx T) H -> ctx_wf H ctx (bf_of T) h lo hi -> wf h lo hi T -> (length ctx < fuel)%nat ->
  exists t' b, tryMerge fuel t (bf_of T) = Some (t', b) /\ tree_ok t' /\ tree_map t' = tree_map t /\
    (length (free_list t) <= length (free_list t'))%nat.
Proof.
  induction ctx as [|k ctx IH]; intros [|fuel] t H T h lo hi Rp Hc HT Hf; simpl in Hf; try lia; cbn [tryMerge].
  - rewrite (findParent_root t T H Rp). cbn [mbind option_bind].
    pose proof (repr_page t [] T H Rp) as ->. cbn [mbind option_bind]. exists t, false.
    split; [done|]. split; [by exists T, H|done].
  - rewrite (findParent_ctx t H k ctx T h lo hi Rp Hc HT). cbn [mbind option_bind].
    pose proof (repr_page t (k :: ctx) T H Rp) as ->. cbn [mbind option_bind].
    rewrite (parent_frame _ _ _ _ _ Rp). cbn [mbind option_bind].
    assert (tree_ok t) as Ht by (by exists (plug (k :: ctx) T), H).
    destruct (Z.ltb_spec (freeSpaceAfterCompaction (node_of T)) underFullSize) as [|Hu]; [by exists t, false|].
    destruct (Nat.leb_spec (count (cn k)) (length (cl k))); [by exists t, false|].
    destruct Hc as (plo & phi & sl & sr & W & Hc).
    destruct (merge_siblings_ok t H k ctx T h lo hi plo phi sl sr Rp W Hc HT Hu) as (t1 & b & -> & pn & cs & R1 & W1 & K1 & F1).
    cbn [mbind option_bind]. pose proof (repr_page t1 ctx (Node (cb k) pn cs) H R1) as Ep. cbn [bf_of node_of] in Ep.
    rewrite Ep. cbn [mbind option_bind].
    assert (tree_map t1 = tree_map t) as Em by (by eapply repr_map).
    destruct (Z.leb_spec underFullSize (freeSpaceAfterCompaction pn)).
    + destruct (IH fuel t1 H (Node (cb k) pn cs) (S h) plo phi R1 Hc W1 ltac:(lia)) as (t2 & b2 & E2 & T2 & M2 & F2).
      cbn [bf_of] in E2. rewrite E2. exists t2, b. split; [done|]. split; [done|]. split; [congruence|lia].
    + exists t1, b. split; [done|]. split; [by exists (plug ctx (Node (cb k) pn cs)), H|done].
Qed.
