(* ===== verification/BTreeRemove.v ===== *)
(** Removal, upsert and in-place updates in the page B-tree. *)
From stdpp Require Import sorting gmap.
From S2P Require Import Prelude BTreeNode BTreeNodeSearch BTreeNodeSpace BTreeNodeOps BTreeNodeSplit BTreeNodeMerge BTreeInterface BTree BTreeIterator BTreeShape BTreePath BTreeContents BTreeLookup BTreeSplit BTreeRoom BTreeTrySplit BTreeInsert BTreeMerge.
Local Open Scope Z_scope.

(** * remove *)

(** The slot under the iterator goes, with its binding. *)
Lemma focus_remove t H ctx bf n lo hi key i v :
  focus t H ctx bf n lo hi key -> entries n !! i = Some (key, v) ->
  let n' := removeSlot n i in
  focus (set_page t bf n') H ctx bf n' lo hi key /\ tree_map (set_page t bf n') = delete key (tree_map t).
Proof.
  intros F Hi. pose proof (pa_ok _ _ _ _ (fo_page _ _ _ _ _ _ _ _ F)) as P.
  pose proof (lookup_lt_Some _ _ _ Hi) as Hlt. rewrite length_entries in Hlt.
  destruct (removeSlot_ok n i P Hlt) as (P' & Fr & _ & Ee & _).
  destruct (focus_set_map _ _ _ _ _ _ _ _ (removeSlot n i) F P' Fr) as (F' & _ & Hd).
  { rewrite Ee. pose proof (fo_small _ _ _ _ _ _ _ _ F). apply Forall_app.
    split; [by apply Forall_take|by apply Forall_drop]. }
  split; [done|]. apply Hd. unfold page_map. rewrite Ee. eapply list_to_map_remove; [|done].
  apply sorted_NoDup_keys, P.
Qed.

Lemma removeCurrent_focus t H ctx bf n lo hi key i v :
  focus t H ctx bf n lo hi key -> entries n !! i = Some (key, v) ->
  removeCurrent t (mkIter (Some bf) (Z.of_nat i)) = Some (set_page t bf (removeSlot n i), OK).
Proof.
  intros F Hi. pose proof (lookup_lt_Some _ _ _ Hi) as Hlt. rewrite length_entries in Hlt.
  unfold removeCurrent. rewrite (leaf_of_focus _ _ _ _ _ _ _ _ F). cbn [mbind option_bind cur].
  rewrite (proj2 (Z.leb_le 0 _)), (proj2 (Z.ltb_lt _ _)) by lia. cbn [andb]. by rewrite Nat2Z.id.
Qed.

Lemma mergeIfNeeded_focus t H ctx bf n lo hi key i :
  focus t H ctx bf n lo hi key ->
  exists t' it', mergeIfNeeded t (mkIter (Some bf) i) = Some (t', it') /\ tree_ok t' /\ tree_map t' = tree_map t /\
    (length (free_list t) <= length (free_list t'))%nat.
Proof.
  intros F. unfold mergeIfNeeded. rewrite (leaf_of_focus _ _ _ _ _ _ _ _ F). cbn [mbind option_bind].
  destruct (Z.leb_spec underFullSize (freeSpaceAfterCompaction n)); [|eexists _, _; split; [done|]; split; [by eapply focus_tree_ok|done]].
  pose proof (ctx_height _ _ _ _ _ _ (fo_ctx _ _ _ _ _ _ _ _ F)) as Hh.
  destruct (tryMerge_ok ctx (Z.to_nat (height t)) t H (Node bf n []) 0 lo hi) as (t' & b & E & T1 & T2 & T3);
    [apply F|apply F|split; [apply F|split; [done|apply F]]|rewrite (re_height _ _ _ (fo_repr _ _ _ _ _ _ _ _ F)); lia|].
  cbn [bf_of] in E. unfold tryMerge_page. rewrite E. eauto 10.
Qed.

Lemma ll_remove_ok t key no_merge :
  tree_ok t -> Forall is_byte key ->
  exists t', ll_remove t key no_merge = Some (t', if tree_map t !! key then OK else NOT_FOUND) /\
    tree_ok t' /\ tree_map t' = delete key (tree_map t) /\ (length (free_list t) <= length (free_list t'))%nat.
Proof.
  intros Ht Hk. destruct (tree_focus t key Ht Hk) as (H & ctx & bf & n & lo & hi & F).
  unfold ll_remove. destruct (seekExact_focus _ _ _ _ _ _ _ _ F new_iter (or_introl eq_refl)) as (pos & -> & Hpos).
  cbn [mbind option_bind]. destruct (tree_map t !! key) as [v|] eqn:Em.
  - destruct (Hpos v eq_refl) as (i & -> & Hi & He & Ev). rewrite decide_True by done.
    rewrite (removeCurrent_focus _ _ _ _ _ _ _ _ _ _ F He). cbn [mbind option_bind]. rewrite decide_True by done.
    destruct (focus_remove _ _ _ _ _ _ _ _ _ _ F He) as [F' Ed].
    unfold currentLeafCount. rewrite (leaf_of_focus _ _ _ _ _ _ _ _ F'). cbn [mbind option_bind].
    destruct (negb no_merge || _).
    + destruct (mergeIfNeeded_focus _ _ _ _ _ _ _ _ (Z.of_nat i) F') as (t' & it' & E & T1 & T2 & T3).
      rewrite E. cbn [mbind option_bind]. exists t'. split; [done|]. split; [done|]. by rewrite T2, Ed.
    + eexists. split; [done|]. split; [by eapply focus_tree_ok|done].
  - rewrite decide_False by done. exists t. split; [done|]. split; [done|]. split; [|done].
    symmetry. by apply delete_id.
Qed.

(** * upsert *)

(** The room a removed entry leaves takes an entry of the same size. *)
Lemma removed_room n i key v (value : list Z) :
  page_ok n -> entries n !! i = Some (key, v) -> length value = length v ->
  Z.of_nat (length key) + Z.of_nat (length value) < 60000 ->
  canInsert (removeSlot n i) (length key) (length value) = true.
Proof.
  intros P Hi Hl Hsz. pose proof (lookup_lt_Some _ _ _ Hi) as Hlt. rewrite length_entries in Hlt.
  rewrite lookup_entries in Hi by done. injection Hi as Ek Ev.
  destruct (removeSlot_ok n i P Hlt) as (P' & (_ & _ & Fp & _) & C & _ & Sp).
  pose proof (page_room n P) as [R _]. unfold canInsert, hasEnoughSpaceFor. apply orb_true_iff. right.
  assert (length key = prefix_length n + key_len (slot n i))%nat as Hk.
  { rewrite <- Ek. unfold copyFullKey. by rewrite length_app, (page_prefix_ok n P), length_getKey. }
  assert (length v = payload_len (slot n i)) as Hv by (rewrite <- Ev; apply length_read_bytes).
  rewrite freeSpaceAfterCompaction_eq, spaceNeeded_eq by (done || (rewrite ?Fp; consts; lia)).
  rewrite Fp, C, Sp. apply Z.leb_le. unfold slot_size. consts. lia.
Qed.

Section with_flags.
Context (flags : Flags) (Hbulk : FLAGS_bulk_insert flags = false).

Lemma replaceKV_focus fuel t H ctx bf n lo hi key v value it :
  focus t H ctx bf n lo hi key -> at_leaf bf it -> tree_map t !! key = Some v ->
  length value = length v -> Forall is_byte value ->
  exists t' it', replaceKV flags (S fuel) t it key value = Some (t', it', OK) /\ tree_ok t' /\
    tree_map t' = <[key := value]> (tree_map t) /\ free_list t' = free_list t.
Proof.
  intros F A Em Hl Hv. cbn [replaceKV].
  destruct (seekExact_focus _ _ _ _ _ _ _ _ F it A) as (pos & -> & Hpos). rewrite Em. cbn [mbind option_bind].
  destruct (Hpos v Em) as (i & -> & Hi & He & Ev). rewrite decide_True by done.
  rewrite (removeCurrent_focus _ _ _ _ _ _ _ _ _ _ F He). cbn [mbind option_bind].
  destruct (focus_remove _ _ _ _ _ _ _ _ _ _ F He) as [F' Ed].
  pose proof (fo_small _ _ _ _ _ _ _ _ F) as Hs. rewrite Forall_lookup in Hs. destruct (Hs _ _ He) as [S1 S2].
  simpl in S1, S2. unfold canInsertInCurrentNode. rewrite (leaf_of_focus _ _ _ _ _ _ _ _ F'). cbn [mbind option_bind].
  rewrite (removed_room n i key v value); [|apply F|done|done|room_consts; lia]. rewrite decide_True by done.
  destruct (insertInCurrentNode_focus _ _ _ _ _ _ _ _ F' value (Z.of_nat i)) as (t' & it' & E & T1 & T2 & T3).
  - rewrite Ed. apply lookup_delete_eq.
  - split; [done|]. simpl. lia.
  - done.
  - apply (removed_room n i key v value); [apply F|done|done|room_consts; lia].
  - rewrite E. cbn [mbind option_bind]. exists t', it'. split; [done|]. split; [done|].
    rewrite T2, Ed, insert_delete_eq, T3. done.
Qed.

Lemma ll_upsert_ok fuel t key value :
  tree_ok t -> Forall is_byte key -> Forall is_byte value -> small (key, value) ->
  (forall v, tree_map t !! key = Some v -> length value = length v) ->
  (insert_rounds t <= fuel)%nat -> (2 * insert_rounds t <= length (free_list t))%nat ->
  exists t', ll_upsert flags fuel t key value = Some (t', OK) /\ tree_ok t' /\
    tree_map t' = <[key := value]> (tree_map t) /\
    (length (free_list t) <= 2 * insert_rounds t + length (free_list t'))%nat.
Proof.
  intros Ht Hk Hv Hsm Hlen Hfuel Hfr. destruct (tree_focus t key Ht Hk) as (H & ctx & bf & n & lo & hi & F).
  unfold ll_upsert. destruct (seekExact_focus _ _ _ _ _ _ _ _ F new_iter (or_introl eq_refl)) as (pos & -> & Hpos).
  cbn [mbind option_bind]. destruct (tree_map t !! key) as [v|] eqn:Em.
  - rewrite decide_False by done. destruct fuel as [|fuel]; [unfold insert_rounds in Hfuel; lia|].
    destruct (replaceKV_focus fuel t H ctx bf n lo hi key v value (mkIter (Some bf) pos) F) as (t' & it' & E & T1 & T2 & T3);
      [by right|done|by apply Hlen|done|]. rewrite E. cbn [mbind option_bind]. exists t'. rewrite T3.
    split; [done|]. split; [done|]. split; [done|lia].
  - rewrite decide_True by done.
    destruct (insertKV_ok flags Hbulk fuel t key value (mkIter (Some bf) pos) Ht Hk Hv Hsm) as (t' & it' & r & E & T1 & T2 & T3);
      [|done|done|].
    + right. exists bf. split; [|done]. by apply (focus_find _ _ _ _ _ _ _ _ F).
    + rewrite Em in T3. destruct T3 as [-> T3]. rewrite E. cbn [mbind option_bind]. eauto.
Qed.

(** * updateSameSize *)

(** Keys of one length: what makes every position a good place to split. *)
Definition uniform (t : BTree) (K : nat) : Prop :=
  (0 < K)%nat /\ Forall (fun e : list Z * list Z => length e.1 = K) (tree_entries t).

Lemma uniform_leaf t H ctx bf n lo hi key K :
  focus t H ctx bf n lo hi key -> uniform t K ->
  (0 < K)%nat /\ forall i, (i < count n)%nat -> length (copyFullKey n i) = K.
Proof.
  intros F [HK Hu]. split; [done|]. rewrite (focus_entries _ _ _ _ _ _ _ _ F) in Hu.
  apply Forall_app in Hu as [_ Hu]. apply Forall_app in Hu as [Hu _]. rewrite Forall_lookup in Hu.
  intros i Hi. exact (Hu i _ (lookup_entries n i Hi)).
Qed.

Lemma uniform_cut_room n K s sep :
  page_ok n -> (forall i, (i < count n)%nat -> length (copyFullKey n i) = K) ->
  cut_at n s sep -> cut_room n s sep.
Proof.
  intros P HK (Hs & _ & _ & _ & Hl). left.
  destruct (stored_around n (s + 1) P Hs) as (_ & B2 & _ & _ & _ & A6).
  assert (drop (s + 1) (entries n) = [entry n (s + 1)] ++ drop (S (s + 1)) (entries n)) as ->.
  { apply drop_S, lookup_entries, Hs. }
  rewrite stored_len_app, stored_len_entry by done.
  assert (forall i, (i < count n)%nat -> prefix_length n + getKeyLen n i = K)%nat as HK'.
  { intros i Hi. rewrite <- (HK i Hi). unfold copyFullKey. by rewrite length_app, (page_prefix_ok n P), length_getKey. }
  pose proof (HK' s ltac:(lia)). pose proof (HK' (s + 1)%nat Hs). unfold sizeof_Slot in *. lia.
Qed.

(** A leaf with keys of one length can be cut where [split_info] says. *)
Lemma uniform_cut n K pos :
  page_ok n -> is_leaf n = true -> (2 < count n)%nat -> (0 < K)%nat ->
  (forall i, (i < count n)%nat -> length (copyFullKey n i) = K) ->
  let info := split_info flags n pos in
  cut n (sep_slot info) (getSep n info) /\ length (getSep n info) = sep_length info.
Proof.
  intros P Hl Hc HK0 HK info. unfold info, split_info. rewrite Hbulk.
  assert (forall i, length (getSep n (mkSep (getFullKeyLen n i) i false)) = getFullKeyLen n i /\
    getSep n (mkSep (getFullKeyLen n i) i false) = copyFullKey n i) as Hfull.
  { intros i. unfold getSep, getFullKeyLen. cbn [sep_trunc sep_length sep_slot].
    replace (prefix_length n + getKeyLen n i - prefix_length n)%nat with (getKeyLen n i) by lia.
    rewrite take_ge by (rewrite length_getKey; done). split; [|done].
    by rewrite length_app, (page_prefix_ok n P), length_getKey. }
  destruct ((pos <? 0) || (Z.of_nat (count n) - 1 <=? pos)) eqn:E.
  - split; [|by apply findSep_length]. pose proof (findSep_cut n P Hl Hc) as C.
    pose proof (findSep_window n Hc) as (W1 & _). unfold cut. rewrite Hl.
    split; [apply (sep_nonempty n (sep_slot (findSep n))); [done| |apply C]|split; [done|by eapply uniform_cut_room]].
    pose proof (findSep_slot n Hc). lia.
  - apply orb_false_iff in E as [E1%Z.ltb_ge E2%Z.leb_gt]. set (s := Z.to_nat pos). cbn [sep_slot sep_length].
    destruct (Hfull s) as [H1 H2]. split; [|done]. rewrite H2. unfold cut. rewrite Hl.
    assert (s + 1 < count n)%nat as Hs by (unfold s; lia).
    assert (cut_at n s (copyFullKey n s)) as C.
    { split; [done|]. split; [by apply copyFullKey_bytes|]. split; [apply lex_le_lteq; by right|].
      split; [apply copyFullKey_lt; [done|lia]|]. unfold copyFullKey. by rewrite length_app, (page_prefix_ok n P), length_getKey. }
    split; [intros E0; specialize (HK s ltac:(lia)); rewrite E0 in HK; simpl in HK; lia|].
    split; [done|by eapply uniform_cut_room].
Qed.

Lemma contentionSplit_focus random_number faced tr t H ctx bf n lo hi key K i :
  focus t H ctx bf n lo hi key -> uniform t K -> (2 <= length (free_list t))%nat ->
  exists t' it' tr', contentionSplit flags random_number faced tr t (mkIter (Some bf) i) = Some (t', it', tr') /\
    tree_ok t' /\ tree_map t' = tree_map t.
Proof.
  intros F Hu Hfr. pose proof (focus_tree_ok _ _ _ _ _ _ _ _ F) as Ht. unfold contentionSplit.
  destruct (negb _); [by eexists _, _, _|]. destruct (negb _); [by eexists _, _, _|]. cbv zeta.
  rewrite (leaf_of_focus _ _ _ _ _ _ _ _ F). cbn [mbind option_bind cur].
  destruct (_ && _) eqn:E; [|by eexists _, _, _]. apply andb_true_iff in E as [_ E%Nat.ltb_lt].
  destruct (uniform_leaf _ _ _ _ _ _ _ _ _ F Hu) as [HK0 HK].
  pose proof (fo_page _ _ _ _ _ _ _ _ F) as PA.
  set (pos := Z.min _ _). destruct (uniform_cut n K pos (pa_ok _ _ _ _ PA) (pa_leaf _ _ _ _ PA) E HK0 HK) as [C Hlen].
  destruct (trySplit_ok flags Hbulk ctx (Z.to_nat (height t)) t H bf n [] 0 lo hi pos) as (t' & H' & Et & Out);
    [apply F|apply F|split; [apply F|split; [done|apply F]]|done|done|done|done| |].
  { pose proof (ctx_height _ _ _ _ _ _ (fo_ctx _ _ _ _ _ _ _ _ F)). rewrite (re_height _ _ _ (fo_repr _ _ _ _ _ _ _ _ F)). lia. }
  unfold trySplit_page. rewrite Et. eexists _, _, _. split; [done|].
  pose proof (fo_repr _ _ _ _ _ _ _ _ F) as R0. destruct Out as [(ctxL & ctxR & L & R & [R1 _ _ _ _ K1 _ _])|(ctx' & [R1 _ K1 _ _ _])].
  - split; [by exists (plug ctxL L), H'|by eapply repr_map].
  - split; [by exists (plug ctx' (Node bf n [])), H'|by eapply repr_map].
Qed.

Lemma ll_updateSameSize_ok {A} random_number faced tr t key (cb : list Z -> list Z * A) K :
  tree_ok t -> Forall is_byte key -> same_size_at (tree_map t !! key) cb ->
  uniform t K -> (2 <= length (free_list t))%nat ->
  exists t', ll_updateSameSize flags random_number faced tr t key cb =
      Some (t', (fun v => (cb v).2) <$> tree_map t !! key) /\
    tree_ok t' /\ tree_map t' = alter (fun v => (cb v).1) key (tree_map t).
Proof.
  intros Ht Hk Hcb Hu Hfr. destruct (tree_focus t key Ht Hk) as (H & ctx & bf & n & lo & hi & F).
  unfold ll_updateSameSize. destruct (seekExact_focus _ _ _ _ _ _ _ _ F new_iter (or_introl eq_refl)) as (pos & -> & Hpos).
  cbn [mbind option_bind]. destruct (tree_map t !! key) as [v|] eqn:Em.
  - destruct (Hpos v eq_refl) as (i & -> & Hi & He & Ev). rewrite decide_True by done. unfold current.
    rewrite (leaf_of_focus _ _ _ _ _ _ _ _ F). cbn [mbind option_bind cur].
    rewrite (proj2 (Z.leb_le 0 _)), (proj2 (Z.ltb_lt _ _)) by lia. cbn [andb mbind option_bind].
    rewrite Nat2Z.id, Ev. destruct (Hcb v eq_refl (tree_map_bytes _ _ _ Ht Hk Em)) as [Hl Hb].
    destruct (focus_write _ _ _ _ _ _ _ _ i v (cb v).1 F He Hl Hb) as (F' & Hm & _ & Ee).
    assert (uniform (set_page t bf (write_payload n i (cb v).1)) K) as Hu'.
    { destruct Hu as [HK Hu]. split; [done|]. rewrite (focus_entries _ _ _ _ _ _ _ _ F) in Hu.
      rewrite (focus_entries _ _ _ _ _ _ _ _ F'), Ee. apply Forall_app in Hu as [H1 Hu]. apply Forall_app in Hu as [H2 H3].
      apply Forall_app. split; [done|]. apply Forall_app. split; [|done]. apply Forall_insert; [done|].
      rewrite Forall_lookup in H2. exact (H2 _ _ He). }
    destruct (contentionSplit_focus random_number faced tr _ _ _ _ _ _ _ _ K (Z.of_nat i) F' Hu' Hfr) as (t' & it' & tr' & E & T1 & T2).
    exists t'. destruct (cb v) as [w a] eqn:Ecb. simpl in E |- *. rewrite E. cbn [mbind option_bind].
    split; [rewrite Ecb; done|]. split; [done|]. rewrite T2, Hm. symmetry.
    rewrite (alter_insert _ _ (fun v => (cb v).1) v Em). by rewrite Ecb.
  - rewrite decide_False by done. exists t. split; [done|]. split; [done|]. symmetry. by apply alter_id'.
Qed.
End with_flags.
