(* ===== verification/BTreeScan.v ===== *)
(** Ascending scans of the page B-tree: [next] walks the leaves in key order,
    and [scanAsc] hands the callback exactly the bindings from the start key
    on. *)
From stdpp Require Import sorting gmap.
From S2P Require Import Prelude BTreeNode BTreeNodeSearch BTreeNodeSpace BTreeNodeOps BTreeNodeSplit BTreeNodeMerge BTreeInterface BTree BTreeIterator BTreeShape BTreePath BTreeContents BTreeLookup BTreeSplit BTreeInsert.
Local Open Scope Z_scope.

(** * The successor of a byte string *)

Lemma lex_succ u k : Forall is_byte k -> u <ₗ k <-> u ++ [0] ≤ₗ k.
Proof.
  unfold lex_lt, lex_le. revert k; induction u as [|x u IH]; intros [|y k] Hk; simpl; try (split; congruence).
  - apply list.Forall_cons in Hk as [Hy _]. unfold is_byte, in_width in Hy.
    destruct y as [|p|p]; simpl; [destruct k; simpl; split; congruence|split; congruence|lia].
  - apply list.Forall_cons in Hk as [_ Hk]. destruct (x ?= y); [by apply IH|done|split; congruence].
Qed.

Lemma lex_lt_succ u : u <ₗ u ++ [0].
Proof. unfold lex_lt. rewrite <- (app_nil_r u) at 1. by rewrite lex_cmp_app. Qed.

(** * Leaves to the left end below the hole *)

Lemma leaf_upper h lo hi T m key :
  wf h lo hi T -> m ∈ leaves T -> (forall u, hi = Some u -> u <ₗ key) -> is_Some hi ->
  exists u, getUpperFenceKey m = Some u /\ u <ₗ key.
Proof.
  revert lo hi T; induction h as [|h IH]; intros lo hi [bf n cs] HT Hm Hu [u0 Eu].
  - destruct HT as (PA & -> & _). simpl in Hm. apply list_elem_of_singleton in Hm as ->.
    exists u0. rewrite (pa_hi _ _ _ _ PA). auto.
  - destruct HT as (PA & ss & L & Hk). pose proof (links_sorted _ _ _ (pa_ok _ _ _ _ PA) L) as Hs.
    assert (forall s, s ∈ ss -> s <ₗ key) as Hss.
    { intros s Hin. pose proof (links_fences _ _ _ _ (pa_ok _ _ _ _ PA) L Hin) as [_ Hf].
      rewrite (pa_hi _ _ _ _ PA) in Hf. eapply lex_le_lt_trans; [by apply Hf|by apply Hu]. }
    assert (m ∈ flat_map leaves cs) as Hm' by (destruct cs; [done|exact Hm]). clear Hm Hs L.
    clear PA. revert lo cs Hk Hm'. induction ss as [|s ss IHs]; intros lo cs Hk Hm.
    + destruct cs as [|c [|c' cs]]; simpl in Hk; [done| |destruct Hk as (? & _ & [])].
      destruct Hk as (mm & Hc & ->). simpl in Hm. rewrite app_nil_r in Hm. eapply IH; eauto.
    + destruct cs as [|c cs]; [done|]. destruct Hk as (mm & Hc & [-> Hk]%rseg_cons).
      cbn [flat_map] in Hm. apply elem_of_app in Hm as [Hm|Hm].
      * eapply (IH lo (Some s)); eauto. intros u [= <-]. apply Hss, elem_of_cons. by left.
      * eapply IHs; eauto. intros s' Hin. apply Hss, elem_of_cons. by right.
Qed.

Lemma ctx_left_upper H ctx b h lo hi m key :
  ctx_wf H ctx b h lo hi -> in_fences lo hi key -> m ∈ ctx_left ctx ->
  exists u, getUpperFenceKey m = Some u /\ u <ₗ key.
Proof.
  revert b h lo hi; induction ctx as [|k ctx IH]; intros b h lo hi Hc Hf Hm; [by apply not_elem_of_nil in Hm|].
  destruct Hc as (plo & phi & sl & sr & W & Hc). simpl in Hm. apply elem_of_app in Hm as [Hm|Hm].
  - eapply IH; [exact Hc|by eapply crumb_within|done].
  - destruct (crumb_separates _ _ _ _ _ _ _ _ _ _ W Hf) as [S1 _].
    apply elem_of_flat_map in Hm as (c & Hc1 & Hm).
    destruct (lseg_elem _ _ _ _ _ _ (cw_left _ _ _ _ _ _ _ _ _ W) Hc1) as (l & s & Hw & Hs).
    eapply leaf_upper; [exact Hw|done| |done]. intros u [= <-]. auto.
Qed.

Lemma ctx_right_last H ctx b h lo : ctx_wf H ctx b h lo None -> ctx_right ctx = [].
Proof.
  revert b h lo; induction ctx as [|k ctx IH]; intros b h lo Hc; [done|].
  destruct Hc as (plo & phi & sl & sr & W & Hc). destruct (crumb_last _ _ _ _ _ _ _ _ W) as [_ ->].
  simpl. rewrite (IH _ _ _ Hc), app_nil_r. destruct W as [_ L _ Hr].
  destruct sr as [|s sr]; [|destruct (cr k); simpl in Hr; naive_solver]. by destruct (cr k).
Qed.

(** * Positions *)

(** A leaf in the tree, without a key. *)
Record spot (t : BTree) (H : nat) (ctx : list crumb) (bf : Z) (n : BTreeNode) (lo hi : bound) : Prop := Spot {
  sp_repr : repr t (plug ctx (Node bf n [])) H;
  sp_ctx : ctx_wf H ctx bf 0 lo hi;
  sp_page : page_at true lo hi n;
  sp_small : Forall small (entries n) }.

Lemma focus_spot t H ctx bf n lo hi key : focus t H ctx bf n lo hi key -> spot t H ctx bf n lo hi.
Proof. by intros []. Qed.

Lemma spot_focus t H ctx bf n lo hi key :
  spot t H ctx bf n lo hi -> in_fences lo hi key -> Forall is_byte key -> focus t H ctx bf n lo hi key.
Proof. by intros []. Qed.

(** What lies behind a position: the rest of the leaf and the leaves to the
    right. *)
Definition behind (n : BTreeNode) (ctx : list crumb) (i : nat) : list (list Z * list Z) :=
  drop i (entries n) ++ ctx_rkvs ctx.

(** The bindings of a tree from a key on, in order. *)
Definition entries_from (t : BTree) (key : list Z) : list (list Z * list Z) :=
  filter (fun e => key ≤ₗ e.1) (tree_entries t).

Lemma filter_all {A} (P : A -> Prop) `{!forall x, Decision (P x)} (l : list A) : (forall x, x ∈ l -> P x) -> filter P l = l.
Proof.
  induction l as [|x l IH]; intros Hx; [done|]. rewrite filter_cons, decide_True by (apply Hx, elem_of_cons; by left).
  f_equal. apply IH. intros y Hy. apply Hx, elem_of_cons. by right.
Qed.

Lemma filter_none {A} (P : A -> Prop) `{!forall x, Decision (P x)} (l : list A) : (forall x, x ∈ l -> ~ P x) -> filter P l = [].
Proof.
  induction l as [|x l IH]; intros Hx; [done|]. rewrite filter_cons, decide_False by (apply Hx, elem_of_cons; by left).
  apply IH. intros y Hy. apply Hx, elem_of_cons. by right.
Qed.

Lemma lex_lt_not_le a b : a <ₗ b -> ~ b ≤ₗ a.
Proof. intros H1 H2. by eapply lex_lt_irrefl, lex_lt_le_trans. Qed.

(** The search position of a key splits the tree's bindings at the key. *)
Lemma entries_from_focus t H ctx bf n lo hi key pos :
  focus t H ctx bf n lo hi key ->
  (forall e, e ∈ take pos (entries n) -> e.1 <ₗ key) -> (forall e, e ∈ drop pos (entries n) -> key ≤ₗ e.1) ->
  entries_from t key = behind n ctx pos.
Proof.
  intros F Hl Hr. destruct (ctx_sides _ _ _ _ _ _ _ (fo_ctx _ _ _ _ _ _ _ _ F) (fo_in _ _ _ _ _ _ _ _ F)) as [S1 S2].
  unfold entries_from, behind. rewrite (focus_entries _ _ _ _ _ _ _ _ F), <- (take_drop pos (entries n)) at 1.
  rewrite !list.filter_app. rewrite (filter_none _ (ctx_lkvs ctx)), (filter_none _ (take pos _)), (filter_all _ (drop pos _)),
    (filter_all _ (ctx_rkvs ctx)); [done|..].
  - intros e He. apply lex_le_lteq. left. by apply S2.
  - done.
  - intros e He. by apply lex_lt_not_le, Hl.
  - intros e He. by apply lex_lt_not_le, S1.
Qed.

Lemma wf_entry_bytes h lo hi T m e : wf h lo hi T -> m ∈ leaves T -> e ∈ entries m -> Forall is_byte e.1.
Proof.
  revert lo hi T; induction h as [|h IH]; intros lo hi [bf n cs] HT Hm He.
  - destruct HT as (PA & -> & _). simpl in Hm. apply list_elem_of_singleton in Hm as ->.
    pose proof (entries_bytes n (po_heap _ (pa_ok _ _ _ _ PA))) as Hb. rewrite list.Forall_forall in Hb. by apply (Hb e).
  - destruct HT as (PA & ss & L & Hk). assert (m ∈ flat_map leaves cs) as (c & Hc & Hm')%elem_of_flat_map
      by (destruct cs; [done|exact Hm]). destruct (kids_elem _ _ _ _ _ _ Hk Hc) as (l & u & Hcw). eauto.
Qed.

(** The leaves are determined by the state. *)
Lemma repr_leaves t T H T' H' : repr t T H -> repr t T' H' -> leaves T = leaves T'.
Proof.
  intros R R'. pose proof (re_height _ _ _ R) as E. rewrite (re_height _ _ _ R') in E.
  rewrite <- (leaf_pages_wf t H None None T (re_wf _ _ _ R)) by (intros bf n; by apply (repr_lookup t T H)).
  rewrite <- (leaf_pages_wf t H' None None T' (re_wf _ _ _ R')) by (intros bf n; by apply (repr_lookup t T' H')).
  rewrite <- (re_root _ _ _ R), <- (re_root _ _ _ R'). f_equal. lia.
Qed.

Section upper.
Context (t : BTree) (H : nat) (ctx : list crumb) (bf : Z) (n : BTreeNode) (lo : bound) (u : list Z).
Context (S : spot t H ctx bf n lo (Some u)).

Lemma upper_bytes : Forall is_byte u.
Proof.
  pose proof (fence_is_byte _ _ (upper_fence n) (po_heap _ (pa_ok _ _ _ _ (sp_page _ _ _ _ _ _ _ S)))) as Hb.
  change (fence_bytes n (upper_fence n)) with (getUpperFenceKey n) in Hb.
  by rewrite (pa_hi _ _ _ _ (sp_page _ _ _ _ _ _ _ S)) in Hb.
Qed.

Lemma upper_in : in_fences lo (Some u) u.
Proof.
  split; [|intros uf [= <-]; apply lex_le_lteq; by right].
  intros lf E. by apply (pa_order _ _ _ _ (sp_page _ _ _ _ _ _ _ S)).
Qed.

Lemma succ_bytes : Forall is_byte (u ++ [0]).
Proof. apply Forall_app. split; [apply upper_bytes|]. by repeat constructor. Qed.

(** Everything to the right of the leaf is what follows its upper fence. *)
Lemma entries_from_upper : entries_from t (u ++ [0]) = ctx_rkvs ctx.
Proof.
  pose proof (spot_focus _ _ _ _ _ _ _ u S upper_in upper_bytes) as F.
  destruct (ctx_sides _ _ _ _ _ _ _ (fo_ctx _ _ _ _ _ _ _ _ F) upper_in) as [S1 S2].
  unfold entries_from. rewrite (focus_entries _ _ _ _ _ _ _ _ F), !list.filter_app.
  rewrite (filter_none _ (ctx_lkvs ctx)), (filter_none _ (entries n)), (filter_all _ (ctx_rkvs ctx)); [done|..].
  - intros e He. apply lex_succ; [|by apply S2]. unfold ctx_rkvs in He. apply elem_of_flat_map in He as (m & Hm & He).
    pose proof (re_wf _ _ _ (sp_repr _ _ _ _ _ _ _ S)) as HW. eapply wf_entry_bytes; [exact HW| |exact He].
    rewrite leaves_plug. apply elem_of_app. right. apply elem_of_app. by right.
  - intros e He. apply lex_lt_not_le. eapply lex_le_lt_trans; [|apply lex_lt_succ].
    pose proof (po_fences _ (pa_ok _ _ _ _ (sp_page _ _ _ _ _ _ _ S))) as Hf. rewrite list.Forall_forall in Hf.
    apply (Hf e He), (pa_hi _ _ _ _ (sp_page _ _ _ _ _ _ _ S)).
  - intros e He. apply lex_lt_not_le. eapply lex_lt_trans; [by apply S1|apply lex_lt_succ].
Qed.

(** The leaf of the successor key lies further right. *)
Lemma next_leaf_right ctx' bf' n' lo' hi' :
  focus t H ctx' bf' n' lo' hi' (u ++ [0]) -> (length (ctx_right ctx') < length (ctx_right ctx))%nat.
Proof.
  intros F. pose proof (re_wf _ _ _ (sp_repr _ _ _ _ _ _ _ S)) as HW.
  pose proof (repr_leaves _ _ _ _ _ (sp_repr _ _ _ _ _ _ _ S) (fo_repr _ _ _ _ _ _ _ _ F)) as El.
  rewrite !leaves_plug in El. simpl in El.
  destruct (decide (length (ctx_right ctx') < length (ctx_right ctx))%nat) as [|Hge]; [done|exfalso].
  pose proof (f_equal length El) as Hlen. rewrite !length_app in Hlen. simpl in Hlen.
  assert (n' ∈ ctx_left ctx \/ n' = n) as Hn.
  { assert ((ctx_left ctx ++ n :: ctx_right ctx) !! length (ctx_left ctx') = Some n') as Hl.
    { rewrite El, lookup_app_r by lia. by rewrite Nat.sub_diag. }
    apply lookup_app_Some in Hl as [Hl|[Hl1 Hl]]; [left; by eapply list_elem_of_lookup_2|right].
    replace (length (ctx_left ctx') - length (ctx_left ctx))%nat with 0%nat in Hl by lia. by injection Hl. }
  pose proof (fo_in _ _ _ _ _ _ _ _ F) as [_ I2]. pose proof (pa_hi _ _ _ _ (fo_page _ _ _ _ _ _ _ _ F)) as Eh.
  assert (exists u', getUpperFenceKey n' = Some u' /\ u' <ₗ u ++ [0]) as (u' & Eu & Hu).
  { destruct Hn as [Hn| ->].
    - destruct (ctx_left_upper _ _ _ _ _ _ _ _ (sp_ctx _ _ _ _ _ _ _ S) upper_in Hn) as (u' & E & Hu).
      exists u'. split; [done|]. eapply lex_lt_trans; [exact Hu|apply lex_lt_succ].
    - exists u. split; [apply (pa_hi _ _ _ _ (sp_page _ _ _ _ _ _ _ S))|apply lex_lt_succ]. }
  rewrite Eu in Eh. subst hi'. by eapply lex_lt_not_le, I2.
Qed.
End upper.

(** * next and seek *)

(** The iterator stands on the first of [rest], or there is none. *)
Definition arrives (t : BTree) (H : nat) (res : option (iter * OP_RESULT)) (rest : list (list Z * list Z)) : Prop :=
  match rest with
  | [] => exists it, res = Some (it, NOT_FOUND)
  | _ => exists ctx bf n lo hi i, res = Some (mkIter (Some bf) (Z.of_nat i), OK) /\
           spot t H ctx bf n lo hi /\ (i < count n)%nat /\ rest = behind n ctx i
  end.

Lemma upper_length lo hi n :
  page_at true lo hi n -> fk_length (upper_fence n) = 0%nat <-> hi = None.
Proof.
  intros PA. pose proof (pa_hi _ _ _ _ PA) as Eh. pose proof (pa_good_hi _ _ _ _ PA) as Hg.
  unfold getUpperFenceKey, fence_bytes in Eh. destruct (ho_upper _ _ (po_heap _ (pa_ok _ _ _ _ PA))) as [[E1 E2]|(E1 & _)].
  - rewrite E1 in Eh. simpl in Eh. split; congruence.
  - rewrite (proj2 (Z.eqb_neq _ _)) in Eh by lia. split; intros E; [|congruence].
    rewrite E in Eh. destruct (Hg [] (eq_sym Eh)). done.
Qed.

Lemma leaf_of_spot t H ctx bf n lo hi i : spot t H ctx bf n lo hi -> leaf_of t (mkIter (Some bf) i) = Some (bf, n).
Proof.
  intros Sp. unfold leaf_of. simpl.
  pose proof (repr_page t ctx (Node bf n []) H (sp_repr _ _ _ _ _ _ _ Sp)) as E. simpl in E. by rewrite E.
Qed.

Lemma behind_nonempty t H ctx bf n lo hi i res :
  spot t H ctx bf n lo hi -> (i < count n)%nat -> res = Some (mkIter (Some bf) (Z.of_nat i), OK) ->
  arrives t H res (behind n ctx i).
Proof.
  intros Sp Hi ->. unfold arrives. destruct (behind n ctx i) as [|e r] eqn:E.
  - exfalso. unfold behind in E. apply app_eq_nil in E as [E _]. apply (f_equal length) in E.
    rewrite length_drop, length_entries in E. simpl in E. lia.
  - exists ctx, bf, n, lo, hi, i. by rewrite E.
Qed.

Lemma behind_end n ctx i : (count n <= i)%nat -> behind n ctx i = ctx_rkvs ctx.
Proof. intros Hi. unfold behind. by rewrite drop_ge by (rewrite length_entries; lia). Qed.

Lemma next_ok fuel : forall t H ctx bf n lo hi c,
  spot t H ctx bf n lo hi -> -1 <= c -> (length (ctx_right ctx) < fuel)%nat ->
  arrives t H (next t fuel (mkIter (Some bf) c)) (behind n ctx (Z.to_nat (c + 1))).
Proof.
  induction fuel as [|fuel IH]; intros t H ctx bf n lo hi c Sp Hc Hf; [lia|]. cbn [next].
  rewrite (leaf_of_spot _ _ _ _ _ _ _ _ Sp). cbn [mbind option_bind cur].
  destruct (Z.ltb_spec (c + 1) (Z.of_nat (count n))) as [Hlt|Hge].
  { eapply behind_nonempty; [done|lia|]. do 3 f_equal. lia. }
  rewrite behind_end by lia. pose proof (sp_page _ _ _ _ _ _ _ Sp) as PA.
  destruct (Nat.eqb_spec (fk_length (upper_fence n)) 0) as [E0|E0].
  { apply (upper_length _ _ _ PA) in E0 as ->. unfold ctx_rkvs.
    rewrite (ctx_right_last _ _ _ _ _ (sp_ctx _ _ _ _ _ _ _ Sp)). simpl. eauto. }
  rewrite (pa_hi _ _ _ _ PA). destruct hi as [u|]; [|exfalso; apply E0; by apply (upper_length _ _ _ PA)].
  simpl default. set (key := u ++ [0]). pose proof (succ_bytes _ _ _ _ _ _ _ Sp) as Hkb. fold key in Hkb.
  destruct (tree_focus t key) as (H' & ctx' & bf' & n' & lo' & hi' & F); [by eexists _, H; apply Sp|done|].
  assert (H' = H) as ->.
  { pose proof (re_height _ _ _ (sp_repr _ _ _ _ _ _ _ Sp)) as E1.
    rewrite (re_height _ _ _ (fo_repr _ _ _ _ _ _ _ _ F)) in E1. lia. }
  destruct (focus_find _ _ _ _ _ _ _ _ F) as [-> Ef]. cbn [mbind option_bind]. rewrite Ef. cbn [mbind option_bind].
  pose proof (next_leaf_right _ _ _ _ _ _ _ Sp _ _ _ _ _ F) as Hr.
  rewrite <- (entries_from_upper _ _ _ _ _ _ _ Sp). fold key.
  pose proof (focus_spot _ _ _ _ _ _ _ _ F) as Sp'.
  pose proof (pa_ok _ _ _ _ (fo_page _ _ _ _ _ _ _ _ F)) as P'.
  destruct (lowerBound_entries n' key P' Hkb) as (pos & eq & E & Hp & Hl & Hg & _).
  rewrite (entries_from_focus _ _ _ _ _ _ _ _ pos F Hl Hg).
  destruct (Nat.eqb_spec (count n') 0) as [Ec|Ec].
  { rewrite behind_end by lia. rewrite <- (behind_end n' ctx' (Z.to_nat (c + 1))) by lia.
    eapply IH; [exact Sp'|done|lia]. }
  rewrite E. cbn [mbind option_bind]. destruct (Z.eqb_spec (Z.of_nat pos) (Z.of_nat (count n'))) as [Epc|Epc].
  - rewrite behind_end by lia. rewrite <- (behind_end n' ctx' (Z.to_nat (Z.of_nat pos + 1))) by lia.
    eapply IH; [exact Sp'|lia|lia].
  - eapply behind_nonempty; [exact Sp'|lia|done].
Qed.

(** Enough rounds for [next]: one per leaf. *)
Definition leaf_count (t : BTree) : nat := length (leaf_pages (Z.to_nat (height t)) t (root t)).

Lemma spot_leaf_count t H ctx bf n lo hi :
  spot t H ctx bf n lo hi -> (leaf_count t = length (ctx_left ctx) + S (length (ctx_right ctx)))%nat.
Proof.
  intros Sp. unfold leaf_count. pose proof (sp_repr _ _ _ _ _ _ _ Sp) as R.
  rewrite (re_height _ _ _ R), (re_root _ _ _ R), Nat2Z.id, (leaf_pages_wf t H None None _ (re_wf _ _ _ R))
    by (intros b m; by apply (repr_lookup t _ H)).
  by rewrite leaves_plug, !length_app.
Qed.

Lemma seek_ok fuel t H key it :
  tree_ok t -> Forall is_byte key -> height t = Z.of_nat (S H) -> cur it = -1 -> (leaf_count t <= fuel)%nat ->
  arrives t H (seek t fuel it key) (entries_from t key).
Proof.
  intros Ht Hk Hh Hit Hf. destruct (tree_focus t key Ht Hk) as (H' & ctx & bf & n & lo & hi & F).
  assert (H' = H) as -> by (rewrite (re_height _ _ _ (fo_repr _ _ _ _ _ _ _ _ F)) in Hh; lia).
  unfold seek. rewrite (latch_focus _ _ _ _ _ _ _ _ F it (or_introl Hit)). cbn [mbind option_bind].
  pose proof (pa_ok _ _ _ _ (fo_page _ _ _ _ _ _ _ _ F)) as P. pose proof (focus_spot _ _ _ _ _ _ _ _ F) as Sp.
  destruct (lowerBound_entries n key P Hk) as (pos & eq & E & Hp & Hl & Hg & _).
  rewrite E, (entries_from_focus _ _ _ _ _ _ _ _ pos F Hl Hg). cbn [mbind option_bind].
  destruct (Z.ltb_spec (Z.of_nat pos) (Z.of_nat (count n))).
  - eapply behind_nonempty; [exact Sp|lia|done].
  - rewrite behind_end by lia. rewrite <- (behind_end n ctx (Z.to_nat (Z.of_nat pos + 1))) by lia.
    eapply next_ok; [exact Sp|lia|]. pose proof (spot_leaf_count _ _ _ _ _ _ _ Sp). lia.
Qed.

(** * The scan *)

(** Whether the callback stops the scan. *)
Fixpoint scan_stops {S} (f : S -> list Z -> list Z -> S * list Z * bool) (s : S) (l : list (list Z * list Z)) : bool :=
  match l with
  | [] => false
  | (k, v) :: l' => let '(s1, _, continue) := f s k v in if continue then scan_stops f s1 l' else true
  end.

Lemma spot_entry t H ctx bf n lo hi i k v r :
  spot t H ctx bf n lo hi -> (i < count n)%nat -> behind n ctx i = (k, v) :: r ->
  entries n !! i = Some (k, v) /\ r = behind n ctx (S i) /\ focus t H ctx bf n lo hi k.
Proof.
  intros Sp Hi Eb. destruct (lookup_lt_is_Some_2 (entries n) i) as [e He]; [by rewrite length_entries|].
  unfold behind in Eb. rewrite (drop_S _ _ _ He) in Eb. simpl in Eb. injection Eb as -> <-.
  split; [done|]. split; [done|]. pose proof (sp_page _ _ _ _ _ _ _ Sp) as PA. pose proof (pa_ok _ _ _ _ PA) as P.
  apply spot_focus; [done| |].
  - pose proof (po_fences _ P) as Hf. rewrite (pa_lo _ _ _ _ PA), (pa_hi _ _ _ _ PA) in Hf.
    rewrite Forall_lookup in Hf. exact (Hf _ _ He).
  - pose proof (entries_bytes n (po_heap _ P)) as Hb. rewrite Forall_lookup in Hb. apply (Hb _ _ He).
Qed.

Section scan.
Context {S : Type} (f : S -> list Z -> list Z -> S * list Z * bool) (Hf : same_size_scan f).
Context (fuel0 : nat).

(** What the scan of the rest returns. *)
Definition scans (t : BTree) (res : option (BTree * S * OP_RESULT)) (s : S) (rest : list (list Z * list Z)) : Prop :=
  let (s2, l2) := scan_kvs f s rest in
  exists t', res = Some (t', s2, if scan_stops f s rest then OK else NOT_FOUND) /\
    tree_ok t' /\ tree_map t' = list_to_map l2 ∪ tree_map t.

Lemma behind_sorted t H ctx bf n lo hi i :
  spot t H ctx bf n lo hi -> NoDup (behind n ctx i).*1.
Proof.
  intros Sp. pose proof (repr_sorted _ _ _ (sp_repr _ _ _ _ _ _ _ Sp)) as Hs. apply sorted_NoDup_keys.
  rewrite kvs_plug, kvs_leaf in Hs. apply StronglySorted_app in Hs as (_ & _ & Hs).
  rewrite <- (take_drop i (entries n)), <- app_assoc in Hs. by apply StronglySorted_app in Hs as (_ & _ & Hs).
Qed.

Lemma ll_scan_loop_ok rest : forall fuel t H ctx bf n lo hi i s,
  spot t H ctx bf n lo hi -> (i < count n)%nat -> behind n ctx i = rest ->
  (length rest <= fuel)%nat -> (leaf_count t <= fuel0)%nat ->
  scans t (scan_loop (fun t => next t fuel0) f fuel t (mkIter (Some bf) (Z.of_nat i)) s) s rest.
Proof.
  induction rest as [|[k v] rest IH]; intros fuel t H ctx bf n lo hi i s Sp Hi Eb Hfu Hlc.
  { exfalso. unfold behind in Eb. apply app_eq_nil in Eb as [E _]. apply (f_equal length) in E.
    rewrite length_drop, length_entries in E. simpl in E. lia. }
  destruct fuel as [|fuel]; simpl in Hfu; [lia|].
  destruct (spot_entry _ _ _ _ _ _ _ _ _ _ _ Sp Hi Eb) as (He & Er & F).
  pose proof (behind_sorted _ _ _ _ _ _ _ i Sp) as Hnd. rewrite Eb in Hnd. cbn [fmap list_fmap fst] in Hnd.
  apply list.NoDup_cons in Hnd as [Hnk _].
  pose proof He as He'. rewrite lookup_entries in He' by done. injection He' as Ek Ev.
  unfold scans. cbn [scan_loop scan_kvs scan_stops]. unfold current.
  rewrite (leaf_of_spot _ _ _ _ _ _ _ _ Sp). cbn [mbind option_bind cur].
  rewrite (proj2 (Z.leb_le 0 _)), (proj2 (Z.ltb_lt _ _)) by lia. cbn [andb mbind option_bind].
  rewrite Nat2Z.id, Ek, Ev. assert (Forall is_byte v) as Hvb.
  { pose proof (entries_bytes n (po_heap _ (pa_ok _ _ _ _ (sp_page _ _ _ _ _ _ _ Sp)))) as Hb.
    rewrite Forall_lookup in Hb. apply (Hb _ _ He). }
  pose proof (Hf s k v Hvb) as [Hl Hb]. destruct (f s k v) as [[s1 v1] continue] eqn:Ef. simpl in Hl, Hb.
  destruct (focus_write _ _ _ _ _ _ _ _ i v v1 F He Hl Hb) as (F1 & Hm & _ & Ee).
  set (n1 := write_payload n i v1) in *. set (t1 := set_page t bf n1) in *.
  pose proof (focus_spot _ _ _ _ _ _ _ _ F1) as Sp1. destruct continue; cbn [negb].
  2: { exists t1. split; [done|]. split; [by eapply focus_tree_ok|]. rewrite Hm.
       by rewrite insert_union_singleton_l. }
  assert (leaf_count t1 <= fuel0)%nat as Hlc1.
  { rewrite (spot_leaf_count _ _ _ _ _ _ _ Sp1). by rewrite (spot_leaf_count _ _ _ _ _ _ _ Sp) in Hlc. }
  assert (behind n1 ctx (Datatypes.S i) = rest) as Er1.
  { rewrite Er. unfold behind. rewrite Ee. by rewrite drop_insert_lt by lia. }
  pose proof (next_ok fuel0 _ _ _ _ _ _ _ (Z.of_nat i) Sp1 ltac:(lia)) as Hn.
  rewrite (spot_leaf_count _ _ _ _ _ _ _ Sp1) in Hlc1. specialize (Hn ltac:(lia)).
  rewrite <- (spot_leaf_count _ _ _ _ _ _ _ Sp1) in Hlc1.
  replace (Z.to_nat (Z.of_nat i + 1)) with (Datatypes.S i) in Hn by lia. rewrite Er1 in Hn.
  destruct rest as [|e rest].
  - destruct Hn as [it ->]. cbn [mbind option_bind scan_kvs scan_stops]. rewrite decide_False by done.
    exists t1. split; [done|]. split; [by eapply focus_tree_ok|]. rewrite Hm.
    by rewrite insert_union_singleton_l.
  - destruct Hn as (ctx2 & bf2 & n2 & lo2 & hi2 & i2 & -> & Sp2 & Hi2 & Eb2). cbn [mbind option_bind].
    rewrite decide_True by done.
    pose proof (IH fuel t1 H ctx2 bf2 n2 lo2 hi2 i2 s1 Sp2 Hi2 (eq_sym Eb2) ltac:(lia) Hlc1) as Hs. unfold scans in Hs.
    pose proof (scan_kvs_keys f s1 (e :: rest) k) as Hkeys.
    destruct (scan_kvs f s1 (e :: rest)) as [s2 l2]. destruct Hs as (t' & E & T1 & T2).
    exists t'. split; [exact E|]. split; [done|]. rewrite T2, Hm. rewrite list_to_map_cons.
    rewrite <- insert_union_r; [by rewrite <- insert_union_l|].
    apply not_elem_of_list_to_map. intros ([k' w] & Ekk & Hin)%list_elem_of_fmap. simpl in Ekk. subst k'.
    destruct (Hkeys w Hin) as (s0 & v0 & Hv0 & _). apply Hnk, list_elem_of_fmap. by exists (k, v0).
Qed.

Lemma ll_scanAsc_scans t key s :
  tree_ok t -> Forall is_byte key -> (leaf_count t <= fuel0)%nat -> (length (tree_entries t) <= fuel0)%nat ->
  scans t (ll_scanAsc fuel0 t key f s) s (entries_from t key).
Proof.
  intros Ht Hk Hlc Hlen. pose proof Ht as (T & H & R).
  pose proof (seek_ok fuel0 t H key new_iter Ht Hk (re_height _ _ _ R) eq_refl Hlc) as Hs.
  unfold ll_scanAsc. destruct (entries_from t key) as [|e rest] eqn:Er.
  - destruct Hs as [it ->]. cbn [mbind option_bind]. rewrite decide_False by done. unfold scans. simpl.
    exists t. split; [done|]. split; [done|]. by rewrite (left_id_L ∅ (∪)).
  - destruct Hs as (ctx & bf & n & lo & hi & i & -> & Sp & Hi & Eb). cbn [mbind option_bind]. rewrite decide_True by done.
    eapply ll_scan_loop_ok; [exact Sp|done|done| |done]. rewrite <- Er. unfold entries_from.
    etrans; [apply length_filter|done].
Qed.
End scan.
