(* ===== verification/BTreeProps.v ===== *)
(** What the page B-tree guarantees: its operations simulate those of a finite
    map, splits and merges change no binding, insertion ends, and where it does
    not. *)
From stdpp Require Import sorting gmap.
From S2P Require Import Prelude BTreeNode BTreeNodeSearch BTreeNodeSpace BTreeNodeOps BTreeNodeSplit BTreeNodeMerge BTreeInterface BTree BTreeIterator BTreeShape BTreePath BTreeContents BTreeLookup BTreeSplit BTreeRoom BTreeTrySplit BTreeInsert BTreeMerge BTreeRemove BTreeScan.
Local Open Scope Z_scope.

(** * A new tree *)

Lemma create_ok pool :
  NoDup pool -> Forall addr_ok pool -> (0 < length pool)%nat ->
  exists t, create pool = Some t /\ tree_ok t /\ tree_map t = ∅ /\ S (length (free_list t)) = length pool /\ height t = 1.
Proof.
  intros Hn Ha Hl. destruct pool as [|bf pool]; [simpl in Hl; lia|]. unfold create, allocatePage. cbn [free_list mbind option_bind].
  eexists. split; [done|].
  assert (repr (set_root (mkBTree {[bf := new_node true]} pool 0 1) bf 1) (Node bf (new_node true) []) 0) as R.
  { constructor; try done.
    - split; [by apply page_at_new; [apply new_node_ok|..]|]. split; [done|constructor].
    - cbn [free_list set_root nodes flat_map fmap list_fmap fst]. by rewrite <- Permutation_cons_append.
    - cbn [free_list set_root nodes flat_map fmap list_fmap fst]. by rewrite <- Permutation_cons_append. }
  split; [by eexists _, _|]. split; [|done]. unfold tree_map. pose proof (repr_entries _ _ _ R) as E.
  cbn [frames set_root] in E |- *. by etrans; [apply f_equal, E|].
Qed.

(** * Counting *)

(** A sum over the pages of a tree. *)
Fixpoint sum_tree (inner leaf : BTreeNode -> Z) (T : tree) : Z :=
  let 'Node _ n cs := T in
  match cs with
  | [] => leaf n
  | _ => inner n + foldr (fun c a => sum_tree inner leaf c + a) 0 cs
  end.

Lemma sum_pages_map f (g : tree -> Z) cs :
  (forall c, c ∈ cs -> f (bf_of c) = Some (g c)) ->
  sum_pages f (map bf_of cs) = Some (foldr (fun c a => g c + a) 0 cs).
Proof.
  induction cs as [|c cs IH]; intros Hf; [done|]. cbn [map sum_pages foldr].
  rewrite Hf by (apply elem_of_cons; by left). cbn [mbind option_bind].
  rewrite IH by (intros c' Hc; apply Hf, elem_of_cons; by right). done.
Qed.

Lemma iterateAllPagesRec_wf t inner leaf h lo hi T :
  wf h lo hi T -> (forall bf n, (bf, n) ∈ nodes T -> frames t !! bf = Some n) ->
  iterateAllPagesRec (S h) t inner leaf (bf_of T) = Some (sum_tree inner leaf T).
Proof.
  revert lo hi T; induction h as [|h IH]; intros lo hi [bf n cs] HT Hn.
  - destruct HT as (P & -> & _). cbn [iterateAllPagesRec bf_of sum_tree].
    rewrite (Hn bf n) by (apply elem_of_cons; by left). cbn [mbind option_bind]. by rewrite (pa_leaf _ _ _ _ P).
  - destruct HT as (P & ss & L & Hk). cbn [bf_of]. remember (S h) as h'. cbn [iterateAllPagesRec].
    rewrite (Hn bf n) by (apply elem_of_cons; by left). cbn [mbind option_bind].
    rewrite (pa_leaf _ _ _ _ P), (child_swips_links _ _ _ L). subst h'.
    rewrite (sum_pages_map _ (sum_tree inner leaf)).
    + cbn [mbind option_bind]. pose proof (kids_length _ _ _ _ _ Hk). by destruct cs.
    + intros c Hc. destruct (kids_elem _ _ _ _ _ _ Hk Hc) as (l & u & Hcw). eapply IH; [done|].
      intros bf' n' Hin. apply Hn. by eapply nodes_child.
Qed.

Lemma sum_tree_count h lo hi T :
  wf h lo hi T -> sum_tree (fun _ => 0) (fun n => Z.of_nat (count n)) T = Z.of_nat (length (kvs T)).
Proof.
  revert lo hi T; induction h as [|h IH]; intros lo hi [bf n cs] HT.
  - destruct HT as (P & -> & _). rewrite kvs_leaf, length_entries. done.
  - destruct HT as (P & ss & L & Hk). destruct cs as [|c cs]; [done|]. rewrite kvs_inner. cbn [sum_tree].
    assert (forall c', c' ∈ c :: cs -> sum_tree (fun _ => 0) (fun n => Z.of_nat (count n)) c' = Z.of_nat (length (kvs c'))) as Hs.
    { intros c' Hc. destruct (kids_elem _ _ _ _ _ _ Hk Hc) as (l & u & Hcw). eauto. }
    revert Hs. generalize (c :: cs). clear. induction l as [|c cs IH]; intros Hs; [done|].
    cbn [foldr flat_map]. rewrite length_app, Nat2Z.inj_add, <- IH, Hs; [lia|apply elem_of_cons; by left|].
    intros c' Hc. apply Hs, elem_of_cons. by right.
Qed.

Lemma tree_map_size t : tree_ok t -> size (tree_map t) = length (tree_entries t).
Proof.
  intros (T & H & R). unfold tree_map. rewrite <- length_map_to_list, map_to_list_to_map; [done|].
  apply sorted_NoDup_keys. rewrite (repr_entries _ _ _ R). by eapply repr_sorted.
Qed.

(** * Focus on any page *)

Lemma wf_focus H ctx T h lo hi bf n :
  ctx_wf H ctx (bf_of T) h lo hi -> wf h lo hi T -> (bf, n) ∈ nodes T ->
  exists ctx' cs h' lo' hi', plug ctx T = plug ctx' (Node bf n cs) /\ ctx_wf H ctx' bf h' lo' hi' /\
    wf h' lo' hi' (Node bf n cs).
Proof.
  revert ctx T lo hi; induction h as [|h IH]; intros ctx [b m cs] lo hi Hc HT Hin.
  - destruct HT as (P & -> & Hs). simpl in Hin. apply elem_of_cons in Hin as [[= -> ->]|Hin%not_elem_of_nil]; [|done].
    by exists ctx, [], 0%nat, lo, hi.
  - cbn [nodes] in Hin. apply elem_of_cons in Hin as [[= -> ->]|Hin]; [by exists ctx, cs, (S h), lo, hi|].
    destruct HT as (P & ss & L & Hk). apply elem_of_flat_map in Hin as (c & Hc' & Hin).
    apply list_elem_of_split in Hc' as (cl & cr & ->). pose proof (kids_length _ _ _ _ _ Hk) as Hl.
    rewrite length_app in Hl. simpl in Hl. rewrite <- (take_drop (length cl) ss) in L, Hk.
    apply kids_focus in Hk as (m1 & m2 & H1 & H2 & H3); [|rewrite length_take; lia].
    destruct (IH (mkCrumb b m cl cr :: ctx) c m1 m2) as (ctx' & cs' & h' & lo' & hi' & E & H4 & H5); [|done|done|].
    + exists lo, hi, (take (length cl) ss), (drop (length cl) ss). split; [|done].
      constructor; cbn; try done. by rewrite map_app in L.
    + by exists ctx', cs', h', lo', hi'.
Qed.

(** Every frame in use is a page of the tree. *)
Lemma tree_page t bf n :
  tree_ok t -> frames t !! bf = Some n ->
  exists H ctx cs h lo hi, repr t (plug ctx (Node bf n cs)) H /\ ctx_wf H ctx bf h lo hi /\
    wf h lo hi (Node bf n cs) /\ (length ctx < Z.to_nat (height t))%nat.
Proof.
  intros (T & H & R) Hb. rewrite (re_frames _ _ _ R) in Hb. apply elem_of_list_to_map_2 in Hb.
  destruct (wf_focus H [] T H None None bf n) as (ctx & cs & h & lo & hi & E & Hc & Hw); [done|apply R|done|].
  exists H, ctx, cs, h, lo, hi. simpl in E. rewrite <- E. split_and!; [done..|].
  rewrite (re_height _ _ _ R). pose proof (ctx_height _ _ _ _ _ _ Hc). lia.
Qed.

(** * Fuel *)

Lemma insertKV_mono flags f f' t it key value x :
  insertKV flags f t it key value = Some x -> (f <= f')%nat -> insertKV flags f' t it key value = Some x.
Proof.
  revert f' t it; induction f as [|f IH]; intros f' t it E Hf; [done|].
  destruct f' as [|f']; [lia|]. cbn [insertKV] in *.
  destruct (seekToInsert t it key) as [[it1 r]|]; [|done]. cbn [mbind option_bind] in *.
  case_decide; [|done]. destruct (canInsertInCurrentNode t it1 key (length value)) as [c|]; [|done].
  cbn [mbind option_bind] in *. case_decide; [done|].
  destruct (splitForKey flags t it1 key) as [[t2 it2]|]; [|done]. cbn [mbind option_bind] in *.
  apply IH; [done|lia].
Qed.

(** * Scans in key order *)

Lemma entries_from_map t key : tree_ok t -> entries_from t key = kvs_from key (tree_map t).
Proof.
  intros (T & H & R). pose proof (repr_sorted _ _ _ R) as Hs. rewrite <- (repr_entries _ _ _ R) in Hs.
  apply sorted_unique; [by apply StronglySorted_filter|apply kvs_from_sorted|]. intros [k v].
  rewrite kvs_from_elem. unfold entries_from. rewrite list_elem_of_filter. simpl. unfold tree_map.
  rewrite elem_of_list_to_map by (by apply sorted_NoDup_keys). done.
Qed.

(** * The tree as a map *)

Inductive op :=
| Lookup (k : list Z)
| Insert (k v : list Z)
| Upsert (k v : list Z)
| Update (random_number : Z) (faced : bool) (tr : ContentionTracker) (k v : list Z)
| Remove (k : list Z) (no_merge : bool)
| Scan (k : list Z).

Inductive outcome :=
| Value (v : option (list Z))
| Status (r : OP_RESULT)
| Rows (l : list (list Z * list Z)).

Definition status_of {A} (a : option A) : outcome := Status (if a then OK else NOT_FOUND).

(** The specification: what each operation does to a finite map. *)
Definition map_step (m : kvmap) (o : op) : kvmap * outcome :=
  match o with
  | Lookup k => (m, Value (m !! k))
  | Insert k v => match m !! k with None => (<[k := v]> m, Status OK) | Some _ => (m, Status DUPLICATE) end
  | Upsert k v => (<[k := v]> m, Status OK)
  | Update _ _ _ k v => (alter (fun _ => v) k m, status_of (m !! k))
  | Remove k _ => (delete k m, status_of (m !! k))
  | Scan k => (m, Rows (kvs_from k m))
  end.

(** The same operation on the pages, with callbacks that copy the value out,
    write a new value, or collect the records. *)
Definition collect (l : list (list Z * list Z)) (k v : list Z) : list (list Z * list Z) * list Z * bool :=
  (l ++ [(k, v)], v, true).

Definition tree_step (flags : Flags) (fuel : nat) (t : BTree) (o : op) : option (BTree * outcome) :=
  match o with
  | Lookup k => '(t, v) ← ll_lookup t k (fun v => (v, v)); Some (t, Value v)
  | Insert k v => '(t, r) ← ll_insert flags fuel t k v; Some (t, Status r)
  | Upsert k v => '(t, r) ← ll_upsert flags fuel t k v; Some (t, Status r)
  | Update rn faced tr k v =>
      '(t, a) ← ll_updateSameSize flags rn faced tr t k (fun _ => (v, tt)); Some (t, status_of a)
  | Remove k no_merge => '(t, r) ← ll_remove t k no_merge; Some (t, Status r)
  | Scan k => '(t, l, _) ← ll_scanAsc fuel t k collect []; Some (t, Rows l)
  end.

(** What a caller must respect: byte strings of bounded length, values that
    keep their length, and keys of one length where contention splits cut a
    leaf at an arbitrary slot. *)
Definition keeps_length (t : BTree) (k v : list Z) : Prop :=
  forall v0, tree_map t !! k = Some v0 -> length v = length v0.

Definition op_ok (t : BTree) (o : op) : Prop :=
  match o with
  | Lookup k | Remove k _ | Scan k => Forall is_byte k
  | Insert k v => Forall is_byte k /\ Forall is_byte v /\ small (k, v)
  | Upsert k v => Forall is_byte k /\ Forall is_byte v /\ small (k, v) /\ keeps_length t k v
  | Update _ _ _ k v => Forall is_byte k /\ Forall is_byte v /\ keeps_length t k v /\ exists K, uniform t K
  end.

Definition frames_for (t : BTree) : Prop := (2 * insert_rounds t <= length (free_list t))%nat.
Definition fuel_for (t : BTree) : nat := insert_rounds t + leaf_count t + length (tree_entries t).

Lemma scan_collect l acc : scan_kvs collect acc l = (acc ++ l, l).
Proof.
  revert acc; induction l as [|[k v] l IH]; intros acc; simpl; [by rewrite app_nil_r|].
  by rewrite IH, <- app_assoc.
Qed.

Lemma collect_read_only : read_only collect.
Proof. done. Qed.

Lemma overwrite_same_size t k v :
  keeps_length t k v -> Forall is_byte v -> same_size_at (tree_map t !! k) (fun _ : list Z => (v, tt)).
Proof. intros H Hv v0 E _. simpl. auto. Qed.

(** One operation: it ends, with the outcome and the bindings of the map. *)
Lemma tree_step_ok flags t o :
  FLAGS_bulk_insert flags = false -> tree_ok t -> op_ok t o -> frames_for t ->
  exists t' r, tree_step flags (fuel_for t) t o = Some (t', r) /\ tree_ok t' /\
    map_step (tree_map t) o = (tree_map t', r).
Proof.
  unfold frames_for, fuel_for. intros Hb Ht Ho Hf. destruct o as [k|k v|k v|rn fa tr k v|k nm|k]; simpl in Ho |- *.
  - destruct (ll_lookup_ok t k (fun v => (v, v)) Ht Ho) as (t' & -> & Ht' & Em); [by intros v _ Hv|].
    simpl. eexists _, _. split; [done|]. split; [done|]. rewrite Em. f_equal; [|by rewrite option_fmap_id].
    symmetry. by apply alter_id.
  - destruct Ho as (Hk & Hv & Hs).
    destruct (ll_insert_ok flags Hb (fuel_for t) t k v Ht Hk Hv Hs) as (t' & r & E & Ht' & _ & Hm); [unfold fuel_for; lia|lia|].
    unfold fuel_for in E. rewrite E. simpl. eexists _, _. split; [done|]. split; [done|].
    destruct (tree_map t !! k); destruct Hm as [-> Hm]; [by subst t'|by rewrite Hm].
  - destruct Ho as (Hk & Hv & Hs & Hl).
    destruct (ll_upsert_ok flags Hb (fuel_for t) t k v Ht Hk Hv Hs Hl) as (t' & E & Ht' & Hm & _); [unfold fuel_for; lia|lia|].
    unfold fuel_for in E. rewrite E. simpl. eexists _, _. split; [done|]. split; [done|]. by rewrite Hm.
  - destruct Ho as (Hk & Hv & Hl & K & Hu).
    destruct (ll_updateSameSize_ok flags Hb rn fa tr t k (fun _ => (v, tt)) K Ht Hk (overwrite_same_size t k v Hl Hv) Hu)
      as (t' & -> & Ht' & Hm); [unfold insert_rounds in Hf; lia|]. simpl. eexists _, _. split; [done|]. split; [done|].
    rewrite Hm. by destruct (tree_map t !! k).
  - destruct (ll_remove_ok t k nm Ht Ho) as (t' & -> & Ht' & Hm & _). simpl. eexists _, _. split; [done|]. split; [done|].
    rewrite Hm. by destruct (tree_map t !! k).
  - pose proof (ll_scanAsc_scans collect (same_size_read_only _ collect_read_only) (fuel_for t) t k [] Ht Ho) as Hs.
    unfold scans in Hs. rewrite scan_collect, (entries_from_map t k Ht) in Hs.
    destruct Hs as (t' & E & Ht' & Hm); [unfold fuel_for; lia|unfold fuel_for; lia|]. unfold fuel_for in E. rewrite E. simpl.
    eexists _, _. split; [done|]. split; [done|]. rewrite Hm. f_equal.
    pose proof (scan_kvs_read_only collect [] k (tree_map t) collect_read_only) as Hr.
    by rewrite scan_collect in Hr.
Qed.

(** The histories of a tree: operations within the contract, each given enough
    frames, with their outcomes. *)
Inductive history (flags : Flags) (t0 : BTree) : list (op * outcome) -> BTree -> Prop :=
| history_new : history flags t0 [] t0
| history_step tr t o r t' :
    history flags t0 tr t -> op_ok t o -> frames_for t ->
    tree_step flags (fuel_for t) t o = Some (t', r) -> history flags t0 (tr ++ [(o, r)]) t'.

Fixpoint map_history (m : kvmap) (tr : list (op * outcome)) (m' : kvmap) : Prop :=
  match tr with
  | [] => m' = m
  | (o, r) :: tr' => (map_step m o).2 = r /\ map_history (map_step m o).1 tr' m'
  end.

Lemma map_history_snoc m tr m1 o r m2 :
  map_history m tr m1 -> map_step m1 o = (m2, r) -> map_history m (tr ++ [(o, r)]) m2.
Proof.
  revert m; induction tr as [|[o1 r1] tr IH]; intros m; simpl.
  - intros ->. intros ->. done.
  - intros [E H] Hs. split; [done|]. by apply IH.
Qed.

Lemma history_refines flags t0 tr t :
  FLAGS_bulk_insert flags = false -> tree_ok t0 -> history flags t0 tr t ->
  tree_ok t /\ map_history (tree_map t0) tr (tree_map t).
Proof.
  intros Hb H0. induction 1 as [|tr t o r t' _ [IH1 IH2] Ho Hf Hs]; [done|].
  destruct (tree_step_ok flags t o Hb IH1 Ho Hf) as (t2 & r2 & E & Ht & Hm).
  rewrite Hs in E. injection E as <- <-. split; [done|]. by eapply map_history_snoc.
Qed.

(** * Sample trees *)

Definition default_flags : Flags := mkFlags false 7 14 1.

(** The address of frame [i]. *)
Definition frame (i : nat) : Z := 4096 * Z.of_nat i.
Definition pool (i len : nat) : list Z := map frame (seq i len).

Lemma pool_ok i len :
  (0 < i)%nat -> (i + len <= 2000)%nat -> NoDup (pool i len) /\ Forall addr_ok (pool i len).
Proof.
  intros Hi Hl. split.
  - apply NoDup_fmap_2; [|apply NoDup_seq]. intros a b. unfold frame. lia.
  - apply list.Forall_forall. intros x (j & -> & Hj)%list_elem_of_fmap. apply elem_of_seq in Hj. unfold addr_ok, frame.
    change (2 ^ 62) with 4611686018427387904. lia.
Qed.

Lemma pool_app i a b : pool i (a + b) = pool i a ++ pool (i + a) b.
Proof. unfold pool. by rewrite seq_app, map_app. Qed.

(** A tree of one leaf. *)
Definition leaf_tree (n : BTreeNode) (len : nat) : BTree := mkBTree {[frame 1 := n]} (pool 2 len) (frame 1) 1.

Lemma leaf_tree_ok n len :
  page_at true None None n -> Forall small (entries n) -> (len <= 1000)%nat -> tree_ok (leaf_tree n len).
Proof.
  intros P Hs Hl. destruct (pool_ok 1 (S len)) as [H1 H2]; [lia..|]. simpl in H1, H2.
  exists (Node (frame 1) n []), 0%nat. constructor; try done.
  - cbn [nodes flat_map fmap list_fmap fst leaf_tree free_list]. by rewrite <- Permutation_cons_append.
  - cbn [nodes flat_map fmap list_fmap fst leaf_tree free_list]. by rewrite <- Permutation_cons_append.
Qed.

Lemma forallb_small l :
  forallb (fun e : list Z * list Z => (length e.1 <=? max_key)%nat && (length e.2 <=? max_value)%nat) l = true ->
  Forall small l.
Proof.
  intros H. rewrite forallb_forall in H. apply list.Forall_forall. intros e He.
  specialize (H e (proj1 (list_elem_of_In _ _) He)). apply andb_true_iff in H as [?%Nat.leb_le ?%Nat.leb_le]. done.
Qed.

Ltac small_entries := apply forallb_small; vm_compute; reflexivity.
Ltac page_facts := constructor; [|vm_compute; reflexivity..| | |].

Lemma fence_none : fence_good None.
Proof. intros k [=]. Qed.

Lemma fence_some k : k <> [] -> (length k <=? max_key)%nat = true -> fence_good (Some k).
Proof. intros H1 H2%Nat.leb_le k' [= <-]. done. Qed.

Lemma sample_leaf_at : page_at true None None sample_page.
Proof. page_facts; [apply sample_page_ok|apply fence_none..|done]. Qed.

Definition sample_tree : BTree := leaf_tree sample_page 200.

Lemma sample_tree_ok : tree_ok sample_tree.
Proof. apply leaf_tree_ok; [apply sample_leaf_at|small_entries|lia]. Qed.

(** Four leaves below a root of three separators. *)
Definition q1 : BTreeNode := fenced_page true None (Some [3]) [([1], [10]); ([2], [11])].
Definition q2 : BTreeNode := fenced_page true (Some [3]) (Some [5]) [([4], [12])].
Definition q3 : BTreeNode := fenced_page true (Some [5]) (Some [7]) [([6], [13]); ([7], [14])].
Definition q4 : BTreeNode := fenced_page true (Some [7]) None [([8; 1], [15])].
Definition q0 : BTreeNode :=
  set_upper (fenced_page false None None
    [([3], to_le 8 (frame 2)); ([5], to_le 8 (frame 3)); ([7], to_le 8 (frame 4))]) (frame 5).

Definition wide_tree_shape : tree :=
  Node (frame 1) q0 [Node (frame 2) q1 []; Node (frame 3) q2 []; Node (frame 4) q3 []; Node (frame 5) q4 []].

Definition wide_tree : BTree :=
  mkBTree (list_to_map (nodes wide_tree_shape)) (pool 6 210) (frame 1) 2.

Ltac sample_leaf :=
  split; [page_facts; [fenced|first [apply fence_none|by apply fence_some]..|
    first [done|intros ? ? [= <-] [= <-]; reflexivity]]|split; [done|small_entries]].

Lemma wide_tree_repr : repr wide_tree wide_tree_shape 1.
Proof.
  destruct (pool_ok 1 215) as [H1 H2]; [lia..|].
  assert (pool 6 210 ++ (nodes wide_tree_shape).*1 ≡ₚ pool 1 215) as E.
  { rewrite Permutation_app_comm. change (pool 1 215) with (pool 1 (5 + 210)). by rewrite pool_app. }
  constructor; [|done..|by rewrite E|by rewrite E].
  split.
  - page_facts; [|apply fence_none..|done].
    apply set_upper_ok. fenced.
  - exists [[3]; [5]; [7]]. split.
    + constructor; [vm_compute; reflexivity..|]. apply list.Forall_forall. intros x Hx.
      rewrite list.Forall_forall in H2. apply H2. rewrite <- E. apply elem_of_app. right.
      apply list_elem_of_fmap in Hx as (T & -> & HT). apply list_elem_of_fmap. exists (bf_of T, node_of T). split; [done|].
      eapply nodes_child; [exact HT|]. apply nodes_self.
    + eexists. split; [sample_leaf|]. do 3 (split; [reflexivity|]; eexists; split; [sample_leaf|]). done.
Qed.

Lemma wide_tree_ok : tree_ok wide_tree.
Proof. exists wide_tree_shape, 1%nat. apply wide_tree_repr. Qed.

(** * Properties *)

(** C7: refinement.  Whatever operations are run on a new tree, each within the
    contract of its caller and with enough free frames, the outcomes are those
    of the same operations on a finite map that starts empty, and the tree
    stays well-formed with the bindings of that map.  Conversely the tree never
    gets stuck: every further operation of the contract ends, in the state and
    with the outcome the map prescribes. *)
Theorem tree_refines_map flags frames0 t0 tr t :
  FLAGS_bulk_insert flags = false -> NoDup frames0 -> Forall addr_ok frames0 ->
  create frames0 = Some t0 -> history flags t0 tr t ->
  map_history ∅ tr (tree_map t) /\
  forall o, op_ok t o -> frames_for t ->
    exists t' r, tree_step flags (fuel_for t) t o = Some (t', r) /\ map_step (tree_map t) o = (tree_map t', r).
Proof.
  intros Hb Hn Ha Hc Hh.
  destruct (create_ok frames0 Hn Ha) as (t1 & E & Ht & Em & _); [destruct frames0; [done|simpl; lia]|].
  rewrite Hc in E. injection E as <-. destruct (history_refines flags t0 tr t Hb Ht Hh) as [H1 H2].
  rewrite Em in H2. split; [done|]. intros o Ho Hf.
  destruct (tree_step_ok flags t o Hb H1 Ho Hf) as (t' & r & Es & _ & Hm). eauto.
Qed.

Lemma new_sample : exists t0, create (pool 1 200) = Some t0 /\ tree_ok t0 /\ tree_map t0 = ∅ /\ frames_for t0.
Proof.
  destruct (pool_ok 1 200) as [H1 H2]; [lia..|].
  destruct (create_ok (pool 1 200) H1 H2) as (t0 & E & Ht & Em & Hf & Hh); [unfold pool; rewrite length_map, length_seq; lia|].
  exists t0. split_and!; [done..|]. unfold frames_for, insert_rounds. rewrite Hh.
  unfold pool in Hf. rewrite length_map, length_seq in Hf. lia.
Qed.

Lemma tree_refines_map_witness :
  exists t0 t r, create (pool 1 200) = Some t0 /\ history default_flags t0 [(Insert [1; 5] [7], r)] t /\
    map_history ∅ [(Insert [1; 5] [7], r)] (tree_map t).
Proof.
  destruct new_sample as (t0 & E & Ht & Em & Hf).
  assert (op_ok t0 (Insert [1; 5] [7])) as Ho
    by (split; [byte_list|split; [byte_list|split; apply Nat.leb_le; reflexivity]]).
  destruct (tree_step_ok default_flags t0 _ eq_refl Ht Ho Hf) as (t & r & Es & _).
  assert (history default_flags t0 [(Insert [1; 5] [7], r)] t) as Hh
    by exact (history_step default_flags t0 [] t0 _ r t (history_new default_flags t0) Ho Hf Es).
  exists t0, t, r. split_and!; [done..|].
  apply (tree_refines_map default_flags (pool 1 200) t0 [(Insert [1; 5] [7], r)] t); try done; apply pool_ok; lia.
Defined.


Lemma sample_frames : frames_for sample_tree.
Proof. unfold frames_for. apply Nat.leb_le. vm_compute. reflexivity. Qed.


Lemma trySplit_small flags fuel t bf n pos :
  frames t !! bf = Some n -> (count n <= 2)%nat -> is_Some (findParent t bf) ->
  trySplit flags (S fuel) t bf pos = Some t.
Proof.
  intros E Hc [p Hp]. cbn [trySplit]. rewrite Hp, E. cbn [mbind option_bind].
  by rewrite (proj2 (Nat.leb_le _ _)).
Qed.

Lemma findParent_page t H ctx bf n cs h lo hi :
  repr t (plug ctx (Node bf n cs)) H -> ctx_wf H ctx bf h lo hi -> wf h lo hi (Node bf n cs) ->
  is_Some (findParent t bf).
Proof.
  intros R Hc Hw. destruct ctx as [|k ctx].
  - eexists. exact (findParent_root t (Node bf n cs) H R).
  - eexists. exact (findParent_ctx t H k ctx (Node bf n cs) h lo hi R Hc Hw).
Qed.

(** The cut [findSep] chooses. *)
Lemma default_cut h lo hi bf n cs :
  wf h lo hi (Node bf n cs) -> (2 < count n)%nat ->
  cut n (sep_slot (findSep n)) (getSep n (findSep n)).
Proof.
  intros Hw Hc. destruct h as [|h]; [|by eapply findSep_inner_cut].
  destruct Hw as (PA & _ & Hs). by eapply findSep_leaf_cut.
Qed.

Lemma split_out_map t H ctx T h lo hi n info t' H' :
  repr t (plug ctx T) H ->
  ((exists ctxL ctxR L R, split_at t ctx T h lo hi n (sep_slot info) (getSep n info) t' H' ctxL ctxR L R) \/
   (exists ctx', grown t ctx T h lo hi t' H' ctx')) ->
  tree_ok t' /\ tree_map t' = tree_map t /\
  (length (free_list t') < length (free_list t) <= 2 + length (free_list t'))%nat.
Proof.
  intros R [(ctxL & ctxR & L & R0 & Sa)|(ctx' & G)].
  - split; [eexists _, _; apply Sa|]. split; [|apply Sa]. by eapply repr_map; [exact R|apply Sa|apply Sa].
  - split; [eexists _, _; apply G|]. split; [|apply G]. by eapply repr_map; [exact R|apply G|apply G].
Qed.

(** C9: [trySplit] of any page of a well-formed tree, leaf or inner, root or not,
    whether the parent has room for the separator or must be split in its
    place, changes no binding and leaves a well-formed tree; a page of at most
    two entries is left alone, and from any other the split really takes one or
    two frames.  For the default split position (no favoured slot, bulk
    insertion off) and at least two free frames. *)
Theorem trySplit_keeps_map flags t bf n :
  FLAGS_bulk_insert flags = false -> tree_ok t -> frames t !! bf = Some n -> (2 <= length (free_list t))%nat ->
  exists t', trySplit_page flags t bf (-1) = Some t' /\ tree_ok t' /\ tree_map t' = tree_map t /\
    (if (count n <=? 2)%nat then t' = t
     else (length (free_list t') < length (free_list t) <= 2 + length (free_list t'))%nat).
Proof.
  intros Hb Ht Hn Hf. destruct (tree_page t bf n Ht Hn) as (H & ctx & cs & h & lo & hi & R & Hc & Hw & Hh).
  unfold trySplit_page. destruct (Nat.leb_spec (count n) 2) as [Hc2|Hc2].
  - exists t. split_and!; try done. destruct (Z.to_nat (height t)) as [|f]; [lia|].
    eapply trySplit_small; [done..|]. by eapply findParent_page.
  - pose proof (default_cut _ _ _ _ _ _ Hw Hc2) as C.
    destruct (wf_page _ _ _ _ Hw) as [lf PA].
    destruct (trySplit_ok flags Hb ctx (Z.to_nat (height t)) t H bf n cs h lo hi (-1)) as (t' & H' & Et & Out);
      rewrite ?split_info_default by done; try done.
    { apply findSep_length; [apply PA|lia]. }
    exists t'. split; [done|]. destruct (split_out_map _ _ _ _ _ _ _ _ _ _ _ R Out) as (H1 & H2 & H3). done.
Qed.

Lemma trySplit_keeps_map_witness :
  exists t', trySplit_page default_flags wide_tree (frame 1) (-1) = Some t' /\ tree_map t' = tree_map wide_tree.
Proof.
  destruct (trySplit_keeps_map default_flags wide_tree (frame 1) q0) as (t' & E & _ & M & _);
    [reflexivity|apply wide_tree_ok|reflexivity|apply Nat.leb_le; vm_compute; reflexivity|].
  exists t'. split; [exact E|exact M].
Defined.

(** C10: [tryMerge] of any page, including the merges it goes on to try further
    up and the ones it gives up, changes no binding, leaves a well-formed tree
    and takes no frame; it ends within one call per level. *)
Theorem tryMerge_keeps_map t bf n :
  tree_ok t -> frames t !! bf = Some n ->
  exists t' merged, tryMerge_page t bf = Some (t', merged) /\ tree_ok t' /\ tree_map t' = tree_map t /\
    (length (free_list t) <= length (free_list t'))%nat.
Proof.
  intros Ht Hn. destruct (tree_page t bf n Ht Hn) as (H & ctx & cs & h & lo & hi & R & Hc & Hw & Hh).
  exact (tryMerge_ok ctx (Z.to_nat (height t)) t H (Node bf n cs) h lo hi R Hc Hw Hh).
Qed.

Lemma tryMerge_keeps_map_witness :
  exists t', tryMerge_page wide_tree (frame 3) = Some (t', true) /\ tree_map t' = tree_map wide_tree.
Proof.
  destruct (tryMerge_keeps_map wide_tree (frame 3) q2) as (t' & b & E & _ & M & _); [apply wide_tree_ok|reflexivity|].
  assert (option_map snd (tryMerge_page wide_tree (frame 3)) = Some true) as Eb by (vm_compute; reflexivity).
  rewrite E in Eb. injection Eb as ->. exists t'. split; [exact E|exact M].
Defined.

(** C11: [scanAsc] hands the callback exactly the records of the tree from the
    start key on, in strictly ascending key order and each once, until the
    callback stops it; what the callback writes into the values is what the
    tree has afterwards, and the status tells whether the end was reached.  One
    round per record and one step per leaf are enough. *)
Theorem scan_in_order {S} (f : S -> list Z -> list Z -> S * list Z * bool) fuel t key s :
  tree_ok t -> Forall is_byte key -> same_size_scan f ->
  (leaf_count t <= fuel)%nat -> (size (tree_map t) <= fuel)%nat ->
  let (s2, l2) := scan_kvs f s (kvs_from key (tree_map t)) in
  exists t', ll_scanAsc fuel t key f s = Some (t', s2, if scan_stops f s (kvs_from key (tree_map t)) then OK else NOT_FOUND) /\
    tree_ok t' /\ tree_map t' = list_to_map l2 ∪ tree_map t.
Proof.
  intros Ht Hk Hf Hl He. rewrite (tree_map_size t Ht) in He.
  pose proof (ll_scanAsc_scans f Hf fuel t key s Ht Hk Hl He) as Hs. unfold scans in Hs.
  by rewrite (entries_from_map t key Ht) in Hs.
Qed.

Lemma scan_in_order_witness :
  exists t', ll_scanAsc 10 wide_tree [2; 1] collect [] =
    Some (t', [([4], [12]); ([6], [13]); ([7], [14]); ([8; 1], [15])], NOT_FOUND).
Proof.
  pose proof (scan_in_order collect 10 wide_tree [2; 1] [] wide_tree_ok ltac:(byte_list)
    (same_size_read_only _ collect_read_only) ltac:(apply Nat.leb_le; vm_compute; reflexivity)
    ltac:(apply Nat.leb_le; vm_compute; reflexivity)) as H.
  assert (kvs_from [2; 1] (tree_map wide_tree) = [([4], [12]); ([6], [13]); ([7], [14]); ([8; 1], [15])]) as E
    by (vm_compute; reflexivity).
  rewrite E in H. cbn [scan_kvs collect scan_stops app] in H. destruct H as (t' & Et & _). exists t'. exact Et.
Defined.

(** [countEntries] of a well-formed tree is the number of bindings of its
    map: the recursive traversal visits every leaf once and ends. *)
Theorem countEntries_size t : tree_ok t -> countEntries t = Some (Z.of_nat (size (tree_map t))).
Proof.
  intros Ht. rewrite (tree_map_size t Ht). destruct Ht as (T & H & R). unfold countEntries, iterateAllPages.
  rewrite (re_height _ _ _ R), Nat2Z.id, (re_root _ _ _ R).
  rewrite (iterateAllPagesRec_wf t _ _ H None None T (re_wf _ _ _ R)).
  - by rewrite (sum_tree_count _ _ _ _ (re_wf _ _ _ R)), (repr_entries _ _ _ R).
  - intros bf n Hin. by eapply repr_lookup.
Qed.

Lemma countEntries_size_witness : countEntries wide_tree = Some 6.
Proof.
  rewrite (countEntries_size wide_tree wide_tree_ok). vm_compute. reflexivity.
Defined.
