(* ===== verification/BTreeFailures.v ===== *)
(** Where the page B-tree does not do what its callers expect: an insertion
    that never ends and an upsert that loses the record. *)
From stdpp Require Import sorting gmap.
From S2P Require Import Prelude BTreeNode BTreeNodeSearch BTreeNodeSpace BTreeNodeOps BTreeNodeSplit BTreeNodeMerge BTreeInterface BTree BTreeIterator BTreeShape BTreePath BTreeContents BTreeLookup BTreeSplit BTreeRoom BTreeTrySplit BTreeInsert BTreeRemove BTreeScan BTreeProps.
Local Open Scope Z_scope.

(** * Pages by their entries *)

(** Every sorted list of entries that fits is the contents of some page. *)
Lemma page_of_entries es :
  StronglySorted key_lt es -> Forall kv_bytes es ->
  slots_end (length es) + kv_total es <= EFFECTIVE_PAGE_SIZE ->
  exists n, page_at true None None n /\ entries n = es.
Proof.
  induction es as [|[k v] es IH] using rev_ind; intros Hs Hb Hr.
  - exists (new_node true). split; [|done]. constructor; [apply new_node_ok|done..|apply fence_none|apply fence_none|done].
  - apply StronglySorted_app in Hs as (Hlt & Hs & _). apply Forall_app in Hb as [Hb Hkv].
    apply list.Forall_cons in Hkv as [[Hk Hv] _]. simpl in Hk, Hv.
    rewrite length_app, kv_total_app in Hr. rewrite slots_end_add in Hr. simpl in Hr.
    pose proof (kv_total_nonneg es) as Hn0.
    destruct IH as (n & PA & Ee); [done|done|consts; lia|]. pose proof PA as [P Pl Plo Phi _ _ _].
    pose proof (ho_prefix _ _ (po_heap _ P)) as Hp. rewrite Plo, Phi in Hp. simpl in Hp.
    pose proof (page_space n P) as Sp. rewrite Plo, Phi, Hp, Ee in Sp. simpl in Sp.
    pose proof (length_entries n) as Ec. rewrite Ee in Ec.
    destruct (insert_ok n k v) as (n' & s & _ & P' & (F1 & F2 & F3 & F4 & F5) & _ & Hs' & En & _ & Hr'); try done.
    + by rewrite Plo, Phi.
    + rewrite Ee. intros e He Eq. specialize (Hlt e (k, v) He ltac:(apply elem_of_cons; by left)).
      simpl in Hlt. rewrite Eq in Hlt. by eapply lex_lt_irrefl.
    + consts. lia.
    + unfold canInsert, hasEnoughSpaceFor. apply orb_true_iff. right. apply Z.leb_le.
      rewrite freeSpaceAfterCompaction_eq, spaceNeeded_eq by (done || (consts; lia)). rewrite Hp, Sp, <- Ec. consts. unfold option_len. simpl. lia.
    + exists n'. split.
      * constructor; [done|congruence..|apply fence_none|apply fence_none|done].
      * rewrite En, Ee in *. assert (drop s es = []) as Ed.
        { destruct (drop s es) as [|e r] eqn:E; [done|]. exfalso.
          assert (e ∈ es) as He by (rewrite <- (take_drop s es), E; apply elem_of_app; right; apply elem_of_cons; by left).
          specialize (Hlt e (k, v) He ltac:(apply elem_of_cons; by left)).
          specialize (Hr' e ltac:(apply elem_of_cons; by left)). simpl in Hlt.
          exact (lex_lt_not_le _ _ Hlt Hr'). }
        rewrite Ed. rewrite <- (take_drop s es) at 2. by rewrite Ed, app_nil_r.
Qed.

(** Records [1], ..., [c] with values of [len] bytes. *)
Definition row (len : nat) (i : nat) : list Z * list Z := ([Z.of_nat i], replicate len 7).
Definition rows (c len : nat) : list (list Z * list Z) := map (row len) (seq 1 c).

Lemma rows_sorted c len : StronglySorted key_lt (rows c len).
Proof.
  unfold rows. generalize 1%nat. induction c as [|c IH]; intros i; simpl; [constructor|].
  constructor; [apply IH|]. apply list.Forall_forall. intros e (j & -> & Hj)%list_elem_of_fmap.
  apply elem_of_seq in Hj. unfold lex_lt. simpl. rewrite (proj2 (Z.compare_lt_iff _ _)) by lia. done.
Qed.

Lemma row_bytes len i : (i < 256)%nat -> kv_bytes (row len i).
Proof.
  intros Hi. split; simpl.
  - constructor; [unfold in_width; change (2 ^ 8) with 256; lia|constructor].
  - apply Forall_replicate. by vm_compute.
Qed.

Lemma rows_bytes c len : (c < 255)%nat -> Forall kv_bytes (rows c len).
Proof.
  intros Hc. apply list.Forall_forall. intros e (j & -> & Hj)%list_elem_of_fmap. apply elem_of_seq in Hj.
  apply row_bytes. lia.
Qed.

Lemma rows_total c len : kv_total (rows c len) = Z.of_nat c * (1 + Z.of_nat len).
Proof.
  unfold rows. generalize 1%nat. induction c as [|c IH]; intros i; simpl; [done|].
  fold (kv_total (map (row len) (seq (S i) c))). rewrite IH, length_replicate. lia.
Qed.

(** * Insertion *)

Lemma seekToInsert_absent t key bf n :
  findLeafCanJump t key = Some bf -> frames t !! bf = Some n -> page_ok n -> Forall is_byte key ->
  (forall e, e ∈ entries n -> e.1 <> key) ->
  exists pos, seekToInsert t new_iter key = Some (mkIter (Some bf) pos, OK) /\ 0 <= pos.
Proof.
  intros Hf Hn P Hk Habs. unfold seekToInsert, latch_leaf. cbn [cur new_iter Z.eqb Pos.eqb].
  rewrite Hf. cbn [mbind option_bind]. rewrite Hn. cbn [mbind option_bind].
  destruct (lowerBound_entries n key P Hk) as (pos & eq & -> & Hp & Hl & Hr & He). cbn [mbind option_bind].
  exists (Z.of_nat pos). split; [|lia]. destruct eq; [|done]. exfalso.
  destruct (proj1 He eq_refl) as [_ (v & Hv)].
  by apply (Habs _ (list_elem_of_lookup_2 _ _ _ Hv)).
Qed.

Section livelock.
Context (flags : Flags) (t : BTree) (key value : list Z) (bf : Z) (n : BTreeNode).
Context (Hleaf : findLeafCanJump t key = Some bf) (Hn : frames t !! bf = Some n).
Context (P : page_ok n) (Hk : Forall is_byte key) (Habs : forall e, e ∈ entries n -> e.1 <> key).
Context (Hp : is_Some (findParent t bf)) (Hh : 0 < height t).
Context (Hc : (count n <= 2)%nat) (Hno : canInsert n (length key) (length value) = false).

Lemma split_nothing pos : splitForKey flags t (mkIter (Some bf) pos) key = Some (t, new_iter).
Proof.
  unfold splitForKey, splitForKeyMightFail, leaf_of. rewrite Hleaf. cbn [mbind option_bind cur it_leaf]. rewrite Hn.
  cbn [mbind option_bind].
  assert (trySplit_page flags t bf (-1) = Some t) as E.
  { unfold trySplit_page. destruct (Z.to_nat (height t)) as [|f] eqn:Ef; [lia|]. by eapply trySplit_small. }
  destruct (pos =? -1); cbn [mbind option_bind]; [by rewrite E|].
  destruct (keyFitsInCurrentNode n key); cbn [mbind option_bind]; by rewrite E.
Qed.

Lemma insert_round fuel :
  insertKV flags (S fuel) t new_iter key value = insertKV flags fuel t new_iter key value.
Proof.
  cbn [insertKV]. destruct (seekToInsert_absent t key bf n Hleaf Hn P Hk Habs) as (pos & -> & _).
  cbn [mbind option_bind]. rewrite decide_True by done. unfold canInsertInCurrentNode, leaf_of.
  cbn [mbind option_bind it_leaf]. rewrite Hn. cbn [mbind option_bind]. rewrite Hno, decide_False by done.
  by rewrite split_nothing.
Qed.

End livelock.

(** * Replacement *)

Lemma focus_entry t H ctx bf n lo hi key i v :
  focus t H ctx bf n lo hi key -> entries n !! i = Some (key, v) -> tree_map t !! key = Some v.
Proof.
  intros F He. rewrite (focus_lookup _ _ _ _ _ _ _ _ F). apply elem_of_list_to_map; [|by eapply list_elem_of_lookup_2].
  apply sorted_NoDup_keys, F.
Qed.

(** After the removal the record is looked for again once the leaf was split:
    it is no longer there. *)
Lemma replaceKV_no_room flags fuel t H ctx bf n lo hi key v value i it :
  FLAGS_bulk_insert flags = false ->
  focus t H ctx bf n lo hi key -> at_leaf bf it -> entries n !! i = Some (key, v) ->
  small (key, value) -> canInsert (removeSlot n i) (length key) (length value) = false ->
  (2 <= length (free_list t))%nat ->
  exists t' it', replaceKV flags (S (S fuel)) t it key value = Some (t', it', NOT_FOUND) /\
    tree_ok t' /\ tree_map t' = delete key (tree_map t).
Proof.
  intros Hb F A He Hs Hno Hf. remember (S fuel) as fuel1. cbn [replaceKV]. subst fuel1.
  pose proof (focus_entry _ _ _ _ _ _ _ _ _ _ F He) as Em.
  destruct (seekExact_focus _ _ _ _ _ _ _ _ F it A) as (pos & -> & Hpos). rewrite Em. cbn [mbind option_bind].
  destruct (Hpos v Em) as (j & -> & Hj & Hej & _). rewrite decide_True by done.
  assert (j = i) as ->.
  { pose proof (sorted_NoDup_keys _ (po_sorted _ (pa_ok _ _ _ _ (fo_page _ _ _ _ _ _ _ _ F)))) as Hd.
    eapply (NoDup_lookup _ _ _ key Hd); rewrite list_lookup_fmap; [by rewrite Hej|by rewrite He]. }
  rewrite (removeCurrent_focus _ _ _ _ _ _ _ _ _ _ F He). cbn [mbind option_bind].
  destruct (focus_remove _ _ _ _ _ _ _ _ _ _ F He) as [F' Ed].
  unfold canInsertInCurrentNode. rewrite (leaf_of_focus _ _ _ _ _ _ _ _ F'). cbn [mbind option_bind].
  rewrite Hno, decide_False by done.
  destruct (splitForKey_focus flags Hb key value Hs _ _ _ _ _ _ _ (Z.of_nat i) F' ltac:(lia) Hno Hf)
    as (t' & H' & ctx' & bf' & n' & lo' & hi' & -> & F2 & Em2 & _).
  cbn [mbind option_bind replaceKV].
  destruct (seekExact_focus _ _ _ _ _ _ _ _ F2 new_iter (or_introl eq_refl)) as (pos & -> & _).
  rewrite Em2, Ed, lookup_delete_eq. cbn [mbind option_bind]. rewrite decide_False by done.
  eexists _, _. split; [done|]. split; [by eapply focus_tree_ok|]. by rewrite Em2, Ed.
Qed.

(** * Sample trees *)

Lemma leaf_tree_find n len key :
  is_leaf n = true ->
  findLeafCanJump (leaf_tree n len) key = Some (frame 1) /\ frames (leaf_tree n len) !! frame 1 = Some n.
Proof.
  intros Hl. assert (frames (leaf_tree n len) !! frame 1 = Some n) as E by apply lookup_singleton_eq.
  split; [|done]. unfold findLeafCanJump. change (Z.to_nat (height (leaf_tree n len))) with 1%nat.
  change (root (leaf_tree n len)) with (frame 1). cbn [descend]. rewrite E. cbn [mbind option_bind]. by rewrite Hl.
Qed.

(** A leaf without fences refuses what does not fit beside its records. *)
Lemma unfenced_refuses n kl vl :
  page_at true None None n -> sizeof_Slot + Z.of_nat kl + Z.of_nat vl < 65536 ->
  EFFECTIVE_PAGE_SIZE < slots_end (S (count n)) + kv_total (entries n) + Z.of_nat kl + Z.of_nat vl ->
  canInsert n kl vl = false.
Proof.
  intros [P _ Plo Phi _ _ _] Hsz Hno. pose proof (ho_prefix _ _ (po_heap _ P)) as Hp. rewrite Plo, Phi in Hp. simpl in Hp.
  pose proof (page_space n P) as Sp. rewrite Plo, Phi, Hp in Sp. unfold option_len in Sp. simpl in Sp.
  unfold canInsert, hasEnoughSpaceFor. pose proof (ho_heap _ _ (po_heap _ P)).
  rewrite freeSpace_eq, freeSpaceAfterCompaction_eq, spaceNeeded_eq by (done || (rewrite ?Hp; lia)).
  rewrite Hp. apply orb_false_iff. split; apply Z.leb_gt; consts; lia.
Qed.

(** * Properties *)

(** C12: liveness.  [insert] of a new record into a leaf of at most two records
    that refuses it never ends: [trySplit] leaves such a leaf alone, so every
    round of the retry loop starts again in the state the round before started
    in, and no amount of fuel gives a result.  The code expects the loop to end
    because a split makes room. *)
Theorem insert_livelock flags t key value bf n :
  findLeafCanJump t key = Some bf -> frames t !! bf = Some n -> page_ok n -> Forall is_byte key ->
  (forall e, e ∈ entries n -> e.1 <> key) -> is_Some (findParent t bf) -> 0 < height t ->
  (count n <= 2)%nat -> canInsert n (length key) (length value) = false ->
  forall fuel,
    insertKV flags (S fuel) t new_iter key value = insertKV flags fuel t new_iter key value /\
    ll_insert flags fuel t key value = None.
Proof.
  intros Hl Hn P Hk Ha Hp Hh Hc Hno fuel. split; [by eapply insert_round|].
  assert (insertKV flags fuel t new_iter key value = None) as E.
  { induction fuel as [|fuel IH]; [done|]. by erewrite insert_round. }
  unfold ll_insert. by rewrite E.
Qed.

(** C13: error.  [upsert] of a record whose leaf, once the old version is
    removed, has no room for the new one loses the record: the old version is
    gone, the leaf is split, the second round looks for the record it removed
    and gives up with [NOT_FOUND]. *)
Theorem upsert_loses_record flags fuel t key value bf n i v :
  FLAGS_bulk_insert flags = false -> tree_ok t -> Forall is_byte key -> small (key, value) ->
  findLeafCanJump t key = Some bf -> frames t !! bf = Some n -> entries n !! i = Some (key, v) ->
  canInsert (removeSlot n i) (length key) (length value) = false ->
  (2 <= length (free_list t))%nat -> (2 <= fuel)%nat ->
  exists t', ll_upsert flags fuel t key value = Some (t', NOT_FOUND) /\ tree_ok t' /\
    tree_map t !! key = Some v /\ tree_map t' = delete key (tree_map t).
Proof.
  intros Hb Ht Hk Hs Hl Hn He Hno Hf Hfuel. destruct fuel as [|[|fuel]]; [lia..|].
  destruct (tree_focus t key Ht Hk) as (H & ctx & bf1 & n1 & lo & hi & F).
  destruct (focus_find _ _ _ _ _ _ _ _ F) as [E1 E2]. rewrite Hl in E1. injection E1 as <-.
  rewrite Hn in E2. injection E2 as <-.
  pose proof (focus_entry _ _ _ _ _ _ _ _ _ _ F He) as Em.
  unfold ll_upsert. destruct (seekExact_focus _ _ _ _ _ _ _ _ F new_iter (or_introl eq_refl)) as (pos & -> & _).
  rewrite Em. cbn [mbind option_bind]. rewrite decide_False by done.
  destruct (replaceKV_no_room flags fuel t H ctx bf n lo hi key v value i (mkIter (Some bf) pos) Hb F
    (or_intror eq_refl) He Hs Hno Hf) as (t' & it' & -> & Ht' & Hm).
  exists t'. done.
Qed.

Definition six_kb : nat := Z.to_nat 6000.

Lemma six_kb_Z : Z.of_nat six_kb = 6000.
Proof. unfold six_kb. by rewrite Z2Nat.id. Qed.

(** Three records of 6000 bytes: two fit a page, the third never gets in. *)
Lemma insert_livelock_witness :
  exists n, entries n = rows 2 six_kb /\
    forall fuel, ll_insert default_flags fuel (leaf_tree n 10) [9] (replicate six_kb 7) = None.
Proof.
  pose proof six_kb_Z as Hz.
  destruct (page_of_entries (rows 2 six_kb)) as (n & PA & En);
    [apply rows_sorted|apply rows_bytes; lia|rewrite rows_total; consts; lia|].
  destruct (leaf_tree_find n 10 [9] (pa_leaf _ _ _ _ PA)) as [Hl Hn].
  pose proof (length_entries n) as Hc. rewrite En in Hc. unfold rows in Hc. rewrite length_map, length_seq in Hc.
  exists n. split; [exact En|]. intros fuel.
  apply (insert_livelock default_flags (leaf_tree n 10) [9] (replicate six_kb 7) (frame 1) n Hl Hn).
  - apply PA.
  - byte_list.
  - rewrite En. intros e (j & -> & Hj)%list_elem_of_fmap. apply elem_of_seq in Hj. simpl. intros [= Hj']. lia.
  - unfold findParent. rewrite Hn. cbn [mbind option_bind]. by exists None.
  - done.
  - lia.
  - rewrite length_replicate. apply unfenced_refuses; [exact PA|consts; lia|].
    rewrite <- Hc, En, rows_total. cbn [length]. consts. lia.
Defined.

Definition full_rows : list (list Z * list Z) := rows 16 max_value ++ [([17], [7])].

Lemma full_rows_sorted : StronglySorted key_lt full_rows.
Proof.
  apply StronglySorted_app. split; [|split; [apply rows_sorted|repeat constructor]].
  intros e f (j & -> & Hj)%list_elem_of_fmap ->%list_elem_of_singleton. apply elem_of_seq in Hj.
  unfold lex_lt. simpl. rewrite (proj2 (Z.compare_lt_iff _ _)) by lia. done.
Qed.

Lemma full_rows_small : Forall small full_rows.
Proof.
  apply Forall_app. split.
  - apply list.Forall_forall. intros e (j & -> & _)%list_elem_of_fmap. split; cbn [row fst snd]; [cbn; unfold max_key; lia|by rewrite length_replicate].
  - repeat constructor; simpl; unfold max_key, max_value; lia.
Qed.

Lemma full_rows_last n : entries n = full_rows -> count n = 17%nat /\ entries n !! 16%nat = Some ([17], [7]).
Proof. intros E. rewrite <- (length_entries n), E. done. Qed.

(** A leaf of sixteen records of 1000 bytes and a seventeenth of one byte that
    is to become one of 1000. *)
Lemma upsert_loses_record_witness :
  exists n t', entries n = full_rows /\
    ll_upsert default_flags 2 (leaf_tree n 10) [17] (replicate max_value 8) = Some (t', NOT_FOUND) /\
    tree_map t' = delete [17] (tree_map (leaf_tree n 10)).
Proof.
  destruct (page_of_entries full_rows) as (n & PA & En); [apply full_rows_sorted| |vm_compute; discriminate|].
  { apply Forall_app. split; [apply rows_bytes; lia|]. apply list.Forall_singleton. split; byte_list. }
  destruct (leaf_tree_find n 10 [17] (pa_leaf _ _ _ _ PA)) as [Hl Hn]. destruct (full_rows_last n En) as [Hc He].
  destruct (removeSlot_ok n 16 (pa_ok _ _ _ _ PA) ltac:(lia)) as (P' & F & C' & Ee & _).
  destruct (upsert_loses_record default_flags 2 (leaf_tree n 10) [17] (replicate max_value 8) (frame 1) n 16 [7])
    as (t' & E & _ & _ & M).
  - reflexivity.
  - apply leaf_tree_ok; [exact PA|rewrite En; apply full_rows_small|lia].
  - byte_list.
  - split; cbn [row fst snd]; [cbn; unfold max_key; lia|by rewrite length_replicate].
  - exact Hl.
  - exact Hn.
  - exact He.
  - apply unfenced_refuses; [by eapply page_at_frame|vm_compute; reflexivity|].
    rewrite Ee, En. replace (count (removeSlot n 16)) with 16%nat by lia. vm_compute. reflexivity.
  - apply Nat.leb_le. vm_compute. reflexivity.
  - lia.
  - exists n, t'. split; [exact En|]. split; [exact E|exact M].
Defined.

(** [prev] from the first record of a leaf skips a record when the key it is
    given for the previous leaf is not stored there: from [4] it goes to [1],
    past [2]. *)
Example prev_skips_record :
  exists it, prev wide_tree 3 (mkIter (Some (frame 3)) 0) = Some (it, OK) /\
    key_of wide_tree it = Some [1] /\ is_Some (tree_map wide_tree !! [2]) /\
    key_of wide_tree (mkIter (Some (frame 3)) 0) = Some [4].
Proof.
  exists (mkIter (Some (frame 2)) 0). split_and!; [vm_compute; reflexivity..|exists [11]; vm_compute; reflexivity|vm_compute; reflexivity].
Qed.
