(* ===== verification/TwoBTree.v ===== *)
(** The two-tree adapter of the paper
    (src/backend/twotree/ConcurrentTwoBTree.hpp, [ConcurrentTwoBTreeAdapter]
    with [Key] = [u64]): definitions.

    A small memory-resident hot B-tree caches records of a cold B-tree on
    disk.  Hot values carry a tag byte (modified, referenced, reference count);
    a deleted key leaves a one-byte mark in the hot tree.  Records move up on
    access and down by a clock sweep over the hot tree.

    The trees are values of any type with a [BTreeInterface].  Each operation
    is the whole call made by one thread, the lock-table operations included;
    [None] is a failed [assert] or [ensure], or a spin that does not end.  What
    the operations read from outside (the number of hot pages of the buffer
    manager, random numbers) is an argument.  Counters are integers; I/O
    statistics and timers, which only copy counters of the buffer manager and
    the clock, are left out. *)
From stdpp Require Import gmap.
From S2P Require Import Prelude Fold LockTable BTreeNode BTreeNodeOps BTreeInterface.
Import LockTable.Optimistic.
Local Open Scope Z_scope.

(** * Tagged payloads *)

Definition kDeletedBits : Z := 4.
Definition kReferenceMask : Z := 0xE0.
Definition kReferenceOffset : Z := 5.
Definition kMaxReferenceCount : Z := 7.

Record TaggedPayload := mkTagged { payload : list Z; bits : Z }.

Definition modified (tp : TaggedPayload) : bool := Z.testbit (bits tp) 0.
Definition set_modified (tp : TaggedPayload) : TaggedPayload :=
  mkTagged (payload tp) (Z.lor (bits tp) 1).
Definition clear_modified (tp : TaggedPayload) : TaggedPayload :=
  mkTagged (payload tp) (Z.land (bits tp) (Z.lnot 1)).

Definition get_reference_count (tp : TaggedPayload) : Z := Z.shiftr (bits tp) kReferenceOffset.
Definition set_reference_count (tp : TaggedPayload) (count : Z) : TaggedPayload :=
  mkTagged (payload tp)
    (u8 (Z.lor (Z.land (Z.lnot kReferenceMask) (bits tp)) (Z.shiftl count kReferenceOffset))).
Definition bump_reference_count (tp : TaggedPayload) : TaggedPayload :=
  let old := get_reference_count tp in
  set_reference_count tp (if old =? 7 then 7 else old + 1).
Definition dec_reference_count (tp : TaggedPayload) : TaggedPayload :=
  let old := get_reference_count tp in
  set_reference_count tp (if old =? 0 then 0 else old - 1).

Definition referenced (tp : TaggedPayload) : bool := Z.testbit (bits tp) 1.
Definition set_referenced (tp : TaggedPayload) : TaggedPayload :=
  mkTagged (payload tp) (Z.lor (bits tp) 2).
Definition clear_referenced (tp : TaggedPayload) : TaggedPayload :=
  mkTagged (payload tp) (Z.land (bits tp) (Z.lnot 2)).
Definition set_payload (tp : TaggedPayload) (p : list Z) : TaggedPayload := mkTagged p (bits tp).

(** The memory image: payload bytes, then the tag byte. *)
Definition encode (tp : TaggedPayload) : list Z := payload tp ++ [bits tp].

(** The payload a fresh hot record gets. *)
Definition new_tagged (v : list Z) (is_modified is_referenced : bool) : TaggedPayload :=
  let tp := mkTagged v 0 in
  let tp := if is_referenced then bump_reference_count (set_referenced tp) else clear_referenced tp in
  if is_modified then set_modified tp else clear_modified tp.

(** * State *)

Record Config := mkConfig {
  sizeof_Payload : nat;
  inclusive : bool;
  lazy_migration : bool;
  lazy_migration_threshold : Z;
  hot_partition_capacity_bytes : Z }.

Record Stats := mkStats {
  hot_partition_item_count : Z;
  hot_partition_size_bytes : Z;
  upward_migrations : Z;
  failed_upward_migrations : Z;
  downward_migrations : Z;
  eviction_items : Z;
  total_lookups : Z;
  lookups_hit_top : Z;
  scan_ops : Z }.

(** Increments of the counters. *)
Definition add_items (n bytes : Z) (c : Stats) : Stats :=
  mkStats (hot_partition_item_count c + n) (hot_partition_size_bytes c + bytes) (upward_migrations c)
    (failed_upward_migrations c) (downward_migrations c) (eviction_items c) (total_lookups c)
    (lookups_hit_top c) (scan_ops c).
Definition add_upward (success : bool) (c : Stats) : Stats :=
  mkStats (hot_partition_item_count c) (hot_partition_size_bytes c)
    (upward_migrations c + if success then 1 else 0)
    (failed_upward_migrations c + if success then 0 else 1) (downward_migrations c) (eviction_items c)
    (total_lookups c) (lookups_hit_top c) (scan_ops c).
Definition add_downward (c : Stats) : Stats :=
  mkStats (hot_partition_item_count c) (hot_partition_size_bytes c) (upward_migrations c)
    (failed_upward_migrations c) (downward_migrations c + 1) (eviction_items c) (total_lookups c)
    (lookups_hit_top c) (scan_ops c).
Definition add_eviction_items (n : Z) (c : Stats) : Stats :=
  mkStats (hot_partition_item_count c) (hot_partition_size_bytes c) (upward_migrations c)
    (failed_upward_migrations c) (downward_migrations c) (eviction_items c + n) (total_lookups c)
    (lookups_hit_top c) (scan_ops c).
Definition add_lookup (hit_top : bool) (c : Stats) : Stats :=
  mkStats (hot_partition_item_count c) (hot_partition_size_bytes c) (upward_migrations c)
    (failed_upward_migrations c) (downward_migrations c) (eviction_items c)
    (total_lookups c + if hit_top then 0 else 1) (lookups_hit_top c + if hit_top then 1 else 0)
    (scan_ops c).
Definition add_scan (c : Stats) : Stats :=
  mkStats (hot_partition_item_count c) (hot_partition_size_bytes c) (upward_migrations c)
    (failed_upward_migrations c) (downward_migrations c) (eviction_items c) (total_lookups c)
    (lookups_hit_top c) (scan_ops c + 1).

Record TwoBTree (T : Type) := mkTwo {
  hot_btree : T;
  cold_btree : T;
  lock_table : OptimisticLockTable;
  clock_hand : Z;
  eviction_round : Z;
  eviction_round_ref_counter : Z * Z;
  stats : Stats }.
Arguments mkTwo {T}.
Arguments hot_btree {T}.
Arguments cold_btree {T}.
Arguments lock_table {T}.
Arguments clock_hand {T}.
Arguments eviction_round {T}.
Arguments eviction_round_ref_counter {T}.
Arguments stats {T}.

(** What an operation reads from outside, in the order of the reads. *)
Record Env := mkEnv {
  hot_pages_at_eviction : Z;   (* by [try_eviction] *)
  hot_pages_soft : Z;          (* by [cache_under_pressure_soft] *)
  hot_pages_hard : Z;          (* by the [cache_under_pressure] after it *)
  rand_migrate : Z;            (* [getRandU64(0, 100)] in [should_migrate] *)
  rand_admit : Z }.            (* [getRandU64(0, 100)] before [admit_element] *)

Section operations.
Context {T : Type} `{BTreeInterface T} (cfg : Config).

Definition set_hot (s : TwoBTree T) (t : T) : TwoBTree T :=
  mkTwo t (cold_btree s) (lock_table s) (clock_hand s) (eviction_round s)
    (eviction_round_ref_counter s) (stats s).
Definition set_cold (s : TwoBTree T) (t : T) : TwoBTree T :=
  mkTwo (hot_btree s) t (lock_table s) (clock_hand s) (eviction_round s)
    (eviction_round_ref_counter s) (stats s).
Definition set_locks (s : TwoBTree T) (l : OptimisticLockTable) : TwoBTree T :=
  mkTwo (hot_btree s) (cold_btree s) l (clock_hand s) (eviction_round s)
    (eviction_round_ref_counter s) (stats s).
Definition count_stats (s : TwoBTree T) (f : Stats -> Stats) : TwoBTree T :=
  mkTwo (hot_btree s) (cold_btree s) (lock_table s) (clock_hand s) (eviction_round s)
    (eviction_round_ref_counter s) (f (stats s)).
Definition set_clock (s : TwoBTree T) (hand round : Z) : TwoBTree T :=
  mkTwo (hot_btree s) (cold_btree s) (lock_table s) hand round
    (eviction_round_ref_counter s) (stats s).

(** [eviction_round_ref_counter[i]] and its increments. *)
Definition ref_counter (s : TwoBTree T) (i : Z) : Z :=
  if i =? 0 then (eviction_round_ref_counter s).1 else (eviction_round_ref_counter s).2.
Definition add_ref_counter (s : TwoBTree T) (i n : Z) : TwoBTree T :=
  let (a, b) := eviction_round_ref_counter s in
  mkTwo (hot_btree s) (cold_btree s) (lock_table s) (clock_hand s) (eviction_round s)
    (if i =? 0 then (a + n, b) else (a, b + n)) (stats s).

Definition PartitionBitMask : Z := 0x8000000000000000.
Definition is_in_hot_partition (key : Z) : bool := Z.land key PartitionBitMask =? 0.

Definition sizeof_Key : Z := 8.
Definition sizeof_TaggedPayload : Z := Z.of_nat (sizeof_Payload cfg) + 1.

(** A value read as a [TaggedPayload]: [None] unless the length is right. *)
Definition decode (v : list Z) : option TaggedPayload :=
  if (length v =? sizeof_Payload cfg + 1)%nat
  then Some (mkTagged (take (sizeof_Payload cfg) v) (nth (sizeof_Payload cfg) v 0)) else None.

(** The key a folded key stands for. *)
Definition read_key (k : list Z) : Z := unfold_u64 (of_le k).
#[global] Arguments read_key _ : simpl never.

Definition cache_under_pressure (hot_pages : Z) : bool :=
  hot_partition_capacity_bytes cfg <=? hot_pages * PAGE_SIZE.
(** The factor 0.97 without the rounding of [double]. *)
Definition cache_under_pressure_soft (hot_pages : Z) : bool :=
  hot_partition_capacity_bytes cfg * 97 <=? hot_pages * PAGE_SIZE * 100.

Definition should_migrate (rand : Z) : bool :=
  if lazy_migration cfg then rand <? lazy_migration_threshold cfg else true.

(** * Partition helpers *)

Definition upsert_cold_partition (s : TwoBTree T) (k : Z) (v : list Z) : option (TwoBTree T) :=
  let (t, r) := upsert (cold_btree s) (fold_u64 k) v in
  if decide (r = OK) then Some (set_cold s t) else None.

Definition insert_cold_partition (s : TwoBTree T) (k : Z) (v : list Z) : option (TwoBTree T) :=
  let (t, r) := insert (cold_btree s) (fold_u64 k) v in
  if decide (r = OK) then Some (set_cold s t) else None.

Definition insert_hot_partition (s : TwoBTree T) (k : Z) (v : list Z) (is_modified is_referenced : bool)
  : option (TwoBTree T) :=
  let s := count_stats s (add_items 1 0) in
  let (t, r) := insert (hot_btree s) (fold_u64 k) (encode (new_tagged v is_modified is_referenced)) in
  if decide (r = OK) then Some (set_hot s t) else None.

Definition insert_hot_partition_might_fail (s : TwoBTree T) (k : Z) (v : list Z)
    (is_modified is_referenced : bool) : option (TwoBTree T * bool) :=
  let (t, r) := insert_might_fail (hot_btree s) (fold_u64 k)
                  (encode (new_tagged v is_modified is_referenced)) in
  if decide (r = OK) then Some (count_stats (set_hot s t) (add_items 1 0), true)
  else if decide (r = NOT_ENOUGH_SPACE) then Some (set_hot s t, false) else None.

Definition insert_hot_partition_deleted_mark (s : TwoBTree T) (k : Z) : option (TwoBTree T) :=
  let s := count_stats s (add_items 1 0) in
  let (t, r) := insert (hot_btree s) (fold_u64 k) [kDeletedBits] in
  if decide (r = OK) then Some (set_hot s t) else None.

Definition admit_element_might_fail (s : TwoBTree T) (k : Z) (v : list Z) (dirty is_referenced : bool)
  : option (TwoBTree T * bool) :=
  '(s, r) ← insert_hot_partition_might_fail s k v dirty is_referenced;
  Some (if r : bool then (count_stats s (add_items 0 (sizeof_Key + sizeof_TaggedPayload)), true)
        else (s, false)).

Definition admit_element (s : TwoBTree T) (k : Z) (v : list Z) (dirty is_referenced : bool)
  : option (TwoBTree T) :=
  s ← insert_hot_partition s k v dirty is_referenced;
  Some (count_stats s (add_items 0 (sizeof_Key + sizeof_TaggedPayload))).

Definition admit_delete_mark_element (s : TwoBTree T) (k : Z) : option (TwoBTree T) :=
  s ← insert_hot_partition_deleted_mark s k;
  Some (count_stats s (add_items 0 (sizeof_Key + 1))).

(** Remove a key from the cold tree, which must have it. *)
Definition remove_cold (s : TwoBTree T) (k : Z) : option (TwoBTree T) :=
  let (t, r) := remove (cold_btree s) (fold_u64 k) false in
  if decide (r = OK) then Some (set_cold s t) else None.

(** * Eviction *)

Definition kClockWalkSteps : nat := 10.

Record victim := mkVictim { v_key : Z; v_payload : TaggedPayload; v_version : Z }.

(** The callback of the clock scan up to [end_key]: referenced records lose
    their mark, others become victims with the lock version seen.  [None]:
    an assertion on the lengths failed. *)
Definition clock_scan (locks : OptimisticLockTable) (end_key : Z) (acc : option (list victim))
    (k v : list Z) : option (list victim) * list Z * bool :=
  let real_key := read_key k in
  if end_key <? real_key then (acc, v, false)
  else
    let continue := negb (end_key <=? real_key) in
    match acc, decode v with
    | Some victims, Some tp =>
        if (length k =? 8)%nat then
          let tp := dec_reference_count tp in
          if referenced tp then (Some victims, encode (clear_referenced tp), continue)
          else
            let (locked, g) := read_lock locks (make_guard locks real_key) in
            ((if locked : bool then Some (victims ++ [mkVictim real_key tp (version g)])
              else Some victims), encode tp, continue)
        else (None, v, false)
    | _, _ => (None, v, false)
    end.

(** The payload to write back: as scanned, or read again when there has been
    another writer since. *)
Definition victim_payload (s : TwoBTree T) (g : Guard) (x : victim) : option (TwoBTree T * TaggedPayload) :=
  if more_than_one_writer_since g (v_version x) then
    let (t, r) := lookup (hot_btree s) (fold_u64 (v_key x)) (fun v => (v, decode v)) in
    match r with Some (Some tp) => Some (set_hot s t, tp) | _ => None end
  else Some (s, v_payload x).

(** Into the cold tree: in inclusive mode only modified records. *)
Definition write_back (s : TwoBTree T) (key : Z) (tp : TaggedPayload) : option (TwoBTree T) :=
  if inclusive cfg then
    if modified tp then
      s ← upsert_cold_partition s key (payload tp);
      Some (count_stats s add_downward)
    else Some s
  else
    s ← insert_cold_partition s key (payload tp);
    Some (count_stats s add_downward).

(** One round of the eviction loop. *)
Definition evict_one (no_merge : bool) (s : TwoBTree T) (x : victim) : option (TwoBTree T) :=
  let key := v_key x in
  let '(locked, locks, g) := write_lock (lock_table s) (make_guard (lock_table s) key) in
  if negb locked then Some (set_locks s locks)   (* continue *)
  else if negb (v_version x <? version g) then None
  else
    '(s, tp) ← victim_payload (set_locks s locks) g x;
    if negb (is_in_hot_partition key) then None
    else
      s ← write_back s key tp;
      let (t, r) := remove (hot_btree s) (fold_u64 key) no_merge in
      if decide (r = OK) then
        let s := count_stats (set_hot s t) (add_items (-1) (- (sizeof_Key + sizeof_TaggedPayload))) in
        Some (set_locks s (fst (destroy (lock_table s) g)))
      else None.

Fixpoint evict_loop (no_merge : bool) (s : TwoBTree T) (l : list victim) : option (TwoBTree T) :=
  match l with
  | [] => Some s
  | x :: l' => s ← evict_one no_merge s x; evict_loop no_merge s l'
  end.

Definition evict_a_bunch (no_merge : bool) (s : TwoBTree T) : option (TwoBTree T) :=
  let start_key := clock_hand s in
  let this_eviction_round := eviction_round s in
  if negb (ref_counter s (1 - this_eviction_round mod 2) =? 0) then Some s
  else
    match findLeafNeighbouringNodeBoundary (hot_btree s) (fold_u64 start_key) kClockWalkSteps with
    | None => Some s   (* triggered == false *)
    | Some (b, rewind) =>
        if negb (length b =? 8)%nat then None
        else
          let end_key := read_key b in
          let s := add_ref_counter s (this_eviction_round mod 2) 1 in
          let s := if rewind : bool then set_clock s 0 (u64 (eviction_round s + 1))
                   else set_clock s (u64 (end_key + 1)) (eviction_round s) in
          let (t, victims) := scanAsc (hot_btree s) (fold_u64 start_key)
                                (clock_scan (lock_table s) end_key) (Some []) in
          let s := set_hot s t in
          victims ← victims;
          s ← evict_loop no_merge s victims;
          let s := count_stats s (add_eviction_items (Z.of_nat (length victims))) in
          Some (add_ref_counter s (this_eviction_round mod 2) (-1))
    end.

Definition try_eviction (env : Env) (s : TwoBTree T) : option (TwoBTree T) :=
  if cache_under_pressure (hot_pages_at_eviction env) then evict_a_bunch false s else Some s.

(** * Operations of the storage interface *)

(** What the lookup callback finds in the hot tree. *)
Inductive hot_entry := Deleted | Hit (p : list Z) | Malformed.

(** A value of one byte, which must be [kDeletedBits]. *)
Definition mark_entry (v : list Z) : hot_entry := if decide (v = [kDeletedBits]) then Deleted else Malformed.

Definition hot_lookup_callback (v : list Z) : list Z * hot_entry :=
  if (length v =? 1)%nat then (v, mark_entry v)
  else match decode v with
       | None => (v, Malformed)
       | Some tp =>
           let tp := if referenced tp then tp else set_referenced tp in
           let tp := if get_reference_count tp <? kMaxReferenceCount then bump_reference_count tp else tp in
           (encode tp, Hit (payload tp))
       end.

(** Moving a record found in the cold tree up, under the write lock: whether
    it was admitted. *)
Definition migrate_up (env : Env) (s : TwoBTree T) (k : Z) (v : list Z) : option (TwoBTree T * bool) :=
  '(s, res) ←
    (if cache_under_pressure_soft (hot_pages_soft env) && negb (cache_under_pressure (hot_pages_hard env))
     then if rand_admit env <? 5 then s ← admit_element s k v false false; Some (s, true)
          else admit_element_might_fail s k v false false
     else s ← admit_element s k v false false; Some (s, true));
  let s := count_stats s (add_upward res) in
  s ← (if negb (inclusive cfg) && res then remove_cold s k else Some s);
  Some (s, res).

(** State, guard and the value found ([None] is [return false]). *)
Definition lookup_internal (env : Env) (s : TwoBTree T) (g : Guard) (k : Z)
  : option (TwoBTree T * Guard * option (list Z)) :=
  let s := count_stats s (add_lookup false) in
  let (t, r) := lookup (hot_btree s) (fold_u64 k) hot_lookup_callback in
  let s := set_hot s t in
  match r with
  | Some Deleted => Some (s, g, None)
  | Some (Hit v) => Some (s, g, Some v)
  | Some Malformed => None
  | None =>
      let (t, r) := lookup (cold_btree s) (fold_u64 k) (fun v => (v, v)) in
      let s := set_cold s t in
      match r with
      | None => Some (s, g, None)
      | Some v =>
          if should_migrate (rand_migrate env) then
            let '(upgraded, locks, g) := upgrade_to_write_lock (lock_table s) g in
            let s := set_locks s locks in
            if negb upgraded then Some (s, g, None)
            else '(s, _) ← migrate_up env s k v; Some (s, g, Some v)
          else Some (s, g, Some v)
      end
  end.

(** The retry loop of [lookup]; [None] also when [fuel] rounds do not end it. *)
Fixpoint lookup_loop (fuel : nat) (env : Env) (s : TwoBTree T) (k : Z) : option (TwoBTree T * option (list Z)) :=
  match fuel with
  | O => None
  | S fuel' =>
      let (locked, g) := read_lock (lock_table s) (make_guard (lock_table s) k) in
      if negb locked then lookup_loop fuel' env s k
      else
        '(s, g, res) ← lookup_internal env s g k;
        let valid := validate (lock_table s) g in
        let s := set_locks s (fst (destroy (lock_table s) g)) in
        if valid then Some (s, res) else lookup_loop fuel' env s k
  end.

Definition lookup_two (fuel : nat) (env : Env) (s : TwoBTree T) (k : Z) : option (TwoBTree T * option (list Z)) :=
  s ← try_eviction env s; lookup_loop fuel env s k.

(** [while (g.write_lock() == false);] *)
Fixpoint write_lock_spin (fuel : nat) (locks : OptimisticLockTable) (g : Guard)
  : option (OptimisticLockTable * Guard) :=
  match fuel with
  | O => None
  | S fuel' =>
      let '(locked, locks, g) := write_lock locks g in
      if locked : bool then Some (locks, g) else write_lock_spin fuel' locks g
  end.

(** Run [body] under the write lock of [k]. *)
Definition with_write_lock {A} (fuel : nat) (s : TwoBTree T) (k : Z)
    (body : TwoBTree T -> option (TwoBTree T * A)) : option (TwoBTree T * A) :=
  '(locks, g) ← write_lock_spin fuel (lock_table s) (make_guard (lock_table s) k);
  '(s, r) ← body (set_locks s locks);
  Some (set_locks s (fst (destroy (lock_table s) g)), r).

Definition insert_two (fuel : nat) (env : Env) (s : TwoBTree T) (k : Z) (v : list Z) : option (TwoBTree T) :=
  s ← try_eviction env s;
  '(s, _) ← with_write_lock fuel s k (fun s => s ← admit_element s k v true false; Some (s, tt));
  Some s.

Definition remove_body (s : TwoBTree T) (k : Z) : option (TwoBTree T * bool) :=
  let (t, r) := lookup (hot_btree s) (fold_u64 k)
                  (fun v => (v, if (length v =? 1)%nat then mark_entry v else Hit v)) in
  let s := set_hot s t in
  match r with
  | Some Malformed => None
  | Some Deleted => Some (s, true)
  | None => s ← admit_delete_mark_element s k; Some (s, true)
  | Some (Hit _) =>
      let (t, r) := remove (hot_btree s) (fold_u64 k) false in
      if decide (r = OK) then
        let s := count_stats (set_hot s t) (add_items (-1) (- (sizeof_Key + sizeof_TaggedPayload))) in
        s ← admit_delete_mark_element s k; Some (s, true)
      else None
  end.

Definition remove_two (fuel : nat) (s : TwoBTree T) (k : Z) : option (TwoBTree T * bool) :=
  with_write_lock fuel s k (fun s => remove_body s k).

(** The in-place update of a hot record. *)
Definition update_callback (p : list Z) (v : list Z) : list Z * hot_entry :=
  if (length v =? 1)%nat then (v, mark_entry v)
  else match decode v with
       | None => (v, Malformed)
       | Some tp => (encode (set_payload (set_modified (set_referenced tp)) p), Hit p)
       end.

(** [memcpy(pl, &v, sizeof(Payload))] into a cold value. *)
Definition overwrite (v : list Z) (w : list Z) : list Z * unit := (v ++ drop (length v) w, tt).

Definition update_body (env : Env) (s : TwoBTree T) (k : Z) (v : list Z) : option (TwoBTree T * unit) :=
  let s := count_stats s (add_lookup false) in
  let (t, r) := updateSameSize (hot_btree s) (fold_u64 k) (update_callback v) in
  let s := set_hot s t in
  match r with
  | Some Malformed => None
  | Some _ => Some (count_stats s (add_lookup true), tt)
  | None =>
      let (t, r) := lookup (cold_btree s) (fold_u64 k) (fun v => (v, v)) in
      let s := set_cold s t in
      match r with
      | None => None   (* assert(res) *)
      | Some _ =>
          if should_migrate (rand_migrate env) then
            '(s, res) ←
              (if cache_under_pressure_soft (hot_pages_soft env)
               then admit_element_might_fail s k v false true
               else s ← admit_element s k v true false; Some (s, true));
            let s := count_stats s (add_upward res) in
            let s := if negb (inclusive cfg) && res
                     then set_cold s (fst (remove (cold_btree s) (fold_u64 k) false)) else s in
            Some (s, tt)
          else
            let (t, _) := updateSameSize (cold_btree s) (fold_u64 k) (overwrite v) in
            Some (set_cold s t, tt)
      end
  end.

Definition update_two (fuel : nat) (env : Env) (s : TwoBTree T) (k : Z) (v : list Z) : option (TwoBTree T) :=
  s ← try_eviction env s;
  '(s, _) ← with_write_lock fuel s k (fun s => update_body env s k v);
  Some s.

(** The in-place update of [put], which does not look for delete marks: on
    anything but a tagged payload it would write outside the value. *)
Definition put_callback (p : list Z) (v : list Z) : list Z * hot_entry :=
  match decode v with
  | None => (v, Malformed)
  | Some tp => (encode (set_payload (set_modified (set_referenced tp)) p), Hit p)
  end.

Definition put_body (s : TwoBTree T) (k : Z) (v : list Z) : option (TwoBTree T * unit) :=
  let (t, r) := updateSameSize (hot_btree s) (fold_u64 k) (put_callback v) in
  let s := set_hot s t in
  match r with
  | Some Malformed => None
  | Some _ => Some (s, tt)
  | None =>
      s ← admit_element s k v true false;
      s ← (if inclusive cfg then Some s else remove_cold s k);
      Some (s, tt)
  end.

Definition put_two (fuel : nat) (env : Env) (s : TwoBTree T) (k : Z) (v : list Z) : option (TwoBTree T) :=
  s ← try_eviction env s;
  '(s, _) ← with_write_lock fuel s k (fun s => put_body s k v);
  Some s.

End operations.
