(* ===== verification/TwoBTreeInv.v ===== *)
(** The invariant of the two-tree adapter, on the contents of its two trees:
    what a key maps to, how the operations move entries, and that each move
    keeps the invariant. *)
From stdpp Require Import gmap.
From S2P Require Import Prelude Fold LockTable BTreeNode BTreeNodeOps BTreeInterface TwoBTree.
Local Open Scope Z_scope.

(** * Tag bits *)

(** Check a fact of the tag byte on all its values. *)
Lemma all_bytes (P : Z -> bool) :
  forallb P (map Z.of_nat (seq 0 256)) = true -> forall b, is_byte b -> P b = true.
Proof.
  intros H b Hb. rewrite forallb_forall in H. apply H, in_map_iff. exists (Z.to_nat b).
  unfold in_width in Hb. change (2 ^ 8) with 256 in Hb. split; [lia|]. apply in_seq. lia.
Qed.

Definition byteb (b : Z) : bool := (0 <=? b) && (b <? 256).

Lemma byteb_ok b : byteb b = true -> is_byte b.
Proof.
  unfold byteb, in_width. intros [H1 H2]%andb_true_iff. change (2 ^ 8) with 256. lia.
Qed.

(** What the operations do to the tag byte [b]. *)
Definition tag_facts (b : Z) : bool :=
  let tp := mkTagged [] b in
  let d := dec_reference_count tp in
  let u := bump_reference_count tp in
  let r := set_referenced tp in
  let c := clear_referenced tp in
  let m := set_modified tp in
  true && byteb (bits d) && eqb (modified d) (modified tp) && eqb (referenced d) (referenced tp) &&
  byteb (bits u) && eqb (modified u) (modified tp) && eqb (referenced u) (referenced tp) &&
  byteb (bits r) && eqb (modified r) (modified tp) && referenced r &&
  byteb (bits c) && eqb (modified c) (modified tp) && negb (referenced c) &&
  byteb (bits m) && modified m &&
  (get_reference_count d =? Z.max 0 (get_reference_count tp - 1)) &&
  (get_reference_count u =? Z.min 7 (get_reference_count tp + 1)).

Lemma tag_facts_all b : is_byte b -> tag_facts b = true.
Proof. revert b. apply all_bytes. vm_compute. reflexivity. Qed.

Record tag_ok (tp : TaggedPayload) : Prop := TagOk {
  t_dec : is_byte (bits (dec_reference_count tp)) /\ modified (dec_reference_count tp) = modified tp /\
          referenced (dec_reference_count tp) = referenced tp;
  t_bump : is_byte (bits (bump_reference_count tp)) /\ modified (bump_reference_count tp) = modified tp;
  t_ref : is_byte (bits (set_referenced tp)) /\ modified (set_referenced tp) = modified tp;
  t_clear : is_byte (bits (clear_referenced tp)) /\ modified (clear_referenced tp) = modified tp /\
            referenced (clear_referenced tp) = false;
  t_mod : is_byte (bits (set_modified tp)) /\ modified (set_modified tp) = true;
  t_dec_count : get_reference_count (dec_reference_count tp) = Z.max 0 (get_reference_count tp - 1);
  t_bump_count : get_reference_count (bump_reference_count tp) = Z.min 7 (get_reference_count tp + 1) }.

Lemma byte_tag_ok tp : is_byte (bits tp) -> tag_ok tp.
Proof.
  intros Hb. pose proof (tag_facts_all _ Hb) as H. unfold tag_facts in H.
  repeat (apply andb_true_iff in H as [H ?]).
  repeat match goal with Hx : eqb _ _ = true |- _ => apply eqb_prop in Hx end.
  repeat match goal with Hx : byteb _ = true |- _ => apply byteb_ok in Hx end.
  repeat match goal with Hx : (_ =? _) = true |- _ => apply Z.eqb_eq in Hx end.
  repeat match goal with Hx : negb _ = true |- _ => apply negb_true_iff in Hx end.
  constructor; first [assumption | split; [assumption|first [assumption | split; assumption]]].
Qed.

Lemma new_tagged_bits v m r :
  is_byte (bits (new_tagged v m r)) /\ modified (new_tagged v m r) = m /\ payload (new_tagged v m r) = v.
Proof. destruct m, r; (split; [apply byteb_ok|split]); reflexivity. Qed.

(** * Keys *)

Definition valid_key (k : Z) : Prop := 0 <= k < 2 ^ 63.

Lemma valid_key_width k : valid_key k -> in_width 64 k.
Proof. unfold valid_key, in_width. lia. Qed.

Lemma read_key_fold k : in_width 64 k -> read_key (fold_u64 k) = k.
Proof. intros H. by apply (bswap_unfold_fold 8). Qed.

Lemma fold_read_key b : length b = 8%nat -> Forall is_byte b -> fold_u64 (read_key b) = b.
Proof. intros H1 H2. by apply (bswap_fold_unfold 8). Qed.

Lemma read_key_width b : in_width 64 (read_key b).
Proof. apply (bswap_bound 8). Qed.

Lemma valid_key_hot k : valid_key k -> is_in_hot_partition k = true.
Proof.
  intros Hk. unfold is_in_hot_partition. apply Z.eqb_eq. apply Z.bits_inj'. intros i Hi.
  rewrite Z.land_spec, Z.bits_0. change PartitionBitMask with (2 ^ 63).
  destruct (decide (i = 63)) as [->|].
  - rewrite <- (Z.mod_small k (2 ^ 63)) by (unfold valid_key in Hk; lia).
    by rewrite Z.mod_pow2_bits_high.
  - by rewrite Z.pow2_bits_false, andb_false_r by lia.
Qed.

(** * Contents of the two trees *)

Lemma length_encode tp : length (encode tp) = S (length (payload tp)).
Proof. unfold encode. rewrite length_app. simpl. lia. Qed.

Lemma encode_bytes tp : Forall is_byte (payload tp) -> is_byte (bits tp) -> Forall is_byte (encode tp).
Proof. intros H1 H2. apply Forall_app. split; [done|]. by constructor. Qed.

Section contents.
Context (cfg : Config).
Context (Hsz : (1 <= sizeof_Payload cfg <= 4000)%nat).

Abbreviation psz := (sizeof_Payload cfg).

Lemma decode_Some v tp :
  decode cfg v = Some tp <-> length (payload tp) = psz /\ v = encode tp.
Proof.
  unfold decode, encode. split.
  - destruct (Nat.eqb_spec (length v) (psz + 1)) as [E|]; [|done]. intros [= <-]. simpl.
    rewrite length_take. split; [lia|]. rewrite <- (take_drop psz v) at 1. f_equal.
    assert (exists b, drop psz v = [b]) as [b Hb].
    { assert (length (drop psz v) = 1)%nat as Hl by (rewrite length_drop; lia).
      destruct (drop psz v) as [|b [|]]; try done. by exists b. }
    rewrite Hb. f_equal. rewrite <- (take_drop psz v), Hb, app_nth2; rewrite length_take; [|lia].
    by replace (psz - (psz `min` length v))%nat with 0%nat by lia.
  - intros [Hl ->]. rewrite length_app. simpl. rewrite Hl, Nat.eqb_refl. destruct tp as [p b]. simpl in *.
    rewrite take_app_le, take_ge, app_nth2 by lia. by rewrite Hl, Nat.sub_diag.
Qed.

Lemma decode_encode tp : length (payload tp) = psz -> decode cfg (encode tp) = Some tp.
Proof. intros H. by apply decode_Some. Qed.

(** What a hot value says about its key. *)
Definition hot_value (v : list Z) : option (list Z) :=
  payload <$> decode cfg v.

(** The value of a key: the hot entry decides, a delete mark hides the cold
    record. *)
Definition mview (h c : kvmap) (kb : list Z) : option (list Z) :=
  match h !! kb with Some v => hot_value v | None => c !! kb end.

Definition hot_bytes (h : kvmap) : Z := map_fold (fun _ v a => 8 + Z.of_nat (length v) + a) 0 h.

(** Entries: keys are folded 63-bit integers, hot values tagged payloads or
    delete marks, cold values payloads. *)
Definition hot_shape (h : kvmap) : Prop :=
  forall kb v, h !! kb = Some v ->
    (exists k, valid_key k /\ kb = fold_u64 k) /\ Forall is_byte v /\
    (v = [kDeletedBits] \/ exists tp, decode cfg v = Some tp).

Definition cold_shape (c : kvmap) : Prop :=
  forall kb v, c !! kb = Some v ->
    (exists k, valid_key k /\ kb = fold_u64 k) /\ Forall is_byte v /\ length v = psz.

(** Exclusive mode: a record is in one tree.  Inclusive mode: a hot record
    that is not marked modified is a copy of the cold one. *)
Definition partition (h c : kvmap) : Prop :=
  forall kb v tp, h !! kb = Some v -> decode cfg v = Some tp ->
    if inclusive cfg then modified tp = false -> c !! kb = Some (payload tp)
    else c !! kb = None.

Record minv (h c : kvmap) : Prop := MInv {
  mi_hot : hot_shape h;
  mi_cold : cold_shape c;
  mi_part : partition h c }.

(** No delete marks. *)
Definition clean (h : kvmap) : Prop :=
  forall kb v, h !! kb = Some v -> exists tp, decode cfg v = Some tp.

Lemma hot_bytes_insert h kb v :
  h !! kb = None -> hot_bytes (<[kb := v]> h) = hot_bytes h + 8 + Z.of_nat (length v).
Proof.
  intros Hn. unfold hot_bytes. rewrite map_fold_insert_L; [lia| |done]. intros. lia.
Qed.

Lemma hot_bytes_delete h kb v :
  h !! kb = Some v -> hot_bytes (delete kb h) = hot_bytes h - 8 - Z.of_nat (length v).
Proof.
  intros Hs. unfold hot_bytes. rewrite (map_fold_delete_L _ _ kb v h); [lia| |done]. intros. lia.
Qed.

Lemma hot_bytes_replace h kb v v' :
  h !! kb = Some v -> length v' = length v -> hot_bytes (<[kb := v']> h) = hot_bytes h.
Proof.
  intros Hs Hl. rewrite <- insert_delete_eq, hot_bytes_insert by apply lookup_delete_eq.
  rewrite (hot_bytes_delete _ _ _ Hs). lia.
Qed.

Lemma mview_insert_ne h c kb kb' v : kb' <> kb -> mview (<[kb := v]> h) c kb' = mview h c kb'.
Proof. intros H. unfold mview. by rewrite lookup_insert_ne. Qed.

Lemma decode_bytes v tp :
  Forall is_byte v -> decode cfg v = Some tp -> Forall is_byte (payload tp) /\ is_byte (bits tp).
Proof.
  intros Hv [_ ->]%decode_Some. apply Forall_app in Hv as [H1 H2]. split; [done|]. by inversion H2.
Qed.

Lemma minv_hot_tp h c kb v tp :
  minv h c -> h !! kb = Some v -> decode cfg v = Some tp ->
  Forall is_byte (payload tp) /\ is_byte (bits tp) /\ length (payload tp) = psz /\ v = encode tp.
Proof.
  intros M Hk Hd. destruct (mi_hot _ _ M kb v Hk) as (_ & Hb & _).
  destruct (decode_bytes _ _ Hb Hd). pose proof Hd as [? ?]%decode_Some. done.
Qed.

(** ** Moves that keep the invariant *)

(** Replace the hot record of a key.  In inclusive mode an unmodified copy
    stays a copy. *)
Lemma minv_replace h c kb v tp tp' :
  minv h c -> h !! kb = Some v -> decode cfg v = Some tp ->
  length (payload tp') = psz -> Forall is_byte (payload tp') -> is_byte (bits tp') ->
  (modified tp' = false -> modified tp = false /\ payload tp' = payload tp) ->
  minv (<[kb := encode tp']> h) c.
Proof.
  intros M Hk Hd Hl Hp Hb Hm. pose proof (decode_encode tp' Hl) as Hd'. constructor.
  - intros kb' v' [[<- <-]|[_ H]]%lookup_insert_Some; [|by apply (mi_hot _ _ M)].
    split; [by apply (mi_hot _ _ M kb v)|]. split; [by apply encode_bytes|]. right. eauto.
  - apply M.
  - intros kb' v' tp0 [[<- <-]|[_ H]]%lookup_insert_Some Hd0; [|by apply (mi_part _ _ M kb' v')].
    rewrite Hd' in Hd0. injection Hd0 as <-. pose proof (mi_part _ _ M kb v tp Hk Hd) as Hpart.
    destruct (inclusive cfg); [|done]. intros Hm0. destruct (Hm Hm0) as [Hm1 ->]. auto.
Qed.

Lemma mview_replace h c kb tp' kb' :
  length (payload tp') = psz ->
  mview (<[kb := encode tp']> h) c kb' = if decide (kb' = kb) then Some (payload tp') else mview h c kb'.
Proof.
  intros Hl. unfold mview. case_decide as E; [subst; rewrite lookup_insert_eq|by rewrite lookup_insert_ne].
  unfold hot_value. by rewrite decode_encode.
Qed.

Lemma clean_insert h kb tp : clean h -> length (payload tp) = psz -> clean (<[kb := encode tp]> h).
Proof.
  intros Hc Hl kb' v [[<- <-]|[_ H]]%lookup_insert_Some; [|by eapply Hc].
  exists tp. by apply decode_encode.
Qed.

Lemma clean_delete h kb : clean h -> clean (delete kb h).
Proof. intros Hc kb' v [_ H]%lookup_delete_Some. by eapply Hc. Qed.

(** Admit a record to the hot tree; in exclusive mode it leaves the cold one. *)
Lemma minv_admit h c k tp :
  minv h c -> valid_key k -> h !! fold_u64 k = None ->
  length (payload tp) = psz -> Forall is_byte (payload tp) -> is_byte (bits tp) ->
  (inclusive cfg = true -> modified tp = false -> c !! fold_u64 k = Some (payload tp)) ->
  minv (<[fold_u64 k := encode tp]> h) (if inclusive cfg then c else delete (fold_u64 k) c).
Proof.
  intros M Hk Hn Hl Hp Hb Hm. pose proof (decode_encode tp Hl) as Hd. constructor.
  - intros kb v [[<- <-]|[_ H]]%lookup_insert_Some; [|by apply (mi_hot _ _ M)].
    split; [eauto|]. split; [by apply encode_bytes|]. right. eauto.
  - destruct (inclusive cfg); [apply M|]. intros kb v [_ H]%lookup_delete_Some. by apply (mi_cold _ _ M).
  - intros kb v tp0 [[<- <-]|[Hne H]]%lookup_insert_Some Hd0.
    + rewrite Hd in Hd0. injection Hd0 as <-. destruct (inclusive cfg); [auto|apply lookup_delete_eq].
    + pose proof (mi_part _ _ M kb v tp0 H Hd0) as Hpart.
      destruct (inclusive cfg); [done|]. by rewrite lookup_delete_ne.
Qed.

Lemma mview_admit h c k tp kb :
  length (payload tp) = psz ->
  mview (<[fold_u64 k := encode tp]> h) (if inclusive cfg then c else delete (fold_u64 k) c) kb =
  if decide (kb = fold_u64 k) then Some (payload tp) else mview h c kb.
Proof.
  intros Hl. unfold mview. case_decide as E.
  - subst. rewrite lookup_insert_eq. unfold hot_value. by rewrite decode_encode.
  - rewrite lookup_insert_ne by done. destruct (inclusive cfg); [done|].
    destruct (h !! kb); [done|]. by rewrite lookup_delete_ne.
Qed.

(** The cold tree after a record was evicted. *)
Definition evicted_cold (c : kvmap) (kb : list Z) (tp : TaggedPayload) : kvmap :=
  if inclusive cfg && negb (modified tp) then c else <[kb := payload tp]> c.

Lemma minv_evict h c kb v tp :
  minv h c -> h !! kb = Some v -> decode cfg v = Some tp ->
  minv (delete kb h) (evicted_cold c kb tp).
Proof.
  intros M Hk Hd. destruct (minv_hot_tp _ _ _ _ _ M Hk Hd) as (Hp & Hb & Hl & ->).
  destruct (mi_hot _ _ M kb _ Hk) as (Hkey & _). constructor.
  - intros kb' v' [_ H]%lookup_delete_Some. by apply (mi_hot _ _ M).
  - unfold evicted_cold. case_match; [apply M|].
    intros kb' v' [[<- <-]|[_ H2]]%lookup_insert_Some; [done|by apply (mi_cold _ _ M)].
  - intros kb' v' tp' [Hne H]%lookup_delete_Some Hd'.
    pose proof (mi_part _ _ M kb' v' tp' H Hd') as Hpart. unfold evicted_cold.
    destruct (inclusive cfg); simpl; [destruct (modified tp); simpl|];
      rewrite ?lookup_insert_ne by done; done.
Qed.

Lemma mview_evict h c kb v tp kb' :
  minv h c -> h !! kb = Some v -> decode cfg v = Some tp ->
  mview (delete kb h) (evicted_cold c kb tp) kb' = mview h c kb'.
Proof.
  intros M Hk Hd. unfold mview. destruct (decide (kb' = kb)) as [->|Hne].
  - rewrite lookup_delete_eq, Hk. unfold hot_value. rewrite Hd. simpl. unfold evicted_cold.
    pose proof (mi_part _ _ M kb v tp Hk Hd) as Hpart. destruct (inclusive cfg); simpl.
    + destruct (modified tp); simpl; [by rewrite lookup_insert_eq|auto].
    + by rewrite lookup_insert_eq.
  - rewrite lookup_delete_ne by done. destruct (h !! kb'); [done|]. unfold evicted_cold.
    case_match; [done|]. by rewrite lookup_insert_ne.
Qed.

(** Replace a cold record whose key is not hot. *)
Lemma minv_cold_update h c kb v0 v :
  minv h c -> h !! kb = None -> c !! kb = Some v0 -> length v = psz -> Forall is_byte v ->
  minv h (<[kb := v]> c).
Proof.
  intros M Hn Hc Hl Hb. constructor; [apply M| |].
  - intros kb' v' [[<- <-]|[_ H]]%lookup_insert_Some; [|by apply (mi_cold _ _ M)].
    split; [by apply (mi_cold _ _ M kb v0)|done].
  - intros kb' v' tp' H Hd'. pose proof (mi_part _ _ M kb' v' tp' H Hd') as Hpart.
    assert (kb' <> kb) by congruence. by rewrite lookup_insert_ne.
Qed.

(** Put a delete mark. *)
Lemma minv_mark h c k :
  minv h c -> valid_key k -> minv (<[fold_u64 k := [kDeletedBits]]> h) c.
Proof.
  assert (decode cfg [kDeletedBits] = None) as Hd.
  { unfold decode. rewrite (proj2 (Nat.eqb_neq _ _)); [done|]. simpl. lia. }
  intros M Hk. constructor; [|apply M|].
  - intros kb v [[<- <-]|[_ H]]%lookup_insert_Some; [|by apply (mi_hot _ _ M)].
    split; [eauto|]. split; [|by left]. constructor; [by apply byteb_ok|constructor].
  - intros kb v tp [[<- <-]|[_ H]]%lookup_insert_Some Hd'; [congruence|]. by apply (mi_part _ _ M kb v).
Qed.

Lemma mview_mark h c k kb :
  mview (<[fold_u64 k := [kDeletedBits]]> h) c kb =
  if decide (kb = fold_u64 k) then None else mview h c kb.
Proof.
  unfold mview. case_decide as E; [subst; rewrite lookup_insert_eq|by rewrite lookup_insert_ne].
  unfold hot_value, decode. rewrite (proj2 (Nat.eqb_neq _ _)); [done|]. simpl. lia.
Qed.

(** Tag bytes changed, nothing else: what the clock scan and a hot lookup do. *)
Definition retagged (v v' : list Z) : Prop :=
  v' = v \/ exists tp tp', decode cfg v = Some tp /\ v' = encode tp' /\
    payload tp' = payload tp /\ modified tp' = modified tp /\ is_byte (bits tp').

Definition touched (h h' : kvmap) : Prop :=
  forall kb, match h !! kb, h' !! kb with
             | Some v, Some v' => retagged v v'
             | None, None => True
             | _, _ => False
             end.

Lemma retagged_decode v v' :
  retagged v v' -> length v' = length v /\ (Forall is_byte v -> Forall is_byte v') /\
  forall tp', decode cfg v' = Some tp' ->
    exists tp, decode cfg v = Some tp /\ payload tp' = payload tp /\ modified tp' = modified tp.
Proof.
  intros [->|(tp & tp' & Hd & -> & Hp & Hm & Hb)]; [by eauto 10|].
  pose proof Hd as [Hl ->]%decode_Some. rewrite !length_encode, Hp. split; [done|]. split.
  - intros Hv. destruct (decode_bytes _ _ Hv Hd) as [? _]. apply encode_bytes; [by rewrite Hp|done].
  - intros tp0 H0. rewrite decode_encode in H0 by congruence. injection H0 as <-. eauto.
Qed.

Lemma retagged_sym_decode v v' tp :
  retagged v v' -> decode cfg v = Some tp ->
  exists tp', decode cfg v' = Some tp' /\ payload tp' = payload tp /\ modified tp' = modified tp.
Proof.
  intros [->|(tp0 & tp' & Hd & -> & Hp & Hm & Hb)] H; [by eauto|].
  rewrite Hd in H. injection H as ->. pose proof Hd as [Hl _]%decode_Some.
  exists tp'. rewrite decode_encode by congruence. done.
Qed.

Lemma retagged_None v v' : retagged v v' -> decode cfg v = None -> v' = v.
Proof. intros [->|(tp & tp' & Hd & _)] H; [done|congruence]. Qed.

Lemma touched_inv h h' kb v' : touched h h' -> h' !! kb = Some v' ->
  exists v, h !! kb = Some v /\ retagged v v'.
Proof. intros Ht H. specialize (Ht kb). rewrite H in Ht. destruct (h !! kb); naive_solver. Qed.

Lemma touched_minv h h' c : minv h c -> touched h h' -> minv h' c.
Proof.
  intros M Ht. constructor; [|apply M|].
  - intros kb v' (v & Hk & Hr)%(touched_inv h); [|done].
    destruct (mi_hot _ _ M kb v Hk) as (H1 & H2 & H3).
    destruct (retagged_decode _ _ Hr) as (_ & Hb & _). split; [done|]. split; [auto|].
    destruct (decode cfg v) as [tp|] eqn:Hd.
    + destruct (retagged_sym_decode _ _ _ Hr Hd) as (tp' & ? & _). right. eauto.
    + rewrite (retagged_None _ _ Hr Hd). by rewrite Hd.
  - intros kb v' tp' (v & Hk & Hr)%(touched_inv h) Hd'; [|done].
    destruct (retagged_decode _ _ Hr) as (_ & _ & H). destruct (H tp' Hd') as (tp & Hd & -> & ->).
    exact (mi_part _ _ M kb v tp Hk Hd).
Qed.

Lemma touched_view h h' c kb : touched h h' -> mview h' c kb = mview h c kb.
Proof.
  intros Ht. specialize (Ht kb). unfold mview, hot_value.
  destruct (h !! kb) as [v|], (h' !! kb) as [v'|]; try done.
  destruct (decode cfg v) as [tp|] eqn:Hd.
  - destruct (retagged_sym_decode _ _ _ Ht Hd) as (tp' & -> & Hp & _). simpl. by rewrite Hp.
  - rewrite (retagged_None _ _ Ht Hd). by rewrite Hd.
Qed.

Lemma touched_clean h h' : touched h h' -> clean h -> clean h'.
Proof.
  intros Ht Hc kb v' (v & Hk & Hr)%(touched_inv h); [|done]. destruct (Hc kb v Hk) as [tp Hd].
  destruct (retagged_sym_decode _ _ _ Hr Hd) as (tp' & ? & _). eauto.
Qed.

Lemma touched_lengths h h' : touched h h' -> length <$> h' = length <$> h.
Proof.
  intros Ht. apply map_eq. intros kb. rewrite !lookup_fmap. specialize (Ht kb).
  destruct (h !! kb) as [v|], (h' !! kb) as [v'|]; try done. simpl.
  by destruct (retagged_decode _ _ Ht) as [-> _].
Qed.

Lemma touched_account h h' : touched h h' -> size h' = size h /\ hot_bytes h' = hot_bytes h.
Proof.
  intros Hl%touched_lengths. split.
  - by rewrite <- (map_size_fmap length h'), Hl, map_size_fmap.
  - assert (forall h, hot_bytes h = map_fold (fun _ n a => 8 + Z.of_nat n + a) 0 (length <$> h)) as E.
    { intros h0. unfold hot_bytes. by rewrite map_fold_fmap. }
    by rewrite !E, Hl.
Qed.

Lemma touched_alter h kb f :
  (forall v, h !! kb = Some v -> retagged v (f v)) -> touched h (alter f kb h).
Proof.
  intros Hf kb'. destruct (decide (kb' = kb)) as [->|].
  - rewrite lookup_alter_eq. destruct (h !! kb); simpl; auto.
  - rewrite lookup_alter_ne by done. destruct (h !! kb'); [by left|done].
Qed.

(** The callbacks of hot lookups only retag. *)
Lemma hot_lookup_callback_retags v :
  Forall is_byte v -> retagged v (hot_lookup_callback cfg v).1.
Proof.
  intros Hv. unfold hot_lookup_callback. destruct (Nat.eqb_spec (length v) 1); [by left|].
  destruct (decode cfg v) as [tp|] eqn:Hd; [|by left]. right.
  destruct (decode_bytes _ _ Hv Hd) as [_ Hb]. cbn [fst].
  set (tp1 := if referenced tp then tp else set_referenced tp).
  assert (is_byte (bits tp1) /\ modified tp1 = modified tp /\ payload tp1 = payload tp) as (H1 & H2 & H3).
  { unfold tp1. destruct (referenced tp); [done|]. destruct (t_ref _ (byte_tag_ok tp Hb)). done. }
  exists tp. eexists. split; [done|]. split; [done|].
  destruct (t_bump _ (byte_tag_ok tp1 H1)) as [H4 H5].
  destruct (get_reference_count tp1 <? kMaxReferenceCount); split_and!; try done; congruence.
Qed.

End contents.
