(* ===== verification/TwoBTreeOps.v ===== *)
(** Correctness of the operations of the two-tree adapter, proved against the
    B-tree contract: every call by a single thread ends, keeps the invariant,
    and acts on the map of visible records as its name says. *)
From stdpp Require Import gmap.
From S2P Require Import Prelude Fold LockTable BTreeNode BTreeNodeOps BTreeInterface TwoBTree TwoBTreeInv.
Import LockTable.Optimistic.
Local Open Scope Z_scope.

(** * Locks of one thread *)

(** All words even: nobody holds a lock. *)
Definition unlocked (t : OptimisticLockTable) : Prop :=
  forall p, 0 <= words t p /\ words t p mod 2 = 0.

(** [n] more write locks before some version counter wraps. *)
Definition lock_room (t : OptimisticLockTable) (n : Z) : Prop := forall p, words t p + 2 * n < 2 ^ 64.

Lemma read_lock_free t k :
  unlocked t -> let g := make_guard t k in
  read_lock t g = (true, mkGuard (word_pos g) (words t (word_pos g)) READ_LOCKED).
Proof. intros H. unfold read_lock. by rewrite (proj2 (H _)). Qed.

Lemma cas_free t g :
  unlocked t -> lock_room t 1 -> version g = words t (word_pos g) ->
  lock_cas t g = (true, store_word t (word_pos g) (version g + 1),
                  mkGuard (word_pos g) (version g + 1) WRITE_LOCKED).
Proof.
  intros H Hr Hv. unfold lock_cas, compare_exchange. rewrite Hv, Z.eqb_refl.
  destruct (H (word_pos g)) as [H0 _]. specialize (Hr (word_pos g)).
  rewrite wrap_small by (unfold in_width; lia). done.
Qed.

Lemma write_lock_free t k :
  unlocked t -> lock_room t 1 ->
  let p := word_pos (make_guard t k) in
  write_lock t (make_guard t k) =
    (true, store_word t p (words t p + 1), mkGuard p (words t p + 1) WRITE_LOCKED).
Proof.
  intros H Hr p. unfold write_lock, write_lock_load. fold p. rewrite (proj2 (H p)). cbn [negb Z.eqb].
  by apply (cas_free t (mkGuard p (words t p) UNINITIALIZED)).
Qed.

(** Locking and unlocking a word adds two to it. *)
Lemma lock_unlock t p :
  unlocked t -> lock_room t 1 ->
  let t1 := store_word t p (words t p + 1) in
  let t2 := fst (destroy t1 (mkGuard p (words t p + 1) WRITE_LOCKED)) in
  unlocked t2 /\ (forall q, words t q <= words t2 q <= words t q + 2) /\
  forall g, version g = words t p + 1 -> word_pos g = p -> validate t1 g = true.
Proof.
  intros H Hr t1 t2. destruct (H p) as [H0 H1]. pose proof (Hr p) as Hp.
  assert (forall q, words t2 q = if q =? p then words t p + 2 else words t q) as E.
  { intros q. unfold t2, t1, destroy. cbn [state fst store_word words word_pos]. rewrite Z.eqb_refl.
    destruct (q =? p); [|done]. rewrite wrap_small by (unfold in_width; lia). lia. }
  split; [|split].
  - intros q. rewrite E. destruct (Z.eqb_spec q p) as [->|]; [|apply H]. split; [lia|].
    rewrite Z.add_mod, H1 by lia. done.
  - intros q. rewrite E. destruct (Z.eqb_spec q p) as [->|]; lia.
  - intros g Hv Hpos. unfold validate, t1. rewrite Hpos, Hv. cbn [store_word words].
    rewrite Z.eqb_refl. apply Z.eqb_refl.
Qed.

Lemma unlocked_new : unlocked new_table.
Proof. intros p. cbn. split; [lia|done]. Qed.

Section proofs.
Context {T : Type} `{BTreeContract T} (cfg : Config).
Context (Hsz : (1 <= sizeof_Payload cfg <= 4000)%nat).

Abbreviation hot s := (contents (hot_btree s)).
Abbreviation cold s := (contents (cold_btree s)).

(** * Invariant and view *)

Record inv (s : TwoBTree T) : Prop := Inv {
  in_hot_ok : ok (hot_btree s);
  in_cold_ok : ok (cold_btree s);
  in_map : minv cfg (hot s) (cold s);
  in_unlocked : unlocked (lock_table s);
  in_hand : in_width 64 (clock_hand s);
  in_items : hot_partition_item_count (stats s) = Z.of_nat (size (hot s));
  in_bytes : hot_partition_size_bytes (stats s) = hot_bytes (hot s) }.

(** The record a client sees under key [k]. *)
Definition view (s : TwoBTree T) (k : Z) : option (list Z) := mview cfg (hot s) (cold s) (fold_u64 k).

(** No evictor is running. *)
Definition idle (s : TwoBTree T) : Prop := eviction_round_ref_counter s = (0, 0).

(** No deleted marks in the hot tree. *)
Definition no_marks (s : TwoBTree T) : Prop := clean cfg (hot s).

(** [s'] is a well-formed state in which the client sees what it sees in [s];
    at most [n] locks were taken on the way. *)
Record preserves (n : Z) (s s' : TwoBTree T) : Prop := Preserves {
  pr_inv : inv s';
  pr_view : forall kb, mview cfg (hot s') (cold s') kb = mview cfg (hot s) (cold s) kb;
  pr_clean : no_marks s -> no_marks s';
  pr_refs : eviction_round_ref_counter s' = eviction_round_ref_counter s;
  pr_hot : dom (hot s') ⊆ dom (hot s);
  pr_words : forall p, words (lock_table s) p <= words (lock_table s') p <= words (lock_table s) p + 2 * n }.

Lemma preserves_refl s : inv s -> preserves 0 s s.
Proof. intros I. constructor; auto. intros. lia. Qed.

Lemma preserves_trans n m s1 s2 s3 : preserves n s1 s2 -> preserves m s2 s3 -> preserves (n + m) s1 s3.
Proof.
  intros [] []. constructor; auto; try congruence.
  - set_solver.
  - intros p. specialize (pr_words0 p). specialize (pr_words1 p). lia.
Qed.

Lemma small_tagged k tp :
  length (payload tp) = sizeof_Payload cfg -> Forall is_byte (payload tp) -> is_byte (bits tp) ->
  small_entry (fold_u64 k) (encode tp).
Proof.
  intros Hl Hp Hb. split; [apply fold_u64_bytes|]. split; [by apply encode_bytes|].
  rewrite length_fold_u64, length_encode, Hl. lia.
Qed.

Lemma small_payload k v :
  length v = sizeof_Payload cfg -> Forall is_byte v -> small_entry (fold_u64 k) v.
Proof. intros Hl Hp. split; [apply fold_u64_bytes|]. split; [done|]. rewrite length_fold_u64, Hl. lia. Qed.

Lemma same_size_id {A} (f : list Z -> A) : same_size (fun v => (v, f v)).
Proof. by intros v Hv. Qed.

(** A lookup that only looks. *)
Lemma lookup_id {A} t kb (f : list Z -> A) :
  ok t -> Forall is_byte kb ->
  exists t', lookup t kb (fun v => (v, f v)) = (t', f <$> contents t !! kb) /\
    ok t' /\ contents t' = contents t.
Proof.
  intros Ho Hk. pose proof (lookup_spec A t kb _ Ho Hk (same_size_all _ _ (same_size_id f))) as L.
  destruct (lookup t kb (fun v => (v, f v))) as [t' r]. destruct L as (L1 & L2 & ->).
  exists t'. split; [done|]. split; [done|]. rewrite L2. by apply alter_id.
Qed.

(** * Eviction *)

(** States that differ in the trees and the counters only. *)
Record same_control (s s' : TwoBTree T) : Prop := SameControl {
  sc_locks : lock_table s' = lock_table s;
  sc_hand : clock_hand s' = clock_hand s;
  sc_round : eviction_round s' = eviction_round s;
  sc_refs : eviction_round_ref_counter s' = eviction_round_ref_counter s;
  sc_items : hot_partition_item_count (stats s') = hot_partition_item_count (stats s);
  sc_bytes : hot_partition_size_bytes (stats s') = hot_partition_size_bytes (stats s) }.

Lemma victim_payload_ok s g x :
  ok (hot_btree s) -> length (payload (v_payload x)) = sizeof_Payload cfg ->
  hot s !! fold_u64 (v_key x) = Some (encode (v_payload x)) ->
  exists t, victim_payload cfg s g x = Some (set_hot s t, v_payload x) /\ ok t /\ contents t = hot s.
Proof.
  intros Ho Hl Hh. unfold victim_payload. destruct (more_than_one_writer_since g (v_version x)).
  - destruct (lookup_id (hot_btree s) (fold_u64 (v_key x)) (decode cfg) Ho (fold_u64_bytes _)) as (t & E & O & C).
    exists t. rewrite E, Hh. simpl. by rewrite (decode_encode cfg Hsz _ Hl).
  - exists (hot_btree s). split; [by destruct s|done].
Qed.

Lemma write_back_ok s k tp kb h :
  ok (cold_btree s) -> minv cfg h (cold s) -> kb = fold_u64 k -> h !! kb = Some (encode tp) ->
  length (payload tp) = sizeof_Payload cfg -> Forall is_byte (payload tp) ->
  exists s', write_back cfg s k tp = Some s' /\ same_control s s' /\ hot_btree s' = hot_btree s /\
    ok (cold_btree s') /\ cold s' = evicted_cold cfg (cold s) kb tp.
Proof.
  intros Ho M -> Hh Hl Hp. pose proof (decode_encode cfg Hsz _ Hl) as Hd.
  pose proof (mi_part _ _ _ M _ _ _ Hh Hd) as Hpart. unfold write_back, evicted_cold.
  destruct (inclusive cfg) eqn:Ei; simpl; [destruct (modified tp) eqn:Em; simpl|].
  - unfold upsert_cold_partition.
    pose proof (upsert_spec (cold_btree s) (fold_u64 k) (payload tp) Ho (small_payload _ _ Hl Hp)) as U.
    destruct (upsert _ _ _) as [t r]. destruct U as (O & -> & C).
    { intros v0 Hv0. destruct (mi_cold _ _ _ M _ _ Hv0) as (_ & _ & ->). done. }
    rewrite decide_True by done. eexists. split; [reflexivity|]. by split_and!.
  - eexists. split; [reflexivity|]. by split_and!.
  - unfold insert_cold_partition.
    pose proof (insert_spec (cold_btree s) (fold_u64 k) (payload tp) Ho (small_payload _ _ Hl Hp)) as U.
    destruct (insert _ _ _) as [t r]. rewrite Hpart in U. destruct U as (O & -> & C).
    rewrite decide_True by done. eexists. split; [reflexivity|]. by split_and!.
Qed.

(** A hot record removed after it was written back. *)
Lemma evict_remove_ok no_merge s s0 kb tp locks :
  inv s0 -> same_control (set_locks s0 (lock_table s)) s -> ok (hot_btree s) -> hot s = hot s0 ->
  hot s0 !! kb = Some (encode tp) -> length (payload tp) = sizeof_Payload cfg -> Forall is_byte kb ->
  ok (cold_btree s) -> cold s = evicted_cold cfg (cold s0) kb tp -> unlocked locks ->
  exists t, remove (hot_btree s) kb no_merge = (t, OK) /\
    let s' := count_stats (set_hot s t) (add_items (-1) (- (sizeof_Key + sizeof_TaggedPayload cfg))) in
    inv (set_locks s' locks) /\ contents t = delete kb (hot s0).
Proof.
  intros I Sc Oh Eh Hh Hl Hkb Oc Ec Hu. pose proof (decode_encode cfg Hsz _ Hl) as Hd.
  pose proof (minv_evict cfg Hsz _ _ _ _ _ (in_map _ I) Hh Hd) as M.
  pose proof (remove_spec (hot_btree s) kb no_merge Oh Hkb) as R.
  destruct (remove _ _ _) as [t r]. rewrite Eh, Hh in R. destruct R as (O & C & ->).
  exists t. split; [done|]. split; [|done]. pose proof (map_size_delete_Some kb (hot s0) ltac:(eauto)) as Hszd.
  assert (size (hot s0) <> 0%nat).
  { intros Hz%map_size_empty_inv. rewrite Hz in Hh. by rewrite lookup_empty in Hh. }
  constructor; simpl; try done.
  - by rewrite C, Ec.
  - rewrite (sc_hand _ _ Sc). apply I.
  - rewrite (sc_items _ _ Sc). cbn. rewrite (in_items _ I), C, Hszd. lia.
  - rewrite (sc_bytes _ _ Sc). cbn. rewrite (in_bytes _ I), C, (hot_bytes_delete cfg Hsz _ _ _ Hh), length_encode, Hl.
    unfold sizeof_Key, sizeof_TaggedPayload. lia.
Qed.

(** One victim taken down. *)
Lemma evict_one_ok no_merge s x :
  inv s -> lock_room (lock_table s) 1 -> valid_key (v_key x) ->
  length (payload (v_payload x)) = sizeof_Payload cfg ->
  hot s !! fold_u64 (v_key x) = Some (encode (v_payload x)) ->
  v_version x <= words (lock_table s) (word_pos (make_guard (lock_table s) (v_key x))) ->
  exists s', evict_one cfg no_merge s x = Some s' /\ preserves 1 s s' /\
    hot s' = delete (fold_u64 (v_key x)) (hot s).
Proof.
  intros I Hroom Hk Hl Hh Hver. pose proof (decode_encode cfg Hsz _ Hl) as Hd.
  pose proof (write_lock_free _ (v_key x) (in_unlocked _ I) Hroom) as Ew. cbn zeta in Ew.
  destruct (lock_unlock _ (word_pos (make_guard (lock_table s) (v_key x))) (in_unlocked _ I) Hroom) as (U1 & U2 & _).
  unfold evict_one. rewrite Ew. cbn [negb].
  set (p := word_pos (make_guard (lock_table s) (v_key x))) in *.
  assert ((v_version x <? version (mkGuard p (words (lock_table s) p + 1) WRITE_LOCKED)) = true) as ->
    by (apply Z.ltb_lt; simpl; lia). cbn [negb].
  set (t1 := store_word (lock_table s) p (words (lock_table s) p + 1)) in *.
  destruct (victim_payload_ok (set_locks s t1) (mkGuard p (words (lock_table s) p + 1) WRITE_LOCKED) x)
    as (t0 & -> & O0 & C0); [apply I|done|done|]. cbn [mbind option_bind].
  rewrite valid_key_hot by done. cbn [negb].
  destruct (minv_hot_tp cfg Hsz _ _ _ _ _ (in_map _ I) Hh Hd) as (Hp & Hb & _ & _).
  destruct (write_back_ok (set_hot (set_locks s t1) t0) (v_key x) (v_payload x) _ (hot s)
    (in_cold_ok _ I) (in_map _ I) eq_refl Hh Hl Hp) as (s1 & -> & Sc & E1 & E2 & E3). cbn [mbind option_bind].
  destruct (evict_remove_ok no_merge s1 s (fold_u64 (v_key x)) (v_payload x)
    (fst (destroy t1 (mkGuard p (words (lock_table s) p + 1) WRITE_LOCKED)))) as (t2 & -> & I2 & C2);
    try done; [by destruct Sc; constructor; try done|by rewrite E1|by rewrite E1|apply fold_u64_bytes|].
  rewrite decide_True by done. eexists. split; [reflexivity|].
  cbn [count_stats set_hot lock_table]. rewrite (sc_locks _ _ Sc). cbn [set_hot set_locks lock_table].
  split; [|exact C2]. constructor.
  - exact I2.
  - intros kb. cbn. rewrite C2, E3. apply (mview_evict cfg _ _ _ _ _ _ (in_map _ I) Hh Hd).
  - unfold no_marks. cbn. rewrite C2. apply clean_delete.
  - apply Sc.
  - cbn. rewrite C2, dom_delete_L. set_solver.
  - intros q. cbn [set_locks lock_table]. specialize (U2 q). lia.
Qed.

(** A victim as the clock scan records it. *)
Definition victim_ok (s : TwoBTree T) (x : victim) : Prop :=
  valid_key (v_key x) /\ length (payload (v_payload x)) = sizeof_Payload cfg /\
  hot s !! fold_u64 (v_key x) = Some (encode (v_payload x)) /\
  v_version x <= words (lock_table s) (word_pos (make_guard (lock_table s) (v_key x))).

Lemma evict_loop_ok no_merge l s :
  inv s -> lock_room (lock_table s) (Z.of_nat (length l)) -> Forall (victim_ok s) l ->
  NoDup (v_key <$> l) ->
  exists s', evict_loop cfg no_merge s l = Some s' /\ preserves (Z.of_nat (length l)) s s' /\
    hot s' = foldr (fun x h => delete (fold_u64 (v_key x)) h) (hot s) (rev l).
Proof.
  revert s; induction l as [|x l IH]; intros s I Hroom Hv Hd.
  - exists s. split; [done|]. split; [by apply preserves_refl|done].
  - inversion Hv as [|? ? (V1 & V2 & V3 & V4) Hv']; subst. rewrite fmap_cons in Hd.
    apply list.NoDup_cons in Hd as [Hx Hd]. cbn [length] in *.
    destruct (evict_one_ok no_merge s x I) as (s1 & E1 & P1 & H1); try done.
    { intros p. specialize (Hroom p). lia. }
    pose proof (pr_words _ _ _ P1) as Hw.
    destruct (IH s1) as (s2 & E2 & P2 & H2).
    + apply P1.
    + intros p. specialize (Hroom p). specialize (Hw p). lia.
    + rewrite list.Forall_forall in Hv' |- *. intros y Hy. destruct (Hv' y Hy) as (Y1 & Y2 & Y3 & Y4).
      split; [done|]. split; [done|]. split.
      * rewrite H1, lookup_delete_ne; [done|]. intros Heq%fold_u64_inj; [|by apply valid_key_width..].
        apply Hx. rewrite Heq. by apply list_elem_of_fmap_2.
      * specialize (Hw (word_pos (make_guard (lock_table s) (v_key y)))).
        change (word_pos (make_guard (lock_table s1) (v_key y))) with
          (word_pos (make_guard (lock_table s) (v_key y))). lia.
    + done.
    + exists s2. cbn [evict_loop]. rewrite E1. cbn [mbind option_bind]. split; [done|]. split.
      * replace (Z.of_nat (S (length l))) with (1 + Z.of_nat (length l)) by lia.
        by eapply preserves_trans.
      * rewrite H2, H1. cbn [rev]. by rewrite foldr_app.
Qed.

(** ** The clock scan *)

Definition entry_ok (e : list Z * list Z) : Prop :=
  (exists k, valid_key k /\ e.1 = fold_u64 k) /\ Forall is_byte e.2 /\ exists tp, decode cfg e.2 = Some tp.

(** The entries a clock scan leaves behind and its victims. *)
Record clock_result (locks : OptimisticLockTable) (l l2 : list (list Z * list Z)) (vs : list victim) : Prop :=
  ClockResult {
  cr_left : forall kb v', (kb, v') ∈ l2 -> exists v, (kb, v) ∈ l /\ retagged cfg v v';
  cr_keys : l2.*1 `sublist_of` l.*1;
  cr_victims : forall x, x ∈ vs -> valid_key (v_key x) /\
    length (payload (v_payload x)) = sizeof_Payload cfg /\
    (fold_u64 (v_key x), encode (v_payload x)) ∈ l2 /\
    v_version x = words locks (word_pos (make_guard locks (v_key x)));
  cr_vkeys : (fold_u64 <$> (v_key <$> vs)) `sublist_of` l.*1 }.

Lemma clock_result_nil locks l : clock_result locks l [] [].
Proof.
  constructor.
  - intros kb v' Hx. by apply not_elem_of_nil in Hx.
  - apply sublist_nil_l.
  - intros x Hx. by apply not_elem_of_nil in Hx.
  - apply sublist_nil_l.
Qed.

Lemma clock_result_cons locks kb v v' l l2 vs ovs :
  retagged cfg v v' -> clock_result locks l l2 vs ->
  (ovs = [] \/ exists x, ovs = [x] /\ valid_key (v_key x) /\
     length (payload (v_payload x)) = sizeof_Payload cfg /\ kb = fold_u64 (v_key x) /\
     v' = encode (v_payload x) /\ v_version x = words locks (word_pos (make_guard locks (v_key x)))) ->
  clock_result locks ((kb, v) :: l) ((kb, v') :: l2) (ovs ++ vs).
Proof.
  intros Hr [C1 C2 C3 C4] Ho. constructor.
  - intros kb' w [[= -> ->]|Hin]%elem_of_cons.
    + exists v. split; [apply elem_of_cons; by left|done].
    + destruct (C1 _ _ Hin) as (w' & ? & ?). exists w'. split; [apply elem_of_cons; by right|done].
  - rewrite !fmap_cons. by apply sublist_skip.
  - intros x [Hx|Hx]%elem_of_app.
    + destruct Ho as [->|(y & -> & Y1 & Y2 & -> & -> & Y3)]; [by apply not_elem_of_nil in Hx|].
      apply list_elem_of_singleton in Hx as ->. split_and!; try done. apply elem_of_cons. by left.
    + destruct (C3 x Hx) as (X1 & X2 & X3 & X4). split_and!; try done. apply elem_of_cons. by right.
  - rewrite fmap_cons. destruct Ho as [->|(y & -> & _ & _ & -> & _)]; cbn.
    + by apply sublist_cons.
    + by apply sublist_skip.
Qed.

Lemma clock_scan_ok locks end_key l :
  unlocked locks -> Forall entry_ok l -> forall acc,
  exists vs l2, scan_kvs (clock_scan cfg locks end_key) (Some acc) l = (Some (acc ++ vs), l2) /\
    clock_result locks l l2 vs.
Proof.
  intros Hu. induction 1 as [|[kb v] l ((k & Hk & Ekb) & Hb & tp & Hd) _ IH]; intros acc.
  { exists [], []. rewrite app_nil_r. split; [done|apply clock_result_nil]. }
  cbn [fst snd] in *. subst kb. cbn [scan_kvs].
  unfold clock_scan at 1. rewrite read_key_fold by by apply valid_key_width.
  destruct (end_key <? k); [exists [], [(fold_u64 k, v)]; rewrite app_nil_r; split; [done|];
    apply (clock_result_cons locks (fold_u64 k) v v l [] [] []); [by left|apply clock_result_nil|by left]|].
  rewrite Hd, length_fold_u64. cbn [Nat.eqb].
  destruct (decode_bytes cfg Hsz _ _ Hb Hd) as [Hp Hbits].
  pose proof Hd as [Hl _]%(decode_Some cfg Hsz).
  destruct (t_dec _ (byte_tag_ok tp Hbits)) as (D1 & D2 & D3).
  destruct (t_clear _ (byte_tag_ok (dec_reference_count tp) D1)) as (C1 & C2 & C3).
  rewrite read_lock_free by done. cbn [version].
  assert (forall ovs v', retagged cfg v v' ->
     (ovs = [] \/ exists x, ovs = [x] /\ valid_key (v_key x) /\
        length (payload (v_payload x)) = sizeof_Payload cfg /\ fold_u64 k = fold_u64 (v_key x) /\
        v' = encode (v_payload x) /\ v_version x = words locks (word_pos (make_guard locks (v_key x)))) ->
     exists vs l2, (if negb (end_key <=? k)
       then let (s2, l2) := scan_kvs (clock_scan cfg locks end_key) (Some (acc ++ ovs)) l in
            (s2, (fold_u64 k, v') :: l2)
       else (Some (acc ++ ovs), [(fold_u64 k, v')])) = (Some (acc ++ vs), l2) /\
       clock_result locks ((fold_u64 k, v) :: l) l2 vs) as Hstep.
  { intros ovs v' Hr Ho. destruct (negb (end_key <=? k)).
    - destruct (IH (acc ++ ovs)) as (vs & l2 & E & R). exists (ovs ++ vs), ((fold_u64 k, v') :: l2).
      rewrite E, app_assoc. split; [done|]. by apply clock_result_cons.
    - exists (ovs ++ []), [(fold_u64 k, v')]. rewrite app_nil_r. split; [done|].
      rewrite <- (app_nil_r ovs). apply clock_result_cons; [done|apply clock_result_nil|done]. }
  destruct (referenced (dec_reference_count tp)).
  - destruct (Hstep [] (encode (clear_referenced (dec_reference_count tp)))) as (vs & l2 & E & R).
    + right. exists tp. eexists. split_and!; try done. congruence.
    + by left.
    + rewrite app_nil_r in E. eauto.
  - apply Hstep.
    + right. exists tp. eexists. by split_and!.
    + right. eexists. split; [done|]. by split_and!.
Qed.

(** The hot tree after the scan. *)
Lemma clock_touched locks h key l2 vs :
  clock_result locks (kvs_from key h) l2 vs -> NoDup l2.*1 /\ touched cfg h (list_to_map l2 ∪ h).
Proof.
  intros [C1 C2 _ _]. assert (NoDup l2.*1) as Hn.
  { eapply sublist_NoDup; [|exact C2]. apply kvs_from_NoDup. }
  split; [done|]. intros kb. rewrite lookup_union.
  destruct (list_to_map l2 !! kb) as [v'|] eqn:E.
  - apply elem_of_list_to_map_2, C1 in E as (v & [_ ->]%kvs_from_elem & Hr). by destruct (h !! kb).
  - destruct (h !! kb); [by left|done].
Qed.

Lemma kvs_from_entry_ok s key : inv s -> no_marks s -> Forall entry_ok (kvs_from key (hot s)).
Proof.
  intros I Hc. apply list.Forall_forall. intros [kb v] [_ He]%kvs_from_elem.
  destruct (mi_hot _ _ _ (in_map _ I) kb v He) as (H1 & H2 & _). split; [done|]. split; [done|by eapply Hc].
Qed.

Lemma touch_inv s t :
  inv s -> ok t -> touched cfg (hot s) (contents t) -> preserves 0 s (set_hot s t).
Proof.
  intros I Ho Ht. destruct (touched_account cfg Hsz _ _ Ht) as [A1 A2]. constructor; cbn.
  - constructor; cbn; try apply I; try done.
    + eapply touched_minv; [done|apply I|done].
    + rewrite A1. apply I.
    + rewrite A2. apply I.
  - intros kb. by apply touched_view.
  - by apply touched_clean.
  - done.
  - intros kb. rewrite !elem_of_dom. specialize (Ht kb). destruct (hot s !! kb), (contents t !! kb); naive_solver.
  - intros. lia.
Qed.

Lemma scan_step_ok s start end_key :
  inv s -> no_marks s ->
  exists t vs, scanAsc (hot_btree s) (fold_u64 start) (clock_scan cfg (lock_table s) end_key) (Some []) = (t, Some vs) /\
    preserves 0 s (set_hot s t) /\ Forall (victim_ok (set_hot s t)) vs /\ NoDup (v_key <$> vs) /\
    (length vs <= size (hot s))%nat.
Proof.
  intros I Hc.
  assert (same_size_scan (clock_scan cfg (lock_table s) end_key)) as Hsame.
  { intros acc k v Hv. unfold clock_scan. destruct (end_key <? read_key k); [done|].
    destruct acc; [|done]. destruct (decode cfg v) as [tp|] eqn:Hd; [|done].
    destruct (length k =? 8)%nat; [|done]. destruct (decode_bytes cfg Hsz _ _ Hv Hd) as [Hp Hb].
    pose proof Hd as [_ ->]%(decode_Some cfg Hsz). destruct (t_dec _ (byte_tag_ok tp Hb)) as (D1 & _).
    destruct (t_clear _ (byte_tag_ok _ D1)) as (C1 & _).
    destruct (referenced _); [|destruct (read_lock _ _)]; cbn [fst snd]; rewrite !length_encode;
      (split; [done|by apply encode_bytes]). }
  pose proof (scanAsc_spec _ (hot_btree s) (fold_u64 start) _ (Some []) (in_hot_ok _ I) (fold_u64_bytes _) Hsame) as Sc.
  destruct (scanAsc _ _ _ _) as [t r].
  destruct (clock_scan_ok (lock_table s) end_key _ (in_unlocked _ I) (kvs_from_entry_ok s (fold_u64 start) I Hc) [])
    as (vs & l2 & E & R). rewrite E in Sc. destruct Sc as (O & -> & C). cbn [app] in *.
  destruct (clock_touched _ _ _ _ _ R) as [Hn Ht]. exists t, vs. split; [done|].
  split; [apply touch_inv; [done|done|by rewrite C]|]. destruct R as [_ R2 R3 R4]. split; [|split].
  - apply list.Forall_forall. intros x Hx. destruct (R3 x Hx) as (X1 & X2 & X3 & X4).
    split; [done|]. split; [done|]. cbn. split; [|rewrite X4; apply Z.le_refl].
    rewrite C. apply lookup_union_Some_l, elem_of_list_to_map; [done|]. exact X3.
  - eapply NoDup_fmap_1, sublist_NoDup; [|exact R4]. apply kvs_from_NoDup.
  - etrans; [|apply (length_kvs_from (fold_u64 start))]. apply sublist_length in R4.
    by rewrite !length_fmap in R4.
Qed.

(** Eviction moves records down and changes nothing a client can see. *)
Lemma preserves_here s n : inv s -> no_marks s -> 0 <= n -> preserves n s s.
Proof. intros I Hc Hn. destruct (preserves_refl s I). constructor; try done. intros p. lia. Qed.

(** The search for the end of the clock's step, where it answers, answers with
    a key of eight bytes; it need not on a tree with an empty last leaf. *)
Definition boundary_is_key s : Prop :=
  forall b rewind, findLeafNeighbouringNodeBoundary (hot_btree s) (fold_u64 (clock_hand s)) kClockWalkSteps = Some (b, rewind) ->
  length b = 8%nat.

Lemma evict_a_bunch_ok no_merge s :
  inv s -> no_marks s -> boundary_is_key s -> idle s -> lock_room (lock_table s) (Z.of_nat (size (hot s))) ->
  exists s', evict_a_bunch cfg no_merge s = Some s' /\ preserves (Z.of_nat (size (hot s))) s s'.
Proof.
  intros I Hc B Hi Hroom. unfold evict_a_bunch.
  assert (ref_counter s (1 - eviction_round s mod 2) = 0) as ->
    by (unfold ref_counter; rewrite Hi; by case_match). cbn [Z.eqb negb].
  unfold boundary_is_key in B. destruct (findLeafNeighbouringNodeBoundary _ _ _) as [[b rewind]|];
    [|exists s; split; [done|]; apply preserves_here; [done|done|lia]].
  rewrite (B b rewind eq_refl).
  cbn [Nat.eqb negb]. set (end_key := read_key b). set (r := eviction_round s mod 2).
  set (s1 := if rewind then _ else _).
  assert (inv s1 /\ hot_btree s1 = hot_btree s /\ cold_btree s1 = cold_btree s /\ lock_table s1 = lock_table s /\
          eviction_round_ref_counter s1 = eviction_round_ref_counter (add_ref_counter s r 1))
    as (I1 & E1 & E2 & E3 & E4).
  { unfold s1, add_ref_counter. rewrite Hi. destruct rewind; cbn; (split; [|done]); constructor; cbn; try apply I.
    - unfold in_width. lia.
    - by apply wrap_in_width. }
  assert (no_marks s1) as Hc1 by (unfold no_marks; by rewrite E1).
  destruct (scan_step_ok s1 (clock_hand s) end_key I1 Hc1) as (t & vs & E & P2 & Hv & Hn & Hlen).
  rewrite E1 in Hlen. rewrite E. cbn [mbind option_bind].
  destruct (evict_loop_ok no_merge vs (set_hot s1 t)) as (s3 & -> & P3 & _); [apply P2| |done|done|].
  { cbn. rewrite E3. intros p. specialize (Hroom p). lia. }
  cbn [mbind option_bind]. eexists. split; [reflexivity|].
  pose proof (preserves_trans _ _ _ _ _ P2 P3) as [Q1 Q2 Q3 Q4 Q5 Q6].
  rewrite E1, E2, E3 in *. unfold no_marks in *. rewrite E1 in Q3.
  constructor; unfold add_ref_counter, no_marks in *; rewrite E4 in Q4; rewrite Hi in *;
    destruct (eviction_round_ref_counter s3) as [a b0] eqn:Er;
    cbn [count_stats add_ref_counter hot_btree cold_btree lock_table eviction_round_ref_counter] in *;
    rewrite ?Er; cbn [hot_btree cold_btree lock_table eviction_round_ref_counter]; try done.
  - constructor; cbn; apply Q1.
  - destruct (r =? 0); injection Q4 as -> ->; done.
  - intros p. specialize (Q6 p). lia.
Qed.

Lemma try_eviction_ok env s :
  inv s -> no_marks s -> boundary_is_key s -> idle s -> lock_room (lock_table s) (Z.of_nat (size (hot s))) ->
  exists s', try_eviction cfg env s = Some s' /\ preserves (Z.of_nat (size (hot s))) s s'.
Proof.
  intros I Hc B Hi Hr. unfold try_eviction. case_match; [by apply evict_a_bunch_ok|].
  exists s. split; [done|]. apply preserves_here; [done|done|lia].
Qed.

(** * Operations under a write lock *)

(** The invariant but for the lock table. *)
Definition core (s : TwoBTree T) : Prop := forall l, unlocked l -> inv (set_locks s l).

Lemma inv_core s : inv s -> core s.
Proof. intros I l Hl. by destruct I; constructor. Qed.

Lemma core_inv s : core s -> unlocked (lock_table s) -> inv s.
Proof. intros C Hl. specialize (C _ Hl). by destruct s. Qed.

(** [c]: what [core] says. *)
Lemma core_get s : core s -> ok (hot_btree s) /\ ok (cold_btree s) /\ minv cfg (hot s) (cold s) /\
  in_width 64 (clock_hand s) /\ hot_partition_item_count (stats s) = Z.of_nat (size (hot s)) /\
  hot_partition_size_bytes (stats s) = hot_bytes (hot s).
Proof. intros C. destruct (C _ unlocked_new). by split_and!. Qed.

Lemma core_intro s : ok (hot_btree s) -> ok (cold_btree s) -> minv cfg (hot s) (cold s) ->
  in_width 64 (clock_hand s) -> hot_partition_item_count (stats s) = Z.of_nat (size (hot s)) ->
  hot_partition_size_bytes (stats s) = hot_bytes (hot s) -> core s.
Proof. intros ? ? ? ? ? ? l Hl. by constructor. Qed.

(** What a body run under the lock keeps. *)
Definition framed (s s' : TwoBTree T) : Prop :=
  lock_table s' = lock_table s /\ eviction_round_ref_counter s' = eviction_round_ref_counter s /\
  clock_hand s' = clock_hand s.

Lemma with_write_lock_ok {A} fuel s k (body : TwoBTree T -> option (TwoBTree T * A)) (Q : TwoBTree T -> A -> Prop) :
  inv s -> lock_room (lock_table s) 1 ->
  (forall l, exists s2 r, body (set_locks s l) = Some (s2, r) /\ core s2 /\ framed (set_locks s l) s2 /\ Q s2 r) ->
  exists s2 l r, with_write_lock (S fuel) s k body = Some (set_locks s2 l, r) /\ inv (set_locks s2 l) /\
    eviction_round_ref_counter s2 = eviction_round_ref_counter s /\ Q s2 r /\
    (forall p, words (lock_table s) p <= words l p <= words (lock_table s) p + 2).
Proof.
  intros I Hroom Hb. unfold with_write_lock. cbn [write_lock_spin].
  pose proof (write_lock_free _ k (in_unlocked _ I) Hroom) as Ew. cbn zeta in Ew. rewrite Ew.
  set (p := word_pos (make_guard (lock_table s) k)) in *. cbn [mbind option_bind].
  destruct (lock_unlock _ p (in_unlocked _ I) Hroom) as (U1 & U2 & _).
  set (t1 := store_word (lock_table s) p (words (lock_table s) p + 1)) in *.
  destruct (Hb t1) as (s2 & r & -> & C & (F1 & F2 & F3) & HQ). cbn [mbind option_bind].
  rewrite F1. cbn [set_locks lock_table]. eexists s2, _, r. split; [reflexivity|].
  split; [by apply C|]. by split_and!.
Qed.

(** ** Admission *)

Definition admitted (s : TwoBTree T) (t : T) : TwoBTree T :=
  count_stats (set_hot (count_stats s (add_items 1 0)) t)
    (add_items 0 (sizeof_Key + sizeof_TaggedPayload cfg)).

Lemma new_tagged_small k v d r :
  length v = sizeof_Payload cfg -> Forall is_byte v ->
  small_entry (fold_u64 k) (encode (new_tagged v d r)) /\
  length (payload (new_tagged v d r)) = sizeof_Payload cfg.
Proof.
  intros Hl Hv. destruct (new_tagged_bits v d r) as (B & _ & Ep).
  split; [apply small_tagged; by rewrite ?Ep|by rewrite Ep].
Qed.

Lemma admit_element_ok s k v d r :
  ok (hot_btree s) -> hot s !! fold_u64 k = None -> length v = sizeof_Payload cfg -> Forall is_byte v ->
  exists t, admit_element cfg s k v d r = Some (admitted s t) /\ ok t /\
    contents t = <[fold_u64 k := encode (new_tagged v d r)]> (hot s).
Proof.
  intros Ho Hn Hl Hv. destruct (new_tagged_small k v d r Hl Hv) as [Hs _].
  unfold admit_element, insert_hot_partition.
  pose proof (insert_spec (hot_btree s) (fold_u64 k) (encode (new_tagged v d r)) Ho Hs) as I.
  cbn [count_stats hot_btree]. destruct (insert _ _ _) as [t c]. rewrite Hn in I. destruct I as (O & -> & C).
  exists t. rewrite decide_True by done. done.
Qed.

Lemma admit_element_might_fail_ok s k v d r :
  ok (hot_btree s) -> hot s !! fold_u64 k = None -> length v = sizeof_Payload cfg -> Forall is_byte v ->
  exists t, ok t /\
    ((admit_element_might_fail cfg s k v d r = Some (admitted s t, true) /\
      contents t = <[fold_u64 k := encode (new_tagged v d r)]> (hot s)) \/
     (admit_element_might_fail cfg s k v d r = Some (set_hot s t, false) /\ contents t = hot s)).
Proof.
  intros Ho Hn Hl Hv. destruct (new_tagged_small k v d r Hl Hv) as [Hs _].
  unfold admit_element_might_fail, insert_hot_partition_might_fail.
  pose proof (insert_might_fail_spec (hot_btree s) (fold_u64 k) (encode (new_tagged v d r)) Ho Hs) as I.
  destruct (insert_might_fail _ _ _) as [t c]. rewrite Hn in I. exists t.
  destruct I as (O & [[-> C]|[-> C]]); (split; [done|]); [left|right].
  - rewrite decide_True by done. done.
  - rewrite decide_False, decide_True by done. done.
Qed.

(** An admitted record, with the cold tree [t'] that belongs to it. *)
Lemma admitted_core s t t' k v d r f :
  core s -> valid_key k -> hot s !! fold_u64 k = None -> length v = sizeof_Payload cfg -> Forall is_byte v ->
  ok t -> contents t = <[fold_u64 k := encode (new_tagged v d r)]> (hot s) ->
  (inclusive cfg = true -> d = false -> cold s !! fold_u64 k = Some v) ->
  ok t' -> contents t' = (if inclusive cfg then cold s else delete (fold_u64 k) (cold s)) ->
  (forall st, hot_partition_item_count (f st) = hot_partition_item_count st /\
     hot_partition_size_bytes (f st) = hot_partition_size_bytes st) ->
  let s' := set_cold (count_stats (admitted s t) f) t' in
  core s' /\ (forall kb, mview cfg (hot s') (cold s') kb =
    if decide (kb = fold_u64 k) then Some v else mview cfg (hot s) (cold s) kb) /\
  (no_marks s -> no_marks s').
Proof.
  intros (O1 & O2 & M & Hh & Hi & Hb)%core_get Hk Hn Hl Hv Ot Et Hm Ot' Et' Hf s'.
  destruct (new_tagged_bits v d r) as (B & Ed & Ep).
  destruct (new_tagged_small k v d r Hl Hv) as [_ Hlen].
  assert (minv cfg (contents t) (contents t')) as M'.
  { rewrite Et, Et'. apply minv_admit; rewrite ?Ep; auto. rewrite Ed. auto. }
  split; [|split].
  - apply core_intro; cbn; try done.
    + rewrite (proj1 (Hf _)). cbn. rewrite Et, map_size_insert_None by done. lia.
    + rewrite (proj2 (Hf _)). cbn. rewrite Et, (hot_bytes_insert cfg Hsz), length_encode, Hlen by done.
      unfold sizeof_Key, sizeof_TaggedPayload. lia.
  - intros kb. cbn. rewrite Et, Et', mview_admit by done. by rewrite Ep.
  - intros Hc. unfold no_marks. cbn. rewrite Et. by apply clean_insert.
Qed.

Lemma remove_cold_ok s k v :
  ok (cold_btree s) -> cold s !! fold_u64 k = Some v ->
  exists t, remove_cold s k = Some (set_cold s t) /\ ok t /\ contents t = delete (fold_u64 k) (cold s).
Proof.
  intros Ho Hc. unfold remove_cold.
  pose proof (remove_spec (cold_btree s) (fold_u64 k) false Ho (fold_u64_bytes _)) as R.
  destruct (remove _ _ _) as [t r]. rewrite Hc in R. destruct R as (O & C & ->).
  exists t. rewrite decide_True by done. done.
Qed.

(** ** Calls *)

(** The clock will not run in this call, or it will meet no delete mark and
    find its boundary. *)
Definition quiet (env : Env) (s : TwoBTree T) : Prop :=
  (no_marks s /\ boundary_is_key s) \/ cache_under_pressure cfg (hot_pages_at_eviction env) = false.

Lemma try_eviction_quiet env s :
  inv s -> quiet env s -> idle s -> lock_room (lock_table s) (Z.of_nat (size (hot s)) + 1) ->
  exists s', try_eviction cfg env s = Some s' /\ preserves (Z.of_nat (size (hot s))) s s' /\
    lock_room (lock_table s') 1.
Proof.
  intros I Hq Hi Hr.
  assert (lock_room (lock_table s) (Z.of_nat (size (hot s)))) as Hr' by (intros p; specialize (Hr p); lia).
  assert (exists s', try_eviction cfg env s = Some s' /\ preserves (Z.of_nat (size (hot s))) s s') as (s' & E & P).
  { destruct Hq as [[Hc B]|Hp]; [by apply try_eviction_ok|]. exists s. unfold try_eviction. rewrite Hp.
    split; [done|]. destruct (preserves_refl s I). constructor; try done. intros p. lia. }
  exists s'. split; [done|]. split; [done|]. intros p. pose proof (pr_words _ _ _ P p). specialize (Hr p). lia.
Qed.

Lemma set_cold_id (s : TwoBTree T) : set_cold s (cold_btree s) = s.
Proof. by destruct s. Qed.

Lemma view_hot_None s k : hot s !! fold_u64 k = None -> view s k = cold s !! fold_u64 k.
Proof. intros E. unfold view, mview. by rewrite E. Qed.

Lemma decide_fold {A} k k' (a b : A) :
  valid_key k -> valid_key k' ->
  (if decide (fold_u64 k' = fold_u64 k) then a else b) = if decide (k' = k) then a else b.
Proof.
  intros Hk Hk'. destruct (decide (k' = k)) as [->|Hne]; [by rewrite decide_True|].
  rewrite decide_False; [done|]. intros E%fold_u64_inj; [done|by apply valid_key_width..].
Qed.

(** The outcome of a call that sets key [k]: the visible records are those of
    [s] with [k] mapped to [r]. *)
Record sets (s : TwoBTree T) (k : Z) (r : option (list Z)) (s' : TwoBTree T) : Prop := Sets {
  se_inv : inv s';
  se_idle : idle s';
  se_view : forall k', valid_key k' -> view s' k' = if decide (k' = k) then r else view s k' }.

Definition good_payload (v : list Z) : Prop := length v = sizeof_Payload cfg /\ Forall is_byte v.

(** From the outcome of a body, through the lock and the eviction before it. *)
Lemma call_sets {A} fuel env s k (body : TwoBTree T -> option (TwoBTree T * A)) (r : option (list Z)) (Q : A -> Prop) :
  inv s -> quiet env s -> idle s -> lock_room (lock_table s) (Z.of_nat (size (hot s)) + 1) -> valid_key k ->
  (forall s1 l, preserves (Z.of_nat (size (hot s))) s s1 ->
     exists s2 a, body (set_locks s1 l) = Some (s2, a) /\ core s2 /\ framed (set_locks s1 l) s2 /\
       (forall kb, mview cfg (hot s2) (cold s2) kb =
          if decide (kb = fold_u64 k) then r else mview cfg (hot s1) (cold s1) kb) /\
       (no_marks s1 -> no_marks s2) /\ Q a) ->
  exists s' a, (s ← try_eviction cfg env s; with_write_lock (S fuel) s k body) = Some (s', a) /\
    sets s k r s' /\ (no_marks s -> no_marks s') /\ Q a.
Proof.
  intros I Hq Hi Hr Hk Hb. destruct (try_eviction_quiet env s I Hq Hi Hr) as (s1 & -> & P & Hr1).
  cbn [mbind option_bind].
  destruct (with_write_lock_ok fuel s1 k body (fun s2 a => (forall kb, mview cfg (hot s2) (cold s2) kb =
     if decide (kb = fold_u64 k) then r else mview cfg (hot s1) (cold s1) kb) /\ (no_marks s1 -> no_marks s2) /\ Q a))
    as (s2 & l & a & E & I2 & R2 & (V & N & HQ) & _); [apply P|done|intros l; apply (Hb s1 l P)|].
  exists (set_locks s2 l), a. split; [done|]. split; [|split; [|done]].
  - constructor; [done| |].
    + unfold idle. cbn. rewrite R2. by rewrite (pr_refs _ _ _ P).
    + intros k' Hk'. unfold view. cbn. rewrite V, (pr_view _ _ _ P). by apply decide_fold.
  - intros Hc. apply N, P, Hc.
Qed.

Lemma insert_two_ok fuel env s k v :
  inv s -> quiet env s -> idle s -> lock_room (lock_table s) (Z.of_nat (size (hot s)) + 1) ->
  valid_key k -> hot s !! fold_u64 k = None -> view s k = None -> good_payload v ->
  exists s', insert_two cfg (S fuel) env s k v = Some s' /\ sets s k (Some v) s' /\
    (no_marks s -> no_marks s').
Proof.
  intros I Hq Hi Hr Hk Hn Hv [Hl Hb]. rewrite view_hot_None in Hv by done.
  destruct (call_sets fuel env s k (fun s => s ← admit_element cfg s k v true false; Some (s, tt))
    (Some v) (fun _ => True)) as (s' & [] & E & S & N & _); try done.
  - intros s1 l P. pose proof (pr_inv _ _ _ P) as I1.
    assert (hot s1 !! fold_u64 k = None) as Hn1.
    { apply not_elem_of_dom. apply not_elem_of_dom in Hn. pose proof (pr_hot _ _ _ P). set_solver. }
    assert (cold s1 !! fold_u64 k = None) as Hc1.
    { pose proof (pr_view _ _ _ P (fold_u64 k)) as V. unfold mview in V. by rewrite Hn1, Hn, Hv in V. }
    destruct (admit_element_ok (set_locks s1 l) k v true false) as (t & -> & O & C); try done; [apply I1|].
    cbn [mbind option_bind]. eexists _, tt. split; [reflexivity|].
    destruct (admitted_core (set_locks s1 l) t (cold_btree s1) k v true false id) as (A1 & A2 & A3); try done.
    + intros l' Hl'. by apply (inv_core _ I1).
    + apply I1.
    + cbn. destruct (inclusive cfg); [done|]. by rewrite delete_id.
  - exists s'. unfold insert_two.
    destruct (try_eviction cfg env s) as [s1|]; [|done]. cbn [mbind option_bind] in E |- *.
    rewrite E. done.
Qed.

(** ** In-place update of a hot record *)

Definition updated (v : list Z) (tp : TaggedPayload) : TaggedPayload :=
  set_payload (set_modified (set_referenced tp)) v.

Lemma updated_tag v tp :
  is_byte (bits tp) -> is_byte (bits (updated v tp)) /\ modified (updated v tp) = true.
Proof.
  intros Hb. destruct (t_ref _ (byte_tag_ok tp Hb)) as [Hr _].
  exact (t_mod _ (byte_tag_ok (set_referenced tp) Hr)).
Qed.

Lemma in_place_same_size v (cb : list Z -> list Z * hot_entry) :
  good_payload v ->
  (forall w tp, decode cfg w = Some tp -> cb w = (encode (updated v tp), Hit v)) ->
  (forall w, decode cfg w = None -> (cb w).1 = w) -> same_size cb.
Proof.
  intros [Hl Hv] H1 H2 w Hw. destruct (decode cfg w) as [tp|] eqn:Hd.
  - rewrite (H1 _ _ Hd). cbn [fst]. destruct (decode_bytes cfg Hsz _ _ Hw Hd) as [_ Hb].
    pose proof Hd as [Hlt ->]%(decode_Some cfg Hsz). rewrite !length_encode. cbn [updated set_payload payload].
    split; [by rewrite Hl, Hlt|]. by apply encode_bytes, updated_tag.
  - by rewrite (H2 _ Hd).
Qed.

Lemma update_callback_ok v :
  (forall w tp, decode cfg w = Some tp -> update_callback cfg v w = (encode (updated v tp), Hit v)) /\
  (forall w, decode cfg w = None -> (update_callback cfg v w).1 = w).
Proof.
  split.
  - intros w tp Hd. unfold update_callback. pose proof Hd as [Hl Hw]%(decode_Some cfg Hsz).
    rewrite Hd, Hw, length_encode, Hl, (proj2 (Nat.eqb_neq _ _)) by lia. done.
  - intros w Hd. unfold update_callback. rewrite Hd. by case_match.
Qed.

Lemma put_callback_ok v :
  (forall w tp, decode cfg w = Some tp -> put_callback cfg v w = (encode (updated v tp), Hit v)) /\
  (forall w, decode cfg w = None -> (put_callback cfg v w).1 = w).
Proof. split; intros; unfold put_callback; by case_match; simplify_eq. Qed.

Lemma in_place_ok s k v (cb : list Z -> list Z * hot_entry) v0 tp :
  core s -> good_payload v ->
  (forall w tp, decode cfg w = Some tp -> cb w = (encode (updated v tp), Hit v)) ->
  (forall w, decode cfg w = None -> (cb w).1 = w) ->
  hot s !! fold_u64 k = Some v0 -> decode cfg v0 = Some tp ->
  exists t, updateSameSize (hot_btree s) (fold_u64 k) cb = (t, Some (Hit v)) /\ core (set_hot s t) /\
    (forall kb, mview cfg (contents t) (cold s) kb =
       if decide (kb = fold_u64 k) then Some v else mview cfg (hot s) (cold s) kb) /\
    (no_marks s -> no_marks (set_hot s t)).
Proof.
  intros (O1 & O2 & M & Hh & Hi & Hb)%core_get Hv H1 H2 Hk Hd.
  pose proof (updateSameSize_spec _ (hot_btree s) (fold_u64 k) cb O1 (fold_u64_bytes _)
    (same_size_all _ _ (in_place_same_size v cb Hv H1 H2))) as U.
  destruct (updateSameSize _ _ _) as [t r]. destruct U as (O & C & ->). destruct Hv as [Hl Hv].
  rewrite Hk. cbn [fmap option_fmap option_map]. rewrite (H1 _ _ Hd). exists t. split; [done|].
  destruct (minv_hot_tp cfg Hsz _ _ _ _ _ M Hk Hd) as (Hp & Hbits & Hlt & Ev0).
  destruct (updated_tag v tp Hbits) as [Hbu Hmu].
  assert (contents t = <[fold_u64 k := encode (updated v tp)]> (hot s)) as Ct.
  { rewrite C. apply map_eq. intros kb. destruct (decide (kb = fold_u64 k)) as [->|].
    - rewrite lookup_alter_eq, Hk, lookup_insert_eq. cbn. by rewrite (H1 _ _ Hd).
    - by rewrite lookup_alter_ne, lookup_insert_ne. }
  split; [|split].
  - apply core_intro; cbn; try done.
    + rewrite Ct. eapply minv_replace; try done. rewrite Hmu. done.
    + by rewrite Ct, map_size_insert_Some by eauto.
    + rewrite Ct, (hot_bytes_replace cfg Hsz _ _ v0 _ Hk); [done|].
      rewrite Ev0, !length_encode. cbn. by rewrite Hl, Hlt.
  - intros kb. by rewrite Ct, mview_replace.
  - intros Hc. unfold no_marks. cbn. rewrite Ct. by apply clean_insert.
Qed.

Lemma in_place_None s k (cb : list Z -> list Z * hot_entry) :
  ok (hot_btree s) -> same_size cb -> hot s !! fold_u64 k = None ->
  exists t, updateSameSize (hot_btree s) (fold_u64 k) cb = (t, None) /\ ok t /\ contents t = hot s.
Proof.
  intros O Hs Hn. pose proof (updateSameSize_spec _ (hot_btree s) (fold_u64 k) cb O (fold_u64_bytes _) (same_size_all _ _ Hs)) as U.
  destruct (updateSameSize _ _ _) as [t r]. destruct U as (Ot & C & ->). rewrite Hn. exists t.
  split; [done|]. split; [done|]. rewrite C. apply alter_id. intros x Hx. congruence.
Qed.

Lemma core_same_hot s t : core s -> ok t -> contents t = hot s -> core (set_hot s t).
Proof.
  intros (O1 & O2 & M & Hh & Hi & Hb)%core_get Ot E. apply core_intro; cbn; rewrite ?E; done.
Qed.

Lemma core_same_cold s t : core s -> ok t -> contents t = cold s -> core (set_cold s t).
Proof.
  intros (O1 & O2 & M & Hh & Hi & Hb)%core_get Ot E. apply core_intro; cbn; rewrite ?E; done.
Qed.

Lemma core_stats s f : core s ->
  (forall st, hot_partition_item_count (f st) = hot_partition_item_count st /\
     hot_partition_size_bytes (f st) = hot_partition_size_bytes st) -> core (count_stats s f).
Proof.
  intros (O1 & O2 & M & Hh & Hi & Hb)%core_get Hf. apply core_intro; cbn; try done.
  - by rewrite (proj1 (Hf _)).
  - by rewrite (proj2 (Hf _)).
Qed.

Lemma framed_refl s : framed s s.
Proof. done. Qed.

(** ** put *)

(** No delete mark under [k]. *)
Definition not_marked (s : TwoBTree T) (k : Z) : Prop :=
  forall v, hot s !! fold_u64 k = Some v -> exists tp, decode cfg v = Some tp.

Lemma put_body_ok s k v :
  core s -> valid_key k -> good_payload v -> not_marked s k ->
  (inclusive cfg = false -> is_Some (view s k)) ->
  exists s', put_body cfg s k v = Some (s', tt) /\ core s' /\ framed s s' /\
    (forall kb, mview cfg (hot s') (cold s') kb =
       if decide (kb = fold_u64 k) then Some v else mview cfg (hot s) (cold s) kb) /\
    (no_marks s -> no_marks s').
Proof.
  intros C Hk Hv Hm Hin. pose proof (core_get _ C) as (O1 & O2 & M & _).
  destruct (put_callback_ok v) as [P1 P2]. unfold put_body.
  destruct (hot s !! fold_u64 k) as [v0|] eqn:E.
  - destruct (Hm v0 E) as [tp Hd].
    destruct (in_place_ok s k v _ v0 tp C Hv P1 P2 E Hd) as (t & -> & C' & V & N).
    eexists. split; [reflexivity|]. by split_and!.
  - destruct (in_place_None s k _ O1 (in_place_same_size v _ Hv P1 P2) E) as (t & -> & Ot & Et).
    destruct Hv as [Hl Hb]. pose proof (core_same_hot s t C Ot Et) as C1.
    destruct (admit_element_ok (set_hot s t) k v true false) as (t1 & -> & Ot1 & Et1); try done; [by cbn; rewrite Et|].
    cbn [mbind option_bind].
    assert (exists t2, (if inclusive cfg then Some (admitted (set_hot s t) t1)
        else remove_cold (admitted (set_hot s t) t1) k) = Some (set_cold (admitted (set_hot s t) t1) t2) /\
        ok t2 /\ contents t2 = if inclusive cfg then cold s else delete (fold_u64 k) (cold s)) as (t2 & -> & O & Ec).
    { destruct (inclusive cfg); [exists (cold_btree s); split; [reflexivity|split; [apply O2|done]]|].
      destruct (Hin eq_refl) as [w Hw]. rewrite view_hot_None in Hw by done.
      by apply (remove_cold_ok (admitted (set_hot s t) t1) k w). }
    cbn [mbind option_bind]. eexists. split; [reflexivity|].
    destruct (admitted_core (set_hot s t) t1 t2 k v true false id) as (A1 & A2 & A3); try done; [by cbn; rewrite Et|].
    split; [exact A1|]. split; [done|]. unfold no_marks in *. cbn in A2, A3 |- *. by rewrite Et in A2, A3.
Qed.

Lemma put_two_ok fuel env s k v :
  inv s -> quiet env s -> idle s -> lock_room (lock_table s) (Z.of_nat (size (hot s)) + 1) ->
  valid_key k -> good_payload v -> no_marks s ->
  (inclusive cfg = false -> is_Some (view s k)) ->
  exists s', put_two cfg (S fuel) env s k v = Some s' /\ sets s k (Some v) s' /\ no_marks s'.
Proof.
  intros I Hq Hi Hr Hk Hv Hc Hin.
  destruct (call_sets fuel env s k (fun s => put_body cfg s k v) (Some v) (fun _ => True))
    as (s' & [] & E & S & N & _); try done.
  - intros s1 l P.
    destruct (put_body_ok (set_locks s1 l) k v) as (s2 & E & C & F & V & N); try done.
    + intros l' Hl'. by apply (inv_core _ (pr_inv _ _ _ P)).
    + intros w Hw. by apply (pr_clean _ _ _ P Hc (fold_u64 k)).
    + intros Hx. unfold view. cbn. rewrite (pr_view _ _ _ P). by apply Hin.
    + eexists s2, tt. split; [exact E|]. by split_and!.
  - exists s'. unfold put_two.
    destruct (try_eviction cfg env s) as [s1|]; [|done]. cbn [mbind option_bind] in E |- *.
    rewrite E. cbn. auto.
Qed.

(** ** update *)

(** The branch of [update] taken for a key that is not hot, when the soft
    limit is not reached. *)
Lemma update_cold_ok s k v v0 :
  core s -> valid_key k -> good_payload v -> hot s !! fold_u64 k = None -> cold s !! fold_u64 k = Some v0 ->
  exists t, updateSameSize (cold_btree s) (fold_u64 k) (overwrite v) = (t, Some tt) /\
    core (set_cold s t) /\ contents t = <[fold_u64 k := v]> (cold s).
Proof.
  intros (O1 & O2 & M & Hh & Hi & Hb)%core_get Hk [Hl Hv] Hn Hc.
  destruct (mi_cold _ _ _ M _ _ Hc) as (_ & Hb0 & Hl0).
  assert (overwrite v v0 = (v, tt)) as Eo.
  { unfold overwrite. by rewrite drop_ge, app_nil_r by lia. }
  pose proof (updateSameSize_spec _ (cold_btree s) (fold_u64 k) (overwrite v) O2 (fold_u64_bytes _)) as U.
  destruct (updateSameSize _ _ _) as [t r]. destruct U as (O & C & ->).
  { intros w Hw _. rewrite Hc in Hw. injection Hw as <-. rewrite Eo. cbn. by rewrite Hl, Hl0. }
  rewrite Hc. cbn [fmap option_fmap option_map]. rewrite Eo. exists t. split; [done|].
  assert (contents t = <[fold_u64 k := v]> (cold s)) as Ct.
  { rewrite C. apply map_eq. intros kb. destruct (decide (kb = fold_u64 k)) as [->|].
    - rewrite lookup_alter_eq, Hc, lookup_insert_eq. cbn [fmap option_fmap option_map]. by rewrite Eo.
    - by rewrite lookup_alter_ne, lookup_insert_ne. }
  split; [|done]. apply core_intro; cbn; try done. rewrite Ct. by eapply minv_cold_update.
Qed.

Lemma update_body_ok env s k v :
  core s -> valid_key k -> good_payload v -> is_Some (view s k) -> not_marked s k ->
  cache_under_pressure_soft cfg (hot_pages_soft env) = false ->
  exists s', update_body cfg env s k v = Some (s', tt) /\ core s' /\ framed s s' /\
    (forall kb, mview cfg (hot s') (cold s') kb =
       if decide (kb = fold_u64 k) then Some v else mview cfg (hot s) (cold s) kb) /\
    (no_marks s -> no_marks s').
Proof.
  intros C Hk Hv [w Hw] Hm Hsoft. pose proof (core_get _ C) as (O1 & O2 & M & _).
  destruct (update_callback_ok v) as [P1 P2]. unfold update_body. cbn [count_stats hot_btree].
  pose proof (core_stats s (add_lookup false) C ltac:(done)) as C0.
  destruct (hot s !! fold_u64 k) as [v0|] eqn:E.
  - destruct (Hm v0 E) as [tp Hd].
    destruct (in_place_ok _ k v _ v0 tp C0 Hv P1 P2 E Hd) as (t & Eu & C' & V & N).
    cbn [count_stats hot_btree] in Eu. rewrite Eu. eexists. split; [reflexivity|].
    split; [by apply core_stats|]. by split_and!.
  - destruct (in_place_None s k _ O1 (in_place_same_size v _ Hv P1 P2) E) as (t & -> & Ot & Et).
    rewrite view_hot_None in Hw by done.
    destruct (lookup_id (cold_btree s) (fold_u64 k) (fun v => v) O2 (fold_u64_bytes _)) as (tc & El & Oc & Ec).
    cbn [set_hot count_stats cold_btree]. rewrite El, Hw. cbn [fmap option_fmap option_map]. rewrite Hsoft.
    set (s1 := set_cold _ tc).
    assert (core s1) as C1.
    { apply (core_same_cold (set_hot (count_stats s (add_lookup false)) t)); [|done|done].
      by apply core_same_hot. }
    assert (hot s1 = hot s /\ cold s1 = cold s) as [Eh1 Ec1] by done.
    destruct (should_migrate cfg (rand_migrate env)).
    + destruct (admit_element_ok s1 k v true false) as (t1 & -> & Ot1 & Et1); try apply Hv;
        [by destruct (core_get _ C1)|by rewrite Eh1|]. cbn [mbind option_bind]. rewrite andb_true_r.
      pose proof (remove_spec (cold_btree s1) (fold_u64 k) false Oc (fold_u64_bytes _)) as R.
      destruct (remove (cold_btree s1) (fold_u64 k) false) as [t2 r2] eqn:Er. destruct R as (O2' & E2' & _).
      eexists. split; [reflexivity|]. cbn [admitted count_stats set_hot cold_btree].
      destruct (admitted_core s1 t1 (if inclusive cfg then cold_btree s1 else t2) k v true false (add_upward true))
        as (A1 & A2 & A3); try done; try apply Hv; [by rewrite Eh1|by destruct (inclusive cfg)| |].
      { destruct (inclusive cfg); [done|]. by rewrite E2'. }
      unfold no_marks in *. rewrite Eh1, Ec1 in A2. rewrite Eh1 in A3. rewrite Er.
      destruct (inclusive cfg); cbn [negb fst]; (split; [exact A1|by split_and!]).
    + destruct (update_cold_ok s1 k v w C1 Hk Hv) as (t2 & -> & C2 & E2); [by rewrite Eh1|by rewrite Ec1|].
      eexists. split; [reflexivity|]. split; [exact C2|]. split; [done|]. split.
      * intros kb. cbn. rewrite Et, E2, Ec1. unfold mview. case_decide as Ekb.
        -- subst kb. by rewrite E, lookup_insert_eq.
        -- by rewrite lookup_insert_ne.
      * unfold no_marks. cbn. by rewrite Et.
Qed.

Lemma update_two_ok fuel env s k v :
  inv s -> quiet env s -> idle s -> lock_room (lock_table s) (Z.of_nat (size (hot s)) + 1) ->
  valid_key k -> good_payload v -> is_Some (view s k) ->
  cache_under_pressure_soft cfg (hot_pages_soft env) = false ->
  exists s', update_two cfg (S fuel) env s k v = Some s' /\ sets s k (Some v) s' /\ (no_marks s -> no_marks s').
Proof.
  intros I Hq Hi Hr Hk Hv Hin Hsoft.
  destruct (call_sets fuel env s k (fun s => update_body cfg env s k v) (Some v) (fun _ => True))
    as (s' & [] & E & S & N & _); try done.
  - intros s1 l P.
    assert (is_Some (view s1 k)) as Hin1 by (unfold view; by rewrite (pr_view _ _ _ P)).
    destruct (update_body_ok env (set_locks s1 l) k v) as (s2 & E & C & F & V & N); try done.
    + intros l' Hl'. by apply (inv_core _ (pr_inv _ _ _ P)).
    + intros w Hw. unfold view, mview in Hin1. cbn in Hw. rewrite Hw in Hin1. unfold hot_value in Hin1.
      destruct (decode cfg w); [eauto|]. by destruct Hin1.
    + eexists s2, tt. split; [exact E|]. by split_and!.
  - exists s'. unfold update_two.
    destruct (try_eviction cfg env s) as [s1|]; [|done]. cbn [mbind option_bind] in E |- *.
    rewrite E. cbn. auto.
Qed.

(** ** remove *)

Lemma admit_delete_mark_ok s k :
  ok (hot_btree s) -> hot s !! fold_u64 k = None ->
  exists t, admit_delete_mark_element s k =
      Some (count_stats (set_hot (count_stats s (add_items 1 0)) t) (add_items 0 (sizeof_Key + 1))) /\
    ok t /\ contents t = <[fold_u64 k := [kDeletedBits]]> (hot s).
Proof.
  intros Ho Hn. unfold admit_delete_mark_element, insert_hot_partition_deleted_mark.
  assert (small_entry (fold_u64 k) [kDeletedBits]) as Hs.
  { split; [apply fold_u64_bytes|]. split; [constructor; [by apply byteb_ok|constructor]|].
    rewrite length_fold_u64. cbn. lia. }
  pose proof (insert_spec (hot_btree s) (fold_u64 k) [kDeletedBits] Ho Hs) as I.
  cbn [count_stats hot_btree]. destruct (insert _ _ _) as [t c]. rewrite Hn in I. destruct I as (O & -> & C).
  exists t. rewrite decide_True by done. done.
Qed.

(** A mark in place of whatever the hot tree has under [k]. *)
Lemma marked_core s s' k :
  core s -> valid_key k -> ok (hot_btree s') -> cold_btree s' = cold_btree s ->
  hot s' = <[fold_u64 k := [kDeletedBits]]> (delete (fold_u64 k) (hot s)) ->
  clock_hand s' = clock_hand s ->
  hot_partition_item_count (stats s') = Z.of_nat (size (delete (fold_u64 k) (hot s))) + 1 ->
  hot_partition_size_bytes (stats s') = hot_bytes (delete (fold_u64 k) (hot s)) + 9 ->
  core s' /\ (forall kb, mview cfg (hot s') (cold s') kb =
    if decide (kb = fold_u64 k) then None else mview cfg (hot s) (cold s) kb).
Proof.
  intros (O1 & O2 & M & Hh & Hi & Hb)%core_get Hk Ot Ec Eh Ehand Ei Eb.
  assert (<[fold_u64 k := [kDeletedBits]]> (delete (fold_u64 k) (hot s)) =
          <[fold_u64 k := [kDeletedBits]]> (hot s)) as E by apply insert_delete_eq.
  split.
  - apply core_intro; try done.
    + by rewrite Ec.
    + rewrite Eh, Ec, E. by apply minv_mark.
    + by rewrite Ehand.
    + rewrite Ei, Eh, map_size_insert_None by apply lookup_delete_eq. lia.
    + rewrite Eb, Eh, (hot_bytes_insert cfg Hsz) by apply lookup_delete_eq. simpl. lia.
  - intros kb. rewrite Eh, Ec, E. by apply mview_mark.
Qed.

Lemma remove_body_ok s k :
  core s -> valid_key k ->
  exists s', remove_body cfg s k = Some (s', true) /\ core s' /\ framed s s' /\
    (forall kb, mview cfg (hot s') (cold s') kb =
       if decide (kb = fold_u64 k) then None else mview cfg (hot s) (cold s) kb).
Proof.
  intros C Hk. pose proof (core_get _ C) as (O1 & O2 & M & Hh & Hi & Hb). unfold remove_body.
  destruct (lookup_id (hot_btree s) (fold_u64 k) (fun v => if (length v =? 1)%nat then mark_entry v else Hit v) O1 (fold_u64_bytes _))
    as (t & -> & Ot & Et). pose proof (core_same_hot s t C Ot Et) as C1.
  destruct (hot s !! fold_u64 k) as [v|] eqn:E; cbn [fmap option_fmap option_map].
  - destruct (mi_hot _ _ _ M _ _ E) as (_ & _ & Hv).
    destruct Hv as [->|[tp Hd]].
    + cbn [length Nat.eqb]. unfold mark_entry. rewrite decide_True by done.
      eexists. split; [reflexivity|]. split; [done|]. split; [done|].
      intros kb. cbn. rewrite Et. case_decide as Ekb; [|done]. subst kb. unfold mview. rewrite E.
      unfold hot_value, decode. rewrite (proj2 (Nat.eqb_neq _ _)); [done|]. simpl. lia.
    + destruct (minv_hot_tp cfg Hsz _ _ _ _ _ M E Hd) as (_ & _ & Hl & ->).
      rewrite length_encode, Hl, (proj2 (Nat.eqb_neq _ _)) by lia.
      pose proof (remove_spec t (fold_u64 k) false Ot (fold_u64_bytes _)) as R. cbn [set_hot hot_btree].
      destruct (remove t (fold_u64 k) false) as [t2 r]. rewrite Et, E in R. destruct R as (O2' & C2 & ->).
      rewrite decide_True by done.
      destruct (admit_delete_mark_ok (count_stats (set_hot (set_hot s t) t2)
        (add_items (-1) (- (sizeof_Key + sizeof_TaggedPayload cfg)))) k) as (t3 & -> & O3 & C3);
        [done|cbn; rewrite C2; apply lookup_delete_eq|].
      eexists. split; [reflexivity|]. cbn in C3. rewrite C2 in C3.
      pose proof (map_size_delete_Some (fold_u64 k) (hot s) ltac:(eauto)) as Hszd.
      assert (size (hot s) <> 0%nat).
      { intros Hz%map_size_empty_inv. rewrite Hz in E. by rewrite lookup_empty in E. }
      edestruct (marked_core s) as [M1 M2]; [done|exact Hk|..|split; [exact M1|split; [done|exact M2]]];
        cbn; try done.
      * rewrite Hszd. lia.
      * rewrite (hot_bytes_delete cfg Hsz _ _ _ E), length_encode, Hl.
        unfold sizeof_Key, sizeof_TaggedPayload. lia.
  - destruct (admit_delete_mark_ok (set_hot s t) k) as (t3 & -> & O3 & C3);
      [done|cbn; by rewrite Et|].
    eexists. split; [reflexivity|]. cbn in C3. rewrite Et in C3.
    edestruct (marked_core s) as [M1 M2]; [done|exact Hk|..|split; [exact M1|split; [done|exact M2]]];
      cbn; rewrite ?(delete_id _ _ E); try done; unfold sizeof_Key; lia.
Qed.

Lemma remove_two_ok fuel s k :
  inv s -> idle s -> lock_room (lock_table s) 1 -> valid_key k ->
  exists s', remove_two cfg (S fuel) s k = Some (s', true) /\ sets s k None s'.
Proof.
  intros I Hi Hr Hk. unfold remove_two.
  destruct (with_write_lock_ok fuel s k (fun s => remove_body cfg s k) (fun s2 r => r = true /\
    forall kb, mview cfg (hot s2) (cold s2) kb =
      if decide (kb = fold_u64 k) then None else mview cfg (hot s) (cold s) kb))
    as (s2 & l & r & E & I2 & R2 & (-> & V) & _); [done|done| |].
  - intros l. destruct (remove_body_ok (set_locks s l) k) as (s2 & E & C & F & V); [|done|].
    + intros l' Hl'. by apply (inv_core _ I).
    + exists s2, true. by split_and!.
  - exists (set_locks s2 l). split; [done|]. constructor; [done| |].
    + unfold idle. cbn. by rewrite R2.
    + intros k' Hk'. unfold view. cbn. rewrite V. by apply decide_fold.
Qed.

(** ** lookup *)

(** What a lookup leaves: the same records. *)
Definition same_records (s s' : TwoBTree T) : Prop :=
  core s' /\ framed s s' /\
  (forall kb, mview cfg (hot s') (cold s') kb = mview cfg (hot s) (cold s) kb) /\
  (no_marks s -> no_marks s').

Lemma hot_lookup_ok s k :
  core s ->
  exists t, lookup (hot_btree s) (fold_u64 k) (hot_lookup_callback cfg) =
      (t, (fun v => (hot_lookup_callback cfg v).2) <$> hot s !! fold_u64 k) /\
    same_records s (set_hot s t) /\ (hot s !! fold_u64 k = None -> contents t = hot s).
Proof.
  intros C. pose proof (core_get _ C) as (O1 & O2 & M & Hh & Hi & Hb).
  assert (same_size (hot_lookup_callback cfg)) as Hs.
  { intros v Hv. pose proof (hot_lookup_callback_retags cfg Hsz v Hv) as Hr.
    destruct (retagged_decode cfg Hsz _ _ Hr) as (? & ? & _). auto. }
  pose proof (lookup_spec _ (hot_btree s) (fold_u64 k) _ O1 (fold_u64_bytes _) (same_size_all _ _ Hs)) as L.
  destruct (lookup _ _ _) as [t r]. destruct L as (Ot & Et & ->). exists t. split; [done|].
  assert (touched cfg (hot s) (contents t)) as Ht.
  { rewrite Et. apply touched_alter. intros v Hv. apply (hot_lookup_callback_retags cfg Hsz).
    exact (contents_bytes _ _ _ O1 Hv). }
  destruct (touched_account cfg Hsz _ _ Ht) as [A1 A2]. split.
  - split; [|split; [done|split]].
    + apply core_intro; cbn; try done; [|by rewrite A1|by rewrite A2]. by eapply touched_minv.
    + intros kb. cbn. by apply touched_view.
    + intros Hc. by eapply touched_clean.
  - intros Hn. rewrite Et. apply alter_id. intros x Hx. congruence.
Qed.

(** Moving a cold record up. *)
Lemma migrate_up_ok env s k v :
  core s -> valid_key k -> hot s !! fold_u64 k = None -> cold s !! fold_u64 k = Some v ->
  exists s' res, migrate_up cfg env s k v = Some (s', res) /\ same_records s s'.
Proof.
  intros C Hk Hn Hc. pose proof (core_get _ C) as (O1 & O2 & M & Hh & Hi & Hb).
  destruct (mi_cold _ _ _ M _ _ Hc) as (_ & Hv & Hl).
  assert (forall t, ok t -> contents t = <[fold_u64 k := encode (new_tagged v false false)]> (hot s) ->
    exists s', (s2 ← (if negb (inclusive cfg) && true then remove_cold (count_stats (admitted s t) (add_upward true)) k
                       else Some (count_stats (admitted s t) (add_upward true))); Some (s2, true)) = Some (s', true) /\
      same_records s s') as Hadm.
  { intros t Ot Et. rewrite andb_true_r.
    assert (exists t2, (if negb (inclusive cfg) then remove_cold (count_stats (admitted s t) (add_upward true)) k
        else Some (count_stats (admitted s t) (add_upward true))) =
          Some (set_cold (count_stats (admitted s t) (add_upward true)) t2) /\
        ok t2 /\ contents t2 = if inclusive cfg then cold s else delete (fold_u64 k) (cold s)) as (t2 & -> & O & Ec).
    { destruct (inclusive cfg); cbn [negb].
      - exists (cold_btree s). split; [reflexivity|]. split; [apply O2|done].
      - by apply (remove_cold_ok (count_stats (admitted s t) (add_upward true)) k v). }
    cbn [mbind option_bind]. eexists. split; [reflexivity|].
    destruct (admitted_core s t t2 k v false false (add_upward true)) as (A1 & A2 & A3); try done.
    split; [exact A1|]. split; [done|]. split; [|exact A3]. intros kb. rewrite A2.
    case_decide; [subst|done]. unfold mview. by rewrite Hn, Hc. }
  assert (exists s', (s1 ← admit_element cfg s k v false false; Some (s1, true)) = Some (s', true) /\
    exists t, s' = admitted s t /\ ok t /\ contents t = <[fold_u64 k := encode (new_tagged v false false)]> (hot s))
    as (s1 & E1 & t1 & -> & Ot1 & Et1).
  { destruct (admit_element_ok s k v false false) as (t & -> & Ot & Et); try done.
    cbn [mbind option_bind]. eexists. split; [reflexivity|]. by exists t. }
  unfold migrate_up.
  destruct (cache_under_pressure_soft cfg (hot_pages_soft env) &&
            negb (cache_under_pressure cfg (hot_pages_hard env))); [destruct (rand_admit env <? 5)|].
  - rewrite E1. cbn [mbind option_bind]. destruct (Hadm t1 Ot1 Et1) as (s' & E & R). exists s', true. split; [exact E|exact R].
  - destruct (admit_element_might_fail_ok s k v false false) as (t & Ot & [[-> Et]|[-> Et]]); try done;
      cbn [mbind option_bind].
    + destruct (Hadm t Ot Et) as (s' & E & R). exists s', true. split; [exact E|exact R].
    + rewrite andb_false_r. eexists _, false. split; [reflexivity|]. split; [|split; [done|split]].
      * apply core_stats; [|done]. by apply core_same_hot.
      * intros kb. cbn. by rewrite Et.
      * unfold no_marks. cbn. by rewrite Et.
  - rewrite E1. cbn [mbind option_bind]. destruct (Hadm t1 Ot1 Et1) as (s' & E & R). exists s', true. split; [exact E|exact R].
Qed.

Lemma same_records_trans s1 s2 s3 : same_records s1 s2 -> same_records s2 s3 -> same_records s1 s3.
Proof.
  intros (C1 & (F1 & F2 & F3) & V1 & N1) (C2 & (F4 & F5 & F6) & V2 & N2).
  split; [done|]. split; [split_and!; congruence|]. split; [|auto]. intros kb. by rewrite V2.
Qed.

(** The result, and whether the guard was upgraded to a write lock. *)
Lemma lookup_internal_ok env s k g :
  inv s -> lock_room (lock_table s) 1 -> valid_key k ->
  g = mkGuard (word_pos (make_guard (lock_table s) k))
        (words (lock_table s) (word_pos (make_guard (lock_table s) k))) READ_LOCKED ->
  exists s' g', lookup_internal cfg env s g k = Some (s', g', view s k) /\
    (exists l, same_records (set_locks s l) s' /\
      ((g' = g /\ l = lock_table s) \/
       (g' = mkGuard (word_pos g) (version g + 1) WRITE_LOCKED /\
        l = store_word (lock_table s) (word_pos g) (version g + 1)))).
Proof.
  intros I Hr Hk Eg. pose proof (inv_core _ I) as C. unfold lookup_internal.
  pose proof (core_stats s (add_lookup false) C ltac:(done)) as C0.
  destruct (hot_lookup_ok _ k C0) as (t & El & R1 & Hsame). cbn [count_stats hot_btree] in El, Hsame |- *.
  rewrite El. assert (same_records s (set_hot (count_stats s (add_lookup false)) t)) as R by exact R1. clear R1.
  unfold view, mview. destruct (hot s !! fold_u64 k) as [v|] eqn:E; cbn [fmap option_fmap option_map].
  - destruct (mi_hot _ _ _ (in_map _ I) _ _ E) as (_ & _ & Hv).
    unfold hot_lookup_callback at 1, hot_value. destruct Hv as [->|[tp Hd]].
    + cbn [length Nat.eqb snd]. unfold mark_entry. rewrite decide_True by done. assert (decode cfg [kDeletedBits] = None) as ->.
      { unfold decode. rewrite (proj2 (Nat.eqb_neq _ _)); [done|]. simpl. lia. }
      eexists _, g. split; [reflexivity|]. exists (lock_table s). split; [by destruct s|by left].
    + pose proof Hd as [Hl Ev]%(decode_Some cfg Hsz). rewrite Hd.
      assert ((length v =? 1)%nat = false) as ->
        by (rewrite Ev, length_encode, Hl; apply Nat.eqb_neq; lia).
      cbn [snd fmap option_fmap option_map].
      eexists _, g. split.
      { do 2 f_equal. destruct (referenced tp), (_ <? kMaxReferenceCount); reflexivity. }
      exists (lock_table s). split; [by destruct s|by left].
  - destruct (lookup_id (cold_btree s) (fold_u64 k) (fun v => v) (in_cold_ok _ I) (fold_u64_bytes _)) as (tc & Ec & Oc & Cc).
    cbn [set_hot count_stats cold_btree]. rewrite Ec. set (s1 := set_cold _ tc).
    assert (same_records s s1) as R1.
    { eapply same_records_trans; [exact R|]. destruct R as (Cr & _). split; [by apply core_same_cold|].
      split; [done|]. split; [|done]. intros kb. cbn. by rewrite Cc. }
    assert (hot s1 = hot s /\ cold s1 = cold s) as [Eh1 Ec1] by (split; [by apply Hsame|done]).
    destruct (cold s !! fold_u64 k) as [v|] eqn:Ev; cbn [fmap option_fmap option_map];
      [|eexists _, g; split; [reflexivity|]; exists (lock_table s); split; [by destruct s|by left]].
    destruct (should_migrate cfg (rand_migrate env));
      [|eexists _, g; split; [reflexivity|]; exists (lock_table s); split; [by destruct s|by left]].
    change (lock_table s1) with (lock_table s). unfold upgrade_to_write_lock.
    rewrite cas_free by (try apply I; try done; by rewrite Eg). cbn [negb].
    set (l := store_word (lock_table s) (word_pos g) (version g + 1)).
    assert (core (set_locks s1 l)) as C1 by (intros l' Hl'; by apply R1).
    destruct (migrate_up_ok env (set_locks s1 l) k v C1 Hk) as (s2 & res & -> & R2);
      [by cbn; rewrite (Hsame eq_refl)|by cbn; rewrite Cc|]. cbn [mbind option_bind].
    eexists s2, _. split; [reflexivity|]. exists l. split; [|by right].
    eapply same_records_trans; [|exact R2]. destruct R1 as (R1a & R1b & R1c & R1d).
    split; [done|]. split; [done|]. split; [exact R1c|exact R1d].
Qed.

Lemma lookup_two_ok fuel env s k :
  inv s -> quiet env s -> idle s -> lock_room (lock_table s) (Z.of_nat (size (hot s)) + 1) -> valid_key k ->
  exists s', lookup_two cfg (S fuel) env s k = Some (s', view s k) /\
    inv s' /\ idle s' /\ (forall k', valid_key k' -> view s' k' = view s k') /\ (no_marks s -> no_marks s').
Proof.
  intros I Hq Hi Hr Hk. destruct (try_eviction_quiet env s I Hq Hi Hr) as (s1 & E1 & P & Hr1).
  unfold lookup_two. rewrite E1. cbn [mbind option_bind lookup_loop]. pose proof (pr_inv _ _ _ P) as I1.
  rewrite read_lock_free by apply I1. cbn [negb].
  destruct (lookup_internal_ok env s1 k _ I1 Hr1 Hk eq_refl) as (s2 & g2 & -> & l & R & Hg).
  cbn [mbind option_bind]. set (p := word_pos (make_guard (lock_table s1) k)) in *.
  destruct R as (C2 & (F1 & F2 & F3) & V2 & N2). cbn [set_locks lock_table] in F1.
  assert (validate (lock_table s2) g2 = true /\ unlocked (fst (destroy (lock_table s2) g2))) as [-> Hu].
  { rewrite F1. destruct Hg as [[-> ->]|[-> ->]]; cbn [word_pos version].
    - split; [apply Z.eqb_refl|apply I1].
    - destruct (lock_unlock _ p (in_unlocked _ I1) Hr1) as (U1 & _ & U3). split; [by apply U3|exact U1]. }
  eexists. split.
  { do 2 f_equal. unfold view. by rewrite (pr_view _ _ _ P). }
  split; [by apply C2|]. split.
  - unfold idle. cbn. rewrite F2. cbn. by rewrite (pr_refs _ _ _ P).
  - split; [|intros Hc; apply N2, (pr_clean _ _ _ P Hc)].
    intros k' _. unfold view. cbn. rewrite V2. cbn. by rewrite (pr_view _ _ _ P).
Qed.

End proofs.
