(* ===== verification/TwoBTreeProps.v ===== *)
(** Properties of the two-tree adapter, and where it loses writes. *)
From stdpp Require Import gmap.
From S2P Require Import Prelude Fold LockTable BTreeNode BTreeNodeOps BTreeInterface TwoBTree TwoBTreeInv TwoBTreeOps.
Import LockTable.Optimistic.
Local Open Scope Z_scope.

(** The constructor: [hot] and [cold] as given, everything else empty. *)
Definition make_two {T} (hot cold : T) : TwoBTree T :=
  mkTwo hot cold new_table 0 0 (0, 0) (mkStats 0 0 0 0 0 0 0 0 0).

(** What a client must have before a call: a well-formed state, no other
    evictor, version counters that do not wrap, and a clock that does not run
    in the call, or meets no delete mark and finds its boundary. *)
Definition ready {T} `{BTreeContract T} (cfg : Config) (env : Env) (s : TwoBTree T) : Prop :=
  inv cfg s /\ quiet cfg env s /\ idle s /\
  lock_room (lock_table s) (Z.of_nat (size (contents (hot_btree s))) + 1).

Section properties.
Context {T : Type} `{BTreeContract T}.

(** C1: eviction.  Where the hot tree has no delete mark and its boundary search
    answers with a key (each fails an assertion otherwise), a run of the clock
    by one thread ends without a failed assertion, keeps the invariant and the
    byte and item counters, moves records only out of the hot tree, and changes
    no visible record: in inclusive mode modified records are written back, in
    exclusive mode all evicted ones.  Payloads have 1 to 4000 bytes, no eviction
    round is open ([idle]), and no lock word wraps around while the records are
    evicted ([lock_room]). *)
Theorem evict_preserves_view (cfg : Config) no_merge (s : TwoBTree T) :
  (1 <= sizeof_Payload cfg <= 4000)%nat -> inv cfg s -> no_marks cfg s -> boundary_is_key s -> idle s ->
  lock_room (lock_table s) (Z.of_nat (size (contents (hot_btree s)))) ->
  exists s', evict_a_bunch cfg no_merge s = Some s' /\ inv cfg s' /\ idle s' /\ no_marks cfg s' /\
    dom (contents (hot_btree s')) ⊆ dom (contents (hot_btree s)) /\
    forall k, view cfg s' k = view cfg s k.
Proof.
  intros Hsz I Hc B Hi Hr. destruct (evict_a_bunch_ok cfg Hsz no_merge s I Hc B Hi Hr) as (s' & E & P).
  exists s'. split; [done|]. split; [apply P|]. split; [unfold idle; by rewrite (pr_refs _ _ _ _ P)|].
  split; [by apply P|]. split; [apply P|]. intros k. apply P.
Qed.

(** C2: lookup.  It ends in the first round of its retry loop, returns the
    visible record of the key, and changes no visible record, whether it finds
    the key hot, cold or nowhere and whether or not it moves the record up.
    Conditions, here and for insert and update ([ready]): the invariant; the hot
    tree is below its limit, so that nothing is evicted, or has no delete mark and
    a boundary search that answers with a key; one thread; no lock word wraps
    around; payloads of 1 to 4000 bytes, keys of 63 bits. *)
Theorem lookup_returns_view (cfg : Config) env fuel (s : TwoBTree T) k :
  (1 <= sizeof_Payload cfg <= 4000)%nat -> ready cfg env s -> valid_key k ->
  exists s', lookup_two cfg (S fuel) env s k = Some (s', view cfg s k) /\
    inv cfg s' /\ idle s' /\ forall k', valid_key k' -> view cfg s' k' = view cfg s k'.
Proof.
  intros Hsz (I & Hq & Hi & Hr) Hk.
  destruct (lookup_two_ok cfg Hsz fuel env s k I Hq Hi Hr Hk) as (s' & E & I' & Hi' & V & _). eauto 10.
Qed.

(** C3: insert of a key neither tree knows makes exactly that record visible, in
    a state that is [ready] (no eviction due, or no delete mark and a boundary
    search that answers with a key). *)
Theorem insert_adds_record (cfg : Config) env fuel (s : TwoBTree T) k v :
  (1 <= sizeof_Payload cfg <= 4000)%nat -> ready cfg env s -> valid_key k ->
  contents (hot_btree s) !! fold_u64 k = None -> view cfg s k = None -> good_payload cfg v ->
  exists s', insert_two cfg (S fuel) env s k v = Some s' /\ sets cfg s k (Some v) s'.
Proof.
  intros Hsz (I & Hq & Hi & Hr) Hk Hn Hv Hg.
  destruct (insert_two_ok cfg Hsz fuel env s k v I Hq Hi Hr Hk Hn Hv Hg) as (s' & E & S & _). eauto.
Qed.

(** C4: update of a visible record, below the soft limit of the hot tree,
    replaces exactly that record, in either mode and whether it was hot, moved
    up or updated in the cold tree, in a state that is [ready]. *)
Theorem update_replaces_record (cfg : Config) env fuel (s : TwoBTree T) k v :
  (1 <= sizeof_Payload cfg <= 4000)%nat -> ready cfg env s -> valid_key k ->
  is_Some (view cfg s k) -> good_payload cfg v ->
  cache_under_pressure_soft cfg (hot_pages_soft env) = false ->
  exists s', update_two cfg (S fuel) env s k v = Some s' /\ sets cfg s k (Some v) s'.
Proof.
  intros Hsz (I & Hq & Hi & Hr) Hk Hv Hg Hs.
  destruct (update_two_ok cfg Hsz fuel env s k v I Hq Hi Hr Hk Hg Hv Hs) as (s' & E & S & _). eauto.
Qed.

(** Put sets the record of its key (in exclusive mode of a key that
    exists). *)
Theorem put_sets_record (cfg : Config) env fuel (s : TwoBTree T) k v :
  (1 <= sizeof_Payload cfg <= 4000)%nat -> ready cfg env s -> no_marks cfg s -> valid_key k ->
  good_payload cfg v -> (inclusive cfg = false -> is_Some (view cfg s k)) ->
  exists s', put_two cfg (S fuel) env s k v = Some s' /\ sets cfg s k (Some v) s'.
Proof.
  intros Hsz (I & Hq & Hi & Hr) Hc Hk Hg Hin.
  destruct (put_two_ok cfg Hsz fuel env s k v I Hq Hi Hr Hk Hg Hc Hin) as (s' & E & S & _). eauto.
Qed.

(** C5: remove hides the record of its key, hot or cold or both, and no other, in
    any state of the invariant with one thread and room in the lock words. *)
Theorem remove_hides_record (cfg : Config) fuel (s : TwoBTree T) k :
  (1 <= sizeof_Payload cfg <= 4000)%nat -> inv cfg s -> idle s -> lock_room (lock_table s) 1 ->
  valid_key k ->
  exists s', remove_two cfg (S fuel) s k = Some (s', true) /\ sets cfg s k None s'.
Proof. intros Hsz I Hi Hr Hk. by apply remove_two_ok. Qed.

End properties.

(** * Witnesses *)

Definition cfg1 (incl : bool) : Config := mkConfig 1 incl false 0 (100 * 16384).
Definition env_calm : Env := mkEnv 0 0 0 0 0.
(** Above the soft limit, below the hard one. *)
Definition env_soft : Env := mkEnv 0 98 98 0 50.
Definition env_pressure : Env := mkEnv 100 98 98 0 50.

Definition cold5 : RefTree := mkRef {[ fold_u64 5 := [7] ]} false.
Definition hot3 : RefTree := mkRef {[ fold_u64 3 := encode (new_tagged [9] true false) ]} false.
Definition s35 : TwoBTree RefTree :=
  mkTwo hot3 cold5 new_table 0 0 (0, 0) (mkStats 1 10 0 0 0 0 0 0 0).

Ltac single :=
  cbn [contents RefTree_contract s35 hot_btree cold_btree hot3 cold5 rt_map] in *;
  match goal with H : {[_ := _]} !! _ = Some _ |- _ => apply lookup_singleton_Some in H as [<- <-] end.

Lemma s35_inv incl : inv (cfg1 incl) s35.
Proof.
  assert (Forall is_byte [7]) as B7 by byte_list.
  assert (Forall is_byte (encode (new_tagged [9] true false))) as B9 by byte_list.
  constructor.
  - intros k v Hkv; single. done.
  - intros k v Hkv; single. done.
  - constructor.
    + intros kb v Hkv; single. split; [exists 3; unfold valid_key; split; [lia|done]|].
      split; [done|]. right. eexists. by apply decode_encode; [simpl; lia|].
    + intros kb v Hkv; single. split; [exists 5; unfold valid_key; split; [lia|done]|]. done.
    + intros kb v tp Hkv Hd; single. destruct incl; simpl; [|by vm_compute].
      vm_compute in Hd. injection Hd as <-. vm_compute. discriminate.
  - apply unlocked_new.
  - unfold in_width. simpl. lia.
  - by vm_compute.
  - by vm_compute.
Qed.

Lemma s35_clean incl : no_marks (cfg1 incl) s35.
Proof. intros kb v Hkv; single. eexists. by apply decode_encode; [simpl; lia|]. Qed.

Lemma s35_room n : n < 1000 -> lock_room (lock_table s35) n.
Proof. intros Hn p. simpl. lia. Qed.

Lemma s35_boundary : boundary_is_key s35.
Proof. intros b rewind E. vm_compute in E. injection E as <- <-. reflexivity. Qed.

Lemma s35_ready incl env : ready (cfg1 incl) env s35.
Proof.
  split; [apply s35_inv|]. split; [left; split; [apply s35_clean|apply s35_boundary]|]. split; [done|].
  apply s35_room. vm_compute. reflexivity.
Qed.

Lemma evict_preserves_view_witness :
  exists s', evict_a_bunch (cfg1 false) false s35 = Some s' /\ contents (hot_btree s') = ∅ /\
    view (cfg1 false) s' 3 = Some [9] /\ view (cfg1 false) s' 5 = Some [7].
Proof.
  destruct (evict_preserves_view (cfg1 false) false s35) as (s' & E & _ & _ & _ & _ & V);
    [simpl; lia|apply s35_inv|apply s35_clean|apply s35_boundary|reflexivity|apply s35_room; vm_compute; reflexivity|].
  exists s'. split; [exact E|]. split; [|rewrite !V; split; vm_compute; reflexivity].
  vm_compute in E. injection E as <-. reflexivity.
Defined.

Lemma lookup_returns_view_witness :
  exists s', lookup_two (cfg1 false) 1 env_pressure s35 5 = Some (s', Some [7]) /\
    view (cfg1 false) s' 3 = Some [9].
Proof.
  destruct (lookup_returns_view (cfg1 false) env_pressure 0 s35 5) as (s' & E & _ & _ & V);
    [simpl; lia|apply s35_ready|unfold valid_key; lia|].
  exists s'. split; [exact E|]. rewrite V by (unfold valid_key; lia). vm_compute. reflexivity.
Defined.

Lemma insert_adds_record_witness :
  exists s', insert_two (cfg1 true) 1 env_pressure s35 4 [8] = Some s' /\ view (cfg1 true) s' 4 = Some [8].
Proof.
  destruct (insert_adds_record (cfg1 true) env_pressure 0 s35 4 [8]) as (s' & E & S);
    [simpl; lia|apply s35_ready|unfold valid_key; lia|vm_compute; reflexivity|vm_compute; reflexivity
    |split; [reflexivity|byte_list]|].
  exists s'. split; [exact E|]. rewrite (se_view _ _ _ _ _ S) by (unfold valid_key; lia). reflexivity.
Defined.

Lemma update_replaces_record_witness :
  exists s', update_two (cfg1 true) 1 env_calm s35 5 [8] = Some s' /\ view (cfg1 true) s' 5 = Some [8].
Proof.
  destruct (update_replaces_record (cfg1 true) env_calm 0 s35 5 [8]) as (s' & E & S);
    [simpl; lia|apply s35_ready|unfold valid_key; lia|vm_compute; eauto
    |split; [reflexivity|byte_list]|vm_compute; reflexivity|].
  exists s'. split; [exact E|]. rewrite (se_view _ _ _ _ _ S) by (unfold valid_key; lia). reflexivity.
Defined.

Lemma put_sets_record_witness :
  exists s', put_two (cfg1 false) 1 env_calm s35 5 [8] = Some s' /\ view (cfg1 false) s' 5 = Some [8].
Proof.
  destruct (put_sets_record (cfg1 false) env_calm 0 s35 5 [8]) as (s' & E & S);
    [simpl; lia|apply s35_ready|apply s35_clean|unfold valid_key; lia
    |split; [reflexivity|byte_list]|intros _; vm_compute; eauto|].
  exists s'. split; [exact E|]. rewrite (se_view _ _ _ _ _ S) by (unfold valid_key; lia). reflexivity.
Defined.

Lemma remove_hides_record_witness :
  exists s', remove_two (cfg1 false) 1 s35 5 = Some (s', true) /\ view (cfg1 false) s' 5 = None /\
    view (cfg1 false) s' 3 = Some [9].
Proof.
  destruct (remove_hides_record (cfg1 false) 0 s35 5) as (s' & E & S);
    [simpl; lia|apply s35_inv|reflexivity|apply s35_room; reflexivity|unfold valid_key; lia|].
  exists s'. split; [exact E|]. rewrite !(se_view _ _ _ _ _ S) by (unfold valid_key; lia).
  split; [reflexivity|vm_compute; reflexivity].
Defined.

(** * Lost writes *)

Definition full_hot : RefTree := mkRef ∅ true.
Definition s5_full : TwoBTree RefTree := make_two full_hot cold5.
Definition s5 : TwoBTree RefTree := make_two (mkRef ∅ false) cold5.

(** Above the soft limit [update] offers the new value to the hot tree
    with [admit_element_might_fail] and forgets it when the leaf is full: the
    call returns normally and a later lookup still finds the old value. *)
Theorem update_lost_when_leaf_full :
  exists s1 s2, update_two (cfg1 false) 1 env_soft s5_full 5 [8] = Some s1 /\
    lookup_two (cfg1 false) 1 env_soft s1 5 = Some (s2, Some [7]).
Proof.
  eexists _, _. split; [vm_compute; reflexivity|vm_compute; reflexivity].
Qed.

(** In inclusive mode the same branch admits the new value without its
    dirty mark, so eviction drops it instead of writing it back: after the
    update and two clock rounds (the first only takes the reference mark) a
    lookup finds the old value. *)
Theorem update_lost_after_eviction :
  exists s1 s2 s3 s4, update_two (cfg1 true) 1 env_soft s5 5 [8] = Some s1 /\
    evict_a_bunch (cfg1 true) false s1 = Some s2 /\ evict_a_bunch (cfg1 true) false s2 = Some s3 /\
    lookup_two (cfg1 true) 1 env_calm s3 5 = Some (s4, Some [7]) /\ view (cfg1 true) s1 5 = Some [8].
Proof.
  eexists _, _, _, _. repeat (split; [vm_compute; reflexivity|]). vm_compute. reflexivity.
Qed.

(** A delete mark is one byte long, but eviction and [insert] take every
    hot value for a tagged payload: after a [remove] the clock fails its
    length assertion when it reaches the mark, and inserting the key again
    fails the assertion that the hot tree accepted it. *)
Theorem delete_mark_breaks :
  exists s1, remove_two (cfg1 false) 1 s5 5 = Some (s1, true) /\
    view (cfg1 false) s1 5 = None /\
    evict_a_bunch (cfg1 false) false s1 = None /\
    insert_two (cfg1 false) 1 env_calm s1 5 [8] = None.
Proof.
  eexists. repeat (split; [vm_compute; reflexivity|]). vm_compute. reflexivity.
Qed.
