(* ===== verification/TwoBTreeScan.v ===== *)
(** The range scan of the two-tree adapter
    (src/backend/twotree/ConcurrentTwoBTree.hpp, [scan]): two buffers of eight
    records, one per tree, refilled behind the last key seen and merged.  The
    records reach the processor in the order of a merge of the two trees. *)
From stdpp Require Import sorting gmap.
From S2P Require Import Prelude Fold LockTable BTreeNode BTreeNodeOps BTreeInterface TwoBTree TwoBTreeInv TwoBTreeOps TwoBTreeProps.
Local Open Scope Z_scope.

Definition scan_buffer_size : nat := 8.

(** One side of the merge: its buffer, the read position, whether the tree is
    exhausted. *)
Record side := mkSide { buf : list (Z * list Z); idx : nat; tree_end : bool }.

Section scan.
Context {T : Type} `{BTreeContract T} (cfg : Config).
Context {P : Type} (processor : P -> Z -> list Z -> P * bool).

(** The payload of a hot and of a cold value; [None] where the length
    assertion fails. *)
Definition read_hot (v : list Z) : option (list Z) := payload <$> decode cfg v.
Definition read_cold (v : list Z) : option (list Z) :=
  if (length v =? sizeof_Payload cfg)%nat then Some v else None.

(** The callback of [fill_hot_scan_buffer] and [fill_cold_scan_buffer]. *)
Definition fill_callback (read : list Z -> option (list Z)) (acc : option (list (Z * list Z)))
    (k v : list Z) : option (list (Z * list Z)) * list Z * bool :=
  match acc, read v with
  | Some l, Some p =>
      if (length k =? 8)%nat then
        let l := l ++ [(read_key k, p)] in
        (Some l, v, negb (scan_buffer_size <=? length l)%nat)
      else (None, v, false)
  | _, _ => (None, v, false)
  end.

Definition fill_scan_buffer (read : list Z -> option (list Z)) (t : T) (sd : side) (startk : Z)
  : option (T * side) :=
  if (length (buf sd) <? scan_buffer_size)%nat && negb (tree_end sd) then
    let (t, r) := scanAsc t (fold_u64 startk) (fill_callback read) (Some (buf sd)) in
    l ← r;
    Some (t, mkSide l (idx sd) (tree_end sd || (length l <? scan_buffer_size)%nat))
  else Some (t, sd).

(** [while (hot_idx < hot_len && cold_idx < cold_len)]; [true]: the processor
    stopped the scan.  Every round advances one index, so [fuel] is the number
    of records left. *)
Fixpoint merge_loop (hb cb : list (Z * list Z)) (fuel : nat) (p : P) (hi ci : nat)
  : P * bool * nat * nat :=
  match fuel with
  | O => (p, false, hi, ci)
  | S fuel' =>
      match hb !! hi, cb !! ci with
      | Some (hk, hv), Some (ck, cv) =>
          if hk <=? ck then
            let (p, stop) := processor p hk hv in
            if stop then (p, true, hi, ci) else merge_loop hb cb fuel' p (S hi) ci
          else
            let (p, stop) := processor p ck cv in
            if stop then (p, true, hi, ci) else merge_loop hb cb fuel' p hi (S ci)
      | _, _ => (p, false, hi, ci)
      end
  end.

(** [while (idx < len)] *)
Fixpoint drain_loop (b : list (Z * list Z)) (fuel : nat) (p : P) (i : nat) : P * bool * nat :=
  match fuel with
  | O => (p, false, i)
  | S fuel' =>
      match b !! i with
      | Some (k, v) =>
          let (p, stop) := processor p k v in
          if stop then (p, true, i) else drain_loop b fuel' p (S i)
      | None => (p, false, i)
      end
  end.

(** [if (idx >= len && tree_end == false)]: refill behind the last key;
    [assert(idx > 0)]. *)
Definition refill (read : list Z -> option (list Z)) (t : T) (sd : side) : option (T * side) :=
  if (length (buf sd) <=? idx sd)%nat && negb (tree_end sd) then
    match buf sd !! (idx sd - 1)%nat with
    | Some (k, _) => if (idx sd =? 0)%nat then None
                     else fill_scan_buffer read t (mkSide [] 0 (tree_end sd)) (u64 (k + 1))
    | None => None
    end
  else Some (t, sd).

Definition done_side (sd : side) : bool := (length (buf sd) <=? idx sd)%nat && tree_end sd.

Definition step_to (sd : side) (i : nat) : side := mkSide (buf sd) i (tree_end sd).

(** The outer loop; [None]: an assertion failed or [fuel] rounds were not
    enough. *)
Fixpoint scan_loop (fuel : nat) (hot cold : T) (h c : side) (p : P) : option (T * T * P) :=
  match fuel with
  | O => None
  | S fuel' =>
      let '(p, stop, hi, ci) :=
        merge_loop (buf h) (buf c) (length (buf h) + length (buf c)) p (idx h) (idx c) in
      if stop : bool then Some (hot, cold, p)
      else
        let h := step_to h hi in
        let c := step_to c ci in
        let '(p, stop, hi) :=
          if ((idx h <? length (buf h)) && (idx c =? length (buf c)))%nat && tree_end c
          then drain_loop (buf h) (length (buf h)) p (idx h) else (p, false, idx h) in
        if stop : bool then Some (hot, cold, p)
        else
          let h := step_to h hi in
          let '(p, stop, ci) :=
            if ((idx c <? length (buf c)) && (idx h =? length (buf h)))%nat && tree_end h
            then drain_loop (buf c) (length (buf c)) p (idx c) else (p, false, idx c) in
          if stop : bool then Some (hot, cold, p)
          else
            let c := step_to c ci in
            '(hot, h) ← refill read_hot hot h;
            '(cold, c) ← refill read_cold cold c;
            if done_side c && done_side h then Some (hot, cold, p)
            else scan_loop fuel' hot cold h c p
  end.

Definition scan_two (fuel : nat) (s : TwoBTree T) (start_key : Z) (p : P) : option (TwoBTree T * P) :=
  let s := count_stats s add_scan in
  let empty := mkSide [] 0 false in
  '(hot, h) ← fill_scan_buffer read_hot (hot_btree s) empty start_key;
  '(cold, c) ← fill_scan_buffer read_cold (cold_btree s) empty start_key;
  '(hot, cold, p) ← scan_loop fuel hot cold h c p;
  Some (set_cold (set_hot s hot) cold, p).

(** * Specification *)

(** The records of a tree from a key on, as the processor sees them. *)
Definition records (read : list Z -> option (list Z)) (m : kvmap) (from : Z) : list (Z * list Z) :=
  map (fun e => (read_key e.1, default [] (read e.2))) (kvs_from (fold_u64 from) m).

Definition key_leb (a b : Z * list Z) : Prop := a.1 <= b.1.
#[local] Instance key_leb_dec a b : Decision (key_leb a b).
Proof. unfold key_leb. apply _. Defined.

(** Feed records to the processor until it stops. *)
Fixpoint feed (p : P) (l : list (Z * list Z)) : P * bool :=
  match l with
  | [] => (p, false)
  | (k, v) :: l' => let (p, stop) := processor p k v in if stop then (p, true) else feed p l'
  end.

(** The hot record first when both trees have the key. *)
Definition merged (h c : list (Z * list Z)) : list (Z * list Z) := list_merge key_leb h c.

(** * Proofs *)

Lemma merged_cons a h b c :
  merged (a :: h) (b :: c) = if a.1 <=? b.1 then a :: merged h (b :: c) else b :: merged (a :: h) c.
Proof.
  unfold merged. cbn [list_merge]. destruct (Z.leb_spec a.1 b.1).
  - by rewrite decide_True.
  - rewrite decide_False; [done|]. unfold key_leb. lia.
Qed.

Lemma merged_nil_r h : merged h [] = h.
Proof. by destruct h. Qed.

Lemma merged_nil_l c : merged [] c = c.
Proof. by destruct c. Qed.

Lemma drop_lookup {A} (l : list A) i x : l !! i = Some x -> drop i l = x :: drop (S i) l.
Proof. intros H1. by apply drop_S. Qed.

Lemma merge_loop_ok hb cb hr cr fuel p hi ci :
  (length hb - hi + (length cb - ci) <= fuel)%nat ->
  let '(p', stop, hi', ci') := merge_loop hb cb fuel p hi ci in
  (stop = true -> feed p (merged (drop hi hb ++ hr) (drop ci cb ++ cr)) = (p', true)) /\
  (stop = false ->
     feed p (merged (drop hi hb ++ hr) (drop ci cb ++ cr)) =
     feed p' (merged (drop hi' hb ++ hr) (drop ci' cb ++ cr)) /\
     (hi <= hi')%nat /\ (ci <= ci')%nat /\ (length hb <= hi' \/ length cb <= ci')%nat /\
     ((hi <= length hb -> hi' <= length hb) /\ (ci <= length cb -> ci' <= length cb))%nat).
Proof.
  revert p hi ci; induction fuel as [|fuel IH]; intros p hi ci Hf; cbn [merge_loop].
  { split; [done|]. intros _. split; [done|]. lia. }
  destruct (hb !! hi) as [[hk hv]|] eqn:Eh; [|split; [done|]; intros _; apply lookup_ge_None in Eh; split; [done|]; lia].
  destruct (cb !! ci) as [[ck cv]|] eqn:Ec; [|split; [done|]; intros _; apply lookup_ge_None in Ec; split; [done|]; lia].
  pose proof (lookup_lt_Some _ _ _ Eh). pose proof (lookup_lt_Some _ _ _ Ec).
  rewrite (drop_lookup _ _ _ Eh), (drop_lookup _ _ _ Ec). cbn [app]. rewrite merged_cons. cbn [fst].
  destruct (hk <=? ck); cbn [feed]; [destruct (processor p hk hv) as [p1 stop]|destruct (processor p ck cv) as [p1 stop]];
    destruct stop; try (split; [done|intros; discriminate]).
  - specialize (IH p1 (S hi) ci ltac:(lia)). destruct (merge_loop _ _ _ _ _ _) as [[[p2 st] hi2] ci2].
    destruct IH as [I1 I2]. rewrite (drop_lookup _ _ _ Ec) in I1, I2. split; [exact I1|].
    intros Hs. destruct (I2 Hs) as (J1 & J2). cbn [app] in J1. rewrite J1. split; [done|]. lia.
  - specialize (IH p1 hi (S ci) ltac:(lia)). destruct (merge_loop _ _ _ _ _ _) as [[[p2 st] hi2] ci2].
    destruct IH as [I1 I2]. rewrite (drop_lookup _ _ _ Eh) in I1, I2. split; [exact I1|].
    intros Hs. destruct (I2 Hs) as (J1 & J2). cbn [app] in J1. rewrite J1. split; [done|]. lia.
Qed.

Lemma drain_loop_ok b r fuel p i :
  (length b - i <= fuel)%nat ->
  let '(p', stop, i') := drain_loop b fuel p i in
  (stop = true -> feed p (drop i b ++ r) = (p', true)) /\
  (stop = false -> feed p (drop i b ++ r) = feed p' r /\ (i <= length b -> i' = length b)%nat).
Proof.
  revert p i; induction fuel as [|fuel IH]; intros p i Hf; cbn [drain_loop].
  { split; [done|]. intros _. rewrite drop_ge by lia. split; [done|lia]. }
  destruct (b !! i) as [[k v]|] eqn:E.
  - pose proof (lookup_lt_Some _ _ _ E). rewrite (drop_lookup _ _ _ E). cbn [app feed].
    destruct (processor p k v) as [p1 stop]. destruct stop; [split; [done|discriminate]|].
    specialize (IH p1 (S i) ltac:(lia)). destruct (drain_loop _ _ _ _) as [[p2 st] i2].
    destruct IH as [I1 I2]. split; [exact I1|]. intros Hs. destruct (I2 Hs). split; [done|]. lia.
  - apply lookup_ge_None in E. split; [done|]. intros _. rewrite drop_ge by lia. split; [done|lia].
Qed.

(** ** Filling a buffer *)

(** Every binding can be read. *)
Definition readable (read : list Z -> option (list Z)) (m : kvmap) : Prop :=
  forall kb v, m !! kb = Some v -> (exists k, valid_key k /\ kb = fold_u64 k) /\ is_Some (read v).

Abbreviation conv read := (fun e : list Z * list Z => (read_key e.1, default [] (read e.2))).

Lemma fill_callback_ok read l acc :
  Forall (fun e => (exists k, valid_key k /\ e.1 = fold_u64 k) /\ is_Some (read e.2)) l ->
  (length acc < scan_buffer_size)%nat ->
  (scan_kvs (fill_callback read) (Some acc) l).1 =
    Some (acc ++ take (scan_buffer_size - length acc) (map (conv read) l)).
Proof.
  intros Hl. revert acc. induction Hl as [|[kb v] l ((k & Hk & E) & [w Hw]) _ IH]; intros acc Ha.
  { cbn. by rewrite take_nil, app_nil_r. }
  cbn [fst snd] in *. cbn [scan_kvs map]. unfold fill_callback at 1. rewrite Hw, E, length_fold_u64. cbn [Nat.eqb].
  assert (length (acc ++ [(read_key (fold_u64 k), w)]) = S (length acc)) as El by (rewrite length_app; simpl; lia).
  rewrite El. destruct (scan_buffer_size - length acc)%nat as [|n] eqn:En; [lia|]. cbn [take].
  destruct (Nat.leb_spec scan_buffer_size (S (length acc))); cbn [negb].
  - replace n with 0%nat by lia. cbn. by rewrite Hw.
  - specialize (IH (acc ++ [(read_key (fold_u64 k), w)])). rewrite El in IH. specialize (IH ltac:(lia)).
    destruct (scan_kvs _ _ l) as [s2 l2]. cbn [fst] in *. rewrite IH. f_equal.
    replace (scan_buffer_size - S (length acc))%nat with n by lia. rewrite <- app_assoc. cbn. by rewrite Hw.
Qed.

Lemma fill_read_only read : read_only (fill_callback read).
Proof. intros acc k v. unfold fill_callback. by repeat case_match. Qed.

Lemma fill_ok read t m k :
  ok t -> contents t = m -> readable read m ->
  exists t', fill_scan_buffer read t (mkSide [] 0 false) k =
      Some (t', mkSide (take scan_buffer_size (records read m k)) 0
                  (length (take scan_buffer_size (records read m k)) <? scan_buffer_size)%nat) /\
    ok t' /\ contents t' = m.
Proof.
  intros Ho Hm Hr. unfold fill_scan_buffer. cbn [buf length tree_end negb andb Nat.ltb Nat.leb scan_buffer_size].
  pose proof (scanAsc_spec _ t (fold_u64 k) (fill_callback read) (Some []) Ho (fold_u64_bytes _)
    (same_size_read_only _ (fill_read_only read))) as Sc.
  destruct (scanAsc _ _ _ _) as [t' r].
  pose proof (fill_callback_ok read (kvs_from (fold_u64 k) (contents t)) []) as Hf.
  pose proof (scan_kvs_read_only (fill_callback read) (Some []) (fold_u64 k) (contents t) (fill_read_only read)) as Hro.
  destruct (scan_kvs _ _ _) as [s2 l2]. destruct Sc as (O & -> & C). cbn [fst snd] in *.
  rewrite Hf; [|apply list.Forall_forall; intros [kb v] [_ Hkv]%kvs_from_elem; rewrite Hm in Hkv; by apply Hr|
    unfold scan_buffer_size; simpl; lia].
  cbn [mbind option_bind app length idx orb]. exists t'. rewrite C, Hro, Hm. done.
Qed.

(** ** Refilling behind the last key *)

Lemma kvs_from_next m k kl v :
  (forall kb v, m !! kb = Some v -> exists k, valid_key k /\ kb = fold_u64 k) ->
  in_width 64 k -> valid_key kl -> forall A B, kvs_from (fold_u64 k) m = A ++ (fold_u64 kl, v) :: B ->
  kvs_from (fold_u64 (kl + 1)) m = B.
Proof.
  intros Hkeys Hk Hkl A B E. pose proof (kvs_from_sorted (fold_u64 k) m) as Hs. rewrite E in Hs.
  assert (in_width 64 kl /\ in_width 64 (kl + 1)) as [W1 W2] by (unfold valid_key, in_width in *; lia).
  apply StronglySorted_app in Hs as (HAB & HA & HB). apply StronglySorted_inv in HB as [HB HBh].
  rewrite list.Forall_forall in HBh. cbn [fst] in *.
  assert (forall kk, in_width 64 kk -> lex_cmp (fold_u64 kl) (fold_u64 kk) = (kl ?= kk)) as Hcmp
    by (intros; by apply fold_u64_cmp).
  apply sorted_unique; [apply kvs_from_sorted|done|]. intros [kb w]. rewrite kvs_from_elem. split.
  - intros [Hle Hin]. destruct (Hkeys _ _ Hin) as (kk & Hkk & ->). apply valid_key_width in Hkk.
    unfold lex_le in Hle. rewrite fold_u64_cmp in Hle by done.
    assert (kl < kk) as Hlt by (destruct (Z.compare_spec (kl + 1) kk); try done; lia).
    assert ((fold_u64 kk, w) ∈ kvs_from (fold_u64 k) m) as Hel.
    { apply kvs_from_elem. split; [|done].
      assert ((fold_u64 kl, v) ∈ kvs_from (fold_u64 k) m) as [Hkl' _]%kvs_from_elem
        by (rewrite E; apply elem_of_app; right; apply elem_of_cons; by left).
      eapply lex_le_trans; [exact Hkl'|]. unfold lex_le. rewrite Hcmp by done.
      by rewrite (proj2 (Z.compare_lt_iff _ _) Hlt). }
    rewrite E in Hel. apply elem_of_app in Hel as [Hel|[Heq|Hel]%elem_of_cons]; [| |done]; exfalso.
    + assert (fold_u64 kk <ₗ fold_u64 kl) as Hx.
      { apply (HAB (fold_u64 kk, w) (fold_u64 kl, v) Hel). apply elem_of_cons. by left. }
      unfold lex_lt in Hx. rewrite fold_u64_cmp in Hx by done. rewrite Z.compare_lt_iff in Hx. lia.
    + apply (f_equal fst) in Heq; cbn [fst] in Heq. apply fold_u64_inj in Heq; [lia|done|done].
  - intros Hel. assert ((kb, w) ∈ kvs_from (fold_u64 k) m) as [_ Hin]%kvs_from_elem.
    { rewrite E. apply elem_of_app. right. apply elem_of_cons. by right. }
    split; [|done]. destruct (Hkeys _ _ Hin) as (kk & Hkk & ->). apply valid_key_width in Hkk.
    specialize (HBh _ Hel). cbn [fst] in HBh. unfold lex_lt in HBh. rewrite Hcmp in HBh by done.
    rewrite Z.compare_lt_iff in HBh. unfold lex_le. rewrite fold_u64_cmp by done.
    destruct (Z.compare_spec (kl + 1) kk); try done. lia.
Qed.

Lemma records_next read m k kl v n :
  readable read m -> in_width 64 k -> records read m k !! n = Some (kl, v) ->
  valid_key kl /\ records read m (kl + 1) = drop (S n) (records read m k).
Proof.
  intros Hr Hk Hn. unfold records in *. rewrite (list_lookup_fmap (conv read)) in Hn.
  destruct (kvs_from (fold_u64 k) m !! n) as [[kb w]|] eqn:E; [|done]. cbn in Hn. injection Hn as <- <-.
  assert ((kb, w) ∈ kvs_from (fold_u64 k) m) as [_ Hin]%kvs_from_elem by (eapply list_elem_of_lookup; eauto).
  destruct (Hr _ _ Hin) as ((k1 & Hk1 & ->) & _). rewrite read_key_fold by by apply valid_key_width.
  split; [done|]. rewrite skipn_map. f_equal.
  eapply (kvs_from_next m k k1 w); [intros; by eapply Hr|done|done|].
  symmetry. by apply take_drop_middle.
Qed.

(** ** The loop *)

(** [rest] is what the tree still has behind the buffer of [sd]. *)
Record side_ok (read : list Z -> option (list Z)) (m : kvmap) (sd : side) (rest : list (Z * list Z)) : Prop :=
  SideOk {
  sd_idx : (idx sd <= length (buf sd))%nat;
  sd_rest : if tree_end sd then rest = [] else
    length (buf sd) = scan_buffer_size /\
    exists k v, buf sd !! 7%nat = Some (k, v) /\ valid_key k /\ rest = records read m (k + 1) }.

(** Something to deliver, or nothing left. *)
Definition loaded (sd : side) : Prop := (idx sd < length (buf sd))%nat \/ tree_end sd = true.

Definition stream (sd : side) (rest : list (Z * list Z)) : list (Z * list Z) := drop (idx sd) (buf sd) ++ rest.

Lemma fill_side_ok read t m k :
  ok t -> contents t = m -> readable read m -> in_width 64 k ->
  exists t' sd rest, fill_scan_buffer read t (mkSide [] 0 false) k = Some (t', sd) /\
    ok t' /\ contents t' = m /\ side_ok read m sd rest /\ loaded sd /\ stream sd rest = records read m k.
Proof.
  intros Ho Hm Hr Hk. destruct (fill_ok read t m k Ho Hm Hr) as (t' & E & Ot & Et).
  set (l := records read m k) in *. rewrite length_take in E.
  exists t'. eexists _, (drop scan_buffer_size l). split; [exact E|]. split; [done|]. split; [done|].
  unfold loaded, stream. cbn [idx buf tree_end]. rewrite drop_0, take_drop, length_take.
  destruct (Nat.ltb_spec (scan_buffer_size `min` length l) scan_buffer_size) as [Hlt|Hge].
  - assert (drop scan_buffer_size l = []) as E0 by (apply drop_ge; unfold scan_buffer_size in *; lia).
    split; [|split; [by right|done]]. constructor; cbn [idx buf tree_end]; [lia|done].
  - assert (8 <= length l)%nat as Hl by (unfold scan_buffer_size in *; lia).
    split; [|split; [left; unfold scan_buffer_size; lia|done]].
    constructor; cbn [idx buf tree_end]; [lia|]. split; [rewrite length_take; unfold scan_buffer_size; lia|].
    destruct (l !! 7%nat) as [[k1 v1]|] eqn:E7; [|apply lookup_ge_None in E7; lia].
    destruct (records_next read m k k1 v1 7 Hr Hk E7) as [H1 H2].
    exists k1, v1. rewrite lookup_take_lt by (unfold scan_buffer_size; lia).
    split; [done|]. split; [done|]. by rewrite H2.
Qed.

Lemma refill_ok read t m sd rest :
  ok t -> contents t = m -> readable read m -> side_ok read m sd rest ->
  exists t' sd' rest', refill read t sd = Some (t', sd') /\ ok t' /\ contents t' = m /\
    side_ok read m sd' rest' /\ loaded sd' /\ stream sd' rest' = stream sd rest.
Proof.
  intros Ho Hm Hr [Hi Hrest]. unfold refill.
  destruct (Nat.leb_spec (length (buf sd)) (idx sd)) as [Hge|Hlt]; cbn [andb];
    [|exists t, sd, rest; split_and!; try done; by left].
  destruct (tree_end sd) eqn:Ee; cbn [negb];
    [exists t, sd, rest; split_and!; try done; [constructor; [done|by rewrite Ee]|by right]|].
  destruct Hrest as (Hl & k & v & Hb & Hk & ->). unfold scan_buffer_size in Hl.
  replace (idx sd - 1)%nat with 7%nat by lia. rewrite Hb.
  rewrite (proj2 (Nat.eqb_neq (idx sd) 0)) by lia.
  assert (in_width 64 (k + 1)) as Hw
    by (unfold valid_key, in_width in *; change (2 ^ 64) with (2 * 2 ^ 63) in *; lia).
  rewrite wrap_small by done.
  destruct (fill_side_ok read t m (k + 1) Ho Hm Hr Hw) as (t' & sd' & rest' & E & Ot & Et & S & L & St).
  exists t', sd', rest'. split_and!; try done. rewrite St. unfold stream. by rewrite drop_ge by lia.
Qed.

Lemma step_side read m sd rest i :
  side_ok read m sd rest -> (i <= length (buf sd))%nat -> side_ok read m (step_to sd i) rest.
Proof. intros [H1 H2] Hi. by constructor. Qed.

Lemma stream_nil_rest read m sd rest : side_ok read m sd rest -> tree_end sd = true -> rest = [].
Proof. intros [_ Hr] He. by rewrite He in Hr. Qed.

Lemma stream_done read m sd rest :
  side_ok read m sd rest -> done_side sd = true -> stream sd rest = [].
Proof.
  intros S [H1 H2]%andb_true_iff. unfold stream. rewrite (stream_nil_rest _ _ _ _ S H2), app_nil_r.
  apply drop_ge, Nat.leb_le. done.
Qed.

(** One side emptied when the other tree is done. *)
Lemma drain_phase (a b : side) ra p (cond : bool) read m :
  side_ok read m a ra -> (cond = true -> tree_end b = true /\ (idx b = length (buf b))%nat) ->
  let '(p', stop, i) := if cond then drain_loop (buf a) (length (buf a)) p (idx a)
                        else (p, false, idx a) in
  (stop = true -> cond = true /\ feed p (stream a ra) = (p', true)) /\
  (stop = false -> side_ok read m (step_to a i) ra /\ (idx a <= i)%nat /\
     feed p (stream a ra) = feed p' (stream (step_to a i) ra) /\
     (cond = false -> i = idx a /\ p' = p) /\ (cond = true -> i = length (buf a))).
Proof.
  intros S Hc. destruct cond.
  - pose proof (drain_loop_ok (buf a) ra (length (buf a)) p (idx a) ltac:(lia)) as D.
    destruct (drain_loop _ _ _ _) as [[p' stop] i]. destruct D as [D1 D2]. pose proof (sd_idx _ _ _ _ S) as Hi.
    split; [by auto|]. intros Hs. destruct (D2 Hs) as [D3 D4]. specialize (D4 Hi). subst i.
    split; [by apply step_side|]. split; [done|]. split; [|done].
    unfold stream at 2. cbn. by rewrite drop_ge.
  - split; [done|]. intros _. split; [by apply step_side; [|apply S]|]. split; [done|]. split; [|done].
    by destruct a.
Qed.

Lemma length_stream sd rest : length (stream sd rest) = (length (buf sd) - idx sd + length rest)%nat.
Proof. unfold stream. by rewrite length_app, length_drop. Qed.

Lemma loaded_nil read m sd rest :
  side_ok read m sd rest -> loaded sd -> stream sd rest = [] -> done_side sd = true.
Proof.
  intros S L E. apply (f_equal length) in E. rewrite length_stream in E. simpl in E.
  unfold done_side. destruct L as [L|L]; [lia|]. rewrite L, andb_true_r. apply Nat.leb_le. lia.
Qed.

(** The merge and the two drains of one round. *)
Lemma round_ok h c hr cr mh mc rh rc p :
  side_ok rh mh h hr -> side_ok rc mc c cr -> loaded h -> loaded c ->
  let '(p1, stop1, hi, ci) :=
    merge_loop (buf h) (buf c) (length (buf h) + length (buf c)) p (idx h) (idx c) in
  let h1 := step_to h hi in
  let c1 := step_to c ci in
  let '(p2, stop2, hi2) :=
    if ((idx h1 <? length (buf h1)) && (idx c1 =? length (buf c1)))%nat && tree_end c1
    then drain_loop (buf h1) (length (buf h1)) p1 (idx h1) else (p1, false, idx h1) in
  let h2 := step_to h1 hi2 in
  let '(p3, stop3, ci2) :=
    if ((idx c1 <? length (buf c1)) && (idx h2 =? length (buf h2)))%nat && tree_end h2
    then drain_loop (buf c1) (length (buf c1)) p2 (idx c1) else (p2, false, idx c1) in
  let c2 := step_to c1 ci2 in
  let total := feed p (merged (stream h hr) (stream c cr)) in
  (stop1 = true -> total = (p1, true)) /\
  (stop1 = false -> stop2 = true -> total = (p2, true)) /\
  (stop1 = false -> stop2 = false -> stop3 = true -> total = (p3, true)) /\
  (stop1 = false -> stop2 = false -> stop3 = false ->
     total = feed p3 (merged (stream h2 hr) (stream c2 cr)) /\
     side_ok rh mh h2 hr /\ side_ok rc mc c2 cr /\
     ((length (stream h2 hr) + length (stream c2 cr) < length (stream h hr) + length (stream c cr))%nat \/
      (stream h2 hr = [] /\ stream c2 cr = []))).
Proof.
  intros Sh Sc Lh Lc.
  pose proof (merge_loop_ok (buf h) (buf c) hr cr (length (buf h) + length (buf c)) p (idx h) (idx c) ltac:(lia)) as M.
  destruct (merge_loop _ _ _ _ _ _) as [[[p1 stop1] hi] ci]. destruct M as [M1 M2]. cbv zeta.
  destruct stop1; [specialize (M1 eq_refl); repeat (case_match; try (split; [done|]; split; [done|])); done|].
  destruct (M2 eq_refl) as (Et & Mh & Mc & Mor & Mlh & Mlc). specialize (Mlh (sd_idx _ _ _ _ Sh)).
  specialize (Mlc (sd_idx _ _ _ _ Sc)).
  set (h1 := step_to h hi). set (c1 := step_to c ci).
  pose proof (step_side _ _ _ _ hi Sh Mlh : side_ok rh mh h1 hr) as Sh1.
  pose proof (step_side _ _ _ _ ci Sc Mlc : side_ok rc mc c1 cr) as Sc1.
  change (feed p (merged (stream h hr) (stream c cr)) = feed p1 (merged (stream h1 hr) (stream c1 cr))) in Et.
  remember (((idx h1 <? length (buf h1)) && (idx c1 =? length (buf c1)))%nat && tree_end c1) as cond1 eqn:Q1.
  assert (cond1 = true -> tree_end c1 = true /\ idx c1 = length (buf c1)) as Hc1.
  { rewrite Q1. intros [[_ H1]%andb_true_iff H2]%andb_true_iff. apply Nat.eqb_eq in H1. done. }
  pose proof (drain_phase h1 c1 hr p1 cond1 rh mh Sh1 Hc1) as D1.
  destruct (if cond1 then _ else _) as [[p2 stop2] hi2]. destruct D1 as [D1 D1'].
  assert (cond1 = true -> stream c1 cr = []) as Hnc.
  { intros [H1 H2]%Hc1. apply (stream_done _ _ _ _ Sc1). unfold done_side. by rewrite H1, H2, Nat.leb_refl. }
  destruct stop2.
  { destruct (D1 eq_refl) as [H1 H2]. specialize (Hnc H1). rewrite Hnc, merged_nil_r in Et.
    assert (feed p (merged (stream h hr) (stream c cr)) = (p2, true)) by congruence.
    repeat (case_match; try (split; [done|]; split; [done|])); done. }
  destruct (D1' eq_refl) as (Sh2 & Hi2 & E2 & F2 & G2). set (h2 := step_to h1 hi2) in *.
  assert (feed p (merged (stream h hr) (stream c cr)) = feed p2 (merged (stream h2 hr) (stream c1 cr))) as Et2.
  { destruct cond1; [|destruct (F2 eq_refl) as [Hx Hp]; rewrite Et, Hp; unfold h2; rewrite Hx; by destruct h].
    rewrite Et, (Hnc eq_refl), !merged_nil_r. exact E2. }
  remember (((idx c1 <? length (buf c1)) && (idx h2 =? length (buf h2)))%nat && tree_end h2) as cond2 eqn:Q2.
  assert (cond2 = true -> tree_end h2 = true /\ idx h2 = length (buf h2)) as Hc2.
  { rewrite Q2. intros [[_ H1]%andb_true_iff H2]%andb_true_iff. apply Nat.eqb_eq in H1. done. }
  pose proof (drain_phase c1 h2 cr p2 cond2 rc mc Sc1 Hc2) as D2.
  destruct (if cond2 then _ else _) as [[p3 stop3] ci2]. destruct D2 as [D2 D2'].
  assert (cond2 = true -> stream h2 hr = []) as Hnh.
  { intros [H1 H2]%Hc2. apply (stream_done _ _ _ _ Sh2). unfold done_side. by rewrite H1, H2, Nat.leb_refl. }
  split; [done|]. split; [done|]. split.
  { intros _ _ ->. destruct (D2 eq_refl) as [H1 H2]. rewrite Et2, (Hnh H1), merged_nil_l. exact H2. }
  intros _ _ ->. destruct (D2' eq_refl) as (Sc2 & Hi3 & E3 & F3 & G3). set (c2 := step_to c1 ci2) in *.
  split; [|split; [done|split; [done|]]].
  - destruct cond2; [|destruct (F3 eq_refl) as [Hx Hp]; rewrite Et2, Hp; unfold c2; rewrite Hx; by destruct c].
    rewrite Et2, (Hnh eq_refl), !merged_nil_l. exact E3.
  - rewrite !length_stream. unfold h2, c2, h1, c1 in *. cbn [buf idx tree_end step_to] in *.
    pose proof (sd_idx _ _ _ _ Sh). pose proof (sd_idx _ _ _ _ Sc).
    destruct (decide (idx h < hi2 \/ idx c < ci2)%nat) as [Hadv|Hno].
    { pose proof (sd_idx _ _ _ _ Sh2). pose proof (sd_idx _ _ _ _ Sc2). simpl in *. left. lia. }
    right. assert (hi = idx h /\ hi2 = idx h /\ ci = idx c /\ ci2 = idx c) as (-> & -> & -> & ->) by lia.
    assert ((length (buf h) <= idx h)%nat /\ (length (buf c) <= idx c)%nat) as [N1 N2].
    { destruct Mor as [Hle|Hle]; [split; [done|]|split; [|done]].
      - destruct Lh as [Lh|Lh]; [lia|]. destruct (decide (length (buf c) <= idx c)%nat) as [|Hc]; [done|].
        rewrite (proj2 (Nat.ltb_lt _ _)), (proj2 (Nat.eqb_eq _ _)), Lh in Q2 by lia.
        specialize (G3 Q2). lia.
      - destruct Lc as [Lc|Lc]; [lia|]. destruct (decide (length (buf h) <= idx h)%nat) as [|Hc]; [done|].
        rewrite (proj2 (Nat.ltb_lt _ _)), (proj2 (Nat.eqb_eq _ _)), Lc in Q1 by lia.
        specialize (G2 Q1). lia. }
    destruct Lh as [Lh|Lh]; [lia|]. destruct Lc as [Lc|Lc]; [lia|]. unfold stream. cbn [step_to buf idx].
    rewrite (stream_nil_rest _ _ _ _ Sh Lh), (stream_nil_rest _ _ _ _ Sc Lc), !drop_ge by lia. done.
Qed.

Lemma scan_loop_ok mh mc fuel hot cold h c hr cr p :
  ok hot -> contents hot = mh -> readable read_hot mh -> ok cold -> contents cold = mc -> readable read_cold mc ->
  side_ok read_hot mh h hr -> side_ok read_cold mc c cr -> loaded h -> loaded c ->
  (length (stream h hr) + length (stream c cr) < fuel)%nat ->
  exists hot' cold', scan_loop fuel hot cold h c p =
      Some (hot', cold', (feed p (merged (stream h hr) (stream c cr))).1) /\
    ok hot' /\ contents hot' = mh /\ ok cold' /\ contents cold' = mc.
Proof.
  revert hot cold h c hr cr p. induction fuel as [|fuel IH];
    intros hot cold h c hr cr p Oh Eh Rh Oc Ec Rc Sh Sc Lh Lc Hf; [lia|].
  pose proof (round_ok h c hr cr mh mc read_hot read_cold p Sh Sc Lh Lc) as R. cbn [scan_loop].
  destruct (merge_loop _ _ _ _ _ _) as [[[p1 stop1] hi] ci]. cbv zeta in R.
  set (h1 := step_to h hi) in *. set (c1 := step_to c ci) in *.
  destruct (if ((idx h1 <? length (buf h1)) && _)%nat && _ then _ else _) as [[p2 stop2] hi2].
  set (h2 := step_to h1 hi2) in *.
  destruct (if ((idx c1 <? length (buf c1)) && _)%nat && _ then _ else _) as [[p3 stop3] ci2].
  destruct R as (R1 & R2 & R3 & R4).
  destruct stop1; [rewrite (R1 eq_refl); by exists hot, cold|].
  destruct stop2; [rewrite (R2 eq_refl eq_refl); by exists hot, cold|].
  destruct stop3; [rewrite (R3 eq_refl eq_refl eq_refl); by exists hot, cold|].
  destruct (R4 eq_refl eq_refl eq_refl) as (Et & Sh2 & Sc2 & Hprog). clear R1 R2 R3 R4.
  destruct (refill_ok read_hot hot mh h2 hr Oh Eh Rh Sh2) as (hot' & h3 & hr3 & -> & Oh3 & Eh3 & Sh3 & Lh3 & Th3).
  cbn [mbind option_bind].
  destruct (refill_ok read_cold cold mc (step_to c1 ci2) cr Oc Ec Rc Sc2)
    as (cold' & c3 & cr3 & -> & Oc3 & Ec3 & Sc3 & Lc3 & Tc3).
  cbn [mbind option_bind]. rewrite Et, <- Th3, <- Tc3.
  destruct (done_side c3 && done_side h3) eqn:Ed.
  - apply andb_true_iff in Ed as [D1 D2].
    rewrite (stream_done _ _ _ _ Sh3 D2), (stream_done _ _ _ _ Sc3 D1). by exists hot', cold'.
  - apply IH; try done. rewrite Th3, Tc3. destruct Hprog as [Hp|[N1 N2]]; [lia|]. exfalso.
    rewrite <- Th3 in N1. rewrite <- Tc3 in N2.
    by rewrite (loaded_nil _ _ _ _ Sh3 Lh3 N1), (loaded_nil _ _ _ _ Sc3 Lc3 N2) in Ed.
Qed.

Lemma length_records read m k : (length (records read m k) <= size m)%nat.
Proof. unfold records. rewrite length_map. apply length_kvs_from. Qed.

End scan.

Lemma hot_readable {T} `{BTreeContract T} cfg (s : TwoBTree T) :
  (1 <= sizeof_Payload cfg)%nat -> inv cfg s -> no_marks cfg s ->
  readable (read_hot cfg) (contents (hot_btree s)).
Proof.
  intros Hsz I Hc kb v Hv. destruct (mi_hot _ _ _ (in_map _ _ I) _ _ Hv) as (Hk & _ & _).
  split; [done|]. destruct (Hc kb v Hv) as [tp Hd]. unfold read_hot. rewrite Hd. eauto.
Qed.

Lemma cold_readable {T} `{BTreeContract T} cfg (s : TwoBTree T) :
  inv cfg s -> readable (read_cold cfg) (contents (cold_btree s)).
Proof.
  intros I kb v Hv. destruct (mi_cold _ _ _ (in_map _ _ I) _ _ Hv) as (Hk & _ & Hl).
  split; [done|]. unfold read_cold. rewrite Hl, Nat.eqb_refl. eauto.
Qed.

Lemma scan_two_ok {T} `{BTreeContract T} cfg {P} (processor : P -> Z -> list Z -> P * bool)
    (s : TwoBTree T) start p fuel :
  (1 <= sizeof_Payload cfg)%nat -> inv cfg s -> no_marks cfg s -> in_width 64 start ->
  (size (contents (hot_btree s)) + size (contents (cold_btree s)) < fuel)%nat ->
  exists s', scan_two cfg processor fuel s start p =
      Some (s', (feed processor p (merged (records (read_hot cfg) (contents (hot_btree s)) start)
                                          (records (read_cold cfg) (contents (cold_btree s)) start))).1) /\
    ok (hot_btree s') /\ ok (cold_btree s') /\
    contents (hot_btree s') = contents (hot_btree s) /\ contents (cold_btree s') = contents (cold_btree s).
Proof.
  intros Hsz I Hc Hk Hf. unfold scan_two. cbn [count_stats hot_btree cold_btree].
  destruct (fill_side_ok (read_hot cfg) (hot_btree s) _ start (in_hot_ok _ _ I) eq_refl (hot_readable _ s Hsz I Hc) Hk)
    as (t1 & h & hr & -> & O1 & E1 & Sh & Lh & Th). cbn [mbind option_bind].
  destruct (fill_side_ok (read_cold cfg) (cold_btree s) _ start (in_cold_ok _ _ I) eq_refl (cold_readable _ s I) Hk)
    as (t2 & c & cr & -> & O2 & E2 & Sc & Lc & Tc). cbn [mbind option_bind].
  pose proof (length_records (read_hot cfg) (contents (hot_btree s)) start).
  pose proof (length_records (read_cold cfg) (contents (cold_btree s)) start).
  destruct (scan_loop_ok cfg processor (contents (hot_btree s)) (contents (cold_btree s)) fuel t1 t2 h c hr cr p)
    as (t1' & t2' & -> & O1' & E1' & O2' & E2'); try done;
    [by apply hot_readable|by apply cold_readable|rewrite Th, Tc; lia|].
  cbn [mbind option_bind]. rewrite Th, Tc. eexists. split; [reflexivity|]. done.
Qed.

(** ** Exclusive mode *)

Lemma records_elem {T} `{BTreeContract T} read m start k v :
  readable read m -> in_width 64 start ->
  (k, v) ∈ records read m start <->
  valid_key k /\ start <= k /\ exists w, m !! fold_u64 k = Some w /\ read w = Some v.
Proof.
  intros Hr Hs. unfold records. rewrite list_elem_of_In, in_map_iff. split.
  - intros ([kb w] & E & Hin%list_elem_of_In). apply kvs_from_elem in Hin as [Hle Hin].
    destruct (Hr _ _ Hin) as ((k1 & Hk1 & ->) & [w1 Hw1]). cbn [fst snd] in E. rewrite Hw1 in E.
    rewrite read_key_fold in E by by apply valid_key_width. injection E as -> ->. split; [done|].
    unfold lex_le in Hle. rewrite fold_u64_cmp in Hle by (done || by apply valid_key_width).
    split; [|by exists w]. destruct (Z.compare_spec start k); try done; lia.
  - intros (Hk & Hle & w & Hin & Hw). exists (fold_u64 k, w). cbn [fst snd]. rewrite Hw.
    rewrite read_key_fold by by apply valid_key_width. split; [done|]. apply list_elem_of_In, kvs_from_elem.
    split; [|done]. unfold lex_le. rewrite fold_u64_cmp by (done || by apply valid_key_width).
    destruct (Z.compare_spec start k); try done; lia.
Qed.

Abbreviation rec_lt := (fun a b : Z * list Z => a.1 < b.1).

Lemma records_sorted {T} `{BTreeContract T} read m start :
  readable read m -> StronglySorted rec_lt (records read m start).
Proof.
  intros Hr. unfold records. pose proof (kvs_from_sorted (fold_u64 start) m) as Hs.
  assert (Forall (fun e : list Z * list Z => exists k, valid_key k /\ e.1 = fold_u64 k) (kvs_from (fold_u64 start) m)) as Hk.
  { apply list.Forall_forall. intros [kb v] [_ Hin]%kvs_from_elem. apply (Hr _ _ Hin). }
  induction Hs as [|e l _ IH He]; [constructor|]. inversion Hk as [|? ? (k & Hk1 & E) Hk']; subst.
  cbn [map]. constructor; [auto|]. rewrite list.Forall_forall in He. rewrite list.Forall_forall in Hk'.
  apply list.Forall_forall.
  intros x (e' & <- & Hin%list_elem_of_In)%list_elem_of_In%in_map_iff.
  destruct (Hk' e' Hin) as (k' & Hk1' & E'). specialize (He e' Hin). cbn [fst]. rewrite E, E' in *.
  rewrite !read_key_fold by by apply valid_key_width. unfold lex_lt in He.
  rewrite fold_u64_cmp in He by by apply valid_key_width. by rewrite Z.compare_lt_iff in He.
Qed.

Lemma merged_elem h c x : x ∈ merged h c <-> x ∈ h \/ x ∈ c.
Proof. unfold merged. rewrite merge_Permutation. apply elem_of_app. Qed.

Lemma merged_sorted h c :
  StronglySorted rec_lt h -> StronglySorted rec_lt c ->
  (forall a b, a ∈ h -> b ∈ c -> a.1 <> b.1) -> StronglySorted rec_lt (merged h c).
Proof.
  intros Hh. revert c. induction Hh as [|a h Hh IHh Ha]; intros c Hc Hne; [by rewrite merged_nil_l|].
  induction Hc as [|b c Hc IHc Hb]; [rewrite merged_nil_r; by constructor|].
  rewrite merged_cons. rewrite list.Forall_forall in Ha, Hb.
  assert (a.1 <> b.1) as Hab by (apply Hne; apply elem_of_cons; by left).
  destruct (Z.leb_spec a.1 b.1).
  - constructor.
    + apply IHh; [constructor; [done|by apply list.Forall_forall]|]. intros a' b' Ha' Hb'. apply Hne; [|done].
      apply elem_of_cons. by right.
    + apply list.Forall_forall. intros x [Hx|[->|Hx]%elem_of_cons]%merged_elem; [auto|lia|].
      specialize (Hb x Hx). simpl in *. lia.
  - constructor.
    + apply IHc. intros a' b' Ha' Hb'. apply Hne; [done|]. apply elem_of_cons. by right.
    + apply list.Forall_forall. intros x [[->|Hx]%elem_of_cons|Hx]%merged_elem; [lia| |auto].
      specialize (Ha x Hx). simpl in *. lia.
Qed.

(** * Properties *)

(** A delete mark among the records a buffer would take fails the length
    assertion. *)
Lemma fill_callback_unread read l : forall acc i kb v,
  l !! i = Some (kb, v) -> (i + length acc < scan_buffer_size)%nat -> read v = None ->
  (scan_kvs (fill_callback read) (Some acc) l).1 = None.
Proof.
  induction l as [|[k0 v0] l IH]; intros acc i kb v Hi Hlt Hv; [done|]. cbn [scan_kvs]. unfold fill_callback at 1.
  destruct (read v0) as [w0|] eqn:E0; [|done]. destruct (length k0 =? 8)%nat; [|done].
  destruct i as [|i]; [cbn in Hi; congruence|]. rewrite length_app. cbn [length].
  rewrite (proj2 (Nat.leb_gt _ _)) by lia. cbn [negb].
  specialize (IH (acc ++ [(read_key k0, w0)]) i kb v Hi). rewrite length_app in IH. cbn [length] in IH.
  specialize (IH ltac:(lia) Hv). by destruct (scan_kvs _ _ l).
Qed.

(** C6: a scan from [start].  Where the hot tree has no delete mark it ends (a
    number of rounds bounded by the number of records suffices), fails no
    assertion, leaves both trees as they are and hands the processor the merge
    of the two trees from [start] on, hot first on equal keys, until the
    processor stops it: no record is skipped or repeated by the buffer refills.
    A delete mark among the first eight hot records from [start] on fails the
    assertion on the length of the value.  Payloads have 1 to 4000 bytes, [start]
    has 64 bits. *)
Theorem scan_delivers_merge {T} `{BTreeContract T} cfg {P} (processor : P -> Z -> list Z -> P * bool)
    (s : TwoBTree T) start p fuel :
  (1 <= sizeof_Payload cfg)%nat -> inv cfg s -> in_width 64 start ->
  (size (contents (hot_btree s)) + size (contents (cold_btree s)) < fuel)%nat ->
  (no_marks cfg s -> exists s', scan_two cfg processor fuel s start p =
      Some (s', (feed processor p (merged (records (read_hot cfg) (contents (hot_btree s)) start)
                                          (records (read_cold cfg) (contents (cold_btree s)) start))).1) /\
    contents (hot_btree s') = contents (hot_btree s) /\ contents (cold_btree s') = contents (cold_btree s)) /\
  (forall i kb, kvs_from (fold_u64 start) (contents (hot_btree s)) !! i = Some (kb, [kDeletedBits]) -> (i < 8)%nat ->
     scan_two cfg processor fuel s start p = None).
Proof.
  intros Hsz I Hk Hf. split.
  - intros Hc. destruct (scan_two_ok cfg processor s start p fuel Hsz I Hc Hk Hf) as (s' & E & _ & _ & H1 & H2). eauto.
  - intros i kb Hi Hlt. unfold scan_two, fill_scan_buffer. cbn [buf length tree_end negb andb Nat.ltb Nat.leb scan_buffer_size].
    pose proof (scanAsc_spec _ (hot_btree s) (fold_u64 start) (fill_callback (read_hot cfg)) (Some []) (in_hot_ok _ _ I) (fold_u64_bytes _)
      (same_size_read_only _ (fill_read_only (read_hot cfg)))) as Sc.
    change (hot_btree (count_stats s add_scan)) with (hot_btree s). destruct (scanAsc _ _ _ _) as [t r].
    pose proof (fill_callback_unread (read_hot cfg) (kvs_from (fold_u64 start) (contents (hot_btree s))) [] i kb [kDeletedBits] Hi) as Hn.
    destruct (scan_kvs _ _ _) as [s2 l2]. destruct Sc as (_ & -> & _). cbn [fst] in Hn. rewrite Hn; [done|cbn; unfold scan_buffer_size; lia|].
    unfold read_hot, decode. rewrite (proj2 (Nat.eqb_neq _ _)); [done|]. cbn. lia.
Qed.

Lemma merged_exclusive {T} `{BTreeContract T} cfg (s : TwoBTree T) start :
  (1 <= sizeof_Payload cfg <= 4000)%nat -> inv cfg s -> no_marks cfg s -> in_width 64 start ->
  inclusive cfg = false ->
  let l := merged (records (read_hot cfg) (contents (hot_btree s)) start)
                  (records (read_cold cfg) (contents (cold_btree s)) start) in
  StronglySorted rec_lt l /\
  forall k v, (k, v) ∈ l <-> valid_key k /\ start <= k /\ view cfg s k = Some v.
Proof.
  intros Hsz I Hc Hk Hex l. pose proof (hot_readable cfg s ltac:(lia) I Hc) as Rh.
  pose proof (cold_readable cfg s I) as Rc.
  assert (forall k v w, contents (hot_btree s) !! fold_u64 k = Some v -> contents (cold_btree s) !! fold_u64 k = Some w -> False) as Hdis.
  { intros k v w H1 H2. destruct (Hc _ _ H1) as [tp Hd].
    pose proof (mi_part _ _ _ (in_map _ _ I) _ _ _ H1 Hd) as Hp. rewrite Hex in Hp. congruence. }
  split.
  - apply merged_sorted; [by apply (records_sorted (T := T))|by apply (records_sorted (T := T))|].
    intros [k v] [k' v'] Ha Hb. cbn. intros <-.
    apply (records_elem (T := T) _ _ start k v Rh Hk) in Ha as (_ & _ & w & H1 & _).
    apply (records_elem (T := T) _ _ start k v' Rc Hk) in Hb as (_ & _ & w' & H2 & _). eauto.
  - intros k v. unfold l. rewrite merged_elem.
    rewrite (records_elem (T := T) _ _ start k v Rh Hk), (records_elem (T := T) _ _ start k v Rc Hk).
    unfold view, mview, hot_value, read_hot, read_cold. split.
    + intros [(H1 & H2 & w & -> & H3)|(H1 & H2 & w & H3 & H4)]; (split; [done|]; split; [done|]); [done|].
      destruct (contents (hot_btree s) !! fold_u64 k) eqn:Eh; [exfalso; eauto|]. case_match; by simplify_eq.
    + intros (H1 & H2 & H3). destruct (contents (hot_btree s) !! fold_u64 k) as [w|] eqn:Eh; [left; by eauto|].
      right. split; [done|]. split; [done|]. exists v. split; [done|].
      destruct (mi_cold _ _ _ (in_map _ _ I) _ _ H3) as (_ & _ & ->). by rewrite Nat.eqb_refl.
Qed.

(** C32: in exclusive mode, where the hot tree has no delete mark, a scan hands
    the processor exactly the visible records from [start] on, in strictly
    ascending key order, until the processor stops it. *)
Theorem scan_exclusive_exact {T} `{BTreeContract T} cfg {P} (processor : P -> Z -> list Z -> P * bool)
    (s : TwoBTree T) start p fuel :
  (1 <= sizeof_Payload cfg <= 4000)%nat -> inv cfg s -> no_marks cfg s -> in_width 64 start ->
  inclusive cfg = false -> (size (contents (hot_btree s)) + size (contents (cold_btree s)) < fuel)%nat ->
  exists s' l, scan_two cfg processor fuel s start p = Some (s', (feed processor p l).1) /\
    StronglySorted rec_lt l /\
    forall k v, (k, v) ∈ l <-> valid_key k /\ start <= k /\ view cfg s k = Some v.
Proof.
  intros Hsz I Hc Hk Hex Hf.
  destruct (scan_two_ok cfg processor s start p fuel ltac:(lia) I Hc Hk Hf) as (s' & E & _).
  destruct (merged_exclusive cfg s start Hsz I Hc Hk Hex) as [H1 H2]. eauto.
Qed.

(** Collect everything. *)
Definition collect (p : list (Z * list Z)) (k : Z) (v : list Z) : list (Z * list Z) * bool := (p ++ [(k, v)], false).

Lemma scan_delivers_merge_witness :
  exists s', scan_two (cfg1 false) collect 3 s35 0 [] = Some (s', [(3, [9]); (5, [7])]).
Proof.
  destruct (scan_delivers_merge (cfg1 false) collect s35 0 [] 3) as [H _];
    [simpl; lia|apply s35_inv|unfold in_width; lia|apply Nat.ltb_lt; vm_compute; reflexivity|].
  destruct (H (s35_clean false)) as (s' & E & _). exists s'. rewrite E. vm_compute. reflexivity.
Defined.

Lemma scan_exclusive_exact_witness :
  exists s' l, scan_two (cfg1 false) collect 3 s35 4 [] = Some (s', (feed collect [] l).1) /\ (5, [7]) ∈ l.
Proof.
  destruct (scan_exclusive_exact (cfg1 false) collect s35 4 [] 3) as (s' & l & E & _ & H);
    [simpl; lia|apply s35_inv|apply s35_clean|unfold in_width; lia|reflexivity|apply Nat.ltb_lt; vm_compute; reflexivity|].
  exists s', l. split; [exact E|]. apply H. split; [unfold valid_key; lia|]. split; [lia|]. vm_compute. reflexivity.
Defined.
