(* ===== verification/BTreeAdapter.v ===== *)
(** The adapter over one B-tree (src/backend/leanstore/BTreeAdapter.hpp,
    [BTreeVSAdapter] with [Key] = [u64]): definitions, and that it behaves as an
    ordered map.  I/O statistics are left out. *)
From stdpp Require Import sorting gmap.
From S2P Require Import Prelude Fold LockTable BTreeNode BTreeNodeOps BTreeInterface TwoBTree TwoBTreeInv TwoBTreeOps TwoBTreeScan.
Local Open Scope Z_scope.

Record BTreeVSAdapter (T : Type) := mkBTreeVS {
  bv_btree : T;
  bv_total_lookups : Z;
  bv_scan_ops : Z }.
Arguments mkBTreeVS {T}.
Arguments bv_btree {T}.
Arguments bv_total_lookups {T}.
Arguments bv_scan_ops {T}.

(** The constructor. *)
Definition new_btree_adapter {T} (t : T) : BTreeVSAdapter T := mkBTreeVS t 0 0.

(** [memcpy(payload, &v, payload_length)]: the first bytes of [v]. *)
Definition bv_overwrite (v w : list Z) : list Z * unit := (take (length w) (v ++ drop (length v) w), tt).

Section operations.
Context {T : Type} `{BTreeInterface T} (psz : nat).   (* sizeof(Payload) *)
Context {P : Type} (processor : P -> Z -> list Z -> P * bool).
Implicit Types (s : BTreeVSAdapter T).

Definition bv_set_tree s (t : T) : BTreeVSAdapter T := mkBTreeVS t (bv_total_lookups s) (bv_scan_ops s).
Definition bv_count_lookup s : BTreeVSAdapter T := mkBTreeVS (bv_btree s) (bv_total_lookups s + 1) (bv_scan_ops s).

(** [None] is [return false]; the payload is copied as long as it is. *)
Definition bv_lookup s (k : Z) : BTreeVSAdapter T * option (list Z) :=
  let s := bv_count_lookup s in
  let (t, r) := lookup (bv_btree s) (fold_u64 k) (fun v => (v, v)) in
  (bv_set_tree s t, r).

(** The answer of the tree is ignored. *)
Definition bv_insert s (k : Z) (v : list Z) : BTreeVSAdapter T :=
  let (t, _) := insert (bv_btree s) (fold_u64 k) v in bv_set_tree s t.

Definition bv_update s (k : Z) (v : list Z) : BTreeVSAdapter T :=
  let s := bv_count_lookup s in
  let (t, _) := updateSameSize (bv_btree s) (fold_u64 k) (bv_overwrite v) in bv_set_tree s t.

Definition bv_put s (k : Z) (v : list Z) : BTreeVSAdapter T := bv_update s k v.

(** The callback of [scan]; [None] once an assertion on a length has failed. *)
Definition bv_callback (acc : option P) (k v : list Z) : option P * list Z * bool :=
  match acc with
  | None => (None, v, false)
  | Some p =>
      if ((length k =? 8) && (length v =? psz))%nat
      then let (p, stop) := processor p (read_key k) v in (Some p, v, negb stop)
      else (None, v, false)
  end.

Definition bv_scan s (start_key : Z) (p : P) : BTreeVSAdapter T * option P :=
  let (t, r) := scanAsc (bv_btree s) (fold_u64 start_key) bv_callback (Some p) in
  (mkBTreeVS t (bv_total_lookups s) (bv_scan_ops s + 1), r).

(** [clear_stats] *)
Definition bv_clear_stats s : BTreeVSAdapter T := mkBTreeVS (bv_btree s) (bv_total_lookups s) 0.
End operations.

(** * Histories *)

Inductive bv_op (P : Type) := BLookup (k : Z) | BInsert (k : Z) (v : list Z) | BUpdate (k : Z) (v : list Z)
  | BPut (k : Z) (v : list Z) | BScan (start_key : Z) (p : P).
Arguments BLookup {P}.
Arguments BInsert {P}.
Arguments BUpdate {P}.
Arguments BPut {P}.
Arguments BScan {P}.
(** [BScanned None] stands for a failed assertion. *)
Inductive bv_result (P : Type) := BNothing | BValue (o : option (list Z)) | BScanned (o : option P).
Arguments BNothing {P}.
Arguments BValue {P}.
Arguments BScanned {P}.

(** The records of a map from a key on, in order. *)
Definition key_before (a b : Z * list Z) : Prop := a.1 <= b.1.
#[export] Instance key_before_dec a b : Decision (key_before a b).
Proof. unfold key_before. apply _. Defined.
#[export] Instance key_before_trans : Transitive key_before.
Proof. unfold key_before. intros a b c. lia. Qed.
#[export] Instance key_before_total : Total key_before.
Proof. unfold key_before. intros a b. lia. Qed.

Definition records_from (start : Z) (M : gmap Z (list Z)) : list (Z * list Z) :=
  filter (fun e => start <= e.1) (merge_sort key_before (map_to_list M)).

Section histories.
Context {P : Type} (processor : P -> Z -> list Z -> P * bool).

(** [insert] leaves a key that is there alone; [put] an absent one. *)
Definition bv_spec (M : gmap Z (list Z)) (o : bv_op P) : bv_result P * gmap Z (list Z) :=
  match o with
  | BLookup k => (BValue (M !! k), M)
  | BInsert k v => (BNothing, if M !! k then M else <[k := v]> M)
  | BUpdate k v | BPut k v => (BNothing, if M !! k then <[k := v]> M else M)
  | BScan start p => (BScanned (Some (feed processor p (records_from start M)).1), M)
  end.

Fixpoint bv_specs (M : gmap Z (list Z)) (os : list (bv_op P)) : list (bv_result P) * gmap Z (list Z) :=
  match os with
  | [] => ([], M)
  | o :: os => let (r, M) := bv_spec M o in let (rs, M) := bv_specs M os in (r :: rs, M)
  end.

Context {T : Type} `{BTreeInterface T} (psz : nat).

Definition bv_step (s : BTreeVSAdapter T) (o : bv_op P) : bv_result P * BTreeVSAdapter T :=
  match o with
  | BLookup k => let (s, r) := bv_lookup s k in (BValue r, s)
  | BInsert k v => (BNothing, bv_insert s k v)
  | BUpdate k v => (BNothing, bv_update s k v)
  | BPut k v => (BNothing, bv_put s k v)
  | BScan start p => let (s, r) := bv_scan psz processor s start p in (BScanned r, s)
  end.

Fixpoint bv_run (s : BTreeVSAdapter T) (os : list (bv_op P)) : list (bv_result P) * BTreeVSAdapter T :=
  match os with
  | [] => ([], s)
  | o :: os => let (r, s) := bv_step s o in let (rs, s) := bv_run s os in (r :: rs, s)
  end.

(** Keys of 63 bits, payloads of [psz] bytes. *)
Definition bv_op_ok (o : bv_op P) : Prop :=
  match o with
  | BLookup k => valid_key k
  | BInsert k v | BUpdate k v | BPut k v => valid_key k /\ length v = psz /\ Forall is_byte v
  | BScan start _ => in_width 64 start
  end.
End histories.

Section adapter.
Context {T : Type} `{BTreeContract T} (psz : nat) {P : Type} (processor : P -> Z -> list Z -> P * bool).
Context (Hpsz : (psz <= 4096)%nat).
Implicit Types (s : BTreeVSAdapter T) (M : gmap Z (list Z)).

(** The tree holds exactly the records of [M] under their folded keys. *)
Record bv_shows s M : Prop := BvShows {
  bv_ok : ok (bv_btree s);
  bv_keys : forall kb v, contents (bv_btree s) !! kb = Some v -> exists k, valid_key k /\ kb = fold_u64 k;
  bv_values : forall k, valid_key k -> contents (bv_btree s) !! fold_u64 k = M !! k;
  bv_dom : forall k v, M !! k = Some v -> valid_key k /\ length v = psz /\ Forall is_byte v }.

Definition read_whole (v : list Z) : option (list Z) := if (length v =? psz)%nat then Some v else None.

Lemma bv_readable s M : bv_shows s M -> readable read_whole (contents (bv_btree s)).
Proof.
  intros [O K V D] kb v Hv. destruct (K _ _ Hv) as (k & Hk & ->). split; [eauto|].
  rewrite V in Hv by done. destruct (D _ _ Hv) as (_ & Hl & _). unfold read_whole. rewrite Hl, Nat.eqb_refl. eauto.
Qed.

(** ** Scans *)

Lemma bv_callback_feed l : forall p,
  Forall (fun e => length e.1 = 8%nat /\ is_Some (read_whole e.2)) l ->
  (scan_kvs (bv_callback psz processor) (Some p) l).1 =
    Some (feed processor p (map (fun e => (read_key e.1, default [] (read_whole e.2))) l)).1.
Proof.
  induction l as [|[k v] l IH]; intros p Hl; [done|]. inversion Hl as [|? ? [Hk [w Hw]] Hl']; subst. cbn [fst snd] in *.
  assert (w = v /\ length v = psz) as [-> Hv].
  { unfold read_whole in Hw. destruct (Nat.eqb_spec (length v) psz); [|done]. by injection Hw as <-. }
  cbn [scan_kvs map feed fst snd]. unfold bv_callback at 1. rewrite Hk, Hv, !Nat.eqb_refl, Hw. cbn [andb default id].
  destruct (processor p (read_key k) v) as [p1 stop]. destruct stop; [done|]. cbn [negb].
  specialize (IH p1 Hl'). by destruct (scan_kvs _ _ l).
Qed.

Lemma bv_read_only : read_only (bv_callback psz processor).
Proof. intros [p|] k v; [|done]. cbn. by repeat case_match. Qed.

Lemma records_from_sorted start M : StronglySorted key_before (records_from start M).
Proof. apply StronglySorted_filter, Sorted_StronglySorted; [apply _|]. apply Sorted_merge_sort, _. Qed.

Lemma records_from_elem start M k v : (k, v) ∈ records_from start M <-> start <= k /\ M !! k = Some v.
Proof. unfold records_from. by rewrite list_elem_of_filter, merge_sort_Permutation, elem_of_map_to_list. Qed.

(** What the scan of the tree delivers is what the map says. *)
Lemma records_shown s M start :
  bv_shows s M -> in_width 64 start -> records read_whole (contents (bv_btree s)) start = records_from start M.
Proof.
  intros S Hs. pose proof (bv_readable _ _ S) as Hr.
  pose proof (records_sorted read_whole (contents (bv_btree s)) start Hr) as S1.
  pose proof (records_from_sorted start M) as S2.
  assert (forall x, x ∈ records read_whole (contents (bv_btree s)) start <-> x ∈ records_from start M) as E.
  { intros [k v]. rewrite records_elem, records_from_elem by done. split.
    - intros (Hk & Hle & w & Hw & Hv). split; [done|]. rewrite (bv_values _ _ S k Hk) in Hw. unfold read_whole in Hv.
      destruct (length w =? psz)%nat; [|done]. by injection Hv as <-.
    - intros [Hle Hv]. destruct (bv_dom _ _ S _ _ Hv) as (Hk & Hl & _). split; [done|]. split; [done|]. exists v.
      rewrite (bv_values _ _ S k Hk). unfold read_whole. by rewrite Hl, Nat.eqb_refl. }
  assert (NoDup (records read_whole (contents (bv_btree s)) start).*1) as N1.
  { clear -S1. induction S1 as [|e l _ IH He]; [constructor|]. rewrite fmap_cons. apply list.NoDup_cons. split; [|done].
    intros (e' & E & Hin)%list_elem_of_fmap. rewrite list.Forall_forall in He. specialize (He e' Hin). simpl in He. lia. }
  assert (NoDup (records_from start M)) as N2.
  { unfold records_from. apply list.NoDup_filter. rewrite merge_sort_Permutation. apply NoDup_map_to_list. }
  eapply (StronglySorted_unique_strong key_before); [|..|exact S2|].
  - intros [k1 v1] [k2 v2] H1' H2' L1 L2. unfold key_before in L1, L2. simpl in L1, L2. assert (k1 = k2) as -> by lia. apply E in H2'.
    apply records_elem in H1' as (_ & _ & w1 & Hw1 & Hr1); [|done..]. apply records_elem in H2' as (_ & _ & w2 & Hw2 & Hr2); [|done..].
    congruence.
  - clear -S1. induction S1 as [|e l _ IH He]; constructor; [done|]. eapply list.Forall_impl; [exact He|]. unfold key_before. simpl. lia.
  - apply NoDup_Permutation; [by eapply NoDup_fmap_1|done|exact E].
Qed.

(** ** Operations *)

Lemma bv_overwrite_full v w : length v = length w -> (bv_overwrite v w).1 = v.
Proof. intros E. cbn. rewrite drop_ge by lia. rewrite app_nil_r. apply take_ge. lia. Qed.

(** The state after a change of the record of [k]. *)
Lemma bv_insert_shows s M t k v :
  bv_shows s M -> ok t -> contents t = <[fold_u64 k := v]> (contents (bv_btree s)) ->
  valid_key k -> length v = psz -> Forall is_byte v ->
  forall s', bv_btree s' = t -> bv_shows s' (<[k := v]> M).
Proof.
  intros [O K V D] Ot Et Hk Hl Hb s' Es. split; rewrite ?Es.
  - done.
  - intros kb w. rewrite Et. intros [[<- _]|[_ Hw]]%lookup_insert_Some; [by exists k|by eapply K].
  - intros k' Hk'. rewrite Et. destruct (decide (k' = k)) as [->|Hne]; [by rewrite !lookup_insert_eq|].
    rewrite !lookup_insert_ne; [by apply V|done|]. intros E. apply Hne. symmetry.
    by apply fold_u64_inj; [apply valid_key_width..|].
  - intros k' w [[<- <-]|[_ Hw]]%lookup_insert_Some; [done|by eapply D].
Qed.

Lemma bv_same_shows s M t : bv_shows s M -> ok t -> contents t = contents (bv_btree s) ->
  forall s', bv_btree s' = t -> bv_shows s' M.
Proof. intros [O K V D] Ot Et s' Es. split; rewrite ?Es, ?Et; done. Qed.

Lemma bv_update_shows s M k v :
  bv_shows s M -> valid_key k -> length v = psz -> Forall is_byte v ->
  bv_shows (bv_update s k v) (if M !! k then <[k := v]> M else M).
Proof.
  intros S Hk Hl Hb. unfold bv_update. cbn [bv_btree bv_count_lookup].
  assert (forall w, contents (bv_btree s) !! fold_u64 k = Some w -> length v = length w) as Hlen.
  { intros w Hw. rewrite (bv_values _ _ S k Hk) in Hw. destruct (bv_dom _ _ S _ _ Hw) as (_ & ? & _). congruence. }
  pose proof (updateSameSize_spec _ (bv_btree s) (fold_u64 k) (bv_overwrite v) (bv_ok _ _ S) (fold_u64_bytes _)) as Sp.
  destruct (updateSameSize _ _ _) as [t r]. destruct Sp as (Ot & Et & _).
  { intros w Hw _. rewrite bv_overwrite_full by by apply Hlen. split; [by apply Hlen|done]. }
  rewrite <- (bv_values _ _ S k Hk). destruct (contents (bv_btree s) !! fold_u64 k) as [w|] eqn:Ew.
  - eapply bv_insert_shows; try done. rewrite Et. apply map_eq. intros i. destruct (decide (i = fold_u64 k)) as [->|].
    + rewrite lookup_alter_eq, lookup_insert_eq, Ew. cbn [fmap option_fmap option_map].
      by rewrite bv_overwrite_full by by apply Hlen.
    + by rewrite lookup_alter_ne, lookup_insert_ne.
  - eapply bv_same_shows; try done. rewrite Et. apply alter_id. congruence.
Qed.

Lemma bv_step_shows s M o :
  bv_shows s M -> bv_op_ok psz o ->
  (bv_step processor psz s o).1 = (bv_spec processor M o).1 /\
  bv_shows (bv_step processor psz s o).2 (bv_spec processor M o).2.
Proof.
  intros S Ho. destruct o as [k|k v|k v|k v|start p]; cbn [bv_step bv_spec bv_op_ok fst snd] in *.
  - unfold bv_lookup. cbn [bv_btree bv_count_lookup].
    pose proof (lookup_spec _ (bv_btree s) (fold_u64 k) (fun v => (v, v)) (bv_ok _ _ S) (fold_u64_bytes _)) as Sp.
    destruct (lookup _ _ _) as [t r]. destruct Sp as (Ot & Et & ->); [done|]. cbn [fst snd].
    rewrite (bv_values _ _ S k Ho). split; [by destruct (M !! k)|].
    eapply bv_same_shows; try done. rewrite Et. by apply alter_id.
  - destruct Ho as (Hk & Hl & Hb). split; [done|]. unfold bv_insert.
    pose proof (insert_spec (bv_btree s) (fold_u64 k) v (bv_ok _ _ S)) as Sp.
    destruct (insert _ _ _) as [t r]. destruct Sp as [Ot Et].
    { split_and!; [apply fold_u64_bytes|done|rewrite length_fold_u64; lia|lia]. }
    rewrite (bv_values _ _ S k Hk) in Et. destruct (M !! k); destruct Et as [_ Et].
    + by eapply bv_same_shows.
    + by eapply bv_insert_shows.
  - split; [done|]. by apply bv_update_shows; try apply Ho.
  - split; [done|]. by apply bv_update_shows; try apply Ho.
  - unfold bv_scan.
    pose proof (scanAsc_spec _ (bv_btree s) (fold_u64 start) (bv_callback psz processor) (Some p) (bv_ok _ _ S)
      (fold_u64_bytes _) (same_size_read_only _ bv_read_only)) as Sp.
    destruct (scanAsc _ _ _ _) as [t r].
    pose proof (bv_callback_feed (kvs_from (fold_u64 start) (contents (bv_btree s))) p) as Hf.
    pose proof (scan_kvs_read_only (bv_callback psz processor) (Some p) (fold_u64 start) (contents (bv_btree s))
      bv_read_only) as Hro.
    destruct (scan_kvs _ _ _) as [s2 l2]. destruct Sp as (Ot & -> & Et). cbn [fst snd] in *. split.
    + rewrite Hf; [f_equal; f_equal|].
      * change (map _ _) with (records read_whole (contents (bv_btree s)) start). by rewrite (records_shown s M start).
      * apply list.Forall_forall. intros [kb v] [_ Hv]%kvs_from_elem. cbn [fst snd].
        destruct (bv_readable _ _ S _ _ Hv) as ((k & _ & ->) & Hr). split; [apply length_fold_u64|done].
    + eapply bv_same_shows; try done. by rewrite Et, Hro.
Qed.

(** C30: Histories of operations on the adapter over one B-tree, scans included,
    return what they return on an ordered map. *)
Theorem btree_adapter_refines os : forall s M,
  bv_shows s M -> Forall (bv_op_ok psz) os ->
  (bv_run processor psz s os).1 = (bv_specs processor M os).1 /\
  bv_shows (bv_run processor psz s os).2 (bv_specs processor M os).2.
Proof.
  induction os as [|o os IH]; intros s M S Ho; cbn [bv_run bv_specs]; [done|].
  inversion Ho as [|? ? Ho1 Ho2]; subst. destruct (bv_step_shows s M o S Ho1) as [Er S1].
  destruct (bv_step processor psz s o) as [r s1], (bv_spec processor M o) as [r' M1]. cbn [fst snd] in Er, S1. subst r'.
  destruct (IH s1 M1 S1 Ho2) as [Ers S2]. destruct (bv_run processor psz s1 os), (bv_specs processor M1 os).
  cbn [fst snd] in *. by subst.
Qed.
End adapter.

Definition sample_bv_ops : list (bv_op (list (Z * list Z))) :=
  [BInsert 5 [7]; BInsert 3 [9]; BInsert 3 [1]; BScan 0 []; BPut 4 [2]; BUpdate 5 [8]; BLookup 5; BScan 4 []].

Lemma btree_adapter_refines_witness :
  (bv_run collect 1 (new_btree_adapter (mkRef ∅ false)) sample_bv_ops).1 =
    [BNothing; BNothing; BNothing; BScanned (Some [(3, [9]); (5, [7])]); BNothing; BNothing; BValue (Some [8]);
     BScanned (Some [(5, [8])])] /\
  bv_shows 1 (bv_run collect 1 (new_btree_adapter (mkRef ∅ false)) sample_bv_ops).2 (<[5 := [8]]> {[3 := [9]]}).
Proof.
  destruct (btree_adapter_refines 1 collect ltac:(lia) sample_bv_ops (new_btree_adapter (mkRef ∅ false)) ∅) as [E S].
  - split; cbn; try done; intros k *; rewrite ?lookup_empty; done.
  - unfold sample_bv_ops. repeat constructor; unfold in_width, is_byte; lia.
  - split; [rewrite E; vm_compute; reflexivity|].
    replace (bv_specs collect ∅ sample_bv_ops).2 with (<[5 := [8]]> ({[3 := [9]]} : gmap Z (list Z))) in S; [exact S|].
    vm_compute. reflexivity.
Defined.
