(* ===== verification/LinearHashingNode.v ===== *)
(** The slotted page of the linear hash table
    (src/backend/leanstore/storage/hashing/LinearHashing.hpp and .cpp).

    Records are appended to the slot array and found by a linear scan with
    16-bit fingerprints; the heap of key and payload bytes grows down from the
    end of the page.  The slot array is the list of its first [count] entries,
    the heap is bytes addressed by page offset.  [XXH] is [XXH::hash]. *)
From S2P Require Import Prelude BTreeNode BTreeNodeSpace.
Local Open Scope Z_scope.

(** Offset of [slot]: 8 (overflow) + 1 + 7 (padding) + 8 (bucket) + 3 * 2; the
    packed array follows the last header member. *)
Definition slot_base : Z := 30.

(** [sizeof(Slot)], packed: 2 + 2 + 2 + 2. *)
Definition sizeof_Slot : Z := 8.

(** [EFFECTIVE_PAGE_SIZE * 0.5] as a [u16]. *)
Definition underFullSize : Z := EFFECTIVE_PAGE_SIZE * 5 / 10.

Record Slot := mkSlot { offset : Z; key_len : nat; payload_len : nat; fingerprint_of : Z }.

Record LinearHashingNode := mkNode {
  overflow : Z;              (* raw Swip *)
  is_overflow : bool;
  bucket : Z;
  space_used : Z;
  data_offset : Z;
  slots : list Slot;
  bytes : mem }.

Definition count (n : LinearHashingNode) : nat := length (slots n).

Definition new_node (is_ov : bool) (b : Z) : LinearHashingNode :=
  mkNode 0 is_ov b 0 (u16 EFFECTIVE_PAGE_SIZE) [] (fun _ => 0).

Definition set_overflow (n : LinearHashingNode) (s : Z) : LinearHashingNode :=
  mkNode s (is_overflow n) (bucket n) (space_used n) (data_offset n) (slots n) (bytes n).
Definition set_is_overflow (n : LinearHashingNode) (b : bool) : LinearHashingNode :=
  mkNode (overflow n) b (bucket n) (space_used n) (data_offset n) (slots n) (bytes n).
Definition set_bucket (n : LinearHashingNode) (b : Z) : LinearHashingNode :=
  mkNode (overflow n) (is_overflow n) b (space_used n) (data_offset n) (slots n) (bytes n).
Definition set_heap (n : LinearHashingNode) (used off : Z) (m : mem) : LinearHashingNode :=
  mkNode (overflow n) (is_overflow n) (bucket n) used off (slots n) m.
Definition set_slots (n : LinearHashingNode) (l : list Slot) : LinearHashingNode :=
  mkNode (overflow n) (is_overflow n) (bucket n) (space_used n) (data_offset n) l (bytes n).

(** [reinterpret_cast<u8*>(slot + count) - ptr()] *)
Definition slots_end (c : nat) : Z := slot_base + sizeof_Slot * Z.of_nat c.

Definition freeSpace (n : LinearHashingNode) : Z := u16 (data_offset n - slots_end (count n)).
Definition freeSpaceAfterCompaction (n : LinearHashingNode) : Z :=
  u16 (EFFECTIVE_PAGE_SIZE - slots_end (count n) - space_used n).
Definition spaceUsedForData (n : LinearHashingNode) : Z := u16 (slots_end (count n) + space_used n).

Definition hasEnoughSpaceFor (n : LinearHashingNode) (space_needed : Z) : bool :=
  (space_needed <=? freeSpace n) || (space_needed <=? freeSpaceAfterCompaction n).

Definition slot_key (m : mem) (s : Slot) : list Z := read_bytes m (offset s) (key_len s).
Definition slot_payload (m : mem) (s : Slot) : list Z := read_bytes m (offset s + Z.of_nat (key_len s)) (payload_len s).
Definition slot_entry (m : mem) (s : Slot) : list Z * list Z := (slot_key m s, slot_payload m s).
Definition slot_size (s : Slot) : Z := Z.of_nat (key_len s) + Z.of_nat (payload_len s).

(** [cmpKeys] *)
Definition cmpKeys (a b : list Z) : bool := (length a =? length b)%nat && bool_decide (a = b).

Definition spaceNeeded (key_length payload_length : nat) : Z :=
  u16 (sizeof_Slot + Z.of_nat key_length + Z.of_nat payload_length).

Definition canInsert (n : LinearHashingNode) (key_length payload_length : nat) : bool :=
  hasEnoughSpaceFor n (spaceNeeded key_length payload_length).

Section node.
Context (XXH : list Z -> Z).

Definition fingerprint (key : list Z) : Z :=
  let h := XXH key in
  let fold := u32 (Z.lxor (Z.shiftr h 32) (Z.land h 0xffffffff)) in
  u16 (Z.lxor (Z.shiftr fold 16) (Z.land h 0xffff)).

(** The loop of [find]; [None] is -1. *)
Fixpoint find_from (m : mem) (ss : list Slot) (key : list Z) (i : nat) : option nat :=
  match ss with
  | [] => None
  | s :: ss' =>
      if (fingerprint_of s =? fingerprint key) && cmpKeys key (slot_key m s) then Some i
      else find_from m ss' key (S i)
  end.

Definition find (n : LinearHashingNode) (key : list Z) : option nat := find_from (bytes n) (slots n) key 0.

Definition removeSlot (n : LinearHashingNode) (i : nat) : option LinearHashingNode :=
  s ← slots n !! i;
  Some (set_slots (set_heap n (u16 (space_used n - slot_size s)) (data_offset n) (bytes n)) (delete i (slots n))).

Definition remove (n : LinearHashingNode) (key : list Z) : option (bool * LinearHashingNode) :=
  match find n key with
  | None => Some (false, n)
  | Some i => n ← removeSlot n i; Some (true, n)
  end.

(** Overwrite the payload of a slot, as a callback or [update] does. *)
Definition write_payload (n : LinearHashingNode) (s : Slot) (payload : list Z) : LinearHashingNode :=
  set_heap n (space_used n) (data_offset n) (write_bytes (bytes n) (offset s + Z.of_nat (key_len s)) payload).

Definition update (n : LinearHashingNode) (i : nat) (key payload : list Z) : option LinearHashingNode :=
  s ← slots n !! i;
  if (length key =? key_len s)%nat && (length payload =? payload_len s)%nat && bool_decide (key = slot_key (bytes n) s)
  then Some (write_payload n s payload)
  else None.

(** Append a slot for [key] and [payload] with the fingerprint [f]; the slot
    array then has [c] entries for the assertion. *)
Definition push (n : LinearHashingNode) (f : Z) (key payload : list Z) (c : nat) : option LinearHashingNode :=
  let space := u16 (Z.of_nat (length key) + Z.of_nat (length payload)) in
  let off := u16 (data_offset n - space) in
  let m := write_bytes (write_bytes (bytes n) off key) (off + Z.of_nat (length key)) payload in
  let n := set_heap n (u16 (space_used n + space)) off m in
  if off <? slots_end c then None
  else Some (set_slots n (slots n ++ [mkSlot off (length key) (length payload) f])).

Definition storeKeyValue (n : LinearHashingNode) (key payload : list Z) : option LinearHashingNode :=
  push n (fingerprint key) key payload (count n).

(** Every slot of [src] at the end of [dst]; the assertions check the sum of
    the record sizes and, record by record, the room. *)
Fixpoint copy_slots (m : mem) (dst : LinearHashingNode) (ss : list Slot) (c : nat) : option LinearHashingNode :=
  match ss with
  | [] => Some dst
  | s :: ss' =>
      dst ← push dst (fingerprint_of s) (slot_key m s) (slot_payload m s) c;
      copy_slots m dst ss' c
  end.

Definition total (ss : list Slot) : Z := foldr (fun s a => slot_size s + a) 0 ss.

Definition copyKeyValueRange (src dst : LinearHashingNode) : option LinearHashingNode :=
  if negb (total (slots src) =? space_used src) then None
  else
    dst ← copy_slots (bytes src) dst (slots src) (count dst + count src);
    if data_offset dst <? slots_end (count dst) then None else Some dst.

Definition compactify (n : LinearHashingNode) : option LinearHashingNode :=
  let should := freeSpaceAfterCompaction n in
  tmp ← copyKeyValueRange n (new_node (is_overflow n) (bucket n));
  let n := set_overflow tmp (overflow n) in
  if freeSpace n =? should then Some n else None.

Definition requestSpaceFor (n : LinearHashingNode) (space_needed : Z) : option (bool * LinearHashingNode) :=
  if space_needed <=? freeSpace n then Some (true, n)
  else if space_needed <=? freeSpaceAfterCompaction n then n ← compactify n; Some (true, n)
  else Some (false, n).

Definition prepareInsert (n : LinearHashingNode) (key_length payload_length : nat) : option (bool * LinearHashingNode) :=
  requestSpaceFor n (spaceNeeded key_length payload_length).

Definition insert (n : LinearHashingNode) (key payload : list Z) : option LinearHashingNode :=
  if negb (canInsert n (length key) (length payload)) || bool_decide (is_Some (find n key)) then None
  else
    '(res, n) ← prepareInsert n (length key) (length payload);
    if res : bool then storeKeyValue n key payload else None.

(** * Well-formed pages *)

Definition entries (n : LinearHashingNode) : list (list Z * list Z) := map (slot_entry (bytes n)) (slots n).

Definition slot_ok (n : LinearHashingNode) (s : Slot) : Prop :=
  data_offset n <= offset s /\ offset s + slot_size s <= EFFECTIVE_PAGE_SIZE /\
  fingerprint_of s = fingerprint (slot_key (bytes n) s).

Definition slot_area (s : Slot) : Z * Z := (offset s, slot_size s).

Record node_ok (n : LinearHashingNode) : Prop := NodeOk {
  no_low : slots_end (count n) <= data_offset n;
  no_slots : Forall (slot_ok n) (slots n);
  no_apart : all_apart (map slot_area (slots n));
  no_space : space_used n = total (slots n);
  no_heap : data_offset n + space_used n <= EFFECTIVE_PAGE_SIZE }.

(** The room for new records and their slots. *)
Definition room (n : LinearHashingNode) : Z := EFFECTIVE_PAGE_SIZE - slots_end (count n) - space_used n.

(** What a record takes in a page, and what a page holds. *)
Definition cost (e : list Z * list Z) : Z := sizeof_Slot + Z.of_nat (length e.1) + Z.of_nat (length e.2).
Definition weight (es : list (list Z * list Z)) : Z := foldr (fun e a => cost e + a) 0 es.
Definition capacity : Z := EFFECTIVE_PAGE_SIZE - slot_base.

(** The header fields that the operations on records leave alone. *)
Definition same_header (n n' : LinearHashingNode) : Prop :=
  overflow n' = overflow n /\ is_overflow n' = is_overflow n /\ bucket n' = bucket n.

#[export] Instance same_header_trans : Transitive same_header.
Proof. unfold same_header. intros a b c; intuition congruence. Qed.
#[export] Instance same_header_refl : Reflexive same_header.
Proof. done. Qed.

Ltac lh_consts :=
  unfold capacity, room, slots_end, slot_base, sizeof_Slot, slot_size, EFFECTIVE_PAGE_SIZE, PAGE_SIZE in *; simpl in *.

Lemma lh_weight_app a b : weight (a ++ b) = weight a + weight b.
Proof. induction a as [|e a IH]; simpl; [done|]. rewrite IH. lia. Qed.

Lemma lh_cost_pos e : sizeof_Slot <= cost e.
Proof. unfold cost, sizeof_Slot. lia. Qed.

Lemma lh_weight_nonneg es : 0 <= weight es.
Proof. induction es as [|e es IH]; simpl; [done|]. pose proof (lh_cost_pos e). unfold sizeof_Slot in *. lia. Qed.

Lemma lh_total_nonneg ss : 0 <= total ss.
Proof. induction ss as [|s ss IH]; simpl; [done|]. unfold slot_size. lia. Qed.

Lemma lh_total_app a b : total (a ++ b) = total a + total b.
Proof. induction a as [|e a IH]; simpl; [done|]. rewrite IH. lia. Qed.

Lemma lh_weight_slots m ss : weight (map (slot_entry m) ss) = sizeof_Slot * Z.of_nat (length ss) + total ss.
Proof.
  induction ss as [|s ss IH]; [done|]. simpl. rewrite IH. unfold cost, slot_entry, slot_key, slot_payload, slot_size. simpl.
  rewrite !length_read_bytes. lia.
Qed.

Lemma lh_count_entries n : count n = length (entries n).
Proof. unfold count, entries. by rewrite length_map. Qed.

(** The room of a page is a matter of its records alone. *)
Lemma lh_room_weight n : node_ok n -> room n = capacity - weight (entries n).
Proof. intros H. unfold entries, room, count, capacity. rewrite lh_weight_slots, (no_space _ H). unfold slots_end. lia. Qed.

Lemma lh_bounds n :
  node_ok n -> slot_base <= slots_end (count n) <= data_offset n /\ 0 <= space_used n /\
               data_offset n + space_used n <= EFFECTIVE_PAGE_SIZE.
Proof. intros []. rewrite no_space0. pose proof (lh_total_nonneg (slots n)). lh_consts. lia. Qed.

Lemma lh_weight_capacity n : node_ok n -> 0 <= weight (entries n) <= capacity.
Proof.
  intros H. pose proof (lh_bounds _ H). pose proof (lh_room_weight _ H). pose proof (lh_weight_nonneg (entries n)).
  unfold room in *. lia.
Qed.

Lemma lh_u16 x : 0 <= x <= EFFECTIVE_PAGE_SIZE -> u16 x = x.
Proof. intros H. apply wrap_small. unfold in_width. lh_consts. lia. Qed.

Lemma lh_freeSpace n : node_ok n -> freeSpace n = data_offset n - slots_end (count n).
Proof. intros H. pose proof (lh_bounds _ H). apply lh_u16. lh_consts. lia. Qed.

Lemma lh_freeSpaceAfterCompaction n : node_ok n -> freeSpaceAfterCompaction n = capacity - weight (entries n).
Proof.
  intros H. pose proof (lh_bounds _ H). rewrite <- lh_room_weight by done. apply lh_u16. lh_consts. lia.
Qed.

Lemma lh_spaceUsedForData n : node_ok n -> spaceUsedForData n = slot_base + weight (entries n).
Proof.
  intros H. pose proof (lh_bounds _ H). unfold spaceUsedForData. rewrite lh_u16 by (lh_consts; lia).
  unfold entries. rewrite lh_weight_slots, (no_space _ H). unfold slots_end, count. lia.
Qed.

Lemma lh_free_le n : node_ok n -> freeSpace n <= freeSpaceAfterCompaction n.
Proof.
  intros H. rewrite lh_freeSpaceAfterCompaction, lh_freeSpace, <- lh_room_weight by done.
  pose proof (lh_bounds _ H). unfold room. lia.
Qed.

Lemma lh_hasEnoughSpaceFor n x :
  node_ok n -> hasEnoughSpaceFor n x = bool_decide (x <= capacity - weight (entries n)).
Proof.
  intros H. unfold hasEnoughSpaceFor. pose proof (lh_free_le _ H). rewrite <- lh_freeSpaceAfterCompaction by done.
  case_bool_decide; zbool.
Qed.

Lemma lh_spaceNeeded k v : cost (k, v) < 65536 -> spaceNeeded (length k) (length v) = cost (k, v).
Proof. intros H. apply wrap_small. unfold in_width. unfold cost in *. lh_consts. lia. Qed.

(** A page takes a record exactly when its records and the new one fit. *)
Lemma lh_canInsert n k v :
  node_ok n -> cost (k, v) < 65536 ->
  canInsert n (length k) (length v) = bool_decide (weight (entries n) + cost (k, v) <= capacity).
Proof.
  intros H Hc. unfold canInsert. rewrite lh_spaceNeeded, lh_hasEnoughSpaceFor by done.
  apply bool_decide_ext. lia.
Qed.

(** * Appending records *)

Lemma lh_write_slot_below m off bs s :
  off + Z.of_nat (length bs) <= offset s -> slot_entry (write_bytes m off bs) s = slot_entry m s.
Proof.
  intros H. unfold slot_entry, slot_key, slot_payload. rewrite !read_write_other by lia. done.
Qed.

Lemma lh_new_node b x : node_ok (new_node b x) /\ entries (new_node b x) = [].
Proof.
  split; [|done]. constructor; done.
Qed.

Section push.
Context (n : LinearHashingNode) (key payload : list Z) (c : nat).
Context (Hok : node_ok n).
Context (Hone : slots_end (S (count n)) + Z.of_nat (length key) + Z.of_nat (length payload) <= data_offset n).
Context (Hroom : slots_end c + Z.of_nat (length key) + Z.of_nat (length payload) <= data_offset n).

Let f := fingerprint key.
Let off := data_offset n - (Z.of_nat (length key) + Z.of_nat (length payload)).
Let m' := write_bytes (write_bytes (bytes n) off key) (off + Z.of_nat (length key)) payload.
Let s' := mkSlot off (length key) (length payload) f.
Let n' := mkNode (overflow n) (is_overflow n) (bucket n)
  (space_used n + (Z.of_nat (length key) + Z.of_nat (length payload))) off (slots n ++ [s']) m'.

Lemma lh_push_eq : push n f key payload c = Some n'.
Proof.
  pose proof (lh_bounds _ Hok) as Hb. unfold push. rewrite !(lh_u16 (Z.of_nat _ + Z.of_nat _)) by (lh_consts; lia).
  rewrite !(lh_u16 (data_offset n - _)), (lh_u16 (space_used n + _)) by (lh_consts; lia). fold off.
  destruct (Z.ltb_spec off (slots_end c)); [subst off; lia|done].
Qed.

Lemma lh_push_old s : s ∈ slots n -> slot_entry m' s = slot_entry (bytes n) s.
Proof.
  intros Hs. pose proof (no_slots _ Hok) as F. rewrite list.Forall_forall in F. destruct (F s Hs) as (H1 & _).
  unfold m'. rewrite !lh_write_slot_below by (subst off; lia). done.
Qed.

Lemma lh_push_new : slot_entry m' s' = (key, payload).
Proof.
  unfold slot_entry, slot_key, slot_payload, m', s'. simpl. f_equal; [|by apply read_write_same].
  rewrite read_write_other by lia. by apply read_write_same.
Qed.

Lemma lh_push_entries : entries n' = entries n ++ [(key, payload)].
Proof.
  unfold entries. simpl. rewrite map_app. simpl. rewrite lh_push_new. f_equal.
  apply map_ext_in. intros s Hs. apply lh_push_old. by apply list_elem_of_In.
Qed.

Lemma lh_push_slot_ok s : s ∈ slots n -> slot_ok n' s.
Proof.
  intros Hs. pose proof (lh_push_old s Hs) as E. pose proof (no_slots _ Hok) as F. rewrite list.Forall_forall in F.
  destruct (F s Hs) as (H1 & H2 & H3). unfold slot_ok. simpl. split_and!; [subst off; lia|done|].
  rewrite H3. f_equal. by injection E.
Qed.

Lemma lh_push_node_ok : node_ok n'.
Proof.
  pose proof (lh_bounds _ Hok) as Hb. constructor; unfold count; simpl.
  - rewrite length_app. simpl. unfold count in *. subst off. lh_consts. lia.
  - apply Forall_app. split; [apply list.Forall_forall; intros s; apply lh_push_slot_ok|].
    constructor; [|constructor]. unfold slot_ok, n', slot_size. simpl. split_and!; [done|subst off; lia|].
    unfold s'. simpl. pose proof lh_push_new as E. unfold slot_entry in E. injection E as E _. fold s'. by rewrite E.
  - rewrite map_app. simpl. rewrite <- Permutation_cons_append. apply all_apart_cons. split; [|apply Hok].
    apply Forall_fmap, list.Forall_forall. intros s Hs. pose proof (no_slots _ Hok) as F.
    rewrite list.Forall_forall in F. destruct (F s Hs) as (H1 & _). left. unfold slot_area, slot_size. simpl. subst off. lia.
  - rewrite lh_total_app, (no_space _ Hok). simpl. unfold slot_size. simpl. lia.
  - subst off. lia.
Qed.

Lemma lh_push : exists n1, push n f key payload c = Some n1 /\ node_ok n1 /\
  entries n1 = entries n ++ [(key, payload)] /\ same_header n n1 /\
  data_offset n1 = data_offset n - (Z.of_nat (length key) + Z.of_nat (length payload)).
Proof. exists n'. split_and!; [apply lh_push_eq|apply lh_push_node_ok|apply lh_push_entries|done|done]. Qed.

End push.

Lemma lh_slot_fingerprint n s : node_ok n -> s ∈ slots n -> fingerprint_of s = fingerprint (slot_key (bytes n) s).
Proof. intros H Hs. pose proof (no_slots _ H) as F. rewrite list.Forall_forall in F. apply (F s Hs). Qed.

(** Copying slots appends their records. *)
Lemma lh_copy_slots m ss dst c :
  node_ok dst -> (count dst + length ss <= c)%nat -> slots_end c + total ss <= data_offset dst ->
  Forall (fun s => fingerprint_of s = fingerprint (slot_key m s)) ss ->
  exists dst', copy_slots m dst ss c = Some dst' /\ node_ok dst' /\
    entries dst' = entries dst ++ map (slot_entry m) ss /\ same_header dst dst' /\
    data_offset dst' = data_offset dst - total ss.
Proof.
  revert dst. induction ss as [|s ss IH]; intros dst Hok Hc Ht F.
  { exists dst. simpl. rewrite app_nil_r, Z.sub_0_r. done. }
  inversion F as [|? ? Ff F']; subst. simpl in *. pose proof (lh_total_nonneg ss).
  assert (slot_size s = Z.of_nat (length (slot_key m s)) + Z.of_nat (length (slot_payload m s))) as Es.
  { unfold slot_key, slot_payload, slot_size. by rewrite !length_read_bytes. }
  destruct (lh_push dst (slot_key m s) (slot_payload m s) c Hok) as (d1 & E1 & H1 & Ee & Eh & Ed);
    [unfold slots_end, sizeof_Slot in *; lia|lia|].
  assert (count d1 = S (count dst)) as Ec by (rewrite !lh_count_entries, Ee, length_app; simpl; lia).
  destruct (IH d1) as (d2 & E2 & H2 & Ee2 & Eh2 & Ed2); [done|lia|lia|done|].
  exists d2. rewrite Ff, E1. simpl. split_and!; [done|done| |by etransitivity|lia].
  rewrite Ee2, Ee, <- app_assoc. done.
Qed.

Lemma lh_copyKeyValueRange src dst :
  node_ok src -> node_ok dst -> slots_end (count dst) + weight (entries src) <= data_offset dst ->
  exists dst', copyKeyValueRange src dst = Some dst' /\ node_ok dst' /\
    entries dst' = entries dst ++ entries src /\ same_header dst dst' /\
    data_offset dst' = data_offset dst - space_used src.
Proof.
  intros Hs Hd Hw. unfold copyKeyValueRange. rewrite <- (no_space _ Hs), Z.eqb_refl. simpl.
  unfold entries in Hw. rewrite lh_weight_slots, <- (no_space _ Hs) in Hw.
  destruct (lh_copy_slots (bytes src) (slots src) dst (count dst + count src)%nat Hd) as (d & E & H & Ee & Eh & Ed).
  - done.
  - rewrite <- (no_space _ Hs). unfold count, slots_end, sizeof_Slot in *. lia.
  - apply list.Forall_forall. intros s. by apply lh_slot_fingerprint.
  - exists d. rewrite E. simpl. pose proof (no_low _ H). zbool. rewrite <- (no_space _ Hs) in Ed. done.
Qed.

(** [compactify] keeps the records and makes all the room there is. *)
Lemma lh_compactify n :
  node_ok n -> exists n', compactify n = Some n' /\ node_ok n' /\ entries n' = entries n /\ same_header n n' /\
    freeSpace n' = capacity - weight (entries n).
Proof.
  intros H. pose proof (lh_weight_capacity _ H) as Hw. unfold compactify.
  destruct (lh_new_node (is_overflow n) (bucket n)) as [H0 E0].
  destruct (lh_copyKeyValueRange n (new_node (is_overflow n) (bucket n)) H H0) as (d & E & Hd & Ee & Eh & Ed).
  { change (slot_base + sizeof_Slot * 0 + weight (entries n) <= EFFECTIVE_PAGE_SIZE). unfold capacity in *. lia. }
  rewrite E. simpl. rewrite E0 in Ee. simpl in Ee. set (n' := set_overflow d (overflow n)).
  assert (node_ok n') as Hn' by (destruct Hd; constructor; assumption).
  assert (entries n' = entries n) as En' by (rewrite <- Ee; done).
  assert (freeSpace n' = capacity - weight (entries n)) as Ef.
  { rewrite lh_freeSpace, lh_count_entries, En', <- lh_count_entries, <- (lh_room_weight _ H) by done.
    simpl. rewrite Ed. change (data_offset _) with EFFECTIVE_PAGE_SIZE. unfold room. lia. }
  rewrite Ef, lh_freeSpaceAfterCompaction by done. rewrite Z.eqb_refl. exists n'.
  destruct Eh as (_ & ? & ?). done.
Qed.

Lemma lh_requestSpaceFor n x :
  node_ok n -> x <= capacity - weight (entries n) ->
  exists n', requestSpaceFor n x = Some (true, n') /\ node_ok n' /\ entries n' = entries n /\ same_header n n' /\
    x <= freeSpace n'.
Proof.
  intros H Hx. unfold requestSpaceFor. destruct (Z.leb_spec x (freeSpace n)) as [Hf|Hf]; [by exists n|].
  rewrite lh_freeSpaceAfterCompaction by done. destruct (Z.leb_spec x (capacity - weight (entries n))); [|lia].
  destruct (lh_compactify n H) as (n' & -> & H' & Ee & Eh & Ef). exists n'. rewrite Ef. done.
Qed.

(** * Searching *)

Lemma lh_cmpKeys a b : cmpKeys a b = bool_decide (a = b).
Proof.
  unfold cmpKeys. case_bool_decide as E; [by rewrite E, Nat.eqb_refl|]. apply andb_false_r.
Qed.

Definition find_entry (es : list (list Z * list Z)) (key : list Z) : option nat :=
  fst <$> list_find (fun e => e.1 = key) es.

(** Fingerprints do not change the result: [find] is the first slot of the key. *)
Lemma lh_find n key : node_ok n -> find n key = find_entry (entries n) key.
Proof.
  intros H. unfold find, find_entry, entries.
  assert (forall ss i, Forall (fun s => fingerprint_of s = fingerprint (slot_key (bytes n) s)) ss ->
    find_from (bytes n) ss key i = (fun j => (i + j)%nat) <$> (fst <$> list_find (fun e => e.1 = key) (map (slot_entry (bytes n)) ss))) as G.
  { induction ss as [|s ss IH]; intros i F; [done|]. inversion F as [|? ? Ff F']; subst. simpl. rewrite lh_cmpKeys, Ff.
    case_decide as E.
    - rewrite E, bool_decide_true, Z.eqb_refl by done. simpl. f_equal. lia.
    - rewrite (bool_decide_false (key = _)), andb_false_r by congruence. rewrite IH by done.
      destruct (list_find _ _) as [[j e]|]; simpl; [f_equal; lia|done]. }
  rewrite G by (apply list.Forall_forall; intros s; by apply lh_slot_fingerprint).
  by destruct (list_find _ _).
Qed.

Lemma lh_find_entry_Some es key i : find_entry es key = Some i -> exists v, es !! i = Some (key, v).
Proof.
  unfold find_entry. intros ([j [k v]] & Hf & ->)%fmap_Some.
  apply list_find_Some in Hf as (H & E & _). simpl in *. subst. eauto.
Qed.

Lemma lh_find_entry_None es key : find_entry es key = None <-> key ∉ es.*1.
Proof.
  unfold find_entry. rewrite fmap_None, list_find_None, list.Forall_forall, list_elem_of_fmap. split.
  - intros H ([k v] & -> & He). by apply (H _ He).
  - intros H [k v] He E. simpl in E. subst. apply H. by exists (key, v).
Qed.

Lemma lh_insert n key payload :
  node_ok n -> weight (entries n) + cost (key, payload) <= capacity -> key ∉ (entries n).*1 ->
  exists n', insert n key payload = Some n' /\ node_ok n' /\ entries n' = entries n ++ [(key, payload)] /\ same_header n n'.
Proof.
  intros H Hw Hk. pose proof (lh_weight_capacity _ H). unfold insert.
  assert (cost (key, payload) < 65536) as Hc by (lh_consts; lia).
  rewrite lh_canInsert, bool_decide_true, lh_find by done. rewrite (proj2 (lh_find_entry_None _ _) Hk).
  rewrite bool_decide_false by (intros [? ?]; done). simpl. unfold prepareInsert. rewrite lh_spaceNeeded by done.
  destruct (lh_requestSpaceFor n (cost (key, payload)) H) as (n1 & -> & H1 & E1 & Eh1 & Ef); [lia|]. simpl.
  unfold storeKeyValue. rewrite lh_freeSpace in Ef by done.
  destruct (lh_push n1 key payload (count n1) H1) as (n2 & -> & H2 & E2 & Eh2 & _);
    [unfold cost, slots_end, sizeof_Slot in *; simpl in *; lia..|].
  exists n2. rewrite E2, E1. split_and!; try done. by etransitivity.
Qed.

(** * Changing records in place *)

Lemma lh_entries_lookup n i : entries n !! i = slot_entry (bytes n) <$> slots n !! i.
Proof. apply list_lookup_fmap. Qed.

Lemma lh_removeSlot n i e :
  node_ok n -> entries n !! i = Some e ->
  exists n', removeSlot n i = Some n' /\ node_ok n' /\ entries n' = delete i (entries n) /\ same_header n n'.
Proof.
  intros H. rewrite lh_entries_lookup. intros (s & Hs & ->)%fmap_Some. unfold removeSlot. rewrite Hs. simpl.
  pose proof (lh_bounds _ H) as Hb. pose proof (take_drop_middle _ _ _ Hs) as Ed.
  assert (delete i (slots n) = take i (slots n) ++ drop (S i) (slots n)) as Edel by apply delete_take_drop.
  assert (total (slots n) = slot_size s + total (delete i (slots n))) as Et.
  { rewrite <- Ed at 1. rewrite Edel, !lh_total_app. simpl. lia. }
  pose proof (lh_total_nonneg (delete i (slots n))). pose proof (no_space _ H) as Hsp.
  assert (0 <= slot_size s) by (unfold slot_size; lia).
  assert (length (delete i (slots n)) < count n)%nat as Hl.
  { rewrite length_delete by eauto. unfold count. apply lookup_lt_Some in Hs. lia. }
  rewrite lh_u16 by (unfold slot_base in *; lia). eexists. split_and!; [done| | |done].
  - constructor; unfold count; cbn [set_slots set_heap slots data_offset space_used].
    + unfold slots_end, sizeof_Slot in *. lia.
    + pose proof (no_slots _ H) as F. rewrite <- Ed in F. rewrite Edel. apply Forall_app in F as [F1 F2]. inversion F2; subst.
      by apply Forall_app.
    + pose proof (no_apart _ H) as A. rewrite <- Ed, map_app in A. simpl in A. rewrite <- Permutation_middle in A.
      apply all_apart_cons in A as [_ A]. by rewrite Edel, map_app.
    + lia.
    + lia.
  - unfold entries. simpl. rewrite !delete_take_drop, map_app. f_equal; [apply fmap_take|apply fmap_drop].
Qed.

Section write.
Context (n : LinearHashingNode) (i : nat) (s : Slot) (payload : list Z).
Context (Hok : node_ok n) (Hs : slots n !! i = Some s) (Hlen : length payload = payload_len s).

Lemma lh_write_other j s' : slots n !! j = Some s' -> j <> i ->
  slot_entry (bytes (write_payload n s payload)) s' = slot_entry (bytes n) s'.
Proof.
  intros Hj Hn. assert (apart (slot_area s') (slot_area s)) as A.
  { apply (no_apart _ Hok j i); [..|done]; rewrite list_lookup_fmap; [by rewrite Hj|by rewrite Hs]. }
  unfold apart, slot_area, slot_size in A. simpl in A.
  unfold slot_entry, slot_key, slot_payload. simpl. rewrite !read_write_other by lia. done.
Qed.

Lemma lh_write_self : slot_entry (bytes (write_payload n s payload)) s = (slot_key (bytes n) s, payload).
Proof.
  unfold slot_entry, slot_key, slot_payload. simpl. rewrite read_write_other by lia. by rewrite read_write_same.
Qed.

Lemma lh_write_entries : entries (write_payload n s payload) = <[i := (slot_key (bytes n) s, payload)]> (entries n).
Proof.
  apply list_eq. intros j. rewrite lh_entries_lookup. destruct (decide (j = i)) as [->|Hn].
  - rewrite list_lookup_insert_eq by (unfold entries; rewrite length_map; by eapply lookup_lt_Some).
    change (slots (write_payload n s payload)) with (slots n). rewrite Hs. exact (f_equal Some lh_write_self).
  - rewrite list_lookup_insert_ne, lh_entries_lookup by done. change (slots (write_payload n s payload)) with (slots n).
    destruct (slots n !! j) as [s'|] eqn:Hj; [|done]. exact (f_equal Some (lh_write_other j s' Hj Hn)).
Qed.

Lemma lh_write_node_ok : node_ok (write_payload n s payload).
Proof.
  pose proof (no_slots _ Hok) as F. destruct Hok. constructor; try done.
  apply Forall_lookup. intros j s' Hj. rewrite Forall_lookup in F. destruct (F j s' Hj) as (H1 & H2 & H3).
  unfold slot_ok. split_and!; [done|done|]. rewrite H3. f_equal. destruct (decide (j = i)) as [->|Hn].
  - assert (s' = s) as -> by (simpl in Hj; congruence). pose proof lh_write_self as E. unfold slot_entry in E. by injection E.
  - pose proof (lh_write_other j s' Hj Hn) as E. unfold slot_entry in E. by injection E.
Qed.

End write.

Lemma lh_write_payload n i k v v' :
  node_ok n -> entries n !! i = Some (k, v) -> length v' = length v ->
  exists s, slots n !! i = Some s /\ slot_key (bytes n) s = k /\ slot_payload (bytes n) s = v /\
    payload_len s = length v /\
    node_ok (write_payload n s v') /\ entries (write_payload n s v') = <[i := (k, v')]> (entries n).
Proof.
  intros H. rewrite lh_entries_lookup. intros (s & Hs & E)%fmap_Some Hl. unfold slot_entry in E. injection E as -> ->.
  assert (length (slot_payload (bytes n) s) = payload_len s) as El by apply length_read_bytes. rewrite El in *. exists s.
  split_and!; try done; [by eapply lh_write_node_ok|by apply lh_write_entries].
Qed.

Lemma lh_update n i s v' :
  slots n !! i = Some s -> length v' = payload_len s -> update n i (slot_key (bytes n) s) v' = Some (write_payload n s v').
Proof.
  intros Hs Hl. unfold update. rewrite Hs. simpl. rewrite bool_decide_true, Hl, Nat.eqb_refl by done.
  unfold slot_key. by rewrite length_read_bytes, Nat.eqb_refl.
Qed.

End node.
