(* ===== verification/LinearHashing.v ===== *)
(** The linear hash table over pages of the buffer manager
    (src/backend/leanstore/storage/hashing/LinearHashing.hpp and .cpp).

    A bucket is a chain of pages: a directory slot points to the first one,
    each page to its overflow page.  The split pointer is one word that packs
    the round ([power]) and the number of buckets; a bucket below the split
    pointer has been split in this round, and its keys are found with one more
    hash bit.

    The operations run alone: optimistic guards and rechecks always succeed,
    and swips are the addresses of resident frames.  [free] stands for the
    frames that [allocatePage] hands out.  [None] is an assertion that fires,
    an access out of bounds, or a loop that spins for ever without another
    thread (an empty bucket pointer, no free frame, a round that is over).
    Assertions that compare a page with what the callee has just done to it
    ([cnt + 1 == count]) are left to the lemmas on pages. *)
From stdpp Require Import gmap.
From S2P Require Import Prelude BTreeNode LinearHashingNode.
Local Open Scope Z_scope.

(** * The split pointer *)

Definition N : Z := 128.
Definition kPowerBits : Z := 8.
Definition kPowerOffset : Z := 64 - 8.
Definition kPowerMask : Z := Z.shiftl (Z.shiftl 1 kPowerBits - 1) kPowerOffset.
Definition kBuddyBucketBits : Z := 64 - kPowerBits.
Definition kBuddyBucketMask : Z := Z.shiftl 1 kBuddyBucketBits - 1.

Definition make_word (power buddy_bucket : Z) : Z := Z.lor (u64 (Z.shiftl power kPowerOffset)) buddy_bucket.
Definition load_power (w : Z) : Z := u32 (Z.shiftr (Z.land kPowerMask w) kPowerOffset).
Definition load_buddy_bucket (w : Z) : Z := u32 (Z.land kBuddyBucketMask w).

(** [LUT[i]]; an index beyond the table has no result. *)
Definition power2_LUT : list Z :=
  [1; 2; 4; 8; 16; 32; 64; 128; 256; 512; 1024; 2048; 4096; 8192; 16384; 32768].
Definition power2 (i : Z) : option Z := if i <? 0 then None else power2_LUT !! Z.to_nat i.

(** * The table *)

Record Stats := mkStats {
  splits : Z; split_length : Z; split_left_length : Z; split_right_length : Z; split_length_bytes : Z;
  overflow_pages_added : Z; merge_chains : Z }.

Record LinearHashTable := mkTable {
  sp : Z;
  this_round_started_splits : Z;
  this_round_finished_splits : Z;
  this_round_split_target : Z;
  data_stored : Z;
  data_pages : Z;
  stats : Stats;
  dirNodes : list (list Z);            (* the [idx] directory nodes, each its bucket pointers *)
  pages : gmap Z LinearHashingNode;    (* the table's pages, by frame *)
  free : list Z }.                     (* free frames of the buffer manager *)

Definition with_sp (t : LinearHashTable) (w : Z) : LinearHashTable :=
  mkTable w (this_round_started_splits t) (this_round_finished_splits t) (this_round_split_target t)
    (data_stored t) (data_pages t) (stats t) (dirNodes t) (pages t) (free t).
Definition with_round (t : LinearHashTable) (st fi ta : Z) : LinearHashTable :=
  mkTable (sp t) st fi ta (data_stored t) (data_pages t) (stats t) (dirNodes t) (pages t) (free t).
Definition with_data_stored (t : LinearHashTable) (d : Z) : LinearHashTable :=
  mkTable (sp t) (this_round_started_splits t) (this_round_finished_splits t) (this_round_split_target t)
    d (data_pages t) (stats t) (dirNodes t) (pages t) (free t).
Definition with_data_pages (t : LinearHashTable) (d : Z) : LinearHashTable :=
  mkTable (sp t) (this_round_started_splits t) (this_round_finished_splits t) (this_round_split_target t)
    (data_stored t) d (stats t) (dirNodes t) (pages t) (free t).
Definition with_stats (t : LinearHashTable) (s : Stats) : LinearHashTable :=
  mkTable (sp t) (this_round_started_splits t) (this_round_finished_splits t) (this_round_split_target t)
    (data_stored t) (data_pages t) s (dirNodes t) (pages t) (free t).
Definition with_dirNodes (t : LinearHashTable) (ds : list (list Z)) : LinearHashTable :=
  mkTable (sp t) (this_round_started_splits t) (this_round_finished_splits t) (this_round_split_target t)
    (data_stored t) (data_pages t) (stats t) ds (pages t) (free t).
Definition with_pages (t : LinearHashTable) (ps : gmap Z LinearHashingNode) : LinearHashTable :=
  mkTable (sp t) (this_round_started_splits t) (this_round_finished_splits t) (this_round_split_target t)
    (data_stored t) (data_pages t) (stats t) (dirNodes t) ps (free t).
Definition with_free (t : LinearHashTable) (fs : list Z) : LinearHashTable :=
  mkTable (sp t) (this_round_started_splits t) (this_round_finished_splits t) (this_round_split_target t)
    (data_stored t) (data_pages t) (stats t) (dirNodes t) (pages t) fs.

(** [allocatePage] and [reclaim]. *)
Definition alloc (t : LinearHashTable) : option (Z * LinearHashTable) :=
  match free t with
  | [] => None
  | f :: fs => Some (f, with_free t fs)
  end.
Definition reclaim (t : LinearHashTable) (f : Z) : LinearHashTable :=
  with_free (with_pages t (delete f (pages t))) (f :: free t).

Definition write_page (t : LinearHashTable) (f : Z) (n : LinearHashingNode) : LinearHashTable :=
  with_pages t (<[f := n]> (pages t)).

(** * The mapping table *)

Definition kDirNodeBucketPtrCount : Z := EFFECTIVE_PAGE_SIZE / 8 / 4.
Definition kArraySize : Z := 8192.

Definition numSlots (t : LinearHashTable) : Z := Z.of_nat (length (dirNodes t)) * kDirNodeBucketPtrCount.

(** A directory node without buckets. *)
Definition empty_dir : list Z := replicate (Z.to_nat kDirNodeBucketPtrCount) 0.

(** One more directory node, in a frame of its own that is never given back. *)
Definition add_dirNode (t : LinearHashTable) : option LinearHashTable :=
  '(_, t) ← alloc t;
  if Z.of_nat (length (dirNodes t)) <? kArraySize
  then Some (with_dirNodes t (dirNodes t ++ [empty_dir]))
  else None.

Fixpoint getDirNode_loop (fuel : nat) (t : LinearHashTable) (bucket_id : Z) : option LinearHashTable :=
  if bucket_id <? numSlots t then Some t
  else match fuel with
       | O => None
       | S fuel => t ← add_dirNode t; getDirNode_loop fuel t bucket_id
       end.

(** The directory node of a bucket is the entry [bucket_id / kDirNodeBucketPtrCount]. *)
Definition getDirNode (t : LinearHashTable) (bucket_id : Z) : option LinearHashTable :=
  getDirNode_loop (S (Z.to_nat (bucket_id / kDirNodeBucketPtrCount))) t bucket_id.

(** [bucketPtrs[b % kDirNodeBucketPtrCount]] of the bucket's directory node. *)
Definition bucketPtr (t : LinearHashTable) (b : Z) : option Z :=
  d ← dirNodes t !! Z.to_nat (b / kDirNodeBucketPtrCount);
  d !! Z.to_nat (b mod kDirNodeBucketPtrCount).
Definition set_bucketPtr (t : LinearHashTable) (b f : Z) : LinearHashTable :=
  with_dirNodes t (alter (fun d => <[Z.to_nat (b mod kDirNodeBucketPtrCount) := f]> d)
                     (Z.to_nat (b / kDirNodeBucketPtrCount)) (dirNodes t)).

Inductive OP_RESULT := OK | NOT_FOUND | DUPLICATE | ABORT_TX | NOT_ENOUGH_SPACE | OTHER.

Section table.
Context (XXH : list Z -> Z) (hash_func : list Z -> Z) (ndebug : bool).

Local Abbreviation find := (LinearHashingNode.find XXH).
Local Abbreviation node_insert := (LinearHashingNode.insert XXH).

Definition hash (key : list Z) (i : Z) : option Z := p ← power2 i; Some (hash_func key mod u64 (p * N)).

(** The bucket of a key, as every operation computes it first. *)
Definition find_bucket (t : LinearHashTable) (key : list Z) : option Z :=
  let local_i := load_power (sp t) in
  let buddy_bucket := load_buddy_bucket (sp t) in
  bucket ← hash key local_i;
  p ← power2 local_i;
  if buddy_bucket <? p * N then None
  else if bucket <? buddy_bucket - p * N then hash key (local_i + 1)
  else Some bucket.

(** The bucket's first page; a null pointer is retried for ever. *)
Definition bucket_head (t : LinearHashTable) (bucket : Z) : option (Z * LinearHashTable) :=
  t ← getDirNode t bucket;
  f ← bucketPtr t bucket;
  if f =? 0 then None else Some (f, t).

(** No chain is longer than the number of pages. *)
Definition chain_fuel (t : LinearHashTable) : nat := S (size (pages t)).

(** ** Searching a chain

    The page and the slot of the key, or the last page of the chain. *)
Fixpoint chain_find (fuel : nat) (ps : gmap Z LinearHashingNode) (f : Z) (key : list Z) : option (Z * nat + Z) :=
  match fuel with
  | O => None
  | S fuel =>
      n ← ps !! f;
      match find n key with
      | Some slot => Some (inl (f, slot))
      | None => if overflow n =? 0 then Some (inr f) else chain_find fuel ps (overflow n) key
      end
  end.

(** [lookup]: the payload that the callback sees. *)
Definition lookup (t : LinearHashTable) (key : list Z) : option (option (list Z) * LinearHashTable) :=
  bucket ← find_bucket t key;
  '(f, t) ← bucket_head t bucket;
  r ← chain_find (chain_fuel t) (pages t) f key;
  match r with
  | inl (f, slot) => n ← pages t !! f; s ← slots n !! slot; Some (Some (slot_payload (bytes n) s), t)
  | inr _ => Some (None, t)
  end.

(** [lookupForUpdate]: the callback rewrites the payload in place. *)
Definition lookupForUpdate (t : LinearHashTable) (key : list Z) (cb : list Z -> list Z) :
    option (OP_RESULT * LinearHashTable) :=
  bucket ← find_bucket t key;
  '(f, t) ← bucket_head t bucket;
  r ← chain_find (chain_fuel t) (pages t) f key;
  match r with
  | inl (f, slot) =>
      n ← pages t !! f; s ← slots n !! slot;
      Some (OK, write_page t f (write_payload n s (cb (slot_payload (bytes n) s))))
  | inr _ => Some (NOT_FOUND, t)
  end.

(** ** Growing a chain *)

Definition store_bytes (t : LinearHashTable) (key value : list Z) : LinearHashTable :=
  with_data_stored t (u64 (data_stored t + (Z.of_nat (length key) + Z.of_nat (length value)))).
Definition unstore_bytes (t : LinearHashTable) (s : Slot) : LinearHashTable :=
  with_data_stored t (u64 (data_stored t - slot_size s)).

Definition insert_at (t : LinearHashTable) (f : Z) (key value : list Z) : option LinearHashTable :=
  n ← pages t !! f;
  n ← node_insert n key value;
  Some (store_bytes (write_page t f n) key value).

(** An overflow page with the record behind the last page of the chain. *)
Definition add_overflow (t : LinearHashTable) (last bucket : Z) (key value : list Z) : option LinearHashTable :=
  '(f, t) ← alloc t;
  o ← node_insert (new_node true bucket) key value;
  n ← pages t !! last;
  if negb (overflow n =? 0) then None
  else
    let t := write_page (store_bytes t key value) f o in
    let t := write_page t last (set_overflow n f) in
    let t := with_data_pages t (data_pages t + 1) in
    if data_pages t <? 0 then None else Some t.

(** ** Splitting a bucket *)

(** [current_load_factor() > kSplitLoadFactor], without the division. *)
Definition overloaded (t : LinearHashTable) : bool :=
  16 * (load_buddy_bucket (sp t) * EFFECTIVE_PAGE_SIZE) <? 10 * data_stored t.

Definition kNTempNodes : nat := 10.

(** The pages of the bucket, latched one by one into a vector of [room] guards. *)
Fixpoint lock_chain (room : nat) (ps : gmap Z LinearHashingNode) (f : Z) : option (list Z) :=
  match room with
  | O => None
  | S room =>
      n ← ps !! f;
      if overflow n =? 0 then Some [f] else fs ← lock_chain room ps (overflow n); Some (f :: fs)
  end.

(** Put a record into the last of the temporary pages (the head of the list),
    or into a new one. *)
Definition tmp_insert (bucket : Z) (tmp : list LinearHashingNode) (key payload : list Z) :
    option (list LinearHashingNode) :=
  match tmp with
  | [] => None
  | back :: rest =>
      if canInsert back (length key) (length payload)
      then back ← node_insert back key payload; Some (back :: rest)
      else n ← node_insert (new_node true bucket) key payload; Some (n :: back :: rest)
  end.

Fixpoint partition (i split_bucket buddy_bucket : Z) (es : list (list Z * list Z))
    (split_tmp buddy_tmp : list LinearHashingNode) : option (list LinearHashingNode * list LinearHashingNode) :=
  match es with
  | [] => Some (rev split_tmp, rev buddy_tmp)
  | (key, payload) :: es =>
      original_bucket ← hash key i;
      target_bucket ← hash key (i + 1);
      if negb (original_bucket =? split_bucket) then None
      else if target_bucket =? split_bucket then
        split_tmp ← tmp_insert split_bucket split_tmp key payload;
        partition i split_bucket buddy_bucket es split_tmp buddy_tmp
      else if target_bucket =? buddy_bucket then
        buddy_tmp ← tmp_insert buddy_bucket buddy_tmp key payload;
        partition i split_bucket buddy_bucket es split_tmp buddy_tmp
      else None
  end.

(** The pages of the split bucket get the contents of its temporary pages;
    the last one ends the chain. *)
Fixpoint write_split (ps : gmap Z LinearHashingNode) (fs : list Z) (tmp : list LinearHashingNode) :
    option (gmap Z LinearHashingNode) :=
  match tmp, fs with
  | [], _ => Some ps
  | _ :: _, [] => None
  | n :: tmp', f :: fs' =>
      old ← ps !! f;
      let n := set_is_overflow n (is_overflow old) in
      let n := set_overflow n (match tmp' with [] => 0 | _ => overflow old end) in
      write_split (<[f := n]> ps) fs' tmp'
  end.

(** The pages of the buddy bucket, linked as they are written. *)
Fixpoint write_buddy (ps : gmap Z LinearHashingNode) (bucket : Z) (prev : option Z) (fs : list Z)
    (tmp : list LinearHashingNode) : option (gmap Z LinearHashingNode) :=
  match tmp, fs with
  | [], _ => Some ps
  | _ :: _, [] => None
  | n :: tmp', f :: fs' =>
      let n := set_bucket (set_is_overflow (set_overflow n 0) (bool_decide (is_Some prev))) bucket in
      let ps := <[f := n]> ps in
      ps ← match prev with
           | None => Some ps
           | Some g => p ← ps !! g; Some (<[g := set_overflow p f]> ps)
           end;
      write_buddy ps bucket (Some f) fs' tmp'
  end.

(** Give back the pages that neither chain needs, after the check
    [assert(false)] of line 1440 that they do not come from the split bucket.
    [ndebug] says that this one assertion is compiled out; every other assertion
    of the table fails the operation whatever the build. *)
Fixpoint release (t : LinearHashTable) (original fs : list Z) : option LinearHashTable :=
  match fs with
  | [] => Some t
  | f :: fs =>
      if negb ndebug && bool_decide (f ∈ original) then None
      else
        let t := with_data_pages (reclaim t f) (data_pages t - 1) in
        if data_pages t <? 0 then None else release t original fs
  end.

(** Add the temporary page [temp] to the guards if the buddy needs it. *)
Definition use_temp (t : LinearHashTable) (temp : Z) (guards : list Z) (n_split n_buddy : nat) :
    LinearHashTable * list Z * list Z :=
  if (length guards - n_split <? n_buddy)%nat
  then (with_data_pages (write_page t temp (new_node false 0)) (data_pages t + 1), guards ++ [temp], [])
  else (t, guards, [temp]).

(** The end of a round. *)
Definition finish_split (t : LinearHashTable) : option LinearHashTable :=
  let t := with_round t (this_round_started_splits t) (this_round_finished_splits t + 1) (this_round_split_target t) in
  if this_round_started_splits t <? this_round_finished_splits t then None
  else if (this_round_finished_splits t =? this_round_started_splits t) &&
          (this_round_started_splits t =? this_round_split_target t) then
    let new_power := load_power (sp t) + 1 in
    p ← power2 new_power;
    let w := make_word (load_power (sp t)) (load_buddy_bucket (sp t)) in
    let t := with_round t 0 0 (N * p) in
    if sp t =? w then Some (with_sp t (make_word new_power (load_buddy_bucket w))) else None
  else Some t.

Definition chain_entries (ps : gmap Z LinearHashingNode) (fs : list Z) : list (list Z * list Z) :=
  concat (map (fun f => default [] (entries <$> ps !! f)) fs).

Definition add_stats (s : Stats) (original left right : nat) (bytes : Z) : Stats :=
  mkStats (u64 (splits s + 1)) (u64 (split_length s + Z.of_nat original)) (u64 (split_left_length s + Z.of_nat left))
    (u64 (split_right_length s + Z.of_nat right)) (u64 (split_length_bytes s + bytes))
    (overflow_pages_added s) (merge_chains s).

(** The pages of the split bucket [fs] move to two chains; the buddy's first
    page is linked into the directory. *)
Definition move_pages (t : LinearHashTable) (split_bucket buddy_bucket : Z) (fs : list Z)
    (split_tmp buddy_tmp : list LinearHashingNode) (temp1 temp2 : Z) : option LinearHashTable :=
  let n_split := length split_tmp in
  let n_buddy := length buddy_tmp in
  if (length fs <? n_split)%nat then None
  else
    ps ← write_split (pages t) fs split_tmp;
    let '(t, guards, unused1) := use_temp (with_pages t ps) temp1 fs n_split n_buddy in
    let '(t, guards, unused2) := use_temp t temp2 guards n_split n_buddy in
    if (data_pages t <? 0) || (length guards - n_split <? n_buddy)%nat || (kNTempNodes <? length guards)%nat then None
    else
      ps ← write_buddy (pages t) buddy_bucket None (drop n_split guards) buddy_tmp;
      t ← finish_split (with_pages t ps);
      head ← drop n_split guards !! 0%nat;
      old ← bucketPtr t buddy_bucket;
      if negb (old =? 0) then None
      else
        t ← release (set_bucketPtr t buddy_bucket head) fs (drop (n_buddy + n_split) guards);
        Some (with_free t (unused1 ++ unused2 ++ free t)).

Definition split (t : LinearHashTable) : option LinearHashTable :=
  let local_i := load_power (sp t) in
  let buddy_bucket := load_buddy_bucket (sp t) in
  if this_round_split_target t <? this_round_started_splits t + 1 then None
  else if negb (sp t =? make_word local_i buddy_bucket) then None
  else
    let t := with_sp t (make_word local_i (u32 (buddy_bucket + 1))) in
    p ← power2 local_i;
    if buddy_bucket <? p * N then None
    else
      let split_bucket := buddy_bucket - p * N in
      let t := with_round t (this_round_started_splits t + 1) (this_round_finished_splits t) (this_round_split_target t) in
      t ← getDirNode t split_bucket;
      t ← getDirNode t buddy_bucket;
      '(temp1, t) ← alloc t;
      '(temp2, t) ← alloc t;
      first ← bucketPtr t split_bucket;
      fs ← lock_chain kNTempNodes (pages t) first;
      '(split_tmp, buddy_tmp) ← partition local_i split_bucket buddy_bucket (chain_entries (pages t) fs)
        [new_node false split_bucket] [new_node false buddy_bucket];
      let used := foldr (fun f a => default 0 (spaceUsedForData <$> pages t !! f) + a) 0 fs in
      let t := with_stats t (add_stats (stats t) (length fs) (length split_tmp) (length buddy_tmp) used) in
      move_pages t split_bucket buddy_bucket fs split_tmp buddy_tmp temp1 temp2.

Definition split_if_overloaded (t : LinearHashTable) : option LinearHashTable :=
  if overloaded t then split t else Some t.

(** ** Insertion *)

(** The first page of the chain with room for the record, or the last page. *)
Fixpoint chain_room (fuel : nat) (ps : gmap Z LinearHashingNode) (f : Z) (key_length value_length : nat) :
    option (Z + Z) :=
  match fuel with
  | O => None
  | S fuel =>
      n ← ps !! f;
      if canInsert n key_length value_length then Some (inl f)
      else if overflow n =? 0 then Some (inr f)
      else chain_room fuel ps (overflow n) key_length value_length
  end.

Definition count_overflow (t : LinearHashTable) : LinearHashTable :=
  let s := stats t in
  with_stats t (mkStats (splits s) (split_length s) (split_left_length s) (split_right_length s) (split_length_bytes s)
                  (u64 (overflow_pages_added s + 1)) (merge_chains s)).

Definition insert (t : LinearHashTable) (key value : list Z) : option (OP_RESULT * LinearHashTable) :=
  bucket ← find_bucket t key;
  '(f, t) ← bucket_head t bucket;
  r ← chain_room (chain_fuel t) (pages t) f (length key) (length value);
  t ← match r with
      | inl f => insert_at t f key value
      | inr last => t ← add_overflow t last bucket key value; Some (count_overflow t)
      end;
  t ← split_if_overloaded t;
  Some (OK, t).

Definition insert_might_fail (t : LinearHashTable) (key value : list Z) : option (OP_RESULT * LinearHashTable) :=
  bucket ← find_bucket t key;
  '(f, t) ← bucket_head t bucket;
  r ← chain_room (chain_fuel t) (pages t) f (length key) (length value);
  match r with
  | inl f => t ← insert_at t f key value; Some (OK, t)
  | inr _ => Some (NOT_ENOUGH_SPACE, t)
  end.

(** [upsert]: an update in place for a present key of the same payload
    length; a new key goes to the last page or behind it. *)
Definition upsert (t : LinearHashTable) (key value : list Z) : option (OP_RESULT * LinearHashTable) :=
  bucket ← find_bucket t key;
  '(f, t) ← bucket_head t bucket;
  r ← chain_find (chain_fuel t) (pages t) f key;
  t ← match r with
      | inl (f, slot) =>
          n ← pages t !! f;
          s ← slots n !! slot;
          let t := unstore_bytes t s in
          n ← update n slot key value;
          Some (store_bytes (write_page t f n) key value)
      | inr last =>
          n ← pages t !! last;
          if canInsert n (length key) (length value) then insert_at t last key value
          else add_overflow t last bucket key value
      end;
  t ← split_if_overloaded t;
  Some (OK, t).

(** ** Removal *)

(** The loop of [merge_chain]: the first page whose records all fit into its
    predecessor [pp] goes there. *)
Fixpoint merge_loop (fuel : nat) (t : LinearHashTable) (pp : Z) : option LinearHashTable :=
  match fuel with
  | O => None
  | S fuel =>
      p ← pages t !! pp;
      let f := overflow p in
      n ← pages t !! f;
      if hasEnoughSpaceFor p (spaceUsedForData n) then
        '(_, p) ← requestSpaceFor p (spaceUsedForData n);
        p ← (if (count n =? 0)%nat then Some p else copyKeyValueRange n p);
        let t := reclaim (write_page t pp (set_overflow p (overflow n))) f in
        let t := with_data_pages t (data_pages t - 1) in
        let s := stats t in
        let t := with_stats t (mkStats (splits s) (split_length s) (split_left_length s) (split_right_length s)
                   (split_length_bytes s) (overflow_pages_added s) (u64 (merge_chains s + 1))) in
        if data_pages t <? 0 then None else Some t
      else if overflow n =? 0 then Some t
      else merge_loop fuel t f
  end.

Definition merge_chain (t : LinearHashTable) (bucket : Z) : option LinearHashTable :=
  f ← bucketPtr t bucket;
  n ← pages t !! f;
  if overflow n =? 0 then Some t else merge_loop (chain_fuel t) t f.

Definition underfull (n : LinearHashingNode) : bool := underFullSize <? freeSpaceAfterCompaction n.

(** The overflow pages of [remove]: where the key is, and whether a page on
    the way was underfull. *)
Fixpoint remove_find (fuel : nat) (ps : gmap Z LinearHashingNode) (f : Z) (key : list Z) (try_merge : bool) :
    option (option (Z * nat) * bool) :=
  match fuel with
  | O => None
  | S fuel =>
      n ← ps !! f;
      let try_merge := try_merge || underfull n in
      match find n key with
      | Some slot => Some (Some (f, slot), try_merge)
      | None => if overflow n =? 0 then Some (None, try_merge) else remove_find fuel ps (overflow n) key try_merge
      end
  end.

Definition remove (t : LinearHashTable) (key : list Z) : option (OP_RESULT * LinearHashTable) :=
  bucket ← find_bucket t key;
  '(f, t) ← bucket_head t bucket;
  first ← pages t !! f;
  '(r, try_merge) ← remove_find (chain_fuel t) (pages t) f key false;
  '(ret, t) ← match r with
      | Some (f, slot) =>
          n ← pages t !! f;
          s ← slots n !! slot;
          n' ← removeSlot n slot;
          Some (OK, write_page (unstore_bytes t s) f n')
      | None => Some (NOT_FOUND, t)
      end;
  (* the first page, when it is the only one, resets the flag on a miss *)
  let try_merge := try_merge && negb (bool_decide (r = None) && (overflow first =? 0)) in
  if try_merge then
    bucket ← find_bucket t key;
    t ← getDirNode t bucket;
    t ← merge_chain t bucket;
    Some (ret, t)
  else Some (ret, t).

(** ** Iteration and counting *)

Fixpoint chain_pages (fuel : nat) (ps : gmap Z LinearHashingNode) (f : Z) : option (list LinearHashingNode) :=
  match fuel with
  | O => None
  | S fuel =>
      n ← ps !! f;
      if overflow n =? 0 then Some [n] else ns ← chain_pages fuel ps (overflow n); Some (n :: ns)
  end.

(** The callback folds over the records of a page until it stops. *)
Fixpoint iterate_slots {A} (callback : A -> list Z * list Z -> bool * A) (a : A) (es : list (list Z * list Z)) : bool * A :=
  match es with
  | [] => (true, a)
  | e :: es => let '(should_continue, a) := callback a e in
               if should_continue : bool then iterate_slots callback a es else (false, a)
  end.

Fixpoint iterate_pages {A} (callback : A -> list Z * list Z -> bool * A) (a : A) (fuel : nat)
    (ps : gmap Z LinearHashingNode) (f : Z) : option A :=
  match fuel with
  | O => None
  | S fuel =>
      n ← ps !! f;
      let '(should_continue, a) := iterate_slots callback a (entries n) in
      if negb should_continue || (overflow n =? 0) then Some a
      else iterate_pages callback a fuel ps (overflow n)
  end.

(** [iterate]; a bucket without pages is empty. *)
Definition iterate {A} (t : LinearHashTable) (bucket : Z) (callback : A -> list Z * list Z -> bool * A) (a : A) :
    option (A * LinearHashTable) :=
  t ← getDirNode t bucket;
  f ← bucketPtr t bucket;
  if f =? 0 then Some (a, t) else a ← iterate_pages callback a (chain_fuel t) (pages t) f; Some (a, t).

Definition countBucketNumEntries (t : LinearHashTable) (bucket : Z) : option (Z * LinearHashTable) :=
  t ← getDirNode t bucket;
  f ← bucketPtr t bucket;
  if f =? 0 then Some (0, t)
  else ns ← chain_pages (chain_fuel t) (pages t) f;
       Some (u64 (foldr (fun n a => Z.of_nat (count n) + a) 0 ns), t).

(** The loop over the buckets of [countPages] and [countEntries]; [measure]
    is what a page adds. *)
Fixpoint sum_buckets (measure : LinearHashingNode -> Z) (t : LinearHashTable) (b : Z) (todo : nat) (acc : Z) :
    option (Z * LinearHashTable) :=
  match todo with
  | O => Some (acc, t)
  | S todo =>
      t ← getDirNode t b;
      f ← bucketPtr t b;
      acc ← (if f =? 0 then Some acc
             else ns ← chain_pages (chain_fuel t) (pages t) f;
                  Some (u64 (acc + foldr (fun n a => measure n + a) 0 ns)));
      sum_buckets measure t (b + 1) todo acc
  end.

Definition countEntries (t : LinearHashTable) : option (Z * LinearHashTable) :=
  sum_buckets (fun n => Z.of_nat (count n)) t 0 (Z.to_nat (load_buddy_bucket (sp t))) 0.
Definition countPages (t : LinearHashTable) : option (Z * LinearHashTable) :=
  sum_buckets (fun _ => 1) t 0 (Z.to_nat (load_buddy_bucket (sp t))) 0.

(** [get_stat]: the first page of each bucket apart from its overflow pages. *)
Record stat := mkStat {
  num_entries_primary_page : Z; num_entries_overflow_page : Z;
  num_primary_pages : Z; num_overflow_pages : Z;
  space_used_primary_pages : Z; space_used_overflow_pages : Z }.

Definition sum_pages (measure : LinearHashingNode -> Z) (ns : list LinearHashingNode) : Z :=
  foldr (fun n a => measure n + a) 0 ns.

Definition add_chain (s : stat) (n : LinearHashingNode) (os : list LinearHashingNode) : stat :=
  mkStat (u64 (num_entries_primary_page s + Z.of_nat (count n)))
    (u64 (num_entries_overflow_page s + sum_pages (fun n => Z.of_nat (count n)) os))
    (u64 (num_primary_pages s + 1)) (u64 (num_overflow_pages s + sum_pages (fun _ => 1) os))
    (u64 (space_used_primary_pages s + spaceUsedForData n))
    (u64 (space_used_overflow_pages s + sum_pages spaceUsedForData os)).

Fixpoint stat_buckets (t : LinearHashTable) (b : Z) (todo : nat) (s : stat) : option (stat * LinearHashTable) :=
  match todo with
  | O => Some (s, t)
  | S todo =>
      t ← getDirNode t b;
      f ← bucketPtr t b;
      s ← (if f =? 0 then Some s
           else ns ← chain_pages (chain_fuel t) (pages t) f;
                match ns with [] => None | n :: os => Some (add_chain s n os) end);
      stat_buckets t (b + 1) todo s
  end.

Definition get_stat (t : LinearHashTable) : option (stat * LinearHashTable) :=
  stat_buckets t 0 (Z.to_nat (load_buddy_bucket (sp t))) (mkStat 0 0 0 0 0 0).

(** ** The buffer manager's callbacks *)

(** Where the swip of a page is. *)
Inductive swip_place := InDirectory (bucket : Z) | InPage (f : Z).

Definition iterateChildrenSwips (t : LinearHashTable) (f : Z) : option (list Z) :=
  n ← pages t !! f;
  Some (if overflow n =? 0 then [] else [overflow n]).

Fixpoint findParent_loop (fuel : nat) (ps : gmap Z LinearHashingNode) (f to_find : Z) : option swip_place :=
  match fuel with
  | O => None
  | S fuel =>
      n ← ps !! f;
      if overflow n =? 0 then None
      else if overflow n =? to_find then Some (InPage f)
      else findParent_loop fuel ps (overflow n) to_find
  end.

(** [findParent]; [None] is a jump. *)
Definition findParent (t : LinearHashTable) (to_find : Z) : option (swip_place * LinearHashTable) :=
  target ← pages t !! to_find;
  t ← getDirNode t (bucket target);
  f ← bucketPtr t (bucket target);
  if f =? to_find then Some (InDirectory (bucket target), t)
  else place ← findParent_loop (chain_fuel t) (pages t) f to_find; Some (place, t).

(** ** Creation *)

Fixpoint create_buckets (t : LinearHashTable) (b : Z) (todo : nat) : option LinearHashTable :=
  match todo with
  | O => Some t
  | S todo =>
      t ← getDirNode t b;
      '(f, t) ← alloc t;
      create_buckets (set_bucketPtr (write_page t f (new_node false b)) b f) (b + 1) todo
  end.

Definition create (frames : list Z) : option LinearHashTable :=
  create_buckets (mkTable (make_word 0 N) 0 0 N 0 0 (mkStats 0 0 0 0 0 0 0) [] ∅ frames) 0 (Z.to_nat N).
End table.
