(* ===== verification/LinearHashingInv.v ===== *)
(** The invariant of the linear hash table: the split pointer and the round
    counters, the address of a key, the directory, and the chains of pages
    with their records. *)
From stdpp Require Import gmap.
From S2P Require Import Prelude BTreeNode LinearHashingNode LinearHashing.
Local Open Scope Z_scope.

(** * The split pointer *)

Lemma word_load power buddy :
  0 <= power < 256 -> 0 <= buddy < 2 ^ 32 ->
  load_power (make_word power buddy) = power /\ load_buddy_bucket (make_word power buddy) = buddy.
Proof.
  intros Hp Hb.
  assert (make_word power buddy = Z.lor (Z.shiftl power 56) buddy) as ->.
  { unfold make_word. f_equal. apply wrap_small. unfold in_width, kPowerOffset. rewrite Z.shiftl_mul_pow2; lia. }
  assert (Z.shiftr buddy 56 = 0) as E0 by (rewrite Z.shiftr_div_pow2 by lia; apply Z.div_small; lia).
  unfold load_power, load_buddy_bucket. split.
  - change (64 - 8) with 56. rewrite Z.shiftr_land. change (Z.shiftr kPowerMask kPowerOffset) with (Z.ones 8).
    change kPowerOffset with 56. rewrite Z.shiftr_lor, E0, Z.lor_0_r, Z.shiftr_shiftl_l by lia.
    rewrite Z.land_comm, Z.land_ones by lia. simpl (56 - 56). rewrite Z.shiftl_0_r, Z.mod_small by lia.
    apply wrap_small. unfold in_width. lia.
  - change kBuddyBucketMask with (Z.ones 56). rewrite Z.land_comm, Z.land_lor_distr_l.
    rewrite !Z.land_ones by lia. rewrite Z.shiftl_mul_pow2, Z.mod_mul by lia.
    rewrite (Z.mod_small buddy) by lia. rewrite Z.lor_0_l. apply wrap_small. unfold in_width. lia.
Qed.

Lemma power2_pow i : 0 <= i < 16 -> power2 i = Some (2 ^ i).
Proof.
  intros H. unfold power2. destruct (Z.ltb_spec i 0); [lia|].
  assert (i = 0 \/ i = 1 \/ i = 2 \/ i = 3 \/ i = 4 \/ i = 5 \/ i = 6 \/ i = 7 \/ i = 8 \/ i = 9 \/ i = 10 \/
          i = 11 \/ i = 12 \/ i = 13 \/ i = 14 \/ i = 15) as D by lia.
  repeat (destruct D as [->|D]; [reflexivity|]). by subst.
Qed.

(** * Addresses *)

Section inv.
Context (XXH : list Z -> Z) (hash_func : list Z -> Z).
Local Abbreviation node_ok := (LinearHashingNode.node_ok XXH).

(** The bucket of a key in round [i] when there are [nb] buckets. *)
Definition address (i nb : Z) (key : list Z) : Z :=
  let m := 2 ^ i * N in
  let b := hash_func key mod m in
  if b <? nb - m then hash_func key mod (2 * m) else b.

Lemma hash_mod key i : 0 <= i < 16 -> hash hash_func key i = Some (hash_func key mod (2 ^ i * N)).
Proof.
  intros H. unfold hash. rewrite power2_pow by done. simpl. do 2 f_equal. apply wrap_small. unfold in_width, N.
  pose proof (Z.pow_le_mono_r 2 i 15). lia.
Qed.

(** A residue modulo [2 m] is the one modulo [m], or that plus [m]. *)
Lemma mod_double h m : 0 < m -> h mod (2 * m) = h mod m \/ h mod (2 * m) = h mod m + m.
Proof.
  intros Hm. pose proof (Z.mod_pos_bound h m Hm). pose proof (Z.mod_pos_bound h (2 * m)).
  pose proof (Z_div_mod_eq_full h m). pose proof (Z_div_mod_eq_full h (2 * m)).
  set (q := h / m) in *. set (q2 := h / (2 * m)) in *. set (r := h mod m) in *. set (r2 := h mod (2 * m)) in *.
  assert (m * (q - 2 * q2) = r2 - r) as E by lia.
  assert (q - 2 * q2 = 0 \/ q - 2 * q2 = 1) as [D|D] by nia; rewrite D in E; lia.
Qed.

Lemma pow2_pos i : 0 <= i -> 0 < 2 ^ i * N.
Proof. intros H. unfold N. pose proof (Z.pow_pos_nonneg 2 i). lia. Qed.

Lemma address_range i nb key :
  0 <= i -> 2 ^ i * N <= nb <= 2 * (2 ^ i * N) -> 0 <= address i nb key < nb.
Proof.
  intros Hi H. unfold address. pose proof (pow2_pos i Hi) as Hm. set (m := 2 ^ i * N) in *.
  pose proof (Z.mod_pos_bound (hash_func key) m Hm). destruct (mod_double (hash_func key) m Hm); zbool.
Qed.

(** One more bucket changes the addresses of the split bucket alone, where
    they move to the bucket or its buddy. *)
Lemma address_split i nb key :
  0 <= i -> 2 ^ i * N <= nb < 2 * (2 ^ i * N) ->
  (address i nb key <> nb - 2 ^ i * N -> address i (nb + 1) key = address i nb key) /\
  (address i nb key = nb - 2 ^ i * N ->
     hash_func key mod (2 ^ i * N) = nb - 2 ^ i * N /\
     address i (nb + 1) key = hash_func key mod (2 * (2 ^ i * N)) /\
     (address i (nb + 1) key = nb - 2 ^ i * N \/ address i (nb + 1) key = nb)).
Proof.
  intros Hi H. unfold address. pose proof (pow2_pos i Hi) as Hm. set (m := 2 ^ i * N) in *.
  pose proof (Z.mod_pos_bound (hash_func key) m Hm). destruct (mod_double (hash_func key) m Hm); zbool;
    split; intros; split_and?; lia.
Qed.

(** At the end of a round every address has the additional bit. *)
Lemma address_round i key : 0 <= i -> address (i + 1) (2 * (2 ^ i * N)) key = address i (2 * (2 ^ i * N)) key.
Proof.
  intros Hi. unfold address. rewrite Z.pow_add_r, Z.pow_1_r by lia. replace (2 ^ i * 2 * N) with (2 * (2 ^ i * N)) by lia.
  pose proof (pow2_pos i Hi) as Hm. set (m := 2 ^ i * N) in *.
  pose proof (Z.mod_pos_bound (hash_func key) m Hm). pose proof (Z.mod_pos_bound (hash_func key) (2 * m)). zbool.
Qed.

(** * Chains *)

(** The frames of a chain that starts at a swip. *)
Fixpoint chain (ps : gmap Z LinearHashingNode) (swip : Z) (fs : list Z) : Prop :=
  match fs with
  | [] => swip = 0
  | f :: fs' => swip = f /\ f <> 0 /\ exists n, ps !! f = Some n /\ chain ps (overflow n) fs'
  end.

Lemma chain_pages_agree ps ps' s fs :
  (forall f, f ∈ fs -> ps' !! f = ps !! f) -> chain ps s fs -> chain ps' s fs.
Proof.
  revert s. induction fs as [|f fs IH]; intros s E; [done|]. simpl. intros (-> & Hf & n & Hn & C).
  split_and!; [done|done|]. exists n. rewrite E by left. split; [done|]. apply IH; [|done]. intros g Hg. apply E. by right.
Qed.

(** A page rewritten under the same overflow pointer stays in its chain. *)
Lemma chain_write ps s fs f n n' :
  chain ps s fs -> ps !! f = Some n -> overflow n' = overflow n -> chain (<[f := n']> ps) s fs.
Proof.
  revert s. induction fs as [|g fs IH]; intros s C Hf E; [done|]. destruct C as (-> & Hg & m & Hm & C).
  split_and!; [done|done|]. destruct (decide (g = f)) as [->|Hn].
  - exists n'. rewrite lookup_insert_eq, E. split; [done|]. assert (m = n) as -> by congruence. by apply IH.
  - exists m. rewrite lookup_insert_ne by done. split; [done|]. by apply IH.
Qed.

Lemma chain_lookup ps s fs f : chain ps s fs -> f ∈ fs -> is_Some (ps !! f).
Proof.
  revert s. induction fs as [|g fs IH]; intros s C Hf; [by apply not_elem_of_nil in Hf|].
  destruct C as (-> & _ & n & Hn & C). apply elem_of_cons in Hf as [->|Hf]; [by exists n|by eapply IH].
Qed.

Lemma chain_nonzero ps s fs f : chain ps s fs -> f ∈ fs -> f <> 0.
Proof.
  revert s. induction fs as [|g fs IH]; intros s C Hf; [by apply not_elem_of_nil in Hf|].
  destruct C as (-> & Hg & n & Hn & C). apply elem_of_cons in Hf as [->|Hf]; [done|by eapply IH].
Qed.



Lemma chain_entries_app ps fs gs : chain_entries ps (fs ++ gs) = chain_entries ps fs ++ chain_entries ps gs.
Proof. unfold chain_entries. by rewrite map_app, concat_app. Qed.

Lemma chain_entries_cons ps f fs n : ps !! f = Some n -> chain_entries ps (f :: fs) = entries n ++ chain_entries ps fs.
Proof. intros H. unfold chain_entries. simpl. by rewrite H. Qed.

Lemma chain_entries_agree ps ps' fs :
  (forall f, f ∈ fs -> ps' !! f = ps !! f) -> chain_entries ps' fs = chain_entries ps fs.
Proof.
  intros H. unfold chain_entries. f_equal. apply map_ext_in. intros f Hf. rewrite H; [done|by apply list_elem_of_In].
Qed.

Lemma chain_entries_elem ps fs e : e ∈ chain_entries ps fs <-> exists f n, f ∈ fs /\ ps !! f = Some n /\ e ∈ entries n.
Proof.
  unfold chain_entries. rewrite list_elem_of_In, in_concat. split.
  - intros (l & Hl & He). apply in_map_iff in Hl as (f & <- & Hf). destruct (ps !! f) as [n|] eqn:Hn; [|done].
    exists f, n. rewrite !list_elem_of_In. done.
  - intros (f & n & Hf & Hn & He). exists (entries n). rewrite in_map_iff, <- list_elem_of_In. split; [|done].
    exists f. rewrite Hn, <- list_elem_of_In. done.
Qed.

(** A page of a chain, between the pages before and behind it. *)
Lemma chain_entries_middle ps pre f post n' :
  f ∉ pre -> f ∉ post ->
  chain_entries (<[f := n']> ps) (pre ++ f :: post) = chain_entries ps pre ++ entries n' ++ chain_entries ps post.
Proof.
  intros H1 H2. rewrite chain_entries_app. rewrite (chain_entries_cons _ f post n') by apply lookup_insert_eq.
  rewrite !(chain_entries_agree ps (<[f := n']> ps)); [done|..]; intros g Hg; apply lookup_insert_ne; congruence.
Qed.

(** The chain behind a page can be exchanged. *)
Lemma chain_exchange ps ps' s pre g post n' post' :
  chain ps s (pre ++ g :: post) -> (forall h, h ∈ pre -> ps' !! h = ps !! h) ->
  ps' !! g = Some n' -> chain ps' (overflow n') post' -> chain ps' s (pre ++ g :: post').
Proof.
  revert s. induction pre as [|h pre IH]; intros s C Ha Hg C'; simpl in *.
  - destruct C as (-> & Hz & _). eauto.
  - destruct C as (-> & Hz & n & Hn & C). split_and!; [done|done|]. exists n. rewrite Ha by left. split; [done|].
    apply IH; try done. intros h' Hh. apply Ha. by right.
Qed.

(** * Walking a chain *)

Definition pages_ok (ps : gmap Z LinearHashingNode) (fs : list Z) : Prop :=
  forall f n, f ∈ fs -> ps !! f = Some n -> node_ok n.

Lemma pages_ok_tail ps f fs : pages_ok ps (f :: fs) -> pages_ok ps fs.
Proof. intros H g n Hg. apply H. by right. Qed.

Lemma chain_size ps s fs : chain ps s fs -> NoDup fs -> (length fs <= size ps)%nat.
Proof.
  intros C Hn. rewrite <- (size_dom (D := gset Z)), <- (size_list_to_set (C := gset Z) fs) by done. apply subseteq_size.
  intros f Hf%elem_of_list_to_set. apply elem_of_dom. by eapply chain_lookup.
Qed.

Definition found_at (ps : gmap Z LinearHashingNode) (fs : list Z) (key : list Z) (g : Z) (slot : nat) : Prop :=
  exists pre post n v, fs = pre ++ g :: post /\ ps !! g = Some n /\ entries n !! slot = Some (key, v).

Definition last_page (ps : gmap Z LinearHashingNode) (fs : list Z) (g : Z) : Prop :=
  exists pre n, fs = pre ++ [g] /\ ps !! g = Some n /\ overflow n = 0.

Lemma found_at_cons ps f fs key g slot : found_at ps fs key g slot -> found_at ps (f :: fs) key g slot.
Proof. intros (pre & post & n & v & -> & H). by exists (f :: pre), post, n, v. Qed.

Lemma last_page_cons ps f fs g : last_page ps fs g -> last_page ps (f :: fs) g.
Proof. intros (pre & n & -> & H). by exists (f :: pre), n. Qed.

Lemma find_in_page n key :
  node_ok n ->
  (exists slot v, LinearHashingNode.find XXH n key = Some slot /\ entries n !! slot = Some (key, v)) \/
  (LinearHashingNode.find XXH n key = None /\ key ∉ (entries n).*1).
Proof.
  intros H. rewrite lh_find by done. destruct (find_entry (entries n) key) as [slot|] eqn:E.
  - left. destruct (lh_find_entry_Some _ _ _ E) as [v Hv]. by exists slot, v.
  - right. split; [done|]. by apply lh_find_entry_None.
Qed.

Lemma chain_step ps f fs n : chain ps f (f :: fs) -> ps !! f = Some n -> chain ps (overflow n) fs.
Proof. intros (_ & _ & m & Hm & C) Hn. assert (m = n) as <- by congruence. done. Qed.

Lemma chain_end ps s fs : chain ps s fs -> s = 0 <-> fs = [].
Proof.
  destruct fs as [|f fs]; simpl; [done|]. intros (-> & H & _). done.
Qed.

Lemma chain_more ps s fs : chain ps s fs -> s <> 0 -> fs <> [].
Proof. intros C Hs E. by apply Hs, (chain_end ps s fs). Qed.

(** The three searches end with enough fuel: at the key's slot, or at the last
    page of a chain without the key. *)
Lemma chain_find_spec ps fs f key fuel :
  chain ps f fs -> fs <> [] -> pages_ok ps fs -> (length fs <= fuel)%nat ->
  (exists g slot, chain_find XXH fuel ps f key = Some (inl (g, slot)) /\ found_at ps fs key g slot) \/
  (exists g, chain_find XXH fuel ps f key = Some (inr g) /\ last_page ps fs g /\ key ∉ (chain_entries ps fs).*1).
Proof.
  revert f fuel. induction fs as [|g fs IH]; intros f fuel C Hne Hok Hf; [done|].
  destruct fuel as [|fuel]; simpl in Hf; [lia|]. assert (f = g) as -> by apply C. destruct C as (_ & Hg & n & Hn & C).
  simpl. rewrite Hn. simpl. assert (node_ok n) as Hno by (eapply Hok; [left|done]).
  destruct (find_in_page n key Hno) as [(slot & v & -> & He)|[-> Hk]].
  { left. exists g, slot. split; [done|]. by exists [], fs, n, v. }
  destruct (Z.eqb_spec (overflow n) 0) as [E|E].
  - right. exists g. assert (fs = []) as -> by by apply (chain_end ps (overflow n)). split_and!; [done|by exists [], n|].
    rewrite (chain_entries_cons _ _ _ n), app_nil_r by done. done.
  - destruct (IH (overflow n) fuel C) as [(h & slot & E1 & F)|(h & E1 & L & Hk2)].
    + by eapply chain_more.
    + by eapply pages_ok_tail.
    + lia.
    + left. exists h, slot. split; [done|]. by apply found_at_cons.
    + right. exists h. split_and!; [done|by apply last_page_cons|].
      rewrite (chain_entries_cons _ _ _ n), fmap_app, elem_of_app by done. by intros [?|?].
Qed.

Lemma remove_find_spec ps fs f key fuel tm :
  chain ps f fs -> fs <> [] -> pages_ok ps fs -> (length fs <= fuel)%nat ->
  exists tm', 
  (exists g slot, remove_find XXH fuel ps f key tm = Some (Some (g, slot), tm') /\ found_at ps fs key g slot) \/
  (remove_find XXH fuel ps f key tm = Some (None, tm') /\ key ∉ (chain_entries ps fs).*1).
Proof.
  revert f fuel tm. induction fs as [|g fs IH]; intros f fuel tm C Hne Hok Hf; [done|].
  destruct fuel as [|fuel]; simpl in Hf; [lia|]. assert (f = g) as -> by apply C. destruct C as (_ & Hg & n & Hn & C).
  simpl. rewrite Hn. simpl. assert (node_ok n) as Hno by (eapply Hok; [left|done]).
  destruct (find_in_page n key Hno) as [(slot & v & -> & He)|[-> Hk]].
  { eexists. left. exists g, slot. split; [done|]. by exists [], fs, n, v. }
  destruct (Z.eqb_spec (overflow n) 0) as [E|E].
  - eexists. right. split; [done|]. assert (fs = []) as -> by by apply (chain_end ps (overflow n)).
    rewrite (chain_entries_cons _ _ _ n), app_nil_r by done. done.
  - destruct (IH (overflow n) fuel (tm || underfull n) C) as (tm' & [(h & slot & E1 & F)|(E1 & Hk2)]).
    + by eapply chain_more.
    + by eapply pages_ok_tail.
    + lia.
    + exists tm'. left. exists h, slot. split; [done|]. by apply found_at_cons.
    + exists tm'. right. split; [done|].
      rewrite (chain_entries_cons _ _ _ n), fmap_app, elem_of_app by done. by intros [?|?].
Qed.

Lemma chain_room_spec ps fs f kl vl fuel :
  chain ps f fs -> fs <> [] -> (length fs <= fuel)%nat ->
  (exists g n, chain_room fuel ps f kl vl = Some (inl g) /\ g ∈ fs /\ ps !! g = Some n /\ canInsert n kl vl = true) \/
  (exists g, chain_room fuel ps f kl vl = Some (inr g) /\ last_page ps fs g /\
     forall h n, h ∈ fs -> ps !! h = Some n -> canInsert n kl vl = false).
Proof.
  revert f fuel. induction fs as [|g fs IH]; intros f fuel C Hne Hf; [done|].
  destruct fuel as [|fuel]; simpl in Hf; [lia|]. assert (f = g) as -> by apply C. destruct C as (_ & Hg & n & Hn & C).
  simpl. rewrite Hn. simpl. destruct (canInsert n kl vl) eqn:Hc.
  { left. exists g, n. split_and!; try done. left. }
  destruct (Z.eqb_spec (overflow n) 0) as [E|E].
  - right. exists g. assert (fs = []) as -> by by apply (chain_end ps (overflow n)). split_and!; [done|by exists [], n|].
    intros h m ->%list_elem_of_singleton Hm. congruence.
  - destruct (IH (overflow n) fuel C) as [(h & m & E1 & Hh & Hm & Hcm)|(h & E1 & L & Hall)].
    + by eapply chain_more.
    + lia.
    + left. exists h, m. split_and!; try done. by right.
    + right. exists h. split_and!; [done|by apply last_page_cons|].
      intros g' m [->|Hg']%elem_of_cons Hm; [congruence|by eapply Hall].
Qed.

Lemma lock_chain_spec ps fs f room :
  chain ps f fs -> fs <> [] -> lock_chain room ps f = if bool_decide (length fs <= room)%nat then Some fs else None.
Proof.
  revert f room. induction fs as [|g fs IH]; intros f room C Hne; [done|].
  assert (f = g) as -> by apply C. destruct C as (_ & Hg & n & Hn & C). destruct room as [|room]; [done|].
  simpl. rewrite Hn. simpl. destruct (Z.eqb_spec (overflow n) 0) as [E|E].
  - assert (fs = []) as -> by by apply (chain_end ps (overflow n)). done.
  - rewrite IH; [|done|by eapply chain_more]. do 2 case_bool_decide; try done; simpl in *; lia.
Qed.

Definition page_at (ps : gmap Z LinearHashingNode) (f : Z) : LinearHashingNode := default (new_node false 0) (ps !! f).

Lemma chain_pages_spec ps fs f fuel :
  chain ps f fs -> fs <> [] -> (length fs <= fuel)%nat -> chain_pages fuel ps f = Some (map (page_at ps) fs).
Proof.
  revert f fuel. induction fs as [|g fs IH]; intros f fuel C Hne Hf; [done|].
  destruct fuel as [|fuel]; simpl in Hf; [lia|]. assert (f = g) as -> by apply C. destruct C as (_ & Hg & n & Hn & C).
  simpl. unfold page_at at 1. rewrite Hn. simpl. destruct (Z.eqb_spec (overflow n) 0) as [E|E].
  - assert (fs = []) as -> by by apply (chain_end ps (overflow n)). done.
  - rewrite IH; [done|done|by eapply chain_more|lia].
Qed.

(** * The invariant *)

Definition buckets (chains : list (list Z)) : Z := Z.of_nat (length chains).

Record round_ok (t : LinearHashTable) (nb i : Z) : Prop := RoundOk {
  ro_i : 0 <= i < 15;
  ro_nb : 2 ^ i * N <= nb < 2 * (2 ^ i * N);
  ro_sp : sp t = make_word i nb;
  ro_started : this_round_started_splits t = nb - 2 ^ i * N;
  ro_finished : this_round_finished_splits t = nb - 2 ^ i * N;
  ro_target : this_round_split_target t = 2 ^ i * N }.

Record dir_ok (t : LinearHashTable) (chains : list (list Z)) : Prop := DirOk {
  do_limit : Z.of_nat (length (dirNodes t)) <= kArraySize;
  do_room : buckets chains <= numSlots t;
  do_length : Forall (fun d => Z.of_nat (length d) = kDirNodeBucketPtrCount) (dirNodes t);
  do_used : forall b fs, chains !! b = Some fs -> bucketPtr t (Z.of_nat b) = hd_error fs;
  do_unused : forall b, buckets chains <= b < numSlots t -> bucketPtr t b = Some 0 }.

Record pages_inv (t : LinearHashTable) (chains : list (list Z)) : Prop := PagesInv {
  pi_nodup : NoDup (concat chains ++ free t);
  pi_zero : 0 ∉ free t;
  pi_dom : forall f, is_Some (pages t !! f) -> f ∈ concat chains;
  pi_chain : forall b fs, chains !! b = Some fs -> exists f, hd_error fs = Some f /\ chain (pages t) f fs;
  pi_page : forall b fs f n, chains !! b = Some fs -> f ∈ fs -> pages t !! f = Some n ->
              node_ok n /\ bucket n = Z.of_nat b;
  pi_data_pages : data_pages t = Z.of_nat (length (concat chains)) - N }.

(** All records of the table. *)
Definition all_entries (t : LinearHashTable) (chains : list (list Z)) : list (list Z * list Z) :=
  chain_entries (pages t) (concat chains).

Definition payload_bytes (es : list (list Z * list Z)) : Z :=
  foldr (fun e a => Z.of_nat (length e.1) + Z.of_nat (length e.2) + a) 0 es.

Record records_inv (t : LinearHashTable) (chains : list (list Z)) (i : Z) : Prop := RecordsInv {
  ri_address : forall b fs e, chains !! b = Some fs -> e ∈ chain_entries (pages t) fs ->
                 address i (buckets chains) e.1 = Z.of_nat b;
  ri_keys : NoDup (all_entries t chains).*1;
  ri_stored : data_stored t = u64 (payload_bytes (all_entries t chains)) }.

Record inv (t : LinearHashTable) (chains : list (list Z)) (i : Z) : Prop := Inv {
  inv_round : round_ok t (buckets chains) i;
  inv_dir : dir_ok t chains;
  inv_pages : pages_inv t chains;
  inv_records : records_inv t chains i }.

End inv.
