(* ===== verification/LinearHashingOps.v ===== *)
(** The operations of the linear hash table that stay within a bucket:
    searching, updating in place, appending, overflow pages, removal and the
    merge of two pages of a chain. *)
From stdpp Require Import gmap.
From S2P Require Import Prelude BTreeNode LinearHashingNode LinearHashing LinearHashingInv.
Local Open Scope Z_scope.

(** The finite map of a list of records. *)
Abbreviation map_of es := (list_to_map es : gmap (list Z) (list Z)).

#[export] Instance payload_bytes_proper : Proper ((≡ₚ) ==> eq) payload_bytes.
Proof. intros a b E. induction E; simpl; lia. Qed.

Lemma payload_bytes_app a b : payload_bytes (a ++ b) = payload_bytes a + payload_bytes b.
Proof. induction a as [|e a IH]; simpl; [done|]. rewrite IH. lia. Qed.

#[export] Instance concat_perm {A} : Proper ((≡ₚ) ==> (≡ₚ)) (@concat A).
Proof.
  intros a b E. induction E; simpl; [done|by f_equiv| |by etransitivity]. by rewrite !app_assoc, (Permutation_app_comm x).
Qed.

Lemma map_of_perm (a b : list (list Z * list Z)) : NoDup a.*1 -> a ≡ₚ b -> map_of a = map_of b.
Proof. apply list_to_map_proper. Qed.

(** One step of the option monad. *)
Ltac bind := cbn [mbind option_bind].

(** * Directory *)

Lemma getDirNode_here t b : b < numSlots t -> getDirNode t b = Some t.
Proof. intros H. unfold getDirNode. simpl. zbool. Qed.

Lemma concat_in {A} (ls : list (list A)) b l x : ls !! b = Some l -> x ∈ l -> x ∈ concat ls.
Proof.
  intros Hb Hx. apply list_elem_of_In, in_concat. exists l. split; apply list_elem_of_In; [by eapply list_elem_of_lookup_2|done].
Qed.

Lemma concat_split {A} (ls : list (list A)) b l :
  ls !! b = Some l -> concat ls = concat (take b ls) ++ l ++ concat (drop (S b) ls).
Proof. intros H. rewrite <- (take_drop_middle _ _ _ H) at 1. by rewrite concat_app. Qed.

Lemma concat_index {A} (ls : list (list A)) b b' l l' x :
  NoDup (concat ls) -> ls !! b = Some l -> ls !! b' = Some l' -> x ∈ l -> x ∈ l' -> b = b'.
Proof.
  revert b b'. induction ls as [|l0 ls IH]; intros b b' Hn Hb Hb' Hx Hx'; [done|].
  simpl in Hn. apply list.NoDup_app in Hn as (_ & Hd & Hn). destruct b as [|b], b' as [|b']; simpl in *; simplify_eq.
  - done.
  - destruct (Hd x Hx). by eapply concat_in.
  - destruct (Hd x Hx'). by eapply concat_in.
  - f_equal. by eapply IH.
Qed.

Lemma concat_length {A} (ls : list (list A)) : Forall (fun l => l <> []) ls -> (length ls <= length (concat ls))%nat.
Proof. induction 1 as [|l ls Hl _ IH]; simpl; [done|]. rewrite length_app. destruct l; [done|]. simpl. lia. Qed.

Section ops.
Context (XXH : list Z -> Z) (hash_func : list Z -> Z) (ndebug : bool).
Local Abbreviation inv := (LinearHashingInv.inv XXH hash_func).
Local Abbreviation node_ok := (LinearHashingNode.node_ok XXH).
Local Abbreviation address := (LinearHashingInv.address hash_func).

Lemma find_bucket_address t nb i key :
  round_ok t nb i -> find_bucket hash_func t key = Some (address i nb key).
Proof.
  intros [Hi Hnb Hsp _ _ _]. unfold find_bucket. rewrite Hsp. assert (2 ^ i <= 16384) by (apply (Z.pow_le_mono_r 2 i 14); lia).
  destruct (word_load i nb) as [-> ->]; [lia|unfold N in *; lia|].
  rewrite !hash_mod by lia. simpl. rewrite power2_pow by lia. simpl. unfold LinearHashingInv.address.
  destruct (Z.ltb_spec nb (2 ^ i * N)); [lia|].
  destruct (_ <? _); [|done]. rewrite Z.pow_add_r, Z.pow_1_r by lia. do 2 f_equal. unfold N. ring.
Qed.

Section of_inv.
Context (t : LinearHashTable) (chains : list (list Z)) (i : Z) (Hinv : inv t chains i).

Lemma inv_concat_nodup : NoDup (concat chains).
Proof. pose proof (pi_nodup _ _ _ (inv_pages _ _ _ _ _ Hinv)) as H. by apply list.NoDup_app in H as [? _]. Qed.

Lemma inv_chain_nodup b fs : chains !! b = Some fs -> NoDup fs.
Proof.
  intros Hb. pose proof inv_concat_nodup as H. rewrite (concat_split _ _ _ Hb) in H.
  apply list.NoDup_app in H as (_ & _ & H). by apply list.NoDup_app in H as [? _].
Qed.

Lemma inv_pages_ok b fs : chains !! b = Some fs -> pages_ok XXH (pages t) fs.
Proof. intros Hb f n Hf Hn. by eapply (pi_page _ _ _ (inv_pages _ _ _ _ _ Hinv)). Qed.

Lemma inv_free f : f ∈ free t -> pages t !! f = None.
Proof.
  intros Hf. apply eq_None_not_Some. intros Hs. pose proof (pi_nodup _ _ _ (inv_pages _ _ _ _ _ Hinv)) as (_ & Hd & _)%list.NoDup_app.
  apply (Hd f); [|done]. by apply (pi_dom _ _ _ (inv_pages _ _ _ _ _ Hinv)).
Qed.

(** The pages of one chain are counted besides a page for each other bucket. *)
Lemma inv_chain_data_pages b fs :
  chains !! b = Some fs -> 0 < Z.of_nat (length fs) <= data_pages t + 1 - (buckets chains - N) /\ N <= buckets chains.
Proof.
  intros Hb. pose proof (inv_round _ _ _ _ _ Hinv) as [Hi Hnb _ _ _ _]. pose proof (inv_pages _ _ _ _ _ Hinv) as [_ _ _ P4 _ P6].
  pose proof (Z.pow_pos_nonneg 2 i). assert (N <= 2 ^ i * N) by (unfold N in *; lia).
  assert (Forall (fun l => l <> []) chains) as F.
  { apply Forall_lookup. intros b' fs' Hb' ->. by destruct (P4 b' [] Hb') as (? & ? & _). }
  pose proof (take_drop_middle _ _ _ Hb) as E. rewrite <- E in F. apply Forall_app in F as [F1 F2].
  inversion F2 as [|? ? F3 F4]; subst. apply concat_length in F1, F4.
  rewrite (concat_split _ _ _ Hb), !length_app in P6. apply (f_equal length) in E. rewrite length_app in E. simpl in E.
  unfold buckets in *. destruct fs as [|f fs]; [done|]. simpl in *. lia.
Qed.

(** [assert(this->data_pages >= 0)] *)
Lemma inv_data_pages : 0 <= data_pages t.
Proof.
  destruct (lookup_lt_is_Some_2 chains 0) as [fs Hfs].
  - pose proof (inv_round _ _ _ _ _ Hinv) as [Hi Hnb _ _ _ _]. pose proof (pow2_pos i). unfold buckets in *. lia.
  - pose proof (inv_chain_data_pages _ _ Hfs). lia.
Qed.

Lemma inv_fresh f fr b fs : free t = f :: fr -> chains !! b = Some fs -> f ∉ fs /\ f <> 0.
Proof.
  intros Hf Hb. pose proof (inv_pages _ _ _ _ _ Hinv) as [P1 P2 _ _ _ _]. rewrite Hf in P1, P2. split; [|set_solver].
  apply list.NoDup_app in P1 as (_ & Hd & _). intros H. apply (Hd f); [by eapply concat_in|left].
Qed.

Lemma inv_head b fs :
  chains !! b = Some fs ->
  exists f, chain (pages t) f fs /\ fs <> [] /\ bucket_head t (Z.of_nat b) = Some (f, t) /\
    bucketPtr t (Z.of_nat b) = Some f /\ (length fs <= chain_fuel t)%nat /\ getDirNode t (Z.of_nat b) = Some t.
Proof.
  intros Hb. destruct (pi_chain _ _ _ (inv_pages _ _ _ _ _ Hinv) b fs Hb) as (f & Hf & C).
  assert (getDirNode t (Z.of_nat b) = Some t) as Hg.
  { apply getDirNode_here. pose proof (do_room _ _ (inv_dir _ _ _ _ _ Hinv)). apply lookup_lt_Some in Hb. unfold buckets in *. lia. }
  pose proof (do_used _ _ (inv_dir _ _ _ _ _ Hinv) b fs Hb) as Hp. rewrite Hf in Hp.
  pose proof (chain_size _ _ _ C (inv_chain_nodup _ _ Hb)). destruct fs as [|g fs]; [done|]. injection Hf as ->.
  exists f. split_and!; try done; [|unfold chain_fuel; lia].
  unfold bucket_head. rewrite Hg. simpl. rewrite Hp. simpl. destruct C as (_ & Hne & _). zbool.
Qed.

(** Everything an operation on a key starts from. *)
Lemma inv_key key :
  exists b fs f, chains !! b = Some fs /\ find_bucket hash_func t key = Some (Z.of_nat b) /\
    address i (buckets chains) key = Z.of_nat b /\ bucket_head t (Z.of_nat b) = Some (f, t) /\
    chain (pages t) f fs /\ fs <> [] /\ pages_ok XXH (pages t) fs /\ (length fs <= chain_fuel t)%nat /\
    (forall v, (key, v) ∈ all_entries t chains <-> (key, v) ∈ chain_entries (pages t) fs).
Proof.
  pose proof (inv_round _ _ _ _ _ Hinv) as Hr. rewrite (find_bucket_address t _ i) by done.
  destruct (address_range hash_func i (buckets chains) key) as [H0 H1]; [apply Hr|destruct Hr; lia|].
  set (a := address i (buckets chains) key) in *. unfold buckets in H1.
  destruct (lookup_lt_is_Some_2 chains (Z.to_nat a)) as [fs Hfs]; [lia|].
  destruct (inv_head _ _ Hfs) as (f & C & Hne & Hh & _ & Hl & _). rewrite Z2Nat.id in Hh by lia.
  exists (Z.to_nat a), fs, f. rewrite Z2Nat.id by lia. split_and!; try done; [by eapply inv_pages_ok|].
  intros v. split.
  - intros He. apply chain_entries_elem in He as (g & n & Hg & Hn & He).
    apply list_elem_of_In, in_concat in Hg as (gs & Hgs & Hg). rewrite <- list_elem_of_In in Hg. apply list_elem_of_In, list_elem_of_lookup in Hgs as [b Hb].
    assert (address i (buckets chains) key = Z.of_nat b) as Ea.
    { apply (ri_address _ _ _ _ (inv_records _ _ _ _ _ Hinv) b gs (key, v) Hb). apply chain_entries_elem. eauto. }
    fold a in Ea. assert (b = Z.to_nat a) as -> by lia. assert (gs = fs) as -> by congruence. apply chain_entries_elem. eauto.
  - intros (g & n & Hg & Hn & He)%chain_entries_elem. apply chain_entries_elem. exists g, n. split_and!; try done. by eapply concat_in.
Qed.

Lemma inv_map key v : map_of (all_entries t chains) !! key = Some v <-> (key, v) ∈ all_entries t chains.
Proof. symmetry. apply elem_of_list_to_map. apply (ri_keys _ _ _ _ (inv_records _ _ _ _ _ Hinv)). Qed.

Lemma inv_absent key fs :
  (forall v, (key, v) ∈ all_entries t chains <-> (key, v) ∈ chain_entries (pages t) fs) ->
  map_of (all_entries t chains) !! key = None <-> key ∉ (chain_entries (pages t) fs).*1.
Proof.
  intros H. rewrite eq_None_not_Some, list_elem_of_fmap. split.
  - intros Hn ([k v] & -> & He). apply Hn. exists v. by apply inv_map, H.
  - intros Hn [v Hv]. apply Hn. exists (key, v). split; [done|]. by apply H, inv_map.
Qed.

(** [lookup] is the lookup of the map, and changes nothing. *)
Lemma lookup_map key : lookup XXH hash_func t key = Some (map_of (all_entries t chains) !! key, t).
Proof.
  destruct (inv_key key) as (b & fs & f & Hb & E1 & _ & E2 & C & Hne & Hok & Hl & Hin). unfold lookup.
  rewrite E1. bind. rewrite E2. bind.
  destruct (chain_find_spec XXH _ _ _ key _ C Hne Hok Hl) as [(g & slot & -> & pre & post & n & v & -> & Hn & He)|(g & -> & _ & Hk)]; bind.
  - rewrite Hn. bind. pose proof He as He2. rewrite lh_entries_lookup in He2. apply fmap_Some in He2 as (s & Hs & Es).
    rewrite Hs. simpl. unfold slot_entry in Es. injection Es as _ <-. do 2 f_equal. symmetry. apply inv_map, Hin, chain_entries_elem.
    exists g, n. split_and!; [set_solver|done|by eapply list_elem_of_lookup_2].
  - do 2 f_equal. symmetry. by apply (inv_absent key fs).
Qed.

End of_inv.

(** * Rewriting a page *)

Lemma fmap_fst_perm {A B} (a b : list (A * B)) : a ≡ₚ b -> a.*1 ≡ₚ b.*1.
Proof. by intros ->. Qed.

(** [frame t t']: the tables differ in pages, free frames and counters of
    data only. *)
Definition same_frame (t t' : LinearHashTable) : Prop :=
  sp t' = sp t /\ this_round_started_splits t' = this_round_started_splits t /\
  this_round_finished_splits t' = this_round_finished_splits t /\
  this_round_split_target t' = this_round_split_target t /\ dirNodes t' = dirNodes t.

Section replace.
Context (t : LinearHashTable) (chains : list (list Z)) (i : Z) (Hinv : inv t chains i).
Context (b : nat) (fs : list Z) (Hb : chains !! b = Some fs).
Context (t' : LinearHashTable) (fs' : list Z).
(** The pages of other buckets do not change. *)
Context (Hagree : forall g, g ∉ fs -> g ∉ free t -> pages t' !! g = pages t !! g).

Lemma replace_other b' gs : chains !! b' = Some gs -> b' <> b -> forall g, g ∈ gs -> pages t' !! g = pages t !! g.
Proof.
  intros Hgs Hne g Hg. apply Hagree.
  - intros Hf. apply Hne. by eapply (concat_index chains); [eapply inv_concat_nodup|..].
  - intros Hf. pose proof (pi_nodup _ _ _ (inv_pages _ _ _ _ _ Hinv)) as (_ & Hd & _)%list.NoDup_app.
    apply (Hd g); [by eapply concat_in|done].
Qed.

Lemma replace_others_entries :
  chain_entries (pages t') (concat (take b chains)) = chain_entries (pages t) (concat (take b chains)) /\
  chain_entries (pages t') (concat (drop (S b) chains)) = chain_entries (pages t) (concat (drop (S b) chains)).
Proof.
  split; apply chain_entries_agree; intros g (gs & Hgs & Hg)%list_elem_of_In%in_concat;
    apply list_elem_of_In in Hg; apply list_elem_of_In, list_elem_of_lookup in Hgs as [b' Hb'].
  - pose proof (lookup_lt_Some _ _ _ Hb') as Hlt. rewrite length_take in Hlt. rewrite lookup_take_lt in Hb' by lia.
    eapply (replace_other b' gs); [done|lia|done].
  - rewrite lookup_drop in Hb'. eapply (replace_other (S b + b') gs); [done|lia|done].
Qed.

Context (Hfree : fs' ++ free t' ≡ₚ fs ++ free t).
Context (Hgone : forall f, is_Some (pages t' !! f) -> f ∈ fs \/ f ∈ free t -> f ∈ fs').

Lemma replace_frames : concat (<[b := fs']> chains) ++ free t' ≡ₚ concat chains ++ free t.
Proof.
  rewrite insert_take_drop by by eapply lookup_lt_Some. rewrite (concat_split chains b fs Hb), concat_app. simpl.
  rewrite <- !app_assoc, (Permutation_app_comm (concat (drop _ _))), (Permutation_app_comm (concat (drop _ _))).
  rewrite !(app_assoc fs'), !(app_assoc fs), Hfree. done.
Qed.

Context (f0 : Z) (Hhead : hd_error fs' = Some f0) (Hchain : chain (pages t') f0 fs').
Context (Hpage : forall f n, f ∈ fs' -> pages t' !! f = Some n -> node_ok n /\ bucket n = Z.of_nat b).
Context (Hcount : data_pages t' - Z.of_nat (length fs') = data_pages t - Z.of_nat (length fs)).

Lemma replace_pages_inv : pages_inv XXH t' (<[b := fs']> chains).
Proof.
  pose proof (inv_pages _ _ _ _ _ Hinv) as [P1 P2 P3 P4 P5 P6]. pose proof (lookup_lt_Some _ _ _ Hb) as Hlt.
  constructor.
  - by rewrite replace_frames.
  - intros H0. assert (0 ∈ fs ++ free t) as H by (rewrite <- Hfree; set_solver). apply elem_of_app in H as [H|H]; [|done].
    destruct (P4 _ _ Hb) as (f & _ & C). by eapply chain_nonzero.
  - intros f Hf. destruct (decide (f ∈ fs \/ f ∈ free t)) as [Hd|Hd].
    + eapply concat_in; [|by apply Hgone]. by apply list_lookup_insert_eq.
    + rewrite Hagree in Hf by tauto. apply P3 in Hf. rewrite (concat_split chains b fs Hb) in Hf.
      rewrite insert_take_drop, concat_app by done. simpl. set_solver.
  - intros b' gs. destruct (decide (b' = b)) as [->|Hne].
    + rewrite list_lookup_insert_eq by done. intros [= <-]. eauto.
    + rewrite list_lookup_insert_ne by done. intros Hgs. destruct (P4 _ _ Hgs) as (f & Hf & C). exists f. split; [done|].
      eapply chain_pages_agree; [|done]. by apply (replace_other b' gs).
  - intros b' gs f n. destruct (decide (b' = b)) as [->|Hne].
    + rewrite list_lookup_insert_eq by done. intros [= <-]. eauto.
    + rewrite list_lookup_insert_ne by done. intros Hgs Hf. rewrite (replace_other b' gs) by done. by apply (P5 b' gs).
  - rewrite insert_take_drop, concat_app by done. rewrite (concat_split chains b fs Hb) in P6. simpl.
    rewrite !length_app in *. lia.
Qed.

Context (Hframe : same_frame t t') (Hsame_head : hd_error fs' = hd_error fs).

Lemma replace_dir_ok : dir_ok t' (<[b := fs']> chains).
Proof.
  destruct Hframe as (_ & _ & _ & _ & Ed). pose proof (inv_dir _ _ _ _ _ Hinv) as [D1 D2 D3 D4 D5].
  unfold bucketPtr, numSlots, buckets in *. constructor; unfold bucketPtr, numSlots, buckets in *; rewrite ?Ed, ?length_insert; try done.
  intros b' gs. destruct (decide (b' = b)) as [->|Hne].
  - rewrite list_lookup_insert_eq by by eapply lookup_lt_Some. intros [= <-]. rewrite Hsame_head. by apply D4.
  - rewrite list_lookup_insert_ne by done. apply D4.
Qed.

Context (old new es : list (list Z * list Z)).
Context (Hold : chain_entries (pages t) fs ≡ₚ old ++ es) (Hnew : chain_entries (pages t') fs' ≡ₚ new ++ es).
Context (Haddr : forall e, e ∈ new -> address i (buckets chains) e.1 = Z.of_nat b).

(** A bucket whose pages are replaced, its records [old] by [new]. *)
Lemma replace_chain_inv :
  exists rest, all_entries t chains ≡ₚ old ++ rest /\
    (NoDup (new ++ rest).*1 -> data_stored t' = u64 (payload_bytes (new ++ rest)) ->
      inv t' (<[b := fs']> chains) i /\ all_entries t' (<[b := fs']> chains) ≡ₚ new ++ rest).
Proof.
  destruct replace_others_entries as [E1 E2]. pose proof (lookup_lt_Some _ _ _ Hb) as Hlt.
  exists (es ++ chain_entries (pages t) (concat (take b chains)) ++ chain_entries (pages t) (concat (drop (S b) chains))).
  split.
  { unfold all_entries. rewrite (concat_split chains b fs Hb), !chain_entries_app, Hold. solve_Permutation. }
  intros Hkeys Hd.
  assert (all_entries t' (<[b := fs']> chains) ≡ₚ new ++ es ++ chain_entries (pages t) (concat (take b chains)) ++
            chain_entries (pages t) (concat (drop (S b) chains))) as Eall.
  { unfold all_entries. rewrite insert_take_drop, concat_app by done. simpl. rewrite !chain_entries_app, E1, E2, Hnew. solve_Permutation. }
  split; [|done]. constructor.
  - destruct Hframe as (F1 & F2 & F3 & F4 & _). pose proof (inv_round _ _ _ _ _ Hinv) as [].
    unfold buckets in *. rewrite length_insert. constructor; first [done|congruence].
  - apply replace_dir_ok.
  - apply replace_pages_inv.
  - pose proof (inv_records _ _ _ _ _ Hinv) as [R1 _ _]. constructor.
    + intros b' gs e. unfold buckets. rewrite length_insert. destruct (decide (b' = b)) as [->|Hne].
      * rewrite list_lookup_insert_eq by done. intros [= <-]. rewrite Hnew. intros [He|He]%elem_of_app; [by apply Haddr|].
        apply (R1 b fs e Hb). rewrite Hold. set_solver.
      * rewrite list_lookup_insert_ne by done. intros Hgs. rewrite (chain_entries_agree (pages t)) by by apply (replace_other b' gs).
        by apply R1.
    + by rewrite Eall.
    + by rewrite Eall.
Qed.

End replace.

(** A page whose records [old] become [new] changes the table's records the
    same way. *)
Lemma write_page_inv t chains i b fs g n n' old new es d :
  inv t chains i -> chains !! b = Some fs -> g ∈ fs -> pages t !! g = Some n ->
  node_ok n' -> same_header n n' -> entries n ≡ₚ old ++ es -> entries n' ≡ₚ new ++ es ->
  (forall e, e ∈ new -> address i (buckets chains) e.1 = Z.of_nat b) ->
  exists rest, all_entries t chains ≡ₚ old ++ rest /\
    (NoDup (new ++ rest).*1 -> d = u64 (payload_bytes (new ++ rest)) ->
      let t' := with_data_stored (write_page t g n') d in
      inv t' chains i /\ all_entries t' chains ≡ₚ new ++ rest).
Proof.
  intros Hinv Hb Hg Hn Hok (Eo & _ & Ebk) Hold Hnew Haddr.
  pose proof (inv_chain_nodup _ _ _ Hinv _ _ Hb) as Hnd. pose proof Hg as Hsp. apply list_elem_of_split in Hsp as (P & Q & Ec).
  assert (g ∉ P /\ g ∉ Q) as [HP HQ].
  { rewrite Ec in Hnd. apply list.NoDup_app in Hnd as (_ & H1 & H2). apply list.NoDup_cons in H2 as [H2 _]. split; [|done].
    intros H. apply (H1 g H). left. }
  destruct (pi_chain _ _ _ (inv_pages _ _ _ _ _ Hinv) b fs Hb) as (f & Hf & C).
  destruct (replace_chain_inv t chains i Hinv b fs Hb (with_data_stored (write_page t g n') d) fs) with
    (f0 := f) (old := old) (new := new) (es := es ++ chain_entries (pages t) P ++ chain_entries (pages t) Q) as (rest & E1 & E2); try done.
  - intros h Hh _. apply lookup_insert_ne. congruence.
  - simpl. intros h [m Hm] Hd. destruct (decide (h = g)) as [->|Hne]; [done|]. rewrite lookup_insert_ne in Hm by done.
    destruct Hd as [Hd|Hd]; [done|]. by rewrite (inv_free _ _ _ Hinv) in Hm.
  - by eapply chain_write.
  - simpl. intros h m Hh Hm. destruct (decide (h = g)) as [->|Hne].
    + rewrite lookup_insert_eq in Hm. injection Hm as <-. split; [done|]. rewrite Ebk. by eapply (pi_page _ _ _ (inv_pages _ _ _ _ _ Hinv)).
    + rewrite lookup_insert_ne in Hm by done. by eapply (pi_page _ _ _ (inv_pages _ _ _ _ _ Hinv)).
  - rewrite Ec, chain_entries_app, (chain_entries_cons _ _ _ n), Hold by done. solve_Permutation.
  - simpl. rewrite Ec, chain_entries_middle, Hnew by done. solve_Permutation.
  - exists rest. split; [done|]. rewrite list_insert_id in E2 by done. done.
Qed.

(** * One record *)

Lemma perm_in_fst {A B} (l l' : list (A * B)) k : l ≡ₚ l' -> k ∉ l.*1 -> k ∉ l'.*1.
Proof. intros E. by rewrite E. Qed.

(** The byte counter follows the records. *)
Lemma stored_after t chains i old new rest x :
  inv t chains i -> all_entries t chains ≡ₚ old ++ rest -> x = payload_bytes new - payload_bytes old ->
  u64 (data_stored t + x) = u64 (payload_bytes (new ++ rest)).
Proof.
  intros Hinv E ->. rewrite (ri_stored _ _ _ _ (inv_records _ _ _ _ _ Hinv)), E, wrap_wrap_add, !payload_bytes_app. f_equal. lia.
Qed.

Lemma inv_rest_keys t chains i old rest :
  inv t chains i -> all_entries t chains ≡ₚ old ++ rest -> NoDup rest.*1.
Proof.
  intros Hinv E. pose proof (ri_keys _ _ _ _ (inv_records _ _ _ _ _ Hinv)) as H. rewrite E, fmap_app in H.
  by apply list.NoDup_app in H as (_ & _ & H).
Qed.

Section append.
Context (t : LinearHashTable) (chains : list (list Z)) (i : Z) (Hinv : inv t chains i).
Context (b : nat) (fs : list Z) (Hb : chains !! b = Some fs) (key value : list Z).
Context (Haddr : address i (buckets chains) key = Z.of_nat b).
Context (Hnew : key ∉ (all_entries t chains).*1).

Lemma append_keys rest : all_entries t chains ≡ₚ [] ++ rest -> NoDup ([(key, value)] ++ rest).*1.
Proof.
  intros E. simpl. apply list.NoDup_cons. split; [by eapply perm_in_fst|by eapply inv_rest_keys].
Qed.

Lemma append_addr e : e ∈ [(key, value)] -> address i (buckets chains) e.1 = Z.of_nat b.
Proof. by intros ->%list_elem_of_singleton. Qed.

Lemma page_keys g n : g ∈ fs -> pages t !! g = Some n -> key ∉ (entries n).*1.
Proof.
  intros Hg Hn Hk. apply Hnew. apply list_elem_of_fmap in Hk as (e & -> & He). apply list_elem_of_fmap. exists e. split; [done|].
  apply chain_entries_elem. exists g, n. split_and!; try done. by eapply concat_in.
Qed.

Lemma insert_at_inv g n :
  g ∈ fs -> pages t !! g = Some n -> cost (key, value) < 65536 -> canInsert n (length key) (length value) = true ->
  exists t', insert_at XXH t g key value = Some t' /\ inv t' chains i /\
    all_entries t' chains ≡ₚ (key, value) :: all_entries t chains /\ free t' = free t.
Proof.
  intros Hg Hn Hc Hcan. destruct (pi_page _ _ _ (inv_pages _ _ _ _ _ Hinv) b fs g n Hb Hg Hn) as [Hok _].
  rewrite (lh_canInsert XXH) in Hcan by done. apply bool_decide_eq_true in Hcan.
  destruct (lh_insert XXH n key value Hok Hcan) as (n' & E & Hok' & Ee & Hh); [by eapply page_keys|].
  unfold insert_at. rewrite Hn. bind. rewrite E. bind.
  destruct (write_page_inv t chains i b fs g n n' [] [(key, value)] (entries n)
    (u64 (data_stored t + (Z.of_nat (length key) + Z.of_nat (length value)))) Hinv Hb Hg Hn Hok' Hh) as (rest & E1 & E2).
  - done.
  - rewrite Ee. solve_Permutation.
  - apply append_addr.
  - eexists. split; [done|]. destruct E2 as [H1 H2].
    + by apply append_keys.
    + apply (stored_after t chains i []); [done|done|]. simpl. lia.
    + split_and!; [done| |done]. etransitivity; [exact H2|]. simpl in *. by rewrite E1.
Qed.

(** A chain with a page more at its end. *)
Lemma chain_append ps s pre g n f o :
  chain ps s (pre ++ [g]) -> ps !! g = Some n -> g ∉ pre -> f ∉ pre ++ [g] -> f <> 0 -> overflow o = 0 ->
  let ps' := <[g := set_overflow n f]> (<[f := o]> ps) in
  chain ps' s ((pre ++ [g]) ++ [f]) /\ chain_entries ps' ((pre ++ [g]) ++ [f]) = chain_entries ps (pre ++ [g]) ++ entries o.
Proof.
  intros C Hn Hg Hf Hf0 Ho ps'. rewrite elem_of_app, list_elem_of_singleton in Hf.
  assert (forall h, h ∈ pre -> ps' !! h = ps !! h) as Ha.
  { intros h Hh. unfold ps'. rewrite !lookup_insert_ne; [done|intros ->; tauto|congruence]. }
  assert (ps' !! g = Some (set_overflow n f)) as Eg by apply lookup_insert_eq.
  assert (ps' !! f = Some o) as Ef by (unfold ps'; rewrite lookup_insert_ne, lookup_insert_eq; [done|intros ->; tauto]).
  split.
  - rewrite <- app_assoc. eapply chain_exchange; [done..|]. simpl. split_and!; [done|done|]. exists o. done.
  - rewrite !chain_entries_app, (chain_entries_cons _ f [] o), (chain_entries_cons _ g [] _ Eg), (chain_entries_cons ps g [] n) by done.
    rewrite (chain_entries_agree ps) by done. unfold chain_entries at 2 3 5. simpl. by rewrite !app_nil_r.
Qed.

(** An overflow page behind the last one. *)
Lemma add_overflow_inv g f fr :
  last_page (pages t) fs g -> free t = f :: fr -> cost (key, value) <= capacity ->
  exists t', add_overflow XXH t g (Z.of_nat b) key value = Some t' /\ inv t' (<[b := fs ++ [f]]> chains) i /\
    all_entries t' (<[b := fs ++ [f]]> chains) ≡ₚ (key, value) :: all_entries t chains /\ free t' = fr.
Proof.
  intros (pre & n & Efs & Hn & Ho) Hfr Hc. destruct (inv_fresh _ _ _ Hinv _ _ _ _ Hfr Hb) as [Hffs Hf0].
  assert (g ∈ fs) as Hg by (rewrite Efs; set_solver).
  destruct (pi_page _ _ _ (inv_pages _ _ _ _ _ Hinv) b fs g n Hb Hg Hn) as [Hokn Hbn].
  destruct (lh_new_node XXH true (Z.of_nat b)) as [H0 E0].
  destruct (lh_insert XXH (new_node true (Z.of_nat b)) key value H0) as (o & Eo & Hoo & Eoe & (Hh1 & Hh2 & Hh3)).
  { rewrite E0. simpl. lia. }
  { rewrite E0. apply not_elem_of_nil. }
  rewrite E0 in Eoe. simpl in Eoe.
  destruct (pi_chain _ _ _ (inv_pages _ _ _ _ _ Hinv) b fs Hb) as (h & Hh & C).
  pose proof (pi_data_pages _ _ _ (inv_pages _ _ _ _ _ Hinv)) as Hdp.
  pose proof (inv_chain_nodup _ _ _ Hinv _ _ Hb) as Hnd. rewrite Efs in Hnd. apply list.NoDup_app in Hnd as (_ & Hgp & _).
  assert (g ∉ pre) as Hgpre. { intros H. apply (Hgp g H). left. }
  assert (f <> g) as Hfg by (intros ->; done).
  rewrite Efs in C, Hffs. destruct (chain_append _ _ pre g n f o C Hn Hgpre Hffs Hf0 Hh1) as [C' Ee]. rewrite <- Efs in Hffs, C', Ee.
  set (t' := with_data_pages (write_page (write_page (store_bytes (with_free t fr) key value) f o) g (set_overflow n f)) (data_pages t + 1)).
  destruct (replace_chain_inv t chains i Hinv b fs Hb t' (fs ++ [f])) with (f0 := h)
    (old := @nil (list Z * list Z)) (new := [(key, value)]) (es := chain_entries (pages t) fs) as (rest & E1 & E2); try done.
  - intros h' H1 H2. simpl. rewrite !lookup_insert_ne; [done|..]; [intros ->; by apply H2; rewrite Hfr; left|congruence].
  - rewrite Hfr. simpl. rewrite <- app_assoc. done.
  - simpl. intros h' [m Hm] [Hd|Hd]; [set_solver|]. destruct (decide (h' = f)) as [->|Hne]; [set_solver|].
    destruct (decide (h' = g)) as [->|Hne2]; [set_solver|].
    rewrite !lookup_insert_ne in Hm by done. by rewrite (inv_free _ _ _ Hinv) in Hm.
  - rewrite Efs in Hh |- *. by destruct pre.
  - simpl. intros h' m Hh'. destruct (decide (h' = g)) as [->|Hne2].
    { rewrite lookup_insert_eq. intros [= <-]. split; [|done]. by destruct Hokn; constructor. }
    rewrite lookup_insert_ne by done. destruct (decide (h' = f)) as [->|Hne].
    { rewrite lookup_insert_eq. intros [= <-]. done. }
    rewrite lookup_insert_ne by done. intros Hm. apply elem_of_app in Hh' as [Hh'|Hh']; [|set_solver].
    by apply (pi_page _ _ _ (inv_pages _ _ _ _ _ Hinv) b fs h').
  - simpl. rewrite length_app. simpl. lia.
  - rewrite Efs. by destruct pre.
  - simpl. rewrite Ee, Eoe. solve_Permutation.
  - apply append_addr.
  - exists t'. destruct E2 as [H1 H2].
    + by apply append_keys.
    + apply (stored_after t chains i []); [done|done|]. simpl. lia.
    + split_and!; [|done| |done].
      * unfold add_overflow, alloc. rewrite Hfr. bind. rewrite Eo. bind. simpl. rewrite Hn. bind. rewrite Ho, Z.eqb_refl. simpl.
        pose proof (inv_data_pages _ _ _ Hinv). destruct (Z.ltb_spec (data_pages t + 1) 0); [lia|done].
      * etransitivity; [exact H2|]. simpl in *. by rewrite E1.
Qed.

End append.

Lemma lookup_delete_perm {A} (l : list A) j x : l !! j = Some x -> l ≡ₚ x :: delete j l.
Proof. intros H. rewrite <- (take_drop_middle l j x H) at 1. rewrite delete_take_drop. by rewrite Permutation_middle. Qed.

Lemma insert_delete_perm {A} (l : list A) j x : (j < length l)%nat -> <[j := x]> l ≡ₚ x :: delete j l.
Proof. intros H. rewrite insert_take_drop, delete_take_drop by done. by rewrite Permutation_middle. Qed.

Section change.
Context (t : LinearHashTable) (chains : list (list Z)) (i : Z) (Hinv : inv t chains i).
Context (b : nat) (fs : list Z) (Hb : chains !! b = Some fs) (g : Z) (Hg : g ∈ fs).
Context (n : LinearHashingNode) (Hn : pages t !! g = Some n) (slot : nat) (key v : list Z) (He : entries n !! slot = Some (key, v)).

Lemma change_node_ok : node_ok n.
Proof. by apply (pi_page _ _ _ (inv_pages _ _ _ _ _ Hinv) b fs g n Hb Hg Hn). Qed.

Lemma change_address : address i (buckets chains) key = Z.of_nat b.
Proof.
  apply (ri_address _ _ _ _ (inv_records _ _ _ _ _ Hinv) b fs (key, v) Hb). apply chain_entries_elem.
  exists g, n. split_and!; [done|done|]. by eapply list_elem_of_lookup_2.
Qed.

(** The record found becomes [new]: nothing, or a record of the same key. *)
Lemma change_record n' new d :
  node_ok n' -> same_header n n' -> entries n' ≡ₚ new ++ delete slot (entries n) ->
  new.*1 = [] \/ new.*1 = [key] ->
  d = u64 (data_stored t + (payload_bytes new - payload_bytes [(key, v)])) ->
  exists rest, all_entries t chains ≡ₚ (key, v) :: rest /\
    let t' := with_data_stored (write_page t g n') d in
    inv t' chains i /\ all_entries t' chains ≡ₚ new ++ rest.
Proof.
  intros Hok Hh E Hnew Hd.
  destruct (write_page_inv t chains i b fs g n n' [(key, v)] new (delete slot (entries n)) d Hinv Hb Hg Hn Hok Hh) as (rest & E1 & E2).
  - by apply lookup_delete_perm.
  - done.
  - intros e Hnew_e. assert (e.1 ∈ new.*1) as Hk by by apply list_elem_of_fmap_2.
    destruct Hnew as [E0|E0]; rewrite E0 in Hk; [by apply not_elem_of_nil in Hk|].
    apply list_elem_of_singleton in Hk as ->. apply change_address.
  - exists rest. split; [done|]. apply E2.
    + pose proof (ri_keys _ _ _ _ (inv_records _ _ _ _ _ Hinv)) as Hk. rewrite E1 in Hk. rewrite fmap_app.
      destruct Hnew as [-> | ->]; [|done]. simpl in *. by apply list.NoDup_cons in Hk as [_ ?].
    + rewrite Hd. by eapply stored_after.
Qed.

Lemma change_map rest :
  all_entries t chains ≡ₚ (key, v) :: rest ->
  map_of (all_entries t chains) = <[key := v]> (map_of rest) /\ map_of rest = delete key (map_of (all_entries t chains)).
Proof.
  intros E. pose proof (ri_keys _ _ _ _ (inv_records _ _ _ _ _ Hinv)) as Hk.
  assert (map_of (all_entries t chains) = <[key := v]> (map_of rest)) as E1 by by rewrite (map_of_perm _ _ Hk E).
  split; [done|]. rewrite E1, delete_insert_eq, delete_id; [done|]. rewrite E in Hk. simpl in Hk. apply list.NoDup_cons in Hk as [Hk _].
  by apply not_elem_of_list_to_map_1.
Qed.

End change.

(** * Merging two pages of a chain *)

Lemma set_overflow_ok n s : node_ok n -> node_ok (set_overflow n s).
Proof. by intros []; constructor. Qed.

(** The records of [n] fit behind those of [p]. *)
Lemma merge_nodes n p :
  node_ok n -> node_ok p -> hasEnoughSpaceFor p (spaceUsedForData n) = true ->
  exists p1 p2, requestSpaceFor p (spaceUsedForData n) = Some (true, p1) /\
    (if (count n =? 0)%nat then Some p1 else copyKeyValueRange n p1) = Some p2 /\
    node_ok p2 /\ entries p2 = entries p ++ entries n /\ same_header p p2.
Proof.
  intros Hn Hp He. rewrite (lh_hasEnoughSpaceFor XXH) in He by done. apply bool_decide_eq_true in He.
  destruct (lh_requestSpaceFor XXH p _ Hp He) as (p1 & E1 & H1 & Ee & Eh & Ef). exists p1.
  rewrite (lh_spaceUsedForData XXH) in Ef by done. rewrite (lh_freeSpace XXH) in Ef by done.
  destruct (Nat.eqb_spec (count n) 0) as [Ec|Ec].
  - exists p1. split_and!; try done. rewrite lh_count_entries in Ec. apply nil_length_inv in Ec. by rewrite Ec, app_nil_r.
  - destruct (lh_copyKeyValueRange XXH n p1 Hn H1) as (p2 & E2 & H2 & Ee2 & Eh2 & _); [unfold slot_base in *; lia|].
    exists p2. split_and!; try done; [by rewrite Ee2, Ee|by etransitivity].
Qed.

Lemma merge_step t chains i b pre pp f post p n p2 d :
  inv t chains i -> chains !! b = Some (pre ++ pp :: f :: post) -> pages t !! pp = Some p -> pages t !! f = Some n ->
  node_ok p2 -> entries p2 = entries p ++ entries n -> same_header p p2 -> d = data_pages t - 1 ->
  let t' := with_data_pages (reclaim (write_page t pp (set_overflow p2 (overflow n))) f) d in
  let chains' := <[b := pre ++ pp :: post]> chains in
  inv t' chains' i /\ all_entries t' chains' ≡ₚ all_entries t chains.
Proof.
  intros Hinv Hb Hp Hn Hok2 Ee2 (Eh1 & Eh2 & Eh3) Hd t' chains'.
  pose proof (inv_chain_nodup _ _ _ Hinv _ _ Hb) as Hnd.
  assert (pp ∉ pre /\ f ∉ pre /\ pp <> f /\ pp ∉ post /\ f ∉ post) as (Hd1 & Hd2 & Hd3 & Hd4 & Hd5).
  { rewrite Permutation_app_comm in Hnd. simpl in Hnd. rewrite !list.NoDup_cons, elem_of_cons, !elem_of_app in Hnd. intuition. }
  destruct (pi_chain _ _ _ (inv_pages _ _ _ _ _ Hinv) b _ Hb) as (h & Hh & C).
  set (fs := pre ++ pp :: f :: post) in *.
  assert (chain (pages t) (overflow n) post) as Cpost.
  { clear - C Hp Hn. revert h C. unfold fs. induction pre as [|x pre IH]; simpl; intros h C.
    - destruct C as (_ & _ & m & Hm & _ & _ & m' & Hm' & C). by assert (m' = n) as <- by congruence.
    - destruct C as (_ & _ & m & _ & C). by eapply IH. }
  destruct (replace_chain_inv t chains i Hinv b fs Hb t' (pre ++ pp :: post)) with (f0 := h)
    (old := @nil (list Z * list Z)) (new := @nil (list Z * list Z)) (es := chain_entries (pages t) fs) as (rest & E1 & E2).
  - intros g H1 H2. simpl. rewrite lookup_delete_ne, lookup_insert_ne; [done|..]; intros <-; apply H1; unfold fs; set_solver.
  - simpl. unfold fs. rewrite <- !app_assoc. simpl. solve_Permutation.
  - simpl. intros g [m Hm] Hg. destruct (decide (g = f)) as [->|Hne]; [by rewrite lookup_delete_eq in Hm|].
    rewrite lookup_delete_ne in Hm by done. destruct (decide (g = pp)) as [->|Hne2]; [set_solver|].
    rewrite lookup_insert_ne in Hm by done. destruct Hg as [Hg|Hg]; [unfold fs in Hg; set_solver|]. by rewrite (inv_free _ _ _ Hinv) in Hm.
  - unfold fs in Hh. by destruct pre.
  - eapply (chain_exchange (pages t) _ h pre pp (f :: post) (set_overflow p2 (overflow n))); [done|..].
    + intros g Hg. simpl. rewrite lookup_delete_ne, lookup_insert_ne; [done|..]; congruence.
    + simpl. rewrite lookup_delete_ne by done. apply lookup_insert_eq.
    + simpl. eapply chain_pages_agree; [|done]. intros g Hg. rewrite lookup_delete_ne, lookup_insert_ne; [done|..]; congruence.
  - simpl. intros g m Hg Hm. assert (g <> f) by set_solver. rewrite lookup_delete_ne in Hm by done.
    destruct (decide (g = pp)) as [->|Hne2].
    + rewrite lookup_insert_eq in Hm. injection Hm as <-. split; [by apply set_overflow_ok|]. simpl. rewrite Eh3.
      apply (pi_page _ _ _ (inv_pages _ _ _ _ _ Hinv) b fs pp p Hb); [unfold fs; set_solver|done].
    + rewrite lookup_insert_ne in Hm by done. apply (pi_page _ _ _ (inv_pages _ _ _ _ _ Hinv) b fs g m Hb); [unfold fs; set_solver|done].
  - simpl. unfold fs. rewrite !length_app. simpl. lia.
  - done.
  - unfold fs. by destruct pre.
  - done.
  - simpl. unfold fs. rewrite chain_entries_app, (chain_entries_cons _ _ _ (set_overflow p2 (overflow n))).
    2:{ rewrite lookup_delete_ne by done. apply lookup_insert_eq. }
    rewrite (chain_entries_app (pages t)), (chain_entries_cons (pages t) pp _ p), (chain_entries_cons (pages t) f _ n) by done.
    rewrite !(chain_entries_agree (pages t) (delete f (<[pp := set_overflow p2 (overflow n)]> (pages t))));
      [|intros g Hg; rewrite lookup_delete_ne, lookup_insert_ne; [done|congruence..]..].
    change (entries (set_overflow p2 (overflow n))) with (entries p2). rewrite Ee2, <- !app_assoc. done.
  - set_solver.
  - simpl in *. pose proof (ri_keys _ _ _ _ (inv_records _ _ _ _ _ Hinv)) as Hk. pose proof (ri_stored _ _ _ _ (inv_records _ _ _ _ _ Hinv)) as Hs.
    rewrite E1 in Hk, Hs. destruct (E2 Hk Hs) as [H1 H2]. split; [done|]. etransitivity; [exact H2|done].
Qed.

(** [merge_chain] ends, moves records within the bucket only, and gives at
    most one page back. *)
Lemma merge_loop_inv t chains i b fuel pre pp rest :
  inv t chains i -> chains !! b = Some (pre ++ pp :: rest) -> rest <> [] -> (length rest <= fuel)%nat ->
  exists t' chains', merge_loop fuel t pp = Some t' /\ inv t' chains' i /\
    all_entries t' chains' ≡ₚ all_entries t chains.
Proof.
  intros Hinv. revert pre pp fuel. induction rest as [|f post IH]; intros pre pp fuel Hb Hne Hf; [done|].
  destruct fuel as [|fuel]; simpl in Hf; [lia|].
  destruct (pi_chain _ _ _ (inv_pages _ _ _ _ _ Hinv) b _ Hb) as (h & Hh & C).
  assert (exists p n, pages t !! pp = Some p /\ overflow p = f /\ pages t !! f = Some n /\ chain (pages t) (overflow n) post) as
    (p & n & Hp & <- & Hn & Cp).
  { clear - C. revert h C. induction pre as [|x pre IH]; simpl; intros h C.
    - destruct C as (_ & _ & p & Hp & Ho & _ & n & Hn & C). eauto 10.
    - destruct C as (_ & _ & m & _ & C). by eapply IH. }
  pose proof (pi_page _ _ _ (inv_pages _ _ _ _ _ Hinv) b _ pp p Hb ltac:(set_solver) Hp) as [Hokp _].
  pose proof (pi_page _ _ _ (inv_pages _ _ _ _ _ Hinv) b _ (overflow p) n Hb ltac:(set_solver) Hn) as [Hokn _].
  simpl. rewrite Hp. bind. rewrite Hn. bind. destruct (hasEnoughSpaceFor p (spaceUsedForData n)) eqn:He.
  - destruct (merge_nodes n p Hokn Hokp He) as (p1 & p2 & E1 & E2 & Hok2 & Ee & Eh). rewrite E1. bind. rewrite E2. bind.
    destruct (merge_step t chains i b pre pp (overflow p) post p n p2 _ Hinv Hb Hp Hn Hok2 Ee Eh eq_refl) as [H1 H2].
    pose proof (inv_data_pages _ _ _ H1) as Hd. simpl in *. destruct (Z.ltb_spec (data_pages t - 1) 0); [lia|].
    eexists _, _. split_and!; [done| |exact H2]. by destruct H1 as [[] [] [] []].
  - destruct (Z.eqb_spec (overflow n) 0) as [Eo|Eo]; [by exists t, chains|].
    apply (IH (pre ++ [pp])); [by rewrite <- app_assoc|by eapply chain_more|lia].
Qed.

Lemma merge_chain_inv t chains i b fs :
  inv t chains i -> chains !! b = Some fs ->
  exists t' chains', merge_chain t (Z.of_nat b) = Some t' /\ inv t' chains' i /\
    all_entries t' chains' ≡ₚ all_entries t chains.
Proof.
  intros Hinv Hb. destruct (inv_head _ _ _ Hinv _ _ Hb) as (f & C & Hne & _ & Hp & Hl & _).
  unfold merge_chain. rewrite Hp. bind. destruct fs as [|g fs]; [done|]. destruct C as (-> & _ & n & Hn & C). rewrite Hn. bind.
  destruct (Z.eqb_spec (overflow n) 0) as [Eo|Eo]; [by exists t, chains|].
  apply (merge_loop_inv t chains i b _ [] g fs); [done|done|by eapply chain_more|simpl in Hl; lia].
Qed.

End ops.
