(* ===== verification/LinearHashingSplit.v ===== *)
(** Splitting a bucket of the linear hash table: the records are packed into
    temporary pages for the bucket and its buddy, the pages of the chain and
    at most one new page take them, and the split pointer moves on.  The
    records are all of one size [R] with their slots, as in the tables the
    adapters build. *)
From stdpp Require Import gmap.
From S2P Require Import Prelude BTreeNode LinearHashingNode LinearHashing LinearHashingInv LinearHashingOps.
Local Open Scope Z_scope.

(** * Packing records into temporary pages *)

(** Records of size [R] in a page. *)
Definition per_page (R : Z) : Z := capacity / R.

Definition fixed (R : Z) (es : list (list Z * list Z)) : Prop := Forall (fun e => cost e = R) es.

Lemma fixed_weight R es : fixed R es -> weight es = R * Z.of_nat (length es).
Proof. induction 1 as [|e es He _ IH]; simpl; [lia|]. rewrite He, IH. lia. Qed.

Section split.
Context (XXH : list Z -> Z) (hash_func : list Z -> Z).
Local Abbreviation inv := (LinearHashingInv.inv XXH hash_func).
Local Abbreviation node_ok := (LinearHashingNode.node_ok XXH).
Local Abbreviation address := (LinearHashingInv.address hash_func).

Context (R : Z) (HR : sizeof_Slot <= R <= capacity).

Lemma per_page_pos : 1 <= per_page R.
Proof. unfold per_page. apply Z.div_le_lower_bound; unfold sizeof_Slot in *; lia. Qed.

Lemma fits_per_page c : 0 <= c -> R * c <= capacity <-> c <= per_page R.
Proof.
  intros Hc. unfold per_page, sizeof_Slot in *. split; intros H; [by apply Z.div_le_lower_bound; lia|].
  pose proof (Z.mul_div_le capacity R). nia.
Qed.

Lemma page_count n : node_ok n -> fixed R (entries n) -> Z.of_nat (length (entries n)) <= per_page R.
Proof.
  intros H F. apply fits_per_page; [lia|]. rewrite <- fixed_weight by done. by apply (lh_weight_capacity XXH).
Qed.

Definition tmp_records (tmp : list LinearHashingNode) : list (list Z * list Z) := concat (map entries (rev tmp)).

(** Temporary pages of a bucket, the last one first: all but the last are full. *)
Record tmp_ok (b : Z) (tmp : list LinearHashingNode) (es : list (list Z * list Z)) : Prop := TmpOk {
  to_nodes : Forall (fun n => node_ok n /\ bucket n = b) tmp;
  to_records : tmp_records tmp = es;
  to_fixed : fixed R es;
  to_full : match tmp with
            | [] => False
            | back :: rest => Forall (fun n => Z.of_nat (length (entries n)) = per_page R) rest /\ (rest <> [] -> entries back <> [])
            end }.

Lemma tmp_records_cons n tmp : tmp_records (n :: tmp) = tmp_records tmp ++ entries n.
Proof. unfold tmp_records. simpl. by rewrite map_app, concat_app; simpl; rewrite app_nil_r. Qed.

Lemma tmp_ok_new b : tmp_ok b [new_node false b] [].
Proof.
  constructor; [|done|constructor|done]. constructor; [|constructor]. split; [apply lh_new_node|done].
Qed.

Lemma tmp_insert_ok b tmp es key payload :
  tmp_ok b tmp es -> cost (key, payload) = R -> key ∉ es.*1 ->
  exists tmp', tmp_insert XXH b tmp key payload = Some tmp' /\ tmp_ok b tmp' (es ++ [(key, payload)]).
Proof.
  intros [Hn Hr Hf Hfull] Hc Hk. destruct tmp as [|back rest]; [done|]. destruct Hfull as [Hfull Hback].
  inversion Hn as [|? ? [Hok Hb] Hn']; subst. rewrite tmp_records_cons in *.
  apply Forall_app in Hf as [Hf1 Hf2]. pose proof (page_count _ Hok Hf2) as Hpc.
  assert (cost (key, payload) < 65536) as Hlt by (rewrite Hc; unfold capacity, EFFECTIVE_PAGE_SIZE, PAGE_SIZE, slot_base in *; lia).
  assert (fixed R ((tmp_records rest ++ entries back) ++ [(key, payload)])) as Hfix.
  { apply Forall_app. split; [by apply Forall_app|]. by constructor. }
  simpl. rewrite (lh_canInsert XXH) by done. case_bool_decide as Hcan.
  - destruct (lh_insert XXH back key payload Hok Hcan) as (n' & -> & Hok' & E & _ & _ & Eb).
    { rewrite fmap_app, elem_of_app in Hk. tauto. }
    bind. eexists. split; [done|]. constructor.
    + constructor; [by rewrite Eb|done].
    + by rewrite tmp_records_cons, E, app_assoc.
    + done.
    + split; [done|]. rewrite E. intros _ H. by apply app_eq_nil in H as [_ ?].
  - destruct (lh_new_node XXH true (bucket back)) as [H0 E0].
    destruct (lh_insert XXH (new_node true (bucket back)) key payload H0) as (n' & -> & Hok' & E & _ & _ & Eb).
    { rewrite E0. simpl. lia. }
    { rewrite E0. apply not_elem_of_nil. }
    bind. rewrite E0 in E. simpl in E. eexists. split; [done|]. constructor.
    + constructor; [by rewrite Eb|done].
    + by rewrite !tmp_records_cons, E.
    + done.
    + split; [|rewrite E; done]. constructor; [|done].
      rewrite (fixed_weight R), Hc in Hcan by done.
      assert (~ (Z.of_nat (length (entries back)) + 1 <= per_page R)); [|lia].
      rewrite <- fits_per_page by lia. lia.
Qed.

(** A temporary bucket takes as few pages as its records allow. *)
Lemma tmp_pages b tmp es :
  tmp_ok b tmp es ->
  exists r, Z.of_nat (length tmp) = r + 1 /\ 0 <= r /\
    (r = 0 \/ per_page R * r + 1 <= Z.of_nat (length es)) /\ Z.of_nat (length es) <= per_page R * (r + 1).
Proof.
  intros [Hn Hr Hf Hfull]. destruct tmp as [|back rest]; [done|]. destruct Hfull as [Hfull Hback].
  exists (Z.of_nat (length rest)). rewrite tmp_records_cons in Hr.
  assert (Z.of_nat (length (tmp_records rest)) = per_page R * Z.of_nat (length rest)) as El.
  { clear - Hfull. induction Hfull as [|n rest E _ IH]; [simpl; lia|]. rewrite tmp_records_cons, length_app, Nat2Z.inj_add, IH, E. simpl. lia. }
  assert (Z.of_nat (length (entries back)) <= per_page R) as Hb.
  { inversion Hn as [|? ? [Hok _] _]; subst. apply page_count; [done|]. by apply Forall_app in Hf as [_ ?]. }
  assert (Z.of_nat (length es) = Z.of_nat (length (tmp_records rest)) + Z.of_nat (length (entries back))) as Ee
    by (rewrite <- Hr, length_app; lia).
  split_and!; [simpl; lia|lia| |lia]. destruct rest as [|n rest]; [by left|]. right.
  assert (entries back <> []) as Hne by by apply Hback. destruct (entries back); [done|]. simpl in *. lia.
Qed.

(** Two buckets from a chain of [L] pages take at most [L + 1] pages. *)
Lemma two_buckets b1 b2 tmp1 tmp2 es1 es2 L :
  tmp_ok b1 tmp1 es1 -> tmp_ok b2 tmp2 es2 -> 1 <= L ->
  Z.of_nat (length es1) + Z.of_nat (length es2) <= per_page R * L ->
  Z.of_nat (length tmp1) <= L /\ Z.of_nat (length tmp2) <= L /\ Z.of_nat (length tmp1) + Z.of_nat (length tmp2) <= L + 1.
Proof.
  intros H1 H2 HL Hle. pose proof per_page_pos as Hp.
  destruct (tmp_pages _ _ _ H1) as (r1 & -> & Hr1 & D1 & _). destruct (tmp_pages _ _ _ H2) as (r2 & -> & Hr2 & D2 & _).
  set (c := per_page R) in *.
  assert (r1 + r2 < L); [|destruct D1 as [-> |], D2 as [-> |]; lia].
  destruct D1 as [-> |D1], D2 as [-> |D2]; try lia; nia.
Qed.

(** Which half a record of the split bucket goes to. *)
Definition stays (i s : Z) (e : list Z * list Z) : Prop := hash_func e.1 mod (2 * (2 ^ i * N)) = s.
#[export] Instance stays_dec i s e : Decision (stays i s e).
Proof. unfold stays. apply _. Defined.

Lemma partition_ok i s buddy es : forall tmp1 tmp2 es1 es2,
  0 <= i < 15 -> s <> buddy ->
  (forall e, e ∈ es -> hash_func e.1 mod (2 ^ i * N) = s /\
     (hash_func e.1 mod (2 * (2 ^ i * N)) = s \/ hash_func e.1 mod (2 * (2 ^ i * N)) = buddy)) ->
  fixed R es -> NoDup (es1 ++ es2 ++ es).*1 -> tmp_ok s tmp1 es1 -> tmp_ok buddy tmp2 es2 ->
  exists tmp1' tmp2', partition XXH hash_func i s buddy es tmp1 tmp2 = Some (rev tmp1', rev tmp2') /\
    tmp_ok s tmp1' (es1 ++ filter (stays i s) es) /\ tmp_ok buddy tmp2' (es2 ++ filter (fun e => ~ stays i s e) es).
Proof.
  induction es as [|[key payload] es IH]; intros tmp1 tmp2 es1 es2 Hi Hsb Hall HF Hnd H1 H2.
  { exists tmp1, tmp2. rewrite !filter_nil, !app_nil_r. done. }
  inversion HF as [|? ? Hc HF']; subst. destruct (Hall (key, payload)) as [Em Et]; [left|]. simpl in Em, Et.
  simpl. rewrite !hash_mod by lia. bind. rewrite Em, Z.eqb_refl. simpl.
  replace (2 ^ (i + 1) * N) with (2 * (2 ^ i * N)) by (rewrite Z.pow_add_r by lia; lia).
  assert (forall e, e ∈ es -> hash_func e.1 mod (2 ^ i * N) = s /\
     (hash_func e.1 mod (2 * (2 ^ i * N)) = s \/ hash_func e.1 mod (2 * (2 ^ i * N)) = buddy)) as Hall'.
  { intros e He. apply Hall. by right. }
  assert (NoDup ((key :: es1.*1) ++ es2.*1 ++ es.*1)) as Hnd'.
  { rewrite !fmap_app in Hnd. simpl in Hnd. simpl. eapply NoDup_Permutation_proper; [|exact Hnd]. solve_Permutation. }
  simpl in Hnd'. apply list.NoDup_cons in Hnd' as [Hk Hnd']. rewrite !elem_of_app in Hk.
  destruct (Z.eqb_spec (hash_func key mod (2 * (2 ^ i * N))) s) as [E|E].
  - destruct (tmp_insert_ok s tmp1 es1 key payload H1 Hc) as (tmp1' & -> & H1'); [tauto|]. bind.
    rewrite (filter_cons_True (stays i s)), (filter_cons_False (fun e => ~ stays i s e)) by (unfold stays; simpl; tauto).
    destruct (IH tmp1' tmp2 (es1 ++ [(key, payload)]) es2) as (t1 & t2 & -> & T1 & T2); try done.
    + eapply NoDup_Permutation_proper; [|exact Hnd]. apply fmap_fst_perm. solve_Permutation.
    + exists t1, t2. rewrite <- app_assoc in T1. done.
  - destruct Et as [Et|Et]; [done|]. rewrite Et, Z.eqb_refl.
    destruct (tmp_insert_ok buddy tmp2 es2 key payload H2 Hc) as (tmp2' & -> & H2'); [tauto|]. bind.
    rewrite (filter_cons_False (stays i s)), (filter_cons_True (fun e => ~ stays i s e)) by (unfold stays; simpl; tauto).
    destruct (IH tmp1 tmp2' es1 (es2 ++ [(key, payload)])) as (t1 & t2 & -> & T1 & T2); try done.
    + eapply NoDup_Permutation_proper; [|exact Hnd]. apply fmap_fst_perm. solve_Permutation.
    + exists t1, t2. rewrite <- app_assoc in T2. done.
Qed.

(** * Writing the pages *)

Definition records (tmp : list LinearHashingNode) : list (list Z * list Z) := concat (map entries tmp).

Definition good (b : Z) (n : LinearHashingNode) : Prop := node_ok n /\ bucket n = b.

(** What both loops that write pages achieve: the frames [gs] form a chain with
    the contents of the temporary pages, and the others are as before. *)
Definition written (ps ps' : gmap Z LinearHashingNode) (b f : Z) (gs : list Z) (es : list (list Z * list Z)) : Prop :=
  chain ps' f gs /\ chain_entries ps' gs = es /\ (forall g n, g ∈ gs -> ps' !! g = Some n -> good b n) /\
  (forall g, g ∉ gs -> ps' !! g = ps !! g).

Lemma written_cons ps ps1 ps' b f n gs es :
  f <> 0 -> f ∉ gs -> ps1 = <[f := n]> ps -> good b n -> written ps1 ps' b (overflow n) gs es ->
  written ps ps' b f (f :: gs) (entries n ++ es).
Proof.
  intros H0 Hf -> Hg (C & E & G & O). assert (ps' !! f = Some n) as Hn by (rewrite O by done; apply lookup_insert_eq).
  split_and!.
  - simpl. eauto.
  - by rewrite (chain_entries_cons _ _ _ n), E.
  - intros g m [->|Hgs]%elem_of_cons Hm; [congruence|by eapply G].
  - intros g [Hne Hgs]%not_elem_of_cons. rewrite O, lookup_insert_ne by done. done.
Qed.

Lemma written_nil ps b : written ps ps b 0 [] [].
Proof. split_and!; try done. intros g n H. by apply not_elem_of_nil in H. Qed.

Lemma set_header_good b b' n s o : good b n -> good b' (set_bucket (set_is_overflow (set_overflow n s) o) b').
Proof. intros [[] _]. split; [|done]. by constructor. Qed.

Lemma write_split_ok b fs : forall tmp ps f,
  Forall (good b) tmp -> chain ps f fs -> NoDup fs -> tmp <> [] -> (length tmp <= length fs)%nat ->
  exists ps', write_split ps fs tmp = Some ps' /\ written ps ps' b f (take (length tmp) fs) (records tmp).
Proof.
  induction fs as [|g fs IH]; intros [|n tmp] ps f Hg C Hnd Hne Hl; simpl in Hl; try done; try lia.
  destruct C as (-> & H0 & old & Hold & C). apply list.NoDup_cons in Hnd as [Hgfs Hnd]. inversion Hg as [|? ? Hgn Hg']; subst.
  simpl. rewrite Hold. bind. unfold records. simpl. set (ov := match tmp with [] => 0 | _ => overflow old end).
  set (n' := set_overflow (set_is_overflow n (is_overflow old)) ov).
  assert (good b n') as Hgn'. { destruct Hgn as [[] Eb]. by split; [constructor|]. }
  destruct tmp as [|m tmp].
  - exists (<[g := n']> ps). split; [by destruct fs|]. rewrite take_0. eapply (written_cons _ _ _ _ _ n'); [done|apply not_elem_of_nil|done|done|].
    apply written_nil.
  - destruct (IH (m :: tmp) (<[g := n']> ps) (overflow old)) as (ps' & E & W); [done| |done|done|lia|].
    { eapply chain_pages_agree; [|done]. intros h Hh. apply lookup_insert_ne. congruence. }
    exists ps'. split; [done|]. eapply (written_cons _ _ _ _ _ n'); [done| |done|done|done].
    intros Hin%elem_of_take_in. done.
Qed.

(** [write_buddy] behind a page [g] that it has just written. *)
Lemma write_buddy_behind b fs : forall tmp ps g p b0,
  Forall (good b0) tmp -> good b p -> ps !! g = Some p -> overflow p = 0 -> NoDup (g :: fs) -> g <> 0 -> 0 ∉ fs ->
  (length tmp <= length fs)%nat ->
  exists ps', write_buddy ps b (Some g) fs tmp = Some ps' /\
    written ps ps' b g (g :: take (length tmp) fs) (entries p ++ records tmp).
Proof.
  induction fs as [|f fs IH]; intros [|n tmp] ps g p b0 Hg Hp Hgp Ho Hnd H0 Hz Hl; simpl in Hl; try lia.
  1,2: exists ps; split; [done|]; unfold records; simpl; rewrite ?take_0;
    eapply (written_cons _ _ _ _ _ p); [done|apply not_elem_of_nil|by rewrite insert_id|done|rewrite Ho; apply written_nil].
  apply list.NoDup_cons in Hnd as [Hgfs Hnd]. apply not_elem_of_cons in Hgfs as [Hgf Hgfs]. apply not_elem_of_cons in Hz as [Hfz Hz].
  inversion Hg as [|? ? Hgn Hg']; subst. unfold write_buddy; fold write_buddy.
  set (n' := set_bucket _ b). assert (good b n') as Hgn' by by eapply set_header_good.
  rewrite lookup_insert_ne, Hgp by done. bind. set (p' := set_overflow p f).
  assert (good b p') as Hp'. { destruct Hp as [[] Eb]. by split; [constructor|]. }
  destruct (IH tmp (<[g := p']> (<[f := n']> ps)) f n' b0) as (ps' & E & W); try done; [|lia|].
  { rewrite lookup_insert_ne by done. apply lookup_insert_eq. }
  exists ps'. split; [done|]. simpl. unfold records. simpl.
  change (entries p) with (entries p'). change (entries n) with (entries n').
  assert (f ∉ take (length tmp) fs) as Hff. { intros Hin%elem_of_take_in. by apply list.NoDup_cons in Hnd as [? _]. }
  destruct W as (C & Ee & G & O).
  assert (written (<[g := p']> ps) ps' b f (f :: take (length tmp) fs) (entries n' ++ records tmp)) as W'.
  { split_and!; try done. intros h Hh. rewrite O by done. apply not_elem_of_cons in Hh as [Hh _].
    rewrite !lookup_insert. repeat case_decide; congruence. }
  eapply (written_cons _ _ _ _ _ p'); [done| |done|done|exact W'].
  apply not_elem_of_cons. split; [done|]. by intros Hin%elem_of_take_in.
Qed.

Lemma write_buddy_ok b b0 fs tmp ps :
  Forall (good b0) tmp -> NoDup fs -> 0 ∉ fs -> tmp <> [] -> (length tmp <= length fs)%nat ->
  exists f ps', fs !! 0%nat = Some f /\ write_buddy ps b None fs tmp = Some ps' /\
    written ps ps' b f (take (length tmp) fs) (records tmp).
Proof.
  intros Hg Hnd Hz Hne Hl. destruct tmp as [|n tmp]; [done|]. destruct fs as [|f fs]; simpl in Hl; [lia|].
  inversion Hg as [|? ? Hgn Hg']; subst. unfold write_buddy; fold write_buddy. set (n' := set_bucket _ b). bind.
  assert (good b n') as Hgn' by by eapply set_header_good. apply not_elem_of_cons in Hz as [Hfz Hz].
  destruct (write_buddy_behind b fs tmp (<[f := n']> ps) f n' b0) as (ps' & E & W); try done; [apply lookup_insert_eq|lia|].
  exists f, ps'. split_and!; [done|done|]. destruct W as (C & Ee & G & O). split_and!; try done.
  intros h Hh. rewrite O by done. apply not_elem_of_cons in Hh as [Hh _]. by apply lookup_insert_ne.
Qed.

(** * The invariant after a split *)

Section final.
Context (t : LinearHashTable) (chains : list (list Z)) (i : Z) (Hinv : inv t chains i).
Context (s : nat) (fs : list Z) (Hs : chains !! s = Some fs).
Context (t' : LinearHashTable) (i' f h : Z) (fs1 fs2 : list Z).
Context (Hagree : forall g, g ∉ fs -> g ∉ free t -> pages t' !! g = pages t !! g).
Context (fr dirs : list Z) (Hfr : free t ≡ₚ dirs ++ fr) (Hframes : fs1 ++ fs2 ++ free t' ≡ₚ fs ++ fr).
Context (Hgone : forall g, is_Some (pages t' !! g) -> g ∈ fs \/ g ∈ free t -> g ∈ fs1 \/ g ∈ fs2).
Context (Hh1 : hd_error fs1 = hd_error fs) (Hh1' : hd_error fs1 = Some f) (Hh2 : hd_error fs2 = Some h).
Context (Hc1 : chain (pages t') f fs1) (Hc2 : chain (pages t') h fs2).
Context (Hg1 : forall g n, g ∈ fs1 -> pages t' !! g = Some n -> good (Z.of_nat s) n).
Context (Hg2 : forall g n, g ∈ fs2 -> pages t' !! g = Some n -> good (buckets chains) n).
Context (Hdp : data_pages t' = data_pages t + Z.of_nat (length fs1) + Z.of_nat (length fs2) - Z.of_nat (length fs)).

Let chains' : list (list Z) := <[s := fs1]> chains ++ [fs2].

Lemma final_length : length (<[s := fs1]> chains) = length chains.
Proof. apply length_insert. Qed.

Lemma final_buckets : buckets chains' = buckets chains + 1.
Proof. unfold buckets, chains'. rewrite length_app, final_length. simpl. lia. Qed.

(** A chain of the table is the split bucket, its buddy or an old one. *)
Lemma final_lookup b gs :
  chains' !! b = Some gs ->
  (b = s /\ gs = fs1) \/ (Z.of_nat b = buckets chains /\ gs = fs2) \/
  (b <> s /\ chains !! b = Some gs /\ forall g, g ∈ gs -> pages t' !! g = pages t !! g).
Proof.
  unfold chains'. intros [[Hlt Hb]|[-> <-]]%lookup_snoc_Some; [|right; left; unfold buckets; rewrite final_length; done].
  destruct (decide (b = s)) as [->|Hne].
  - rewrite list_lookup_insert_eq in Hb by by eapply lookup_lt_Some. left. by injection Hb.
  - rewrite list_lookup_insert_ne in Hb by done. right; right. split_and!; try done.
    by apply (replace_other XXH hash_func t chains i Hinv s fs Hs t' Hagree b gs).
Qed.

Lemma final_concat : concat chains' ≡ₚ fs1 ++ fs2 ++ concat (take s chains) ++ concat (drop (S s) chains).
Proof.
  unfold chains'. rewrite insert_take_drop, !concat_app by by eapply lookup_lt_Some. simpl. rewrite app_nil_r. solve_Permutation.
Qed.

Lemma final_pages_inv : pages_inv XXH t' chains'.
Proof.
  pose proof (inv_pages _ _ _ _ _ Hinv) as [P1 P2 P3 P4 P5 P6]. constructor.
  - assert (concat chains ++ free t ≡ₚ dirs ++ concat chains' ++ free t') as E.
    { rewrite final_concat, (concat_split chains s fs Hs), Hfr. rewrite <- !app_assoc.
      rewrite (Permutation_app_comm (concat (drop (S s) chains)) (free t')), (app_assoc (concat (take s chains)) (free t')),
        (Permutation_app_comm (concat (take s chains)) (free t')), <- app_assoc, (app_assoc fs2), (app_assoc fs1), Hframes.
      solve_Permutation. }
    rewrite E in P1. by apply list.NoDup_app in P1 as (_ & _ & ?).
  - intros H0. assert (0 ∈ fs ++ fr) as H by (rewrite <- Hframes; set_solver). apply elem_of_app in H as [H|H].
    + destruct (P4 _ _ Hs) as (g & _ & C). by eapply chain_nonzero.
    + apply P2. rewrite Hfr. set_solver.
  - intros g Hg. rewrite final_concat. destruct (decide (g ∈ fs \/ g ∈ free t)) as [Hd|Hd].
    + destruct (Hgone g Hg Hd); set_solver.
    + rewrite Hagree in Hg by tauto. apply P3 in Hg. rewrite (concat_split chains s fs Hs) in Hg. set_solver.
  - intros b gs [[-> ->]|[[Eb ->]|(Hne & Hb & Ha)]]%final_lookup; [eauto..|].
    destruct (P4 _ _ Hb) as (g & Hg & C). exists g. split; [done|]. by eapply chain_pages_agree.
  - intros b gs g n [[-> ->]|[[Eb ->]|(Hne & Hb & Ha)]]%final_lookup; [apply Hg1|rewrite Eb; apply Hg2|].
    intros Hg. rewrite Ha by done. by apply (P5 b gs).
  - rewrite final_concat, Hdp. rewrite (concat_split chains s fs Hs) in P6. rewrite !length_app in *. lia.
Qed.

Context (E1 E2 : list (list Z * list Z)).
Context (He1 : chain_entries (pages t') fs1 = E1) (He2 : chain_entries (pages t') fs2 = E2).
Context (HE : E1 ++ E2 ≡ₚ chain_entries (pages t) fs).

Lemma final_entries : all_entries t' chains' ≡ₚ all_entries t chains.
Proof.
  destruct (replace_others_entries XXH hash_func t chains i Hinv s fs Hs t' Hagree) as [O1 O2].
  unfold all_entries, chains'. rewrite insert_take_drop, !concat_app by by eapply lookup_lt_Some. simpl.
  rewrite !chain_entries_app, O1, O2, He1, app_nil_r, He2. rewrite (concat_split chains s fs Hs), !chain_entries_app, <- HE.
  solve_Permutation.
Qed.

Context (Hround : round_ok t' (buckets chains + 1) i').
Context (Ha : forall key, address i' (buckets chains + 1) key = address i (buckets chains + 1) key).
Context (Hsplit : Z.of_nat s = buckets chains - 2 ^ i * N).
Context (Ha1 : forall e, e ∈ E1 -> address i (buckets chains + 1) e.1 = Z.of_nat s).
Context (Ha2 : forall e, e ∈ E2 -> address i (buckets chains + 1) e.1 = buckets chains).
Context (Hstored : data_stored t' = data_stored t).

Lemma final_records_inv : records_inv hash_func t' chains' i'.
Proof.
  pose proof (inv_records _ _ _ _ _ Hinv) as [R1 R2 R3]. pose proof final_entries as E. constructor.
  - intros b gs e Hb He. rewrite final_buckets, Ha.
    apply final_lookup in Hb as [[-> ->]|[[Eb ->]|(Hne & Hb & Hag)]].
    + apply Ha1. by rewrite <- He1.
    + rewrite Eb. apply Ha2. by rewrite <- He2.
    + rewrite (chain_entries_agree (pages t)) in He by done. pose proof (R1 b gs e Hb He) as Hb1. rewrite <- Hb1.
      pose proof (inv_round _ _ _ _ _ Hinv) as [Hi Hnb _ _ _ _].
      apply (address_split hash_func i (buckets chains) e.1); [lia|done|]. rewrite Hb1. lia.
  - by rewrite E.
  - by rewrite E, Hstored.
Qed.

Context (Hlimit : Z.of_nat (length (dirNodes t')) <= kArraySize) (Hroom : buckets chains < numSlots t').
Context (Hlen : Forall (fun d => Z.of_nat (length d) = kDirNodeBucketPtrCount) (dirNodes t')).
Context (Hold : forall b, 0 <= b < buckets chains -> bucketPtr t' b = bucketPtr t b).
Context (Hbuddy : bucketPtr t' (buckets chains) = Some h).
Context (Hrest : forall b, buckets chains + 1 <= b < numSlots t' -> bucketPtr t' b = Some 0).

Lemma final_inv : inv t' chains' i' /\ all_entries t' chains' ≡ₚ all_entries t chains.
Proof.
  split; [|apply final_entries]. constructor; [by rewrite final_buckets| |apply final_pages_inv|apply final_records_inv].
  constructor; [done|rewrite final_buckets; lia|done| |by rewrite final_buckets].
  intros b gs [[-> ->]|[[Eb ->]|(Hne & Hb & Hag)]]%final_lookup.
  - rewrite Hold, Hh1; [by apply (do_used _ _ (inv_dir _ _ _ _ _ Hinv))|]. apply lookup_lt_Some in Hs. unfold buckets. lia.
  - by rewrite Eb, Hbuddy.
  - rewrite Hold; [by apply (do_used _ _ (inv_dir _ _ _ _ _ Hinv))|]. apply lookup_lt_Some in Hb. unfold buckets. lia.
Qed.

End final.

End split.
