(* ===== verification/LinearHashingGrow.v ===== *)
(** Growing the linear hash table by one bucket: the directory, the counters
    of the round, the pages given back, and [split] as a whole. *)
From stdpp Require Import gmap.
From S2P Require Import Prelude BTreeNode LinearHashingNode LinearHashing LinearHashingInv LinearHashingOps LinearHashingSplit.
Local Open Scope Z_scope.

(** * The directory *)

Lemma kDir_pos : 0 < kDirNodeBucketPtrCount.
Proof. done. Qed.

Lemma dir_index t b :
  0 <= b < numSlots t -> exists d, dirNodes t !! Z.to_nat (b / kDirNodeBucketPtrCount) = Some d.
Proof.
  intros [H0 H1]. unfold numSlots in H1. pose proof kDir_pos. apply lookup_lt_is_Some_2.
  assert (b / kDirNodeBucketPtrCount < Z.of_nat (length (dirNodes t))) by (apply Z.div_lt_upper_bound; lia).
  pose proof (Z.div_pos b kDirNodeBucketPtrCount). lia.
Qed.

Lemma numSlots_set t b f : numSlots (set_bucketPtr t b f) = numSlots t.
Proof. unfold numSlots. simpl. by rewrite length_alter. Qed.

Lemma set_bucketPtr_length t b f :
  Forall (fun d => Z.of_nat (length d) = kDirNodeBucketPtrCount) (dirNodes t) ->
  Forall (fun d => Z.of_nat (length d) = kDirNodeBucketPtrCount) (dirNodes (set_bucketPtr t b f)).
Proof.
  intros H. apply Forall_alter; [done|]. intros d _ Hd. by rewrite length_insert.
Qed.

Lemma bucketPtr_set t b b' f :
  Forall (fun d => Z.of_nat (length d) = kDirNodeBucketPtrCount) (dirNodes t) -> 0 <= b < numSlots t -> 0 <= b' ->
  bucketPtr (set_bucketPtr t b f) b' = if decide (b = b') then Some f else bucketPtr t b'.
Proof.
  intros HF Hb Hb'. destruct (dir_index t b Hb) as [d Hd]. pose proof kDir_pos as HK.
  pose proof (Z.div_pos b kDirNodeBucketPtrCount). pose proof (Z.div_pos b' kDirNodeBucketPtrCount).
  pose proof (Z.mod_pos_bound b kDirNodeBucketPtrCount HK). pose proof (Z.mod_pos_bound b' kDirNodeBucketPtrCount HK).
  pose proof (Z_div_mod_eq_full b kDirNodeBucketPtrCount). pose proof (Z_div_mod_eq_full b' kDirNodeBucketPtrCount).
  assert (Z.of_nat (length d) = kDirNodeBucketPtrCount) as Hl by (rewrite Forall_lookup in HF; eauto).
  unfold bucketPtr. simpl. destruct (decide (Z.to_nat (b / kDirNodeBucketPtrCount) = Z.to_nat (b' / kDirNodeBucketPtrCount))) as [E|E].
  - rewrite <- E, list_lookup_alter_eq, Hd. simpl.
    destruct (decide (b = b')) as [->|Hne]; [apply list_lookup_insert_eq; lia|]. apply list_lookup_insert_ne.
    intros E2. assert (b mod kDirNodeBucketPtrCount = b' mod kDirNodeBucketPtrCount) by lia.
    assert (b / kDirNodeBucketPtrCount = b' / kDirNodeBucketPtrCount) by lia. congruence.
  - rewrite list_lookup_alter_ne by done. rewrite decide_False by congruence. done.
Qed.

(** The directory node of the next bucket: there already, or one new node. *)
Lemma getDirNode_next t chains f fr :
  dir_ok t chains -> buckets chains < kArraySize * kDirNodeBucketPtrCount -> free t = f :: fr ->
  exists t', getDirNode t (buckets chains) = Some t' /\
    (t' = t \/ t' = with_dirNodes (with_free t fr) (dirNodes t ++ [empty_dir])) /\
    Z.of_nat (length (dirNodes t')) <= kArraySize /\ buckets chains < numSlots t' /\
    Forall (fun d => Z.of_nat (length d) = kDirNodeBucketPtrCount) (dirNodes t') /\
    (forall b, 0 <= b < buckets chains -> bucketPtr t' b = bucketPtr t b) /\
    (forall b, buckets chains <= b < numSlots t' -> bucketPtr t' b = Some 0).
Proof.
  intros [D1 D2 D3 D4 D5] Hlim Hf. unfold getDirNode. destruct (Z.ltb_spec (buckets chains) (numSlots t)) as [Hlt|Hge].
  { exists t. simpl. destruct (Z.ltb_spec (buckets chains) (numSlots t)); [|lia]. split_and!; auto. }
  pose proof kDir_pos as HK. assert (buckets chains = numSlots t) as E by lia.
  set (t' := with_dirNodes (with_free t fr) (dirNodes t ++ [empty_dir])).
  assert (numSlots t' = numSlots t + kDirNodeBucketPtrCount) as En.
  { unfold numSlots, t'. simpl. rewrite length_app. simpl. lia. }
  assert (Z.of_nat (length (dirNodes t)) < kArraySize) as Hlt by (unfold numSlots in E; rewrite E in Hlim; nia).
  assert (add_dirNode t = Some t') as Ea.
  { unfold add_dirNode, alloc. rewrite Hf. bind. simpl. destruct (Z.ltb_spec (Z.of_nat (length (dirNodes t))) kArraySize); [done|lia]. }
  exists t'. split_and!.
  - simpl. destruct (Z.ltb_spec (buckets chains) (numSlots t)); [lia|]. rewrite Ea. bind.
    assert (buckets chains <? numSlots t' = true) as Ht by (apply Z.ltb_lt; lia).
    destruct (Z.to_nat _); simpl; by rewrite Ht.
  - by right.
  - unfold t'. simpl. rewrite length_app. simpl. lia.
  - lia.
  - apply Forall_app. split; [done|]. constructor; [|constructor]. unfold empty_dir. rewrite length_replicate. lia.
  - intros b Hb. unfold bucketPtr, t'. simpl. rewrite lookup_app_l; [done|].
    destruct (dir_index t b) as [d Hd]; [lia|]. by eapply lookup_lt_Some.
  - intros b Hb. unfold bucketPtr, t'. simpl.
    assert (b / kDirNodeBucketPtrCount = Z.of_nat (length (dirNodes t))) as Eb.
    { unfold numSlots in *. symmetry. apply (Z.div_unique _ _ _ (b - Z.of_nat (length (dirNodes t)) * kDirNodeBucketPtrCount)); lia. }
    rewrite Eb, Nat2Z.id, lookup_app_r, Nat.sub_diag by lia. simpl. unfold empty_dir.
    apply lookup_replicate_2. pose proof (Z.mod_pos_bound b kDirNodeBucketPtrCount HK). lia.
Qed.

(** * The round *)

Definition same_store (t t' : LinearHashTable) : Prop :=
  data_stored t' = data_stored t /\ data_pages t' = data_pages t /\ dirNodes t' = dirNodes t /\
  pages t' = pages t /\ free t' = free t.

Lemma finish_split_ok hash_func t nb i :
  0 <= i < 15 -> 2 ^ i * N <= nb < 2 * (2 ^ i * N) -> nb < kArraySize * kDirNodeBucketPtrCount ->
  sp t = make_word i (nb + 1) -> this_round_started_splits t = nb - 2 ^ i * N + 1 ->
  this_round_finished_splits t = nb - 2 ^ i * N -> this_round_split_target t = 2 ^ i * N ->
  exists t' i', finish_split t = Some t' /\ same_store t t' /\ round_ok t' (nb + 1) i' /\
    forall key, address hash_func i' (nb + 1) key = address hash_func i (nb + 1) key.
Proof.
  intros Hi Hnb Hlim Hsp Hst Hfi Hta. assert (kArraySize * kDirNodeBucketPtrCount = 4186112) as E by done. rewrite E in Hlim.
  assert (load_power (sp t) = i /\ load_buddy_bucket (sp t) = nb + 1) as [Ep Eb].
  { rewrite Hsp. apply word_load; lia. }
  unfold finish_split. cbn [with_round this_round_started_splits this_round_finished_splits this_round_split_target sp].
  rewrite Hst, Hfi, Hta, Ep, Eb, Hsp. destruct (Z.ltb_spec (nb - 2 ^ i * N + 1) (nb - 2 ^ i * N + 1)); [lia|].
  rewrite Z.eqb_refl. cbn [andb]. destruct (Z.eqb_spec (nb - 2 ^ i * N + 1) (2 ^ i * N)) as [El|El].
  - assert (nb + 1 = 2 * (2 ^ i * N)) as E2 by lia.
    assert (i < 14) as Hi14.
    { apply Z.lt_nge. intros H14. assert (i = 14) as -> by lia. revert E2 Hlim. unfold N. lia. }
    rewrite power2_pow by lia. bind. rewrite Z.eqb_refl.
    assert (load_buddy_bucket (make_word i (nb + 1)) = nb + 1) as -> by by rewrite <- Hsp.
    eexists _, (i + 1). split_and!; [done|done| |].
    + assert (2 ^ (i + 1) = 2 * 2 ^ i) as Ep2 by (rewrite Z.pow_add_r by lia; lia).
      constructor; cbn [with_sp with_round this_round_started_splits this_round_finished_splits this_round_split_target sp];
        rewrite ?Ep2; first [done|unfold N in *; lia].
    + intros key. rewrite E2. apply address_round. lia.
  - eexists _, i. split_and!; [done|done| |done].
    constructor; cbn [with_round this_round_started_splits this_round_finished_splits this_round_split_target sp]; first [done|lia].
Qed.

(** * Giving pages back *)

Lemma release_ok ndebug original gs : forall t,
  ndebug = true \/ gs = [] -> Z.of_nat (length gs) <= data_pages t ->
  exists t', release ndebug t original gs = Some t' /\
    (forall g, pages t' !! g = if decide (g ∈ gs) then None else pages t !! g) /\ free t' ≡ₚ gs ++ free t /\
    data_pages t' = data_pages t - Z.of_nat (length gs) /\ data_stored t' = data_stored t /\ same_frame t t'.
Proof.
  induction gs as [|f gs IH]; intros t Hd Hl.
  { exists t. split_and!; try done. simpl. lia. }
  destruct Hd as [-> |Hd]; [|done]. simpl in Hl. cbn [release negb andb].
  destruct (Z.ltb_spec (data_pages t - 1) 0) as [Hlt|_]; [lia|].
  set (t1 := with_data_pages (reclaim t f) (data_pages t - 1)).
  destruct (IH t1) as (t' & E & Hp & Hf & Hdp & Hds & Hs); [by left|unfold t1; simpl; lia|].
  exists t'. assert (data_pages t1 <? 0 = false) as -> by (unfold t1; simpl; apply Z.ltb_ge; lia). split_and!; try done.
  - intros g. rewrite Hp. unfold t1. simpl. destruct (decide (g ∈ gs)) as [Hg|Hg], (decide (g ∈ f :: gs)) as [Hg'|Hg']; try done; [set_solver|..].
    + assert (g = f) as -> by set_solver. apply lookup_delete_eq.
    + apply lookup_delete_ne. set_solver.
  - rewrite Hf. unfold t1. simpl. solve_Permutation.
  - rewrite Hdp. unfold t1. simpl. lia.
Qed.

(** A debug build stops at the first page it has to give back. *)
Lemma release_debug t original f gs : f ∈ original -> release false t original (f :: gs) = None.
Proof. intros H. simpl. by rewrite bool_decide_true. Qed.

(** * Moving the pages *)

(** At most one temporary page joins the guards. *)
Lemma use_temps t temp1 temp2 fs n1 n2 :
  (n1 <= length fs)%nat -> (n1 + n2 <= S (length fs))%nat ->
  exists t' ts u1 u2 t1 g1,
    use_temp t temp1 fs n1 n2 = (t1, g1, u1) /\ use_temp t1 temp2 g1 n1 n2 = (t', fs ++ ts, u2) /\
    ts ++ u1 ++ u2 = [temp1; temp2] /\ (forall g, g ∉ ts -> pages t' !! g = pages t !! g) /\
    data_pages t' = data_pages t + Z.of_nat (length ts) /\ (n1 + n2 <= length (fs ++ ts) <= S (length fs))%nat /\
    (ts = [] \/ n1 + n2 = length (fs ++ ts))%nat /\ same_frame t t' /\ free t' = free t /\ data_stored t' = data_stored t.
Proof.
  intros H1 H2. unfold use_temp. destruct (Nat.ltb_spec (length fs - n1) n2) as [Hlt|Hge].
  - assert ((length (fs ++ [temp1]) - n1 <? n2)%nat = false) as E by (apply Nat.ltb_ge; rewrite length_app; simpl; lia).
    set (t1 := with_data_pages (write_page t temp1 (new_node false 0)) (data_pages t + 1)).
    exists t1, [temp1], [], [temp2], t1, (fs ++ [temp1]). rewrite E, length_app. simpl. split_and!; try done; try lia.
    intros g Hg. apply lookup_insert_ne. set_solver.
  - assert ((length fs - n1 <? n2)%nat = false) as E by (by apply Nat.ltb_ge).
    exists t, [], [temp1], [temp2], t, fs. rewrite E, app_nil_r. simpl. split_and!; try done; try lia. by left.
Qed.

(** The guards are the pages of the split bucket, of the buddy, and the rest. *)
Lemma guards_split (fs ts : list Z) n1 n2 :
  (n1 <= length fs)%nat -> (n1 + n2 <= length (fs ++ ts))%nat ->
  exists fs1 fs2 left, take n1 fs = fs1 /\ take n2 (drop n1 (fs ++ ts)) = fs2 /\ drop (n2 + n1) (fs ++ ts) = left /\
    fs ++ ts = fs1 ++ fs2 ++ left /\ drop n1 (fs ++ ts) = fs2 ++ left /\ length fs1 = n1 /\ length fs2 = n2 /\
    (length fs + length ts = n1 + n2 + length left)%nat.
Proof.
  intros H1 H2. eexists _, _, _. split_and!; [done..| | |rewrite length_take; lia|rewrite length_take, length_drop; lia|].
  - rewrite (Nat.add_comm n2), <- drop_drop, take_drop, <- (take_app_le fs ts) by done. by rewrite take_drop.
  - by rewrite (Nat.add_comm n2), <- drop_drop, take_drop.
  - rewrite length_drop, <- length_app. lia.
Qed.

Section move.
Context (XXH : list Z -> Z) (hash_func : list Z -> Z) (ndebug : bool).
Local Abbreviation good := (LinearHashingSplit.good XXH).
Local Abbreviation written := (LinearHashingSplit.written XXH).

Context (t : LinearHashTable) (s nb i : Z) (fs : list Z) (f : Z) (tmp1 tmp2 : list LinearHashingNode) (temp1 temp2 : Z).
Context (Hchain : chain (pages t) f fs) (Hhead : hd_error fs = Some f) (Hnd : NoDup (fs ++ [temp1; temp2])).
Context (Hz1 : temp1 <> 0) (Hz2 : temp2 <> 0).
Context (Hg1 : Forall (good s) tmp1) (Hg2 : Forall (good nb) tmp2) (Hne1 : tmp1 <> []) (Hne2 : tmp2 <> []).
Context (Hn1 : (length tmp1 <= length fs)%nat) (Hn : (length tmp1 + length tmp2 <= S (length fs))%nat).
Context (Hlen : (length fs < kNTempNodes)%nat) (Hdp : Z.of_nat (length fs) - 1 <= data_pages t).
Context (Hi : 0 <= i < 15) (Hnb : 2 ^ i * N <= nb < 2 * (2 ^ i * N)) (Hlim : nb < kArraySize * kDirNodeBucketPtrCount).
Context (Hsp : sp t = make_word i (nb + 1)) (Hst : this_round_started_splits t = nb - 2 ^ i * N + 1).
Context (Hfi : this_round_finished_splits t = nb - 2 ^ i * N) (Hta : this_round_split_target t = 2 ^ i * N).
Context (Hptr : bucketPtr t nb = Some 0).

Context (Hf1 : pages t !! temp1 = None) (Hf2 : pages t !! temp2 = None).

(** What [move_pages] leaves behind: two chains in place of one. *)
Definition moved (t' : LinearHashTable) : Prop := exists i' h fs1 fs2,
  (fs1 ++ fs2 ++ free t' ≡ₚ fs ++ temp1 :: temp2 :: free t /\ hd_error fs1 = Some f /\ hd_error fs2 = Some h) /\
  (chain (pages t') f fs1 /\ chain_entries (pages t') fs1 = records tmp1 /\
   forall g n, g ∈ fs1 -> pages t' !! g = Some n -> good s n) /\
  (chain (pages t') h fs2 /\ chain_entries (pages t') fs2 = records tmp2 /\
   forall g n, g ∈ fs2 -> pages t' !! g = Some n -> good nb n) /\
  ((forall g, g ∉ fs -> g <> temp1 -> g <> temp2 -> pages t' !! g = pages t !! g) /\
   (forall g, is_Some (pages t' !! g) -> g ∈ fs \/ g = temp1 \/ g = temp2 -> g ∈ fs1 \/ g ∈ fs2)) /\
  (data_pages t' = data_pages t + Z.of_nat (length fs1) + Z.of_nat (length fs2) - Z.of_nat (length fs) /\
   data_stored t' = data_stored t /\ dirNodes t' = dirNodes (set_bucketPtr t nb h)) /\
  round_ok t' (nb + 1) i' /\ forall key, address hash_func i' (nb + 1) key = address hash_func i (nb + 1) key.

Lemma written_agree ps ps' P b g0 gs es :
  written ps ps' b g0 gs es -> (forall g, g ∈ gs -> P !! g = ps' !! g) ->
  chain P g0 gs /\ chain_entries P gs = es /\ forall g n, g ∈ gs -> P !! g = Some n -> good b n.
Proof.
  intros (C & E & G & _) Ha. split_and!.
  - by eapply chain_pages_agree.
  - by rewrite (chain_entries_agree ps').
  - intros g n Hg. rewrite Ha by done. by apply G.
Qed.

(** The pages after the three phases: [ps1] has the split bucket, [ps3] the
    buddy too, and [ps4] no longer the pages in [left]. *)
Lemma moved_pages ts fs1 fs2 left h ps0 ps1 ps2 ps3 ps4 r1 r2 :
  fs ++ ts = fs1 ++ fs2 ++ left -> NoDup (fs ++ ts) -> (forall g, g ∈ fs1 -> g ∈ fs) ->
  written ps0 ps1 s f fs1 r1 -> (forall g, g ∉ ts -> ps2 !! g = ps1 !! g) -> written ps2 ps3 nb h fs2 r2 ->
  (forall g, ps4 !! g = if decide (g ∈ left) then None else ps3 !! g) ->
  (chain ps4 f fs1 /\ chain_entries ps4 fs1 = r1 /\ forall g n, g ∈ fs1 -> ps4 !! g = Some n -> good s n) /\
  (chain ps4 h fs2 /\ chain_entries ps4 fs2 = r2 /\ forall g n, g ∈ fs2 -> ps4 !! g = Some n -> good nb n) /\
  (forall g, g ∉ fs ++ ts -> ps4 !! g = ps0 !! g) /\
  (forall g, is_Some (ps4 !! g) -> g ∈ fs ++ ts -> g ∈ fs1 \/ g ∈ fs2).
Proof.
  intros EG HndG Hsub W1 H2 W2 H4. pose proof HndG as HndG'. rewrite EG in HndG'.
  apply list.NoDup_app in HndG' as (_ & Hd1 & HndG2). apply list.NoDup_app in HndG2 as (_ & Hd2 & _).
  apply list.NoDup_app in HndG as (_ & Hdis & _).
  assert (forall g, g ∉ left -> g ∉ fs2 -> g ∉ ts -> ps4 !! g = ps1 !! g) as Hps1.
  { intros g Hl Hg Hts. rewrite H4, decide_False by done. destruct W2 as (_ & _ & _ & O). rewrite O by done. by apply H2. }
  split_and!.
  1-3: apply (written_agree _ _ _ _ _ _ _ W1); intros g Hg; specialize (Hd1 g Hg); apply Hps1; [set_solver..|]; apply Hdis; by apply Hsub.
  1-3: apply (written_agree _ _ _ _ _ _ _ W2); intros g Hg; rewrite H4, decide_False by (by apply Hd2); done.
  - intros g HgG. assert (g ∉ ts) by set_solver. rewrite EG in HgG. rewrite Hps1 by set_solver.
    destruct W1 as (_ & _ & _ & O). apply O. set_solver.
  - intros g Hs HgG. rewrite EG in HgG. rewrite H4 in Hs. destruct (decide (g ∈ left)); [by destruct Hs|]. set_solver.
Qed.

Lemma move_pages_ok :
  ndebug = true \/ (length fs <= length tmp1 + length tmp2)%nat ->
  exists t', move_pages ndebug t s nb fs tmp1 tmp2 temp1 temp2 = Some t' /\ moved t'.
Proof.
  intros Hnd'. set (n1 := length tmp1) in *. set (n2 := length tmp2) in *. unfold move_pages. fold n1 n2.
  destruct (Nat.ltb_spec (length fs) n1) as [?|_]; [lia|].
  assert (NoDup fs) as Hndf by by apply list.NoDup_app in Hnd as [? _].
  destruct (write_split_ok XXH s fs tmp1 (pages t) f Hg1 Hchain Hndf Hne1 Hn1) as (ps1 & -> & W1). bind. fold n1 in W1.
  destruct (use_temps (with_pages t ps1) temp1 temp2 fs n1 n2 Hn1 Hn)
    as (t2 & ts & u1 & u2 & ta & ga & -> & -> & Eu & Hp2 & Hd2 & Hl2 & Hts & Fr2 & Ff2 & Fs2).
  simpl in Hp2, Hd2, Ff2, Fs2. set (G := fs ++ ts) in *.
  assert (NoDup G /\ 0 ∉ G) as [HndG HzG].
  { rewrite <- Eu, app_assoc in Hnd. apply list.NoDup_app in Hnd as [? _]. split; [done|]. unfold G.
    rewrite elem_of_app. intros [Hz|Hz]; [by eapply chain_nonzero|]. assert (0 ∈ [temp1; temp2]) by (rewrite <- Eu; set_solver). set_solver. }
  destruct (Z.ltb_spec (data_pages t2) 0) as [?|_].
  { destruct fs; [done|]. simpl in Hdp. lia. }
  destruct (Nat.ltb_spec (length G - n1) n2) as [?|_]; [lia|]. destruct (Nat.ltb_spec kNTempNodes (length G)) as [?|_]; [lia|]. simpl.
  destruct (guards_split fs ts n1 n2 Hn1) as (fs1 & fs2 & left & Efs1 & Efs2 & Eleft & EGG & Edrop & El1 & El2 & ElG); [fold G; lia|].
  fold G in Efs2, EGG, Edrop, Eleft. rewrite Efs1 in W1. rewrite Eleft.
  destruct (write_buddy_ok XXH nb nb (drop n1 G) tmp2 (pages t2) Hg2) as (h & ps3 & Hh & -> & W2).
  { rewrite <- (take_drop n1 G) in HndG. by apply list.NoDup_app in HndG as (_ & _ & ?). }
  { intros H. apply HzG. by eapply elem_of_drop_in. }
  { done. }
  { rewrite length_drop. fold n2. lia. }
  bind. fold n2 in W2. rewrite Efs2 in W2.
  destruct Fr2 as (F1 & F2 & F3 & F4 & F5). simpl in F1, F2, F3, F4, F5.
  destruct (finish_split_ok hash_func (with_pages t2 ps3) nb i) as (t3 & i' & -> & (S1 & S2 & S3 & S4 & S5) & Hr & Ha);
    [done|done|done|simpl; congruence..|]. bind. rewrite Hh. bind. simpl in S1, S2, S3, S4, S5.
  assert (bucketPtr t3 nb = Some 0) as ->. { unfold bucketPtr. rewrite S3, F5. exact Hptr. }
  bind. rewrite Z.eqb_refl. simpl.
  destruct (release_ok ndebug fs left (set_bucketPtr t3 nb h)) as (t4 & -> & Hp4 & Hf4 & Hd4 & Hs4 & (F41 & F42 & F43 & F44 & F45)).
  { destruct Hnd' as [?|Hc]; [by left|right]. apply nil_length_inv. destruct Hts as [-> |Hts]; simpl in ElG; [lia|]. unfold G in Hts. rewrite length_app in Hts. lia. }
  { simpl. rewrite S2, Hd2. assert (1 <= length tmp1)%nat by (destruct tmp1; [done|simpl; lia]).
    destruct Hts as [-> |Hts]; simpl in *; lia. }
  bind. eexists. split; [done|]. exists i', h, fs1, fs2. simpl in *.
  rewrite S4 in Hp4.
  destruct (moved_pages ts fs1 fs2 left h _ _ _ _ _ _ _ EGG HndG ltac:(rewrite <- Efs1; apply elem_of_take_in) W1 Hp2 W2 Hp4)
    as (M1 & M2 & M3 & M4).
  assert (1 <= n1 /\ 1 <= n2)%nat as [Hn1' Hn2'] by (unfold n1, n2; destruct tmp1, tmp2; simpl; (done || lia)).
  split; [split_and!|split; [|split; [|split; [split|split; [split_and!|split]]]]].
  - rewrite Hf4, S5, Ff2. assert (fs ++ temp1 :: temp2 :: free t = G ++ u1 ++ u2 ++ free t) as ->.
    { unfold G. change (temp1 :: temp2 :: free t) with ([temp1; temp2] ++ free t). by rewrite <- Eu, <- !app_assoc. }
    rewrite EGG. solve_Permutation.
  - rewrite <- Efs1. destruct fs, n1; (done || lia).
  - rewrite <- Efs2. destruct (drop n1 G), n2; (done || lia).
  - exact M1.
  - exact M2.
  - intros g Hg Ht1 Ht2. apply M3. unfold G. rewrite elem_of_app. intros [?|Ht]; [done|].
    assert (g ∈ [temp1; temp2]) by (rewrite <- Eu; set_solver). set_solver.
  - intros g Hs Hd. destruct (decide (g ∈ G)) as [HgG|HgG]; [by apply M4|]. exfalso. rewrite M3 in Hs by done.
    destruct Hd as [Hd|[-> | ->]]; [unfold G in HgG; set_solver|rewrite Hf1 in Hs|rewrite Hf2 in Hs]; by destruct Hs.
  - rewrite Hd4, S2, Hd2. lia.
  - congruence.
  - rewrite F45, S3, F5. done.
  - destruct Hr as [R1 R2 R3 R4 R5 R6]. constructor; first [done|etransitivity; [eassumption|eassumption]].
  - done.
Qed.

End move.

(** With fewer pages than before, a debug build runs into [assert(false)]. *)
Lemma move_pages_debug t s nb fs tmp1 tmp2 temp1 temp2 :
  (length tmp1 + length tmp2 < length fs)%nat -> move_pages false t s nb fs tmp1 tmp2 temp1 temp2 = None.
Proof.
  intros H. unfold move_pages. destruct (Nat.ltb_spec (length fs) (length tmp1)) as [?|_]; [done|].
  destruct (write_split _ _ _) as [ps|]; [|done]. bind. unfold use_temp.
  destruct (Nat.ltb_spec (length fs - length tmp1) (length tmp2)) as [?|_]; [lia|].
  destruct (Nat.ltb_spec (length fs - length tmp1) (length tmp2)) as [?|_]; [lia|].
  destruct (_ || _); [done|]. destruct (write_buddy _ _ _ _ _) as [ps3|]; [|done]. bind.
  destruct (finish_split _) as [t3|]; [|done]. bind. destruct (_ !! 0%nat) as [h|]; [|done]. bind.
  destruct (bucketPtr _ _) as [old|]; [|done]. bind. destruct (negb _); [done|].
  destruct (drop (length tmp2 + length tmp1) fs) as [|f gs] eqn:E.
  - apply (f_equal length) in E. rewrite length_drop in E. simpl in E. lia.
  - rewrite release_debug; [done|]. apply (elem_of_drop_in (length tmp2 + length tmp1)). rewrite E. left.
Qed.

(** * [split] *)

Section grow.
Context (XXH : list Z -> Z) (hash_func : list Z -> Z) (ndebug : bool).
Local Abbreviation inv := (LinearHashingInv.inv XXH hash_func).
Local Abbreviation node_ok := (LinearHashingNode.node_ok XXH).
Local Abbreviation address := (LinearHashingInv.address hash_func).

Context (R : Z) (HR : sizeof_Slot <= R <= capacity).

Lemma chain_count ps fs :
  pages_ok XXH ps fs -> fixed R (chain_entries ps fs) ->
  Z.of_nat (length (chain_entries ps fs)) <= per_page R * Z.of_nat (length fs).
Proof.
  induction fs as [|f fs IH]; intros Hok F; [simpl; lia|]. pose proof (per_page_pos R HR).
  destruct (ps !! f) as [n|] eqn:Hn.
  - rewrite (chain_entries_cons _ _ _ n) in F |- * by done. apply Forall_app in F as [F1 F2].
    assert (node_ok n) as H1 by (eapply Hok; [left|done]). pose proof (page_count XXH R HR n H1 F1).
    pose proof (IH (pages_ok_tail _ _ _ _ Hok) F2). rewrite length_app. simpl. lia.
  - unfold chain_entries in *. simpl in *. rewrite Hn in F |- *. simpl in *. pose proof (IH (pages_ok_tail _ _ _ _ Hok) F).
    unfold chain_entries in *. lia.
Qed.

Context (t : LinearHashTable) (chains : list (list Z)) (i : Z) (Hinv : inv t chains i).
Context (Hfix : fixed R (all_entries t chains)).
Context (s : nat) (fs : list Z) (Hs : chains !! s = Some fs) (Es : Z.of_nat s = buckets chains - 2 ^ i * N).

(** The records of the bucket that is split next, packed for the two buckets. *)
Lemma split_partition :
  exists tmp1 tmp2 E1 E2,
    partition XXH hash_func i (Z.of_nat s) (buckets chains) (chain_entries (pages t) fs)
      [new_node false (Z.of_nat s)] [new_node false (buckets chains)] = Some (tmp1, tmp2) /\
    records tmp1 = E1 /\ records tmp2 = E2 /\ E1 ++ E2 ≡ₚ chain_entries (pages t) fs /\
    Forall (good XXH (Z.of_nat s)) tmp1 /\ Forall (good XXH (buckets chains)) tmp2 /\ tmp1 <> [] /\ tmp2 <> [] /\
    (length tmp1 <= length fs)%nat /\ (length tmp1 + length tmp2 <= S (length fs))%nat /\
    (forall e, e ∈ E1 -> address i (buckets chains + 1) e.1 = Z.of_nat s) /\
    (forall e, e ∈ E2 -> address i (buckets chains + 1) e.1 = buckets chains).
Proof.
  pose proof (inv_round _ _ _ _ _ Hinv) as [Hi Hnb _ _ _ _]. set (es := chain_entries (pages t) fs).
  assert (forall e, e ∈ es -> hash_func e.1 mod (2 ^ i * N) = Z.of_nat s /\
    address i (buckets chains + 1) e.1 = hash_func e.1 mod (2 * (2 ^ i * N)) /\
    (hash_func e.1 mod (2 * (2 ^ i * N)) = Z.of_nat s \/ hash_func e.1 mod (2 * (2 ^ i * N)) = buckets chains)) as Hall.
  { intros e He. pose proof (ri_address _ _ _ _ (inv_records _ _ _ _ _ Hinv) s fs e Hs He) as Ha.
    destruct (address_split hash_func i (buckets chains) e.1) as [_ H2]; [lia|lia|]. rewrite Ha, Es in H2.
    destruct (H2 eq_refl) as (A1 & A2 & A3). rewrite Es, <- A2. done. }
  assert (all_entries t chains ≡ₚ es ++ chain_entries (pages t) (concat (take s chains)) ++ chain_entries (pages t) (concat (drop (S s) chains))) as Eall.
  { unfold all_entries. rewrite (concat_split chains s fs Hs), !chain_entries_app. unfold es. solve_Permutation. }
  assert (fixed R es) as HF. { unfold fixed in *. rewrite Eall in Hfix. by apply Forall_app in Hfix as [? _]. }
  assert (NoDup es.*1) as Hnd.
  { pose proof (ri_keys _ _ _ _ (inv_records _ _ _ _ _ Hinv)) as H. rewrite Eall, fmap_app in H. by apply list.NoDup_app in H as [? _]. }
  destruct (partition_ok XXH hash_func R HR i (Z.of_nat s) (buckets chains) es [new_node false (Z.of_nat s)]
    [new_node false (buckets chains)] [] []) as (tmp1 & tmp2 & E & T1 & T2).
  - done.
  - rewrite Es. pose proof (pow2_pos i). lia.
  - intros e He. destruct (Hall e He) as (A1 & _ & A3). done.
  - done.
  - done.
  - apply tmp_ok_new.
  - apply tmp_ok_new.
  - simpl in T1, T2. pose proof (filter_app_complement (stays hash_func i (Z.of_nat s)) es) as Hperm.
    set (E1 := filter (stays hash_func i (Z.of_nat s)) es) in *. set (E2 := filter (fun e => ~ stays hash_func i (Z.of_nat s) e) es) in *.
    destruct (pi_chain _ _ _ (inv_pages _ _ _ _ _ Hinv) s fs Hs) as (h & Hh & _).
    pose proof (chain_count (pages t) fs (inv_pages_ok _ _ _ _ _ Hinv s fs Hs) HF) as Hcount. fold es in Hcount.
    rewrite <- Hperm, length_app, Nat2Z.inj_add in Hcount.
    destruct (two_buckets XXH R HR _ _ tmp1 tmp2 E1 E2 (Z.of_nat (length fs)) T1 T2) as (L1 & L2 & L3); [destruct fs; [done|simpl; lia]|done|].
    exists (rev tmp1), (rev tmp2), E1, E2. rewrite !length_rev. split_and!; try done; try lia.
    + exact (to_records _ _ _ _ _ T1).
    + exact (to_records _ _ _ _ _ T2).
    + apply List.Forall_rev. exact (to_nodes _ _ _ _ _ T1).
    + apply List.Forall_rev. exact (to_nodes _ _ _ _ _ T2).
    + pose proof (to_full _ _ _ _ _ T1). destruct tmp1; [done|]. simpl. by destruct (rev tmp1).
    + pose proof (to_full _ _ _ _ _ T2). destruct tmp2; [done|]. simpl. by destruct (rev tmp2).
    + intros e [Hst He]%list_elem_of_filter. destruct (Hall e He) as (_ & A2 & _). by rewrite A2.
    + intros e [Hst He]%list_elem_of_filter. destruct (Hall e He) as (_ & A2 & [A3|A3]); [done|]. by rewrite A2.
Qed.

Context (Hchain : (length fs < kNTempNodes)%nat) (Hlim : buckets chains < kArraySize * kDirNodeBucketPtrCount).
Context (Hfree : (3 <= length (free t))%nat).

(** The pages that the two buckets need after the split. *)
Definition pages_needed : nat :=
  match partition XXH hash_func i (Z.of_nat s) (buckets chains) (chain_entries (pages t) fs)
      [new_node false (Z.of_nat s)] [new_node false (buckets chains)] with
  | Some (tmp1, tmp2) => length tmp1 + length tmp2
  | None => 0
  end.

(** The state in which the pages are moved: the split pointer is ahead, the
    buddy has a directory slot, and two frames are at hand. *)
Lemma split_start :
  exists t1 temp1 temp2 f dirs,
    split XXH hash_func ndebug t =
      ('(tmp1, tmp2) ← partition XXH hash_func i (Z.of_nat s) (buckets chains) (chain_entries (pages t) fs)
         [new_node false (Z.of_nat s)] [new_node false (buckets chains)];
       let used := foldr (fun f a => default 0 (spaceUsedForData <$> pages t !! f) + a) 0 fs in
       let t2 := with_stats t1 (add_stats (stats t1) (length fs) (length tmp1) (length tmp2) used) in
       move_pages ndebug t2 (Z.of_nat s) (buckets chains) fs tmp1 tmp2 temp1 temp2) /\
    chain (pages t) f fs /\ hd_error fs = Some f /\ free t ≡ₚ dirs ++ temp1 :: temp2 :: free t1 /\
    pages t1 = pages t /\ data_pages t1 = data_pages t /\ data_stored t1 = data_stored t /\
    (sp t1 = make_word i (buckets chains + 1) /\ this_round_started_splits t1 = buckets chains - 2 ^ i * N + 1 /\
     this_round_finished_splits t1 = buckets chains - 2 ^ i * N /\ this_round_split_target t1 = 2 ^ i * N) /\
    (Z.of_nat (length (dirNodes t1)) <= kArraySize /\ buckets chains < numSlots t1 /\
     Forall (fun d => Z.of_nat (length d) = kDirNodeBucketPtrCount) (dirNodes t1) /\
     (forall b, 0 <= b < buckets chains -> bucketPtr t1 b = bucketPtr t b) /\
     (forall b, buckets chains <= b < numSlots t1 -> bucketPtr t1 b = Some 0)).
Proof.
  pose proof (inv_round _ _ _ _ _ Hinv) as [Hi Hnb Hsp Hst Hfi Hta]. set (nb := buckets chains) in *.
  assert (kArraySize * kDirNodeBucketPtrCount = 4186112) as Ek by done. rewrite Ek in Hlim.
  pose proof (pow2_pos i ltac:(lia)) as Hm.
  destruct (pi_chain _ _ _ (inv_pages _ _ _ _ _ Hinv) s fs Hs) as (f & Hf & C).
  destruct (word_load i nb) as [Ep Eb]; [lia|lia|]. unfold split. rewrite Hsp, Ep, Eb, Hta, Hst.
  destruct (Z.ltb_spec (2 ^ i * N) (nb - 2 ^ i * N + 1)) as [?|_]; [lia|]. rewrite Z.eqb_refl. simpl negb. cbv iota.
  rewrite power2_pow by lia. bind. destruct (Z.ltb_spec nb (2 ^ i * N)) as [?|_]; [lia|].
  rewrite wrap_small by (unfold in_width; lia). rewrite <- Es.
  set (t0 := with_round _ _ _ _).
  assert (dir_ok t0 chains) as D0 by (destruct (inv_dir _ _ _ _ _ Hinv); by constructor).
  rewrite getDirNode_here by (pose proof (do_room _ _ D0); lia). bind.
  destruct (free t) as [|f1 [|f2 [|f3 fr]]] eqn:Hfr; simpl in Hfree; try lia.
  destruct (getDirNode_next t0 chains f1 (f2 :: f3 :: fr) D0) as (tD & EtD & Hor & DD); [lia|done|]. fold nb in EtD, DD.
  rewrite EtD. bind.
  destruct DD as (D1 & D2 & D3 & D4 & D5).
  assert (exists temp1 temp2 fr' dirs, free tD = temp1 :: temp2 :: fr' /\ f1 :: f2 :: f3 :: fr ≡ₚ dirs ++ temp1 :: temp2 :: fr') as
    (temp1 & temp2 & fr' & dirs & HfD & Hperm).
  { destruct Hor as [-> | ->]; [exists f1, f2, (f3 :: fr), []|exists f2, f3, fr, [f1]]; done. }
  exists (with_free tD fr'), temp1, temp2, f, dirs.
  assert (pages tD = pages t /\ data_pages tD = data_pages t /\ data_stored tD = data_stored t) as (P1 & P2 & P3)
    by (by destruct Hor as [-> | ->]).
  split_and!; try done.
  1: { unfold alloc. rewrite HfD. bind. simpl free. cbv iota. bind.
    assert (bucketPtr (with_free (with_free tD (temp2 :: fr')) fr') (Z.of_nat s) = Some f) as ->.
    { rewrite <- Hf, <- (do_used _ _ (inv_dir _ _ _ _ _ Hinv) s fs Hs). apply (D4 (Z.of_nat s)). fold nb. lia. }
    bind. simpl pages. rewrite P1, (lock_chain_spec _ fs) by (done || (intros ->; done)).
    rewrite bool_decide_true by lia. bind. done. }
  all: destruct Hor as [-> | ->]; unfold t0;
    cbn [sp this_round_started_splits this_round_finished_splits this_round_split_target with_free with_dirNodes with_round with_sp];
    rewrite ?Hst, ?Hfi, ?Hta; first [reflexivity|lia].
Qed.

(** [split] succeeds and keeps the records, now in one more bucket. *)
Lemma split_inv :
  ndebug = true \/ (length fs <= pages_needed)%nat ->
  exists t' chains' i', split XXH hash_func ndebug t = Some t' /\ inv t' chains' i' /\
    all_entries t' chains' ≡ₚ all_entries t chains /\ buckets chains' = buckets chains + 1.
Proof.
  intros Hdbg. unfold pages_needed in Hdbg.
  destruct split_start as (t1 & temp1 & temp2 & f & dirs & -> & C & Hf & Hfr & P1 & P2 & P3 & (S1 & S2 & S3 & S4) & (D1 & D2 & D3 & D4 & D5)).
  destruct split_partition as (tmp1 & tmp2 & E1 & E2 & Epart & R1 & R2 & HE & G1 & G2 & N1 & N2 & L1 & L2 & A1 & A2).
  rewrite Epart in Hdbg |- *. bind. set (t2 := with_stats t1 _).
  pose proof (inv_round _ _ _ _ _ Hinv) as [Hi Hnb _ _ _ _].
  pose proof (pi_nodup _ _ _ (inv_pages _ _ _ _ _ Hinv)) as Hnd. rewrite Hfr in Hnd. apply list.NoDup_app in Hnd as (_ & Hdis & Hnd).
  apply list.NoDup_app in Hnd as (_ & _ & Hnd).
  assert (forall g, g ∈ fs -> g ∉ free t) as Hff. { intros g Hg. rewrite Hfr. apply Hdis. by eapply concat_in. }
  assert (temp1 ∈ free t /\ temp2 ∈ free t) as [Ht1 Ht2] by (rewrite Hfr; set_solver).
  assert (forall g, g ∈ free t -> g <> 0) as Hz by (intros g Hg ->; by apply (pi_zero _ _ _ (inv_pages _ _ _ _ _ Hinv))).
  destruct (move_pages_ok XXH hash_func ndebug t2 (Z.of_nat s) (buckets chains) i fs f tmp1 tmp2 temp1 temp2)
    as (t' & -> & i' & h & fs1 & fs2 & (M1 & M2 & M3) & (C1 & En1 & Gd1) & (C2 & En2 & Gd2) & (Ag & Gone) & (Dp & Ds & Dn) & Rd & Ad);
    simpl; rewrite ?P1, ?P2; try done; auto.
  { apply list.NoDup_app. split_and!; [by eapply inv_chain_nodup| |].
    - intros g Hg Hin. apply (Hff g Hg). set_solver.
    - apply list.NoDup_cons in Hnd as [H1 Hnd]. apply list.NoDup_cons in Hnd as [H2 _]. repeat constructor; set_solver. }
  { pose proof (inv_chain_data_pages _ _ _ _ _ Hinv _ _ Hs). lia. }
  { apply D5. lia. }
  { by apply (inv_free _ _ _ _ _ Hinv). }
  { by apply (inv_free _ _ _ _ _ Hinv). }
  simpl in *. rewrite ?P1, ?P2, ?P3 in *.
  exists t', (<[s := fs1]> chains ++ [fs2]), i'. split; [done|].
  assert (forall b, bucketPtr t' b = bucketPtr (set_bucketPtr t1 (buckets chains) h) b) as Hbp by (intros b; unfold bucketPtr; by rewrite Dn).
  assert (numSlots t' = numSlots t1) as Hns by (unfold numSlots; rewrite Dn; simpl; by rewrite length_alter).
  destruct (final_inv XXH hash_func R HR t chains i Hinv s fs Hs t' i' f h fs1 fs2) with (fr := temp1 :: temp2 :: free t1) (dirs := dirs) (E1 := E1) (E2 := E2)
    as [H1 H2]; try done; try congruence.
  - intros g Hg1 Hg2. apply Ag; [done|congruence..].
  - intros g Hg [Hd|Hd]; [by apply Gone; [|left]|]. destruct (decide (g = temp1 \/ g = temp2)) as [Ht|Ht]; [by apply Gone; [|right]|].
    rewrite Ag in Hg; [|intros Hin; by apply (Hff g)|tauto..]. rewrite (inv_free _ _ _ _ _ Hinv) in Hg by done. by destruct Hg.
  - rewrite Dn. simpl. by rewrite length_alter.
  - rewrite Dn. by apply set_bucketPtr_length.
  - intros b Hb. rewrite Hbp, bucketPtr_set by (done || lia). rewrite decide_False by lia. by apply D4.
  - rewrite Hbp, bucketPtr_set by (done || (unfold buckets in *; lia)). by rewrite decide_True.
  - intros b Hb. rewrite Hbp, bucketPtr_set by (done || (unfold buckets in *; lia)). rewrite decide_False by lia. apply D5. lia.
  - split_and!; [done|done|]. unfold buckets. rewrite length_app, length_insert. simpl. lia.
Qed.

Lemma split_debug : ndebug = false -> (pages_needed < length fs)%nat -> split XXH hash_func ndebug t = None.
Proof.
  intros Hd Hdbg. unfold pages_needed in Hdbg. destruct split_start as (t1 & temp1 & temp2 & f & dirs & -> & _).
  destruct (partition _ _ _ _ _ _ _ _) as [[tmp1 tmp2]|]; [|done]. bind. rewrite Hd. by apply move_pages_debug.
Qed.

End grow.
