(* ===== verification/LinearHashingRefine.v ===== *)
(** The linear hash table as a finite map: what each operation answers and
    leaves behind, for tables of records of one size. *)
From stdpp Require Import gmap.
From S2P Require Import Prelude BTreeNode LinearHashingNode LinearHashing LinearHashingInv LinearHashingOps LinearHashingSplit LinearHashingGrow.
Local Open Scope Z_scope.

(** What the next operation may need: frames for an overflow page, a directory
    node and the two temporary pages of a split, a directory slot, and room for
    the chain of the next bucket to be split in the vector of guards. *)
Definition next_split (t : LinearHashTable) : Z := load_buddy_bucket (sp t) - 2 ^ load_power (sp t) * N.

Definition short_chain (t : LinearHashTable) : bool :=
  match bucketPtr t (next_split t) with
  | Some f => bool_decide (is_Some (lock_chain (kNTempNodes - 2) (pages t) f))
  | None => false
  end.

Definition ready (t : LinearHashTable) : bool :=
  (4 <=? length (free t))%nat && (load_buddy_bucket (sp t) <? kArraySize * kDirNodeBucketPtrCount) && short_chain t.

Section refine.
Context (XXH : list Z -> Z) (hash_func : list Z -> Z) (R : Z).
Local Abbreviation inv := (LinearHashingInv.inv XXH hash_func).
Local Abbreviation node_ok := (LinearHashingNode.node_ok XXH).
Local Abbreviation address := (LinearHashingInv.address hash_func).

(** The table [t] holds the map [M], in records of size [R]. *)
Definition represents (t : LinearHashTable) (M : gmap (list Z) (list Z)) : Prop :=
  exists chains i, inv t chains i /\ fixed R (all_entries t chains) /\ map_of (all_entries t chains) = M.

Lemma represents_intro t chains i es :
  inv t chains i -> all_entries t chains ≡ₚ es -> fixed R es -> represents t (map_of es).
Proof.
  intros Hinv E F. exists chains, i. split_and!; [done|unfold fixed; by rewrite E|].
  apply map_of_perm; [|done]. apply (ri_keys _ _ _ _ (inv_records _ _ _ _ _ Hinv)).
Qed.

Lemma inv_word t chains i :
  inv t chains i -> load_power (sp t) = i /\ load_buddy_bucket (sp t) = buckets chains /\
    next_split t = buckets chains - 2 ^ i * N.
Proof.
  intros Hinv. pose proof (inv_round _ _ _ _ _ Hinv) as [Hi Hnb Hsp _ _ _].
  assert (2 ^ i <= 16384) by (apply (Z.pow_le_mono_r 2 i 14); lia).
  unfold next_split. rewrite Hsp. destruct (word_load i (buckets chains)) as [E1 E2]; [lia|unfold N in *; lia|].
  by rewrite E1, E2.
Qed.

(** [ready], in terms of the chains. *)
Lemma ready_chain t chains i :
  inv t chains i -> ready t = true ->
  (4 <= length (free t))%nat /\ buckets chains < kArraySize * kDirNodeBucketPtrCount /\
  exists s fs, chains !! s = Some fs /\ Z.of_nat s = buckets chains - 2 ^ i * N /\ (length fs <= kNTempNodes - 2)%nat.
Proof.
  intros Hinv. destruct (inv_word _ _ _ Hinv) as (_ & Eb & En). pose proof (inv_round _ _ _ _ _ Hinv) as [Hi Hnb _ _ _ _].
  unfold ready, short_chain. rewrite Eb, En, !andb_true_iff, Nat.leb_le, Z.ltb_lt. intros [[H1 H2] H3]. split_and!; [done|done|].
  pose proof (pow2_pos i ltac:(lia)).
  destruct (lookup_lt_is_Some_2 chains (Z.to_nat (buckets chains - 2 ^ i * N))) as [fs Hfs]; [unfold buckets in *; lia|].
  exists (Z.to_nat (buckets chains - 2 ^ i * N)), fs. rewrite Z2Nat.id by lia. split_and!; [done|done|].
  destruct (inv_head _ _ _ _ _ Hinv _ _ Hfs) as (f & C & Hne & _ & Hp & _). rewrite Z2Nat.id in Hp by lia. rewrite Hp in H3.
  apply bool_decide_eq_true in H3 as [? H3]. rewrite (lock_chain_spec _ fs) in H3 by done. case_bool_decide; done.
Qed.

(** * Splitting *)

Lemma split_represents t chains i s fs :
  inv t chains i -> fixed R (all_entries t chains) -> sizeof_Slot <= R <= capacity ->
  chains !! s = Some fs -> Z.of_nat s = buckets chains - 2 ^ i * N -> (length fs < kNTempNodes)%nat ->
  buckets chains < kArraySize * kDirNodeBucketPtrCount -> (3 <= length (free t))%nat ->
  exists t', split_if_overloaded XXH hash_func true t = Some t' /\ represents t' (map_of (all_entries t chains)) /\
    load_buddy_bucket (sp t) <= load_buddy_bucket (sp t').
Proof.
  intros Hinv HF HR Hs Es Hl Hlim Hfree. unfold split_if_overloaded. destruct (overloaded t).
  - destruct (split_inv XXH hash_func true R HR t chains i Hinv HF s fs Hs Es Hl Hlim Hfree) as (t' & chains' & i' & -> & H' & E & Eb); [by left|].
    exists t'. split_and!; [done|by apply (represents_intro t' chains' i')|].
    destruct (inv_word _ _ _ Hinv) as (_ & -> & _), (inv_word _ _ _ H') as (_ & -> & _). lia.
  - exists t. split_and!; [done|by exists chains, i|done].
Qed.

(** * Operations *)

Lemma lookup_refines t M key : represents t M -> lookup XXH hash_func t key = Some (M !! key, t).
Proof. intros (chains & i & Hinv & _ & <-). by apply lookup_map with (i := i). Qed.

(** What the operations share: the bucket of the key, and the record found. *)
Lemma represents_found t chains i fs b key g slot :
  inv t chains i -> chains !! b = Some fs -> found_at (pages t) fs key g slot ->
  exists n s v, g ∈ fs /\ pages t !! g = Some n /\ entries n !! slot = Some (key, v) /\ slots n !! slot = Some s /\
    slot_key (bytes n) s = key /\ slot_payload (bytes n) s = v /\ node_ok n /\
    map_of (all_entries t chains) !! key = Some v.
Proof.
  intros Hinv Hb (pre & post & n & v & E & Hn & He). assert (g ∈ fs) as Hg by (rewrite E; set_solver).
  pose proof He as He2. rewrite lh_entries_lookup in He2. apply fmap_Some in He2 as (s & Hs & Es). unfold slot_entry in Es.
  injection Es as Ek Ev. exists n, s, v. split_and!; try done.
  - by eapply (change_node_ok XXH hash_func t chains i Hinv b fs Hb g).
  - apply (inv_map _ _ _ _ _ Hinv). apply chain_entries_elem. exists g, n. split_and!; [by eapply concat_in|done|by eapply list_elem_of_lookup_2].
Qed.

Lemma slot_size_entry n s :
  slot_size s = Z.of_nat (length (slot_key (bytes n) s)) + Z.of_nat (length (slot_payload (bytes n) s)).
Proof. unfold slot_size, slot_key, slot_payload. by rewrite !length_read_bytes. Qed.

Lemma stored_wrapped t chains i : inv t chains i -> u64 (data_stored t) = data_stored t.
Proof.
  intros Hinv. rewrite (ri_stored _ _ _ _ (inv_records _ _ _ _ _ Hinv)). unfold wrap. by rewrite Zmod_mod.
Qed.

(** Writing a payload of the same length. *)
Lemma write_record t chains i b fs g n slot s key v v' d :
  inv t chains i -> fixed R (all_entries t chains) -> chains !! b = Some fs -> g ∈ fs -> pages t !! g = Some n ->
  entries n !! slot = Some (key, v) -> slots n !! slot = Some s -> length v' = length v -> d = data_stored t ->
  let t' := with_data_stored (write_page t g (write_payload n s v')) d in
  inv t' chains i /\ fixed R (all_entries t' chains) /\
  map_of (all_entries t' chains) = <[key := v']> (map_of (all_entries t chains)).
Proof.
  intros Hinv HF Hb Hg Hn He Hs Hl Hd t'.
  assert (node_ok n) as Hok by by eapply (change_node_ok XXH hash_func t chains i Hinv b fs Hb g).
  destruct (lh_write_payload XXH n slot key v v' Hok He Hl) as (s' & Hs' & _ & _ & _ & Hok' & Ee).
  assert (s' = s) as -> by congruence.
  destruct (change_record XXH hash_func t chains i Hinv b fs Hb g Hg n Hn slot key v He (write_payload n s v') [(key, v')] d)
    as (rest & E & H' & E'); [done|done| |by right| |].
  - rewrite Ee. simpl. apply insert_delete_perm. by eapply lookup_lt_Some.
  - rewrite Hd. simpl. rewrite Hl. rewrite Z.sub_diag, Z.add_0_r. symmetry. by apply (stored_wrapped t chains i).
  - fold t' in H', E'. split_and!; [done| |].
    + unfold fixed in *. rewrite E'. rewrite E in HF. inversion HF as [|? ? H1 H2]; subst. constructor; [|done].
      unfold cost in *. simpl in *. by rewrite Hl.
    + rewrite (map_of_perm _ _ (ri_keys _ _ _ _ (inv_records _ _ _ _ _ H')) E').
      rewrite (proj1 (change_map XXH hash_func t chains i Hinv key v rest E)). simpl. by rewrite insert_insert_eq.
Qed.

Lemma with_data_stored_same t : with_data_stored t (data_stored t) = t.
Proof. by destruct t. Qed.

Lemma lookupForUpdate_refines t M key cb :
  represents t M -> (forall v, length (cb v) = length v) ->
  exists t', lookupForUpdate XXH hash_func t key cb = Some (if M !! key then OK else NOT_FOUND, t') /\
    represents t' (alter cb key M).
Proof.
  intros (chains & i & Hinv & HF & <-) Hcb.
  destruct (inv_key _ _ _ _ _ Hinv key) as (b & fs & f & Hb & E1 & _ & E2 & C & Hne & Hok & Hl & Hin).
  unfold lookupForUpdate. rewrite E1. bind. rewrite E2. bind.
  destruct (chain_find_spec XXH _ _ _ key _ C Hne Hok Hl) as [(g & slot & -> & Hfound)|(g & -> & _ & Hk)]; bind.
  - destruct (represents_found _ _ _ _ _ _ _ _ Hinv Hb Hfound) as (n & s & v & Hg & Hn & He & Hs & _ & Ev & _ & HM).
    rewrite Hn. bind. rewrite Hs. bind. rewrite Ev, HM. eexists. split; [done|].
    destruct (write_record t chains i b fs g n slot s key v (cb v) (data_stored t)) as (H1 & H2 & H3); try done.
    change (with_data_stored _ _) with (with_data_stored (write_page t g (write_payload n s (cb v))) (data_stored (write_page t g (write_payload n s (cb v))))) in H1, H2, H3.
    rewrite with_data_stored_same in H1, H2, H3. exists chains, i. split_and!; [done|done|].
    rewrite H3. apply map_eq. intros k. destruct (decide (k = key)) as [->|Hk].
    + by rewrite lookup_insert_eq, lookup_alter_eq, HM.
    + by rewrite lookup_insert_ne, lookup_alter_ne.
  - apply (inv_absent _ _ _ _ _ Hinv key fs Hin) in Hk. rewrite Hk. exists t. split; [done|]. exists chains, i. split_and!; try done.
    apply map_eq. intros k. destruct (decide (k = key)) as [->|Hk']; [by rewrite lookup_alter_eq, Hk|by rewrite lookup_alter_ne].
Qed.

(** * Growing *)

(** One more record, in a chain that is at most one page longer. *)
Definition grown (t : LinearHashTable) (chains : list (list Z)) (i : Z) (e : list Z * list Z) (t1 : LinearHashTable) : Prop :=
  exists chains1, inv t1 chains1 i /\ all_entries t1 chains1 ≡ₚ e :: all_entries t chains /\
    (length (free t) <= S (length (free t1)))%nat /\ length chains1 = length chains /\
    forall s fs1, chains1 !! s = Some fs1 -> exists fs, chains !! s = Some fs /\ (length fs1 <= S (length fs))%nat.

Lemma grown_split t chains i key value t1 :
  inv t chains i -> fixed R (all_entries t chains) -> sizeof_Slot <= R <= capacity -> ready t = true ->
  cost (key, value) = R -> grown t chains i (key, value) t1 ->
  exists t2, split_if_overloaded XXH hash_func true t1 = Some t2 /\
    represents t2 (<[key := value]> (map_of (all_entries t chains))) /\
    load_buddy_bucket (sp t) <= load_buddy_bucket (sp t2).
Proof.
  intros Hinv HF HR Hready Hc (chains1 & H1 & E1 & Hfr & Hlen & Hch).
  destruct (ready_chain _ _ _ Hinv Hready) as (Hf & Hlim & s & fs & Hs & Es & Hl).
  destruct (lookup_lt_is_Some_2 chains1 s) as [fs1 Hfs1]; [rewrite Hlen; by eapply lookup_lt_Some|].
  destruct (Hch _ _ Hfs1) as (fs' & Hs' & Hl'). assert (fs' = fs) as -> by congruence.
  assert (buckets chains1 = buckets chains) as Eb by (unfold buckets; by rewrite Hlen).
  assert (fixed R (all_entries t1 chains1)) as HF1 by (unfold fixed; rewrite E1; by constructor).
  destruct (split_represents t1 chains1 i s fs1 H1 HF1 HR Hfs1) as (t2 & E2 & H2 & B2); [by rewrite Eb|unfold kNTempNodes in *; lia|by rewrite Eb|lia|].
  exists t2. split_and!; [done| |].
  2:{ destruct (inv_word _ _ _ Hinv) as (_ & -> & _). destruct (inv_word _ _ _ H1) as (_ & B & _). lia. }
  by rewrite (map_of_perm _ _ (ri_keys _ _ _ _ (inv_records _ _ _ _ _ H1)) E1) in H2.
Qed.

Lemma cost_fits key value : cost (key, value) = R -> R <= capacity -> cost (key, value) < 65536.
Proof. intros -> H. unfold capacity, EFFECTIVE_PAGE_SIZE, PAGE_SIZE, slot_base in *. lia. Qed.

Section append.
Context (t : LinearHashTable) (chains : list (list Z)) (i : Z) (Hinv : inv t chains i).
Context (b : nat) (fs : list Z) (Hb : chains !! b = Some fs) (key value : list Z).
Context (Haddr : address i (buckets chains) key = Z.of_nat b).
Context (Habs : map_of (all_entries t chains) !! key = None).
Context (HR : sizeof_Slot <= R <= capacity) (Hc : cost (key, value) = R).

Lemma absent_key : key ∉ (all_entries t chains).*1.
Proof. by apply not_elem_of_list_to_map_2 in Habs. Qed.

Lemma insert_at_grown g n :
  g ∈ fs -> pages t !! g = Some n -> canInsert n (length key) (length value) = true ->
  exists t1, insert_at XXH t g key value = Some t1 /\ grown t chains i (key, value) t1.
Proof.
  intros Hg Hn Hcan.
  destruct (insert_at_inv XXH hash_func t chains i Hinv b fs Hb key value Haddr absent_key g n Hg Hn) as (t1 & E & H1 & E1 & Ef);
    [by apply cost_fits; lia|done|].
  exists t1. split; [done|]. exists chains. rewrite Ef. split_and!; try done; [lia|]. intros s' fs' Hs'. exists fs'. split; [done|lia].
Qed.

Lemma add_overflow_grown g :
  last_page (pages t) fs g -> free t <> [] ->
  exists t1, add_overflow XXH t g (Z.of_nat b) key value = Some t1 /\ grown t chains i (key, value) t1.
Proof.
  intros Hlast Hf. destruct (free t) as [|f fr] eqn:Hfr; [done|].
  destruct (add_overflow_inv XXH hash_func t chains i Hinv b fs Hb key value Haddr absent_key g f fr Hlast Hfr) as (t1 & E & H1 & E1 & Ef); [lia|].
  exists t1. split; [done|]. eexists. rewrite Hfr, Ef. split_and!; [done|done|done|apply length_insert|].
  intros s' fs' Hs'. destruct (decide (s' = b)) as [->|Hne].
  - rewrite list_lookup_insert_eq in Hs' by by eapply lookup_lt_Some. injection Hs' as <-. exists fs. split; [done|].
    rewrite length_app. simpl. lia.
  - rewrite list_lookup_insert_ne in Hs' by done. eauto.
Qed.

End append.

Lemma grown_stats t chains i e t1 : grown t chains i e t1 -> grown t chains i e (count_overflow t1).
Proof. intros (chains1 & [[] [] [] []] & H2). exists chains1. split; [|done]. by constructor; constructor. Qed.

Lemma insert_grows t M key value :
  represents t M -> ready t = true -> sizeof_Slot <= R <= capacity -> cost (key, value) = R -> M !! key = None ->
  exists t', insert XXH hash_func true t key value = Some (OK, t') /\ represents t' (<[key := value]> M) /\
    load_buddy_bucket (sp t) <= load_buddy_bucket (sp t').
Proof.
  intros (chains & i & Hinv & HF & <-) Hready HR Hc Habs.
  destruct (ready_chain _ _ _ Hinv Hready) as (Hfree & _).
  destruct (inv_key _ _ _ _ _ Hinv key) as (b & fs & f & Hb & E1 & Ha & E2 & C & Hne & Hok & Hl & Hin).
  unfold insert. rewrite E1. bind. rewrite E2. bind.
  destruct (chain_room_spec _ _ _ (length key) (length value) _ C Hne Hl) as [(g & n & -> & Hg & Hn & Hcan)|(g & -> & Hlast & _)]; bind.
  - destruct (insert_at_grown t chains i Hinv b fs Hb key value Ha Habs HR Hc g n Hg Hn Hcan) as (t1 & -> & Hgrown). bind.
    destruct (grown_split _ _ _ _ _ _ Hinv HF HR Hready Hc Hgrown) as (t2 & -> & H2 & B2). bind. eauto.
  - destruct (add_overflow_grown t chains i Hinv b fs Hb key value Ha Habs HR Hc g Hlast) as (t1 & -> & Hgrown); [by intros E; rewrite E in Hfree; simpl in Hfree; lia|].
    bind. destruct (grown_split _ _ _ _ _ _ Hinv HF HR Hready Hc (grown_stats _ _ _ _ _ Hgrown)) as (t2 & -> & H2 & B2). bind. eauto.
Qed.

Lemma insert_refines t M key value :
  represents t M -> ready t = true -> sizeof_Slot <= R <= capacity -> cost (key, value) = R -> M !! key = None ->
  exists t', insert XXH hash_func true t key value = Some (OK, t') /\ represents t' (<[key := value]> M).
Proof. intros H1 H2 H3 H4 H5. destruct (insert_grows t M key value H1 H2 H3 H4 H5) as (t' & E & H & _). eauto. Qed.

(** The answer [NOT_ENOUGH_SPACE] means that no page of the bucket has room. *)
Lemma insert_might_fail_refines t M key value :
  represents t M -> sizeof_Slot <= R <= capacity -> cost (key, value) = R -> M !! key = None ->
  (exists t', insert_might_fail XXH hash_func t key value = Some (OK, t') /\ represents t' (<[key := value]> M)) \/
  insert_might_fail XXH hash_func t key value = Some (NOT_ENOUGH_SPACE, t).
Proof.
  intros (chains & i & Hinv & HF & <-) HR Hc Habs.
  destruct (inv_key _ _ _ _ _ Hinv key) as (b & fs & f & Hb & E1 & Ha & E2 & C & Hne & Hok & Hl & Hin).
  unfold insert_might_fail. rewrite E1. bind. rewrite E2. bind.
  destruct (chain_room_spec _ _ _ (length key) (length value) _ C Hne Hl) as [(g & n & -> & Hg & Hn & Hcan)|(g & -> & Hlast & _)]; bind; [left|by right].
  destruct (insert_at_grown t chains i Hinv b fs Hb key value Ha Habs HR Hc g n Hg Hn Hcan) as (t1 & -> & chains1 & H1 & E & _). bind.
  exists t1. split; [done|]. apply (represents_intro t1 chains1 i ((key, value) :: all_entries t chains)); [done|done|]. by constructor.
Qed.

Lemma upsert_refines t M key value :
  represents t M -> ready t = true -> sizeof_Slot <= R <= capacity -> cost (key, value) = R ->
  exists t', upsert XXH hash_func true t key value = Some (OK, t') /\ represents t' (<[key := value]> M).
Proof.
  intros (chains & i & Hinv & HF & <-) Hready HR Hc.
  destruct (ready_chain _ _ _ Hinv Hready) as (Hfree & Hlim & s & fs0 & Hs & Es & Hl0).
  destruct (inv_key _ _ _ _ _ Hinv key) as (b & fs & f & Hb & E1 & Ha & E2 & C & Hne & Hok & Hl & Hin).
  unfold upsert. rewrite E1. bind. rewrite E2. bind.
  destruct (chain_find_spec XXH _ _ _ key _ C Hne Hok Hl) as [(g & slot & -> & Hfound)|(g & -> & Hlast & Hk)]; bind.
  - destruct (represents_found _ _ _ _ _ _ _ _ Hinv Hb Hfound) as (n & sl & v & Hg & Hn & He & Hsl & Ek & Ev & Hokn & HM).
    rewrite Hn. bind. rewrite Hsl. bind. pose proof (slot_size_entry n sl) as Hsz. rewrite Ek, Ev in Hsz.
    assert (length value = length v) as Hlen.
    { unfold fixed in HF. rewrite list.Forall_forall in HF. pose proof (HF (key, v)) as Hv. rewrite (inv_map _ _ _ _ _ Hinv) in HM. apply Hv in HM.
      unfold cost in *. simpl in *. lia. }
    assert (update n slot key value = Some (write_payload n sl value)) as ->.
    { rewrite <- Ek. apply lh_update; [done|]. rewrite Hlen, <- Ev. apply length_read_bytes. }
    bind. set (t1 := store_bytes _ _ _). destruct (write_record t chains i b fs g n slot sl key v value (data_stored t1)) as (H1 & H2 & H3); try done.
    { unfold t1. simpl. rewrite Hlen, Hsz, wrap_wrap_add, Z.sub_add. apply (stored_wrapped t chains i Hinv). }
    change (with_data_stored _ _) with t1 in H1, H2, H3.
    destruct (split_represents t1 chains i s fs0 H1 H2 HR Hs Es) as (t2 & -> & H4 & _); [unfold kNTempNodes in *; lia|done|simpl; lia|].
    bind. exists t2. split; [done|]. by rewrite H3 in H4.
  - apply (inv_absent _ _ _ _ _ Hinv key fs Hin) in Hk. destruct Hlast as (pre & n & Epre & Hn & Ho). rewrite Hn. bind.
    assert (last_page (pages t) fs g) as Hlast by (by exists pre, n).
    assert (exists t1, (if canInsert n (length key) (length value) then insert_at XXH t g key value
       else add_overflow XXH t g (Z.of_nat b) key value) = Some t1 /\ grown t chains i (key, value) t1) as (t1 & -> & Hgrown).
    { destruct (canInsert n _ _) eqn:Hcan; [eapply insert_at_grown; try done; rewrite Epre; set_solver|].
      eapply add_overflow_grown; try done. by intros E; rewrite E in Hfree; simpl in Hfree; lia. }
    bind. destruct (grown_split _ _ _ _ _ _ Hinv HF HR Hready Hc Hgrown) as (t2 & -> & H2 & _). bind. eauto.
Qed.

(** The merge at the end of [remove] moves no record out of its bucket. *)
Lemma remove_merge t M key (try_merge : bool) (ret : OP_RESULT) :
  represents t M ->
  exists t', (if try_merge then
      bucket ← find_bucket hash_func t key; t ← getDirNode t bucket; t ← merge_chain t bucket; Some (ret, t)
    else Some (ret, t)) = Some (ret, t') /\ represents t' M.
Proof.
  intros Hrep. destruct try_merge; [|by exists t]. destruct Hrep as (chains & i & Hinv & HF & <-).
  destruct (inv_key _ _ _ _ _ Hinv key) as (b & fs & f & Hb & -> & _). bind.
  destruct (inv_head _ _ _ _ _ Hinv _ _ Hb) as (_ & _ & _ & _ & _ & _ & ->). bind.
  destruct (merge_chain_inv XXH hash_func t chains i b fs Hinv Hb) as (t' & chains' & -> & H' & E'). bind.
  exists t'. split; [done|]. by apply (represents_intro t' chains' i).
Qed.

Lemma remove_refines t M key :
  represents t M ->
  exists t', remove XXH hash_func t key = Some (if M !! key then OK else NOT_FOUND, t') /\ represents t' (delete key M).
Proof.
  intros (chains & i & Hinv & HF & <-).
  destruct (inv_key _ _ _ _ _ Hinv key) as (b & fs & f & Hb & E1 & Ha & E2 & C & Hne & Hok & Hl & Hin).
  unfold remove. rewrite E1. bind. rewrite E2. bind.
  destruct (chain_lookup _ _ _ f C) as [first Hfirst]; [destruct fs; [done|]; destruct C as (-> & _); left|]. rewrite Hfirst. bind.
  destruct (remove_find_spec XXH _ _ _ key _ false C Hne Hok Hl) as (tm & [(g & slot & -> & Hfound)|(-> & Hk)]); bind.
  - destruct (represents_found _ _ _ _ _ _ _ _ Hinv Hb Hfound) as (n & s & v & Hg & Hn & He & Hs & Ek & Ev & Hokn & HM).
    rewrite Hn. bind. rewrite Hs. bind. pose proof (slot_size_entry n s) as Hsz. rewrite Ek, Ev in Hsz. rewrite HM.
    destruct (lh_removeSlot XXH n slot (key, v) Hokn He) as (n' & -> & Hok' & Ee & Hh). bind. apply remove_merge.
    destruct (change_record XXH hash_func t chains i Hinv b fs Hb g Hg n Hn slot key v He n' []
      (u64 (data_stored t - slot_size s))) as (rest & E & H' & E'); [done|done|by rewrite Ee|by left|f_equal; simpl; lia|].
    rewrite <- (proj2 (change_map XXH hash_func t chains i Hinv key v rest E)).
    eapply (represents_intro _ chains i); [exact H'|exact E'|]. unfold fixed in *. rewrite E in HF. by inversion HF.
  - apply (inv_absent _ _ _ _ _ Hinv key fs Hin) in Hk. rewrite Hk, delete_id by done. apply remove_merge. by exists chains, i.
Qed.

End refine.
