(* ===== verification/LinearHashingScan.v ===== *)
(** Creation, iteration and counting of the linear hash table, and the
    callbacks of the buffer manager. *)
From stdpp Require Import gmap.
From S2P Require Import Prelude BTreeNode LinearHashingNode LinearHashing LinearHashingInv LinearHashingOps LinearHashingSplit LinearHashingGrow LinearHashingRefine.
Local Open Scope Z_scope.

Section scan.
Context (XXH : list Z -> Z) (hash_func : list Z -> Z) (R : Z).
Local Abbreviation inv := (LinearHashingInv.inv XXH hash_func).
Local Abbreviation represents := (LinearHashingRefine.represents XXH hash_func R).

(** * Iteration *)

Lemma iterate_slots_app {A} (cb : A -> list Z * list Z -> bool * A) a es1 es2 :
  iterate_slots cb a (es1 ++ es2) =
  let '(c, a') := iterate_slots cb a es1 in if c then iterate_slots cb a' es2 else (false, a').
Proof.
  revert a. induction es1 as [|e es1 IH]; intros a; simpl; [done|]. destruct (cb a e) as [[] a']; [apply IH|done].
Qed.

Lemma iterate_pages_spec {A} (cb : A -> list Z * list Z -> bool * A) ps fs : forall a f fuel,
  chain ps f fs -> fs <> [] -> (length fs <= fuel)%nat ->
  iterate_pages cb a fuel ps f = Some (iterate_slots cb a (chain_entries ps fs)).2.
Proof.
  induction fs as [|g fs IH]; intros a f fuel C Hne Hf; [done|]. destruct fuel as [|fuel]; simpl in Hf; [lia|].
  assert (f = g) as -> by apply C. destruct C as (_ & Hg & n & Hn & C). simpl. rewrite Hn. bind.
  rewrite (chain_entries_cons _ _ _ n), iterate_slots_app by done. destruct (iterate_slots cb a (entries n)) as [[] a']; [|done].
  simpl. destruct (Z.eqb_spec (overflow n) 0) as [E|E].
  - assert (fs = []) as -> by by apply (chain_end ps (overflow n)). done.
  - apply IH; [done|by eapply chain_more|lia].
Qed.

(** * Counting *)

Definition measure_of (measure : LinearHashingNode -> Z) (ps : gmap Z LinearHashingNode) (fs : list Z) : Z :=
  foldr (fun n a => measure n + a) 0 (map (page_at ps) fs).

Lemma measure_app measure ps a b : measure_of measure ps (a ++ b) = measure_of measure ps a + measure_of measure ps b.
Proof. induction a as [|f a IH]; [done|]. unfold measure_of in *. simpl. rewrite IH. lia. Qed.

Lemma sum_buckets_spec measure t chains i : forall todo b x,
  inv t chains i -> (b + todo = length chains)%nat ->
  sum_buckets measure t (Z.of_nat b) todo (u64 x) =
    Some (u64 (x + measure_of measure (pages t) (concat (drop b chains))), t).
Proof.
  induction todo as [|todo IH]; intros b x Hinv Hb.
  { simpl. rewrite drop_ge by lia. unfold measure_of. simpl. by rewrite Z.add_0_r. }
  destruct (lookup_lt_is_Some_2 chains b) as [fs Hfs]; [lia|].
  destruct (inv_head _ _ _ _ _ Hinv _ _ Hfs) as (f & C & Hne & _ & Hp & Hl & Hg).
  cbn [sum_buckets]. rewrite Hg. bind. rewrite Hp. bind. destruct (Z.eqb_spec f 0) as [E0|E0].
  { by rewrite (chain_end _ _ _ C) in E0. }
  rewrite (chain_pages_spec _ fs) by done. bind. rewrite wrap_wrap_add.
  replace (Z.of_nat b + 1) with (Z.of_nat (S b)) by lia. fold (measure_of measure (pages t) fs).
  rewrite IH by (done || lia). rewrite (drop_S _ _ _ Hfs). simpl. rewrite measure_app, Z.add_assoc. done.
Qed.

Lemma measure_count ps s fs : chain ps s fs -> measure_of (fun n => Z.of_nat (count n)) ps fs = Z.of_nat (length (chain_entries ps fs)).
Proof.
  revert s. induction fs as [|f fs IH]; intros s C; [done|]. destruct C as (-> & _ & n & Hn & C).
  unfold measure_of in *. simpl. rewrite (IH _ C), (chain_entries_cons _ _ _ n), length_app, lh_count_entries by done.
  unfold page_at. rewrite Hn. simpl. lia.
Qed.

Lemma measure_one ps fs : measure_of (fun _ => 1) ps fs = Z.of_nat (length fs).
Proof. induction fs as [|f fs IH]; [done|]. unfold measure_of in *. simpl. rewrite IH. lia. Qed.

Lemma measure_chains t chains i :
  inv t chains i -> measure_of (fun n => Z.of_nat (count n)) (pages t) (concat chains) = Z.of_nat (length (all_entries t chains)).
Proof.
  intros Hinv. pose proof (pi_chain _ _ _ (inv_pages _ _ _ _ _ Hinv)) as P4. unfold all_entries. clear Hinv.
  induction chains as [|fs chains IH]; [done|]. simpl. rewrite measure_app, chain_entries_app, length_app, Nat2Z.inj_add. f_equal.
  - destruct (P4 0%nat fs eq_refl) as (f & _ & C). by eapply measure_count.
  - apply IH. intros b fs' Hb. by apply (P4 (S b)).
Qed.

Lemma counts t chains i :
  inv t chains i ->
  countEntries t = Some (u64 (Z.of_nat (length (all_entries t chains))), t) /\
  countPages t = Some (u64 (Z.of_nat (length (concat chains))), t).
Proof.
  intros Hinv. destruct (inv_word _ _ _ _ _ Hinv) as (_ & Eb & _). unfold countEntries, countPages. rewrite Eb. unfold buckets. rewrite Nat2Z.id.
  split; (etransitivity; [apply (sum_buckets_spec _ t chains i (length chains) 0 0 Hinv); lia|]); rewrite drop_0, Z.add_0_l.
  - by rewrite (measure_chains _ _ _ Hinv).
  - by rewrite measure_one.
Qed.

Lemma wrap_sum a b c : u64 (u64 a + u64 b + c) = u64 (a + b + c).
Proof. rewrite <- Z.add_assoc, wrap_wrap_add, Z.add_comm, <- Z.add_assoc, wrap_wrap_add. f_equal. lia. Qed.

(** The statistics split the same sums in two. *)
Lemma stat_buckets_spec t chains i : forall todo b s,
  inv t chains i -> (b + todo = length chains)%nat ->
  exists s', stat_buckets t (Z.of_nat b) todo s = Some (s', t) /\
    u64 (num_entries_primary_page s' + num_entries_overflow_page s') =
      u64 (num_entries_primary_page s + num_entries_overflow_page s +
           measure_of (fun n => Z.of_nat (count n)) (pages t) (concat (drop b chains))) /\
    u64 (num_primary_pages s' + num_overflow_pages s') =
      u64 (num_primary_pages s + num_overflow_pages s + measure_of (fun _ => 1) (pages t) (concat (drop b chains))) /\
    u64 (num_primary_pages s') = u64 (num_primary_pages s + Z.of_nat todo).
Proof.
  induction todo as [|todo IH]; intros b s Hinv Hb.
  { exists s. rewrite drop_ge by lia. unfold measure_of. simpl. rewrite !Z.add_0_r. done. }
  destruct (lookup_lt_is_Some_2 chains b) as [fs Hfs]; [lia|].
  destruct (inv_head _ _ _ _ _ Hinv _ _ Hfs) as (f & C & Hne & _ & Hp & Hl & Hg).
  cbn [stat_buckets]. rewrite Hg. bind. rewrite Hp. bind. destruct (Z.eqb_spec f 0) as [E0|E0].
  { by rewrite (chain_end _ _ _ C) in E0. }
  rewrite (chain_pages_spec _ fs) by done. bind. destruct fs as [|g fs]; [done|]. cbn [map]. bind.
  replace (Z.of_nat b + 1) with (Z.of_nat (S b)) by lia.
  destruct (IH (S b) (add_chain s (page_at (pages t) g) (map (page_at (pages t)) fs)) Hinv) as (s' & -> & H1 & H2 & H3); [lia|].
  exists s'. rewrite H1, H2, H3, (drop_S _ _ _ Hfs). simpl. rewrite !app_comm_cons, !measure_app.
  unfold measure_of, sum_pages. simpl. rewrite !wrap_sum, wrap_wrap_add. split_and!; [done|f_equal; lia..].
Qed.

Lemma stat_sums t chains i :
  inv t chains i ->
  exists s, get_stat t = Some (s, t) /\
    u64 (num_entries_primary_page s + num_entries_overflow_page s) = u64 (Z.of_nat (length (all_entries t chains))) /\
    u64 (num_primary_pages s + num_overflow_pages s) = u64 (Z.of_nat (length (concat chains))) /\
    u64 (num_primary_pages s) = u64 (buckets chains).
Proof.
  intros Hinv. destruct (inv_word _ _ _ _ _ Hinv) as (_ & Eb & _). unfold get_stat. rewrite Eb. unfold buckets. rewrite Nat2Z.id.
  destruct (stat_buckets_spec t chains i (length chains) 0 (mkStat 0 0 0 0 0 0) Hinv) as (s & E & H1 & H2 & H3); [lia|].
  exists s. rewrite drop_0, (measure_chains _ _ _ Hinv) in H1. rewrite drop_0, measure_one in H2. done.
Qed.

(** * The parent of a page *)

Lemma findParent_loop_spec ps pre : forall g f post fuel,
  chain ps g (g :: pre ++ f :: post) -> f ∉ g :: pre -> NoDup (g :: pre) -> (length pre < fuel)%nat ->
  exists p n, findParent_loop fuel ps g f = Some (InPage p) /\ ps !! p = Some n /\ overflow n = f.
Proof.
  induction pre as [|h pre IH]; intros g f post fuel C Hf Hnd Hl; (destruct fuel as [|fuel]; [simpl in Hl; lia|]);
    destruct C as (_ & Hg & n & Hn & C); simpl; rewrite Hn; bind.
  - destruct C as (Eo & Hf0 & _). rewrite Eo. destruct (Z.eqb_spec f 0); [done|]. rewrite Z.eqb_refl. eauto.
  - destruct C as (Eo & Hh0 & C). rewrite Eo. destruct (Z.eqb_spec h 0); [done|].
    destruct (Z.eqb_spec h f) as [->|Hhf]; [set_solver|]. apply (IH h f post); [done|set_solver| |simpl in Hl; lia].
    by apply list.NoDup_cons in Hnd as [_ ?].
Qed.

Lemma findParent_spec t chains i b fs f n :
  inv t chains i -> chains !! b = Some fs -> f ∈ fs -> pages t !! f = Some n ->
  exists place, findParent t f = Some (place, t) /\
    match place with
    | InDirectory b' => b' = Z.of_nat b /\ bucketPtr t b' = Some f
    | InPage g => iterateChildrenSwips t g = Some [f]
    end.
Proof.
  intros Hinv Hb Hf Hn. destruct (pi_page _ _ _ (inv_pages _ _ _ _ _ Hinv) b fs f n Hb Hf Hn) as [_ Eb].
  destruct (inv_head _ _ _ _ _ Hinv _ _ Hb) as (g & C & Hne & _ & Hp & Hl & Hg).
  pose proof (inv_chain_nodup _ _ _ _ _ Hinv _ _ Hb) as Hnd. pose proof (chain_size _ _ _ C Hnd) as Hsz.
  pose proof (chain_nonzero _ _ _ f C Hf) as Hf0.
  unfold findParent. rewrite Hn. bind. rewrite Eb, Hg. bind. rewrite Hp. bind. destruct (Z.eqb_spec g f) as [->|Hgf].
  - eexists. split; [done|]. done.
  - destruct fs as [|g' fs]; [done|]. assert (g = g') as <- by apply C. apply elem_of_cons in Hf as [->|Hf]; [done|].
    apply list_elem_of_split in Hf as (pre & post & ->).
    apply list.NoDup_cons in Hnd as [Hg' Hnd]. apply list.NoDup_app in Hnd as (Hnd1 & Hnd2 & _).
    destruct (findParent_loop_spec (pages t) pre g f post (chain_fuel t) C) as (p & m & -> & Hm & Eo).
    + apply not_elem_of_cons. split; [done|]. intros H. apply (Hnd2 f H). left.
    + apply list.NoDup_cons. split; [set_solver|done].
    + unfold chain_fuel. simpl in Hsz. rewrite length_app in Hsz. simpl in Hsz. lia.
    + bind. eexists. split; [done|]. unfold iterateChildrenSwips. rewrite Hm. bind. rewrite Eo. by destruct (Z.eqb_spec f 0).
Qed.

(** * Creation *)

Definition singles (used : list Z) : list (list Z) := map (fun f => [f]) used.

(** A table under construction: one empty page for each bucket so far. *)
Record partial (t : LinearHashTable) (used : list Z) : Prop := Partial {
  pt_dir : dir_ok t (singles used);
  pt_pages : forall b f, used !! b = Some f -> pages t !! f = Some (new_node false (Z.of_nat b));
  pt_dom : forall f, is_Some (pages t !! f) -> f ∈ used;
  pt_nodup : NoDup (used ++ free t);
  pt_zero : 0 ∉ used ++ free t }.

Lemma singles_lookup used b fs : singles used !! b = Some fs <-> exists f, used !! b = Some f /\ fs = [f].
Proof. unfold singles. rewrite list_lookup_fmap, fmap_Some. done. Qed.

Lemma buckets_singles used : buckets (singles used) = Z.of_nat (length used).
Proof. unfold buckets, singles. by rewrite length_map. Qed.

Lemma concat_singles used : concat (singles used) = used.
Proof. induction used as [|f used IH]; [done|]. simpl. by rewrite <- IH at 2. Qed.

Lemma partial_step t used f fr :
  partial t used -> Z.of_nat (length used) < numSlots t -> free t = f :: fr ->
  partial (set_bucketPtr (write_page (with_free t fr) f (new_node false (Z.of_nat (length used)))) (Z.of_nat (length used)) f) (used ++ [f]).
Proof.
  intros [[D1 D2 D3 D4 D5] P2 P3 P4 P5] Hn Hfr. rewrite buckets_singles in *.
  set (t1 := write_page (with_free t fr) f (new_node false (Z.of_nat (length used)))).
  assert (forall b, bucketPtr t1 b = bucketPtr t b) as Eb by done. assert (numSlots t1 = numSlots t) as En by done.
  assert (f ∉ used) as Hf.
  { intros H. rewrite Hfr in P4. apply list.NoDup_app in P4 as (_ & H2 & _). apply (H2 f H). left. }
  constructor.
  - constructor; rewrite ?numSlots_set, ?buckets_singles, ?length_app, ?En; simpl.
    + by rewrite length_alter.
    + lia.
    + by apply (set_bucketPtr_length t1).
    + intros b fs (g & [[Hlt Hg]|[-> <-]]%lookup_snoc_Some & ->)%singles_lookup; rewrite bucketPtr_set by (done || lia).
      * rewrite decide_False, Eb by lia. apply D4, singles_lookup. eauto.
      * by rewrite decide_True.
    + intros b Hb. rewrite bucketPtr_set by (done || lia). rewrite decide_False, Eb by lia. apply D5. lia.
  - intros b g [[Hlt Hg]|[-> <-]]%lookup_snoc_Some; simpl; [|apply lookup_insert_eq].
    rewrite lookup_insert_ne; [by apply P2|]. intros ->. apply Hf. by eapply list_elem_of_lookup_2.
  - simpl. intros g [m Hm]. destruct (decide (g = f)) as [->|Hne]; [set_solver|]. rewrite lookup_insert_ne in Hm by done.
    apply elem_of_app. left. by apply P3; exists m.
  - simpl. rewrite <- app_assoc. simpl. by rewrite <- Hfr.
  - simpl. rewrite <- app_assoc. simpl. by rewrite <- Hfr.
Qed.

Lemma create_buckets_spec todo : forall t used,
  partial t used -> Z.of_nat (length used + todo) <= numSlots t -> (todo <= length (free t))%nat ->
  exists t' used', create_buckets t (Z.of_nat (length used)) todo = Some t' /\ partial t' used' /\
    length used' = (length used + todo)%nat /\ sp t' = sp t /\ this_round_started_splits t' = this_round_started_splits t /\
    this_round_finished_splits t' = this_round_finished_splits t /\ this_round_split_target t' = this_round_split_target t /\
    data_stored t' = data_stored t /\ data_pages t' = data_pages t /\ (length (free t) = length (free t') + todo)%nat.
Proof.
  induction todo as [|todo IH]; intros t used Hp Hn Hf.
  { exists t, used. rewrite !Nat.add_0_r. done. }
  destruct (free t) as [|f fr] eqn:Hfr; simpl in Hf; [lia|].
  cbn [create_buckets]. rewrite getDirNode_here by lia. bind. unfold alloc. rewrite Hfr. bind.
  pose proof (partial_step t used f fr Hp ltac:(lia) Hfr) as Hp'. set (t1 := set_bucketPtr _ _ _) in *.
  destruct (IH t1 (used ++ [f]) Hp') as (t' & used' & E & H & El & Hrest).
  - unfold t1. rewrite numSlots_set, length_app. simpl. unfold numSlots in *. simpl. lia.
  - simpl. lia.
  - rewrite length_app in E, El. simpl in E, El. replace (Z.of_nat (length used) + 1) with (Z.of_nat (length used + 1)) by lia.
    exists t', used'. simpl in Hrest |- *. destruct Hrest as (? & ? & ? & ? & ? & ? & ?). split_and!; try done; lia.
Qed.

(** The first bucket brings the first directory node. *)
Lemma create_dir d frames todo (t0 : LinearHashTable) :
  dirNodes t0 = [] -> free t0 = d :: frames ->
  create_buckets t0 0 (S todo) = create_buckets (with_dirNodes (with_free t0 frames) [empty_dir]) 0 (S todo).
Proof.
  intros Hd Hf. cbn [create_buckets]. rewrite (getDirNode_here (with_dirNodes _ _)) by done. bind.
  assert (getDirNode t0 0 = Some (with_dirNodes (with_free t0 frames) [empty_dir])) as ->; [|done].
  unfold getDirNode, getDirNode_loop, add_dirNode, alloc, numSlots. rewrite Hd, Hf. simpl. by rewrite Hd.
Qed.

Lemma create_represents frames :
  (129 <= length frames)%nat -> NoDup frames -> 0 ∉ frames ->
  exists t, create frames = Some t /\ represents t ∅ /\ (length frames = length (free t) + 129)%nat.
Proof.
  intros Hl Hnd Hz. destruct frames as [|d frames]; [simpl in Hl; lia|]. unfold create. simpl in Hl.
  apply list.NoDup_cons in Hnd as [Hd Hnd]. apply not_elem_of_cons in Hz as [_ Hz].
  change (Z.to_nat N) with (S 127). rewrite (create_dir d frames) by done.
  set (t0 := with_dirNodes _ _). destruct (create_buckets_spec (S 127) t0 []) as (t & used & Et & [P1 P2 P3 P4 P5] & El & Es & Est & Efi & Eta & Eds & Edp & Ef).
  - constructor; try done; [|by intros f [? ?]]. constructor; try done; [by constructor|].
    intros b Hb. unfold bucketPtr, t0. cbn [dirNodes with_dirNodes]. change (numSlots t0) with 511 in Hb. change (buckets (singles [])) with 0 in Hb.
    change kDirNodeBucketPtrCount with 511. rewrite Z.div_small, Z.mod_small by lia. simpl. apply lookup_replicate_2. change (Z.to_nat kDirNodeBucketPtrCount) with 511%nat. lia.
  - done.
  - simpl. lia.
  - exists t. split; [exact Et|]. simpl in El, Ef, Es, Est, Efi, Eta, Eds, Edp. split; [|simpl; lia].
    assert (all_entries t (singles used) = []) as Eall.
    { unfold all_entries. rewrite concat_singles. destruct (chain_entries (pages t) used) as [|e es] eqn:E; [done|].
      assert (e ∈ chain_entries (pages t) used) as (f & n & Hf & Hn & He)%chain_entries_elem by (rewrite E; left).
      apply list_elem_of_lookup in Hf as [b Hb]. rewrite (P2 _ _ Hb) in Hn. injection Hn as <-. by apply not_elem_of_nil in He. }
    exists (singles used), 0. rewrite Eall. split_and!; [|constructor|done].
    assert (buckets (singles used) = 128) as Eb by (rewrite buckets_singles, El; done).
    constructor.
    + rewrite Eb. constructor; try done; rewrite ?Es, ?Est, ?Efi, ?Eta; done.
    + done.
    + constructor; rewrite ?concat_singles; try done.
      * intros H0. apply P5, elem_of_app. by right.
      * intros b fs (f & Hb & ->)%singles_lookup. exists f. split; [done|]. split_and!; [done| |eexists; split; [by apply P2|done]].
        intros ->. apply P5. apply elem_of_app. left. by eapply list_elem_of_lookup_2.
      * intros b fs f n (g & Hb & ->)%singles_lookup ->%list_elem_of_singleton Hn. rewrite (P2 _ _ Hb) in Hn. injection Hn as <-.
        split; [apply lh_new_node|done].
      * rewrite Edp, El. done.
    + constructor; rewrite ?Eall; [|constructor|by rewrite Eds].
      intros b fs e Hb He. assert (e ∈ all_entries t (singles used)) as H; [|rewrite Eall in H; by apply not_elem_of_nil in H].
      apply chain_entries_elem in He as (f & n & Hf & Hn & He). apply chain_entries_elem. exists f, n. split_and!; try done. by eapply concat_in.
Qed.

End scan.
