(* ===== verification/LinearHashingProps.v ===== *)
(** The properties of the linear hash table: its histories refine a finite
    map, a split keeps the map, iteration and counting see exactly its
    records, the buffer manager finds the parent of every page; and two
    defects, an assertion that stops every split that has pages to give back
    and an insertion that does not notice its key. *)
From stdpp Require Import gmap.
From S2P Require Import Prelude BTreeNode LinearHashingNode LinearHashing LinearHashingInv LinearHashingOps LinearHashingSplit LinearHashingGrow LinearHashingRefine LinearHashingScan.
Local Open Scope Z_scope.

(** * Histories *)

Inductive op :=
| Lookup (key : list Z)
| Update (key : list Z) (cb : list Z -> list Z)
| Insert (key value : list Z)
| Upsert (key value : list Z)
| Remove (key : list Z).

Inductive answer := Found (payload : option (list Z)) | Result (r : OP_RESULT).

Section history.
Context (XXH : list Z -> Z) (hash_func : list Z -> Z) (R : Z).
Local Abbreviation represents := (LinearHashingRefine.represents XXH hash_func R).

(** [ndebug]: without the assertion of line 1440 (see [release]). *)
Definition run_op (ndebug : bool) (t : LinearHashTable) (o : op) : option (answer * LinearHashTable) :=
  match o with
  | Lookup key => '(r, t) ← lookup XXH hash_func t key; Some (Found r, t)
  | Update key cb => '(r, t) ← lookupForUpdate XXH hash_func t key cb; Some (Result r, t)
  | Insert key value => '(r, t) ← insert XXH hash_func ndebug t key value; Some (Result r, t)
  | Upsert key value => '(r, t) ← upsert XXH hash_func ndebug t key value; Some (Result r, t)
  | Remove key => '(r, t) ← remove XXH hash_func t key; Some (Result r, t)
  end.

Fixpoint run (ndebug : bool) (t : LinearHashTable) (os : list op) : option (list answer * LinearHashTable) :=
  match os with
  | [] => Some ([], t)
  | o :: os => '(a, t) ← run_op ndebug t o; '(rs, t) ← run ndebug t os; Some (a :: rs, t)
  end.

(** The finite map that the table stands for. *)
Definition spec_op (M : gmap (list Z) (list Z)) (o : op) : answer * gmap (list Z) (list Z) :=
  match o with
  | Lookup key => (Found (M !! key), M)
  | Update key cb => (Result (if M !! key then OK else NOT_FOUND), alter cb key M)
  | Insert key value | Upsert key value => (Result OK, <[key := value]> M)
  | Remove key => (Result (if M !! key then OK else NOT_FOUND), delete key M)
  end.

Fixpoint spec (M : gmap (list Z) (list Z)) (os : list op) : list answer * gmap (list Z) (list Z) :=
  match os with
  | [] => ([], M)
  | o :: os => let '(a, M) := spec_op M o in let '(rs, M) := spec M os in (a :: rs, M)
  end.

(** What a caller keeps to: records of one size, updates in place that keep the
    length, insertions of absent keys. *)
Definition op_ok (M : gmap (list Z) (list Z)) (o : op) : Prop :=
  match o with
  | Lookup _ | Remove _ => True
  | Update _ cb => forall v, length (cb v) = length v
  | Insert key value => cost (key, value) = R /\ M !! key = None
  | Upsert key value => cost (key, value) = R
  end.

Fixpoint ops_ok (M : gmap (list Z) (list Z)) (os : list op) : Prop :=
  match os with
  | [] => True
  | o :: os => op_ok M o /\ ops_ok (spec_op M o).2 os
  end.

(** Each operation finds the resources it may need. *)
Fixpoint run_ready (t : LinearHashTable) (os : list op) : bool :=
  match os with
  | [] => true
  | o :: os => ready t && match run_op true t o with Some (_, t) => run_ready t os | None => true end
  end.

Lemma op_refines t M o :
  represents t M -> ready t = true -> sizeof_Slot <= R <= capacity -> op_ok M o ->
  exists t', run_op true t o = Some ((spec_op M o).1, t') /\ represents t' (spec_op M o).2.
Proof.
  intros H Hr HR Ho. destruct o as [key|key cb|key value|key value|key]; cbn [run_op spec_op op_ok fst snd] in *.
  - rewrite (lookup_refines _ _ _ _ _ _ H). by exists t.
  - destruct (lookupForUpdate_refines _ _ _ _ _ key cb H Ho) as (t' & -> & H'). by exists t'.
  - destruct Ho as [Hc Ha]. destruct (insert_refines _ _ _ _ _ key value H Hr HR Hc Ha) as (t' & -> & H'). by exists t'.
  - destruct (upsert_refines _ _ _ _ _ key value H Hr HR Ho) as (t' & -> & H'). by exists t'.
  - destruct (remove_refines _ _ _ _ _ key H) as (t' & -> & H'). by exists t'.
Qed.

Lemma run_refines os : forall t M,
  represents t M -> sizeof_Slot <= R <= capacity -> ops_ok M os -> run_ready t os = true ->
  exists t', run true t os = Some ((spec M os).1, t') /\ represents t' (spec M os).2.
Proof.
  induction os as [|o os IH]; intros t M H HR Hok Hr; simpl in *; [by exists t|].
  apply andb_true_iff in Hr as [Hr1 Hr2]. destruct Hok as [Ho Hos].
  destruct (op_refines t M o H Hr1 HR Ho) as (t1 & E & H1). rewrite E in Hr2 |- *. bind.
  destruct (IH t1 _ H1 HR Hos Hr2) as (t2 & -> & H2). bind. exists t2.
  destruct (spec_op M o) as [a M1]. simpl in *. by destruct (spec M1 os).
Qed.

(** With the assertion an operation stops or does what it does without. *)
Definition stops_or_same {A} (debug release : option A) : Prop := debug = None \/ debug = release.

Lemma stops_bind {A B} (d r : option A) (f g : A -> option B) :
  stops_or_same d r -> (forall a, stops_or_same (f a) (g a)) -> stops_or_same (d ≫= f) (r ≫= g).
Proof. intros [-> | ->] H; [by left|]. destruct r as [a|]; [apply H|by right]. Qed.

Lemma stops_refl {A} (o : option A) : stops_or_same o o.
Proof. by right. Qed.

Lemma release_stops original gs : forall t, stops_or_same (release false t original gs) (release true t original gs).
Proof.
  induction gs as [|g gs IH]; intros t; cbn; [apply stops_refl|]. destruct (bool_decide _); [by left|]. cbn.
  destruct (_ <? 0); [apply stops_refl|apply IH].
Qed.

Ltac stops :=
  repeat match goal with
  | |- stops_or_same ?o ?o => apply stops_refl
  | |- stops_or_same (release _ _ _ _) _ => apply release_stops
  | |- stops_or_same (match ?x with _ => _ end) _ => destruct x
  | |- stops_or_same (mbind _ _) _ => apply stops_bind; [|intros]
  | |- stops_or_same (let '_ := ?x in _) _ => destruct x
  end.

Lemma split_stops t : stops_or_same (split XXH hash_func false t) (split XXH hash_func true t).
Proof. unfold split, move_pages. cbv zeta. stops. Qed.

Lemma run_op_stops t o : stops_or_same (run_op false t o) (run_op true t o).
Proof.
  destruct o; cbn [run_op]; unfold insert, upsert, split_if_overloaded; repeat (stops; try apply split_stops).
Qed.

Lemma run_stops os : forall t, stops_or_same (run false t os) (run true t os).
Proof.
  induction os as [|o os IH]; intros t; cbn [run]; [apply stops_refl|].
  apply stops_bind; [apply run_op_stops|]. intros [a t1]. apply stops_bind; [apply IH|]. intros. apply stops_refl.
Qed.

(** C21: from creation on, the hash table answers every sequence of lookups,
    updates in place, insertions, upserts and removals exactly as a finite map
    does, through overflow pages, page merges, bucket splits and rounds, and
    holds the map at the end.  The conditions: the table is created with at
    least 129 distinct frames; all records have one size [R], updates keep the
    length, and a key is inserted only while it is absent ([ops_ok]); before each
    operation there are four free frames, a directory slot and at most [kNTempNodes - 2]
    pages in the chain of the next bucket to be split ([run_ready]); and the
    assertion of line 1440 is compiled out.  No other assertion fires and no
    search runs out of steps.  With that assertion the table stops at it or does
    the same: [split_keeps_map] says exactly when it stops. *)
Theorem hash_table_refines frames t0 os :
  (129 <= length frames)%nat -> NoDup frames -> 0 ∉ frames -> create frames = Some t0 ->
  sizeof_Slot <= R <= capacity -> ops_ok ∅ os -> run_ready t0 os = true ->
  (exists t', run true t0 os = Some ((spec ∅ os).1, t') /\ represents t' (spec ∅ os).2) /\
  (run false t0 os = None \/ run false t0 os = run true t0 os).
Proof.
  intros Hl Hnd Hz Hc HR Hok Hr. split; [|apply run_stops].
  destruct (create_represents XXH hash_func R frames Hl Hnd Hz) as (t & E & H & _).
  assert (t = t0) as -> by congruence. by apply run_refines.
Qed.

(** * Splitting *)

(** The pages that the bucket split next has, and those that its records take
    when they are packed for the two buckets. *)
Definition split_need (t : LinearHashTable) : option (nat * nat) :=
  f ← bucketPtr t (next_split t);
  fs ← lock_chain kNTempNodes (pages t) f;
  let s := next_split t in
  let buddy := load_buddy_bucket (sp t) in
  '(tmp1, tmp2) ← partition XXH hash_func (load_power (sp t)) s buddy (chain_entries (pages t) fs) [new_node false s] [new_node false buddy];
  Some (length fs, (length tmp1 + length tmp2)%nat).

(** C22: [split] on a table of records of one size, with the frames, the
    directory slot and the short chain of [ready].  The records of the bucket
    take at most one page more than it has.  If they take all its pages, or the
    assertion of line 1440 is compiled out, the split pointer moves by one bucket
    and every record is where lookups find it: the chain is repacked into the
    pages of two buckets, the directory grows when it must, and the round ends when
    every bucket has been split.  If they take fewer, so that there are pages to
    give back, the assertion fails. *)
Theorem split_keeps_map (ndebug : bool) t M :
  represents t M -> ready t = true -> sizeof_Slot <= R <= capacity ->
  exists pages_had pages_needed, split_need t = Some (pages_had, pages_needed) /\ (pages_needed <= S pages_had)%nat /\
    if ndebug || (pages_had <=? pages_needed)%nat
    then exists t', split XXH hash_func ndebug t = Some t' /\ represents t' M /\ load_buddy_bucket (sp t') = load_buddy_bucket (sp t) + 1
    else split XXH hash_func ndebug t = None.
Proof.
  intros (chains & i & Hinv & HF & <-) Hr HR. destruct (ready_chain _ _ _ _ _ Hinv Hr) as (Hf & Hlim & s & fs & Hs & Es & Hl).
  destruct (inv_word _ _ _ _ _ Hinv) as (Ei & Eb & En). destruct (inv_head _ _ _ _ _ Hinv _ _ Hs) as (f & C & Hne & _ & Hp & _).
  destruct (split_partition XXH hash_func R HR t chains i Hinv HF s fs Hs Es) as (tmp1 & tmp2 & _ & _ & Epart & _ & _ & _ & _ & _ & _ & _ & _ & L & _).
  assert (pages_needed XXH hash_func t chains i s fs = (length tmp1 + length tmp2)%nat) as Epn by (unfold pages_needed; by rewrite Epart).
  exists (length fs), (length tmp1 + length tmp2)%nat. split; [|split; [lia|]].
  { unfold split_need. rewrite En, <- Es, Hp. bind. rewrite (lock_chain_spec _ fs) by done.
    rewrite bool_decide_true by (unfold kNTempNodes in *; lia). bind. by rewrite Ei, Eb, Epart. }
  destruct (ndebug || _) eqn:Ed.
  - destruct (split_inv XXH hash_func ndebug R HR t chains i Hinv HF s fs Hs Es) as (t' & chains' & i' & E & H' & Ep & Eb');
      [unfold kNTempNodes in *; lia|done|lia| |].
    { apply orb_true_iff in Ed as [->|Hle]; [by left|right]. rewrite Epn. by apply Nat.leb_le. }
    exists t'. split_and!; [done|by apply (represents_intro _ _ _ t' chains' i')|].
    rewrite Eb. destruct (inv_word _ _ _ _ _ H') as (_ & -> & _). done.
  - apply orb_false_iff in Ed as [-> Hlt%Nat.leb_gt].
    apply (split_debug XXH hash_func false t chains i Hinv s fs Hs Es); [unfold kNTempNodes in *; lia|done|lia|done|]. rewrite Epn. lia.
Qed.

(** In particular [split] stops at [assert(false)] on a chain of three or more
    pages without records: the check of the leftover pages compares each with
    the chain it comes from. *)
Theorem split_gives_no_page_back t M f fs :
  represents t M -> ready t = true -> bucketPtr t (next_split t) = Some f -> lock_chain kNTempNodes (pages t) f = Some fs -> (3 <= length fs)%nat ->
  (forall key, is_Some (M !! key) -> find_bucket hash_func t key <> Some (next_split t)) ->
  split XXH hash_func false t = None.
Proof.
  intros (chains & i & Hinv & HF & <-) Hr Hp Hlock Hl Hempty.
  destruct (ready_chain _ _ _ _ _ Hinv Hr) as (Hf & Hlim & s & fs' & Hs & Es & Hl').
  destruct (inv_word _ _ _ _ _ Hinv) as (_ & _ & En). rewrite En, <- Es in *.
  destruct (inv_head _ _ _ _ _ Hinv _ _ Hs) as (f' & C & Hne & _ & Hp' & _). assert (f' = f) as -> by congruence.
  rewrite (lock_chain_spec _ fs') in Hlock by done. case_bool_decide; [|done]. injection Hlock as <-.
  assert (chain_entries (pages t) fs' = []) as Ee.
  { destruct (chain_entries (pages t) fs') as [|[k v] es] eqn:E; [done|]. exfalso.
    assert ((k, v) ∈ chain_entries (pages t) fs') as He by (rewrite E; left).
    apply (Hempty k).
    - exists v. apply (inv_map _ _ _ _ _ Hinv). apply chain_entries_elem in He as (g & n & Hg & He). apply chain_entries_elem.
      exists g, n. split; [by eapply concat_in|done].
    - rewrite (find_bucket_address hash_func t (buckets chains) i) by apply Hinv. f_equal.
      by apply (ri_address _ _ _ _ (inv_records _ _ _ _ _ Hinv) s fs' (k, v)). }
  apply (split_debug XXH hash_func false t chains i Hinv s fs' Hs Es); [unfold kNTempNodes in *; lia|done|lia|done|].
  unfold pages_needed. rewrite Ee. simpl. lia.
Qed.

(** * Iteration, counting, parents *)

(** [iterate] hands the callback the records of the bucket and no others,
    each key once, until the callback stops it. *)
Theorem iterate_bucket t M b :
  represents t M -> 0 <= b < load_buddy_bucket (sp t) ->
  exists es, NoDup es.*1 /\ (forall k v, (k, v) ∈ es <-> M !! k = Some v /\ find_bucket hash_func t k = Some b) /\
    forall A (cb : A -> list Z * list Z -> bool * A) a, iterate t b cb a = Some ((iterate_slots cb a es).2, t).
Proof.
  intros (chains & i & Hinv & HF & <-) Hb. destruct (inv_word _ _ _ _ _ Hinv) as (_ & Eb & _). rewrite Eb in Hb.
  destruct (lookup_lt_is_Some_2 chains (Z.to_nat b)) as [fs Hfs]; [unfold buckets in *; lia|].
  destruct (inv_head _ _ _ _ _ Hinv _ _ Hfs) as (f & C & Hne & _ & Hp & Hl & Hg). rewrite Z2Nat.id in Hp, Hg by lia.
  exists (chain_entries (pages t) fs). split_and!.
  - pose proof (ri_keys _ _ _ _ (inv_records _ _ _ _ _ Hinv)) as H. unfold all_entries in H.
    rewrite (concat_split _ _ _ Hfs), !chain_entries_app, !fmap_app in H.
    apply list.NoDup_app in H as (_ & _ & H). by apply list.NoDup_app in H as [? _].
  - intros k v. rewrite (inv_map _ _ _ _ _ Hinv). destruct (inv_key _ _ _ _ _ Hinv k) as (b' & fs' & f' & Hb' & -> & Ha & _ & _ & _ & _ & _ & Hin).
    rewrite Hin. split.
    + intros He. pose proof (ri_address _ _ _ _ (inv_records _ _ _ _ _ Hinv) _ _ _ Hfs He) as Ha'. simpl in Ha'. rewrite Ha, Z2Nat.id in Ha' by lia.
      assert (b' = Z.to_nat b) as -> by lia. assert (fs' = fs) as -> by congruence. by rewrite Z2Nat.id by lia.
    + intros [He [= Ebb]]. assert (b' = Z.to_nat b) as -> by lia. by assert (fs' = fs) as -> by congruence.
  - intros A cb a. unfold iterate. rewrite Hg. bind. rewrite Hp. bind. destruct (Z.eqb_spec f 0) as [E0|E0].
    { by rewrite (chain_end _ _ _ C) in E0. }
    by rewrite (iterate_pages_spec cb _ fs).
Qed.

(** [countEntries] is the number of keys, [countPages] the page counter
    [data_pages] with the [N] pages of [create], which it leaves out, and
    [get_stat] splits both sums, with one primary page for each bucket. *)
Theorem counts_exact t M :
  represents t M ->
  countEntries t = Some (u64 (Z.of_nat (size M)), t) /\ countPages t = Some (u64 (data_pages t + N), t) /\ 0 <= data_pages t /\
  exists s, get_stat t = Some (s, t) /\ u64 (num_entries_primary_page s + num_entries_overflow_page s) = u64 (Z.of_nat (size M)) /\
    u64 (num_primary_pages s + num_overflow_pages s) = u64 (data_pages t + N) /\
    u64 (num_primary_pages s) = u64 (load_buddy_bucket (sp t)).
Proof.
  intros (chains & i & Hinv & HF & <-). destruct (counts _ _ _ _ _ Hinv) as [-> ->]. pose proof (inv_data_pages _ _ _ _ _ Hinv) as H.
  pose proof (pi_data_pages _ _ _ (inv_pages _ _ _ _ _ Hinv)) as E. destruct (inv_word _ _ _ _ _ Hinv) as (_ & -> & _).
  assert (size (map_of (all_entries t chains)) = length (all_entries t chains)) as ->.
  { rewrite <- length_map_to_list, map_to_list_to_map by apply (ri_keys _ _ _ _ (inv_records _ _ _ _ _ Hinv)). done. }
  rewrite E, Z.sub_add.
  split_and!; [done|done|lia|]. by apply (stat_sums XXH hash_func t chains i).
Qed.

(** [findParent] finds the swip of every page of the table: the directory
    slot of its bucket, or the overflow pointer of the page before it, the one
    swip that [iterateChildrenSwips] reports there. *)
Theorem find_parent_swip t M f :
  represents t M -> is_Some (pages t !! f) ->
  exists place, findParent t f = Some (place, t) /\
    match place with
    | InDirectory b => bucketPtr t b = Some f
    | InPage g => iterateChildrenSwips t g = Some [f]
    end.
Proof.
  intros (chains & i & Hinv & HF & <-) [n Hn].
  assert (f ∈ concat chains) as Hf by (apply (pi_dom _ _ _ (inv_pages _ _ _ _ _ Hinv)); by exists n).
  apply list_elem_of_In, in_concat in Hf as (fs & Hfs & Hf). rewrite <- list_elem_of_In in Hf. apply list_elem_of_In, list_elem_of_lookup in Hfs as [b Hb].
  destruct (findParent_spec XXH hash_func t chains i b fs f n Hinv Hb Hf Hn) as (place & E & H). exists place. split; [done|].
  by destruct place; [destruct H|].
Qed.

End history.

(** * A sample table *)

Definition sample_frames : list Z := map Z.of_nat (seq 1 200).
Definition sample_table : LinearHashTable :=
  default (mkTable 0 0 0 0 0 0 (mkStats 0 0 0 0 0 0 0) [] ∅ []) (create sample_frames).

(** The table after a history. *)
Definition after (t : LinearHashTable) (os : list op) : LinearHashTable :=
  match run of_le of_le true t os with Some (_, t) => t | None => t end.

Lemma sample_created : create sample_frames = Some sample_table.
Proof.
  unfold sample_table. destruct (create sample_frames) as [t|] eqn:E; [done|]. exfalso.
  assert (bool_decide (is_Some (create sample_frames)) = true) as H by (vm_compute; reflexivity).
  rewrite E in H. apply bool_decide_eq_true in H as [? ?]. done.
Defined.

Lemma sample_frames_ok : (129 <= length sample_frames)%nat /\ NoDup sample_frames /\ 0 ∉ sample_frames.
Proof.
  split_and!; [vm_compute; lia|..]; [apply (bool_decide_unpack _)|apply (bool_decide_unpack _)]; vm_compute; exact I.
Defined.

(** The state after an admissible history is the one [run_refines] describes. *)
Lemma after_represents R os :
  sizeof_Slot <= R <= capacity -> ops_ok R ∅ os -> run_ready of_le of_le sample_table os = true ->
  represents of_le of_le R (after sample_table os) (spec ∅ os).2.
Proof.
  intros HR Hok Hr. destruct sample_frames_ok as (H1 & H2 & H3).
  destruct (create_represents of_le of_le R sample_frames H1 H2 H3) as (t & E & H & _).
  assert (t = sample_table) as -> by (apply (inj Some); transitivity (create sample_frames); [symmetry; exact E|exact sample_created]).
  destruct (run_refines of_le of_le R os sample_table ∅ H HR Hok Hr) as (t' & E' & H'). unfold after. by rewrite E'.
Defined.

(** The conditions of a concrete history, one operation at a time. *)
Ltac admissible :=
  cbn [take ops_ok op_ok];
  repeat match goal with
  | |- _ /\ _ => split
  | |- True => exact I
  | |- cost _ = _ => vm_compute; reflexivity
  | |- _ !! _ = None => vm_compute; reflexivity
  | |- forall v, length (rev v) = length v => exact (@length_rev Z)
  end.

Definition k1 : list Z := [0; 1].
Definition k2 : list Z := [0; 2].
Definition k3 : list Z := [0; 3].

Definition sample_history : list op :=
  [Insert k1 [1; 2; 3]; Insert k2 [4; 5; 6]; Update k1 (fun v => rev v); Lookup k1; Upsert k3 [7; 8; 9]; Upsert k2 [6; 6; 6];
   Lookup k2; Remove k1; Lookup k1; Remove k1].

Lemma hash_table_refines_witness :
  exists t', run of_le of_le true sample_table sample_history =
    Some ([Result OK; Result OK; Result OK; Found (Some [3; 2; 1]); Result OK; Result OK; Found (Some [6; 6; 6]);
           Result OK; Found None; Result NOT_FOUND], t') /\
    represents of_le of_le 13 t' (<[k2 := [6; 6; 6]]> {[k3 := [7; 8; 9]]}).
Proof.
  destruct sample_frames_ok as (H1 & H2 & H3).
  destruct (hash_table_refines of_le of_le 13 sample_frames sample_table sample_history H1 H2 H3 sample_created) as ((t' & E & H) & _).
  - vm_compute. split; discriminate.
  - unfold sample_history. admissible.
  - vm_compute. reflexivity.
  - exists t'. split; [exact E|]. exact H.
Defined.

(** A bucket of one page needs two, and no page is given back: the split
    succeeds with the assertion. *)
Lemma split_keeps_map_witness :
  let t := after sample_table (take 5 sample_history) in
  exists t', split_need of_le of_le t = Some (1%nat, 2%nat) /\ split of_le of_le false t = Some t' /\
    represents of_le of_le 13 t' (spec ∅ (take 5 sample_history)).2 /\ load_buddy_bucket (sp t') = load_buddy_bucket (sp t) + 1.
Proof.
  intros t. destruct (split_keeps_map of_le of_le 13 false t (spec ∅ (take 5 sample_history)).2) as (a & b & E & _ & H).
  - apply after_represents; [vm_compute; split; discriminate|unfold sample_history; admissible|vm_compute; reflexivity].
  - vm_compute. reflexivity.
  - vm_compute. split; discriminate.
  - assert (split_need of_le of_le t = Some (1%nat, 2%nat)) as E2 by (vm_compute; reflexivity).
    rewrite E in E2. injection E2 as -> ->. destruct H as (t' & H). exists t'. split; [exact E|exact H].
Defined.

(** Three records of more than half a page each, removed from the last page to
    the first: no page is underfull when it is searched, so none is merged. *)
Definition large : list Z := replicate 8200 7.
Definition drain_history : list op :=
  [Insert k1 large; Insert k2 large; Insert k3 large; Remove k3; Remove k2; Remove k1].
Definition drained : LinearHashTable := after sample_table drain_history.

Lemma split_gives_no_page_back_witness :
  split of_le of_le false drained = None /\ bool_decide (is_Some (split of_le of_le true drained)) = true.
Proof.
  split; [|vm_compute; reflexivity].
  apply (split_gives_no_page_back of_le of_le 8210 drained ∅ 2 [2; 130; 131]).
  - assert ((spec ∅ drain_history).2 = ∅) as E by (vm_compute; reflexivity). rewrite <- E. apply after_represents.
    + vm_compute. split; discriminate.
    + unfold drain_history. admissible.
    + vm_compute. reflexivity.
  - vm_compute. reflexivity.
  - vm_compute. reflexivity.
  - vm_compute. reflexivity.
  - simpl. lia.
  - intros key [v Hv]. rewrite lookup_empty in Hv. exfalso. discriminate Hv.
Defined.

Lemma iterate_bucket_witness :
  exists es, NoDup es.*1 /\ (k2, [4; 5; 6]) ∈ es /\
    forall A (cb : A -> list Z * list Z -> bool * A) a,
      iterate (after sample_table (take 5 sample_history)) 0 cb a = Some ((iterate_slots cb a es).2, after sample_table (take 5 sample_history)).
Proof.
  destruct (iterate_bucket of_le of_le 13 (after sample_table (take 5 sample_history)) (spec ∅ (take 5 sample_history)).2 0) as (es & H1 & H2 & H3).
  - apply after_represents; [vm_compute; split; discriminate|unfold sample_history; admissible|vm_compute; reflexivity].
  - vm_compute. split; [discriminate|reflexivity].
  - exists es. split; [exact H1|]. split; [|exact H3].
    apply (proj2 (H2 k2 [4; 5; 6])). split; vm_compute; reflexivity.
Defined.

Lemma counts_exact_witness :
  countEntries (after sample_table sample_history) = Some (2, after sample_table sample_history) /\
  countPages (after sample_table sample_history) = Some (128, after sample_table sample_history).
Proof.
  destruct (counts_exact of_le of_le 13 (after sample_table sample_history) (spec ∅ sample_history).2) as (H1 & H2 & _).
  - apply after_represents; [vm_compute; split; discriminate|unfold sample_history; admissible|vm_compute; reflexivity].
  - assert (u64 (Z.of_nat (size (spec ∅ sample_history).2)) = 2) as E1 by (vm_compute; reflexivity).
    assert (u64 (data_pages (after sample_table sample_history) + N) = 128) as E2 by (vm_compute; reflexivity).
    rewrite <- E1 at 1. rewrite <- E2 at 1. split; [exact H1|exact H2].
Defined.

Lemma find_parent_swip_witness :
  exists place, findParent (after sample_table (take 3 drain_history)) 131 = Some (place, after sample_table (take 3 drain_history)) /\
    place = InPage 130.
Proof.
  destruct (find_parent_swip of_le of_le 8210 (after sample_table (take 3 drain_history)) (spec ∅ (take 3 drain_history)).2 131) as (place & E & H).
  - apply after_represents; [vm_compute; split; discriminate|unfold drain_history; admissible|vm_compute; reflexivity].
  - apply (bool_decide_unpack _). vm_compute. exact I.
  - exists place. split; [exact E|].
    assert (fst <$> findParent (after sample_table (take 3 drain_history)) 131 = Some (InPage 130)) as E2 by (vm_compute; reflexivity).
    rewrite E in E2. injection E2 as ->. reflexivity.
Defined.

(** * Duplicate keys *)

Definition filler : list Z := replicate 16290 7.
Definition duplicate_history : list op :=
  [Insert k1 [1; 1]; Insert k2 filler; Insert k1 [2; 2]; Lookup k1; Remove k1; Lookup k1].

(** An example: [insert] never answers [DUPLICATE].  When the key's page is
    full, a second record of the key goes to the next page with the answer [OK],
    the lookup still sees the old payload, and after [remove] it sees the other
    one. *)
Example insert_duplicates_key :
  fst <$> run of_le of_le true sample_table duplicate_history =
    Some [Result OK; Result OK; Result OK; Found (Some [1; 1]); Result OK; Found (Some [2; 2])].
Proof. vm_compute. reflexivity. Qed.
