(* ===== verification/HashInterface.v ===== *)
(** What the hash adapters call of a hash table
    (src/backend/leanstore/storage/hashing/LinearHashing.hpp), as a type class,
    what they may rely on, and the linear hash table as an instance.

    A callback that receives a pointer to a payload and may write through it
    is a function from the bytes it sees to the bytes it leaves there and to
    what it captures. *)
From stdpp Require Import gmap.
From S2P Require Import Prelude BTreeNode BTreeNodeOps BTreeInterface Outcome LinearHashingNode LinearHashing LinearHashingInv LinearHashingOps LinearHashingSplit LinearHashingGrow LinearHashingRefine LinearHashingScan.
Local Open Scope Z_scope.

#[export] Instance HT_OP_RESULT_eq_dec : EqDecision LinearHashing.OP_RESULT.
Proof. solve_decision. Defined.

(** * Operations *)

Class HashInterface (T : Type) := {
  ht_lookup : forall {A}, T -> list Z -> (list Z -> list Z * A) -> outcome (option A * T);
  ht_lookupForUpdate : forall {A}, T -> list Z -> (list Z -> list Z * A) -> outcome (option A * T);
  ht_insert : T -> list Z -> list Z -> outcome (OP_RESULT * T);
  ht_insert_might_fail : T -> list Z -> list Z -> outcome (OP_RESULT * T);
  ht_upsert : T -> list Z -> list Z -> outcome (OP_RESULT * T);
  ht_remove : T -> list Z -> outcome (OP_RESULT * T);
  (** [iterate(bucket, callback, restart_set_up_callback)]: no restarts for a
      thread that runs alone. *)
  ht_iterate : forall {S}, T -> Z -> (S -> list Z -> list Z -> S * list Z * bool) -> S -> outcome (S * T);
  ht_countBuckets : T -> Z }.

(** * Contract *)

Definition keeps_length {A} (cb : list Z -> list Z * A) : Prop :=
  forall v, length (cb v).1 = length v.

Definition keeps_length_scan {S} (f : S -> list Z -> list Z -> S * list Z * bool) : Prop :=
  forall s k v, length (f s k v).1.2 = length v.

Class HashContract (T : Type) `{HashInterface T} := {
  ht_holds : T -> kvmap -> Prop;
  record_size : Z;
  ht_holds_size : forall t M k v, ht_holds t M -> M !! k = Some v ->
    sizeof_Slot + Z.of_nat (length k) + Z.of_nat (length v) = record_size;
  (** The bucket of a key. *)
  bucket_of : T -> list Z -> Z;
  buckets_bound : forall t M, ht_holds t M -> 0 < ht_countBuckets t < 2 ^ 31;
  bucket_of_bound : forall t M k, ht_holds t M -> 0 <= bucket_of t k < ht_countBuckets t;
  ht_lookup_spec : forall A t M k (cb : list Z -> list Z * A), ht_holds t M -> keeps_length cb ->
    safe (ht_lookup t k cb) (fun r =>
      r.1 = (fun v => (cb v).2) <$> M !! k /\ ht_holds r.2 (alter (fun v => (cb v).1) k M) /\
      ht_countBuckets r.2 = ht_countBuckets t /\ forall k', bucket_of r.2 k' = bucket_of t k');
  ht_lookupForUpdate_spec : forall A t M k (cb : list Z -> list Z * A), ht_holds t M -> keeps_length cb ->
    safe (ht_lookupForUpdate t k cb) (fun r =>
      r.1 = (fun v => (cb v).2) <$> M !! k /\ ht_holds r.2 (alter (fun v => (cb v).1) k M) /\
      ht_countBuckets r.2 = ht_countBuckets t /\ forall k', bucket_of r.2 k' = bucket_of t k');
  ht_insert_spec : forall t M k v, ht_holds t M -> M !! k = None ->
    sizeof_Slot + Z.of_nat (length k) + Z.of_nat (length v) = record_size ->
    safe (ht_insert t k v) (fun r => r.1 = OK /\ ht_holds r.2 (<[k := v]> M) /\
      ht_countBuckets t <= ht_countBuckets r.2);
  ht_insert_might_fail_spec : forall t M k v, ht_holds t M -> M !! k = None ->
    sizeof_Slot + Z.of_nat (length k) + Z.of_nat (length v) = record_size ->
    safe (ht_insert_might_fail t k v) (fun r =>
      (r.1 = OK /\ ht_holds r.2 (<[k := v]> M) \/ r.1 = NOT_ENOUGH_SPACE /\ ht_holds r.2 M) /\
      ht_countBuckets t <= ht_countBuckets r.2);
  ht_upsert_spec : forall t M k v, ht_holds t M ->
    sizeof_Slot + Z.of_nat (length k) + Z.of_nat (length v) = record_size ->
    safe (ht_upsert t k v) (fun r => r.1 = OK /\ ht_holds r.2 (<[k := v]> M));
  ht_remove_spec : forall t M k, ht_holds t M ->
    safe (ht_remove t k) (fun r => r.1 = (if M !! k then OK else NOT_FOUND) /\
      ht_holds r.2 (delete k M) /\
      ht_countBuckets r.2 = ht_countBuckets t /\ forall k', bucket_of r.2 k' = bucket_of t k');
  (** The records of the bucket, in some order, each once. *)
  ht_iterate_spec : forall t M b, ht_holds t M -> 0 <= b < ht_countBuckets t ->
    exists es, NoDup es.*1 /\ (forall k v, (k, v) ∈ es <-> M !! k = Some v /\ bucket_of t k = b) /\
      forall S (f : S -> list Z -> list Z -> S * list Z * bool) s, keeps_length_scan f ->
      safe (ht_iterate t b f s) (fun r =>
        r.1 = (scan_kvs f s es).1 /\ ht_holds r.2 (list_to_map (scan_kvs f s es).2 ∪ M) /\
        ht_countBuckets r.2 = ht_countBuckets t /\ forall k, bucket_of r.2 k = bucket_of t k) }.

(** The same assignment of keys to buckets. *)
Definition same_buckets {T} `{HashContract T} (t t' : T) : Prop :=
  ht_countBuckets t' = ht_countBuckets t /\ forall k, bucket_of t' k = bucket_of t k.

Lemma same_buckets_trans {T} `{HashContract T} (t1 t2 t3 : T) :
  same_buckets t1 t2 -> same_buckets t2 t3 -> same_buckets t1 t3.
Proof. intros [E1 B1] [E2 B2]. split; [congruence|]. intros k. by rewrite B2. Qed.
