(* ===== verification/LinearHashingTable.v ===== *)
(** The linear hash table, without the assertion of LinearHashing.cpp:1440 (the
    flag of [release]), as an instance of the interface of the hash adapters. *)
From stdpp Require Import gmap.
From S2P Require Import Prelude BTreeNode BTreeNodeOps BTreeInterface LinearHashingNode LinearHashing LinearHashingInv LinearHashingOps LinearHashingSplit LinearHashingGrow LinearHashingRefine LinearHashingScan LinearHashingProps Outcome HashInterface.
Local Open Scope Z_scope.

(** * The split pointer *)

(** Only a split moves the split pointer. *)

Section sp.
Context (XXH hash_func : list Z -> Z).

Lemma alloc_sp t f t' : alloc t = Some (f, t') -> sp t' = sp t.
Proof. unfold alloc. destruct (free t); [done|]. by intros [= _ <-]. Qed.

Lemma getDirNode_loop_sp fuel : forall t b t', getDirNode_loop fuel t b = Some t' -> sp t' = sp t.
Proof.
  induction fuel as [|fuel IH]; intros t b t'; cbn; (destruct (b <? numSlots t); [by intros [= <-]|]); [done|].
  intros E.
  destruct (add_dirNode t) as [t1|] eqn:E1; [|done]. cbn [mbind option_bind] in E. rewrite (IH _ _ _ E).
  unfold add_dirNode in E1. destruct (alloc t) as [[f t2]|] eqn:Ea; [|done]. cbn [mbind option_bind] in E1.
  destruct (_ <? kArraySize); [|done]. injection E1 as <-. exact (alloc_sp _ _ _ Ea).
Qed.

Lemma getDirNode_sp t b t' : getDirNode t b = Some t' -> sp t' = sp t.
Proof. apply getDirNode_loop_sp. Qed.

Lemma bucket_head_sp t b f t' : bucket_head t b = Some (f, t') -> sp t' = sp t.
Proof.
  unfold bucket_head. intros E. destruct (getDirNode t b) as [t1|] eqn:E1; [|done]. cbn [mbind option_bind] in E.
  destruct (bucketPtr t1 b) as [g|]; [|done]. cbn [mbind option_bind] in E. destruct (g =? 0); [done|]. injection E as _ <-.
  by eapply getDirNode_sp.
Qed.

Lemma lookupForUpdate_sp t key cb r t' : lookupForUpdate XXH hash_func t key cb = Some (r, t') -> sp t' = sp t.
Proof.
  unfold lookupForUpdate. intros E. destruct (find_bucket hash_func t key) as [b|]; [|done]. cbn [mbind option_bind] in E.
  destruct (bucket_head t b) as [[f t1]|] eqn:E1; [|done]. cbn [mbind option_bind] in E. apply bucket_head_sp in E1. rewrite <- E1.
  destruct (chain_find _ _ _ _ _) as [[[g slot]|g]|]; cbn [mbind option_bind] in E; [|by injection E as _ <-|done].
  destruct (pages t1 !! g) as [n|]; [|done]. cbn [mbind option_bind] in E. destruct (slots n !! slot); [|done]. by injection E as _ <-.
Qed.

Lemma insert_might_fail_sp t key v r t' :
  insert_might_fail XXH hash_func t key v = Some (r, t') -> sp t' = sp t.
Proof.
  unfold insert_might_fail. intros E. destruct (find_bucket hash_func t key) as [b|]; [|done]. cbn [mbind option_bind] in E.
  destruct (bucket_head t b) as [[f t1]|] eqn:E1; [|done]. cbn [mbind option_bind] in E. apply bucket_head_sp in E1. rewrite <- E1.
  destruct (chain_room _ _ _ _ _) as [[g|g]|]; cbn [mbind option_bind] in E; [|by injection E as _ <-|done].
  unfold insert_at in E. destruct (pages t1 !! g) as [n|]; [|done]. cbn [mbind option_bind] in E.
  destruct (LinearHashingNode.insert _ _ _ _); [|done]. by injection E as _ <-.
Qed.

Lemma merge_loop_sp fuel : forall t pp t', merge_loop fuel t pp = Some t' -> sp t' = sp t.
Proof.
  induction fuel as [|fuel IH]; intros t pp t' E; [done|]. cbn [merge_loop mbind option_bind] in E.
  destruct (pages t !! pp) as [p|]; [|done]. cbn [mbind option_bind] in E. destruct (pages t !! overflow p) as [n|]; [|done]. cbn [mbind option_bind] in E.
  destruct (hasEnoughSpaceFor _ _).
  - destruct (requestSpaceFor _ _) as [[? p1]|]; [|done]. cbn [mbind option_bind] in E.
    destruct (if (count n =? 0)%nat then _ else _) as [p2|]; [|done]. cbn [mbind option_bind] in E.
    destruct (data_pages _ <? 0); [done|]. by injection E as <-.
  - destruct (overflow n =? 0); [by injection E as <-|]. by apply IH in E.
Qed.

Lemma remove_sp t key r t' : remove XXH hash_func t key = Some (r, t') -> sp t' = sp t.
Proof.
  unfold remove. intros E. destruct (find_bucket hash_func t key) as [b|]; [|done]. cbn [mbind option_bind] in E.
  destruct (bucket_head t b) as [[f t1]|] eqn:E1; [|done]. cbn [mbind option_bind] in E. apply bucket_head_sp in E1. rewrite <- E1.
  destruct (pages t1 !! f) as [first|]; [|done]. cbn [mbind option_bind] in E.
  destruct (remove_find _ _ _ _ _ _) as [[o tm]|]; [|done]. cbn [mbind option_bind] in E.
  destruct (match o with Some _ => _ | None => _ end) as [[ret t2]|] eqn:E2; [|done]. cbn [mbind option_bind] in E.
  assert (sp t2 = sp t1) as S2.
  { destruct o as [[g slot]|]; [|by injection E2 as _ <-]. destruct (pages t1 !! g) as [n|]; [|done]. cbn [mbind option_bind] in E2.
    destruct (slots n !! slot); [|done]. cbn [mbind option_bind] in E2. destruct (removeSlot n slot); [|done]. by injection E2 as _ <-. }
  rewrite <- S2. destruct (tm && _); [|by injection E as _ <-].
  destruct (find_bucket hash_func t2 key) as [b2|]; [|done]. cbn [mbind option_bind] in E.
  destruct (getDirNode t2 b2) as [t3|] eqn:E3; [|done]. cbn [mbind option_bind] in E. rewrite <- (getDirNode_sp _ _ _ E3).
  destruct (merge_chain t3 b2) as [t4|] eqn:E4; [|done]. injection E as _ <-. unfold merge_chain in E4.
  destruct (bucketPtr t3 b2) as [h|]; [|done]. cbn [mbind option_bind] in E4. destruct (pages t3 !! h) as [n|]; [|done]. cbn [mbind option_bind] in E4.
  destruct (overflow n =? 0); [by injection E4 as <-|]. by eapply merge_loop_sp.
Qed.
End sp.

(** * The instance *)

(** A table with the hash function [hash_func], fingerprints by [XXH] and
    records of size [R]. *)
Record Linear (XXH hash_func : list Z -> Z) (R : Z) := mkLinear { linear_table : LinearHashTable }.
Arguments mkLinear {XXH hash_func R}.
Arguments linear_table {XXH hash_func R}.

Section instance.
Context (XXH hash_func : list Z -> Z) (R : Z).
Abbreviation T := (Linear XXH hash_func R).

Definition pack {A} (o : option (A * LinearHashTable)) : outcome (A * T) :=
  match o with Some (a, t) => Done (a, mkLinear t) | None => Stuck end.

(** What the table needs before it may have to split. *)
Definition when_ready {A} (t : T) (m : outcome A) : outcome A :=
  if ready (linear_table t) then m else NoRoom.

(** The callback on the payload of the key, in place. *)
Definition linear_update {A} (t : T) (key : list Z) (cb : list Z -> list Z * A) : outcome (option A * T) :=
  '(r, t) ← pack (lookup XXH hash_func (linear_table t) key);
  match r with
  | None => Done (None, t)
  | Some v =>
      '(_, t) ← pack (lookupForUpdate XXH hash_func (linear_table t) key (fun v => (cb v).1));
      Done (Some (cb v).2, t)
  end.

(** The callback on the records of a bucket, in the order of [iterate]. *)
Fixpoint linear_visit {S} (t : T) (f : S -> list Z -> list Z -> S * list Z * bool) (s : S)
    (es : list (list Z * list Z)) : outcome (S * T) :=
  match es with
  | [] => Done (s, t)
  | (k, v) :: es =>
      '(_, t) ← pack (lookupForUpdate XXH hash_func (linear_table t) k (fun v => (f s k v).1.2));
      let '(s1, _, continue) := f s k v in
      if continue : bool then linear_visit t f s1 es else Done (s1, t)
  end.

Definition linear_iterate {S} (t : T) (b : Z) (f : S -> list Z -> list Z -> S * list Z * bool) (s : S)
    : outcome (S * T) :=
  '(es, t) ← pack (iterate (linear_table t) b (fun es e => (true, es ++ [e])) []);
  linear_visit t f s es.

#[export] Instance Linear_interface : HashInterface T := {
  ht_lookup A := @linear_update A;
  ht_lookupForUpdate A := @linear_update A;
  ht_insert t k v := when_ready t (pack (insert XXH hash_func true (linear_table t) k v));
  ht_insert_might_fail t k v := pack (insert_might_fail XXH hash_func (linear_table t) k v);
  ht_upsert t k v := when_ready t (pack (upsert XXH hash_func true (linear_table t) k v));
  ht_remove t k := pack (remove XXH hash_func (linear_table t) k);
  ht_iterate S := @linear_iterate S;
  ht_countBuckets t := load_buddy_bucket (sp (linear_table t)) }.

Context (HR : sizeof_Slot <= R <= capacity).
Local Abbreviation represents := (LinearHashingRefine.represents XXH hash_func R).

Lemma linear_update_spec A (t : T) M k (cb : list Z -> list Z * A) :
  represents (linear_table t) M -> keeps_length cb ->
  safe (linear_update t k cb) (fun r =>
    r.1 = (fun v => (cb v).2) <$> M !! k /\ represents (linear_table r.2) (alter (fun v => (cb v).1) k M) /\
    sp (linear_table r.2) = sp (linear_table t)).
Proof.
  intros H Hcb. unfold linear_update. rewrite (lookup_refines _ _ _ _ _ _ H). cbn.
  destruct (M !! k) as [v|] eqn:E; cbn.
  - destruct (lookupForUpdate_refines _ _ _ _ _ k (fun v => (cb v).1) H Hcb) as (t' & E' & H').
    rewrite E'. cbn. split; [done|]. split; [done|]. by rewrite (lookupForUpdate_sp _ _ _ _ _ _ _ E').
  - split; [done|]. split; [|done]. rewrite alter_id; [done|]. intros v Hv. congruence.
Qed.

Lemma linear_visit_spec S (f : S -> list Z -> list Z -> S * list Z * bool) es : forall (t : T) M s,
  represents (linear_table t) M -> keeps_length_scan f -> NoDup es.*1 ->
  (forall k v, (k, v) ∈ es -> M !! k = Some v) ->
  safe (linear_visit t f s es) (fun r =>
    r.1 = (scan_kvs f s es).1 /\ represents (linear_table r.2) (list_to_map (scan_kvs f s es).2 ∪ M) /\
    sp (linear_table r.2) = sp (linear_table t)).
Proof.
  induction es as [|[k v] es IH]; intros t M s H Hf Hnd Hin; cbn [linear_visit scan_kvs].
  - cbn. by rewrite map_empty_union.
  - cbn in Hnd. apply list.NoDup_cons in Hnd as [Hk Hnd].
    destruct (lookupForUpdate_refines _ _ _ _ _ k (fun v => (f s k v).1.2) H) as (t' & E' & H'); [intros; apply Hf|].
    rewrite E'. cbn [pack mbind outcome_bind]. pose proof (lookupForUpdate_sp _ _ _ _ _ _ _ E') as Esp.
    assert (M !! k = Some v) as Hkv by (apply Hin; left).
    assert (alter (fun v => (f s k v).1.2) k M = <[k := (f s k v).1.2]> M) as EM.
    { apply map_eq. intros k'. destruct (decide (k' = k)) as [->|];
        [by rewrite lookup_alter_eq, lookup_insert_eq, Hkv|by rewrite lookup_alter_ne, lookup_insert_ne]. }
    rewrite EM in H'. destruct (f s k v) as [[s1 v1] cont] eqn:Ef. cbn [fst snd] in H'. destruct cont.
    + specialize (IH (mkLinear t') (<[k := v1]> M) s1 H' Hf Hnd).
      destruct (scan_kvs f s1 es) as [s2 l2] eqn:Es. eapply safe_mono; [apply IH|].
      * intros k' v' He. rewrite lookup_insert_ne; [apply Hin; by right|]. intros ->. apply Hk.
        apply list_elem_of_fmap. by exists (k', v').
      * intros [s3 t3] (E1 & E2 & E3). cbn in *. split; [done|]. split; [|by rewrite E3, Esp].
        assert (list_to_map l2 ∪ <[k := v1]> M = <[k := v1]> (list_to_map l2) ∪ M) as <-; [|done].
        apply map_eq. intros k'. rewrite !lookup_union.
        destruct (decide (k' = k)) as [->|]; [rewrite !lookup_insert_eq|by rewrite !lookup_insert_ne].
        assert (list_to_map l2 !! k = @None (list Z)) as ->; [|by destruct (M !! k)].
        apply not_elem_of_list_to_map_1. intros ([k0 v0] & -> & He)%list_elem_of_fmap. apply Hk.
        pose proof (scan_kvs_keys f s1 es k0 v0) as Hkeys. rewrite Es in Hkeys.
        destruct (Hkeys He) as (? & v' & Hv' & _). apply list_elem_of_fmap. by exists (k0, v').
    + cbn. split; [done|]. split; [|by rewrite Esp]. by rewrite <- insert_union_l, map_empty_union.
Qed.

Lemma collect_records es acc :
  iterate_slots (fun es e => (true, es ++ [e])) acc es = (true, acc ++ es).
Proof.
  revert acc. induction es as [|e es IH]; intros acc; cbn; [by rewrite app_nil_r|].
  by rewrite IH, <- app_assoc.
Qed.

Lemma sp_buckets (t t' : LinearHashTable) : sp t' = sp t ->
  load_buddy_bucket (sp t') = load_buddy_bucket (sp t) /\
  forall k, default 0 (find_bucket hash_func t' k) = default 0 (find_bucket hash_func t k).
Proof. intros E. unfold find_bucket. by rewrite E. Qed.

#[export] Program Instance Linear_contract : HashContract T := {
  ht_holds t M := represents (linear_table t) M;
  record_size := R;
  bucket_of t k := default 0 (find_bucket hash_func (linear_table t) k) }.
Next Obligation.
  cbn. intros t M k v (chains & i & Hinv & HF & <-) Hk. apply (inv_map _ _ _ _ _ Hinv) in Hk.
  unfold fixed in HF. rewrite list.Forall_forall in HF. apply (HF _ Hk).
Qed.
Next Obligation.
  cbn. intros t M (chains & i & Hinv & HF & <-). destruct (inv_word _ _ _ _ _ Hinv) as (_ & -> & _).
  pose proof (inv_round _ _ _ _ _ Hinv) as [Hi Hnb Hsp _ _ _].
  assert (2 ^ i <= 16384) by (apply (Z.pow_le_mono_r 2 i 14); lia).
  pose proof (pow2_pos i ltac:(lia)). unfold N in *. lia.
Qed.
Next Obligation.
  cbn. intros t M k (chains & i & Hinv & HF & <-). destruct (inv_word _ _ _ _ _ Hinv) as (_ & -> & _).
  destruct (inv_key _ _ _ _ _ Hinv k) as (b & fs & f & Hb & -> & _). cbn. apply lookup_lt_Some in Hb.
  unfold buckets. lia.
Qed.
Next Obligation.
  intros A t M k cb H Hcb. eapply safe_mono; [apply (linear_update_spec A t M k cb H Hcb)|].
  intros r (E1 & E2 & E3). split; [done|]. split; [done|]. by apply sp_buckets.
Qed.
Next Obligation.
  intros A t M k cb H Hcb. eapply safe_mono; [apply (linear_update_spec A t M k cb H Hcb)|].
  intros r (E1 & E2 & E3). split; [done|]. split; [done|]. by apply sp_buckets.
Qed.
Next Obligation.
  intros t M k v H Hk Hc. cbn. unfold when_ready. destruct (ready _) eqn:Hr; [|done].
  destruct (insert_grows _ _ _ _ _ _ _ H Hr HR Hc Hk) as (t' & -> & H' & B). cbn. done.
Qed.
Next Obligation.
  intros t M k v H Hk Hc. cbn.
  destruct (insert_might_fail_refines _ _ _ _ _ _ _ H HR Hc Hk) as [(t' & E & H')|E]; rewrite E; cbn.
  - rewrite (insert_might_fail_sp _ _ _ _ _ _ _ E). split; [by left|done].
  - split; [by right|done].
Qed.
Next Obligation.
  intros t M k v H Hc. cbn. unfold when_ready. destruct (ready _) eqn:Hr; [|done].
  destruct (upsert_refines _ _ _ _ _ _ _ H Hr HR Hc) as (t' & -> & H'). cbn. done.
Qed.
Next Obligation.
  intros t M k H. cbn. destruct (remove_refines _ _ _ _ _ k H) as (t' & E & H'). rewrite E. cbn.
  split; [done|]. split; [done|]. by apply sp_buckets, (remove_sp _ _ _ _ _ _ E).
Qed.
Next Obligation.
  intros [t] M b H Hb. cbn in H, Hb. destruct (iterate_bucket _ _ _ _ _ _ H Hb) as (es & Hnd & Hin & Hit).
  exists es. split; [done|]. split.
  { intros k v. rewrite Hin. cbn. destruct H as (chains & i & Hinv & _).
    destruct (inv_key _ _ _ _ _ Hinv k) as (b' & fs & f & _ & -> & _). cbn. naive_solver. }
  intros S f s Hf. cbn. unfold linear_iterate. rewrite Hit, collect_records. cbn [snd app pack mbind outcome_bind].
  eapply safe_mono; [apply (linear_visit_spec S f es (mkLinear t) M s); [done..|]|].
  - intros k v He. by apply Hin in He as [? _].
  - intros [s' [t']]. cbn. intros (E1 & E2 & E3). split; [done|]. split; [done|]. by apply (sp_buckets t t').
Qed.
End instance.
