(* ===== verification/HashAdapter.v ===== *)
(** The adapter over one hash table (src/backend/hash/HashAdapter.hpp,
    [HashVSAdapter] with [Key] = [u64]): definitions, and that it behaves as a
    map.  I/O statistics are left out. *)
From stdpp Require Import gmap.
From S2P Require Import Prelude Fold BTreeNode BTreeNodeOps BTreeInterface LinearHashingNode LinearHashing LinearHashingRefine LinearHashingProps Outcome HashInterface LinearHashingTable.
Local Open Scope Z_scope.

Record HashVSAdapter (T : Type) := mkHashVS {
  hash_table : T;
  hv_total_lookups : Z;
  hv_scan_ops : Z }.
Arguments mkHashVS {T}.
Arguments hash_table {T}.
Arguments hv_total_lookups {T}.
Arguments hv_scan_ops {T}.

(** The constructor. *)
Definition new_hash_adapter {T} (t : T) : HashVSAdapter T := mkHashVS t 0 0.

(** [memcpy(payload, &v, payload_length)]: the first bytes of [v]. *)
Definition overwrite (v w : list Z) : list Z * unit := (take (length w) (v ++ drop (length v) w), tt).

Section operations.
Context {T : Type} `{HashInterface T}.
Implicit Types (s : HashVSAdapter T).

Definition hv_set_table s (t : T) : HashVSAdapter T := mkHashVS t (hv_total_lookups s) (hv_scan_ops s).
Definition hv_count_lookup s : HashVSAdapter T := mkHashVS (hash_table s) (hv_total_lookups s + 1) (hv_scan_ops s).

(** [None] is [return false]; the payload is copied as long as it is. *)
Definition hv_lookup s (k : Z) : outcome (option (list Z) * HashVSAdapter T) :=
  let s := hv_count_lookup s in
  '(r, t) ← ht_lookup (hash_table s) (fold_u64 k) (fun v => (v, v));
  Done (r, hv_set_table s t).

(** The answer of the table is ignored. *)
Definition hv_insert s (k : Z) (v : list Z) : outcome (HashVSAdapter T) :=
  '(_, t) ← ht_insert (hash_table s) (fold_u64 k) v;
  Done (hv_set_table s t).

Definition hv_remove s (k : Z) : outcome (bool * HashVSAdapter T) :=
  '(r, t) ← ht_remove (hash_table s) (fold_u64 k);
  Done (bool_decide (r = LinearHashing.OK), hv_set_table s t).

Definition hv_update s (k : Z) (v : list Z) : outcome (HashVSAdapter T) :=
  let s := hv_count_lookup s in
  '(_, t) ← ht_lookupForUpdate (hash_table s) (fold_u64 k) (overwrite v);
  Done (hv_set_table s t).

Definition hv_put s (k : Z) (v : list Z) : outcome (HashVSAdapter T) := hv_update s k v.

(** The scan itself is commented out. *)
Definition hv_scan s (start_key length : Z) : HashVSAdapter T :=
  mkHashVS (hash_table s) (hv_total_lookups s) (hv_scan_ops s + 1).

(** [clear_stats] *)
Definition hv_clear_stats s : HashVSAdapter T := mkHashVS (hash_table s) (hv_total_lookups s) 0.
End operations.

(** * Histories *)

(** The operations that store and find records; [hv_scan] visits none. *)
Inductive hv_op := VLookup (k : Z) | VInsert (k : Z) (v : list Z) | VRemove (k : Z) | VUpdate (k : Z) (v : list Z)
  | VPut (k : Z) (v : list Z).
Inductive hv_result := Nothing | Value (o : option (list Z)) | Removed (b : bool).

Definition hv_spec (M : gmap Z (list Z)) (o : hv_op) : hv_result * gmap Z (list Z) :=
  match o with
  | VLookup k => (Value (M !! k), M)
  | VInsert k v => (Nothing, <[k := v]> M)
  | VRemove k => (Removed (bool_decide (is_Some (M !! k))), delete k M)
  | VUpdate k v | VPut k v => (Nothing, if M !! k then <[k := v]> M else M)
  end.

Fixpoint hv_specs (M : gmap Z (list Z)) (os : list hv_op) : list hv_result * gmap Z (list Z) :=
  match os with
  | [] => ([], M)
  | o :: os => let (r, M) := hv_spec M o in let (rs, M) := hv_specs M os in (r :: rs, M)
  end.

Section run.
Context {T : Type} `{HashInterface T}.

Definition hv_step (s : HashVSAdapter T) (o : hv_op) : outcome (hv_result * HashVSAdapter T) :=
  match o with
  | VLookup k => '(r, s) ← hv_lookup s k; Done (Value r, s)
  | VInsert k v => s ← hv_insert s k v; Done (Nothing, s)
  | VRemove k => '(b, s) ← hv_remove s k; Done (Removed b, s)
  | VUpdate k v => s ← hv_update s k v; Done (Nothing, s)
  | VPut k v => s ← hv_put s k v; Done (Nothing, s)
  end.

Fixpoint hv_run (s : HashVSAdapter T) (os : list hv_op) : outcome (list hv_result * HashVSAdapter T) :=
  match os with
  | [] => Done ([], s)
  | o :: os => '(r, s) ← hv_step s o; '(rs, s) ← hv_run s os; Done (r :: rs, s)
  end.
End run.

(** Keys of 64 bits, payloads of [n] bytes, no insertion of a key that is
    there. *)
Definition hv_op_ok (n : nat) (M : gmap Z (list Z)) (o : hv_op) : Prop :=
  match o with
  | VLookup k | VRemove k => in_width 64 k
  | VInsert k v => in_width 64 k /\ length v = n /\ M !! k = None
  | VUpdate k v | VPut k v => in_width 64 k /\ length v = n
  end.

Fixpoint hv_ops_ok (n : nat) (M : gmap Z (list Z)) (os : list hv_op) : Prop :=
  match os with
  | [] => True
  | o :: os => hv_op_ok n M o /\ hv_ops_ok n (hv_spec M o).2 os
  end.

Section adapter.
Context {T : Type} `{HashContract T} (n : nat).
Context (Hsize : record_size (T := T) = sizeof_Slot + 8 + Z.of_nat n).
Implicit Types (s : HashVSAdapter T) (M : gmap Z (list Z)).

(** The table holds the records of [M] under their folded keys. *)
Definition hv_shows s M : Prop :=
  exists m, ht_holds (hash_table s) m /\ (forall k, in_width 64 k -> m !! fold_u64 k = M !! k) /\
    forall kb v, m !! kb = Some v -> length v = n.

Lemma overwrite_full v w : length v = length w -> (overwrite v w).1 = v.
Proof. intros E. cbn. rewrite drop_ge by lia. rewrite app_nil_r. apply take_ge. lia. Qed.

Lemma overwrite_length v : keeps_length (overwrite v).
Proof. intros w. cbn. rewrite length_take, length_app, length_drop. lia. Qed.

Lemma fold_insert (m : kvmap) M k v :
  in_width 64 k -> (forall k, in_width 64 k -> m !! fold_u64 k = M !! k) ->
  forall k', in_width 64 k' -> <[fold_u64 k := v]> m !! fold_u64 k' = <[k := v]> M !! k'.
Proof.
  intros Hk Hm k' Hk'. destruct (decide (k' = k)) as [->|Hne]; [by rewrite !lookup_insert_eq|].
  rewrite !lookup_insert_ne; [by apply Hm|done|]. intros E. apply Hne. symmetry. by apply fold_u64_inj.
Qed.

Lemma hv_update_ok s M k v :
  hv_shows s M -> in_width 64 k -> length v = n ->
  safe (hv_update s k v) (fun s' => hv_shows s' (if M !! k then <[k := v]> M else M)).
Proof.
  intros (m & Hh & Hm & Hn) Hk Hv. unfold hv_update. apply safe_bind.
  eapply safe_mono; [apply ht_lookupForUpdate_spec; [exact Hh|apply overwrite_length]|].
  intros [r t] (_ & Ht & _). cbn [fst snd] in Ht. cbn. rewrite <- (Hm k Hk). destruct (m !! fold_u64 k) as [w|] eqn:E.
  - assert (alter (fun w => (overwrite v w).1) (fold_u64 k) m = <[fold_u64 k := v]> m) as Em.
    { apply map_eq. intros i. destruct (decide (i = fold_u64 k)) as [->|].
      - rewrite lookup_alter_eq, lookup_insert_eq, E. cbn [fmap option_fmap option_map].
        by rewrite overwrite_full by (rewrite (Hn _ _ E); done).
      - by rewrite lookup_alter_ne, lookup_insert_ne. }
    rewrite Em in Ht. exists (<[fold_u64 k := v]> m). split; [done|]. split; [by apply fold_insert|].
    intros kb w' [[_ <-]|[_ Hw]]%lookup_insert_Some; [done|by eapply Hn].
  - rewrite alter_id in Ht by congruence. exists m. done.
Qed.

Lemma hv_step_ok s M o :
  hv_shows s M -> hv_op_ok n M o ->
  safe (hv_step s o) (fun r => r.1 = (hv_spec M o).1 /\ hv_shows r.2 (hv_spec M o).2).
Proof.
  intros S Ho. pose proof S as (m & Hh & Hm & Hn). destruct o as [k|k v|k|k v|k v]; cbn [hv_step hv_op_ok] in *.
  - apply safe_bind, safe_bind. eapply safe_mono; [apply ht_lookup_spec; [exact Hh|done]|].
    intros [r t] (E & Ht & _). cbn in E, Ht. rewrite alter_id in Ht by done. cbn. rewrite E, (Hm k Ho).
    split; [by destruct (M !! k)|]. by exists m.
  - destruct Ho as (Hk & Hv & HM). rewrite <- (Hm k Hk) in HM. apply safe_bind, safe_bind.
    eapply safe_mono; [apply ht_insert_spec; [exact Hh|exact HM|rewrite Hsize, length_fold_u64, Hv; lia]|].
    intros [r t] (_ & Ht & _). cbn in Ht. cbn. split; [done|]. exists (<[fold_u64 k := v]> m).
    split; [done|]. split; [by apply fold_insert|].
    intros kb w [[_ <-]|[_ Hw]]%lookup_insert_Some; [done|by eapply Hn].
  - apply safe_bind, safe_bind. eapply safe_mono; [apply ht_remove_spec, Hh|].
    intros [r t] (E & Ht & _). cbn in E, Ht. cbn. rewrite E, (Hm k Ho). split; [by destruct (M !! k)|].
    exists (delete (fold_u64 k) m). split; [done|]. split.
    + intros k' Hk'. destruct (decide (k' = k)) as [->|Hne]; [by rewrite !lookup_delete_eq|].
      rewrite !lookup_delete_ne; [by apply Hm|done|]. intros E'. apply Hne. symmetry. by apply fold_u64_inj.
    + intros kb w [_ Hw]%lookup_delete_Some. by eapply Hn.
  - apply safe_bind. eapply safe_mono; [by apply hv_update_ok; try apply Ho|]. done.
  - apply safe_bind. eapply safe_mono; [by apply hv_update_ok; try apply Ho|]. done.
Qed.

(** C31: histories of lookups, insertions, removals, updates and puts on the
    adapter over one hash table return what they return on a map.  The
    conditions: 64-bit keys, payloads of one size, and insertions of absent keys
    only, since the table would keep two records of one key; a history may end
    early when the table runs out of room ([NoRoom]).  A [put] is an update: of an
    absent key it stores nothing.  Scans are not part of the histories: the code
    of [scan] is commented out, so that it returns no records. *)
Theorem hash_adapter_refines os : forall s M,
  hv_shows s M -> hv_ops_ok n M os ->
  safe (hv_run s os) (fun r => r.1 = (hv_specs M os).1 /\ hv_shows r.2 (hv_specs M os).2).
Proof.
  induction os as [|o os IH]; intros s M S Ho; cbn [hv_run hv_specs]; [done|].
  destruct Ho as [Ho Hos]. apply safe_bind. eapply safe_mono; [by apply (hv_step_ok s M o)|].
  intros [r s1] [Er S1]. cbn in Er, S1. destruct (hv_spec M o) as [r' M1]. cbn in Er, S1, Hos. subst r'. apply safe_bind.
  eapply safe_mono; [by apply (IH s1 M1)|]. intros [rs s2] [Ers S2]. cbn in Ers, S2.
  destruct (hv_specs M1 os) as [rs' M2]. cbn in *. by subst.
Qed.
End adapter.

Lemma hv_fits : sizeof_Slot <= 17 <= capacity. Proof. vm_compute. split; discriminate. Qed.
Local Instance hv_contract : HashContract (Linear of_le of_le 17) := Linear_contract of_le of_le 17 hv_fits.

Definition sample_hv : HashVSAdapter (Linear of_le of_le 17) := new_hash_adapter (mkLinear sample_table).
Definition sample_hv_ops : list hv_op :=
  [VInsert 5 [7]; VInsert 3 [9]; VPut 4 [2]; VUpdate 5 [8]; VLookup 5; VLookup 4; VRemove 3; VRemove 3].
Definition sample_hv_results : list hv_result :=
  [Nothing; Nothing; Nothing; Nothing; Value (Some [8]); Value None; Removed true; Removed false].

Lemma sample_hv_shows : hv_shows 1 sample_hv ∅.
Proof.
  exists ∅. split; [|split; [|intros kb v; by rewrite lookup_empty]].
  - assert (forall t, after t [] = t) as E by reflexivity.
    change (represents of_le of_le 17 sample_table ∅). rewrite <- (E sample_table).
    apply (after_represents 17 []); [apply hv_fits|done|]. reflexivity.
  - intros k _. by rewrite !lookup_empty.
Qed.

Lemma hash_adapter_refines_witness :
  exists s', hv_run sample_hv sample_hv_ops = Done (sample_hv_results, s') /\ hv_shows 1 s' {[5 := [8]]}.
Proof.
  assert (hv_ops_ok 1 ∅ sample_hv_ops) as Ho.
  { cbn [sample_hv_ops hv_ops_ok hv_op_ok]. repeat match goal with |- _ /\ _ => split end;
      try exact I; try (unfold in_width; lia); reflexivity. }
  pose proof (hash_adapter_refines (T := Linear of_le of_le 17) 1 eq_refl sample_hv_ops sample_hv ∅ sample_hv_shows Ho) as Hs.
  assert (match hv_run sample_hv sample_hv_ops with Done (rs, _) => Some rs | _ => None end = Some sample_hv_results) as Er
    by (vm_compute; reflexivity).
  destruct (hv_run sample_hv sample_hv_ops) as [[rs s']| |]; [|discriminate Er..]. injection Er as ->.
  exists s'. split; [reflexivity|]. destruct Hs as [_ Hs]. exact Hs.
Defined.
