(* ===== verification/TwoHash.v ===== *)
(** The two-hash adapter (src/backend/twohash/TwoHash.hpp, [TwoHashAdapter]
    with [Key] = [u64]): definitions.

    A hot hash table meant to stay in memory caches records of a cold one.
    Hot values are tagged payloads (modified, referenced); records move up on
    access and down by a clock that walks the buckets of the hot table, record
    by record or bucket by bucket.

    The tables are values of any type with a [HashInterface].  Each operation
    is the whole call made by one thread, the lock-table operations included.
    What the operations read from outside (the number of hot pages, random
    numbers) is an argument.  I/O statistics are left out. *)
From stdpp Require Import gmap.
From S2P Require Import Prelude Fold LockTable BTreeNode BTreeNodeOps BTreeInterface LinearHashing Outcome HashInterface TwoBTree.
Import LockTable.Optimistic.
Local Open Scope Z_scope.

Abbreviation HT_OK := LinearHashing.OK.
Abbreviation HT_NOT_ENOUGH_SPACE := LinearHashing.NOT_ENOUGH_SPACE.

(** * State *)

Record HashConfig := mkHashConfig {
  base : Config;   (* payload size, inclusive, lazy migration, hot capacity *)
  number_records_to_scan_per_eviction : Z;
  evict_by_records : bool }.

Record TwoHash (TH TC : Type) := mkTwoHash {
  hot_hash_table : TH;
  cold_hash_table : TC;
  hash_locks : OptimisticLockTable;
  clock_bucket : Z;                              (* clock_hand *)
  clock_hand_bucket : Z;
  clock_hand_bucket_record_seq : Z;
  current_bucket_keys_for_eviction : list Z;
  hash_eviction_round : Z;
  hash_round_ref_counter : Z * Z;
  eviction_write_lock_fails : Z;
  scanned_items : Z;
  hash_stats : Stats }.
Arguments mkTwoHash {TH TC}.
Arguments hot_hash_table {TH TC}.
Arguments cold_hash_table {TH TC}.
Arguments hash_locks {TH TC}.
Arguments clock_bucket {TH TC}.
Arguments clock_hand_bucket {TH TC}.
Arguments clock_hand_bucket_record_seq {TH TC}.
Arguments current_bucket_keys_for_eviction {TH TC}.
Arguments hash_eviction_round {TH TC}.
Arguments hash_round_ref_counter {TH TC}.
Arguments eviction_write_lock_fails {TH TC}.
Arguments scanned_items {TH TC}.
Arguments hash_stats {TH TC}.

(** The constructor: the configuration it computes and the state it leaves. *)
Definition make_hash_config (payload_size : nat) (capacity_bytes eviction_scan_size : Z)
    (evict_by_records inclusive : bool) (lazy_migration_sampling_rate : Z) : HashConfig :=
  let lazy := lazy_migration_sampling_rate <? 100 in
  mkHashConfig
    (mkConfig payload_size inclusive lazy (if lazy then u64 lazy_migration_sampling_rate else 10) capacity_bytes)
    eviction_scan_size evict_by_records.

Definition new_two_hash {TH TC} (hot : TH) (cold : TC) : TwoHash TH TC :=
  mkTwoHash hot cold new_table 0 0 0 [] 0 (0, 0) 0 0 (mkStats 0 0 0 0 0 0 0 0 0).

(** What an operation reads from outside. *)
Record HashEnv := mkHashEnv {
  hot_pages : Z;        (* by [try_eviction] *)
  migrate_rand : Z;     (* [getRandU64(0, 100)] in [should_migrate] *)
  admit_rand : Z }.     (* [getRandU64(0, 100)] before [admit_element] *)

(** The payload a fresh hot record gets. *)
Definition fresh_tagged (v : list Z) (is_modified is_referenced : bool) : TaggedPayload :=
  let tp := mkTagged v 0 in
  let tp := if is_referenced then set_referenced tp else clear_referenced tp in
  if is_modified then set_modified tp else clear_modified tp.

Section operations.
Context {TH TC : Type} `{HashInterface TH} `{HashInterface TC} (hcfg : HashConfig).
Local Abbreviation cfg := (base hcfg).
Local Abbreviation state := (TwoHash TH TC).

Definition put_hot (s : state) (t : TH) : state :=
  mkTwoHash t (cold_hash_table s) (hash_locks s) (clock_bucket s) (clock_hand_bucket s)
    (clock_hand_bucket_record_seq s) (current_bucket_keys_for_eviction s) (hash_eviction_round s)
    (hash_round_ref_counter s) (eviction_write_lock_fails s) (scanned_items s) (hash_stats s).
Definition put_cold (s : state) (t : TC) : state :=
  mkTwoHash (hot_hash_table s) t (hash_locks s) (clock_bucket s) (clock_hand_bucket s)
    (clock_hand_bucket_record_seq s) (current_bucket_keys_for_eviction s) (hash_eviction_round s)
    (hash_round_ref_counter s) (eviction_write_lock_fails s) (scanned_items s) (hash_stats s).
Definition put_locks (s : state) (l : OptimisticLockTable) : state :=
  mkTwoHash (hot_hash_table s) (cold_hash_table s) l (clock_bucket s) (clock_hand_bucket s)
    (clock_hand_bucket_record_seq s) (current_bucket_keys_for_eviction s) (hash_eviction_round s)
    (hash_round_ref_counter s) (eviction_write_lock_fails s) (scanned_items s) (hash_stats s).
(** The clock: [clock_hand] and the round of the walk by buckets. *)
Definition put_clock (s : state) (hand round : Z) : state :=
  mkTwoHash (hot_hash_table s) (cold_hash_table s) (hash_locks s) hand (clock_hand_bucket s)
    (clock_hand_bucket_record_seq s) (current_bucket_keys_for_eviction s) round
    (hash_round_ref_counter s) (eviction_write_lock_fails s) (scanned_items s) (hash_stats s).
(** The clock of the walk by records. *)
Definition put_hand (s : state) (bucket seq : Z) (keys : list Z) (round : Z) : state :=
  mkTwoHash (hot_hash_table s) (cold_hash_table s) (hash_locks s) (clock_bucket s) bucket seq keys round
    (hash_round_ref_counter s) (eviction_write_lock_fails s) (scanned_items s) (hash_stats s).
Definition tally (s : state) (f : Stats -> Stats) : state :=
  mkTwoHash (hot_hash_table s) (cold_hash_table s) (hash_locks s) (clock_bucket s) (clock_hand_bucket s)
    (clock_hand_bucket_record_seq s) (current_bucket_keys_for_eviction s) (hash_eviction_round s)
    (hash_round_ref_counter s) (eviction_write_lock_fails s) (scanned_items s) (f (hash_stats s)).
Definition count_scanned (s : state) (n : Z) : state :=
  mkTwoHash (hot_hash_table s) (cold_hash_table s) (hash_locks s) (clock_bucket s) (clock_hand_bucket s)
    (clock_hand_bucket_record_seq s) (current_bucket_keys_for_eviction s) (hash_eviction_round s)
    (hash_round_ref_counter s) (eviction_write_lock_fails s) (scanned_items s + n) (hash_stats s).
Definition count_lock_fail (s : state) : state :=
  mkTwoHash (hot_hash_table s) (cold_hash_table s) (hash_locks s) (clock_bucket s) (clock_hand_bucket s)
    (clock_hand_bucket_record_seq s) (current_bucket_keys_for_eviction s) (hash_eviction_round s)
    (hash_round_ref_counter s) (eviction_write_lock_fails s + 1) (scanned_items s) (hash_stats s).

(** [eviction_round_ref_counter[i]] and its increments. *)
Definition round_counter (s : state) (i : Z) : Z :=
  if i =? 0 then (hash_round_ref_counter s).1 else (hash_round_ref_counter s).2.
Definition add_round_counter (s : state) (i n : Z) : state :=
  let (a, b) := hash_round_ref_counter s in
  mkTwoHash (hot_hash_table s) (cold_hash_table s) (hash_locks s) (clock_bucket s) (clock_hand_bucket s)
    (clock_hand_bucket_record_seq s) (current_bucket_keys_for_eviction s) (hash_eviction_round s)
    (if i =? 0 then (a + n, b) else (a, b + n)) (eviction_write_lock_fails s) (scanned_items s) (hash_stats s).

Definition assert (b : bool) : outcome unit := if b then Done tt else Stuck.

(** [clear_stats], with [clear_io_stats]. *)
Definition hash_clear_stats (s : state) : state :=
  tally s (fun c => mkStats (hot_partition_item_count c) (hot_partition_size_bytes c) 0
    (failed_upward_migrations c) 0 0 0 0 (scan_ops c)).

(** * Partition helpers *)

Definition upsert_cold (s : state) (k : Z) (v : list Z) : outcome state :=
  '(r, t) ← ht_upsert (cold_hash_table s) (fold_u64 k) v;
  assert (bool_decide (r = HT_OK)) ≫= fun _ => Done (put_cold s t).

Definition insert_cold (s : state) (k : Z) (v : list Z) : outcome state :=
  '(r, t) ← ht_insert (cold_hash_table s) (fold_u64 k) v;
  assert (bool_decide (r = HT_OK)) ≫= fun _ => Done (put_cold s t).

(** Counts the record before it is inserted, whether or not it will be. *)
Definition insert_hot (s : state) (k : Z) (v : list Z) (is_modified is_referenced : bool) : outcome state :=
  let s := tally s (add_items 1 0) in
  '(r, t) ← ht_insert (hot_hash_table s) (fold_u64 k) (encode (fresh_tagged v is_modified is_referenced));
  assert (bool_decide (r = HT_OK)) ≫= fun _ => Done (put_hot s t).

Definition insert_hot_might_fail (s : state) (k : Z) (v : list Z) (is_modified is_referenced : bool)
  : outcome (state * bool) :=
  let s := tally s (add_items 1 0) in
  '(r, t) ← ht_insert_might_fail (hot_hash_table s) (fold_u64 k)
              (encode (fresh_tagged v is_modified is_referenced));
  if decide (r = HT_OK) then Done (put_hot s t, true)
  else assert (bool_decide (r = HT_NOT_ENOUGH_SPACE)) ≫= fun _ => Done (put_hot s t, false).

Definition hot_record_bytes : Z := sizeof_Key + sizeof_TaggedPayload cfg.

Definition admit_hot (s : state) (k : Z) (v : list Z) (dirty is_referenced : bool) : outcome state :=
  s ← insert_hot s k v dirty is_referenced;
  Done (tally s (add_items 0 hot_record_bytes)).

Definition admit_hot_might_fail (s : state) (k : Z) (v : list Z) (dirty is_referenced : bool)
  : outcome (state * bool) :=
  '(s, r) ← insert_hot_might_fail s k v dirty is_referenced;
  Done (if r : bool then (tally s (add_items 0 hot_record_bytes), true) else (s, false)).

(** Remove a key from the cold table, which must have it ([must]), or may. *)
Definition drop_cold (must : bool) (s : state) (k : Z) : outcome state :=
  '(r, t) ← ht_remove (cold_hash_table s) (fold_u64 k);
  assert (negb must || bool_decide (r = HT_OK)) ≫= fun _ => Done (put_cold s t).

(** * Eviction *)

(** [None] for a record that is not a tagged payload: the assertion on its
    length. *)
Definition scan_record (locks : OptimisticLockTable) (key : Z) (v : list Z)
  : option (list Z * option victim) :=
  tp ← decode cfg v;
  if referenced tp then Some (encode (clear_referenced tp), None)
  else
    let (locked, g) := read_lock locks (make_guard locks key) in
    Some (v, if locked : bool then Some (mkVictim key tp (version g)) else None).

Definition add_victim (vs : list victim) (o : option victim) : list victim :=
  match o with Some x => vs ++ [x] | None => vs end.

(** The payload to write back, read again when there has been another writer;
    [None] when the record is gone. *)
Definition victim_value (s : state) (g : Guard) (x : victim) : outcome (state * option TaggedPayload) :=
  if more_than_one_writer_since g (v_version x) then
    '(r, t) ← ht_lookup (hot_hash_table s) (fold_u64 (v_key x)) (fun v => (v, decode cfg v));
    match r with
    | None => Done (put_hot s t, None)
    | Some (Some tp) => Done (put_hot s t, Some tp)
    | Some None => Stuck
    end
  else Done (s, Some (v_payload x)).

(** Into the cold table: in inclusive mode only modified records. *)
Definition send_down (s : state) (key : Z) (tp : TaggedPayload) : outcome state :=
  if inclusive cfg then if modified tp then upsert_cold s key (payload tp) else Done s
  else insert_cold s key (payload tp).

Definition remove_hot (s : state) (key : Z) : outcome state :=
  '(r, t) ← ht_remove (hot_hash_table s) (fold_u64 key);
  assert (bool_decide (r = HT_OK)) ≫= fun _ =>
  Done (tally (put_hot s t) (add_items (-1) (- hot_record_bytes))).

(** What is done with a victim under its write lock: the walk by records
    writes it to the cold table first, the walk by buckets removes it from the
    hot table first. *)
Definition move_down (by_records : bool) (s : state) (key : Z) (tp : TaggedPayload) : outcome state :=
  if by_records then
    assert (is_in_hot_partition key) ≫= fun _ =>
    s ← send_down s key tp; remove_hot s key
  else
    s ← remove_hot s key;
    assert (is_in_hot_partition key) ≫= fun _ => send_down s key tp.

(** One round of the loop over the victims, and whether it was evicted. *)
Definition evict_victim (by_records : bool) (s : state) (x : victim) : outcome (state * bool) :=
  let '(locked, locks, g) := write_lock (hash_locks s) (make_guard (hash_locks s) (v_key x)) in
  let s := put_locks s locks in
  if negb locked then Done (count_lock_fail s, false)
  else
    '(s, o) ← victim_value s g x;
    match o with
    | None => let s := count_lock_fail s in
              Done (put_locks s (fst (destroy (hash_locks s) g)), false)
    | Some tp =>
        s ← move_down by_records s (v_key x) tp;
        let s := tally s add_downward in
        Done (put_locks s (fst (destroy (hash_locks s) g)), true)
    end.

Fixpoint evict_victims (by_records : bool) (s : state) (l : list victim) : outcome (state * Z) :=
  match l with
  | [] => Done (s, 0)
  | x :: l =>
      '(s, b) ← evict_victim by_records s x;
      '(s, n) ← evict_victims by_records s l;
      Done (s, if b : bool then n + 1 else n)
  end.

(** ** By buckets *)

Definition kHashClockWalkSteps : Z := 1.

(** The callback of the walk over a bucket. *)
Definition bucket_callback (locks : OptimisticLockTable) (acc : option (list victim * Z)) (k v : list Z)
  : option (list victim * Z) * list Z * bool :=
  match acc with
  | None => (None, v, false)
  | Some (vs, n) =>
      match scan_record locks (read_key k) v with
      | Some (v', o) =>
          if (length k =? 8)%nat then (Some (add_victim vs o, n + 1), v', true) else (None, v, false)
      | None => (None, v, false)
      end
  end.

(** [for (b = start; b != end; ++b)]; there are [todo] buckets. *)
Fixpoint scan_buckets (s : state) (b : Z) (todo : nat) (vs : list victim) : outcome (state * list victim) :=
  match todo with
  | O => Done (s, vs)
  | S todo =>
      '(acc, t) ← ht_iterate (hot_hash_table s) b (bucket_callback (hash_locks s)) (Some (vs, 0));
      '(vs, n) ← of_option acc;
      scan_buckets (count_scanned (put_hot s t) n) (b + 1) todo vs
  end.

Definition evict_a_bunch_buckets (s : state) : outcome state :=
  let start_bucket := u32 (clock_bucket s) in
  let end_bucket := u32 (clock_bucket s + kHashClockWalkSteps) in
  let buckets := u32 (ht_countBuckets (hot_hash_table s)) in
  let this_eviction_round := hash_eviction_round s in
  if negb (round_counter s (1 - this_eviction_round mod 2) =? 0) then Done s
  else
    let '(end_bucket, s) :=
      if buckets <? end_bucket then (buckets, put_clock s 0 (u64 (this_eviction_round + 1)))
      else (end_bucket, put_clock s end_bucket this_eviction_round) in
    let s := add_round_counter s (this_eviction_round mod 2) 1 in
    if end_bucket <? start_bucket then Stuck
    else
      '(s, vs) ← scan_buckets s start_bucket (Z.to_nat (end_bucket - start_bucket)) [];
      '(s, n) ← evict_victims false s vs;
      let s := tally s (add_eviction_items n) in
      Done (add_round_counter s (this_eviction_round mod 2) (-1)).

(** ** By records *)

(** [refill_current_bucket_keys_for_eviction] *)
Definition refill_keys (s : state) (b : Z) : outcome (state * list Z) :=
  '(keys, t) ← ht_iterate (hot_hash_table s) b (fun keys k v => (keys ++ [read_key k], v, true)) [];
  Done (put_hot s t, keys).

(** The loop that looks for a bucket with records left; [fuel] rounds. *)
Fixpoint find_records (fuel : nat) (s : state) (buckets : Z) : outcome state :=
  if clock_hand_bucket_record_seq s <? Z.of_nat (length (current_bucket_keys_for_eviction s)) then Done s
  else match fuel with
       | O => Stuck
       | S fuel =>
           let b := (clock_hand_bucket s + 1) mod buckets in
           '(s, keys) ← refill_keys s b;
           let round := if b =? 0 then u64 (hash_eviction_round s + 1) else hash_eviction_round s in
           find_records fuel (put_hand s b 0 keys round) buckets
       end.

(** The rewind before it. *)
Definition rewind_hand (s : state) (buckets : Z) : outcome state :=
  if buckets <=? clock_hand_bucket s then
    '(s, keys) ← refill_keys s 0;
    Done (put_hand s 0 0 keys (u64 (hash_eviction_round s + 1)))
  else Done s.

(** The walk over the keys of this call, each looked up again. *)
Fixpoint scan_keys (s : state) (keys : list Z) (vs : list victim) : outcome (state * list victim) :=
  match keys with
  | [] => Done (s, vs)
  | key :: keys =>
      '(r, t) ← ht_lookupForUpdate (hot_hash_table s) (fold_u64 key)
                  (fun v => match scan_record (hash_locks s) key v with
                            | Some (v', o) => (v', Some o)
                            | None => (v, None)
                            end);
      match r with
      | None => scan_keys (put_hot s t) keys vs
      | Some (Some o) => scan_keys (put_hot s t) keys (add_victim vs o)
      | Some None => Stuck
      end
  end.

Definition evict_a_bunch_records (fuel : nat) (s : state) : outcome state :=
  let buckets := u32 (ht_countBuckets (hot_hash_table s)) in
  s ← rewind_hand s buckets;
  s ← find_records fuel s buckets;
  let size := Z.of_nat (length (current_bucket_keys_for_eviction s)) in
  let first := clock_hand_bucket_record_seq s in
  let last := Z.min (u64 (first + number_records_to_scan_per_eviction hcfg)) size in
  let this_eviction_round := hash_eviction_round s in
  if negb (round_counter s (1 - this_eviction_round mod 2) =? 0) then Done s
  else
    assert (first <? last) ≫= fun _ =>
    let keys := take (Z.to_nat (last - first)) (drop (Z.to_nat first) (current_bucket_keys_for_eviction s)) in
    let s := put_hand s (clock_hand_bucket s) last (current_bucket_keys_for_eviction s) this_eviction_round in
    let s := add_round_counter s (this_eviction_round mod 2) 1 in
    '(s, vs) ← scan_keys s keys [];
    let s := count_scanned s (Z.of_nat (length keys)) in
    '(s, n) ← evict_victims true s vs;
    let s := tally s (add_eviction_items n) in
    Done (add_round_counter s (this_eviction_round mod 2) (-1)).

Definition evict_bunch (fuel : nat) (s : state) : outcome state :=
  if evict_by_records hcfg then evict_a_bunch_records fuel s else evict_a_bunch_buckets s.

(** [evict_all]; [fuel] rounds of its loop, and of the loop inside. *)
Fixpoint evict_all (fuel : nat) (s : state) : outcome state :=
  if hot_partition_item_count (hash_stats s) <=? 0 then Done s
  else match fuel with O => Stuck | S fuel' => s ← evict_bunch fuel s; evict_all fuel' s end.

(** [int steps = 10; while (steps > 0)] *)
Definition steps_per_bunch : Z :=
  if evict_by_records hcfg then number_records_to_scan_per_eviction hcfg
  else PAGE_SIZE / hot_record_bytes.

Fixpoint evict_steps (todo fuel : nat) (steps : Z) (s : state) : outcome state :=
  if steps <=? 0 then Done s
  else match todo with
       | O => Stuck
       | S todo => s ← evict_bunch fuel s; evict_steps todo fuel (sint 32 (steps - steps_per_bunch)) s
       end.

Definition try_evict (fuel : nat) (env : HashEnv) (s : state) : outcome state :=
  if cache_under_pressure cfg (hot_pages env) then evict_steps 10 fuel 10 s else Done s.

(** * Operations of the storage interface *)

(** The callback on a hot record of [lookup]: [None] for anything that is not
    a tagged payload. *)
Definition touch_callback (v : list Z) : list Z * option (list Z) :=
  match decode cfg v with
  | None => (v, None)
  | Some tp => (encode (if referenced tp then tp else set_referenced tp), Some (payload tp))
  end.

(** Moving a record found in the cold table up, under the write lock, with the
    value [v]; [must]: it is asserted that the cold table has it. *)
Definition move_up (must : bool) (env : HashEnv) (s : state) (k : Z) (v : list Z) : outcome (state * bool) :=
  '(s, res) ← (if admit_rand env <? 5 then s ← admit_hot s k v false true; Done (s, true)
               else admit_hot_might_fail s k v false true);
  let s := tally s (add_upward res) in
  s ← (if negb (inclusive cfg) && res then drop_cold must s k else Done s);
  Done (s, res).

(** State, guard and the value found ([None] is [return false]). *)
Definition hash_lookup_internal (env : HashEnv) (s : state) (g : Guard) (k : Z)
  : outcome (state * Guard * option (list Z)) :=
  let s := tally s (add_lookup false) in
  '(r, t) ← ht_lookup (hot_hash_table s) (fold_u64 k) touch_callback;
  let s := put_hot s t in
  match r with
  | Some None => Stuck
  | Some (Some v) => Done (tally s (add_lookup true), g, Some v)
  | None =>
      '(r, t) ← ht_lookup (cold_hash_table s) (fold_u64 k) (fun v => (v, v));
      let s := put_cold s t in
      match r with
      | None => Done (s, g, None)
      | Some v =>
          if should_migrate cfg (migrate_rand env) then
            let '(upgraded, locks, g) := upgrade_to_write_lock (hash_locks s) g in
            let s := put_locks s locks in
            if negb upgraded then Done (s, g, None)
            else '(s, _) ← move_up true env s k v; Done (s, g, Some v)
          else Done (s, g, Some v)
      end
  end.

(** The retry loop of [lookup]. *)
Fixpoint hash_lookup_loop (fuel : nat) (env : HashEnv) (s : state) (k : Z) : outcome (state * option (list Z)) :=
  match fuel with
  | O => Stuck
  | S fuel' =>
      let (locked, g) := read_lock (hash_locks s) (make_guard (hash_locks s) k) in
      if negb locked then hash_lookup_loop fuel' env s k
      else
        '(s, g, res) ← hash_lookup_internal env s g k;
        let valid := validate (hash_locks s) g in
        let s := put_locks s (fst (destroy (hash_locks s) g)) in
        if valid then Done (s, res) else hash_lookup_loop fuel' env s k
  end.

Definition hash_lookup (fuel : nat) (env : HashEnv) (s : state) (k : Z) : outcome (state * option (list Z)) :=
  s ← try_evict fuel env s; hash_lookup_loop fuel env s k.

(** Run [body] under the write lock of [k]. *)
Definition under_lock (fuel : nat) (s : state) (k : Z) (body : state -> outcome state) : outcome state :=
  '(locks, g) ← of_option (write_lock_spin fuel (hash_locks s) (make_guard (hash_locks s) k));
  s ← body (put_locks s locks);
  Done (put_locks s (fst (destroy (hash_locks s) g))).

Definition hash_insert (fuel : nat) (env : HashEnv) (s : state) (k : Z) (v : list Z) : outcome state :=
  s ← try_evict fuel env s;
  under_lock fuel s k (fun s => admit_hot s k v true false).

(** [memcpy(pl, &v, sizeof(Payload))] into a cold payload. *)
Definition memcpy_payload (p w : list Z) : list Z * unit := (take (length w) (p ++ drop (length p) w), tt).

(** The in-place update of a hot record: whether it was a tagged payload. *)
Definition rewrite_callback (p : list Z) (v : list Z) : list Z * bool :=
  match decode cfg v with
  | None => (v, false)
  | Some tp => (encode (set_payload (set_modified (set_referenced tp)) p), true)
  end.

Definition hash_update_body (env : HashEnv) (s : state) (k : Z) (v : list Z) : outcome state :=
  let s := tally s (add_lookup false) in
  '(r, t) ← ht_lookupForUpdate (hot_hash_table s) (fold_u64 k) (rewrite_callback v);
  let s := put_hot s t in
  match r with
  | Some false => Stuck
  | Some true => Done (tally s (add_lookup true))
  | None =>
      '(r, t) ← ht_lookup (cold_hash_table s) (fold_u64 k) (fun v => (v, v));
      let s := put_cold s t in
      match r with
      | None => Done s
      | Some _ =>
          if should_migrate cfg (migrate_rand env)
          then '(s, _) ← move_up false env s k v; Done s
          else
            '(r, t) ← ht_lookupForUpdate (cold_hash_table s) (fold_u64 k) (memcpy_payload v);
            assert (bool_decide (is_Some r)) ≫= fun _ => Done (put_cold s t)
      end
  end.

Definition hash_update (fuel : nat) (env : HashEnv) (s : state) (k : Z) (v : list Z) : outcome state :=
  s ← try_evict fuel env s;
  under_lock fuel s k (fun s => hash_update_body env s k v).

Definition hash_put_body (s : state) (k : Z) (v : list Z) : outcome state :=
  '(r, t) ← ht_lookupForUpdate (hot_hash_table s) (fold_u64 k) (rewrite_callback v);
  let s := put_hot s t in
  match r with
  | Some false => Stuck
  | Some true => Done s
  | None =>
      s ← (if inclusive cfg then Done s else drop_cold true s k);
      admit_hot s k v true true
  end.

Definition hash_put (fuel : nat) (env : HashEnv) (s : state) (k : Z) (v : list Z) : outcome state :=
  s ← try_evict fuel env s;
  under_lock fuel s k (fun s => hash_put_body s k v).

(** [ensure(false)]: not supported. *)
Definition hash_remove (s : state) (k : Z) : outcome (state * bool) := Stuck.
Definition hash_scan (s : state) (start_key length : Z) : outcome state := Stuck.
End operations.
