(* ===== verification/TwoHashInv.v ===== *)
(** The invariant of the two-hash adapter and what its helpers do to the
    contents of the two tables. *)
From stdpp Require Import gmap.
From S2P Require Import Prelude Fold LockTable BTreeNode BTreeNodeOps BTreeInterface LinearHashingNode LinearHashing Outcome HashInterface TwoBTree TwoBTreeInv TwoBTreeOps TwoHash.
Import LockTable.Optimistic.
Local Open Scope Z_scope.

(** * Locks of one thread *)

(** Nobody ht_holds a lock; the words are 64 bits wide and may wrap. *)
Definition all_free (t : OptimisticLockTable) : Prop :=
  forall p, in_width 64 (words t p) /\ words t p mod 2 = 0.

Lemma all_free_new : all_free new_table.
Proof. intros p. cbn. by split; [unfold in_width; lia|]. Qed.

Lemma free_room t p : all_free t -> words t p + 1 < 2 ^ 64.
Proof.
  intros H. destruct (H p) as [[H0 H1] H2]. destruct (decide (words t p = 2 ^ 64 - 1)) as [E|]; [|lia].
  rewrite E in H2. discriminate H2.
Qed.

Lemma free_read_lock t k :
  all_free t -> read_lock t (make_guard t k) =
    (true, mkGuard (word_pos (make_guard t k)) (words t (word_pos (make_guard t k))) READ_LOCKED).
Proof. intros H. unfold read_lock. by rewrite (proj2 (H _)). Qed.

(** The table and the guard while the word [p] is write-locked. *)
Definition locked_table (t : OptimisticLockTable) (p : Z) : OptimisticLockTable :=
  store_word t p (words t p + 1).
Definition lock_holder (t : OptimisticLockTable) (p : Z) : Guard := mkGuard p (words t p + 1) WRITE_LOCKED.

Lemma free_cas t g :
  all_free t -> version g = words t (word_pos g) ->
  lock_cas t g = (true, locked_table t (word_pos g), lock_holder t (word_pos g)).
Proof.
  intros H Hv. unfold lock_cas, compare_exchange. rewrite Hv, Z.eqb_refl.
  pose proof (free_room t (word_pos g) H) as Hr. destruct (H (word_pos g)) as [[H0 _] _].
  rewrite wrap_small by (unfold in_width; lia). done.
Qed.

Lemma free_write_lock t k :
  all_free t -> let p := word_pos (make_guard t k) in
  write_lock t (make_guard t k) = (true, locked_table t p, lock_holder t p).
Proof.
  intros H p. unfold write_lock, write_lock_load. fold p. rewrite (proj2 (H p)). cbn [negb Z.eqb].
  by apply (free_cas t (mkGuard p (words t p) UNINITIALIZED)).
Qed.

Lemma release_lock t p :
  all_free t ->
  all_free (fst (destroy (locked_table t p) (lock_holder t p))) /\
  validate (locked_table t p) (lock_holder t p) = true.
Proof.
  intros H. destruct (H p) as [[H0 H1] H2]. split.
  - intros q. unfold destroy, lock_holder, locked_table. cbn [LockTable.Optimistic.state fst store_word words word_pos].
    rewrite Z.eqb_refl. destruct (Z.eqb_spec q p) as [->|]; [|apply H].
    split; [apply wrap_in_width; lia|]. unfold wrap. change (2 ^ 64) with (2 * 2 ^ 63).
    rewrite <- Znumtheory.Zmod_div_mod; [|lia|lia|by exists (2 ^ 63)].
    replace (words t p + 1 + 1) with (words t p + 1 * 2) by lia. by rewrite Z.mod_add.
  - unfold validate, locked_table, lock_holder. cbn. rewrite Z.eqb_refl. apply Z.eqb_refl.
Qed.

Lemma release_read t g : LockTable.Optimistic.state g <> WRITE_LOCKED -> fst (destroy t g) = t.
Proof. unfold destroy. by destruct (LockTable.Optimistic.state g). Qed.

(** * Tagged payloads *)

Lemma fresh_tagged_bits v m r :
  is_byte (bits (fresh_tagged v m r)) /\ modified (fresh_tagged v m r) = m /\
  payload (fresh_tagged v m r) = v.
Proof. destruct m, r; (split; [apply byteb_ok|split]); reflexivity. Qed.

Section tables.
Context {TH TC : Type} `{HashContract TH} `{HashContract TC} (hcfg : HashConfig).
Local Abbreviation cfg := (base hcfg).
Local Abbreviation psz := (sizeof_Payload cfg).
Local Abbreviation state := (TwoHash TH TC).
Context (Hsz : (1 <= psz <= 4000)%nat).
Context (Hhot : record_size (T := TH) = sizeof_Slot + 8 + Z.of_nat (S psz)).
Context (Hcold : record_size (T := TC) = sizeof_Slot + 8 + Z.of_nat psz).
Implicit Types (s : state) (h c : kvmap) (d : Z).

(** * The contents of a state *)

(** The tables hold [h] and [c]; the clocks are in range; the item count is
    [d] above the number of hot records. *)
Record tabs s h c d : Prop := Tabs {
  tb_hot : ht_holds (hot_hash_table s) h;
  tb_cold : ht_holds (cold_hash_table s) c;
  tb_clock : 0 <= clock_bucket s <= ht_countBuckets (hot_hash_table s);
  tb_hand : 0 <= clock_hand_bucket s /\ 0 <= clock_hand_bucket_record_seq s;
  tb_keys : NoDup (current_bucket_keys_for_eviction s) /\ Forall valid_key (current_bucket_keys_for_eviction s);
  tb_items : hot_partition_item_count (hash_stats s) = Z.of_nat (size h) + d }.

(** What the helpers leave alone; all but the insertions also keep the
    buckets of the hot table. *)
Definition same_locks s s' : Prop :=
  hash_locks s' = hash_locks s /\ hash_round_ref_counter s' = hash_round_ref_counter s.
Definition same_clock s s' : Prop :=
  same_buckets (hot_hash_table s) (hot_hash_table s') /\ clock_bucket s' = clock_bucket s.
Definition same_control s s' : Prop := same_locks s s' /\ same_clock s s'.

Lemma same_clock_trans s1 s2 s3 : same_clock s1 s2 -> same_clock s2 s3 -> same_clock s1 s3.
Proof. intros [? ?] [? ?]. split; [by eapply same_buckets_trans|congruence]. Qed.

Lemma same_control_trans s1 s2 s3 : same_control s1 s2 -> same_control s2 s3 -> same_control s1 s3.
Proof. unfold same_control, same_locks. intros [[? ?] ?] [[? ?] ?]. split; [split; congruence|]. by eapply same_clock_trans. Qed.

(** A payload of the right size. *)
Definition good_value (v : list Z) : Prop := length v = psz /\ Forall is_byte v.

Lemma length_fold k : length (fold_u64 k) = 8%nat.
Proof. apply length_fold_u64. Qed.

Lemma hot_record_size k tp : length (payload tp) = psz ->
  sizeof_Slot + Z.of_nat (length (fold_u64 k)) + Z.of_nat (length (encode tp)) = record_size (T := TH).
Proof. intros E. rewrite Hhot, length_fold, TwoBTreeInv.length_encode, E. lia. Qed.

Lemma cold_record_size k (v : list Z) : length v = psz ->
  sizeof_Slot + Z.of_nat (length (fold_u64 k)) + Z.of_nat (length v) = record_size (T := TC).
Proof. intros E. rewrite Hcold, length_fold, E. lia. Qed.

(** ** Helpers *)

Lemma insert_hot_ok s h c d k v m r :
  tabs s h c d -> h !! fold_u64 k = None -> length v = psz ->
  safe (insert_hot s k v m r) (fun s' =>
    tabs s' (<[fold_u64 k := encode (fresh_tagged v m r)]> h) c d /\ same_locks s s').
Proof.
  intros T Hk Hv. destruct (fresh_tagged_bits v m r) as (_ & _ & Hp). unfold insert_hot. apply safe_bind.
  eapply safe_mono; [apply ht_insert_spec; [apply T|done|]|].
  - apply hot_record_size. by rewrite Hp.
  - intros [res t] (E & Ht & Hn). cbn in E, Ht, Hn. subst res. cbn. destruct T. split; [|done]. constructor; cbn; try done; [lia|].
    rewrite map_size_insert_None by done. lia.
Qed.

Lemma admit_ok s h c d k v m r :
  tabs s h c d -> h !! fold_u64 k = None -> length v = psz ->
  safe (admit_hot hcfg s k v m r) (fun s' =>
    tabs s' (<[fold_u64 k := encode (fresh_tagged v m r)]> h) c d /\ same_locks s s').
Proof.
  intros T Hk Hv. apply safe_bind. eapply safe_mono; [by apply insert_hot_ok|].
  intros s' [[] K]. split; [|done]. constructor; cbn; try done. lia.
Qed.

(** A refused record is counted all the same. *)
Lemma admit_might_fail_ok s h c d k v m r :
  tabs s h c d -> h !! fold_u64 k = None -> length v = psz ->
  safe (admit_hot_might_fail hcfg s k v m r) (fun sb =>
    same_locks s sb.1 /\
    if sb.2 then tabs sb.1 (<[fold_u64 k := encode (fresh_tagged v m r)]> h) c d
    else tabs sb.1 h c (d + 1)).
Proof.
  intros T Hk Hv. destruct (fresh_tagged_bits v m r) as (_ & _ & Hp).
  unfold admit_hot_might_fail, insert_hot_might_fail. apply safe_bind, safe_bind.
  eapply safe_mono; [apply ht_insert_might_fail_spec; [apply T|done|]|].
  - apply hot_record_size. by rewrite Hp.
  - intros [res t] [[[E Ht]|[E Ht]] Hn]; cbn in E, Ht, Hn; subst res; cbn; destruct T; (split; [done|]);
      constructor; cbn; try done; try lia. rewrite map_size_insert_None by done. lia.
Qed.

Lemma drop_cold_ok must s h c d k :
  tabs s h c d -> (must = true -> is_Some (c !! fold_u64 k)) ->
  safe (drop_cold must s k) (fun s' => tabs s' h (delete (fold_u64 k) c) d /\ same_control s s').
Proof.
  intros T Hk. unfold drop_cold. apply safe_bind.
  eapply safe_mono; [apply ht_remove_spec; apply T|].
  intros [res t] (E & Ht & _). cbn in E, Ht. subst res. cbn [mbind outcome_bind].
  assert (negb must || bool_decide ((if c !! fold_u64 k then HT_OK else LinearHashing.NOT_FOUND) = HT_OK) = true) as ->.
  { destruct must; [|done]. destruct Hk as [v ->]; done. }
  cbn. destruct T. by split; [constructor|].
Qed.

Lemma send_down_ok s h c d k tp :
  tabs s h c d -> length (payload tp) = psz ->
  (inclusive cfg = false -> c !! fold_u64 k = None) ->
  safe (send_down hcfg s k tp) (fun s' =>
    tabs s' h (evicted_cold cfg c (fold_u64 k) tp) d /\ same_control s s').
Proof.
  intros T Hp Hc. unfold send_down, evicted_cold. destruct (inclusive cfg); [destruct (modified tp)|]; cbn [andb negb].
  - unfold upsert_cold. apply safe_bind. eapply safe_mono; [apply ht_upsert_spec; [apply T|by apply cold_record_size]|].
    intros [res t] (E & Ht). cbn in *. subst res. cbn. destruct T. by split; [constructor|].
  - cbn. done.
  - unfold insert_cold. apply safe_bind.
    eapply safe_mono; [apply ht_insert_spec; [apply T|by apply Hc|by apply cold_record_size]|].
    intros [res t] (E & Ht & _). cbn in *. subst res. cbn. destruct T. by split; [constructor|].
Qed.

Lemma remove_hot_ok s h c d k :
  tabs s h c d -> is_Some (h !! fold_u64 k) ->
  safe (remove_hot hcfg s k) (fun s' => tabs s' (delete (fold_u64 k) h) c d /\ same_control s s').
Proof.
  intros T [v Hk]. unfold remove_hot. apply safe_bind.
  eapply safe_mono; [apply ht_remove_spec; apply T|].
  intros [res t] (E & Ht & Hn & Hb). cbn in E, Ht, Hn. subst res. rewrite Hk. cbn. destruct T. split; [|done].
  constructor; cbn; try done; [lia|]. rewrite map_size_delete, Hk. 
  assert (size h <> 0%nat) by (intros ->%map_size_empty_inv; done). lia.
Qed.
End tables.
