(* ===== verification/TwoHashEvict.v ===== *)
(** Eviction in the two-hash adapter keeps every visible record. *)
From stdpp Require Import gmap.
From S2P Require Import Prelude Fold LockTable BTreeNode BTreeNodeOps BTreeInterface LinearHashingNode LinearHashing Outcome HashInterface TwoBTree TwoBTreeInv TwoBTreeOps TwoHash TwoHashInv.
Import LockTable.Optimistic.
Local Open Scope Z_scope.

Section evict.
Context {TH TC : Type} `{HashContract TH} `{HashContract TC} (hcfg : HashConfig).
Local Abbreviation cfg := (base hcfg).
Local Abbreviation psz := (sizeof_Payload cfg).
Local Abbreviation state := (TwoHash TH TC).
Context (Hsz : (1 <= psz <= 4000)%nat).
Context (Hhot : record_size (T := TH) = sizeof_Slot + 8 + Z.of_nat (S psz)).
Context (Hcold : record_size (T := TC) = sizeof_Slot + 8 + Z.of_nat psz).
Implicit Types (s : state) (h c : kvmap) (d : Z).

(** The maps may change, the visible records not. *)
Record kept h c h' c' : Prop := Kept {
  kp_inv : minv cfg h' c';
  kp_clean : clean cfg h';
  kp_view : forall kb, mview cfg h' c' kb = mview cfg h c kb }.

Lemma kept_refl h c : minv cfg h c -> clean cfg h -> kept h c h c.
Proof. by split. Qed.

Lemma kept_trans h1 c1 h2 c2 h3 c3 : kept h1 c1 h2 c2 -> kept h2 c2 h3 c3 -> kept h1 c1 h3 c3.
Proof. intros [] [? ? V]. split; try done. intros kb. by rewrite V. Qed.

(** A record that was scanned is still there, as it was. *)
Definition victim_there h (x : victim) : Prop :=
  valid_key (v_key x) /\ exists v, h !! fold_u64 (v_key x) = Some v /\ decode cfg v = Some (v_payload x).

Lemma victim_value_ok s h c d g x :
  tabs s h c d -> victim_there h x ->
  safe (victim_value hcfg s g x) (fun r =>
    r.2 = Some (v_payload x) /\ tabs r.1 h c d /\ same_control s r.1).
Proof.
  intros T (_ & v & Hk & Hd). unfold victim_value. destruct (more_than_one_writer_since _ _); [|done].
  apply safe_bind. eapply safe_mono; [apply ht_lookup_spec; [apply T|done]|].
  intros [r t] (E & Ht & Hn & Hb). cbn in E, Ht, Hn, Hb. rewrite Hk in E. cbn in E. rewrite Hd in E. subst r.
  rewrite alter_id in Ht by done. cbn. destruct T. split; [done|]. split; [|done]. constructor; cbn; try done. lia.
Qed.

Lemma move_down_ok b s h c d x :
  tabs s h c d -> minv cfg h c -> victim_there h x ->
  safe (move_down hcfg b s (v_key x) (v_payload x)) (fun s' =>
    tabs s' (delete (fold_u64 (v_key x)) h) (evicted_cold cfg c (fold_u64 (v_key x)) (v_payload x)) d /\
    same_control s s').
Proof.
  intros T M (Hvk & v & Hk & Hd). pose proof (minv_hot_tp cfg Hsz _ _ _ _ _ M Hk Hd) as (_ & _ & Hl & _).
  assert (inclusive cfg = false -> c !! fold_u64 (v_key x) = None) as Hc.
  { intros E. pose proof (mi_part _ _ _ M _ _ _ Hk Hd) as P. by rewrite E in P. }
  unfold move_down. destruct b.
  - rewrite valid_key_hot by done. cbn [assert mbind outcome_bind]. apply safe_bind.
    eapply safe_mono; [by eapply send_down_ok|]. intros s1 [T1 S1].
    eapply safe_mono; [by eapply remove_hot_ok|]. intros s2 [T2 S2].
    split; [done|]. by eapply same_control_trans.
  - apply safe_bind. eapply safe_mono; [by eapply remove_hot_ok|]. intros s1 [T1 S1].
    rewrite valid_key_hot by done. cbn [assert mbind outcome_bind].
    eapply safe_mono; [by eapply send_down_ok|]. intros s2 [T2 S2].
    split; [done|]. by eapply same_control_trans.
Qed.

Lemma tabs_locks s h c d l : tabs s h c d -> tabs (put_locks s l) h c d.
Proof. by intros []. Qed.

(** Nobody holds a lock, the rounds, the buckets and the clock are as before. *)
Definition rests s s' : Prop :=
  all_free (hash_locks s') /\ hash_round_ref_counter s' = hash_round_ref_counter s /\
  same_clock s s'.

Lemma rests_trans s1 s2 s3 : rests s1 s2 -> rests s2 s3 -> rests s1 s3.
Proof. intros (_ & ? & ?) (? & ? & ?). split; [done|]. split; [congruence|]. by eapply same_clock_trans. Qed.

Lemma evict_victim_ok b s h c d x :
  tabs s h c d -> minv cfg h c -> clean cfg h -> all_free (hash_locks s) -> victim_there h x ->
  safe (evict_victim hcfg b s x) (fun r => r.2 = true /\
    let h' := delete (fold_u64 (v_key x)) h in
    exists c', tabs r.1 h' c' d /\ kept h c h' c' /\
    rests s r.1).
Proof.
  intros T M C F V. unfold evict_victim. rewrite (free_write_lock _ (v_key x) F).
  set (p := word_pos _). cbn [negb]. apply safe_bind.
  eapply safe_mono; [apply (victim_value_ok _ h c d (lock_holder (hash_locks s) p) x (tabs_locks _ _ _ _ _ T) V)|].
  intros [s1 o] (E & T1 & [[L1 R1] B1]). cbn in E, T1, L1, R1, B1. subst o. apply safe_bind.
  eapply safe_mono; [by apply (move_down_ok b s1 h c d x T1 M V)|]. intros s2 [T2 [[L2 R2] B2]]. cbn.
  split; [done|]. exists (evicted_cold cfg c (fold_u64 (v_key x)) (v_payload x)).
  destruct V as (_ & v & Hk & Hd). split_and!.
  - by destruct T2.
  - split; [by eapply minv_evict|by apply clean_delete|]. intros kb. by eapply mview_evict.
  - split; [cbn; rewrite L2, L1; by apply release_lock|]. split; [cbn; congruence|].
    by apply (same_clock_trans s s1 _ B1).
Qed.

Lemma evict_victims_ok b l : forall s h c d,
  tabs s h c d -> minv cfg h c -> clean cfg h -> all_free (hash_locks s) ->
  Forall (victim_there h) l -> NoDup (v_key <$> l) ->
  safe (evict_victims hcfg b s l) (fun r => exists h' c', tabs r.1 h' c' d /\ kept h c h' c' /\
    (size h <= size h' + length l)%nat /\
    (forall kb v, h' !! kb = Some v -> h !! kb = Some v /\ forall x, x ∈ l -> kb <> fold_u64 (v_key x)) /\
    rests s r.1).
Proof.
  induction l as [|x l IH]; intros s h c d T M C F V N; cbn [evict_victims].
  - cbn. exists h, c. split; [done|]. split; [done|]. split; [lia|]. split; [|by split].
    intros kb v Hv. split; [done|]. intros x Hx. by apply not_elem_of_nil in Hx.
  - inversion V as [|? ? Vx Vl]; subst. cbn in N. apply list.NoDup_cons in N as [Nx Nl]. apply safe_bind.
    eapply safe_mono; [by apply (evict_victim_ok b s h c d x)|].
    intros [s1 b1] (_ & c1 & T1 & K1 & R1). cbn in T1, R1. pose proof R1 as (F1 & _). apply safe_bind.
    eapply safe_mono; [apply (IH s1 _ c1 d T1); [apply K1|apply K1|done| |done]|].
    + rewrite list.Forall_forall in Vl |- *. intros y Hy. destruct (Vl y Hy) as (Hv & v & Hk & Hd).
      split; [done|]. exists v. split; [|done]. rewrite lookup_delete_ne; [done|]. intros E.
      apply fold_u64_inj in E; [|by apply valid_key_width, Vx|by apply valid_key_width].
      apply Nx, list_elem_of_fmap. by exists y.
    + intros [s2 n] (h' & c' & T2 & K2 & S2 & D2 & R2). cbn in T2, R2. cbn [safe fst]. exists h', c'.
      split; [done|]. split; [by eapply kept_trans|]. split; [|split; [|by eapply rests_trans]].
      * destruct Vx as (_ & v & Hk & _). rewrite map_size_delete, Hk in S2. cbn [length]. lia.
      * intros kb v Hv. destruct (D2 kb v Hv) as [[Hne Hv']%lookup_delete_Some Hd]. split; [done|].
        intros y Hy. apply elem_of_cons in Hy as [->|Hy]; [done|by apply Hd].
Qed.

(** * Scanning *)

Lemma scan_record_ok locks k v tp :
  all_free locks -> valid_key k -> Forall is_byte v -> decode cfg v = Some tp ->
  exists v' o, scan_record hcfg locks k v = Some (v', o) /\ retagged cfg v v' /\
    (o = None /\ referenced tp = true /\ v' = encode (clear_referenced tp) \/ exists x, o = Some x /\ v_key x = k /\ v_payload x = tp /\ v' = v /\
       v_version x = words locks (word_pos (make_guard locks k))).
Proof.
  intros F Hk Hb Hd. unfold scan_record. rewrite Hd. cbn [mbind option_bind].
  destruct (decode_bytes cfg Hsz _ _ Hb Hd) as [_ Hbits]. destruct (t_clear _ (byte_tag_ok tp Hbits)) as (C1 & C2 & _).
  destruct (referenced tp).
  - do 2 eexists. split; [done|]. split; [|by left]. right. exists tp. eexists. by split_and!.
  - rewrite free_read_lock by done. do 2 eexists. split; [done|]. split; [by left|]. right. eexists. by split_and!.
Qed.

Lemma scan_record_length locks k v v' o : scan_record hcfg locks k v = Some (v', o) -> length v' = length v.
Proof.
  unfold scan_record. destruct (decode cfg v) as [tp|] eqn:Hd; [|done]. cbn [mbind option_bind].
  pose proof Hd as [Hl ->]%(decode_Some cfg Hsz). destruct (referenced tp).
  - intros [= <- _]. by rewrite !length_encode.
  - destruct (read_lock _ _). by intros [= <- _].
Qed.

Lemma bucket_callback_length locks : keeps_length_scan (bucket_callback hcfg locks).
Proof.
  intros [[vs n]|] k v; [|done]. cbn.
  destruct (scan_record hcfg locks (read_key k) v) as [[v' o]|] eqn:E; [|done].
  destruct (length k =? 8)%nat; [|done]. by eapply scan_record_length.
Qed.

(** A scanned record has lost its reference bit or is a victim. *)
Definition scanned (l l2 : list (list Z * list Z)) (vs : list victim) : Prop :=
  forall kb v, (kb, v) ∈ l -> exists tp, decode cfg v = Some tp /\
    (referenced tp = true /\ (kb, encode (clear_referenced tp)) ∈ l2 \/ exists x, x ∈ vs /\ fold_u64 (v_key x) = kb).

Lemma bucket_scan_ok locks l :
  all_free locks -> Forall (entry_ok cfg) l -> forall acc n,
  exists vs l2 n', scan_kvs (bucket_callback hcfg locks) (Some (acc, n)) l = (Some (acc ++ vs, n'), l2) /\
    clock_result cfg locks l l2 vs /\ scanned l l2 vs.
Proof.
  intros F. induction 1 as [|[kb v] l ((k & Hk & Ekb) & Hb & tp & Hd) _ IH]; intros acc n.
  { exists [], [], n. rewrite app_nil_r. split; [done|]. split; [apply clock_result_nil|].
    intros kb v Hx. by apply not_elem_of_nil in Hx. }
  cbn [fst snd] in *. subst kb. cbn [scan_kvs]. unfold bucket_callback at 1.
  rewrite read_key_fold by by apply valid_key_width.
  destruct (scan_record_ok locks k v tp F Hk Hb Hd) as (v' & o & -> & Hr & Ho).
  rewrite length_fold_u64. cbn [Nat.eqb].
  destruct (IH (add_victim acc o) (n + 1)) as (vs & l2 & n' & E & R & S). rewrite E.
  exists (add_victim [] o ++ vs), ((fold_u64 k, v') :: l2), n'. split.
  { destruct o; cbn [add_victim]; by rewrite ?app_nil_l, <- ?app_assoc. }
  split.
  - apply clock_result_cons; [done|done|]. pose proof Hd as [Hl Ev]%(decode_Some cfg Hsz).
    destruct Ho as [(-> & _)|(x & -> & E1 & E2 & E3 & E4)]; [by left|]. right. exists x. cbn.
    subst. by split_and!.
  - intros kb w Hx. apply elem_of_cons in Hx as [[= -> ->]|Hx].
    + exists tp. split; [done|]. destruct Ho as [(_ & Hrf & ->)|(x & -> & <- & _)]; [left; split; [done|by left]|].
      right. exists x. split; [|done]. by left.
    + destruct (S _ _ Hx) as (tp' & Hd' & [[Hrf Hl2]|(x & Hxs & Ex)]); exists tp'; (split; [done|]).
      * left. split; [done|]. by right.
      * right. exists x. split; [|done]. apply elem_of_app. by right.
Qed.

(** The hot map after a scan of some of its records. *)
Lemma scan_touched locks h l l2 vs :
  (forall k v, (k, v) ∈ l -> h !! k = Some v) -> NoDup l.*1 -> clock_result cfg locks l l2 vs ->
  touched cfg h (list_to_map l2 ∪ h) /\ Forall (victim_there (list_to_map l2 ∪ h)) vs /\ NoDup (v_key <$> vs).
Proof.
  intros Hl Hn [C1 C2 C3 C4]. assert (NoDup l2.*1) as Hn2 by (eapply sublist_NoDup; [exact Hn|exact C2]).
  split_and!.
  - intros kb. rewrite lookup_union. destruct (list_to_map l2 !! kb) as [v'|] eqn:E.
    + apply elem_of_list_to_map_2, C1 in E as (v & Hv & Hr). rewrite (Hl _ _ Hv). done.
    + destruct (h !! kb); [by left|done].
  - apply list.Forall_forall. intros x Hx. destruct (C3 x Hx) as (X1 & X2 & X3 & _). split; [done|].
    exists (encode (v_payload x)). split; [|by apply decode_encode].
    rewrite lookup_union, (elem_of_list_to_map_1 l2 _ (encode (v_payload x))) by done.
    by destruct (h !! _).
  - apply (NoDup_fmap_1 fold_u64). eapply sublist_NoDup; [exact Hn|exact C4].
Qed.

Lemma hot_entry_ok h c k v : minv cfg h c -> clean cfg h -> h !! k = Some v -> entry_ok cfg (k, v).
Proof.
  intros M C Hk. destruct (mi_hot _ _ _ M _ _ Hk) as (H3 & H4 & _). split; [done|]. split; [done|]. by apply (C k).
Qed.

Lemma touched_kept h h' c : minv cfg h c -> clean cfg h -> touched cfg h h' -> kept h c h' c.
Proof.
  intros M C Ht. split; [by eapply touched_minv|by eapply touched_clean|]. intros kb. by apply touched_view.
Qed.

(** ** By buckets *)

(** The records of bucket [b] that survive have lost their reference bit. *)
Definition swept (t : TH) (b : Z) h h' : Prop :=
  forall kb v', h' !! kb = Some v' -> exists v tp, h !! kb = Some v /\ decode cfg v = Some tp /\
    (bucket_of t kb <> b /\ v' = v \/ bucket_of t kb = b /\ referenced tp = true /\ v' = encode (clear_referenced tp)).

(** What the scan leaves for the loop over the victims. *)
Record bucket_scan s h c d b s1 vs h1 : Prop := BucketScan {
  bs_tabs : tabs s1 h1 c d;
  bs_kept : kept h c h1 c;
  bs_size : size h1 = size h;
  bs_control : same_control s s1;
  bs_there : Forall (victim_there h1) vs;
  bs_nodup : NoDup (v_key <$> vs);
  bs_swept : forall h2,
    (forall kb v, h2 !! kb = Some v -> h1 !! kb = Some v /\ forall x, x ∈ vs -> kb <> fold_u64 (v_key x)) ->
    swept (hot_hash_table s) b h h2 }.

Lemma scan_bucket_ok s h c d b :
  tabs s h c d -> minv cfg h c -> clean cfg h -> all_free (hash_locks s) ->
  0 <= b < ht_countBuckets (hot_hash_table s) ->
  safe (scan_buckets hcfg s b 1 []) (fun r => exists h', bucket_scan s h c d b r.1 r.2 h').
Proof.
  intros T M C F Hb. destruct (ht_iterate_spec _ _ b (tb_hot _ _ _ _ T) Hb) as (es & Hnd & Hes & Hit).
  assert (forall k v, (k, v) ∈ es -> h !! k = Some v) as Hin by (intros k v Hkv; by apply Hes in Hkv as [? _]).
  destruct (bucket_scan_ok (hash_locks s) es F) with (acc := @nil victim) (n := 0) as (vs & l2 & n' & E & R & S).
  { apply list.Forall_forall. intros [k v] He. eapply hot_entry_ok; eauto. }
  destruct (scan_touched _ h es l2 vs Hin Hnd R) as (Ht & Hv & Hvn).
  cbn [scan_buckets]. apply safe_bind. eapply safe_mono; [apply Hit, bucket_callback_length|].
  rewrite E. intros [acc t] (E1 & Ht' & Hn & Hbk). cbn in E1, Ht', Hn, Hbk. subst acc. cbn.
  exists (list_to_map l2 ∪ h). destruct (touched_account cfg Hsz _ _ Ht) as [Es _].
  split; try done; [|by apply touched_kept|].
  - destruct T. constructor; cbn; try done; [lia|]. by rewrite Es.
  - intros h2 Hh2 kb v' [Hv' Hnv]%Hh2. rewrite lookup_union in Hv'. destruct (list_to_map l2 !! kb) as [w|] eqn:Ew.
    + assert (v' = w) as -> by (destruct (h !! kb); by injection Hv'). apply elem_of_list_to_map_2 in Ew.
      destruct (cr_left _ _ _ _ _ R _ _ Ew) as (v & He & _). exists v.
      destruct (S _ _ He) as (tp & Hd & [[Hrf Hl2]|(x & Hx & Ex)]); [|by destruct (Hnv x Hx)].
      exists tp. apply Hes in He as [He1 He2]. split; [done|]. split; [done|]. right. split; [done|]. split; [done|].
      assert (NoDup l2.*1) as Hn2 by (eapply sublist_NoDup; [exact Hnd|exact (cr_keys _ _ _ _ _ R)]).
      apply (elem_of_list_to_map_1 (M := gmap (list Z)) l2 _ _ Hn2) in Ew, Hl2. rewrite Ew in Hl2. by injection Hl2.
    + assert (h !! kb = Some v') as Hk by (by destruct (h !! kb)). destruct (C _ _ Hk) as [tp Hd]. exists v', tp.
      split; [done|]. split; [done|]. left. split; [|done]. intros Eb. assert ((kb, v') ∈ es) as He by by apply Hes.
      destruct (S _ _ He) as (tp' & _ & [[_ Hl2]|(x & Hx & Ex)]); [|by destruct (Hnv x Hx)].
      apply (not_elem_of_list_to_map_2 _ _ Ew), list_elem_of_fmap. by exists (kb, encode (clear_referenced tp')).
Qed.

(** * A bunch *)

(** Between operations: nobody holds a lock and no eviction is in progress. *)
Record quiet s h c d : Prop := Quiet {
  qt_tabs : tabs s h c d;
  qt_inv : minv cfg h c;
  qt_clean : clean cfg h;
  qt_free : all_free (hash_locks s);
  qt_rounds : hash_round_ref_counter s = (0, 0) }.

(** An eviction step: same visible records, same drift of the count, at most
    [n] records moved. *)
Definition evicts (n : nat) s h c d (s' : state) : Prop :=
  exists h' c', quiet s' h' c' d /\ kept h c h' c' /\ (size h <= size h' + n)%nat /\
    same_buckets (hot_hash_table s) (hot_hash_table s').

Lemma add_round_counter_tabs s h c d i n : tabs s h c d -> tabs (add_round_counter s i n) h c d.
Proof. unfold add_round_counter. destruct (hash_round_ref_counter s). by intros []; constructor. Qed.

Lemma add_round_counter_locks s i n : hash_locks (add_round_counter s i n) = hash_locks s.
Proof. unfold add_round_counter. by destruct (hash_round_ref_counter s). Qed.

Lemma add_round_counter_hot s i n : hot_hash_table (add_round_counter s i n) = hot_hash_table s.
Proof. unfold add_round_counter. by destruct (hash_round_ref_counter s). Qed.

(** The end of a bunch: the victims of [s1] move down, the round counter goes
    back. *)
Lemma finish_bunch b s1 h c h1 d vs i :
  tabs s1 h1 c d -> kept h c h1 c -> size h1 = size h -> all_free (hash_locks s1) ->
  hash_round_ref_counter s1 = (if i =? 0 then (1, 0) else (0, 1)) ->
  Forall (victim_there h1) vs -> NoDup (v_key <$> vs) ->
  safe ('(s, n) ← evict_victims hcfg b s1 vs;
        Done (add_round_counter (tally s (add_eviction_items n)) i (-1)))
       (fun s' => exists h' c', quiet s' h' c' d /\ kept h c h' c' /\ (size h <= size h' + length vs)%nat /\
          same_clock s1 s' /\
          forall kb v, h' !! kb = Some v -> h1 !! kb = Some v /\ forall x, x ∈ vs -> kb <> fold_u64 (v_key x)).
Proof.
  intros T1 K1 Es F1 R1 V N. apply safe_bind.
  eapply safe_mono; [by apply (evict_victims_ok b vs s1 h1 c d T1 (kp_inv _ _ _ _ K1) (kp_clean _ _ _ _ K1) F1)|].
  intros [s2 n] (h2 & c2 & T2 & K2 & S2 & D2 & F2 & R2 & B2). cbn in T2, F2, R2, B2. cbn [safe]. exists h2, c2.
  rewrite R1 in R2. split; [|split; [by eapply kept_trans|split; [lia|split; [|done]]]].
  - split; try apply K2; unfold add_round_counter; cbn; rewrite R2; destruct (i =? 0); cbn; try done; by destruct T2.
  - unfold add_round_counter, same_clock in *. cbn in *. by destruct (hash_round_ref_counter s2).
Qed.

Lemma enter_round s i : hash_round_ref_counter s = (0, 0) ->
  hash_round_ref_counter (add_round_counter s i 1) = (if i =? 0 then (1, 0) else (0, 1)) /\
  round_counter s (1 - i) = 0.
Proof.
  intros R. unfold add_round_counter, round_counter. rewrite R. cbn. by destruct (i =? 0), (1 - i =? 0).
Qed.

Lemma put_clock_tabs s h c d hand round :
  tabs s h c d -> 0 <= hand <= ht_countBuckets (hot_hash_table s) -> tabs (put_clock s hand round) h c d.
Proof. by intros [] ?; constructor. Qed.

Lemma add_round_counter_clock s i n : clock_bucket (add_round_counter s i n) = clock_bucket s.
Proof. unfold add_round_counter. by destruct (hash_round_ref_counter s). Qed.

(** A bunch: either the clock goes back to the first bucket, or it passes a
    bucket, whose unreferenced records move down. *)
Lemma evict_a_bunch_buckets_ok s h c d :
  quiet s h c d -> safe (evict_a_bunch_buckets hcfg s) (fun s' => exists h' c',
    quiet s' h' c' d /\ kept h c h' c' /\ same_buckets (hot_hash_table s) (hot_hash_table s') /\
    (clock_bucket s = ht_countBuckets (hot_hash_table s) /\ clock_bucket s' = 0 /\ (size h <= size h')%nat /\
      (forall kb v, h' !! kb = Some v -> h !! kb = Some v) \/
     clock_bucket s < ht_countBuckets (hot_hash_table s) /\ clock_bucket s' = clock_bucket s + 1 /\
      swept (hot_hash_table s) (clock_bucket s) h h')).
Proof.
  intros [T M C F R]. pose proof (buckets_bound _ _ (tb_hot _ _ _ _ T)) as Hb. pose proof (tb_clock _ _ _ _ T) as Hc.
  unfold evict_a_bunch_buckets. unfold kHashClockWalkSteps.
  rewrite !(wrap_small 32) by (unfold in_width; lia).
  destruct (enter_round s (hash_eviction_round s mod 2) R) as [_ ->]. cbn [Z.eqb negb].
  destruct (Z.ltb_spec (ht_countBuckets (hot_hash_table s)) (clock_bucket s + 1)) as [L|L].
  - replace (ht_countBuckets (hot_hash_table s) <? clock_bucket s) with false by (symmetry; apply Z.ltb_ge; lia).
    replace (Z.to_nat _) with 0%nat by lia. cbn [scan_buckets mbind outcome_bind].
    eapply safe_mono; [apply (finish_bunch false _ h c h d [])|].
    all: try done; rewrite ?add_round_counter_locks; try done.
    + apply add_round_counter_tabs, put_clock_tabs; [done|lia].
    + by apply enter_round.
    + constructor.
    + intros s' (h' & c' & Q & K & S & [B1 B2] & D). exists h', c'. rewrite add_round_counter_hot in B1.
      rewrite add_round_counter_clock in B2. split; [done|]. split; [done|]. split; [done|]. left.
      split; [lia|]. split; [done|]. split; [cbn in S; lia|]. intros kb v Hv. by apply D.
  - replace (clock_bucket s + 1 <? clock_bucket s) with false by (symmetry; apply Z.ltb_ge; lia).
    replace (Z.to_nat _) with 1%nat by lia. apply safe_bind.
    eapply safe_mono; [apply (scan_bucket_ok _ h c d)|]; rewrite ?add_round_counter_hot, ?add_round_counter_locks; try done.
    + apply add_round_counter_tabs, put_clock_tabs; [done|lia].
    + cbn. lia.
    + intros [s1 vs] (h1 & [T1 K1 Es [[L1 R1] [B1 C1]] V N W]). cbn in T1, L1, R1, B1, V, N, W, C1.
      rewrite add_round_counter_hot in B1, W. rewrite add_round_counter_clock in C1.
      eapply safe_mono; [apply (finish_bunch false s1 h c h1 d vs)|]; try done.
      * rewrite L1, add_round_counter_locks. done.
      * rewrite R1. by apply enter_round.
      * intros s' (h' & c' & Q & K & S & [B2 C2] & D). exists h', c'. split; [done|]. split; [done|].
        split; [by eapply same_buckets_trans|]. right. split; [lia|]. split; [by rewrite C2, C1|]. by apply W.
Qed.
End evict.
