(* ===== verification/TwoHashWalk.v ===== *)
(** The walk of the two-hash adapter by records, and eviction before an
    operation. *)
From stdpp Require Import gmap.
From S2P Require Import Prelude Fold LockTable BTreeNode BTreeNodeOps BTreeInterface LinearHashingNode LinearHashing Outcome HashInterface TwoBTree TwoBTreeInv TwoBTreeOps TwoHash TwoHashInv TwoHashEvict.
Import LockTable.Optimistic.
Local Open Scope Z_scope.

(** Distinct integers below [N]. *)
Lemma NoDup_bounded_length (l : list Z) N :
  NoDup l -> Forall (fun x => 0 <= x < N) l -> (length l <= Z.to_nat N)%nat.
Proof.
  intros Hn Hl. rewrite <- (length_seqZ 0 N). apply submseteq_length, NoDup_submseteq; [done|].
  intros x Hx. rewrite list.Forall_forall in Hl. apply elem_of_seqZ. specialize (Hl x Hx). lia.
Qed.

(** Collecting the keys. *)
Lemma collect_keys es : forall acc : list Z,
  scan_kvs (fun keys k v => (keys ++ [read_key k], v, true)) acc es = (acc ++ (read_key <$> es.*1), es).
Proof.
  induction es as [|[k v] es IH]; intros acc; cbn; [by rewrite app_nil_r|]. by rewrite IH, <- app_assoc.
Qed.

(** How far bucket [b] is ahead of the hand, going round. *)
Lemma ahead_step B hand b : 0 < B -> 0 <= b < B -> b <> (hand + 1) mod B ->
  (b - (hand + 1) mod B - 1) mod B = (b - hand - 1) mod B - 1 /\ 0 < (b - hand - 1) mod B.
Proof.
  intros HB Hb Hne. pose proof (Z.mod_pos_bound (hand + 1) B HB) as Hm. set (a := (hand + 1) mod B) in *.
  assert ((b - hand - 1) mod B = (b - a) mod B) as ->.
  { unfold a. rewrite Zminus_mod_idemp_r. f_equal. lia. }
  destruct (decide (a < b)).
  - rewrite !Z.mod_small by lia. lia.
  - rewrite <- (Z.mod_unique (b - a) B (-1) (b - a + B)) by lia.
    rewrite <- (Z.mod_unique (b - a - 1) B (-1) (b - a - 1 + B)) by lia. lia.
Qed.

Section walk.
Context {TH TC : Type} `{HashContract TH} `{HashContract TC} (hcfg : HashConfig).
Local Abbreviation cfg := (base hcfg).
Local Abbreviation psz := (sizeof_Payload cfg).
Local Abbreviation state := (TwoHash TH TC).
Context (Hsz : (1 <= psz <= 4000)%nat).
Context (Hhot : record_size (T := TH) = sizeof_Slot + 8 + Z.of_nat (S psz)).
Context (Hcold : record_size (T := TC) = sizeof_Slot + 8 + Z.of_nat psz).
Implicit Types (s : state) (h c : kvmap) (d : Z).
Local Abbreviation buckets s := (ht_countBuckets (hot_hash_table s)).

(** * Keys of a bucket *)

Lemma refill_keys_ok s h c d b :
  tabs s h c d -> minv cfg h c -> 0 <= b < buckets s ->
  safe (refill_keys s b) (fun r => exists t, r.1 = put_hot s t /\ ht_holds t h /\
    ht_countBuckets t = buckets s /\ (forall k, bucket_of t k = bucket_of (hot_hash_table s) k) /\
    NoDup r.2 /\ Forall valid_key r.2 /\
    (forall k, is_Some (h !! k) -> bucket_of (hot_hash_table s) k = b -> r.2 <> [])).
Proof.
  intros T M Hb. destruct (ht_iterate_spec _ _ b (tb_hot _ _ _ _ T) Hb) as (es & Hnd & Hes & Hit).
  unfold refill_keys. apply safe_bind. eapply safe_mono; [by apply Hit|]. rewrite collect_keys.
  intros [keys t] (E & Ht & Hn & Hbk). cbn in E, Ht, Hn, Hbk. subst keys. cbn. exists t.
  assert (forall kb, kb ∈ es.*1 -> exists k, valid_key k /\ kb = fold_u64 k) as Hk.
  { intros kb ([k v] & -> & He)%list_elem_of_fmap. apply Hes in He as [He _]. by apply (mi_hot _ _ _ M k v). }
  split_and!; try done.
  - replace h with (list_to_map es ∪ h); [done|]. apply map_eq. intros k. rewrite lookup_union.
    destruct (list_to_map es !! k) as [v|] eqn:E; [|by destruct (h !! k)].
    apply elem_of_list_to_map_2, Hes in E as [-> _]. done.
  - clear -Hnd Hk. induction es.*1 as [|kb l IH]; [constructor|]. apply list.NoDup_cons in Hnd as [N1 N2].
    rewrite fmap_cons. apply list.NoDup_cons. split; [|apply IH; [done|intros x Hx; apply Hk; by right]].
    intros (kb' & E & He)%list_elem_of_fmap. destruct (Hk kb) as (k & V & ->); [by left|].
    destruct (Hk kb') as (k' & V' & ->); [by right|].
    rewrite !read_key_fold in E by by apply valid_key_width. by subst.
  - apply list.Forall_forall. intros x (kb & -> & He)%list_elem_of_fmap. destruct (Hk kb He) as (k & V & ->).
    by rewrite read_key_fold by by apply valid_key_width.
  - intros k [v Hv] Hbk'. assert ((k, v) ∈ es) as He by by apply Hes. by destruct es; [apply not_elem_of_nil in He|].
Qed.

Lemma put_hand_tabs s h c d t b seq keys round :
  tabs s h c d -> ht_holds t h -> ht_countBuckets t = buckets s ->
  0 <= b -> 0 <= seq -> NoDup keys -> Forall valid_key keys ->
  tabs (put_hand (put_hot s t) b seq keys round) h c d.
Proof. intros [] ? E ? ? ? ?. constructor; cbn; try done. lia. Qed.

Lemma rewind_hand_ok s h c d :
  tabs s h c d -> minv cfg h c ->
  safe (rewind_hand s (buckets s)) (fun s' => tabs s' h c d /\ same_control s s').
Proof.
  intros T M. pose proof (buckets_bound _ _ (tb_hot _ _ _ _ T)) as HB.
  unfold rewind_hand. destruct (Z.leb_spec (buckets s) (clock_hand_bucket s)); [|done]. apply safe_bind.
  eapply safe_mono; [apply (refill_keys_ok s h c d 0 T M); lia|].
  intros [s1 keys] (t & E & Ht & Hn & Hbt & N & V & _). cbn in E, N, V. subst s1. cbn.
  split; [by apply put_hand_tabs|]. done.
Qed.

(** The search for a bucket with records ends when there is a record: its
    bucket is less than [fuel] ahead. *)
Lemma find_records_ok fuel : forall s h c d k B,
  B = buckets s -> tabs s h c d -> minv cfg h c -> is_Some (h !! k) ->
  (bucket_of (hot_hash_table s) k - clock_hand_bucket s - 1) mod B < Z.of_nat fuel ->
  safe (find_records fuel s B) (fun s' => tabs s' h c d /\ same_control s s' /\
    clock_hand_bucket_record_seq s' < Z.of_nat (length (current_bucket_keys_for_eviction s'))).
Proof.
  induction fuel as [|fuel IH]; intros s h c d k B -> T M Hk Hf;
    pose proof (buckets_bound _ _ (tb_hot _ _ _ _ T)) as HB;
    pose proof (bucket_of_bound _ _ k (tb_hot _ _ _ _ T)) as Hbk; cbn [find_records];
    (destruct (Z.ltb_spec (clock_hand_bucket_record_seq s) (Z.of_nat (length (current_bucket_keys_for_eviction s))));
      [by split_and!|]).
  { pose proof (Z.mod_pos_bound (bucket_of (hot_hash_table s) k - clock_hand_bucket s - 1) (buckets s)). lia. }
  pose proof (Z.mod_pos_bound (clock_hand_bucket s + 1) (buckets s)) as Hm.
  apply safe_bind. eapply safe_mono; [apply (refill_keys_ok s h c d _ T M); lia|].
  intros [s1 keys] (t & E & Ht & Hn & Hbt & N & V & Hne). cbn in E, N, V, Hne. subst s1.
  assert (forall round, tabs (put_hand (put_hot s t) ((clock_hand_bucket s + 1) mod buckets s) 0 keys round) h c d) as T1.
  { intros round. apply put_hand_tabs; try done; lia. }
  destruct (decide (bucket_of (hot_hash_table s) k = (clock_hand_bucket s + 1) mod buckets s)) as [Eb|Nb].
  - specialize (Hne k Hk Eb). destruct keys as [|key keys]; [done|].
    destruct fuel; cbn; (split; [apply T1|split; [done|cbn; lia]]).
  - destruct (ahead_step _ _ _ (proj1 HB) Hbk Nb) as [Ea Pa].
    eapply safe_mono; [eapply (IH (put_hand (put_hot s t) _ 0 keys _) h c d k _ (eq_sym Hn) (T1 _) M Hk)|]; cbn.
    + rewrite Hbt, Ea. lia.
    + intros s' (T' & [LR B] & S). split; [done|]. split; [|done]. split; [done|].
      by eapply same_clock_trans; [|exact B].
Qed.

(** * Records *)

Lemma scan_lookup_length locks key : keeps_length (fun v =>
  match scan_record hcfg locks key v with Some (v', o) => (v', Some o) | None => (v, None) end).
Proof.
  intros v. destruct (scan_record hcfg locks key v) as [[v' o]|] eqn:E; [|done]. by eapply scan_record_length.
Qed.

Lemma victim_there_alter h f k x :
  victim_there hcfg h x -> fold_u64 k <> fold_u64 (v_key x) -> victim_there hcfg (alter f (fold_u64 k) h) x.
Proof. intros (V & v & Hk & Hd) Hne. split; [done|]. exists v. by rewrite lookup_alter_ne. Qed.

Lemma scan_keys_ok keys : forall s h c d vs,
  tabs s h c d -> minv cfg h c -> clean cfg h -> all_free (hash_locks s) ->
  NoDup keys -> Forall valid_key keys ->
  Forall (victim_there hcfg h) vs -> NoDup (v_key <$> vs) -> (forall x, x ∈ vs -> v_key x ∉ keys) ->
  safe (scan_keys hcfg s keys vs) (fun r => exists h', tabs r.1 h' c d /\ kept hcfg h c h' c /\ size h' = size h /\
    same_control s r.1 /\ Forall (victim_there hcfg h') r.2 /\ NoDup (v_key <$> r.2) /\
    (length r.2 <= length vs + length keys)%nat).
Proof.
  induction keys as [|k keys IH]; intros s h c d vs T M C F Nk Vk V N Hd; cbn [scan_keys].
  { cbn. exists h. split_and!; try done. lia. }
  apply list.NoDup_cons in Nk as [Nk1 Nk2]. inversion Vk as [|? ? Vk1 Vk2]; subst.
  apply safe_bind. eapply safe_mono; [apply ht_lookupForUpdate_spec; [apply T|apply scan_lookup_length]|].
  intros [r t] (E & Ht & Hn & Hbt). cbn in E, Ht, Hn, Hbt. set (f := fun v => (match _ with Some _ => _ | None => _ end).1) in Ht.
  assert (touched cfg h (alter f (fold_u64 k) h)) as Hto.
  { apply touched_alter. intros v Hv. destruct (C _ _ Hv) as [tp Htp]. destruct (mi_hot _ _ _ M _ _ Hv) as (_ & Hb & _).
    destruct (scan_record_ok hcfg Hsz (hash_locks s) k v tp F Vk1 Hb Htp) as (v' & o & E' & Hr & _).
    unfold f. by rewrite E'. }
  destruct (touched_account cfg Hsz _ _ Hto) as [Es _]. pose proof (touched_kept hcfg Hsz _ _ c M C Hto) as K.
  assert (tabs (put_hot s t) (alter f (fold_u64 k) h) c d) as T1.
  { destruct T. constructor; cbn; try done; [lia|by rewrite Es]. }
  assert (Forall (victim_there hcfg (alter f (fold_u64 k) h)) vs) as V1.
  { rewrite list.Forall_forall in V |- *. intros x Hx. apply victim_there_alter; [by apply V|]. intros Ef.
    apply fold_u64_inj in Ef; [|by apply valid_key_width|by apply valid_key_width, V]. subst k.
    apply (Hd x Hx). by left. }
  assert (forall vs', Forall (victim_there hcfg (alter f (fold_u64 k) h)) vs' -> NoDup (v_key <$> vs') ->
    (forall x, x ∈ vs' -> v_key x ∉ keys) -> (length vs' <= length vs + 1)%nat ->
    safe (scan_keys hcfg (put_hot s t) keys vs') (fun r => exists h', tabs r.1 h' c d /\ kept hcfg h c h' c /\
      size h' = size h /\ same_control s r.1 /\ Forall (victim_there hcfg h') r.2 /\ NoDup (v_key <$> r.2) /\
      (length r.2 <= length vs + length (k :: keys))%nat)) as Hgo.
  { intros vs' V' N' D' L'. eapply safe_mono; [by apply (IH _ _ c d vs' T1 (kp_inv _ _ _ _ _ K) (kp_clean _ _ _ _ _ K))|].
    intros [s2 vs2] (h' & T2 & K2 & E2 & S2 & V2 & N2 & L2). cbn in T2, S2, V2, N2, L2. exists h'. cbn.
    split; [done|]. split; [by eapply kept_trans|]. split; [lia|]. split; [by eapply same_control_trans; [|exact S2]|].
    split; [done|]. split; [done|cbn; lia]. }
  destruct (h !! fold_u64 k) as [v|] eqn:Hv; cbn in E; subst r.
  - destruct (C _ _ Hv) as [tp Htp]. destruct (mi_hot _ _ _ M _ _ Hv) as (_ & Hb & _).
    destruct (scan_record_ok hcfg Hsz (hash_locks s) k v tp F Vk1 Hb Htp) as (v' & o & E' & Hr & Ho).
    rewrite E'. destruct Ho as [[-> _]|(x & -> & X1 & X2 & X3 & _)]; cbn [add_victim].
    + apply (Hgo vs); [done|done| |lia]. intros x Hx Hin. apply (Hd x Hx). by right.
    + apply (Hgo (vs ++ [x])).
      * apply Forall_app. split; [done|]. constructor; [|constructor]. split; [by rewrite X1|]. exists v.
        rewrite X1, lookup_alter_eq, Hv. cbn [fmap option_fmap option_map]. unfold f. rewrite E'. cbn. by subst.
      * rewrite fmap_app. apply list.NoDup_app. split; [done|]. split; [|apply NoDup_singleton].
        intros y (z & -> & Hz)%list_elem_of_fmap Ez%list_elem_of_singleton. apply (Hd z Hz). rewrite Ez, X1. by left.
      * intros y [Hy|Ey]%elem_of_app Hin; [apply (Hd y Hy); by right|].
        apply list_elem_of_singleton in Ey as ->. by rewrite X1 in Hin.
      * rewrite length_app. cbn. lia.
  - apply Hgo; [done|done| |lia]. intros x Hx Hin. apply (Hd x Hx). by right.
Qed.

(** * A bunch by records *)

Lemma evict_a_bunch_records_ok fuel s h c d :
  quiet hcfg s h c d -> (0 < size h)%nat -> buckets s <= Z.of_nat fuel ->
  1 <= number_records_to_scan_per_eviction hcfg < 2 ^ 31 ->
  safe (evict_a_bunch_records hcfg fuel s)
    (evicts hcfg (Z.to_nat (number_records_to_scan_per_eviction hcfg)) s h c d).
Proof.
  intros [T M C F R] Hs Hf Hn. pose proof (buckets_bound _ _ (tb_hot _ _ _ _ T)) as HB.
  unfold evict_a_bunch_records. rewrite (wrap_small 32) by (unfold in_width; lia). apply safe_bind.
  eapply safe_mono; [by apply (rewind_hand_ok s h c d)|]. intros s1 [T1 [[L1 R1] B1]]. pose proof (proj1 (proj1 B1)) as N1. apply safe_bind.
  assert (exists k, is_Some (h !! k)) as [k Hk].
  { destruct (map_choose h) as (k & v & Hv); [|by exists k, v]. intros ->. rewrite map_size_empty in Hs. lia. }
  eapply safe_mono; [apply (find_records_ok fuel s1 h c d k); [done|done|done|done|]|].
  { pose proof (Z.mod_pos_bound (bucket_of (hot_hash_table s1) k - clock_hand_bucket s1 - 1) (buckets s)). lia. }
  intros s2 (T2 & [[L2 R2] B2] & S2). cbv zeta.
  destruct (tb_keys _ _ _ _ T2) as [N2 V2]. destruct (tb_hand _ _ _ _ T2) as [Hh Hq].
  set (keys := current_bucket_keys_for_eviction s2) in *. set (first := clock_hand_bucket_record_seq s2) in *.
  assert (Z.of_nat (length keys) <= 2 ^ 63) as Hlen.
  { pose proof (NoDup_bounded_length keys (2 ^ 63) N2 V2). lia. }
  rewrite (wrap_small 64) by (unfold in_width; lia).
  destruct (enter_round s2 (hash_eviction_round s2 mod 2)) as [_ ->]; [congruence|]. cbn [Z.eqb negb].
  set (last := Z.min (first + number_records_to_scan_per_eviction hcfg) (Z.of_nat (length keys))).
  assert (first <? last = true) as -> by (apply Z.ltb_lt; lia). cbn [assert mbind outcome_bind].
  set (now := take _ _). assert (NoDup now /\ Forall valid_key now) as [N3 V3].
  { unfold now. split; [|by apply Forall_take, Forall_drop].
    eapply sublist_NoDup; [exact N2|]. etrans; [apply sublist_take|apply sublist_drop]. }
  assert (length now = Z.to_nat (last - first)) as L3. { unfold now. rewrite length_take, length_drop. lia. }
  apply safe_bind. eapply safe_mono; [apply (scan_keys_ok now _ h c d [])|]; try done.
  - apply add_round_counter_tabs. destruct T2. constructor; cbn; try done. lia.
  - rewrite add_round_counter_locks. cbn. by rewrite L2, L1.
  - constructor.
  - intros x Hx. by apply not_elem_of_nil in Hx.
  - intros [s3 vs] (h1 & T3 & K3 & Es & [[L4 R4] B4] & V & N & Lv). cbn in T3, L4, R4, B4, V, N, Lv.
    eapply safe_mono; [apply (finish_bunch hcfg Hsz Hhot Hcold true (count_scanned s3 _) h c h1 d vs)|]; try done.
    + by destruct T3; constructor.
    + cbn. rewrite L4, add_round_counter_locks. cbn. by rewrite L2, L1.
    + cbn. rewrite R4. apply enter_round. cbn. congruence.
    + intros s' (h' & c' & Q & K & S & B & _). exists h', c'. split; [done|]. split; [done|]. split; [lia|].
      destruct B as [B _], B1 as [B1 _], B2 as [B2 _], B4 as [B4 _]. rewrite add_round_counter_hot in B4.
      eapply same_buckets_trans; [exact B1|]. eapply same_buckets_trans; [exact B2|]. by eapply same_buckets_trans.
Qed.

(** * Before an operation *)

(** What the eviction before an operation needs: nothing when the hot table is
    below its limit or the clock walks by buckets; with the walk by records,
    ten hot records. *)
Definition evictable (fuel : nat) (env : HashEnv) s h : Prop :=
  cache_under_pressure cfg (hot_pages env) = true -> evict_by_records hcfg = true ->
  (10 <= size h)%nat /\ buckets s <= Z.of_nat fuel /\ 1 <= number_records_to_scan_per_eviction hcfg < 2 ^ 31.

Lemma evict_steps_ok fuel todo : forall steps s h c d,
  quiet hcfg s h c d -> steps <= Z.of_nat todo -> -2 ^ 31 <= steps <= 10 ->
  (evict_by_records hcfg = true -> steps <= Z.of_nat (size h) /\ buckets s <= Z.of_nat fuel /\
    1 <= number_records_to_scan_per_eviction hcfg < 2 ^ 31) ->
  safe (evict_steps hcfg todo fuel steps s) (fun s' => exists n, evicts hcfg n s h c d s').
Proof.
  induction todo as [|todo IH]; intros steps s h c d Q Ht Hs He; cbn [evict_steps];
    destruct (Z.leb_spec steps 0);
    try (cbn; exists 0%nat, h, c; split; [done|]; split; [by apply kept_refl; apply Q|]; split; [lia|done]); [lia|].
  apply safe_bind.
  assert (exists n, safe (evict_bunch hcfg fuel s) (fun s' => exists n', evicts hcfg n' s h c d s' /\
    (evict_by_records hcfg = true -> n' = n)) /\ 1 <= steps_per_bunch hcfg < 2 ^ 31 /\
    (evict_by_records hcfg = true -> Z.of_nat n = steps_per_bunch hcfg)) as (n & Hb & Hsp & Hn).
  { unfold evict_bunch, steps_per_bunch. destruct (evict_by_records hcfg) eqn:Eb.
    - destruct He as (He1 & He2 & He3); [done|]. exists (Z.to_nat (number_records_to_scan_per_eviction hcfg)).
      split; [|split; [done|lia]]. eapply safe_mono; [apply (evict_a_bunch_records_ok fuel s h c d); [done|lia|lia|lia]|].
      intros s' Hev. eexists. split; [exact Hev|done].
    - exists 0%nat. split; [|split; [|done]].
      + eapply safe_mono; [by apply (evict_a_bunch_buckets_ok hcfg Hsz Hhot Hcold s h c d)|].
        intros s' (h' & c' & Q' & K' & B' & _). exists (size h). split; [|done]. exists h', c'.
        split; [done|]. split; [done|]. split; [lia|done].
      + unfold hot_record_bytes, sizeof_TaggedPayload, sizeof_Key, PAGE_SIZE.
        split; [apply Z.div_le_lower_bound; lia|apply Z.div_lt_upper_bound; lia]. }
  eapply safe_mono; [exact Hb|]. intros s' (n' & (h' & c' & Q' & K & S & B) & En). pose proof (proj1 B) as BN.
  assert (sint 32 (steps - steps_per_bunch hcfg) = steps - steps_per_bunch hcfg) as ->.
  { apply sint_small; cbn; lia. }
  eapply safe_mono; [apply (IH _ s' h' c' d Q')|]; try lia.
  - intros Eb. destruct He as (He1 & He2 & He3); [done|]. specialize (En Eb). specialize (Hn Eb). lia.
  - intros s'' (n'' & h'' & c'' & Q'' & K' & S' & B'). exists (n' + n'')%nat, h'', c''.
    split; [done|]. split; [by eapply kept_trans|]. split; [lia|by eapply same_buckets_trans].
Qed.

Lemma try_evict_ok fuel env s h c d :
  quiet hcfg s h c d -> evictable fuel env s h ->
  safe (try_evict hcfg fuel env s) (fun s' => exists n, evicts hcfg n s h c d s').
Proof.
  intros Q He. unfold try_evict. destruct (cache_under_pressure cfg (hot_pages env)) eqn:E.
  - apply evict_steps_ok; [done|lia|lia|]. intros Eb. destruct (He E Eb) as (? & ? & ?). lia.
  - cbn. exists 0%nat, h, c. split; [done|]. split; [by apply kept_refl; apply Q|]. split; [lia|done].
Qed.
End walk.
