(* ===== verification/TwoHashOps.v ===== *)
(** What the operations of the two-hash adapter do to the visible records. *)
From stdpp Require Import gmap.
From S2P Require Import Prelude Fold LockTable BTreeNode BTreeNodeOps BTreeInterface LinearHashingNode LinearHashing Outcome HashInterface TwoBTree TwoBTreeInv TwoBTreeOps TwoHash TwoHashInv TwoHashEvict TwoHashWalk.
Import LockTable.Optimistic.
Local Open Scope Z_scope.

Lemma free_upgrade t k :
  all_free t -> let p := word_pos (make_guard t k) in
  upgrade_to_write_lock t (mkGuard p (words t p) READ_LOCKED) = (true, locked_table t p, lock_holder t p).
Proof. intros H p. by apply (free_cas t (mkGuard p (words t p) READ_LOCKED)). Qed.

Section operations.
Context {TH TC : Type} `{HashContract TH} `{HashContract TC} (hcfg : HashConfig).
Local Abbreviation cfg := (base hcfg).
Local Abbreviation psz := (sizeof_Payload cfg).
Local Abbreviation state := (TwoHash TH TC).
Context (Hsz : (1 <= psz <= 4000)%nat).
Context (Hhot : record_size (T := TH) = sizeof_Slot + 8 + Z.of_nat (S psz)).
Context (Hcold : record_size (T := TC) = sizeof_Slot + 8 + Z.of_nat psz).
Implicit Types (s : state) (h c : kvmap) (d : Z).

(** The state under the write lock of a key, or under no lock. *)
Record busy s h c d : Prop := Busy {
  bz_tabs : tabs s h c d;
  bz_inv : minv cfg h c;
  bz_clean : clean cfg h;
  bz_rounds : hash_round_ref_counter s = (0, 0) }.

Lemma quiet_busy s h c d : quiet hcfg s h c d -> busy s h c d.
Proof. by intros []. Qed.

Lemma busy_quiet s h c d l : busy s h c d -> all_free l -> quiet hcfg (put_locks s l) h c d.
Proof. intros [T ? ? ?] F. split; try done. by destruct T. Qed.

Lemma busy_locks s h c d l : busy s h c d -> busy (put_locks s l) h c d.
Proof. intros [T ? ? ?]. split; try done. by destruct T. Qed.

Lemma busy_tally s h c d f :
  busy s h c d -> hot_partition_item_count (f (hash_stats s)) = hot_partition_item_count (hash_stats s) ->
  busy (tally s f) h c d.
Proof. intros [[] ? ? ?] E. split; try done. constructor; cbn; try done. congruence. Qed.

(** * The write lock *)

(** What [body] does under the write lock, the whole does. *)
Lemma under_lock_ok fuel s k body (Q : state -> Prop) :
  all_free (hash_locks s) -> (1 <= fuel)%nat ->
  (forall l, safe (body (put_locks s l)) (fun s' => hash_locks s' = l /\ Q s')) ->
  safe (under_lock fuel s k body) (fun s' => exists s1 l, Q s1 /\ all_free l /\ s' = put_locks s1 l).
Proof.
  intros F Hf Hb. unfold under_lock. destruct fuel as [|fuel]; [lia|]. cbn [write_lock_spin].
  rewrite (free_write_lock _ k F). set (p := word_pos _). cbn [of_option mbind outcome_bind].
  apply safe_bind. eapply safe_mono; [apply Hb|]. intros s1 [L Q1]. cbn. exists s1. eexists.
  split; [done|]. split; [|done]. rewrite L. by apply release_lock.
Qed.

(** * Admission *)

Lemma fresh_minv h c k v m r :
  minv cfg h c -> valid_key k -> h !! fold_u64 k = None -> good_value hcfg v ->
  (inclusive cfg = true -> m = false -> c !! fold_u64 k = Some v) ->
  minv cfg (<[fold_u64 k := encode (fresh_tagged v m r)]> h) (if inclusive cfg then c else delete (fold_u64 k) c).
Proof.
  intros M Hk Hn [Hl Hb] Hm. destruct (fresh_tagged_bits v m r) as (B1 & B2 & B3).
  apply minv_admit; rewrite ?B2, ?B3; auto.
Qed.

Lemma fresh_view h c k v m r kb : good_value hcfg v ->
  mview cfg (<[fold_u64 k := encode (fresh_tagged v m r)]> h) (if inclusive cfg then c else delete (fold_u64 k) c) kb =
  if decide (kb = fold_u64 k) then Some v else mview cfg h c kb.
Proof.
  intros [Hl _]. destruct (fresh_tagged_bits v m r) as (_ & _ & B3).
  rewrite mview_admit by (done || by rewrite B3). by rewrite B3.
Qed.

Lemma fresh_clean h k v m r : clean cfg h -> good_value hcfg v -> clean cfg (<[k := encode (fresh_tagged v m r)]> h).
Proof.
  intros C [Hl _]. destruct (fresh_tagged_bits v m r) as (_ & _ & B3). apply clean_insert; [done|done|by rewrite B3].
Qed.

Lemma move_up_ok must env s h c d k v :
  tabs s h c d -> h !! fold_u64 k = None -> is_Some (c !! fold_u64 k) -> length v = psz ->
  safe (move_up hcfg must env s k v) (fun r => same_locks s r.1 /\
    if r.2 then tabs r.1 (<[fold_u64 k := encode (fresh_tagged v false true)]> h)
                  (if inclusive cfg then c else delete (fold_u64 k) c) d
    else ~ admit_rand env < 5 /\ tabs r.1 h c (d + 1)).
Proof.
  intros T Hn Hc Hl. unfold move_up. apply safe_bind.
  assert (safe (if admit_rand env <? 5 then s ← admit_hot hcfg s k v false true; Done (s, true)
                else admit_hot_might_fail hcfg s k v false true) (fun r => same_locks s r.1 /\
    if r.2 then tabs r.1 (<[fold_u64 k := encode (fresh_tagged v false true)]> h) c d
    else ~ admit_rand env < 5 /\ tabs r.1 h c (d + 1))) as Ha.
  { destruct (Z.ltb_spec (admit_rand env) 5).
    - apply safe_bind. eapply safe_mono; [by apply (admit_ok hcfg Hsz Hhot s h c d k v false true)|].
      by intros s1 [T1 S1].
    - eapply safe_mono; [by apply (admit_might_fail_ok hcfg Hsz Hhot s h c d k v false true)|].
      intros [s1 []] [S1 T1]; cbn in *; (split; [done|]); [done|]. split; [lia|done]. }
  eapply safe_mono; [exact Ha|]. intros [s1 res] [S1 T1]. cbn in S1, T1. apply safe_bind.
  destruct res; cbn [negb andb].
  - rewrite andb_true_r. assert (tabs (tally s1 (add_upward true)) (<[fold_u64 k := encode (fresh_tagged v false true)]> h) c d) as T2.
    { destruct T1. constructor; cbn; try done. }
    destruct (inclusive cfg); cbn [negb].
    + by cbn.
    + eapply safe_mono; [by apply (drop_cold_ok must _ _ c d k T2)|]. intros s2 [T3 [[L R] _]]. cbn.
      split; [|done]. destruct S1. split; cbn in *; congruence.
  - rewrite andb_false_r. cbn. split; [done|]. destruct T1 as [? []]. split; [done|]. by constructor.
Qed.

(** * Hot records *)

Lemma touch_ok v tp : Forall is_byte v -> decode cfg v = Some tp ->
  exists v', touch_callback hcfg v = (v', Some (payload tp)) /\ retagged cfg v v'.
Proof.
  intros Hb Hd. unfold touch_callback. rewrite Hd. eexists. split; [done|].
  destruct (decode_bytes cfg Hsz _ _ Hb Hd) as [_ Hbits]. destruct (t_ref _ (byte_tag_ok tp Hbits)) as [R1 R2].
  right. exists tp. eexists. split; [done|]. split; [done|]. by destruct (referenced tp).
Qed.

Lemma touch_length : keeps_length (touch_callback hcfg).
Proof.
  intros v. unfold touch_callback. destruct (decode cfg v) as [tp|] eqn:Hd; [|done].
  pose proof Hd as [_ ->]%(decode_Some cfg Hsz). cbn [fst]. rewrite !length_encode. by destruct (referenced tp).
Qed.

Lemma rewrite_length p : length p = psz -> keeps_length (rewrite_callback hcfg p).
Proof.
  intros Hp v. unfold rewrite_callback. destruct (decode cfg v) as [tp|] eqn:Hd; [|done].
  pose proof Hd as [Hl ->]%(decode_Some cfg Hsz). cbn [fst]. rewrite !length_encode. cbn [set_payload payload]. lia.
Qed.

(** The lookup that rewrites a hot record in place. *)
Lemma rewrite_hot_ok s h c d k p :
  busy s h c d -> good_value hcfg p ->
  safe (ht_lookupForUpdate (hot_hash_table s) (fold_u64 k) (rewrite_callback hcfg p)) (fun r =>
    match h !! fold_u64 k with
    | None => r.1 = None /\ busy (put_hot s r.2) h c d
    | Some _ => r.1 = Some true /\ exists h', busy (put_hot s r.2) h' c d /\
        forall kb, mview cfg h' c kb = if decide (kb = fold_u64 k) then Some p else mview cfg h c kb
    end).
Proof.
  intros [T M C R] [Hl Hb]. eapply safe_mono; [apply ht_lookupForUpdate_spec; [apply T|by apply rewrite_length]|].
  intros [r t] (E & Ht & Hn). cbn in E, Ht, Hn. subst r. destruct (h !! fold_u64 k) as [v|] eqn:Hk; cbn.
  - destruct (C _ _ Hk) as [tp Hd]. destruct (mi_hot _ _ _ M _ _ Hk) as (_ & Hv & _).
    destruct (decode_bytes cfg Hsz _ _ Hv Hd) as [_ Hbits].
    destruct (t_ref _ (byte_tag_ok tp Hbits)) as [R1 _]. destruct (t_mod _ (byte_tag_ok _ R1)) as [M1 M2].
    set (tp' := set_payload (set_modified (set_referenced tp)) p).
    assert (alter (fun v => (rewrite_callback hcfg p v).1) (fold_u64 k) h = <[fold_u64 k := encode tp']> h) as Eh.
    { apply map_eq. intros i. destruct (decide (i = fold_u64 k)) as [->|].
      - rewrite lookup_alter_eq, lookup_insert_eq, Hk. unfold rewrite_callback. cbn. by rewrite Hd.
      - by rewrite lookup_alter_ne, lookup_insert_ne. }
    rewrite Eh in Ht. unfold rewrite_callback. rewrite Hd. split; [done|]. exists (<[fold_u64 k := encode tp']> h). split.
    + split; [|eapply minv_replace; try done|by apply clean_insert|done].
      * destruct T. constructor; cbn; try done; [lia|]. by rewrite map_size_insert_Some by by rewrite Hk.
      * intros E. unfold tp' in E. cbn in E. exfalso. revert E. unfold modified in *. cbn in *. congruence.
    + intros kb. by rewrite mview_replace.
  - split; [done|]. rewrite alter_id in Ht by congruence.
    split; try done. destruct T. constructor; cbn; try done. lia.
Qed.

(** * Lookup *)

(** A record that is not hot, in the cold table. *)
Lemma cold_lookup_ok s h c d k :
  busy s h c d ->
  safe (ht_lookup (cold_hash_table s) (fold_u64 k) (fun v => (v, v))) (fun r =>
    r.1 = c !! fold_u64 k /\ busy (put_cold s r.2) h c d).
Proof.
  intros [T M C R]. eapply safe_mono; [apply ht_lookup_spec; [apply T|done]|].
  intros [r t] (E & Ht & _). cbn in E, Ht. rewrite alter_id in Ht by done. split.
  - rewrite E. by destruct (c !! fold_u64 k).
  - split; try done. by destruct T.
Qed.

Lemma hash_hot_lookup_ok s h c d k :
  busy s h c d ->
  safe (ht_lookup (hot_hash_table s) (fold_u64 k) (touch_callback hcfg)) (fun r =>
    exists h', busy (put_hot s r.2) h' c d /\ kept hcfg h c h' c /\
    match h !! fold_u64 k with
    | None => r.1 = None /\ h' !! fold_u64 k = None
    | Some _ => r.1 = Some (mview cfg h c (fold_u64 k))
    end).
Proof.
  intros [T M C R]. eapply safe_mono; [apply ht_lookup_spec; [apply T|apply touch_length]|].
  intros [r t] (E & Ht & Hn). cbn in E, Ht, Hn. set (h' := alter _ _ _) in Ht. exists h'.
  assert (touched cfg h h') as Hto.
  { apply touched_alter. intros v Hv. destruct (C _ _ Hv) as [tp Hd]. destruct (mi_hot _ _ _ M _ _ Hv) as (_ & Hb & _).
    destruct (touch_ok v tp Hb Hd) as (v' & -> & Hr). done. }
  destruct (touched_account cfg Hsz _ _ Hto) as [Es _]. pose proof (touched_kept hcfg Hsz _ _ c M C Hto) as K.
  split; [|split; [done|]].
  - split; try apply K; [|done]. destruct T. constructor; cbn; try done; [lia|by rewrite Es].
  - unfold mview. destruct (h !! fold_u64 k) as [v|] eqn:Hk; cbn in E; subst r; cbn.
    + destruct (C _ _ Hk) as [tp Hd]. unfold touch_callback, hot_value. by rewrite Hd.
    + split; [done|]. unfold h'. by rewrite lookup_alter_eq, Hk.
Qed.

(** The records are as before; at most one refused admission was counted. *)
Definition unchanged h c d (s' : state) : Prop :=
  exists h' c' d', busy s' h' c' d' /\ d <= d' <= d + 1 /\ forall kb, mview cfg h' c' kb = mview cfg h c kb.

Lemma move_up_same env s h c d k v :
  busy s h c d -> valid_key k -> h !! fold_u64 k = None -> c !! fold_u64 k = Some v ->
  safe (move_up hcfg true env s k v) (fun r => same_locks s r.1 /\ unchanged h c d r.1).
Proof.
  intros [T M C R] Hk Hn Hc. destruct (mi_cold _ _ _ M _ _ Hc) as (_ & Hb & Hl).
  eapply safe_mono; [by apply (move_up_ok true env s h c d k v T Hn)|].
  intros [s1 res] [[L1 R1] T1]. cbn [fst snd] in L1, R1, T1. split; [done|]. destruct res.
  - eexists _, _, d. split; [|split; [lia|]].
    + split; [exact T1|by apply fresh_minv|by apply fresh_clean|cbn; congruence].
    + intros kb. rewrite fresh_view by done. case_decide as E; [|done]. subst kb. unfold mview. by rewrite Hn.
  - exists h, c, (d + 1). split; [|split; [lia|done]]. split; try done; [apply T1|cbn; congruence].
Qed.

Lemma hash_lookup_internal_ok env s h c d k :
  busy s h c d -> all_free (hash_locks s) -> valid_key k ->
  let p := word_pos (make_guard (hash_locks s) k) in
  safe (hash_lookup_internal hcfg env s (mkGuard p (words (hash_locks s) p) READ_LOCKED) k) (fun r =>
    r.2 = mview cfg h c (fold_u64 k) /\ validate (hash_locks r.1.1) r.1.2 = true /\
    all_free (fst (destroy (hash_locks r.1.1) r.1.2)) /\ unchanged h c d r.1.1).
Proof.
  intros B F Hk p. unfold hash_lookup_internal. apply safe_bind.
  eapply safe_mono; [by apply (hash_hot_lookup_ok (tally s (add_lookup false)) h c d k), busy_tally|].
  intros [r t] (h1 & B1 & [K1 K2 K3] & Hr). cbn in B1, Hr.
  assert (forall s', hash_locks s' = hash_locks s -> busy s' h1 c d ->
    validate (hash_locks s') (mkGuard p (words (hash_locks s) p) READ_LOCKED) = true /\
    all_free (fst (destroy (hash_locks s') (mkGuard p (words (hash_locks s) p) READ_LOCKED))) /\ unchanged h c d s') as Hread.
  { intros s' L B'. rewrite L. split; [apply Z.eqb_refl|]. split; [done|]. exists h1, c, d. split; [done|].
    split; [lia|done]. }
  destruct (h !! fold_u64 k) as [w|] eqn:Hh.
  - subst r. unfold mview. rewrite Hh. destruct (hot_value cfg w) as [v|] eqn:Ev.
    + cbn [safe fst snd]. split; [done|]. apply Hread; [done|]. by apply (busy_tally _ h1 c d (add_lookup true)) in B1.
    + exfalso. destruct (bz_clean _ _ _ _ B _ _ Hh) as [tp Hd]. unfold hot_value in Ev. by rewrite Hd in Ev.
  - destruct Hr as [-> Hh1]. apply safe_bind. eapply safe_mono; [by apply (cold_lookup_ok _ h1 c d k)|].
    intros [r t2] [E B2]. cbn in E, B2. unfold mview. rewrite Hh. subst r. destruct (c !! fold_u64 k) as [v|] eqn:Hc.
    + destruct (should_migrate cfg (migrate_rand env)); [|cbn [safe fst snd]; split; [done|]; by apply Hread].
      cbn [hash_locks put_cold put_hot tally]. unfold p. rewrite (free_upgrade _ k F). cbn [negb]. apply safe_bind.
      eapply safe_mono; [by apply (move_up_same env _ h1 c d k v (busy_locks _ _ _ _ _ B2))|].
      intros [s3 res] [[L3 _] (h' & c' & d' & B3 & D3 & V3)]. cbn in L3, B3. cbn. rewrite L3.
      destruct (release_lock (hash_locks s) (word_pos (make_guard (hash_locks s) k)) F) as [F3 W3].
      split; [done|]. split; [done|]. split; [done|]. exists h', c', d'. split; [done|]. split; [done|].
      intros kb. by rewrite V3.
    + cbn [safe fst snd]. split; [done|]. by apply Hread.
Qed.

Lemma hash_lookup_ok fuel env s h c d k :
  quiet hcfg s h c d -> evictable hcfg fuel env s h -> valid_key k -> (1 <= fuel)%nat ->
  safe (hash_lookup hcfg fuel env s k) (fun r => r.2 = mview cfg h c (fold_u64 k) /\
    exists h' c' d', quiet hcfg r.1 h' c' d' /\ d <= d' <= d + 1 /\ forall kb, mview cfg h' c' kb = mview cfg h c kb).
Proof.
  intros Q E Hk Hf. unfold hash_lookup. apply safe_bind. eapply safe_mono; [by apply try_evict_ok|].
  intros s1 (n & h1 & c1 & Q1 & K1 & _). destruct fuel as [|fuel]; [lia|]. cbn [hash_lookup_loop].
  pose proof (qt_free _ _ _ _ _ Q1) as F1. rewrite (free_read_lock _ k F1). cbn [negb]. apply safe_bind.
  eapply safe_mono; [by apply (hash_lookup_internal_ok env s1 h1 c1 d k (quiet_busy _ _ _ _ Q1))|].
  intros [[s2 g] res] (E2 & V2 & F2 & h' & c' & d' & B2 & D2 & V). cbn in E2, V2, F2, B2. rewrite V2. cbn.
  split; [by rewrite E2, (kp_view _ _ _ _ _ K1)|]. exists h', c', d'. split; [by apply busy_quiet|]. split; [done|].
  intros kb. by rewrite V, (kp_view _ _ _ _ _ K1).
Qed.

(** * Writes *)

(** The record of [k] has the value [v], the others are as before. *)
Definition written (k : Z) (v : list Z) h c h' c' : Prop :=
  forall kb, mview cfg h' c' kb = if decide (kb = fold_u64 k) then Some v else mview cfg h c kb.
Definition sets (k : Z) (v : list Z) h c d (s' : state) : Prop :=
  exists h' c', busy s' h' c' d /\ written k v h c h' c'.

(** An operation: evict, then [body] under the write lock of [k]. *)
Lemma write_ok fuel env s h c d k body (Q : state -> Prop) :
  quiet hcfg s h c d -> evictable hcfg fuel env s h -> (1 <= fuel)%nat ->
  (forall s1 h1 c1, busy s1 h1 c1 d -> kept hcfg h c h1 c1 ->
    safe (body s1) (fun s' => hash_locks s' = hash_locks s1 /\ Q s')) ->
  safe (s ← try_evict hcfg fuel env s; under_lock fuel s k body) (fun s' =>
    exists s1 l, Q s1 /\ all_free l /\ s' = put_locks s1 l).
Proof.
  intros HQ E Hf Hb. apply safe_bind. eapply safe_mono; [by apply try_evict_ok|].
  intros s1 (n & h1 & c1 & Q1 & K1 & _). apply under_lock_ok; [apply Q1|done|]. intros l.
  eapply safe_mono; [apply (Hb (put_locks s1 l) h1 c1); [by apply busy_locks, quiet_busy|done]|]. done.
Qed.

(** Admission of a modified record that is not hot; in exclusive mode it is
    not cold either. *)
Lemma admit_sets s h c0 c d k v r :
  tabs s h c d -> minv cfg h c0 -> clean cfg h -> hash_round_ref_counter s = (0, 0) ->
  c = (if inclusive cfg then c0 else delete (fold_u64 k) c0) ->
  valid_key k -> good_value hcfg v -> h !! fold_u64 k = None ->
  safe (admit_hot hcfg s k v true r) (fun s' => hash_locks s' = hash_locks s /\ sets k v h c0 d s').
Proof.
  intros T M C R Ec Hk Hv Hn. eapply safe_mono; [by apply (admit_ok hcfg Hsz Hhot s h c d k v true r); [..|apply Hv]|].
  intros s1 [T1 [L1 R1]]. split; [done|]. exists (<[fold_u64 k := encode (fresh_tagged v true r)]> h), c. subst c.
  split; [|intros kb; by apply fresh_view].
  split; [done|by apply fresh_minv|by apply fresh_clean|congruence].
Qed.

Lemma absent h c kb : clean cfg h -> mview cfg h c kb = None -> h !! kb = None /\ c !! kb = None.
Proof.
  intros C. unfold mview. destruct (h !! kb) as [v|] eqn:E; [|done].
  destruct (C _ _ E) as [tp Hd]. unfold hot_value. by rewrite Hd.
Qed.

Lemma written_kept k v h c h1 c1 h' c' : kept hcfg h c h1 c1 -> written k v h1 c1 h' c' -> written k v h c h' c'.
Proof. intros K W kb. rewrite W. case_decide; [done|]. apply K. Qed.

Lemma hash_insert_ok fuel env s h c d k v :
  quiet hcfg s h c d -> evictable hcfg fuel env s h -> (1 <= fuel)%nat ->
  valid_key k -> good_value hcfg v -> mview cfg h c (fold_u64 k) = None ->
  safe (hash_insert hcfg fuel env s k v) (fun s' => exists h' c', quiet hcfg s' h' c' d /\ written k v h c h' c').
Proof.
  intros Q E Hf Hk Hv Hn.
  eapply safe_mono; [apply (write_ok fuel env s h c d k _ (fun s1 => sets k v h c d s1) Q E Hf)|].
  - intros s1 h1 c1 [T M C R] K. rewrite <- (kp_view _ _ _ _ _ K) in Hn. destruct (absent _ _ _ C Hn) as [Hh Hc].
    eapply safe_mono; [apply (admit_sets s1 h1 c1 c1 d k v false); try done|].
    + destruct (inclusive cfg); [done|]. by rewrite delete_id.
    + intros s2 [L (h' & c' & B & W)]. split; [done|]. exists h', c'. split; [done|by eapply written_kept].
  - intros s' (s1 & l & (h' & c' & B & W) & F & ->). exists h', c'. split; [by apply busy_quiet|done].
Qed.

(** [put] of a key that is there, or of any key in inclusive mode. *)
Lemma hash_put_ok fuel env s h c d k v :
  quiet hcfg s h c d -> evictable hcfg fuel env s h -> (1 <= fuel)%nat ->
  valid_key k -> good_value hcfg v -> (inclusive cfg = true \/ is_Some (mview cfg h c (fold_u64 k))) ->
  safe (hash_put hcfg fuel env s k v) (fun s' => exists h' c', quiet hcfg s' h' c' d /\ written k v h c h' c').
Proof.
  intros Q E Hf Hk Hv Hp.
  eapply safe_mono; [apply (write_ok fuel env s h c d k _ (fun s1 => sets k v h c d s1) Q E Hf)|].
  - intros s1 h1 c1 B K. unfold hash_put_body. apply safe_bind.
    eapply safe_mono; [by apply (rewrite_hot_ok s1 h1 c1 d k v)|]. intros [r t] Hr.
    destruct (h1 !! fold_u64 k) as [w|] eqn:Hh; cbn [fst snd] in Hr.
    + destruct Hr as [-> (h' & B' & W)]. cbn. split; [done|]. exists h', c1. split; [done|by eapply written_kept].
    + destruct Hr as [-> [T M C R]]. apply safe_bind.
      assert (forall s2, tabs s2 h1 (if inclusive cfg then c1 else delete (fold_u64 k) c1) d ->
        same_locks (put_hot s1 t) s2 ->
        safe (admit_hot hcfg s2 k v true true) (fun s' => hash_locks s' = hash_locks s1 /\ sets k v h c d s')) as Hadm.
      { intros s2 T2 [L2 R2]. eapply safe_mono; [eapply (admit_sets s2 h1 c1 _ d k v true); try done; congruence|].
        intros s3 [L3 (h' & c' & B' & W)]. split; [cbn in L2; congruence|]. exists h', c'. split; [done|by eapply written_kept]. }
      destruct (inclusive cfg) eqn:Ei; [by apply Hadm|]. destruct Hp as [?|Hp]; [done|].
      rewrite <- (kp_view _ _ _ _ _ K) in Hp. unfold mview in Hp. rewrite Hh in Hp.
      eapply safe_mono; [by apply (drop_cold_ok true _ h1 c1 d k T)|]. intros s2 [T2 [S2 _]]. by apply Hadm.
  - intros s' (s1 & l & (h' & c' & B & W) & F & ->). exists h', c'. split; [by apply busy_quiet|done].
Qed.

(** [put] of an absent key in exclusive mode fails the assertion on its removal
    from the cold table. *)
Lemma hash_put_absent fuel env s h c d k v :
  quiet hcfg s h c d -> evictable hcfg fuel env s h -> (1 <= fuel)%nat -> good_value hcfg v ->
  inclusive cfg = false -> mview cfg h c (fold_u64 k) = None -> fails (hash_put hcfg fuel env s k v).
Proof.
  intros Q E Hf Hv Hi Hn. unfold hash_put. eapply fails_bind; [by apply (try_evict_ok hcfg Hsz Hhot Hcold)|].
  intros s1 (n & h1 & c1 & Q1 & K & _). rewrite <- (kp_view _ _ _ _ _ K) in Hn.
  destruct (absent _ _ _ (qt_clean _ _ _ _ _ Q1) Hn) as [Hh Hc]. unfold under_lock. destruct fuel as [|fuel]; [lia|].
  cbn [write_lock_spin]. rewrite (free_write_lock _ k (qt_free _ _ _ _ _ Q1)). cbn [of_option mbind outcome_bind].
  apply bind_fails. eapply fails_bind; [by apply rewrite_hot_ok; [apply busy_locks, quiet_busy|]|].
  intros [r t]. rewrite Hh. cbn [fst snd]. intros [-> B]. rewrite Hi. apply bind_fails.
  eapply fails_bind; [apply ht_remove_spec, B|]. intros [r t'] (Er & _). cbn in Er. rewrite Hc in Er. by subst r.
Qed.

Lemma memcpy_full p w : length p = length w -> memcpy_payload p w = (p, tt).
Proof. intros E. unfold memcpy_payload. rewrite drop_ge by lia. rewrite app_nil_r, take_ge by lia. done. Qed.

Lemma memcpy_length p : keeps_length (memcpy_payload p).
Proof. intros w. cbn. rewrite length_take, length_app, length_drop. lia. Qed.

(** ** Updates *)

(** The hot table [t] is asked, and refuses, to take the record. *)
Definition refuses (env : HashEnv) (t : TH) (k : Z) (v : list Z) : bool :=
  negb (admit_rand env <? 5) &&
  match ht_insert_might_fail t (fold_u64 k) (encode (fresh_tagged v false true)) with
  | Done (NOT_ENOUGH_SPACE, _) => true
  | _ => false
  end.

(** The update of [k] finds the record in the cold table only, is to move it up,
    and the hot table refuses it. *)
Definition update_lost (env : HashEnv) s (k : Z) (v : list Z) : bool :=
  match ht_lookupForUpdate (hot_hash_table s) (fold_u64 k) (rewrite_callback hcfg v) with
  | Done (None, t) =>
      match ht_lookup (cold_hash_table s) (fold_u64 k) (fun v => (v, v)) with
      | Done (Some _, _) => should_migrate cfg (migrate_rand env) && refuses env t k v
      | _ => false
      end
  | _ => false
  end.

Lemma update_kept env s k v :
  should_migrate cfg (migrate_rand env) = false \/ admit_rand env < 5 -> update_lost env s k v = false.
Proof.
  intros Hm. unfold update_lost. assert (forall t, should_migrate cfg (migrate_rand env) && refuses env t k v = false) as Hr.
  { intros t. unfold refuses. destruct Hm as [-> |Ha%Z.ltb_lt]; [done|]. rewrite Ha. apply andb_false_r. }
  destruct (ht_lookupForUpdate _ _ _) as [[[b|] t]| |]; try done. destruct (ht_lookup _ _ _) as [[[w|] t2]| |]; try done.
Qed.

Lemma move_up_flag must env s k v s' res :
  move_up hcfg must env s k v = Done (s', res) -> res = negb (refuses env (hot_hash_table s) k v).
Proof.
  unfold move_up, refuses. destruct (admit_rand env <? 5); cbn [negb andb].
  - destruct (admit_hot _ _ _ _ _ _) as [s1| |]; cbn [mbind outcome_bind]; try done.
    destruct (if negb _ && true then _ else _); cbn; try done. by intros [= _ <-].
  - unfold admit_hot_might_fail, insert_hot_might_fail. cbn [hot_hash_table tally].
    destruct (ht_insert_might_fail _ _ _) as [[r t]| |]; cbn [mbind outcome_bind]; [|done|done].
    destruct (decide (r = HT_OK)) as [-> |Hr]; cbn [mbind outcome_bind].
    + destruct (if negb _ && true then _ else _); cbn; try done. by intros [= _ <-].
    + destruct (bool_decide (r = HT_NOT_ENOUGH_SPACE)) eqn:Eb; cbn [assert mbind outcome_bind]; [|done].
      apply bool_decide_eq_true in Eb as ->. rewrite andb_false_r. cbn. by intros [= _ <-].
Qed.

(** What an update comes to: written, or lost to a refused admission, which was
    counted; nothing for an absent key. *)
Definition updates (P : state -> kvmap -> kvmap -> Z -> Prop) (lost : bool) (k : Z) (v : list Z) h c d s' : Prop :=
  exists h' c', P s' h' c' (if lost then d + 1 else d) /\
    if lost then is_Some (mview cfg h c (fold_u64 k)) /\ forall kb, mview cfg h' c' kb = mview cfg h c kb
    else if mview cfg h c (fold_u64 k) then written k v h c h' c' else forall kb, mview cfg h' c' kb = mview cfg h c kb.

(** The record is cold.  In inclusive mode, only when it is not moved up. *)
Lemma hash_update_cold_ok env s h c d k v v0 :
  busy s h c d -> valid_key k -> good_value hcfg v ->
  (inclusive cfg = true -> should_migrate cfg (migrate_rand env) = false) ->
  h !! fold_u64 k = None -> c !! fold_u64 k = Some v0 ->
  safe (if should_migrate cfg (migrate_rand env)
        then '(s, _) ← move_up hcfg false env s k v; Done s
        else '(r, t) ← ht_lookupForUpdate (cold_hash_table s) (fold_u64 k) (memcpy_payload v);
             assert (bool_decide (is_Some r)) ≫= fun _ => Done (put_cold s t))
       (fun s' => hash_locks s' = hash_locks s /\
          updates busy (should_migrate cfg (migrate_rand env) && refuses env (hot_hash_table s) k v) k v h c d s').
Proof.
  intros [T M C R] Hk [Hl Hb] Hi Hn Hc. assert (mview cfg h c (fold_u64 k) = Some v0) as Hview by (unfold mview; by rewrite Hn).
  unfold updates. rewrite Hview. destruct (should_migrate cfg (migrate_rand env)) eqn:Em; cbn [andb]; apply safe_bind.
  - eapply safe_mono; [by apply safe_result, (move_up_ok false env s h c d k v)|].
    intros [s1 res] [[[L1 R1] T1] E]. apply move_up_flag in E. cbn [fst snd] in L1, R1, T1. cbn. split; [done|].
    destruct (refuses env _ k v); cbn [negb] in E; subst res.
    + destruct T1 as [_ T1]. exists h, c. split; [|done]. split; try done. congruence.
    + eexists _, _. split; [|intros kb; by apply fresh_view].
      split; [exact T1| |by apply fresh_clean|congruence]. apply fresh_minv; try done. intros Ei. by discriminate Hi.
  - destruct (mi_cold _ _ _ M _ _ Hc) as (_ & _ & Hl0).
    eapply safe_mono; [apply ht_lookupForUpdate_spec; [apply T|apply memcpy_length]|].
    intros [r t] (E & Ht & _). cbn [fst snd] in E, Ht. rewrite Hc in E. cbn in E. subst r. cbn. split; [done|].
    assert (alter (fun w => (memcpy_payload v w).1) (fold_u64 k) c = <[fold_u64 k := v]> c) as Ec.
    { apply map_eq. intros i. destruct (decide (i = fold_u64 k)) as [->|].
      - rewrite lookup_alter_eq, lookup_insert_eq, Hc. cbn [fmap option_fmap option_map]. by rewrite memcpy_full by lia.
      - by rewrite lookup_alter_ne, lookup_insert_ne. }
    rewrite Ec in Ht. exists h, (<[fold_u64 k := v]> c). split.
    + split; [by destruct T; constructor|by eapply minv_cold_update|done|done].
    + intros kb. unfold mview. case_decide as Ek; [subst kb; by rewrite Hn, lookup_insert_eq|].
      by rewrite lookup_insert_ne.
Qed.

Lemma hash_update_body_ok env s h c d k v :
  busy s h c d -> valid_key k -> good_value hcfg v ->
  (inclusive cfg = true -> should_migrate cfg (migrate_rand env) = false) ->
  safe (hash_update_body hcfg env s k v) (fun s' => hash_locks s' = hash_locks s /\ updates busy (update_lost env s k v) k v h c d s').
Proof.
  intros B Hk Hv Hi. unfold hash_update_body, update_lost. cbn [hot_hash_table cold_hash_table tally]. apply safe_bind.
  eapply safe_mono; [by apply safe_result, (rewrite_hot_ok (tally s (add_lookup false)) h c d k v), Hv; apply busy_tally|].
  cbn [hot_hash_table tally]. intros [r t] [Hr ->]. cbn [fst snd] in Hr. destruct (h !! fold_u64 k) as [w|] eqn:Hh.
  - destruct Hr as [-> (h' & B' & W)]. cbn [safe]. split; [done|].
    exists h', c. split; [by apply (busy_tally _ _ _ _ (add_lookup true)) in B'|].
    destruct (bz_clean _ _ _ _ B _ _ Hh) as [tp Hd]. unfold mview at 1. rewrite Hh. unfold hot_value. rewrite Hd. done.
  - destruct Hr as [-> B']. cbn [cold_hash_table put_hot tally]. apply safe_bind.
    eapply safe_mono; [by apply safe_result, (cold_lookup_ok _ h c d k B')|]. cbn [cold_hash_table put_hot tally].
    intros [r t2] [[Er B2] ->]. cbn [fst snd] in Er, B2. subst r. destruct (c !! fold_u64 k) as [v0|] eqn:Hc.
    + eapply safe_mono; [by apply (hash_update_cold_ok env _ h c d k v v0 B2)|]. done.
    + cbn [safe]. split; [done|]. exists h, c. split; [done|]. unfold mview at 1. by rewrite Hh, Hc.
Qed.

(** Eviction first, so the refusal is the one after it. *)
Lemma hash_update_ok fuel env s h c d k v :
  quiet hcfg s h c d -> evictable hcfg fuel env s h -> (1 <= fuel)%nat ->
  valid_key k -> good_value hcfg v -> (inclusive cfg = true -> should_migrate cfg (migrate_rand env) = false) ->
  safe (hash_update hcfg fuel env s k v) (fun s' => exists s1, try_evict hcfg fuel env s = Done s1 /\
    updates (quiet hcfg) (update_lost env s1 k v) k v h c d s').
Proof.
  intros Q E Hf Hk Hv Hi. unfold hash_update. apply safe_bind. eapply safe_mono; [by apply safe_result, try_evict_ok|].
  intros s1 [(n & h1 & c1 & Q1 & K & _) E1].
  eapply safe_mono; [apply (under_lock_ok fuel s1 k _ (fun s' => updates busy (update_lost env s1 k v) k v h1 c1 d s')); [apply Q1|done|]|].
  - intros l. eapply safe_mono; [by apply (hash_update_body_ok env (put_locks s1 l) h1 c1 d k v); [apply busy_locks, quiet_busy|..]|]. done.
  - intros s' (s2 & l & (h' & c' & B & W) & F & ->). exists s1. split; [done|]. exists h', c'. split; [by apply busy_quiet|].
    rewrite <- (kp_view _ _ _ _ _ K (fold_u64 k)). destruct (update_lost env s1 k v).
    + destruct W as [W1 W2]. split; [done|]. intros kb. by rewrite W2, (kp_view _ _ _ _ _ K).
    + destruct (mview cfg h1 c1 (fold_u64 k)); [by eapply written_kept|]. intros kb. by rewrite W, (kp_view _ _ _ _ _ K).
Qed.
End operations.
