(* ===== verification/TwoHashAll.v ===== *)
(** [evict_all] of the two-hash adapter, with the walk by buckets: when it
    ends, and what it leaves. *)
From stdpp Require Import gmap.
From S2P Require Import Prelude Fold LockTable BTreeNode BTreeNodeOps BTreeInterface LinearHashingNode LinearHashing Outcome HashInterface TwoBTree TwoBTreeInv TwoBTreeOps TwoHash TwoHashInv TwoHashEvict.
Import LockTable.Optimistic.
Local Open Scope Z_scope.

Section all.
Context {TH TC : Type} `{HashContract TH} `{HashContract TC} (hcfg : HashConfig).
Local Abbreviation cfg := (base hcfg).
Local Abbreviation psz := (sizeof_Payload cfg).
Local Abbreviation state := (TwoHash TH TC).
Context (Hsz : (1 <= psz <= 4000)%nat).
Context (Hhot : record_size (T := TH) = sizeof_Slot + 8 + Z.of_nat (S psz)).
Context (Hcold : record_size (T := TC) = sizeof_Slot + 8 + Z.of_nat psz).
Context (Hwalk : evict_by_records hcfg = false).
Implicit Types (s : state) (h c : kvmap) (d : Z).
Local Abbreviation buckets s := (ht_countBuckets (hot_hash_table s)).
Local Abbreviation bucket s kb := (bucket_of (hot_hash_table s) kb).

(** The buckets the clock has passed have no referenced records. *)
Definition swept_behind s h : Prop :=
  forall kb v tp, h !! kb = Some v -> decode cfg v = Some tp -> bucket s kb < clock_bucket s -> referenced tp = false.

(** There are no referenced records, and none behind the clock. *)
Definition moved_behind s h : Prop :=
  forall kb v tp, h !! kb = Some v -> decode cfg v = Some tp -> referenced tp = false /\ clock_bucket s <= bucket s kb.

(** [m] bunches are enough to empty the hot table: the clock has to get to the
    end, then around once to clear the reference bits and once more to move
    the records. *)
Definition due s h (m : nat) : Prop :=
  let rest := buckets s - clock_bucket s in
  rest + 2 * (buckets s + 1) <= Z.of_nat m \/
  swept_behind s h /\ rest + (buckets s + 1) <= Z.of_nat m \/
  moved_behind s h /\ rest <= Z.of_nat m.

Lemma swept_unreferenced tp : length (payload tp) = psz -> is_byte (bits tp) ->
  decode cfg (encode (clear_referenced tp)) = Some (clear_referenced tp) /\ referenced (clear_referenced tp) = false.
Proof.
  intros Hl Hb. split; [by apply decode_encode|]. by destruct (t_clear _ (byte_tag_ok tp Hb)) as (_ & _ & ?).
Qed.

Lemma due_step s h c d s' h' c' m :
  quiet hcfg s h c d -> (0 < size h)%nat -> due s h (S m) ->
  same_buckets (hot_hash_table s) (hot_hash_table s') ->
  (clock_bucket s = buckets s /\ clock_bucket s' = 0 /\ (size h <= size h')%nat /\
     (forall kb v, h' !! kb = Some v -> h !! kb = Some v) \/
   clock_bucket s < buckets s /\ clock_bucket s' = clock_bucket s + 1 /\
     swept hcfg (hot_hash_table s) (clock_bucket s) h h') ->
  due s' h' m.
Proof.
  intros [T M C _ _] Hs D [EB Eb] Hcase.
  assert (forall kb, 0 <= bucket s kb < buckets s) as Hbk by (intros kb; eapply bucket_of_bound, T).
  assert (exists kb v tp, h !! kb = Some v /\ decode cfg v = Some tp) as (kb0 & v0 & tp0 & Hv0 & Hd0).
  { destruct (map_choose h) as (k & v & Hv); [intros ->; rewrite map_size_empty in Hs; lia|].
    destruct (C _ _ Hv) as [tp Hd]. by exists k, v, tp. }
  unfold due. rewrite EB. destruct Hcase as [(Ec & Ec' & _ & Hsub)|(Lc & Ec' & W)]; rewrite Ec'.
  - destruct D as [D|[[I D]|[I D]]].
    + right. left. split; [|lia]. intros kb v tp _ _ L. rewrite Eb, Ec' in L. specialize (Hbk kb). lia.
    + right. right. split; [|lia]. intros kb v tp Hv Hd. rewrite Eb, Ec'. split; [|apply Hbk].
      apply (I kb v tp (Hsub _ _ Hv) Hd). rewrite Ec. apply Hbk.
    + exfalso. destruct (I kb0 v0 tp0 Hv0 Hd0) as [_ L]. specialize (Hbk kb0). lia.
  - assert (forall kb v' tp', h' !! kb = Some v' -> decode cfg v' = Some tp' ->
      h !! kb = Some v' /\ bucket s kb <> clock_bucket s \/
      referenced tp' = false /\ bucket s kb = clock_bucket s /\
      exists v tp, h !! kb = Some v /\ decode cfg v = Some tp /\ referenced tp = true) as W'.
    { intros kb v' tp' Hv' Hd'. destruct (W _ _ Hv') as (v & tp & Hv & Hd & [[Hne ->]|(E & R & ->)]); [by left|]. right.
      destruct (minv_hot_tp cfg Hsz _ _ _ _ _ M Hv Hd) as (_ & Hb & Hl & _).
      destruct (swept_unreferenced tp Hl Hb) as [Hd2 R2]. rewrite Hd2 in Hd'. injection Hd' as <-. eauto 10. }
    destruct D as [D|[[I D]|[I D]]]; [left; lia|right; left|right; right]; (split; [|lia]).
    + intros kb v tp Hv Hd L. rewrite Eb, Ec' in L. destruct (W' _ _ _ Hv Hd) as [[Hh Hne]|[R _]]; [|done].
      apply (I kb v tp Hh Hd). lia.
    + intros kb v tp Hv Hd. rewrite Eb, Ec'. destruct (W' _ _ _ Hv Hd) as [[Hh Hne]|(_ & _ & v1 & tp1 & Hv1 & Hd1 & R1)].
      * destruct (I kb v tp Hh Hd). split; [done|lia].
      * destruct (I kb v1 tp1 Hv1 Hd1). congruence.
Qed.

Lemma due_over s h c d : quiet hcfg s h c d -> due s h 0 -> h = ∅.
Proof.
  intros [T M C _ _] D. pose proof (buckets_bound _ _ (tb_hot _ _ _ _ T)) as HB. pose proof (tb_clock _ _ _ _ T) as Hc.
  destruct D as [D|[[_ D]|[I D]]]; [lia|lia|]. apply map_eq. intros kb. rewrite lookup_empty.
  destruct (h !! kb) as [v|] eqn:Hv; [|done]. destruct (C _ _ Hv) as [tp Hd]. destruct (I _ _ _ Hv Hd) as [_ L].
  pose proof (bucket_of_bound _ _ kb (tb_hot _ _ _ _ T)). lia.
Qed.

Lemma evict_all_due m : forall s h c,
  quiet hcfg s h c 0 -> due s h m ->
  safe (evict_all hcfg m s) (fun s' => exists c', quiet hcfg s' ∅ c' 0 /\ forall kb, c' !! kb = mview cfg h c kb).
Proof.
  induction m as [|m IH]; intros s h c Q D; cbn [evict_all]; rewrite (tb_items _ _ _ _ (qt_tabs _ _ _ _ _ Q)).
  - pose proof (due_over _ _ _ _ Q D) as ->. rewrite map_size_empty. cbn. by exists c.
  - destruct (Z.leb_spec (Z.of_nat (size h) + 0) 0) as [L|L].
    + assert (h = ∅) as -> by (apply map_size_empty_inv; lia). cbn. by exists c.
    + unfold evict_bunch. rewrite Hwalk. apply safe_bind.
      eapply safe_mono; [by apply (evict_a_bunch_buckets_ok hcfg Hsz Hhot Hcold s h c 0)|].
      intros s' (h' & c' & Q' & K & B & Hcase).
      eapply safe_mono; [apply (IH s' h' c' Q'), (due_step s h c 0 s' h' c' m Q); [lia|done..]|].
      intros s'' (c'' & Q'' & V). exists c''. split; [done|]. intros kb. rewrite V. apply K.
Qed.

(** With refused admissions counted, the loop never ends. *)
Lemma evict_all_drift m : forall s h c d, quiet hcfg s h c d -> 0 < d -> fails (evict_all hcfg m s).
Proof.
  induction m as [|m IH]; intros s h c d Q Hd; cbn [evict_all]; rewrite (tb_items _ _ _ _ (qt_tabs _ _ _ _ _ Q));
    (destruct (Z.leb_spec (Z.of_nat (size h) + d) 0); [lia|]); [done|].
  unfold evict_bunch. rewrite Hwalk. eapply fails_bind; [by apply (evict_a_bunch_buckets_ok hcfg Hsz Hhot Hcold s h c d)|].
  intros s1 (h' & c' & Q' & _). by eapply IH.
Qed.
End all.
