(* ===== verification/TwoHashProps.v ===== *)
(** The properties of the two-hash adapter: eviction, histories against a map,
    updates, and when [evict_all] ends; sample runs over two linear hash
    tables. *)
From stdpp Require Import gmap.
From S2P Require Import Prelude Fold LockTable BTreeNode BTreeNodeOps BTreeInterface LinearHashingNode LinearHashing LinearHashingRefine LinearHashingProps Outcome HashInterface LinearHashingTable TwoBTree TwoBTreeInv TwoBTreeOps TwoHash TwoHashInv TwoHashEvict TwoHashWalk TwoHashOps TwoHashAll.
Local Open Scope Z_scope.

(** * Histories *)

Inductive hash_op := HLookup (k : Z) | HInsert (k : Z) (v : list Z) | HPut (k : Z) (v : list Z) | HUpdate (k : Z) (v : list Z).

(** The map an adapter stands for. *)
Definition hash_spec (M : gmap Z (list Z)) (o : hash_op) : option (list Z) * gmap Z (list Z) :=
  match o with
  | HLookup k => (M !! k, M)
  | HInsert k v | HPut k v => (None, <[k := v]> M)
  | HUpdate k v => (None, if M !! k then <[k := v]> M else M)
  end.

Fixpoint hash_specs (M : gmap Z (list Z)) (os : list (HashEnv * hash_op)) : list (option (list Z)) * gmap Z (list Z) :=
  match os with
  | [] => ([], M)
  | (_, o) :: os => let (r, M) := hash_spec M o in let (rs, M) := hash_specs M os in (r :: rs, M)
  end.

Section adapter.
Context {TH TC : Type} `{HashInterface TH} `{HashInterface TC} (hcfg : HashConfig) (fuel : nat).

Definition hash_step (env : HashEnv) (s : TwoHash TH TC) (o : hash_op) : outcome (option (list Z) * TwoHash TH TC) :=
  match o with
  | HLookup k => '(s, r) ← hash_lookup hcfg fuel env s k; Done (r, s)
  | HInsert k v => s ← hash_insert hcfg fuel env s k v; Done (None, s)
  | HPut k v => s ← hash_put hcfg fuel env s k v; Done (None, s)
  | HUpdate k v => s ← hash_update hcfg fuel env s k v; Done (None, s)
  end.

Fixpoint hash_run (s : TwoHash TH TC) (os : list (HashEnv * hash_op)) : outcome (list (option (list Z)) * TwoHash TH TC) :=
  match os with
  | [] => Done ([], s)
  | (env, o) :: os =>
      '(r, s) ← hash_step env s o;
      '(rs, s) ← hash_run s os;
      Done (r :: rs, s)
  end.
End adapter.

(** What the adapter asks of its callers: 63-bit keys, payloads of the right
    size, no insertion of a key that is there, no [put] of an absent key in
    exclusive mode, and no update that moves a record up but in exclusive mode
    and with a draw below 5, where the admission cannot be refused. *)
Definition hash_op_ok (hcfg : HashConfig) (env : HashEnv) (M : gmap Z (list Z)) (o : hash_op) : Prop :=
  match o with
  | HLookup k => valid_key k
  | HInsert k v => valid_key k /\ good_value hcfg v /\ M !! k = None
  | HPut k v => valid_key k /\ good_value hcfg v /\ (inclusive (base hcfg) = true \/ is_Some (M !! k))
  | HUpdate k v => valid_key k /\ good_value hcfg v /\
      (should_migrate (base hcfg) (migrate_rand env) = false \/ inclusive (base hcfg) = false /\ admit_rand env < 5)
  end.

Fixpoint hash_ops_ok (hcfg : HashConfig) (M : gmap Z (list Z)) (os : list (HashEnv * hash_op)) : Prop :=
  match os with
  | [] => True
  | (env, o) :: os => hash_op_ok hcfg env M o /\ hash_ops_ok hcfg (hash_spec M o).2 os
  end.

Section props.
Context {TH TC : Type} `{HashContract TH} `{HashContract TC} (hcfg : HashConfig) (fuel : nat).
Local Abbreviation cfg := (base hcfg).
Local Abbreviation psz := (sizeof_Payload cfg).
Local Abbreviation state := (TwoHash TH TC).
Context (Hsz : (1 <= psz <= 4000)%nat).
Context (Hhot : record_size (T := TH) = sizeof_Slot + 8 + Z.of_nat (S psz)).
Context (Hcold : record_size (T := TC) = sizeof_Slot + 8 + Z.of_nat psz).
Implicit Types (s : state) (h c : kvmap) (d : Z).

(** C24: the eviction before an operation, by one thread in a state without
    delete marks and locks ([quiet]), fails no assertion and ends, unless the cold
    table runs out of room ([NoRoom]); it keeps the invariant, the value of every
    key and the drift of the item count.  When the clock walks by buckets there
    are no other conditions.  When it walks by records and the hot table is over
    its limit ([evictable]) there must be ten hot records, a scan size from 1 to
    2^31 - 1, and as much fuel as there are buckets; with fewer records the
    search for the next one can run for ever. *)
Theorem hash_eviction_keeps_records env s h c d :
  quiet hcfg s h c d -> evictable hcfg fuel env s h ->
  safe (try_evict hcfg fuel env s) (fun s' => exists h' c',
    quiet hcfg s' h' c' d /\ forall kb, mview cfg h' c' kb = mview cfg h c kb).
Proof.
  intros Q E. eapply safe_mono; [by apply try_evict_ok|].
  intros s' (n & h' & c' & Q' & K & _). exists h', c'. split; [done|]. apply K.
Qed.

(** C25: [evict_all], walking by buckets, ends after at most three times round
    the clock when no admission was ever refused (drift 0): every record is in the
    cold table then, with its value, unless that table runs out of room. *)
Theorem hash_evict_all_empties s h c :
  evict_by_records hcfg = false -> quiet hcfg s h c 0 ->
  3 * ht_countBuckets (hot_hash_table s) + 2 <= Z.of_nat fuel ->
  safe (evict_all hcfg fuel s) (fun s' => exists c',
    quiet hcfg s' ∅ c' 0 /\ forall kb, c' !! kb = mview cfg h c kb).
Proof.
  intros Hw Q Hf. apply evict_all_due; [done..|]. left.
  pose proof (tb_clock _ _ _ _ (qt_tabs _ _ _ _ _ Q)). lia.
Qed.

(** C27: a refused admission makes [evict_all] run for ever.  After an update
    that found its record in the cold table only, was to move it up and was
    refused by the hot table ([update_lost], computed on the state after the
    eviction), the item count is one too high, and [evict_all], walking by
    buckets, does not return, however many rounds it gets.  Conditions as for the
    update: one thread ([quiet]), a count that is not too low before, 63-bit keys,
    payloads of the right size, exclusive mode. *)
Theorem hash_evict_all_never_ends env s s1 s' h c d k v rounds :
  evict_by_records hcfg = false -> inclusive cfg = false -> quiet hcfg s h c d -> 0 <= d ->
  (1 <= fuel)%nat -> valid_key k -> good_value hcfg v ->
  try_evict hcfg fuel env s = Done s1 -> update_lost hcfg env s1 k v = true -> hash_update hcfg fuel env s k v = Done s' ->
  fails (evict_all hcfg rounds s').
Proof.
  intros Hw Hi Q Hd Hf Hk Hv E1 Hl E. assert (evictable hcfg fuel env s h) as Ev by (intros _ ?; congruence).
  pose proof (hash_update_ok hcfg Hsz Hhot Hcold fuel env s h c d k v Q Ev Hf Hk Hv ltac:(congruence)) as Hs.
  destruct (safe_Done _ _ _ Hs E) as (s2 & E2 & h' & c' & Q' & _). rewrite E1 in E2. injection E2 as <-. rewrite Hl in Q'.
  eapply (evict_all_drift hcfg Hsz Hhot Hcold Hw rounds s' h' c' (d + 1)); [done|lia].
Qed.

(** [put] of a key that is nowhere, in exclusive mode, never returns: the
    assertion on its removal from the cold table fails. *)
Theorem hash_put_absent_fails env s h c d k v :
  quiet hcfg s h c d -> evictable hcfg fuel env s h -> (1 <= fuel)%nat -> good_value hcfg v ->
  inclusive cfg = false -> mview cfg h c (fold_u64 k) = None -> fails (hash_put hcfg fuel env s k v).
Proof. intros. by eapply hash_put_absent. Qed.

(** C26: an update replaces the value of a key that is there, unless the record
    is in the cold table only, is to be moved up, and the hot table refuses it
    ([update_lost], on the state that the eviction leaves): then, and only then, the
    update is lost, every key keeps its value, and a record too many is counted.
    It does nothing for an absent key.  Conditions: one thread ([quiet]),
    [evictable], 63-bit keys, payloads of the right size, and in inclusive mode
    no migration, since there the moved record is not marked modified and its cold
    copy keeps the old value; the tables may run out of room. *)
Theorem hash_update_replaces_or_loses env s h c d k v :
  quiet hcfg s h c d -> evictable hcfg fuel env s h -> (1 <= fuel)%nat ->
  valid_key k -> good_value hcfg v -> (inclusive cfg = true -> should_migrate cfg (migrate_rand env) = false) ->
  safe (hash_update hcfg fuel env s k v) (fun s' => exists s1, try_evict hcfg fuel env s = Done s1 /\
    exists h' c', quiet hcfg s' h' c' (if update_lost hcfg env s1 k v then d + 1 else d) /\
      if update_lost hcfg env s1 k v
      then is_Some (mview cfg h c (fold_u64 k)) /\ forall kb, mview cfg h' c' kb = mview cfg h c kb
      else if mview cfg h c (fold_u64 k) then written hcfg k v h c h' c'
      else forall kb, mview cfg h' c' kb = mview cfg h c kb).
Proof. intros. by apply hash_update_ok. Qed.

(** * Histories refine a map *)

(** The adapter [s] shows the map [M]. *)
Definition shows s (M : gmap Z (list Z)) : Prop :=
  exists h c d, quiet hcfg s h c d /\ forall k, valid_key k -> mview cfg h c (fold_u64 k) = M !! k.

Lemma shows_written s h c d k v h' c' M :
  quiet hcfg s h' c' d -> valid_key k -> written hcfg k v h c h' c' ->
  (forall k, valid_key k -> mview cfg h c (fold_u64 k) = M !! k) -> shows s (<[k := v]> M).
Proof.
  intros Q Hk W V. exists h', c', d. split; [done|]. intros k' Hk'. rewrite W. case_decide as E.
  - apply fold_u64_inj in E; [|by apply valid_key_width..]. subst. by rewrite lookup_insert_eq.
  - rewrite lookup_insert_ne by congruence. by apply V.
Qed.

Lemma hash_step_shows env s M o :
  shows s M -> (1 <= fuel)%nat -> evict_by_records hcfg = false -> hash_op_ok hcfg env M o ->
  safe (hash_step hcfg fuel env s o) (fun r => r.1 = (hash_spec M o).1 /\ shows r.2 (hash_spec M o).2).
Proof.
  intros (h & c & d & Q & V) Hf Hw Ho. assert (evictable hcfg fuel env s h) as E by (intros _ ?; congruence).
  destruct o as [k|k v|k v|k v]; cbn [hash_step hash_op_ok] in *; apply safe_bind.
  - eapply safe_mono; [by apply (hash_lookup_ok hcfg Hsz Hhot Hcold fuel env s h c d k)|].
    intros [s' r] (Er & h' & c' & d' & Q' & _ & V'). cbn in Er, Q'. cbn. split; [by rewrite Er, V|].
    exists h', c', d'. split; [done|]. intros k' Hk'. by rewrite V', V.
  - destruct Ho as (Hk & Hv & Hn). rewrite <- V in Hn by done.
    eapply safe_mono; [by apply (hash_insert_ok hcfg Hsz Hhot Hcold fuel env s h c d k v)|].
    intros s' (h' & c' & Q' & W). cbn. split; [done|]. by eapply shows_written.
  - destruct Ho as (Hk & Hv & Hn). rewrite <- V in Hn by done.
    eapply safe_mono; [by apply (hash_put_ok hcfg Hsz Hhot Hcold fuel env s h c d k v)|].
    intros s' (h' & c' & Q' & W). cbn. split; [done|]. by eapply shows_written.
  - destruct Ho as (Hk & Hv & Hn).
    eapply safe_mono; [apply (hash_update_ok hcfg Hsz Hhot Hcold fuel env s h c d k v); try done|].
    + intros Ei. destruct Hn as [Hn|[? _]]; [done|congruence].
    + intros s' (s1 & _ & h' & c' & Q' & W). rewrite update_kept in Q', W by tauto. rewrite V in W by done.
      cbn. split; [done|]. destruct (M !! k) eqn:Em; [by eapply shows_written|].
      exists h', c', d. split; [done|]. intros k' Hk'. by rewrite W, V.
Qed.

Lemma hash_run_shows os : forall s M,
  shows s M -> (1 <= fuel)%nat -> evict_by_records hcfg = false -> hash_ops_ok hcfg M os ->
  safe (hash_run hcfg fuel s os) (fun r => r.1 = (hash_specs M os).1 /\ shows r.2 (hash_specs M os).2).
Proof.
  induction os as [|[env o] os IH]; intros s M S Hf Hw Ho; cbn [hash_run hash_specs]; [done|].
  destruct Ho as [Ho Hos]. apply safe_bind. eapply safe_mono; [by apply (hash_step_shows env s M o)|].
  intros [r s1] [Er S1]. cbn in Er, S1. destruct (hash_spec M o) as [r' M1]. cbn in Er, S1, Hos. subst r'. apply safe_bind.
  eapply safe_mono; [by apply (IH s1 M1)|]. intros [rs s2] [Ers S2]. cbn in Ers, S2.
  destruct (hash_specs M1 os) as [rs' M2]. cbn in *. by subst.
Qed.

(** C23: histories of lookups, insertions, puts and updates on the adapter return
    what they return on a map, whatever moves between the two tables.  The
    conditions: one thread, the clock walks by buckets, payloads of one size of 1
    to 4000 bytes, and what the adapter asks of its callers ([hash_op_ok]): 63-bit
    keys; no insertion of a key that is there; no [put] of an absent key in
    exclusive mode, which fails an assertion ([hash_put_absent_fails]); and no
    update whose draw makes it move the record up, but in exclusive mode with an
    admission draw below 5: other such updates can be lost
    ([hash_update_replaces_or_loses]).  A history may end early when a table
    runs out of room ([NoRoom]). *)
Theorem two_hash_refines os s M :
  shows s M -> (1 <= fuel)%nat -> evict_by_records hcfg = false -> hash_ops_ok hcfg M os ->
  safe (hash_run hcfg fuel s os) (fun r => r.1 = (hash_specs M os).1 /\ shows r.2 (hash_specs M os).2).
Proof. apply hash_run_shows. Qed.

Lemma new_quiet (t1 : TH) (t2 : TC) :
  ht_holds t1 ∅ -> ht_holds t2 ∅ -> quiet hcfg (new_two_hash t1 t2) ∅ ∅ 0.
Proof.
  clear Hsz Hhot Hcold. intros H1' H2'. pose proof (buckets_bound _ _ H1'). split.
  - constructor; cbn; try done; [lia|split; constructor].
  - constructor; intros kb; rewrite ?lookup_empty; done.
  - intros kb v. by rewrite lookup_empty.
  - apply all_free_new.
  - done.
Qed.

(** Insertions of fresh keys, without pressure. *)
Definition calm : HashEnv := mkHashEnv 0 0 0.

Fixpoint fill (v : list Z) (first : Z) (n : nat) s : outcome state :=
  match n with
  | O => Done s
  | S n => s ← fill v first n s; hash_insert hcfg fuel calm s (first + Z.of_nat n) v
  end.

Lemma fill_quiet v first n s h c :
  quiet hcfg s h c 0 -> cache_under_pressure cfg 0 = false -> (1 <= fuel)%nat -> good_value hcfg v ->
  0 <= first -> first + Z.of_nat n < 2 ^ 63 ->
  (forall k, valid_key k -> first <= k -> mview cfg h c (fold_u64 k) = None) ->
  safe (fill v first n s) (fun s' => exists h' c', quiet hcfg s' h' c' 0 /\
    (forall k, valid_key k -> first + Z.of_nat n <= k -> mview cfg h' c' (fold_u64 k) = None) /\
    forall k, valid_key k -> k < first -> mview cfg h' c' (fold_u64 k) = mview cfg h c (fold_u64 k)).
Proof.
  intros Q Hp Hf Hv Hpos Hn Ha. induction n as [|n IH]; cbn [fill].
  { exists h, c. split; [done|]. split; [|done]. intros k Hk Hle. apply Ha; [done|lia]. }
  apply safe_bind. eapply safe_mono; [apply IH; lia|]. intros s1 (h1 & c1 & Q1 & A1 & O1).
  assert (valid_key (first + Z.of_nat n)) as Hk by (unfold valid_key; lia).
  eapply safe_mono; [apply (hash_insert_ok hcfg Hsz Hhot Hcold fuel calm s1 h1 c1 0 (first + Z.of_nat n) v); try done|].
  - intros Hc. unfold calm in Hc. cbn in Hc. congruence.
  - apply A1; [done|lia].
  - intros s2 (h2 & c2 & Q2 & W). exists h2, c2. split; [done|].
    assert (forall k, valid_key k -> k <> first + Z.of_nat n -> mview cfg h2 c2 (fold_u64 k) = mview cfg h1 c1 (fold_u64 k)) as Ho.
    { intros k Hk' Hne. rewrite W. rewrite decide_False; [done|]. intros E. apply fold_u64_inj in E; [done|by apply valid_key_width..]. }
    split; intros k Hk' Hle; (rewrite Ho by (done || lia)); [apply A1; [done|lia]|by apply O1].
Qed.
End props.

(** * Sample runs *)

Lemma hot_fits : sizeof_Slot <= 18 <= capacity. Proof. vm_compute. split; discriminate. Qed.
Lemma cold_fits : sizeof_Slot <= 17 <= capacity. Proof. vm_compute. split; discriminate. Qed.
Local Instance hot_contract : HashContract (Linear of_le of_le 18) := Linear_contract of_le of_le 18 hot_fits.
Local Instance cold_contract : HashContract (Linear of_le of_le 17) := Linear_contract of_le of_le 17 cold_fits.

Lemma sample_empty R : sizeof_Slot <= R <= capacity -> represents of_le of_le R sample_table ∅.
Proof.
  intros HR. assert (forall t, after t [] = t) as E by reflexivity. rewrite <- (E sample_table).
  apply (after_represents R []); [done|done|]. reflexivity.
Qed.

(** One-byte payloads, exclusive mode, always moving up; the hot table is full
    as soon as it has a page. *)
Definition sample_config : HashConfig := make_hash_config 1 1 1 false false 100.
Definition sample_adapter : TwoHash (Linear of_le of_le 18) (Linear of_le of_le 17) :=
  new_two_hash (mkLinear sample_table) (mkLinear sample_table).
Definition pressed : HashEnv := mkHashEnv 1 0 0.
Definition sample_ops : list (HashEnv * hash_op) :=
  [(calm, HInsert 1 [7]); (calm, HInsert 2 [8]); (pressed, HLookup 1); (pressed, HPut 2 [9]);
   (calm, HUpdate 1 [5]); (pressed, HLookup 1); (pressed, HLookup 2); (calm, HUpdate 3 [1]); (calm, HLookup 3)].
Definition sample_results : list (option (list Z)) :=
  [None; None; Some [7]; None; None; Some [5]; Some [9]; None; None].

Lemma sample_quiet : quiet sample_config sample_adapter ∅ ∅ 0.
Proof. apply new_quiet; apply sample_empty; [apply hot_fits|apply cold_fits]. Defined.

Lemma sample_shows : shows sample_config sample_adapter ∅.
Proof. exists ∅, ∅, 0. split; [apply sample_quiet|]. intros k _. unfold mview. by rewrite !lookup_empty. Defined.

Ltac payload_ok := split; [reflexivity|repeat constructor; unfold is_byte; lia].

Lemma sample_ops_ok : hash_ops_ok sample_config ∅ sample_ops.
Proof.
  cbn [sample_ops hash_ops_ok hash_op_ok]. repeat match goal with |- _ /\ _ => split end; try exact I;
    try (unfold valid_key; lia); try reflexivity; try payload_ok;
    first [right; split; [reflexivity|cbn; lia]|right; eexists; vm_compute; reflexivity].
Defined.

Definition returned {A B} (o : outcome (A * B)) : option A := match o with Done (a, _) => Some a | _ => None end.
Definition final {A B} (o : outcome (A * B)) : option B := match o with Done (_, b) => Some b | _ => None end.

Lemma sample_sizes :
  record_size (T := Linear of_le of_le 18) = sizeof_Slot + 8 + Z.of_nat (S (sizeof_Payload (base sample_config))) /\
  record_size (T := Linear of_le of_le 17) = sizeof_Slot + 8 + Z.of_nat (sizeof_Payload (base sample_config)) /\
  (1 <= sizeof_Payload (base sample_config) <= 4000)%nat.
Proof. split; [reflexivity|]. split; [reflexivity|]. cbn. lia. Qed.

Lemma sample_returns : returned (hash_run sample_config 4 sample_adapter sample_ops) = Some sample_results.
Proof. vm_compute. reflexivity. Qed.

(** The state after the sample history. *)
Definition sample_state : TwoHash (Linear of_le of_le 18) (Linear of_le of_le 17) :=
  default sample_adapter (final (hash_run sample_config 4 sample_adapter sample_ops)).

Lemma sample_run : hash_run sample_config 4 sample_adapter sample_ops = Done (sample_results, sample_state).
Proof.
  pose proof sample_returns as R. unfold sample_state. destruct (hash_run _ _ _ _) as [[rs s]| |]; [|discriminate R..].
  injection R as ->. reflexivity.
Qed.

Local Abbreviation sample_outcome := (fun rs s' =>
  rs = (hash_specs ∅ sample_ops).1 /\ shows sample_config s' (hash_specs ∅ sample_ops).2).

Lemma sample_state_shows : shows sample_config sample_state (hash_specs ∅ sample_ops).2.
Proof.
  destruct sample_sizes as (S1 & S2 & S3).
  pose proof (hash_run_shows sample_config 4 S3 S1 S2 sample_ops sample_adapter ∅
    sample_shows ltac:(lia) eq_refl sample_ops_ok) as Hs.
  exact (proj2 (safe_pair _ sample_outcome sample_results sample_state Hs sample_run)).
Defined.

Lemma two_hash_refines_witness :
  hash_run sample_config 4 sample_adapter sample_ops = Done (sample_results, sample_state) /\
  shows sample_config sample_state (hash_specs ∅ sample_ops).2.
Proof.
  split; [exact sample_run|]. destruct sample_sizes as (S1 & S2 & S3).
  pose proof (two_hash_refines sample_config 4 S3 S1 S2 sample_ops sample_adapter ∅
    sample_shows ltac:(lia) eq_refl sample_ops_ok) as Hs.
  exact (proj2 (safe_pair _ sample_outcome sample_results sample_state Hs sample_run)).
Defined.

(** The same with a clock that walks by records, five at a time, and ten records. *)
Definition records_config : HashConfig := make_hash_config 1 1 5 true false 100.
Definition ten_records : TwoHash (Linear of_le of_le 18) (Linear of_le of_le 17) :=
  or_else (fill records_config 4 [7] 1 10 sample_adapter) sample_adapter.

Lemma ten_records_filled : fill records_config 4 [7] 1 10 sample_adapter = Done ten_records.
Proof. apply or_else_Done. vm_compute. reflexivity. Qed.

Lemma ten_records_quiet : exists h c, quiet records_config ten_records h c 0 /\ size h = 10%nat.
Proof.
  destruct sample_sizes as (S1 & S2 & S3).
  assert (quiet records_config sample_adapter ∅ ∅ 0) as Q by (apply new_quiet; apply sample_empty; [apply hot_fits|apply cold_fits]).
  pose proof (fill_quiet records_config 4 S3 S1 S2 [7] 1 10 sample_adapter ∅ ∅ Q eq_refl ltac:(lia) ltac:(payload_ok) ltac:(lia) ltac:(lia)) as Hs.
  destruct (safe_Done _ _ _ (Hs ltac:(reflexivity)) ten_records_filled) as (h & c & Q' & _). exists h, c. split; [exact Q'|].
  pose proof (tb_items _ _ _ _ (qt_tabs _ _ _ _ _ Q')) as E.
  assert (hot_partition_item_count (hash_stats ten_records) = 10) as E10 by (vm_compute; reflexivity). lia.
Qed.

Lemma hash_eviction_keeps_records_witness :
  exists h c, quiet records_config ten_records h c 0 /\ evictable records_config 200 pressed ten_records h /\
    cache_under_pressure (base records_config) (hot_pages pressed) = true /\
    safe (try_evict records_config 200 pressed ten_records) (fun s' => exists h' c',
      quiet records_config s' h' c' 0 /\ forall kb, mview (base records_config) h' c' kb = mview (base records_config) h c kb).
Proof.
  destruct ten_records_quiet as (h & c & Q & Hsize). exists h, c. split; [exact Q|].
  assert (evictable records_config 200 pressed ten_records h) as E.
  { intros _ _. split; [lia|]. split; [apply Z.leb_le; vm_compute; reflexivity|cbn; lia]. }
  split; [exact E|]. split; [vm_compute; reflexivity|]. destruct sample_sizes as (S1 & S2 & S3).
  exact (hash_eviction_keeps_records records_config 200 S3 S1 S2 pressed ten_records h c 0 Q E).
Defined.

(** The adapter with one record. *)
Definition one_record : TwoHash (Linear of_le of_le 18) (Linear of_le of_le 17) :=
  or_else (hash_insert sample_config 4 calm sample_adapter 1 [7]) sample_adapter.

Lemma one_record_inserted : hash_insert sample_config 4 calm sample_adapter 1 [7] = Done one_record.
Proof. apply or_else_Done. vm_compute. reflexivity. Qed.

Lemma one_record_quiet : exists h c, quiet sample_config one_record h c 0 /\ written sample_config 1 [7] ∅ ∅ h c.
Proof.
  destruct sample_sizes as (S1 & S2 & S3).
  assert (evictable sample_config 4 calm sample_adapter ∅) as E by (intros _ ?; discriminate).
  assert (valid_key 1) as Hk by (unfold valid_key; lia).
  assert (good_value sample_config [7]) as Hv by payload_ok.
  pose proof (hash_insert_ok sample_config S3 S1 S2 4 calm sample_adapter ∅ ∅ 0 1 [7] sample_quiet E ltac:(lia) Hk Hv
    eq_refl) as Hs.
  exact (safe_Done _ _ one_record Hs one_record_inserted).
Qed.

Lemma hash_evict_all_empties_witness :
  exists h c, quiet sample_config one_record h c 0 /\
    safe (evict_all sample_config 400 one_record) (fun s' => exists c',
      quiet sample_config s' ∅ c' 0 /\ forall kb, c' !! kb = mview (base sample_config) h c kb).
Proof.
  destruct one_record_quiet as (h & c & Q & _). exists h, c. split; [exact Q|].
  destruct sample_sizes as (S1 & S2 & S3).
  apply (hash_evict_all_empties sample_config 400 S3 S1 S2 one_record h c eq_refl Q).
  vm_compute. discriminate.
Defined.

Lemma hash_put_absent_fails_witness : fails (hash_put sample_config 4 calm sample_adapter 3 [1]).
Proof.
  destruct sample_sizes as (S1 & S2 & S3).
  apply (hash_put_absent_fails sample_config 4 S3 S1 S2 calm sample_adapter ∅ ∅ 0 3 [1] sample_quiet).
  - intros _ ?. discriminate.
  - lia.
  - payload_ok.
  - reflexivity.
  - reflexivity.
Defined.

(** * A refusal *)

(** Payloads of 4000 bytes, four to a page.  The record of key 1 is evicted; four
    more records, of the same bucket, fill its page in the hot table; an update of
    key 1 that must not grow the table is refused. *)
Lemma big_hot_fits : sizeof_Slot <= 4017 <= capacity. Proof. vm_compute. split; discriminate. Qed.
Lemma big_cold_fits : sizeof_Slot <= 4016 <= capacity. Proof. vm_compute. split; discriminate. Qed.
Local Instance big_hot : HashContract (Linear of_le of_le 4017) := Linear_contract of_le of_le 4017 big_hot_fits.
Local Instance big_cold : HashContract (Linear of_le of_le 4016) := Linear_contract of_le of_le 4016 big_cold_fits.

Definition big_config : HashConfig := make_hash_config 4000 1 1 false false 100.
Definition big_adapter : TwoHash (Linear of_le of_le 4017) (Linear of_le of_le 4016) :=
  new_two_hash (mkLinear sample_table) (mkLinear sample_table).
Definition big_value : list Z := replicate 4000 7.
Definition unlucky : HashEnv := mkHashEnv 0 0 50.

Definition big_steps : outcome (TwoHash (Linear of_le of_le 4017) (Linear of_le of_le 4016)) :=
  s ← fill big_config 4 big_value 1 1 big_adapter;
  s ← evict_all big_config 400 s;
  fill big_config 4 big_value 2 4 s.
Definition big_state : TwoHash (Linear of_le of_le 4017) (Linear of_le of_le 4016) :=
  or_else big_steps big_adapter.

Lemma big_reached : big_steps = Done big_state.
Proof. apply or_else_Done. vm_compute. reflexivity. Qed.

Lemma big_sizes :
  record_size (T := Linear of_le of_le 4017) = sizeof_Slot + 8 + Z.of_nat (S (sizeof_Payload (base big_config))) /\
  record_size (T := Linear of_le of_le 4016) = sizeof_Slot + 8 + Z.of_nat (sizeof_Payload (base big_config)) /\
  (1 <= sizeof_Payload (base big_config) <= 4000)%nat.
Proof.
  split; [apply Z.eqb_eq; vm_compute; reflexivity|]. split; [apply Z.eqb_eq; vm_compute; reflexivity|].
  split; apply Nat.leb_le; vm_compute; reflexivity.
Qed.

Lemma big_good : good_value big_config big_value.
Proof. split; [apply length_replicate|]. apply Forall_replicate. unfold is_byte. lia. Qed.

Lemma big_quiet : exists h c, quiet big_config big_state h c 0.
Proof.
  destruct big_sizes as (S1 & S2 & S3). pose proof big_good as Hv.
  assert (quiet big_config big_adapter ∅ ∅ 0) as Q by (apply new_quiet; apply sample_empty; [apply big_hot_fits|apply big_cold_fits]).
  assert (safe big_steps (fun s => exists h c, quiet big_config s h c 0)) as Hs; [|exact (safe_Done _ _ _ Hs big_reached)].
  unfold big_steps. apply safe_bind.
  eapply safe_mono; [apply safe_result, (fill_quiet big_config 4 S3 S1 S2 big_value 1 1 big_adapter ∅ ∅ Q eq_refl ltac:(lia) Hv ltac:(lia) ltac:(lia))|].
  { intros k _ _. unfold mview. by rewrite !lookup_empty. }
  intros s1 [(h1 & c1 & Q1 & A1 & _) E1]. apply safe_bind.
  assert (match fill big_config 4 big_value 1 1 big_adapter with Done s => ht_countBuckets (hot_hash_table s) | _ => 0 end = 128) as Eb
    by (vm_compute; reflexivity). rewrite E1 in Eb.
  eapply safe_mono; [apply (evict_all_due big_config S3 S1 S2 eq_refl 400 s1 h1 c1 Q1)|].
  { left. pose proof (tb_clock _ _ _ _ (qt_tabs _ _ _ _ _ Q1)). lia. }
  intros s2 (c2 & Q2 & V2). eapply safe_mono; [apply (fill_quiet big_config 4 S3 S1 S2 big_value 2 4 s2 ∅ c2 Q2 eq_refl ltac:(lia) Hv ltac:(lia) ltac:(lia))|].
  { intros k Hk Hle. unfold mview. rewrite lookup_empty, V2. apply A1; [done|lia]. }
  intros s3 (h3 & c3 & Q3 & _). eauto.
Qed.

Lemma big_refused : try_evict big_config 4 unlucky big_state = Done big_state /\ update_lost big_config unlucky big_state 1 big_value = true.
Proof.
  split; [|vm_compute; reflexivity]. unfold try_evict.
  assert (cache_under_pressure (base big_config) (hot_pages unlucky) = false) as -> by reflexivity. reflexivity.
Qed.

Lemma hash_update_replaces_or_loses_witness :
  exists h c, quiet big_config big_state h c 0 /\ update_lost big_config unlucky big_state 1 big_value = true /\
  safe (hash_update big_config 4 unlucky big_state 1 big_value) (fun s' => exists h' c', quiet big_config s' h' c' 1 /\
    is_Some (mview (base big_config) h c (fold_u64 1)) /\ forall kb, mview (base big_config) h' c' kb = mview (base big_config) h c kb).
Proof.
  destruct big_quiet as (h & c & Q). exists h, c. split; [exact Q|]. destruct big_refused as [E1 E2]. split; [exact E2|].
  destruct big_sizes as (S1 & S2 & S3).
  assert (evictable big_config 4 unlucky big_state h) as Ev by (intros _ ?; discriminate).
  assert (valid_key 1) as Hk by (unfold valid_key; lia).
  assert (inclusive (base big_config) = true -> should_migrate (base big_config) (migrate_rand unlucky) = false) as Hi by discriminate.
  pose proof (hash_update_replaces_or_loses big_config 4 S3 S1 S2 unlucky big_state h c 0 1 big_value Q Ev ltac:(lia) Hk big_good Hi) as Hs.
  eapply safe_mono; [exact Hs|]. intros s' (s1 & E & h' & c' & H). destruct (Done_inj _ _ (eq_trans (eq_sym E1) E)). rewrite E2 in H.
  exists h', c'. exact H.
Defined.

Definition big_updated : TwoHash (Linear of_le of_le 4017) (Linear of_le of_le 4016) :=
  or_else (hash_update big_config 4 unlucky big_state 1 big_value) big_state.

Lemma hash_evict_all_never_ends_witness :
  hash_update big_config 4 unlucky big_state 1 big_value = Done big_updated /\ fails (evict_all big_config 1000 big_updated).
Proof.
  assert (hash_update big_config 4 unlucky big_state 1 big_value = Done big_updated) as E.
  { apply or_else_Done. vm_compute. reflexivity. }
  split; [exact E|]. destruct big_quiet as (h & c & Q). destruct big_refused as [E1 E2]. destruct big_sizes as (S1 & S2 & S3).
  apply (hash_evict_all_never_ends big_config 4 S3 S1 S2 unlucky big_state big_state big_updated h c 0 1 big_value 1000 eq_refl eq_refl Q).
  - lia.
  - lia.
  - unfold valid_key. lia.
  - exact big_good.
  - exact E1.
  - exact E2.
  - exact E.
Defined.
