(* ===== verification/HeapPage.v ===== *)
(** The slotted page of the heap file
    (src/backend/leanstore/storage/heap/HeapFile.hpp and .cpp, [HeapPage]).

    Tuples are addressed by slot.  A slot once taken is never given back: a
    removed tuple keeps its slot and its bytes until an insertion takes them
    over.  The slot array is the list of its first [count] entries, the others
    are [FREE]. *)
From stdpp Require Import gmap.
From S2P Require Import Prelude BTreeNode.
Local Open Scope Z_scope.

Inductive SlotStatus := FREE | OCCUPIED | REMOVED.

#[export] Instance SlotStatus_eq_dec : EqDecision SlotStatus.
Proof. solve_decision. Defined.

Record HeapSlot := mkHeapSlot { slot_offset : Z; slot_len : nat; slot_status : SlotStatus }.

Record HeapPage := mkHeapPage {
  heap_page_number : Z;      (* page_id *)
  heap_space_used : Z;
  heap_data_offset : Z;
  heap_slots : list HeapSlot;
  heap_bytes : mem }.

Definition new_heap_page (id : Z) : HeapPage := mkHeapPage id 0 (u16 EFFECTIVE_PAGE_SIZE) [] (fun _ => 0).

Definition heap_count (p : HeapPage) : nat := length (heap_slots p).

(** Offset of [slot]: 4 (page_id) + 3 * 2; [sizeof(Slot)], packed: 2 + 2. *)
Definition heap_slot_base : Z := 10.
Definition sizeof_HeapSlot : Z := 4.

(** [reinterpret_cast<u8*>(slot + count) - ptr()] *)
Definition metadata_used (c : nat) : Z := heap_slot_base + sizeof_HeapSlot * Z.of_nat c.

Definition set_heap_slots (p : HeapPage) (l : list HeapSlot) : HeapPage :=
  mkHeapPage (heap_page_number p) (heap_space_used p) (heap_data_offset p) l (heap_bytes p).
Definition set_heap_bytes (p : HeapPage) (m : mem) : HeapPage :=
  mkHeapPage (heap_page_number p) (heap_space_used p) (heap_data_offset p) (heap_slots p) m.

(** The assertion on [data_offset]. *)
Definition offset_matches (p : HeapPage) : bool := EFFECTIVE_PAGE_SIZE - heap_data_offset p =? heap_space_used p.

Definition freeSpaceWithoutRemovedTuples (p : HeapPage) : option Z :=
  if offset_matches p
  then Some (u16 (EFFECTIVE_PAGE_SIZE - metadata_used (heap_count p) - heap_space_used p)) else None.

(** The loop of [freeSpace]: the leftmost offset and the space of removed
    tuples. *)
Fixpoint free_space_loop (l : list HeapSlot) (left_most space : Z) : option (Z * Z) :=
  match l with
  | [] => Some (left_most, space)
  | s :: l =>
      match slot_status s with
      | FREE => None
      | st =>
          let left_most := if slot_offset s <? left_most then slot_offset s else left_most in
          if decide (st = REMOVED)
          then if (slot_len s =? 0)%nat then None else free_space_loop l left_most (space + Z.of_nat (slot_len s))
          else free_space_loop l left_most space
      end
  end.

Definition heap_freeSpace (p : HeapPage) : option Z :=
  if offset_matches p then
    '(left_most, space) ← free_space_loop (heap_slots p) (u16 EFFECTIVE_PAGE_SIZE) 0;
    let used := metadata_used (heap_count p) in
    if (used <=? left_most) && (used + heap_space_used p <=? EFFECTIVE_PAGE_SIZE)
    then Some (u16 (EFFECTIVE_PAGE_SIZE - used - heap_space_used p + space)) else None
  else None.

Definition heap_spaceNeeded (len : nat) : Z := u16 (sizeof_HeapSlot + Z.of_nat len).

(** [canInsert], and [prepareInsert] with [requestSpaceFor]. *)
Definition heap_canInsert (p : HeapPage) (len : nat) : option bool :=
  f ← heap_freeSpace p; Some (heap_spaceNeeded len <=? f).

(** The payload length is a field of 14 bits. *)
Definition field14 (n : nat) : nat := Z.to_nat (Z.of_nat n mod 2 ^ 14).

(** [storeKeyValue] at the slot [count], which is [FREE], followed by
    [count++]. *)
Definition storeKeyValue (p : HeapPage) (payload : list Z) : option HeapPage :=
  let len := length payload in
  let off := u16 (heap_data_offset p - Z.of_nat len) in
  if metadata_used (heap_count p) <=? off then
    Some (mkHeapPage (heap_page_number p) (u16 (heap_space_used p + Z.of_nat len)) off
      (heap_slots p ++ [mkHeapSlot off (field14 len) OCCUPIED]) (write_bytes (heap_bytes p) off payload))
  else None.

Fixpoint find_removed (l : list HeapSlot) (i : nat) : option (nat * HeapSlot) :=
  match l with
  | [] => None
  | s :: l => if decide (slot_status s = REMOVED) then Some (i, s) else find_removed l (S i)
  end.

(** [insert]: the slot, or [None] for -1. *)
Definition heap_insert (p : HeapPage) (payload : list Z) : option (option nat * HeapPage) :=
  free ← freeSpaceWithoutRemovedTuples p;
  if heap_spaceNeeded (length payload) <=? free then
    q ← storeKeyValue p payload;
    if offset_matches q then Some (Some (heap_count p), q) else None
  else
    match find_removed (heap_slots p) 0 with
    | None => Some (None, p)
    | Some (i, s) =>
        if (length payload =? slot_len s)%nat then
          Some (Some i, mkHeapPage (heap_page_number p) (heap_space_used p) (heap_data_offset p)
            (<[i := mkHeapSlot (slot_offset s) (slot_len s) OCCUPIED]> (heap_slots p))
            (write_bytes (heap_bytes p) (slot_offset s) payload))
        else None
    end.

Definition heap_removeSlot (p : HeapPage) (i : nat) : option HeapPage :=
  s ← heap_slots p !! i;
  Some (set_heap_slots p (<[i := mkHeapSlot (slot_offset s) (slot_len s) REMOVED]> (heap_slots p))).

(** [update] *)
Definition heap_update (p : HeapPage) (i : nat) (payload : list Z) : option HeapPage :=
  s ← heap_slots p !! i;
  if (length payload =? slot_len s)%nat
  then Some (set_heap_bytes p (write_bytes (heap_bytes p) (slot_offset s) payload)) else None.

(** [getPayload] with [getPayloadLength]. *)
Definition slot_payload (m : mem) (s : HeapSlot) : list Z := read_bytes m (slot_offset s) (slot_len s).

(** The tuple of a slot below [count] whose status is [OCCUPIED]. *)
Definition tuple_at (p : HeapPage) (i : nat) : option (list Z) :=
  s ← heap_slots p !! i;
  if decide (slot_status s = OCCUPIED) then Some (slot_payload (heap_bytes p) s) else None.

(** * Invariant *)

(** Slots in the order they were taken, each behind (to the left of) the one
    before; [top] is the offset of the last one. *)
Fixpoint packed (top : Z) (l : list HeapSlot) : Prop :=
  match l with
  | [] => True
  | s :: l => slot_offset s = top - Z.of_nat (slot_len s) /\ packed (slot_offset s) l
  end.

(** A page of tuples of [n] bytes. *)
Record page_ok (n : nat) (p : HeapPage) : Prop := PageOk {
  hp_packed : packed EFFECTIVE_PAGE_SIZE (heap_slots p);
  hp_slots : Forall (fun s => slot_len s = n /\ slot_status s <> FREE) (heap_slots p);
  hp_used : heap_space_used p = Z.of_nat (heap_count p * n);
  hp_offset : heap_data_offset p = EFFECTIVE_PAGE_SIZE - heap_space_used p;
  hp_room : metadata_used (heap_count p) <= heap_data_offset p }.

Lemma packed_offset n l top : packed top l -> Forall (fun s => slot_len s = n /\ slot_status s <> FREE) l ->
  forall i s, l !! i = Some s -> slot_offset s = top - Z.of_nat (S i * n).
Proof.
  revert top. induction l as [|s l IH]; intros top P F i s' Hi; [done|]. destruct P as [E P].
  inversion F as [|? ? [El _] F']; subst. destruct i as [|i]; cbn in Hi.
  - injection Hi as <-. lia.
  - rewrite (IH _ P F' i s' Hi), E. lia.
Qed.

Lemma packed_app top l s : packed top l -> forall n, Forall (fun s => slot_len s = n /\ slot_status s <> FREE) l ->
  slot_offset s = top - Z.of_nat (length l * n) - Z.of_nat (slot_len s) -> packed top (l ++ [s]).
Proof.
  revert top. induction l as [|s0 l IH]; intros top P n F E; cbn in *.
  - split; [lia|done].
  - destruct P as [E0 P]. inversion F as [|? ? [El _] F']; subst. split; [done|].
    eapply IH; [done|exact F'|]. rewrite E, E0. lia.
Qed.

Lemma packed_insert top l i s s' : packed top l -> l !! i = Some s ->
  slot_offset s' = slot_offset s -> slot_len s' = slot_len s -> packed top (<[i := s']> l).
Proof.
  revert top i. induction l as [|s0 l IH]; intros top i P Hi E1 E2; [done|]. destruct P as [E0 P].
  destruct i as [|i]; cbn in Hi |- *.
  - injection Hi as ->. split; [congruence|]. by rewrite E1.
  - split; [done|]. by apply IH.
Qed.

Section page.
Context (n : nat) (Hn : 1 <= Z.of_nat n < 2 ^ 14).
Implicit Types (p : HeapPage).

Lemma page_small p : page_ok n p -> 10 + (4 + Z.of_nat n) * Z.of_nat (heap_count p) <= 16352.
Proof.
  intros [_ _ U O R]. unfold metadata_used, heap_slot_base, sizeof_HeapSlot in R. rewrite O, U in R.
  change EFFECTIVE_PAGE_SIZE with 16352 in R. lia.
Qed.

Lemma new_page_ok id : page_ok n (new_heap_page id).
Proof. constructor; cbn; try done. Qed.

Lemma page_offset_matches p : page_ok n p -> offset_matches p = true.
Proof. intros [_ _ U O _]. unfold offset_matches. rewrite O. apply Z.eqb_eq. lia. Qed.

Lemma page_slot p i s : page_ok n p -> heap_slots p !! i = Some s ->
  slot_len s = n /\ slot_status s <> FREE /\ slot_offset s = 16352 - Z.of_nat (S i * n) /\ (i < heap_count p)%nat.
Proof.
  intros P Hi. destruct (proj1 (list.Forall_lookup _ _) (hp_slots _ _ P) i s Hi) as [E1 E2].
  split; [done|]. split; [done|]. split; [|by apply lookup_lt_Some in Hi].
  by apply (packed_offset n _ EFFECTIVE_PAGE_SIZE (hp_packed _ _ P) (hp_slots _ _ P)).
Qed.

(** ** Free space *)

Lemma free_without_ok p : page_ok n p ->
  freeSpaceWithoutRemovedTuples p = Some (16342 - (4 + Z.of_nat n) * Z.of_nat (heap_count p)).
Proof.
  intros P. pose proof (page_small p P) as Hs. unfold freeSpaceWithoutRemovedTuples. rewrite page_offset_matches by done.
  f_equal. rewrite (hp_used _ _ P). unfold metadata_used, heap_slot_base, sizeof_HeapSlot.
  change EFFECTIVE_PAGE_SIZE with 16352. rewrite wrap_small; [lia|]. unfold in_width. lia.
Qed.

Definition removed_count (l : list HeapSlot) : nat := length (filter (fun s => slot_status s = REMOVED) l).

Lemma free_space_loop_ok l : Forall (fun s => slot_len s = n /\ slot_status s <> FREE) l ->
  forall lm sp, exists lm', free_space_loop l lm sp = Some (lm', sp + Z.of_nat (removed_count l * n)) /\
    (lm' = lm \/ exists s, s ∈ l /\ lm' = slot_offset s).
Proof.
  induction 1 as [|s l [El Es] _ IH]; intros lm sp.
  { exists lm. cbn. split; [f_equal; f_equal; lia|by left]. }
  cbn [free_space_loop]. set (lm1 := if slot_offset s <? lm then slot_offset s else lm).
  assert (lm1 = lm \/ lm1 = slot_offset s) as Hlm by (unfold lm1; case_match; auto).
  unfold removed_count. rewrite filter_cons. destruct (slot_status s) eqn:E; [done| |].
  - rewrite decide_False by done. destruct (IH lm1 sp) as (lm' & E' & Hl). rewrite E'. exists lm'.
    rewrite decide_False by done. split; [done|]. destruct Hl as [->|(s' & Hs & ->)].
    + destruct Hlm as [->| ->]; [by left|]. right. exists s. split; [by left|done].
    + right. exists s'. split; [by right|done].
  - rewrite decide_True by done. rewrite (proj2 (Nat.eqb_neq _ _)) by lia.
    destruct (IH lm1 (sp + Z.of_nat (slot_len s))) as (lm' & E' & Hl). rewrite E'. exists lm'.
    rewrite decide_True by done. split; [unfold removed_count; cbn [length]; f_equal; f_equal; lia|].
    destruct Hl as [->|(s' & Hs & ->)].
    + destruct Hlm as [->| ->]; [by left|]. right. exists s. split; [by left|done].
    + right. exists s'. split; [by right|done].
Qed.

Lemma removed_count_le l : (removed_count l <= length l)%nat.
Proof. apply length_filter. Qed.

Lemma heap_freeSpace_ok p : page_ok n p ->
  heap_freeSpace p = Some (16342 - (4 + Z.of_nat n) * Z.of_nat (heap_count p) + Z.of_nat (removed_count (heap_slots p) * n)).
Proof.
  intros P. pose proof (page_small p P) as Hs. unfold heap_freeSpace. rewrite page_offset_matches by done.
  destruct (free_space_loop_ok (heap_slots p) (hp_slots _ _ P) (u16 EFFECTIVE_PAGE_SIZE) 0) as (lm & -> & Hl).
  cbn [mbind option_bind]. pose proof (removed_count_le (heap_slots p)) as Hrc. fold (heap_count p) in Hrc.
  assert (metadata_used (heap_count p) <= lm) as L1.
  { destruct Hl as [->|(s & Hs' & ->)].
    - change (u16 EFFECTIVE_PAGE_SIZE) with 16352. unfold metadata_used, heap_slot_base, sizeof_HeapSlot. lia.
    - apply list_elem_of_lookup in Hs' as [i Hi]. destruct (page_slot p i s P Hi) as (_ & _ & -> & Hic).
      unfold metadata_used, heap_slot_base, sizeof_HeapSlot. nia. }
  rewrite (proj2 (Z.leb_le _ _) L1). rewrite (hp_used _ _ P). unfold metadata_used, heap_slot_base, sizeof_HeapSlot in *.
  change EFFECTIVE_PAGE_SIZE with 16352. rewrite (proj2 (Z.leb_le _ _)) by lia. cbn [andb]. f_equal.
  rewrite wrap_small; [lia|]. unfold in_width. nia.
Qed.

(** ** Operations *)

Lemma slots_apart p i j s s' : page_ok n p -> i <> j -> heap_slots p !! i = Some s -> heap_slots p !! j = Some s' ->
  slot_offset s' + Z.of_nat (slot_len s') <= slot_offset s \/ slot_offset s + Z.of_nat (slot_len s) <= slot_offset s'.
Proof.
  intros P Hne Hi Hj. destruct (page_slot p i s P Hi) as (-> & _ & -> & _), (page_slot p j s' P Hj) as (-> & _ & -> & _).
  destruct (decide (i < j)%nat); [left|right]; nia.
Qed.

Lemma find_removed_ok l : forall k,
  match find_removed l k with
  | None => Forall (fun s => slot_status s <> REMOVED) l
  | Some (i, s) => exists j, i = (k + j)%nat /\ l !! j = Some s /\ slot_status s = REMOVED
  end.
Proof.
  induction l as [|s l IH]; intros k; cbn; [constructor|]. case_decide as E.
  - exists 0%nat. split; [lia|done].
  - specialize (IH (S k)). destruct (find_removed l (S k)) as [[i s']|].
    + destruct IH as (j & -> & Hj & Es). exists (S j). split; [lia|done].
    + by constructor.
Qed.

(** A slot rewritten in place. *)
Lemma rewrite_slot p i s st payload :
  page_ok n p -> heap_slots p !! i = Some s -> st <> FREE -> length payload = n ->
  let q := mkHeapPage (heap_page_number p) (heap_space_used p) (heap_data_offset p)
             (<[i := mkHeapSlot (slot_offset s) (slot_len s) st]> (heap_slots p))
             (write_bytes (heap_bytes p) (slot_offset s) payload) in
  page_ok n q /\ forall j, tuple_at q j = if decide (j = i) then (if decide (st = OCCUPIED) then Some payload else None)
                                          else tuple_at p j.
Proof.
  intros P Hi Hst Hl q. destruct (page_slot p i s P Hi) as (El & Es & Eo & Hic). split.
  - destruct P as [P1 P2 P3 P4 P5]. constructor; cbn; try done.
    + by eapply packed_insert.
    + apply Forall_insert; [done|]. by split.
    + unfold heap_count. cbn. by rewrite length_insert.
    + unfold heap_count. cbn. by rewrite length_insert.
  - intros j. unfold tuple_at. cbn [q heap_slots heap_bytes]. case_decide as E.
    + subst j. rewrite list_lookup_insert_eq by done. cbn [mbind option_bind slot_status]. case_decide; [|done].
      unfold slot_payload. cbn [slot_offset slot_len]. f_equal. apply read_write_same. congruence.
    + rewrite list_lookup_insert_ne by done. destruct (heap_slots p !! j) as [s'|] eqn:Hj; [|done]. cbn [mbind option_bind].
      case_decide; [|done]. f_equal. unfold slot_payload. apply read_write_other.
      destruct (slots_apart p i j s s' P ltac:(done) Hi Hj) as [?|?]; [|rewrite Hl, <- El]; auto.
Qed.

Lemma storeKeyValue_ok p payload :
  page_ok n p -> length payload = n -> 4 + Z.of_nat n <= 16342 - (4 + Z.of_nat n) * Z.of_nat (heap_count p) ->
  exists q, storeKeyValue p payload = Some q /\ page_ok n q /\ heap_count q = S (heap_count p) /\
    heap_page_number q = heap_page_number p /\ offset_matches q = true /\
    forall j, tuple_at q j = if decide (j = heap_count p) then Some payload else tuple_at p j.
Proof.
  intros P Hl Hroom. pose proof (page_small p P) as Hs. pose proof P as [P1 P2 P3 P4 P5].
  assert (heap_data_offset p = 16352 - Z.of_nat (heap_count p * n)) as Eo by (rewrite P4, P3; done).
  unfold storeKeyValue. rewrite Hl, Eo. rewrite !wrap_small by (unfold in_width; rewrite ?P3; lia).
  set (off := 16352 - Z.of_nat (heap_count p * n) - Z.of_nat n).
  rewrite (proj2 (Z.leb_le _ _)) by (unfold metadata_used, heap_slot_base, sizeof_HeapSlot, off; lia).
  unfold field14. rewrite Z.mod_small, Nat2Z.id by lia. eexists. split; [done|].
  assert (page_ok n (mkHeapPage (heap_page_number p) (heap_space_used p + Z.of_nat n) off
    (heap_slots p ++ [mkHeapSlot off n OCCUPIED]) (write_bytes (heap_bytes p) off payload))) as Q.
  { constructor; cbn.
    - eapply packed_app; [done|exact P2|]. cbn. fold (heap_count p). change EFFECTIVE_PAGE_SIZE with 16352. unfold off. lia.
    - apply Forall_app. split; [done|]. constructor; [by split|constructor].
    - unfold heap_count in *. cbn. rewrite length_app, P3. cbn. lia.
    - change EFFECTIVE_PAGE_SIZE with 16352. rewrite P3. unfold off. lia.
    - unfold heap_count in *. cbn. rewrite length_app. cbn.
      unfold metadata_used, heap_slot_base, sizeof_HeapSlot, off. lia. }
  split; [exact Q|]. split; [unfold heap_count; cbn; rewrite length_app; cbn; lia|]. split; [done|].
  split; [by apply page_offset_matches|]. intros j. unfold tuple_at. cbn [heap_slots heap_bytes]. case_decide as E.
  - subst j. unfold heap_count. rewrite list_lookup_middle by done. cbn [mbind option_bind slot_status].
    rewrite decide_True by done. unfold slot_payload. cbn [slot_offset slot_len]. f_equal. by apply read_write_same.
  - destruct (decide (j < heap_count p)%nat).
    + rewrite lookup_app_l by done. destruct (heap_slots p !! j) as [s'|] eqn:Hj; [|done]. cbn [mbind option_bind]. case_decide; [|done].
      f_equal. unfold slot_payload. apply read_write_other.
      destruct (page_slot p j s' P Hj) as (-> & _ & -> & Hjc). unfold off. rewrite Hl. nia.
    + rewrite lookup_ge_None_2 by (rewrite length_app; cbn; unfold heap_count in *; lia).
      by rewrite lookup_ge_None_2 by (unfold heap_count in *; lia).
Qed.

(** [insert] finds a slot unless the page is full and has no removed tuple. *)
Lemma heap_insert_ok p payload :
  page_ok n p -> length payload = n ->
  exists r q, heap_insert p payload = Some (r, q) /\ page_ok n q /\ heap_page_number q = heap_page_number p /\
    match r with
    | None => q = p /\ removed_count (heap_slots p) = 0%nat /\
              16342 - (4 + Z.of_nat n) * Z.of_nat (heap_count p) < 4 + Z.of_nat n
    | Some i => tuple_at p i = None /\ (i < heap_count q)%nat /\
                forall j, tuple_at q j = if decide (j = i) then Some payload else tuple_at p j
    end.
Proof.
  intros P Hl. pose proof (page_small p P) as Hs. unfold heap_insert. rewrite (free_without_ok p P). cbn [mbind option_bind].
  unfold heap_spaceNeeded, sizeof_HeapSlot. rewrite Hl. rewrite (wrap_small 16 (4 + Z.of_nat n)) by (unfold in_width; lia).
  destruct (Z.leb_spec (4 + Z.of_nat n) (16342 - (4 + Z.of_nat n) * Z.of_nat (heap_count p))) as [L|L].
  - destruct (storeKeyValue_ok p payload P Hl L) as (q & -> & Q & Hc & Hid & Hm & Ht). cbn [mbind option_bind]. rewrite Hm.
    exists (Some (heap_count p)), q. split; [done|]. split; [done|]. split; [done|]. split; [|split; [lia|done]].
    unfold tuple_at. by rewrite lookup_ge_None_2 by (unfold heap_count; lia).
  - pose proof (find_removed_ok (heap_slots p) 0) as Hf. destruct (find_removed (heap_slots p) 0) as [[i s]|].
    + destruct Hf as (j & -> & Hj & Es). cbn [Nat.add]. destruct (page_slot p j s P Hj) as (El & _ & _ & Hjc).
      rewrite (proj2 (Nat.eqb_eq n (slot_len s)) (eq_sym El)).
      destruct (rewrite_slot p j s OCCUPIED payload P Hj) as [Q Ht]; [done|done|].
      exists (Some j). eexists. split; [done|]. split; [exact Q|]. split; [done|].
      split; [unfold tuple_at; rewrite Hj; cbn; by rewrite decide_False by congruence|].
      split; [unfold heap_count in *; cbn; by rewrite length_insert|]. intros j'. by rewrite Ht.
    + exists None, p. split; [done|]. split; [done|]. split; [done|]. split; [done|]. split; [|done].
      unfold removed_count. clear -Hf. induction Hf as [|s l Hx _ IH]; [done|]. by rewrite filter_cons, decide_False.
Qed.

Lemma heap_insert_full p payload : page_ok n p -> length payload = n -> removed_count (heap_slots p) = 0%nat ->
  16342 - (4 + Z.of_nat n) * Z.of_nat (heap_count p) < 4 + Z.of_nat n -> heap_insert p payload = Some (None, p).
Proof.
  intros P Hl Hr L. unfold heap_insert. rewrite (free_without_ok p P). cbn [mbind option_bind].
  unfold heap_spaceNeeded, sizeof_HeapSlot. rewrite Hl, (wrap_small 16 (4 + Z.of_nat n)) by (unfold in_width; lia).
  rewrite (proj2 (Z.leb_gt _ _) L). pose proof (find_removed_ok (heap_slots p) 0) as Hf.
  destruct (find_removed (heap_slots p) 0) as [[i s]|]; [|done]. destruct Hf as (j & _ & Hj & Es). exfalso.
  apply length_zero_iff_nil in Hr. apply (not_elem_of_nil s). rewrite <- Hr. apply list_elem_of_filter.
  split; [done|]. by eapply list_elem_of_lookup_2.
Qed.

Lemma heap_removeSlot_ok p i v : page_ok n p -> tuple_at p i = Some v ->
  exists q, heap_removeSlot p i = Some q /\ page_ok n q /\ heap_page_number q = heap_page_number p /\
    heap_count q = heap_count p /\ forall j, tuple_at q j = if decide (j = i) then None else tuple_at p j.
Proof.
  intros P Ht. unfold tuple_at in Ht. destruct (heap_slots p !! i) as [s|] eqn:Hi; [|done].
  unfold heap_removeSlot. rewrite Hi. cbn [mbind option_bind]. eexists. split; [done|].
  destruct (page_slot p i s P Hi) as (El & Es & Eo & Hic). destruct P as [P1 P2 P3 P4 P5]. split; [|split; [done|split]].
  - constructor; cbn; try done.
    + by eapply packed_insert.
    + apply Forall_insert; [done|]. by split.
    + unfold heap_count. cbn. by rewrite length_insert.
    + unfold heap_count. cbn. by rewrite length_insert.
  - unfold heap_count. cbn. by rewrite length_insert.
  - intros j. unfold tuple_at. cbn [heap_slots heap_bytes set_heap_slots]. case_decide as E.
    + subst j. by rewrite list_lookup_insert_eq.
    + by rewrite list_lookup_insert_ne.
Qed.

(** A tuple rewritten through the pointer of a callback. *)
Lemma rewrite_payload_ok p i s payload : page_ok n p -> heap_slots p !! i = Some s -> slot_status s = OCCUPIED ->
  length payload = n ->
  let q := set_heap_bytes p (write_bytes (heap_bytes p) (slot_offset s) payload) in
  page_ok n q /\ forall j, tuple_at q j = if decide (j = i) then Some payload else tuple_at p j.
Proof.
  intros P Hi Es Hl q. destruct (rewrite_slot p i s OCCUPIED payload P Hi) as [Q Ht]; [done|done|].
  rewrite list_insert_id in Q, Ht by (rewrite Hi; destruct s; cbn in *; by subst). split; [exact Q|].
  intros j. unfold q. by rewrite Ht.
Qed.

Lemma tuple_length p i v : page_ok n p -> tuple_at p i = Some v -> length v = n.
Proof.
  intros P Ht. unfold tuple_at in Ht. destruct (heap_slots p !! i) as [s|] eqn:Hi; [|done]. cbn in Ht.
  case_decide; [|done]. injection Ht as <-. unfold slot_payload. rewrite length_read_bytes.
  by apply (page_slot p i s P Hi).
Qed.
End page.
