(* ===== verification/HeapFile.v ===== *)
(** The heap file (src/backend/leanstore/storage/heap/HeapFile.hpp and .cpp):
    definitions.

    Tuples live in heap pages numbered from 0; a directory maps the number of a
    page to its frame and to the free space it had when that was last written
    down.  A list holds some pages that may have space, and the thread
    remembers the page it used last.

    The file is run by one thread over resident pages: latches, optimistic
    restarts and the mutex on the list fall away.  [NoRoom] stands for a buffer
    manager without free frames and for a full directory, behind which the code
    would write.  Random choices are an argument; comparisons
    with the threshold, a [double], are parameters. *)
From stdpp Require Import gmap.
From S2P Require Import Prelude Outcome BTreeNode HeapPage.
Local Open Scope Z_scope.

(** * Tuple identifiers *)

Definition kPageIdOffset : Z := 10.
Definition kSlotIdMask : Z := 0x3ff.
Definition MakeTupleId (page slot : Z) : Z := u32 (Z.lor (Z.shiftl page kPageIdOffset) slot).
Definition id_page (id : Z) : Z := Z.shiftr id kPageIdOffset.
Definition id_slot (id : Z) : Z := Z.land id kSlotIdMask.

(** * State *)

(** [EFFECTIVE_PAGE_SIZE / (sizeof(u64) * 2 * 4) - 10] *)
Definition kDirNodeEntryCount : nat := Z.to_nat (EFFECTIVE_PAGE_SIZE / (8 * 2 * 4) - 10).
Definition kDirArraySize : nat := Z.to_nat 8192.

Record Pointer := mkPointer { ptr : Z; dir_free_space : Z; reserved : Z }.
Record HeapDirectoryNode := mkDirNode { dataPagePointers : list Pointer; node_count : nat }.
Definition new_dir_node : HeapDirectoryNode := mkDirNode (replicate kDirNodeEntryCount (mkPointer 0 0 0)) 0.

Record HeapFile := mkHeapFile {
  dirNodes : list HeapDirectoryNode;          (* the first [idx] of them *)
  heap_pages : gmap Z HeapPage;               (* by frame *)
  heap_frames : list Z;                       (* free frames *)
  heap_data_stored : Z;
  heap_data_pages : Z;
  pages_with_free_space : list Z;
  next_page_to_scan : Z;
  heap_growable : bool;
  page_that_might_have_space : option Z }.    (* [None]: the maximal [u64] *)

(** Page numbers are [u64]s; positions in the directory are computed in [nat]. *)
Definition numSlots (t : HeapFile) : Z := Z.of_nat (length (dirNodes t) * kDirNodeEntryCount).
Definition dir_index (pid : Z) : nat := Z.to_nat pid / kDirNodeEntryCount.
Definition dir_entry (pid : Z) : nat := Z.to_nat pid mod kDirNodeEntryCount.

Definition set_dir (t : HeapFile) (l : list HeapDirectoryNode) (pages : gmap Z HeapPage) (frames : list Z) : HeapFile :=
  mkHeapFile l pages frames (heap_data_stored t) (heap_data_pages t) (pages_with_free_space t) (next_page_to_scan t)
    (heap_growable t) (page_that_might_have_space t).
Definition set_page (t : HeapFile) (f : Z) (p : HeapPage) : HeapFile :=
  set_dir t (dirNodes t) (<[f := p]> (heap_pages t)) (heap_frames t).
Definition set_stored (t : HeapFile) (n : Z) : HeapFile :=
  mkHeapFile (dirNodes t) (heap_pages t) (heap_frames t) n (heap_data_pages t) (pages_with_free_space t)
    (next_page_to_scan t) (heap_growable t) (page_that_might_have_space t).
Definition set_lists (t : HeapFile) (l : list Z) (next : Z) (might : option Z) : HeapFile :=
  mkHeapFile (dirNodes t) (heap_pages t) (heap_frames t) (heap_data_stored t) (heap_data_pages t) l next
    (heap_growable t) might.
Definition disable_heap_growth (t : HeapFile) : HeapFile :=
  mkHeapFile (dirNodes t) (heap_pages t) (heap_frames t) (heap_data_stored t) (heap_data_pages t)
    (pages_with_free_space t) (next_page_to_scan t) false (page_that_might_have_space t).

(** [HybridPageGuard<T>(dt_id, true, hot)]: a fresh frame. *)
Definition take_frame (t : HeapFile) : outcome (Z * HeapFile) :=
  match heap_frames t with
  | [] => NoRoom
  | f :: fs => Done (f, set_dir t (dirNodes t) (heap_pages t) fs)
  end.

(** * Directory *)

(** [getDirNode] as far as it makes nodes; [todo] more are needed.  The array
    of nodes has [kDirArraySize] entries. *)
Fixpoint add_dir_nodes (todo : nat) (t : HeapFile) : outcome HeapFile :=
  match todo with
  | O => Done t
  | S todo =>
      '(_, t) ← take_frame t;
      if (length (dirNodes t) <? kDirArraySize)%nat
      then add_dir_nodes todo (set_dir t (dirNodes t ++ [new_dir_node]) (heap_pages t) (heap_frames t))
      else NoRoom
  end.

Definition getDirNode (t : HeapFile) (pid : Z) : outcome HeapFile :=
  add_dir_nodes (S (dir_index pid) - length (dirNodes t)) t.

Definition pointer_at (t : HeapFile) (pid : Z) : option Pointer :=
  d ← dirNodes t !! dir_index pid; dataPagePointers d !! dir_entry pid.

Definition set_pointer (t : HeapFile) (pid : Z) (p : Pointer) : HeapFile :=
  set_dir t (alter (fun d => mkDirNode (<[dir_entry pid := p]> (dataPagePointers d)) (node_count d))
               (dir_index pid) (dirNodes t)) (heap_pages t) (heap_frames t).

(** The page a directory entry points to: [None] for a null pointer. *)
Definition page_at (t : HeapFile) (pid : Z) : option (Z * HeapPage) :=
  p ← pointer_at t pid;
  if ptr p =? 0 then None else h ← heap_pages t !! ptr p; Some (ptr p, h).

(** * Pages *)

(** A new heap page [pid] in the entry [dir_entry pid] of its node. *)
Definition put_heap_page (t : HeapFile) (pid : Z) : outcome HeapFile :=
  '(f, t) ← take_frame t;
  let h := new_heap_page pid in
  free ← of_option (heap_freeSpace h);
  let t := set_dir t (alter (fun d => mkDirNode (<[dir_entry pid := mkPointer f free 0]> (dataPagePointers d))
                                        (S (node_count d))) (dir_index pid) (dirNodes t))
             (<[f := h]> (heap_pages t)) (heap_frames t) in
  Done (mkHeapFile (dirNodes t) (heap_pages t) (heap_frames t) (heap_data_stored t) (heap_data_pages t + 1)
    (pages_with_free_space t ++ [pid]) (next_page_to_scan t) (heap_growable t) (page_that_might_have_space t)).

Definition N_pages : nat := 128.

(** The loop of [create]. *)
Fixpoint create_pages (todo : nat) (pid : Z) (t : HeapFile) : outcome HeapFile :=
  match todo with
  | O => Done t
  | S todo =>
      t ← getDirNode t pid;
      p ← of_option (pointer_at t pid);
      if ptr p =? 0 then t ← put_heap_page t pid; create_pages todo (pid + 1) t else Stuck
  end.

Definition create_heap (frames : list Z) : outcome HeapFile :=
  create_pages N_pages 0 (mkHeapFile [] ∅ frames 0 0 [] 0 true None).

(** The inner loop of [add_heap_pages]: the number of directory nodes it has
    reached. *)
Fixpoint add_heap_page (fuel : nat) (num_dir_nodes : nat) (t : HeapFile) : outcome (nat * HeapFile) :=
  match fuel with
  | O => Stuck
  | S fuel =>
      let page_id := Z.of_nat ((num_dir_nodes - 1) * kDirNodeEntryCount) in
      t ← getDirNode t page_id;
      d ← of_option (dirNodes t !! (num_dir_nodes - 1)%nat);
      if (node_count d <? kDirNodeEntryCount)%nat &&
         match dataPagePointers d !! node_count d with Some p => ptr p =? 0 | None => false end
      then t ← put_heap_page t (page_id + Z.of_nat (node_count d)); Done (num_dir_nodes, t)
      else add_heap_page fuel (S num_dir_nodes) t
  end.

Fixpoint add_heap_pages (todo : nat) (num_dir_nodes : nat) (t : HeapFile) : outcome HeapFile :=
  match todo with
  | O => Done t
  | S todo => '(num_dir_nodes, t) ← add_heap_page 3 num_dir_nodes t; add_heap_pages todo num_dir_nodes t
  end.

Section threshold.
(** Whether a free space is at or above the threshold, and not above it by more
    than a fifth of a page.  [debug]: assertions are compiled in. *)
Context (above within : Z -> bool) (debug : bool).

(** The pages of the directory entries [i], ... of a node with space. *)
Fixpoint entries_with_space (l : list Pointer) (pid : Z) : list Z :=
  match l with
  | [] => []
  | p :: l =>
      if negb (ptr p =? 0) && above (dir_free_space p) then pid :: entries_with_space l (pid + 1)
      else entries_with_space l (pid + 1)
  end.

Definition kScanStep : nat := N_pages * 10.

(** The loop of [find_pages_with_free_space] from page [pid] on; [todo] bounds
    the number of nodes. *)
Fixpoint scan_dir_nodes (todo : nat) (pid : Z) (t : HeapFile) : outcome HeapFile :=
  if numSlots t <=? pid then Done t
  else match todo with
       | O => Stuck
       | S todo =>
           d ← of_option (dirNodes t !! dir_index pid);
           let first := dir_entry pid in
           let last := Nat.min (first + kScanStep) kDirNodeEntryCount in
           let found := entries_with_space (take (last - first) (drop first (dataPagePointers d))) pid in
           let pid := pid + Z.of_nat (last - first) in
           let l := pages_with_free_space t ++ found in
           let t := set_lists t l (pid mod numSlots t) (page_that_might_have_space t) in
           if (N_pages <=? length l)%nat then Done t else scan_dir_nodes todo pid t
       end.

Definition find_pages_with_free_space (t : HeapFile) : outcome HeapFile :=
  if debug && negb (length (pages_with_free_space t) =? 0)%nat then Stuck
  else
    t ← scan_dir_nodes (length (dirNodes t)) (next_page_to_scan t) t;
    if (length (pages_with_free_space t) <? N_pages)%nat && heap_growable t
    then add_heap_pages (N_pages - length (pages_with_free_space t)) (length (dirNodes t)) t
    else Done t.

(** [get_page_with_space]; [r] is the random number, [fuel] the rounds of the
    [goto]. *)
Fixpoint get_page_with_space (fuel : nat) (r : Z) (t : HeapFile) : outcome (Z * HeapFile) :=
  match page_that_might_have_space t with
  | Some pid => Done (pid, t)
  | None =>
      if (length (pages_with_free_space t) <? 16)%nat then
        match fuel with
        | O => Stuck
        | S fuel => t ← find_pages_with_free_space t; get_page_with_space fuel r t
        end
      else
        pid ← of_option (pages_with_free_space t !! (Z.to_nat r mod length (pages_with_free_space t))%nat);
        Done (u32 pid, set_lists t (pages_with_free_space t) (next_page_to_scan t) (Some (u32 pid)))
  end.

Definition update_free_space_in_dir_node (t : HeapFile) (pid free : Z) (remove_from_list : bool) : outcome HeapFile :=
  t ← getDirNode t pid;
  p ← of_option (pointer_at t pid);
  let t := set_pointer t pid (mkPointer (ptr p) free (reserved p)) in
  Done (if remove_from_list
        then set_lists t (filter (fun x => x <> pid) (pages_with_free_space t)) (next_page_to_scan t) None
        else t).

(** [insert]: the identifier of the new tuple; a random number per round, and
    [fuel] for the search of a page. *)
Fixpoint heap_file_insert (fuel : nat) (rs : list Z) (t : HeapFile) (value : list Z) : outcome (Z * HeapFile) :=
  match rs with
  | [] => Stuck
  | r :: rs =>
      '(pid, t) ← get_page_with_space fuel r t;
      t ← getDirNode t pid;
      '(f, h) ← of_option (page_at t pid);
      '(slot, h) ← of_option (heap_insert h value);
      let t := set_page t f h in
      match slot with
      | Some i =>
          Done (MakeTupleId pid (Z.of_nat i), set_stored t (u64 (heap_data_stored t + Z.of_nat (length value))))
      | None =>
          free ← of_option (heap_freeSpace h);
          t ← update_free_space_in_dir_node t pid free true;
          heap_file_insert fuel rs t value
      end
  end.

(** [remove]: whether there was a tuple. *)
Definition heap_file_remove (t : HeapFile) (id : Z) : outcome (bool * HeapFile) :=
  let pid := id_page id in
  t ← getDirNode t pid;
  '(f, h) ← of_option (page_at t pid);
  match tuple_at h (Z.to_nat (id_slot id)) with
  | None => Done (false, t)
  | Some v =>
      let t := set_stored t (u64 (heap_data_stored t - Z.of_nat (length v))) in
      h ← of_option (heap_removeSlot h (Z.to_nat (id_slot id)));
      free ← of_option (heap_freeSpace h);
      let t := set_page t f h in
      t ← (if above free && within free then update_free_space_in_dir_node t pid free false else Done t);
      Done (true, t)
  end.
End threshold.

(** * Reading *)

(** [lookup], with what the callback sees: [None] is [NOT_FOUND]. *)
Definition heap_file_lookup (t : HeapFile) (id : Z) : option (list Z) :=
  if numSlots t <=? id_page id then None
  else '(_, h) ← page_at t (id_page id); tuple_at h (Z.to_nat (id_slot id)).

(** [lookupForUpdate] with a callback that leaves the bytes [f v]. *)
Definition heap_file_update (t : HeapFile) (id : Z) (f : list Z -> list Z) : option HeapFile :=
  if numSlots t <=? id_page id then None
  else
    '(fr, h) ← page_at t (id_page id);
    s ← heap_slots h !! Z.to_nat (id_slot id);
    if decide (slot_status s = OCCUPIED)
    then Some (set_page t fr (set_heap_bytes h
                (write_bytes (heap_bytes h) (slot_offset s) (f (slot_payload (heap_bytes h) s)))))
    else None.

(** [scanPage] of a page number the directory has; the callback says whether to
    go on, the flag whether it let the scan go on. *)
Fixpoint scan_slots {S} (cb : S -> list Z -> Z -> S * bool) (pid : Z) (m : mem) (l : list HeapSlot) (i : Z) (s : S) : S * bool :=
  match l with
  | [] => (s, true)
  | x :: l =>
      if decide (slot_status x = OCCUPIED) then
        let (s, continue) := cb s (slot_payload m x) (MakeTupleId pid i) in
        if continue : bool then scan_slots cb pid m l (i + 1) s else (s, false)
      else scan_slots cb pid m l (i + 1) s
  end.

Definition scanPage {S} (cb : S -> list Z -> Z -> S * bool) (t : HeapFile) (pid : Z) (s : S) : S * bool :=
  match page_at t pid with
  | None => (s, true)
  | Some (_, h) => scan_slots cb pid (heap_bytes h) (heap_slots h) 0 s
  end.

Fixpoint scan_pages {S} (cb : S -> list Z -> Z -> S * bool) (t : HeapFile) (todo : nat) (pid : Z) (s : S) : S :=
  match todo with
  | O => s
  | Datatypes.S todo =>
      let (s, continue) := scanPage cb t pid s in
      if continue : bool then scan_pages cb t todo (pid + 1) s else s
  end.

Definition heap_file_scan {S} (cb : S -> list Z -> Z -> S * bool) (t : HeapFile) (s : S) : S :=
  scan_pages cb t (Z.to_nat (numSlots t)) 0 s.

(** [countPages] and [countEntries] *)
Definition heap_pids (t : HeapFile) : list Z := map Z.of_nat (seq 0 (Z.to_nat (numSlots t))).
Definition countPages (t : HeapFile) : Z :=
  Z.of_nat (length (filter (fun pid => is_Some (page_at t pid)) (heap_pids t))).
Definition occupied_slots (h : HeapPage) : nat := length (filter (fun s => slot_status s = OCCUPIED) (heap_slots h)).
Definition countEntries (t : HeapFile) : Z :=
  foldr (fun pid n => match page_at t pid with Some (_, h) => Z.of_nat (occupied_slots h) + n | None => n end) 0 (heap_pids t).

(** [findParent]: the page number of the directory entry that points to a
    frame; [None] for a failed assertion or a jump. *)
Definition heap_find_parent (t : HeapFile) (f : Z) : option Z :=
  h ← heap_pages t !! f;
  p ← pointer_at t (heap_page_number h);
  if ptr p =? f then Some (heap_page_number h) else None.
