(* ===== verification/HeapFileInv.v ===== *)
(** The invariant of the heap file and what its parts do to the tuples. *)
From stdpp Require Import gmap.
From S2P Require Import Prelude Outcome BTreeNode HeapPage HeapFile.
Local Open Scope Z_scope.

Lemma entry_count : kDirNodeEntryCount = 245%nat.
Proof. reflexivity. Qed.
Opaque kDirNodeEntryCount.

(** * Positions in the directory *)

Lemma dir_position pid : 0 <= pid ->
  pid = Z.of_nat (dir_index pid * kDirNodeEntryCount + dir_entry pid) /\ (dir_entry pid < kDirNodeEntryCount)%nat.
Proof.
  intros Hp. unfold dir_index, dir_entry. rewrite entry_count.
  pose proof (Nat.div_mod_eq (Z.to_nat pid) 245). pose proof (Nat.mod_upper_bound (Z.to_nat pid) 245 ltac:(lia)). lia.
Qed.

Lemma dir_at i j : (j < kDirNodeEntryCount)%nat ->
  dir_index (Z.of_nat (i * kDirNodeEntryCount + j)) = i /\ dir_entry (Z.of_nat (i * kDirNodeEntryCount + j)) = j.
Proof.
  intros Hj. unfold dir_index, dir_entry. rewrite Nat2Z.id. rewrite entry_count in *.
  split; [symmetry; apply (Nat.div_unique _ _ _ j); lia|symmetry; apply (Nat.mod_unique _ _ i j); lia].
Qed.

Lemma node_start_index i : dir_index (Z.of_nat (i * kDirNodeEntryCount)) = i /\ dir_entry (Z.of_nat (i * kDirNodeEntryCount)) = 0%nat.
Proof. rewrite <- (Nat.add_0_r (i * kDirNodeEntryCount)). apply dir_at. rewrite entry_count. lia. Qed.

Lemma scan_last first : (first < kDirNodeEntryCount)%nat -> Nat.min (first + kScanStep) kDirNodeEntryCount = kDirNodeEntryCount.
Proof. intros H. assert (kScanStep = 1280%nat) as -> by done. rewrite entry_count in *. lia. Qed.

Lemma dir_bound t pid : 0 <= pid -> pid < numSlots t <-> (dir_index pid < length (dirNodes t))%nat.
Proof.
  intros Hp. destruct (dir_position pid Hp) as [E L]. unfold numSlots. rewrite entry_count in *. nia.
Qed.

(** * Tuple identifiers *)

Lemma make_sum p s : 0 <= p < 2 ^ 22 -> 0 <= s < 1024 -> MakeTupleId p s = p * 1024 + s.
Proof.
  intros Hp Hs. unfold MakeTupleId, kPageIdOffset. rewrite Z.shiftl_mul_pow2 by lia. change (2 ^ 10) with 1024.
  assert (Z.land (p * 1024) s = 0) as E.
  { change 1024 with (2 ^ 10). rewrite <- Z.shiftl_mul_pow2 by lia. apply Z.bits_inj'. intros i Hi.
    rewrite Z.land_spec, Z.bits_0. destruct (decide (i < 10)); [by rewrite Z.shiftl_spec_low|].
    rewrite (Z.bits_above_log2 s i), andb_false_r; [done|lia|].
    destruct (decide (s = 0)) as [->|]; [cbn; lia|]. apply Z.log2_lt_pow2; [lia|].
    apply Z.lt_le_trans with (2 ^ 10); [lia|]. apply Z.pow_le_mono_r; lia. }
  rewrite <- Z.lxor_lor, <- Z.add_nocarry_lxor by done.
  apply wrap_small. unfold in_width. lia.
Qed.

Lemma make_parts p s : 0 <= p < 2 ^ 22 -> 0 <= s < 1024 ->
  in_width 32 (MakeTupleId p s) /\ id_page (MakeTupleId p s) = p /\ id_slot (MakeTupleId p s) = s.
Proof.
  intros Hp Hs. rewrite make_sum by done.
  split; [unfold in_width; lia|]. unfold id_page, id_slot, kPageIdOffset, kSlotIdMask. split.
  - rewrite Z.shiftr_div_pow2 by lia. change (2 ^ 10) with 1024. rewrite Z.div_add_l, Z.div_small by lia. lia.
  - change 0x3ff with (Z.ones 10). rewrite Z.land_ones by lia. change (2 ^ 10) with 1024.
    rewrite Z.add_comm, Z.mod_add, Z.mod_small by lia. done.
Qed.

Lemma id_parts id : in_width 32 id -> 0 <= id_page id < 2 ^ 22 /\ 0 <= id_slot id < 1024 /\
  id = id_page id * 1024 + id_slot id.
Proof.
  intros [H0 H1]. unfold id_page, id_slot, kPageIdOffset, kSlotIdMask.
  rewrite Z.shiftr_div_pow2 by lia. change 0x3ff with (Z.ones 10). rewrite Z.land_ones by lia. change (2 ^ 10) with 1024.
  pose proof (Z.div_mod id 1024 ltac:(lia)). pose proof (Z.mod_pos_bound id 1024 ltac:(lia)).
  split; [|split; lia]. split; [apply Z.div_pos; lia|apply Z.div_lt_upper_bound; lia].
Qed.

(** * Invariant *)

Definition node_ok (d : HeapDirectoryNode) : Prop :=
  length (dataPagePointers d) = kDirNodeEntryCount /\ (node_count d <= kDirNodeEntryCount)%nat /\
  forall i p, dataPagePointers d !! i = Some p -> ptr p = 0 <-> (node_count d <= i)%nat.

(** Tuples of [n] bytes. *)
Record heap_inv (n : nat) (t : HeapFile) : Prop := HeapInv {
  hi_nodes : Forall node_ok (dirNodes t);
  hi_some : (1 <= length (dirNodes t) <= kDirArraySize)%nat;
  hi_pages : forall pid p, 0 <= pid -> pointer_at t pid = Some p -> ptr p <> 0 ->
    exists h, heap_pages t !! ptr p = Some h /\ heap_page_number h = pid /\ page_ok n h;
  hi_frames : NoDup (heap_frames t) /\ forall f, f ∈ heap_frames t -> f <> 0 /\ heap_pages t !! f = None;
  hi_list : forall pid, pid ∈ pages_with_free_space t -> 0 <= pid /\ is_Some (page_at t pid);
  hi_might : forall pid, page_that_might_have_space t = Some pid -> pid ∈ pages_with_free_space t;
  hi_next : 0 <= next_page_to_scan t }.

(** * Changing a directory entry *)

Lemma pointer_alter t t' pid p (c : HeapDirectoryNode -> nat) :
  Forall node_ok (dirNodes t) -> 0 <= pid < numSlots t ->
  dirNodes t' = alter (fun d => mkDirNode (<[dir_entry pid := p]> (dataPagePointers d)) (c d)) (dir_index pid) (dirNodes t) ->
  pointer_at t' pid = Some p /\ forall pid', 0 <= pid' -> pid' <> pid -> pointer_at t' pid' = pointer_at t pid'.
Proof.
  intros F [Hp L] E. apply dir_bound in L; [|done]. apply lookup_lt_is_Some in L as [d Hd].
  destruct (dir_position pid Hp) as [Epid Le]. pose proof (proj1 (list.Forall_lookup _ _) F _ d Hd) as (Hlen & _ & _).
  unfold pointer_at. rewrite E. split.
  - rewrite list_lookup_alter_eq, Hd. cbn [fmap option_fmap option_map mbind option_bind dataPagePointers]. rewrite list_lookup_insert_eq; [done|lia].
  - intros pid' Hp' Hne. destruct (dir_position pid' Hp') as [Epid' Le'].
    destruct (decide (dir_index pid' = dir_index pid)) as [Ei|Hi].
    + rewrite Ei, list_lookup_alter_eq, Hd. cbn [fmap option_fmap option_map mbind option_bind dataPagePointers]. rewrite list_lookup_insert_ne; [done|]. intros Ee. apply Hne. congruence.
    + by rewrite list_lookup_alter_ne.
Qed.

Lemma pointer_exists t pid : Forall node_ok (dirNodes t) -> 0 <= pid < numSlots t -> exists d p,
  dirNodes t !! dir_index pid = Some d /\ node_ok d /\ dataPagePointers d !! dir_entry pid = Some p /\ pointer_at t pid = Some p.
Proof.
  intros F [Hp L]. apply dir_bound in L; [|done]. apply lookup_lt_is_Some in L as [d Hd].
  pose proof (proj1 (list.Forall_lookup _ _) F _ d Hd) as Ok. destruct (dir_position pid Hp) as [_ Le].
  destruct (lookup_lt_is_Some_2 (dataPagePointers d) (dir_entry pid)) as [p Ep]; [destruct Ok; lia|].
  exists d, p. unfold pointer_at. by rewrite Hd.
Qed.

Lemma heap_getDirNode_here t pid : 0 <= pid < numSlots t -> getDirNode t pid = Done t.
Proof.
  intros [Hp L]. apply dir_bound in L; [|done]. unfold getDirNode.
  by replace (S (dir_index pid) - length (dirNodes t))%nat with 0%nat by lia.
Qed.
(** The tuples of a page. *)
Definition tuples (t : HeapFile) (pid : Z) (i : nat) : option (list Z) :=
  '(_, h) ← page_at t pid; tuple_at h i.

Section inv.
Context (n : nat) (Hn : 12 <= Z.of_nat n < 2 ^ 14).
Implicit Types (t : HeapFile).
Let Hn1 : 1 <= Z.of_nat n < 2 ^ 14.
Proof. lia. Qed.

Lemma page_at_ok t pid f h : heap_inv n t -> 0 <= pid -> page_at t pid = Some (f, h) ->
  f <> 0 /\ heap_pages t !! f = Some h /\ heap_page_number h = pid /\ page_ok n h /\
  pid < numSlots t /\ exists p, pointer_at t pid = Some p /\ ptr p = f.
Proof.
  intros I Hp E. unfold page_at in E. destruct (pointer_at t pid) as [p|] eqn:Ep; [|done]. cbn in E.
  destruct (Z.eqb_spec (ptr p) 0); [done|]. destruct (hi_pages _ _ I pid p Hp Ep) as (h' & E1 & E2 & E3); [done|].
  rewrite E1 in E. cbn in E. injection E as <- <-. split; [done|]. split; [done|]. split; [done|]. split; [done|].
  split; [|eauto]. apply dir_bound; [done|]. unfold pointer_at in Ep.
  destruct (dirNodes t !! dir_index pid) eqn:Ed; [|done]. by apply lookup_lt_Some in Ed.
Qed.

Lemma numSlots_bound t : heap_inv n t -> 0 < numSlots t < 2 ^ 22.
Proof.
  intros I. pose proof (hi_some _ _ I) as Hs. unfold numSlots. rewrite entry_count.
  assert (Z.of_nat kDirArraySize = 8192) as E by done. lia.
Qed.

(** A slot of a page fits into the ten bits of an identifier. *)
Lemma slot_fits h i : page_ok n h -> (i < heap_count h)%nat -> 0 <= Z.of_nat i < 1024.
Proof. intros P Hi. pose proof (page_small n h P). nia. Qed.

Lemma lookup_tuples t id : heap_inv n t -> in_width 32 id ->
  heap_file_lookup t id = tuples t (id_page id) (Z.to_nat (id_slot id)).
Proof.
  intros I Hid. destruct (id_parts id Hid) as (Hp & _ & _). unfold heap_file_lookup, tuples.
  destruct (Z.leb_spec (numSlots t) (id_page id)); [|done].
  destruct (page_at t (id_page id)) as [[f h]|] eqn:E; [|done]. apply page_at_ok in E as (_ & _ & _ & _ & L & _); [lia|done|lia].
Qed.

(** ** Changing a page *)

(** The page of a number is replaced by another one of the same number. *)
Lemma set_page_ok t pid f h h' : heap_inv n t -> 0 <= pid -> page_at t pid = Some (f, h) ->
  page_ok n h' -> heap_page_number h' = heap_page_number h ->
  heap_inv n (set_page t f h') /\ page_at (set_page t f h') pid = Some (f, h') /\
  forall pid', 0 <= pid' -> pid' <> pid -> page_at (set_page t f h') pid' = page_at t pid'.
Proof.
  intros I Hp E P' En. destruct (page_at_ok t pid f h I Hp E) as (F0 & Ef & Eh & P & L & p & Ep & Epf).
  assert (forall pid' p', 0 <= pid' -> pointer_at t pid' = Some p' -> ptr p' = f -> pid' = pid) as Hinj.
  { intros pid' p' Hp' Ep' Ef'. destruct (hi_pages _ _ I pid' p' Hp' Ep') as (h1 & E1 & E2 & _); [congruence|].
    rewrite Ef', Ef in E1. congruence. }
  assert (page_at (set_page t f h') pid = Some (f, h')) as Eat.
  { unfold page_at in *. change (pointer_at (set_page t f h') pid) with (pointer_at t pid). rewrite Ep. cbn [mbind option_bind].
    rewrite Epf, (proj2 (Z.eqb_neq f 0) F0). cbn [set_page set_dir heap_pages]. by rewrite lookup_insert_eq. }
  assert (forall pid', 0 <= pid' -> pid' <> pid -> page_at (set_page t f h') pid' = page_at t pid') as Hother.
  { intros pid' Hp' Hne. unfold page_at. change (pointer_at (set_page t f h') pid') with (pointer_at t pid').
    destruct (pointer_at t pid') as [p'|] eqn:Ep'; [|done]. cbn [mbind option_bind]. destruct (ptr p' =? 0); [done|].
    cbn [set_page set_dir heap_pages]. rewrite lookup_insert_ne; [done|]. intros E'. apply Hne. by eapply Hinj. }
  split; [|done]. destruct I. constructor; try done.
  - intros pid' p' Hp' Ep' Hnz. change (pointer_at (set_page t f h') pid') with (pointer_at t pid') in Ep'.
    cbn [set_page set_dir heap_pages]. destruct (decide (ptr p' = f)) as [E1|Hne].
    + rewrite E1, lookup_insert_eq. exists h'. split; [done|]. split; [|done]. rewrite En, Eh. symmetry. by eapply Hinj.
    + rewrite lookup_insert_ne by done. eauto.
  - destruct hi_frames0 as [Hnd Hf]. split; [done|]. intros g Hg. destruct (Hf g Hg) as [G1 G2]. split; [done|].
    cbn. rewrite lookup_insert_ne; [done|]. intros ->. congruence.
  - intros pid' Hin. destruct (hi_list0 pid' Hin) as [G1 G2]. split; [done|].
    destruct (decide (pid' = pid)) as [->|Hne]; [by rewrite Eat|]. by rewrite Hother.
Qed.

End inv.
