(* ===== verification/HeapFileSteps.v ===== *)
(** The heap file's search for pages with space and its growth keep the
    invariant and the tuples, and end. *)
From stdpp Require Import gmap.
From S2P Require Import Prelude Outcome BTreeNode HeapPage HeapFile HeapFileInv.
Local Open Scope Z_scope.

Opaque kDirNodeEntryCount kDirArraySize N_pages.

Section growth.
Context (above : Z -> bool).
Implicit Types (t : HeapFile).

(** A page an insertion may be sent to, now or after a search. *)
Definition candidate (t : HeapFile) (pid : Z) : Prop :=
  pid ∈ pages_with_free_space t \/
  exists p, pointer_at t pid = Some p /\ ptr p <> 0 /\ above (dir_free_space p) = true.

(** From [t] to [t']: pages were only added, empty ones, and no old page has
    become a candidate. *)
Record grows (t t' : HeapFile) : Prop := Grows {
  gr_page : forall pid r, 0 <= pid -> page_at t pid = Some r -> page_at t' pid = Some r;
  gr_new : forall pid f h, 0 <= pid -> page_at t pid = None -> page_at t' pid = Some (f, h) -> h = new_heap_page pid;
  gr_candidate : forall pid, 0 <= pid -> candidate t' pid -> candidate t pid \/ page_at t pid = None;
  gr_growable : heap_growable t' = heap_growable t;
  gr_stored : heap_data_stored t' = heap_data_stored t;
  gr_length : (length (dirNodes t) <= length (dirNodes t'))%nat }.

#[export] Instance grows_refl : Reflexive grows.
Proof. intros t. constructor; try done; [congruence|auto]. Qed.

#[export] Instance grows_trans : Transitive grows.
Proof.
  intros t1 t2 t3 [A1 A2 A3 A4 A5 A6] [B1 B2 B3 B4 B5 B6]. constructor; try congruence; [auto| | |lia].
  - intros pid f h Hp E1 E3. destruct (page_at t2 pid) as [[f2 h2]|] eqn:E2; [|by eapply B2].
    rewrite (B1 pid _ Hp E2) in E3. injection E3 as <- <-. by eapply A2.
  - intros pid Hp C. destruct (B3 pid Hp C) as [C2|E]; [auto|]. right.
    destruct (page_at t1 pid) as [r|] eqn:E1; [|done]. rewrite (A1 pid r Hp E1) in E. done.
Qed.

Lemma new_page_tuple pid i : tuple_at (new_heap_page pid) i = None.
Proof. done. Qed.

Lemma grows_tuples t t' pid i : grows t t' -> 0 <= pid -> tuples t' pid i = tuples t pid i.
Proof.
  intros G Hp. unfold tuples. destruct (page_at t pid) as [r|] eqn:E.
  - by rewrite (gr_page _ _ G pid r Hp E).
  - destruct (page_at t' pid) as [[f h]|] eqn:E'; [|done]. by rewrite (gr_new _ _ G pid f h Hp E E').
Qed.

End growth.

Section steps.
Context (n : nat) (Hn : 12 <= Z.of_nat n < 2 ^ 14) (above : Z -> bool).
Implicit Types (t : HeapFile).
Notation grows := (grows above).
Notation candidate := (candidate above).
Let Hn1 : 1 <= Z.of_nat n < 2 ^ 14.
Proof. lia. Qed.

Lemma page_at_cases t pid : heap_inv n t -> 0 <= pid ->
  match page_at t pid with
  | Some (f, h) => exists p, pointer_at t pid = Some p /\ ptr p = f /\ f <> 0
  | None => forall p, pointer_at t pid = Some p -> ptr p = 0
  end.
Proof.
  intros I Hp. destruct (page_at t pid) as [[f h]|] eqn:E.
  - destruct (page_at_ok n t pid f h I Hp E) as (? & _ & _ & _ & _ & p & ? & ?). eauto.
  - intros p Ep. unfold page_at in E. rewrite Ep in E. cbn [mbind option_bind] in E.
    destruct (Z.eqb_spec (ptr p) 0) as [|Hne]; [done|].
    destruct (hi_pages _ _ I pid p Hp Ep Hne) as (h & Eh & _). by rewrite Eh in E.
Qed.

(** ** Growing *)

(** The heap page [pid] is made where its node ends. *)
Lemma put_heap_page_ok t pid d :
  heap_inv n t -> 0 <= pid -> dirNodes t !! dir_index pid = Some d -> node_count d = dir_entry pid ->
  safe (put_heap_page t pid) (fun t' => heap_inv n t' /\ grows t t' /\
    pages_with_free_space t' = pages_with_free_space t ++ [pid] /\ length (dirNodes t') = length (dirNodes t) /\
    exists d', dirNodes t' !! dir_index pid = Some d' /\ node_count d' = S (node_count d)).
Proof.
  intros I Hp Hd Hc. unfold put_heap_page, take_frame. destruct (heap_frames t) as [|f fs] eqn:Ef; [done|].
  rewrite (heap_freeSpace_ok n Hn1) by apply new_page_ok. cbn [mbind outcome_bind of_option safe].
  set (p := mkPointer f _ 0). set (l' := alter _ _ _). set (t' := mkHeapFile _ _ _ _ _ _ _ _ _).
  assert (heap_pages t' = <[f := new_heap_page pid]> (heap_pages t)) as Epg by done.
  assert (length (dirNodes t') = length (dirNodes t)) as Elen by apply length_alter.
  destruct (hi_frames _ _ I) as [Hnd Hfr]. rewrite Ef in Hnd, Hfr. apply list.NoDup_cons in Hnd as [Hnf Hnd].
  destruct (Hfr f) as [F0 Ff]; [by left|]. destruct (dir_position pid Hp) as [Epid Le].
  pose proof (proj1 (list.Forall_lookup _ _) (hi_nodes _ _ I) _ d Hd) as (Hlen & Hcnt & Hnull).
  assert (0 <= pid < numSlots t) as Hr by (split; [done|]; apply dir_bound; [done|]; by apply lookup_lt_Some in Hd).
  destruct (pointer_alter t t' pid p (fun d => S (node_count d)) (hi_nodes _ _ I) Hr eq_refl) as [Pp Po].
  assert (page_at t pid = None) as Enone.
  { unfold page_at, pointer_at. rewrite Hd. cbn [mbind option_bind]. destruct (dataPagePointers d !! dir_entry pid) as [p0|] eqn:E0; [|done].
    cbn [mbind option_bind]. by rewrite (proj2 (Hnull _ p0 E0)) by lia. }
  assert (page_at t' pid = Some (f, new_heap_page pid)) as Enew.
  { unfold page_at. rewrite Pp. cbn [mbind option_bind]. cbn [p ptr]. rewrite (proj2 (Z.eqb_neq f 0) F0).
    rewrite Epg. by rewrite lookup_insert_eq. }
  assert (forall pid', 0 <= pid' -> pid' <> pid -> page_at t' pid' = page_at t pid') as Eold.
  { intros pid' Hp' Hne. unfold page_at. rewrite Po by done. destruct (pointer_at t pid') as [p'|] eqn:E'; [|done].
    cbn [mbind option_bind]. destruct (Z.eqb_spec (ptr p') 0) as [|Hnz]; [done|].
    destruct (hi_pages _ _ I pid' p' Hp' E' Hnz) as (h' & Eh & _). rewrite Epg.
    rewrite lookup_insert_ne; [done|]. congruence. }
  split; [|split; [|split; [done|]]].
  - constructor.
    + apply Forall_alter; [apply I|]. intros d0 Hd0 _. assert (d0 = d) as -> by (cbn in Hd0; congruence). split; cbn [dataPagePointers node_count]; [by rewrite length_insert|].
      rewrite Hc in *. split; [lia|]. intros i p0 Hi. destruct (decide (i = dir_entry pid)) as [->|Hi'].
      * rewrite list_lookup_insert_eq in Hi by lia. injection Hi as <-. cbn. lia.
      * rewrite list_lookup_insert_ne in Hi by done. rewrite (Hnull i p0 Hi). lia.
    + rewrite Elen. apply I.
    + intros pid' p' Hp' E' Hnz. destruct (decide (pid' = pid)) as [->|Hne].
      * rewrite Pp in E'. injection E' as <-. rewrite Epg. rewrite lookup_insert_eq. eexists. split; [done|].
        split; [done|]. apply new_page_ok.
      * rewrite Po in E' by done. destruct (hi_pages _ _ I pid' p' Hp' E' Hnz) as (h' & Eh & Q). rewrite Epg.
        rewrite lookup_insert_ne by congruence. eauto.
    + split; [done|]. intros g Hg. destruct (Hfr g) as [G0 Gf]; [by right|]. split; [done|]. rewrite Epg.
      rewrite lookup_insert_ne; [done|]. by intros ->.
    + intros pid' Hin. cbn [t' pages_with_free_space] in Hin. apply elem_of_app in Hin as [Hin|Hin].
      * destruct (hi_list _ _ I pid' Hin) as [H0 Hs]. split; [done|]. destruct (decide (pid' = pid)) as [->|Hne].
        { rewrite Enone in Hs. by destruct Hs. } { by rewrite Eold. }
      * apply list_elem_of_singleton in Hin as ->. by rewrite Enew.
    + intros pid' Hm. apply elem_of_app. left. by apply I.
    + exact (hi_next _ _ I).
  - constructor; try done.
    + intros pid' r Hp' E'. destruct (decide (pid' = pid)) as [->|Hne]; [by rewrite E' in Enone|]. by rewrite Eold.
    + intros pid' f' h' Hp' E1 E2. destruct (decide (pid' = pid)) as [->|Hne]; [by rewrite Enew in E2; injection E2 as <- <-|].
      rewrite Eold in E2 by done. congruence.
    + intros pid' Hp' C. destruct (decide (pid' = pid)) as [->|Hne]; [by right|]. left. destruct C as [C|C].
      * cbn [t' pages_with_free_space] in C. apply elem_of_app in C as [C|C]; [by left|]. by apply list_elem_of_singleton in C.
      * right. by rewrite Po in C.
    + by rewrite Elen.
  - split; [done|]. eexists. split; [change (dirNodes t') with l'; unfold l'; by rewrite list_lookup_alter_eq; cbn; rewrite Hd|done].
Qed.

(** A new directory node at the end. *)
Lemma add_node_ok t fs : heap_inv n t -> (length (dirNodes t) < kDirArraySize)%nat ->
  (exists f, heap_frames t = f :: fs) ->
  let t' := set_dir t (dirNodes t ++ [new_dir_node]) (heap_pages t) fs in
  heap_inv n t' /\ grows t t' /\ forall pid, page_at t' pid = page_at t pid.
Proof.
  intros I Hl [f Ef] t'.
  assert (forall pid p, pointer_at t pid = Some p -> pointer_at t' pid = Some p) as Pold.
  { intros pid p E. unfold pointer_at in *. destruct (dirNodes t !! dir_index pid) as [d|] eqn:Ed; [|done].
    cbn [t' dirNodes set_dir]. by rewrite (lookup_app_l_Some _ _ _ _ Ed). }
  assert (forall pid p, pointer_at t' pid = Some p -> ptr p <> 0 -> pointer_at t pid = Some p) as Pnew.
  { intros pid p E Hnz. unfold pointer_at in *. cbn [t' dirNodes set_dir] in E. rewrite lookup_app in E.
    destruct (dirNodes t !! dir_index pid) as [d|] eqn:Ed; [done|].
    apply bind_Some in E as (d & Ed' & E). apply list_lookup_singleton_Some in Ed' as [_ <-].
    apply lookup_replicate in E as [-> _]. by destruct Hnz. }
  assert (forall pid, page_at t' pid = page_at t pid) as Epage.
  { intros pid. unfold page_at. destruct (pointer_at t pid) as [p|] eqn:E; [by rewrite (Pold _ _ E)|].
    destruct (pointer_at t' pid) as [p|] eqn:E'; [|done]. cbn [mbind option_bind].
    destruct (Z.eqb_spec (ptr p) 0) as [|Hnz]; [done|]. by rewrite (Pnew _ _ E' Hnz) in E. }
  assert (length (dirNodes t') = S (length (dirNodes t))) as Elen by (cbn; rewrite length_app; cbn; lia).
  split; [|split; [|done]].
  - destruct I as [I1 I2 I3 I4 I5 I6 I7]. constructor; try done; try lia.
    + apply Forall_app. split; [done|]. constructor; [|constructor]. split; [apply length_replicate|]. split; [cbn; lia|].
      intros i p Hi. apply lookup_replicate in Hi as [-> _]. cbn. split; [lia|done].
    + intros pid p Hp E Hnz. eapply I3; eauto.
    + destruct I4 as [Hnd Hf]. rewrite Ef in Hnd, Hf. apply list.NoDup_cons in Hnd as [_ Hnd]. split; [done|].
      intros g Hg. apply Hf. by right.
    + intros pid Hin. rewrite Epage. by apply I5.
  - constructor; try done.
    + intros pid r _. by rewrite Epage.
    + intros pid g h _. rewrite Epage. congruence.
    + intros pid _ [C|(p & E & Hnz & Ha)]; left; [by left|]. right. exists p. eauto.
    + lia.
Qed.

Lemma add_dir_nodes_ok todo : forall t, heap_inv n t ->
  safe (add_dir_nodes todo t) (fun t' => heap_inv n t' /\ grows t t' /\
    dirNodes t' = dirNodes t ++ replicate todo new_dir_node /\ pages_with_free_space t' = pages_with_free_space t /\
    forall pid, page_at t' pid = page_at t pid).
Proof.
  induction todo as [|todo IH]; intros t I; cbn [add_dir_nodes].
  { cbn. split; [done|]. split; [done|]. by rewrite app_nil_r. }
  unfold take_frame. destruct (heap_frames t) as [|f fs] eqn:Ef; [done|]. cbn [mbind outcome_bind].
  change (dirNodes (set_dir t (dirNodes t) (heap_pages t) fs)) with (dirNodes t).
  destruct (Nat.ltb_spec (length (dirNodes t)) kDirArraySize) as [L|]; [|done].
  destruct (add_node_ok t fs I L) as (I' & G & Eg); [eauto|]. eapply safe_mono; [apply IH, I'|]. cbn beta.
  intros t' (I'' & G' & El' & E' & Eg'). split; [done|]. split; [by etrans|].
  split; [|split; [done|intros pid; by rewrite Eg', Eg]].
  rewrite El'. cbn. by rewrite <- app_assoc.
Qed.

Lemma getDirNode_ok t pid : heap_inv n t -> 0 <= pid ->
  safe (getDirNode t pid) (fun t' => heap_inv n t' /\ grows t t' /\ pid < numSlots t' /\
    dirNodes t' = dirNodes t ++ replicate (S (dir_index pid) - length (dirNodes t)) new_dir_node /\
    pages_with_free_space t' = pages_with_free_space t /\ forall x, page_at t' x = page_at t x).
Proof.
  intros I Hp. eapply safe_mono; [by apply add_dir_nodes_ok|]. cbn beta. intros t' (I' & G & El & E).
  split; [done|]. split; [done|]. rewrite dir_bound, El, length_app, length_replicate by done. split; [lia|done].
Qed.

(** A page is added to the last node, or the last node is full. *)
Lemma add_to_last fuel t d :
  heap_inv n t -> dirNodes t !! (length (dirNodes t) - 1)%nat = Some d ->
  if (node_count d <? kDirNodeEntryCount)%nat
  then safe (add_heap_page (S fuel) (length (dirNodes t)) t) (fun r => heap_inv n r.2 /\ grows t r.2 /\
         r.1 = length (dirNodes r.2) /\ length (pages_with_free_space r.2) = S (length (pages_with_free_space t)))
  else add_heap_page (S fuel) (length (dirNodes t)) t = add_heap_page fuel (S (length (dirNodes t))) t.
Proof.
  intros I Hd. set (k := (length (dirNodes t) - 1)%nat) in *. pose proof (hi_some _ _ I) as Hs.
  cbn [add_heap_page]. fold k. destruct (node_start_index k) as [Ei _].
  rewrite heap_getDirNode_here by (split; [lia|]; apply dir_bound; [lia|]; rewrite Ei; lia).
  cbn [mbind outcome_bind]. rewrite Hd. cbn [of_option mbind outcome_bind]. destruct (Nat.ltb_spec (node_count d) kDirNodeEntryCount) as [L|]; [|done].
  pose proof (proj1 (list.Forall_lookup _ _) (hi_nodes _ _ I) _ d Hd) as (Hlen & Hcnt & Hnull).
  destruct (lookup_lt_is_Some_2 (dataPagePointers d) (node_count d)) as [p Ep]; [lia|]. rewrite Ep.
  rewrite (proj2 (Hnull _ p Ep) (le_n _)). cbn [andb Z.eqb]. rewrite <- Nat2Z.inj_add.
  destruct (dir_at k (node_count d) L) as [Ei' Ee']. apply safe_bind. eapply safe_mono.
  { eapply (put_heap_page_ok t _ d I); [lia|by rewrite Ei'|done]. }
  cbn beta. intros t' (I' & G & El & En & _). cbn. split; [done|]. split; [done|]. split; [done|]. rewrite El, length_app. cbn. lia.
Qed.

Lemma add_heap_page_ok t : heap_inv n t ->
  safe (add_heap_page 3 (length (dirNodes t)) t) (fun r => heap_inv n r.2 /\ grows t r.2 /\
    r.1 = length (dirNodes r.2) /\ length (pages_with_free_space r.2) = S (length (pages_with_free_space t))).
Proof.
  intros I. pose proof (hi_some _ _ I) as Hs.
  destruct (lookup_lt_is_Some_2 (dirNodes t) (length (dirNodes t) - 1)) as [d Hd]; [lia|].
  pose proof (add_to_last 2 t d I Hd) as H. destruct (node_count d <? kDirNodeEntryCount)%nat; [done|]. rewrite H. clear H Hd d.
  (* a new node is made: from there on the search is the one in the grown file *)
  destruct (node_start_index (length (dirNodes t))) as [Ei _].
  pose proof (getDirNode_ok t (Z.of_nat (length (dirNodes t) * kDirNodeEntryCount)) I ltac:(lia)) as Hg.
  assert (forall t1, getDirNode t (Z.of_nat (length (dirNodes t) * kDirNodeEntryCount)) = Done t1 ->
    length (dirNodes t1) = S (length (dirNodes t)) ->
    add_heap_page 2 (S (length (dirNodes t))) t = add_heap_page 2 (length (dirNodes t1)) t1) as Hsame.
  { intros t1 Hg1 El. cbn [add_heap_page]. rewrite El, Nat.sub_1_r, Nat.pred_succ, Hg1.
    rewrite heap_getDirNode_here; [done|]. split; [lia|]. apply dir_bound; [lia|]. rewrite Ei. lia. }
  destruct (getDirNode t _) as [t1| |] eqn:Hg1; [|cbn [add_heap_page]; rewrite Nat.sub_1_r, Nat.pred_succ, Hg1; done|done].
  destruct Hg as (I1 & G1 & _ & El & E1 & _). rewrite Ei, Nat.sub_succ_l, Nat.sub_diag in El by lia. cbn in El.
  assert (length (dirNodes t1) = S (length (dirNodes t))) as El1 by (rewrite El, length_app; cbn; lia).
  rewrite (Hsame t1) by done. pose proof (add_to_last 1 t1 new_dir_node I1) as H.
  rewrite El1, Nat.sub_1_r, Nat.pred_succ, El, list_lookup_middle in H by done. specialize (H eq_refl).
  rewrite (proj2 (Nat.ltb_lt _ _)) in H by (rewrite entry_count; cbn; lia).
  rewrite El1. eapply safe_mono; [exact H|]. intros r (I2 & G2 & E2 & L2). split; [done|]. split; [by etrans|].
  split; [done|]. by rewrite L2, E1.
Qed.

Lemma add_heap_pages_ok todo : forall t, heap_inv n t ->
  safe (add_heap_pages todo (length (dirNodes t)) t) (fun t' => heap_inv n t' /\ grows t t' /\
    length (pages_with_free_space t') = (length (pages_with_free_space t) + todo)%nat).
Proof.
  induction todo as [|todo IH]; intros t I; cbn [add_heap_pages].
  { cbn. split; [done|]. split; [done|lia]. }
  apply safe_bind. eapply safe_mono; [by apply add_heap_page_ok|]. intros [k t1]. cbn [fst snd]. intros (I1 & G1 & -> & L1). cbn in *.
  eapply safe_mono; [by apply IH|]. cbn beta. intros t2 (I2 & G2 & L2). split; [done|]. split; [by etrans|lia].
Qed.

(** ** Searching *)

Lemma entries_spec l : forall pid x, x ∈ entries_with_space above l pid ->
  exists i p, l !! i = Some p /\ x = pid + Z.of_nat i /\ ptr p <> 0 /\ above (dir_free_space p) = true.
Proof.
  induction l as [|p l IH]; intros pid x Hx; cbn in Hx; [by apply not_elem_of_nil in Hx|].
  destruct (negb (ptr p =? 0) && above (dir_free_space p)) eqn:E.
  - apply elem_of_cons in Hx as [->|Hx].
    + apply andb_prop in E as [E1 E2]. exists 0%nat, p. split; [done|]. split; [lia|]. split; [|done].
      apply Z.eqb_neq. by destruct (ptr p =? 0).
    + destruct (IH _ _ Hx) as (i & p' & Hi & -> & H). exists (S i), p'. split; [done|]. split; [lia|done].
  - destruct (IH _ _ Hx) as (i & p' & Hi & -> & H). exists (S i), p'. split; [done|]. split; [lia|done].
Qed.

(** The list of pages is replaced by one of candidates that has the page the
    thread remembers. *)
Lemma set_lists_ok t l next m : heap_inv n t -> 0 <= next ->
  (forall x, x ∈ l -> 0 <= x /\ candidate t x) -> (forall x, m = Some x -> x ∈ l) ->
  let t' := set_lists t l next m in heap_inv n t' /\ grows t t'.
Proof.
  intros I Hnx Hl Hm t'. split.
  - destruct I as [I1 I2 I3 I4 I5 I6 I7]. constructor; try done. intros x Hx. destruct (Hl x Hx) as [H0 C]. split; [done|].
    change (page_at t' x) with (page_at t x). destruct C as [C|(p & E & Hnz & _)]; [by apply I5|].
    destruct (I3 x p H0 E Hnz) as (h & Eh & _). unfold page_at. rewrite E. cbn [mbind option_bind].
    rewrite (proj2 (Z.eqb_neq _ _) Hnz), Eh. eauto.
  - constructor; try done; [intros pid f h _; change (page_at t' pid) with (page_at t pid); congruence|].
    intros x _ [C|C]; [by left; apply Hl|]. left. by right.
Qed.

(** What one step of the scan finds. *)
Lemma scan_found t pid d x : 0 <= pid -> dirNodes t !! dir_index pid = Some d ->
  x ∈ entries_with_space above (take (kDirNodeEntryCount - dir_entry pid) (drop (dir_entry pid) (dataPagePointers d))) pid ->
  0 <= x /\ candidate t x.
Proof.
  intros Hp Hd Hx. apply entries_spec in Hx as (i & p & Hi & -> & Hnz & Ha). split; [lia|]. right. exists p.
  apply lookup_take_Some in Hi as [Hi Hlt]. rewrite lookup_drop in Hi.
  destruct (dir_position pid Hp) as [E L]. split; [|done]. unfold pointer_at.
  replace (pid + Z.of_nat i) with (Z.of_nat (dir_index pid * kDirNodeEntryCount + (dir_entry pid + i))) by lia.
  destruct (dir_at (dir_index pid) (dir_entry pid + i)) as [-> ->]; [lia|]. by rewrite Hd.
Qed.

Lemma scan_dir_nodes_ok todo : forall pid t, heap_inv n t -> 0 <= pid -> (length (dirNodes t) <= todo + dir_index pid)%nat ->
  safe (scan_dir_nodes above todo pid t) (fun t' => heap_inv n t' /\ grows t t').
Proof.
  induction todo as [|todo IH]; intros pid t I Hp Hf; cbn [scan_dir_nodes];
    destruct (Z.leb_spec (numSlots t) pid) as [|L]; try done; apply dir_bound in L as L'; try done; [lia|].
  apply lookup_lt_is_Some in L' as [d Hd]. rewrite Hd. cbn [of_option mbind outcome_bind].
  destruct (dir_position pid Hp) as [E Le]. rewrite scan_last by done. set (next := pid + _).
  set (l := _ ++ _). set (t1 := set_lists _ _ _ _). pose proof (numSlots_bound n t I) as Hns.
  destruct (set_lists_ok t l (next mod numSlots t) (page_that_might_have_space t) I) as [I1 G1].
  - apply Z.mod_pos_bound. lia.
  - intros x Hx. apply elem_of_app in Hx as [Hx|Hx]; [|by eapply scan_found].
    split; [by apply I|by left].
  - intros x Hx. apply elem_of_app. left. by apply I.
  - destruct (N_pages <=? length l)%nat; [done|].
    assert (next = Z.of_nat (S (dir_index pid) * kDirNodeEntryCount)) as En by (unfold next; lia).
    eapply safe_mono; [apply (IH next t1 I1); [lia|]|].
    + rewrite En. destruct (node_start_index (S (dir_index pid))) as [-> _]. cbn. lia.
    + cbn beta. intros t2 [I2 G2]. split; [done|]. by etrans.
Qed.

Lemma find_pages_ok t : heap_inv n t ->
  safe (find_pages_with_free_space above false t) (fun t' => heap_inv n t' /\ grows t t' /\
    (heap_growable t = true -> (N_pages <= length (pages_with_free_space t'))%nat)).
Proof.
  intros I. unfold find_pages_with_free_space. cbn [andb]. apply safe_bind. eapply safe_mono.
  { apply scan_dir_nodes_ok; [done|exact (hi_next _ _ I)|lia]. }
  cbn beta. intros t1 [I1 G1]. destruct (Nat.ltb_spec (length (pages_with_free_space t1)) N_pages) as [L|L]; cbn [andb].
  - destruct (heap_growable t1) eqn:Eg; [|split; [done|]; split; [done|]; rewrite <- (gr_growable _ _ _ G1), Eg; done].
    eapply safe_mono; [by apply add_heap_pages_ok|]. cbn beta. intros t2 (I2 & G2 & L2). split; [done|]. split; [by etrans|lia].
  - split; [done|]. by split.
Qed.

(** With enough pages in the list, or one remembered, the search takes one. *)
Lemma get_page_now debug fuel r t : heap_inv n t ->
  (page_that_might_have_space t = None -> 16 <= length (pages_with_free_space t))%nat ->
  exists pid, pid ∈ pages_with_free_space t /\ get_page_with_space above debug fuel r t =
    Done (pid, set_lists t (pages_with_free_space t) (next_page_to_scan t) (Some pid)).
Proof.
  intros I L. destruct (page_that_might_have_space t) as [pid|] eqn:Em.
  { exists pid. split; [by apply I|]. destruct fuel; cbn [get_page_with_space]; rewrite Em;
      destruct t; cbn in Em; by subst. }
  specialize (L eq_refl).
  destruct (lookup_lt_is_Some_2 (pages_with_free_space t) (Z.to_nat r `mod` length (pages_with_free_space t))) as [x Hx];
    [apply Nat.mod_upper_bound; lia|].
  pose proof (list_elem_of_lookup_2 _ _ _ Hx) as Hin. assert (u32 x = x) as Hu.
  { destruct (hi_list _ _ I x Hin) as [H0 [[f h] E]]. pose proof (numSlots_bound n t I).
    destruct (page_at_ok n t x f h I H0 E) as (_ & _ & _ & _ & Ls & _). apply wrap_small. unfold in_width. lia. }
  exists x. split; [done|]. destruct fuel; cbn [get_page_with_space];
    rewrite Em, (proj2 (Nat.ltb_ge _ _) L), Hx; cbn [of_option mbind outcome_bind]; by rewrite Hu.
Qed.

(** The search returns a page of the list. *)
Lemma get_page_ok fuel r t : heap_inv n t -> heap_growable t = true ->
  safe (get_page_with_space above false (S fuel) r t) (fun r => heap_inv n r.2 /\ grows t r.2 /\
    r.1 ∈ pages_with_free_space r.2).
Proof.
  intros I Hg.
  assert (forall fuel t1, heap_inv n t1 -> grows t t1 ->
    (page_that_might_have_space t1 = None -> 16 <= length (pages_with_free_space t1))%nat ->
    safe (get_page_with_space above false fuel r t1) (fun r => heap_inv n r.2 /\ grows t r.2 /\ r.1 ∈ pages_with_free_space r.2)) as Hnow.
  { intros fuel' t1 I1 G1 L1. destruct (get_page_now false fuel' r t1 I1 L1) as (x & Hx & ->). cbn [safe fst snd].
    destruct (set_lists_ok t1 (pages_with_free_space t1) (next_page_to_scan t1) (Some x) I1) as [I2 G2];
      [exact (hi_next _ _ I1)|intros y Hy; split; [by apply I1|by left]|congruence|].
    split; [done|]. split; [by etrans|done]. }
  destruct (page_that_might_have_space t) as [pid|] eqn:Em; [apply Hnow; [done|done|congruence]|].
  destruct (decide (16 <= length (pages_with_free_space t))%nat) as [L|L]; [by apply Hnow|].
  cbn [get_page_with_space]. rewrite Em, (proj2 (Nat.ltb_lt _ _)) by lia. apply safe_bind.
  eapply safe_mono; [by apply find_pages_ok|]. cbn beta. intros t1 (I1 & G1 & L1). apply Hnow; [done|done|].
  intros _. specialize (L1 Hg). assert (N_pages = 128%nat) as EN by done. lia.
Qed.

(** ** Directory entries *)

Lemma set_pointer_ok t pid p free : heap_inv n t -> 0 <= pid -> pointer_at t pid = Some p ->
  let t' := set_pointer t pid (mkPointer (ptr p) free (reserved p)) in
  heap_inv n t' /\ (forall x, 0 <= x -> page_at t' x = page_at t x) /\
  pointer_at t' pid = Some (mkPointer (ptr p) free (reserved p)) /\
  forall x, 0 <= x -> x <> pid -> pointer_at t' x = pointer_at t x.
Proof.
  intros I Hp Ep t'.
  destruct (dirNodes t !! dir_index pid) as [d|] eqn:Hd; [|by unfold pointer_at in Ep; rewrite Hd in Ep].
  assert (0 <= pid < numSlots t) as Hr by (split; [done|]; apply dir_bound; [done|]; by apply lookup_lt_Some in Hd).
  destruct (pointer_alter t t' pid _ node_count (hi_nodes _ _ I) Hr eq_refl) as [P1 P2].
  assert (forall x, 0 <= x -> page_at t' x = page_at t x) as Pg.
  { intros x Hx. unfold page_at. change (heap_pages t') with (heap_pages t). destruct (decide (x = pid)) as [->|Hne].
    - by rewrite P1, Ep.
    - by rewrite P2. }
  split; [|done]. destruct I as [I1 I2 I3 I4 I5 I6 I7]. constructor; try done.
  - apply Forall_alter; [done|]. intros d0 Hd0 (Hl & Hc & Hz). assert (d0 = d) as -> by congruence.
    unfold pointer_at in Ep. rewrite Hd in Ep. cbn [mbind option_bind] in Ep.
    split; cbn [dataPagePointers node_count]; [by rewrite length_insert|]. split; [done|]. intros i q Hi.
    destruct (decide (i = dir_entry pid)) as [->|Hne].
    + rewrite list_lookup_insert_eq in Hi by (by apply lookup_lt_Some in Ep). injection Hi as <-. exact (Hz _ _ Ep).
    + rewrite list_lookup_insert_ne in Hi by done. exact (Hz _ _ Hi).
  - change (dirNodes t') with (alter (fun d => mkDirNode (<[dir_entry pid := mkPointer (ptr p) free (reserved p)]> (dataPagePointers d))
      (node_count d)) (dir_index pid) (dirNodes t)). by rewrite length_alter.
  - intros x q Hx Eq Hnz. destruct (decide (x = pid)) as [->|Hne].
    + rewrite P1 in Eq. injection Eq as <-. exact (I3 pid p Hx Ep Hnz).
    + rewrite P2 in Eq by done. exact (I3 x q Hx Eq Hnz).
  - intros x Hx. rewrite Pg by (by apply I5). by apply I5.
Qed.
End steps.
