(* ===== verification/HeapFileOps.v ===== *)
(** The operations of the heap file on its tuples. *)
From stdpp Require Import gmap.
From S2P Require Import Prelude Outcome BTreeNode HeapPage HeapFile HeapFileInv HeapFileSteps.
Local Open Scope Z_scope.

Opaque kDirNodeEntryCount kDirArraySize N_pages.

Lemma set_page_same t f h : heap_pages t !! f = Some h -> set_page t f h = t.
Proof. intros E. unfold set_page, set_dir. rewrite insert_id by done. by destruct t. Qed.

Section change.
Context (n : nat) (Hn : 12 <= Z.of_nat n <= 16338).
Implicit Types (t : HeapFile).
Let Hn1 : 1 <= Z.of_nat n < 2 ^ 14.
Proof. lia. Qed.
Let Hn2 : 12 <= Z.of_nat n < 2 ^ 14.
Proof. lia. Qed.

(** [t'] is [t] with the tuple [v] in the slot [i] of page [pid]. *)
Definition tuple_set (t t' : HeapFile) (pid : Z) (i : nat) (v : option (list Z)) : Prop :=
  forall pid' j, 0 <= pid' -> tuples t' pid' j = if decide (pid' = pid /\ j = i) then v else tuples t pid' j.

(** A page is replaced: only its tuples change. *)
Lemma set_page_tuples t pid f h h' i v : heap_inv n t -> 0 <= pid -> page_at t pid = Some (f, h) ->
  page_ok n h' -> heap_page_number h' = heap_page_number h ->
  (forall j, tuple_at h' j = if decide (j = i) then v else tuple_at h j) ->
  heap_inv n (set_page t f h') /\ page_at (set_page t f h') pid = Some (f, h') /\ tuple_set t (set_page t f h') pid i v.
Proof.
  intros I Hp E P' En Ht. destruct (set_page_ok n t pid f h h' I Hp E P' En) as (I' & Eat & Eo).
  split; [done|]. split; [done|]. intros pid' j Hp'. unfold tuples. destruct (decide (pid' = pid)) as [->|Hne].
  - rewrite Eat, E. cbn [mbind option_bind]. rewrite Ht. repeat case_decide; naive_solver.
  - rewrite Eo by done. rewrite decide_False by tauto. done.
Qed.

(** ** Update *)

Lemma heap_update_ok t id pid i f v : heap_inv n t -> 0 <= pid -> id_page id = pid -> Z.to_nat (id_slot id) = i ->
  (forall v, length v = n -> length (f v) = n) ->
  tuples t pid i = Some v ->
  exists t', heap_file_update t id f = Some t' /\ heap_inv n t' /\ heap_growable t' = heap_growable t /\
    heap_data_stored t' = heap_data_stored t /\ tuple_set t t' pid i (Some (f v)).
Proof.
  intros I Hp Ep Ei Hf Ht. unfold heap_file_update. rewrite Ep, Ei. unfold tuples in Ht.
  destruct (page_at t pid) as [[fr h]|] eqn:E; [|done]. cbn in Ht.
  destruct (page_at_ok n t pid fr h I Hp E) as (F0 & Ef & Eh & P & Ls & p & Epp & Epf).
  rewrite (proj2 (Z.leb_gt _ _) Ls). cbn [mbind option_bind]. pose proof (tuple_length n h i v P Ht) as Hl. unfold tuple_at in Ht.
  destruct (heap_slots h !! i) as [s|] eqn:Hi; [|done]. cbn in Ht |- *. case_decide as Hs; [|done]. injection Ht as Hv.
  rewrite Hv. destruct (rewrite_payload_ok n Hn1 h i s (f v) P Hi Hs) as [Q Hq]; [by apply Hf|].
  destruct (set_page_tuples t pid fr h _ i (Some (f v)) I Hp E Q eq_refl Hq) as (I1 & E1 & T1). eexists. split; [done|]. done.
Qed.

(** ** One round of an insertion *)

(** A page that takes no further tuple. *)
Definition full (t : HeapFile) (pid : Z) : Prop :=
  exists f h, page_at t pid = Some (f, h) /\ removed_count (heap_slots h) = 0%nat /\
    16342 - (4 + Z.of_nat n) * Z.of_nat (heap_count h) < 4 + Z.of_nat n.

(** [insert] once it has chosen page [pid]: the result, or the file to go on
    with. *)
Definition try_page (t : HeapFile) (pid : Z) (value : list Z) : outcome (Z * HeapFile + HeapFile) :=
  t ← getDirNode t pid;
  '(f, h) ← of_option (page_at t pid);
  '(slot, h) ← of_option (heap_insert h value);
  let t := set_page t f h in
  match slot with
  | Some i => Done (inl (MakeTupleId pid (Z.of_nat i), set_stored t (u64 (heap_data_stored t + Z.of_nat (length value)))))
  | None =>
      free ← of_option (heap_freeSpace h);
      t ← update_free_space_in_dir_node t pid free true;
      Done (inr t)
  end.

Lemma heap_insert_round above debug fuel r rs t v : heap_file_insert above debug fuel (r :: rs) t v =
  '(pid, t1) ← get_page_with_space above debug fuel r t;
  x ← try_page t1 pid v;
  match x with inl y => Done y | inr t2 => heap_file_insert above debug fuel rs t2 v end.
Proof.
  cbn [heap_file_insert]. destruct (get_page_with_space above debug fuel r t) as [[pid t1]| |]; [|done..].
  cbn [mbind outcome_bind]. unfold try_page. destruct (getDirNode t1 pid) as [t2| |]; [|done..]. cbn [mbind outcome_bind].
  destruct (page_at t2 pid) as [[f h]|]; [|done]. cbn [of_option mbind outcome_bind].
  destruct (heap_insert h v) as [[[i|] q]|]; [done| |done]. cbn [of_option mbind outcome_bind].
  destruct (heap_freeSpace q) as [free|]; [|done]. cbn [of_option mbind outcome_bind].
  by destruct (update_free_space_in_dir_node _ _ _ _).
Qed.

(** [t'] is [t] with the tuple [v], which has got the identifier [id]. *)
Definition inserted (t : HeapFile) (v : list Z) (id : Z) (t' : HeapFile) : Prop :=
  heap_inv n t' /\ heap_growable t' = heap_growable t /\ heap_data_stored t' = u64 (heap_data_stored t + Z.of_nat n) /\
  exists pid i, id = MakeTupleId pid (Z.of_nat i) /\ 0 <= pid < numSlots t' /\ 0 <= Z.of_nat i < 1024 /\
    tuples t pid i = None /\ tuple_set t t' pid i (Some v).

(** [t'] is [t] with page [pid] struck off the list and the free space of its
    directory entry set to [free]. *)
Record struck (t : HeapFile) (pid free : Z) (t' : HeapFile) : Prop := Struck {
  st_inv : heap_inv n t';
  st_page : forall x, 0 <= x -> page_at t' x = page_at t x;
  st_pointer : forall x p, 0 <= x -> pointer_at t' x = Some p ->
    (x = pid /\ dir_free_space p = free) \/ (x <> pid /\ pointer_at t x = Some p);
  st_list : pages_with_free_space t' = filter (fun x => x <> pid) (pages_with_free_space t);
  st_might : page_that_might_have_space t' = None;
  st_next : next_page_to_scan t' = next_page_to_scan t;
  st_stored : heap_data_stored t' = heap_data_stored t;
  st_growable : heap_growable t' = heap_growable t;
  st_counts : map node_count (dirNodes t') = map node_count (dirNodes t) }.

Lemma strike_off t pid f h free : heap_inv n t -> 0 <= pid -> page_at t pid = Some (f, h) ->
  exists t', update_free_space_in_dir_node t pid free true = Done t' /\ struck t pid free t'.
Proof.
  intros I Hp E. destruct (page_at_ok n t pid f h I Hp E) as (_ & _ & _ & _ & L & p & Ep & Ef).
  unfold update_free_space_in_dir_node. rewrite heap_getDirNode_here by done. cbn [mbind outcome_bind].
  rewrite Ep. cbn [of_option mbind outcome_bind]. destruct (set_pointer_ok n t pid p free I Hp Ep) as (I1 & Pg & P1 & P2).
  set (t1 := set_pointer _ _ _) in *. set (l := filter _ _). eexists. split; [done|]. constructor; try done.
  - apply (set_lists_ok n (fun _ => true)); [done|exact (hi_next _ _ I)| |done].
    intros x Hx. apply list_elem_of_filter in Hx as [_ Hx]. split; [by apply I|by left].
  - intros x q Hx Eq. change (pointer_at t1 x = Some q) in Eq. destruct (decide (x = pid)) as [->|Hne].
    + left. rewrite P1 in Eq. by injection Eq as <-.
    + right. by rewrite P2 in Eq.
  - unfold t1, set_pointer. cbn [set_lists set_dir dirNodes]. apply list_eq. intros k.
    change (map node_count) with (fmap (M := list) node_count). rewrite !list_lookup_fmap. destruct (decide (k = dir_index pid)) as [->|Hne].
    + rewrite list_lookup_alter_eq. by destruct (dirNodes t !! _).
    + by rewrite list_lookup_alter_ne.
Qed.

(** A tuple is put into the page, or the page is full and struck off. *)
Lemma try_page_ok t pid v : heap_inv n t -> pid ∈ pages_with_free_space t -> length v = n ->
  (exists id t', try_page t pid v = Done (inl (id, t')) /\ inserted t v id t') \/
  (exists t' free, try_page t pid v = Done (inr t') /\ full t pid /\ struck t pid free t' /\ free < 4 + Z.of_nat n).
Proof.
  intros I Hin Hv. destruct (hi_list _ _ I pid Hin) as [Hp [[f h] E]].
  destruct (page_at_ok n t pid f h I Hp E) as (F0 & Ef & Eh & P & Ls & _). unfold try_page.
  rewrite heap_getDirNode_here by done. cbn [mbind outcome_bind]. rewrite E. cbn [of_option mbind outcome_bind].
  destruct (heap_insert_ok n Hn1 h v P Hv) as (s & q & -> & Q & Eq & Hs). cbn [of_option mbind outcome_bind].
  destruct s as [i|].
  - left. destruct Hs as (H0 & Hi & Ht). destruct (set_page_tuples t pid f h q i (Some v) I Hp E Q Eq Ht) as (I2 & _ & T).
    eexists _, _. split; [done|]. split; [by destruct I2|]. split; [done|]. split; [by rewrite Hv|].
    exists pid, i. split; [done|]. split; [done|]. split; [by eapply (slot_fits n Hn2)|].
    split; [unfold tuples; by rewrite E|]. done.
  - right. destruct Hs as (-> & Hr & Hfull). rewrite (set_page_same t f h Ef).
    rewrite (heap_freeSpace_ok n Hn1 h P), Hr. cbn [of_option mbind outcome_bind].
    destruct (strike_off t pid f h (16342 - (4 + Z.of_nat n) * Z.of_nat (heap_count h) + Z.of_nat (0 * n)) I Hp E) as (t2 & -> & St).
    eexists _, _. split; [done|]. split; [by exists f, h|]. split; [done|]. lia.
Qed.
End change.

Section ops.
Context (n : nat) (Hn : 12 <= Z.of_nat n <= 16338) (above : Z -> bool).
Implicit Types (t : HeapFile).
Let Hn1 : 1 <= Z.of_nat n < 2 ^ 14.
Proof. lia. Qed.
Let Hn2 : 12 <= Z.of_nat n < 2 ^ 14.
Proof. lia. Qed.

(** A full page is an old one. *)
Lemma grows_full t t' x : grows above t t' -> 0 <= x -> full n t' x ->
  full n t x /\ (candidate above t' x -> candidate above t x).
Proof.
  intros G Hx (g & k & Ek & Hr & Hk). destruct (page_at t x) as [[g0 k0]|] eqn:E0.
  - rewrite (gr_page _ _ _ G x _ Hx E0) in Ek. injection Ek as -> ->. split; [by exists g, k|].
    intros C. destruct (gr_candidate _ _ _ G x Hx C) as [|]; [done|congruence].
  - rewrite (gr_new _ _ _ G x g k Hx E0 Ek) in Hk. cbn in Hk. lia.
Qed.

(** A page whose space was found to be below the threshold is no candidate any
    more. *)
Lemma struck_grows t pid t' free : struck n t pid free t' -> above free = false ->
  grows above t t' /\ forall x, 0 <= x -> candidate above t' x -> candidate above t x /\ x <> pid.
Proof.
  intros [I Pg Pt Pl Pm Pn Ps Pgr Pc] Ha.
  assert (forall x, 0 <= x -> candidate above t' x -> candidate above t x /\ x <> pid) as Hc.
  { intros x Hx [C|(q & Eq & Hnz & Hq)].
    - rewrite Pl in C. apply list_elem_of_filter in C as [Hne C]. split; [by left|done].
    - destruct (Pt x q Hx Eq) as [[-> Ef]|[Hne Eq']]; [congruence|]. split; [|done]. right. eauto. }
  split; [|done]. constructor; try done.
  - intros x r Hx Er. by rewrite Pg.
  - intros x g k Hx E1 E2. rewrite Pg in E2 by done. congruence.
  - intros x Hx C. left. by apply Hc.
  - rewrite <- !(length_map node_count), Pc. done.
Qed.

Lemma inserted_after t t1 v id t' : grows above t t1 -> inserted n t1 v id t' -> inserted n t v id t'.
Proof.
  intros G (I & Hg & Hs & pid & i & Ei & Hp & Hi & Hnone & T). split; [done|].
  split; [by rewrite Hg, (gr_growable _ _ _ G)|]. split; [by rewrite Hs, (gr_stored _ _ _ G)|].
  assert (forall x j, 0 <= x -> tuples t1 x j = tuples t x j) as Et by (intros; by apply (grows_tuples above)).
  exists pid, i. split; [done|]. split; [done|]. split; [done|]. split; [rewrite <- Et by lia; done|].
  intros x j Hx. rewrite <- Et by done. by apply T.
Qed.

(** [L] has the full pages that may still be tried: with more rounds than that
    an insertion finds room. *)
Lemma file_insert_ok fuel v : (forall fs, above fs = true -> 4 + Z.of_nat n <= fs) -> length v = n ->
  forall rs t L, heap_inv n t -> heap_growable t = true ->
  (forall pid, 0 <= pid -> candidate above t pid -> full n t pid -> pid ∈ L) -> (length L < length rs)%nat ->
  safe (heap_file_insert above false (S fuel) rs t v) (fun r => inserted n t v r.1 r.2).
Proof.
  intros Habove Hv. induction rs as [|r rs IH]; intros t L I Hg HL Hlen; [cbn in Hlen; lia|].
  rewrite heap_insert_round. apply safe_bind. eapply safe_mono; [by apply (get_page_ok n Hn2)|].
  intros [pid t1]. cbn [fst snd]. intros (I1 & G1 & Hin). destruct (hi_list _ _ I1 pid Hin) as [Hp _].
  destruct (try_page_ok n Hn t1 pid v I1 Hin Hv) as [(id & t2 & -> & Hins)|(t2 & free & -> & F1 & Hst & Hfree)];
    cbn [mbind outcome_bind]; [by eapply inserted_after|].
  destruct (struck_grows t1 pid t2 free Hst) as [G2 C2].
  { destruct (above free) eqn:Ea; [|done]. apply Habove in Ea. lia. }
  assert (grows above t t2) as G by (by etrans). destruct (grows_full t t1 pid G1 Hp F1) as [F Fc].
  eapply safe_mono; [apply (IH t2 (filter (fun x => x <> pid) L) (st_inv _ _ _ _ _ Hst))|].
  - by rewrite (gr_growable _ _ _ G).
  - intros x Hx C Fx. destruct (C2 x Hx C) as [C1 Hne], (grows_full t t2 x G Hx Fx) as [Fx' Cx].
    apply list_elem_of_filter. split; [done|]. auto.
  - assert (length (filter (fun x => x <> pid) L) < length L)%nat; [|cbn in Hlen; lia].
    apply list.length_filter_lt with pid; [|tauto]. apply HL; [done| |done]. apply Fc. by left.
  - intros [id t3]. by apply inserted_after.
Qed.

(** ** Removal *)

Lemma remove_ok within t id pid i v : heap_inv n t -> 0 <= pid -> id_page id = pid -> Z.to_nat (id_slot id) = i ->
  tuples t pid i = Some v ->
  exists t', heap_file_remove above within t id = Done (true, t') /\ heap_inv n t' /\ heap_growable t' = heap_growable t /\
    heap_data_stored t' = u64 (heap_data_stored t - Z.of_nat n) /\ tuple_set t t' pid i None.
Proof.
  intros I Hp Ep Ei Ht. unfold heap_file_remove. rewrite Ep, Ei. unfold tuples in Ht.
  destruct (page_at t pid) as [[f h]|] eqn:E; [|done]. cbn in Ht.
  destruct (page_at_ok n t pid f h I Hp E) as (F0 & Ef & Eh & P & Ls & p & Epp & Epf).
  rewrite heap_getDirNode_here by done. cbn [mbind outcome_bind]. rewrite E. cbn [of_option mbind outcome_bind]. rewrite Ht.
  destruct (heap_removeSlot_ok n h i v P Ht) as (q & -> & Q & Eq & _ & Hq). cbn [of_option mbind outcome_bind].
  rewrite (heap_freeSpace_ok n Hn1 q Q). cbn [of_option mbind outcome_bind]. set (free := 16342 - _ + _).
  rewrite (tuple_length n h i v P Ht). set (t1 := set_page _ f q).
  assert (heap_inv n (set_stored t (u64 (heap_data_stored t - Z.of_nat n)))) as I0 by (by destruct I).
  destruct (set_page_tuples n Hn _ pid f h q i None I0 Hp E Q Eq Hq) as (I1 & E1 & T1). fold t1 in I1, E1, T1.
  destruct (above free && within free); [|exists t1; done].
  unfold update_free_space_in_dir_node. rewrite heap_getDirNode_here by done. cbn [mbind outcome_bind].
  change (pointer_at t1 pid) with (pointer_at t pid). rewrite Epp. cbn [of_option mbind outcome_bind].
  destruct (set_pointer_ok n t1 pid p free I1 Hp Epp) as (I2 & Pg & _).
  eexists. split; [done|]. split; [done|]. split; [done|]. split; [done|].
  intros x j Hx. rewrite <- T1 by done. unfold tuples. by rewrite Pg.
Qed.

(** Of an identifier without tuple: nothing happens when its page exists, and
    the assertion on the directory entry fails when it does not. *)
Lemma remove_none within t id pid : heap_inv n t -> 0 <= pid -> id_page id = pid -> tuples t pid (Z.to_nat (id_slot id)) = None ->
  if decide (is_Some (page_at t pid)) then heap_file_remove above within t id = Done (false, t)
  else fails (heap_file_remove above within t id).
Proof.
  intros I Hp Ep Ht. unfold heap_file_remove. rewrite Ep. case_decide as D.
  - destruct D as [[f h] E]. destruct (page_at_ok n t pid f h I Hp E) as (_ & _ & _ & _ & Ls & _).
    rewrite heap_getDirNode_here by done. cbn [mbind outcome_bind]. rewrite E. cbn [of_option mbind outcome_bind].
    unfold tuples in Ht. rewrite E in Ht. cbn in Ht. by rewrite Ht.
  - assert (page_at t pid = None) as E by (by apply eq_None_not_Some).
    eapply fails_bind; [by apply (getDirNode_ok n above)|]. cbn beta. intros t' (_ & _ & _ & _ & _ & ->).
    by rewrite E.
Qed.

(** ** Creation *)

Lemma create_pages_ok todo : forall c t d, heap_inv n t -> dirNodes t = [d] -> node_count d = c -> (c + todo <= kDirNodeEntryCount)%nat ->
  safe (create_pages todo (Z.of_nat c) t) (fun t' => heap_inv n t' /\ grows above t t' /\
    length (pages_with_free_space t') = (length (pages_with_free_space t) + todo)%nat).
Proof.
  induction todo as [|todo IH]; intros c t d I Ed Ec Hc; cbn [create_pages].
  { cbn. split; [done|]. split; [done|lia]. }
  destruct (dir_at 0 c) as [Ei Ee]; [lia|]. cbn [Nat.mul Nat.add] in Ei, Ee.
  assert (0 <= Z.of_nat c < numSlots t) as Hr by (unfold numSlots; rewrite Ed; cbn [length]; lia).
  rewrite heap_getDirNode_here by done. cbn [mbind outcome_bind].
  destruct (pointer_exists t (Z.of_nat c) (hi_nodes _ _ I) Hr) as (d' & p & Hd & (_ & _ & Hz) & Hp & ->).
  cbn [of_option mbind outcome_bind]. assert (d' = d) as -> by (rewrite Ei, Ed in Hd; cbn in Hd; congruence).
  rewrite (proj2 (Hz _ p Hp)) by lia. cbn [Z.eqb]. apply safe_bind.
  eapply safe_mono; [eapply (put_heap_page_ok n Hn2 above t _ d I); [lia|done|lia]|]. cbn beta.
  intros t' (I' & G & El & En & d' & Hd' & Ec'). rewrite Ei in Hd'. rewrite Ed in En.
  destruct (dirNodes t') as [|d0 [|]] eqn:Ed'; [done| |done]. cbn in Hd'. injection Hd' as ->.
  replace (Z.of_nat c + 1) with (Z.of_nat (S c)) by lia.
  eapply safe_mono; [eapply (IH (S c) t' d' I' Ed'); lia|]. cbn beta. intros t2 (I2 & G2 & L2). split; [done|]. split; [by etrans|].
  rewrite L2, El, length_app. cbn. lia.
Qed.

Lemma heap_create_ok frames : NoDup frames -> 0 ∉ frames ->
  safe (create_heap frames) (fun t => heap_inv n t /\ heap_growable t = true /\ heap_data_stored t = 0 /\
    length (pages_with_free_space t) = N_pages /\ forall pid i, 0 <= pid -> tuples t pid i = None).
Proof.
  intros Hnd Hz. unfold create_heap. set (t0 := mkHeapFile _ _ _ _ _ _ _ _ _).
  assert (N_pages = 128%nat) as EN by done. destruct (dir_at 0 0) as [Ei _]; [rewrite entry_count; lia|].
  change (Z.of_nat _) with 0 in Ei.
  assert (forall todo, create_pages (S todo) 0 t0 = match frames with
    | [] => NoRoom
    | _ :: fs => create_pages (S todo) 0 (mkHeapFile [new_dir_node] ∅ fs 0 0 [] 0 true None)
    end) as Hfirst.
  { intros todo. cbn [create_pages]. unfold getDirNode. rewrite Ei. by destruct frames. }
  rewrite EN, Hfirst. clear t0 Hfirst. destruct frames as [|f fs]; [done|].
  apply list.NoDup_cons in Hnd as [Hnf Hnd].
  set (t1 := mkHeapFile [new_dir_node] ∅ fs 0 0 [] 0 true None).
  assert (forall pid, page_at t1 pid = None) as E1.
  { intros pid. unfold page_at, pointer_at. destruct (dirNodes t1 !! dir_index pid) as [d|] eqn:Ed; [|done].
    cbn [t1 dirNodes] in Ed. apply list_lookup_singleton_Some in Ed as [_ <-]. cbn [mbind option_bind].
    destruct (dataPagePointers new_dir_node !! dir_entry pid) as [p|] eqn:Ep; [|done].
    apply lookup_replicate in Ep as [-> _]. done. }
  assert (heap_inv n t1) as I1.
  { constructor; cbn [t1 dirNodes heap_frames heap_pages pages_with_free_space page_that_might_have_space next_page_to_scan];
      try done.
    - constructor; [|constructor]. split; [apply length_replicate|]. split; [cbn; lia|]. intros i p Hi.
      apply lookup_replicate in Hi as [-> _]. cbn. split; [lia|done].
    - split; [cbn; lia|]. cbn [length]. assert (Z.of_nat kDirArraySize = 8192) by done. lia.
    - intros pid p Hp Ep Hnz. exfalso. unfold pointer_at in Ep. cbn [t1 dirNodes] in Ep.
      apply bind_Some in Ep as (d & Ed & Ep). apply list_lookup_singleton_Some in Ed as [_ <-].
      apply lookup_replicate in Ep as [-> _]. by destruct Hnz.
    - split; [done|]. intros g Hg. split; [|done]. intros ->. apply Hz. by right.
    - intros pid Hx. by apply not_elem_of_nil in Hx. }
  eapply safe_mono; [eapply (create_pages_ok 128 0 t1 new_dir_node I1); [done|done|]|].
  { rewrite entry_count. lia. }
  cbn beta. intros t (I & G & L). split; [done|]. split; [by rewrite (gr_growable _ _ _ G)|].
  split; [by rewrite (gr_stored _ _ _ G)|]. split; [done|]. intros pid i Hp.
  rewrite (grows_tuples above t1 t pid i G Hp). unfold tuples. by rewrite E1.
Qed.
End ops.
