(* ===== verification/HeapFileScan.v ===== *)
(** The scan of the heap file visits its tuples, in the order of their
    identifiers, and counting agrees with it. *)
From stdpp Require Import gmap.
From Stdlib Require Import Sorted.
From S2P Require Import Prelude Outcome BTreeNode HeapPage HeapFile HeapFileInv.
Local Open Scope Z_scope.

Opaque kDirNodeEntryCount kDirArraySize N_pages.

(** * The tuples as a list *)

Fixpoint slot_tuples (pid : Z) (m : mem) (l : list HeapSlot) (i : Z) : list (Z * list Z) :=
  match l with
  | [] => []
  | x :: l =>
      if decide (slot_status x = OCCUPIED) then (MakeTupleId pid i, slot_payload m x) :: slot_tuples pid m l (i + 1)
      else slot_tuples pid m l (i + 1)
  end.

Definition page_tuples (t : HeapFile) (pid : Z) : list (Z * list Z) :=
  match page_at t pid with Some (_, h) => slot_tuples pid (heap_bytes h) (heap_slots h) 0 | None => [] end.

Definition heap_tuples (t : HeapFile) : list (Z * list Z) := flat_map (page_tuples t) (heap_pids t).

(** A callback run over a list until it says to stop. *)
Fixpoint run_callback {S} (cb : S -> list Z -> Z -> S * bool) (l : list (Z * list Z)) (s : S) : S * bool :=
  match l with
  | [] => (s, true)
  | (id, v) :: l => let (s, continue) := cb s v id in if continue : bool then run_callback cb l s else (s, false)
  end.

Section run.
Context {S : Type} (cb : S -> list Z -> Z -> S * bool).

Lemma run_app l1 l2 s : run_callback cb (l1 ++ l2) s =
  let (s1, continue) := run_callback cb l1 s in if continue : bool then run_callback cb l2 s1 else (s1, false).
Proof.
  revert s. induction l1 as [|[id v] l1 IH]; intros s; cbn; [done|]. destruct (cb s v id) as [s1 []]; [apply IH|done].
Qed.

Lemma scan_slots_run pid m l : forall i s, scan_slots cb pid m l i s = run_callback cb (slot_tuples pid m l i) s.
Proof.
  induction l as [|x l IH]; intros i s; cbn; [done|]. case_decide; cbn; [|apply IH].
  destruct (cb s _ _) as [s1 []]; [apply IH|done].
Qed.

Lemma scan_pages_run t todo : forall pid s, scan_pages cb t todo pid s =
  (run_callback cb (flat_map (page_tuples t) (map (fun i => pid + Z.of_nat i) (seq 0 todo))) s).1.
Proof.
  induction todo as [|todo IH]; intros pid s; cbn [scan_pages seq map flat_map]; [done|].
  rewrite Z.add_0_r, run_app. unfold scanPage. replace (page_tuples t pid) with
    (match page_at t pid with Some (_, h) => slot_tuples pid (heap_bytes h) (heap_slots h) 0 | None => [] end) by done.
  assert (map (fun i => pid + Z.of_nat i) (seq 1 todo) = map (fun i => pid + 1 + Z.of_nat i) (seq 0 todo)) as ->.
  { rewrite <- seq_shift, map_map. apply map_ext. lia. }
  destruct (page_at t pid) as [[f h]|].
  - rewrite scan_slots_run. destruct (run_callback cb _ s) as [s1 []]; [apply IH|done].
  - cbn. apply IH.
Qed.

Lemma scan_run t s : heap_file_scan cb t s = (run_callback cb (heap_tuples t) s).1.
Proof. unfold heap_file_scan. rewrite scan_pages_run. done. Qed.
End run.

Lemma slot_tuples_length pid m l : forall i, length (slot_tuples pid m l i) = length (filter (fun s => slot_status s = OCCUPIED) l).
Proof.
  induction l as [|x l IH]; intros i; [done|]. cbn [slot_tuples]. rewrite filter_cons. case_decide; cbn; by rewrite IH.
Qed.

Lemma countEntries_tuples t : countEntries t = Z.of_nat (length (heap_tuples t)).
Proof.
  unfold countEntries, heap_tuples. induction (heap_pids t) as [|pid l IH]; [done|]. cbn [foldr flat_map].
  rewrite length_app, Nat2Z.inj_add, <- IH. unfold page_tuples, occupied_slots.
  destruct (page_at t pid) as [[f h]|]; [by rewrite slot_tuples_length|]. cbn. lia.
Qed.

Lemma slot_tuples_spec pid m l : forall i id v, (id, v) ∈ slot_tuples pid m l i <->
  exists k s, l !! k = Some s /\ slot_status s = OCCUPIED /\ id = MakeTupleId pid (i + Z.of_nat k) /\ v = slot_payload m s.
Proof.
  induction l as [|x l IH]; intros i id v.
  { cbn. split; [intros H; by apply not_elem_of_nil in H|]. by intros (k & s & H & _). }
  assert ((exists k s, (x :: l) !! k = Some s /\ slot_status s = OCCUPIED /\ id = MakeTupleId pid (i + Z.of_nat k) /\ v = slot_payload m s) <->
    (slot_status x = OCCUPIED /\ id = MakeTupleId pid i /\ v = slot_payload m x) \/
    exists k s, l !! k = Some s /\ slot_status s = OCCUPIED /\ id = MakeTupleId pid (i + 1 + Z.of_nat k) /\ v = slot_payload m s) as ->.
  { split.
    - intros ([|k] & s & Hk & H1 & H2 & H3); cbn in Hk.
      + left. injection Hk as ->. rewrite Z.add_0_r in H2. done.
      + right. exists k, s. split; [done|]. split; [done|]. split; [|done]. rewrite H2. f_equal. lia.
    - intros [(H1 & H2 & H3)|(k & s & Hk & H1 & H2 & H3)].
      + exists 0%nat, x. rewrite Z.add_0_r. done.
      + exists (S k), s. split; [done|]. split; [done|]. split; [|done]. rewrite H2. f_equal. lia. }
  cbn [slot_tuples]. rewrite <- IH. case_decide as D.
  - rewrite elem_of_cons. split; intros [H|H]; auto; left; [by injection H as -> ->|]. destruct H as (_ & -> & ->). done.
  - split; [by right|]. by intros [[H _]|H].
Qed.

Section scan.
Context (n : nat) (Hn : 12 <= Z.of_nat n < 2 ^ 14).

Lemma heap_tuples_lookup t id v : heap_inv n t -> in_width 32 id ->
  (id, v) ∈ heap_tuples t <-> heap_file_lookup t id = Some v.
Proof.
  intros I Hid. rewrite (lookup_tuples n t id I Hid). destruct (id_parts id Hid) as (Hp & Hs & Eid).
  pose proof (numSlots_bound n t I) as Hns. unfold heap_tuples. rewrite list_elem_of_In, in_flat_map. split.
  - intros (pid & Hpid & Hin). apply list_elem_of_In in Hin. apply in_map_iff in Hpid as (k & <- & Hk). apply in_seq in Hk.
    unfold page_tuples in Hin. destruct (page_at t (Z.of_nat k)) as [[f h]|] eqn:E; [|by apply not_elem_of_nil in Hin].
    apply slot_tuples_spec in Hin as (j & s & Hj & Hst & Ej & Ev).
    destruct (page_at_ok n t (Z.of_nat k) f h I ltac:(lia) E) as (_ & _ & _ & P & _).
    destruct (make_parts (Z.of_nat k) (0 + Z.of_nat j)) as (_ & E1 & E2); [lia| |].
    { apply (slot_fits n Hn h); [done|]. by apply lookup_lt_Some in Hj. }
    rewrite Ej, E1, E2. unfold tuples. rewrite E. cbn [mbind option_bind]. rewrite Z.add_0_l, Nat2Z.id. unfold tuple_at.
    rewrite Hj. cbn [mbind option_bind]. rewrite decide_True by done. by rewrite Ev.
  - intros Ht. unfold tuples in Ht. destruct (page_at t (id_page id)) as [[f h]|] eqn:E; [|done]. cbn [mbind option_bind] in Ht.
    destruct (page_at_ok n t (id_page id) f h I ltac:(lia) E) as (_ & _ & _ & P & L & _).
    exists (id_page id). split; [apply in_map_iff; exists (Z.to_nat (id_page id)); split; [lia|apply in_seq; lia]|].
    apply list_elem_of_In. unfold page_tuples. rewrite E. apply slot_tuples_spec. unfold tuple_at in Ht.
    destruct (heap_slots h !! Z.to_nat (id_slot id)) as [s|] eqn:Hj; [|done]. cbn [mbind option_bind] in Ht.
    case_decide as D; [|done]. injection Ht as <-. exists (Z.to_nat (id_slot id)), s. split; [done|]. split; [done|].
    split; [|done]. rewrite make_sum by lia. lia.
Qed.

(** ** Order *)

Lemma slot_tuples_sorted pid m l : 0 <= pid < 2 ^ 22 -> forall i, 0 <= i -> i + Z.of_nat (length l) <= 1024 ->
  StronglySorted Z.lt (map fst (slot_tuples pid m l i)) /\
  Forall (fun id => pid * 1024 + i <= id < (pid + 1) * 1024) (map fst (slot_tuples pid m l i)).
Proof.
  intros Hp. induction l as [|x l IH]; intros i Hi Hl; cbn [slot_tuples length] in *; [split; constructor|].
  destruct (IH (i + 1)) as [IS IF]; [lia|lia|].
  assert (Forall (fun id => pid * 1024 + i <= id < (pid + 1) * 1024) (map fst (slot_tuples pid m l (i + 1)))) as IF'.
  { eapply list.Forall_impl; [exact IF|]. cbn beta. lia. }
  case_decide; [|done]. cbn [map fst]. rewrite make_sum by lia. split; constructor; [done| |lia|done].
  eapply list.Forall_impl; [exact IF|]. cbn beta. lia.
Qed.

Lemma heap_sorted_app l1 l2 : StronglySorted Z.lt l1 -> StronglySorted Z.lt l2 ->
  (forall x y, x ∈ l1 -> y ∈ l2 -> x < y) -> StronglySorted Z.lt (l1 ++ l2).
Proof.
  intros S1 S2 H. induction S1 as [|x l1 S1 IH F]; [done|]. cbn. constructor.
  - apply IH. intros y z Hy Hz. apply H; [by right|done].
  - apply list.Forall_app. split; [done|]. apply list.Forall_forall. intros y Hy. apply H; [by left|done].
Qed.

Lemma page_tuples_sorted t pid : heap_inv n t -> 0 <= pid ->
  StronglySorted Z.lt (map fst (page_tuples t pid)) /\
  Forall (fun id => pid * 1024 <= id < (pid + 1) * 1024) (map fst (page_tuples t pid)).
Proof.
  intros I Hp. unfold page_tuples. destruct (page_at t pid) as [[f h]|] eqn:E; [|split; constructor].
  destruct (page_at_ok n t pid f h I Hp E) as (_ & _ & _ & P & L & _). pose proof (numSlots_bound n t I) as Hns.
  pose proof (page_small n h P) as Hsm. unfold heap_count in Hsm.
  destruct (slot_tuples_sorted pid (heap_bytes h) (heap_slots h) ltac:(lia) 0) as [HS HF]; [lia|nia|].
  split; [done|]. eapply list.Forall_impl; [exact HF|]. cbn beta. lia.
Qed.

Lemma heap_tuples_sorted t : heap_inv n t -> StronglySorted Z.lt (map fst (heap_tuples t)).
Proof.
  intros I. unfold heap_tuples, heap_pids. generalize (Z.to_nat (numSlots t)). intros k.
  cut (forall j, StronglySorted Z.lt (map fst (flat_map (page_tuples t) (map Z.of_nat (seq j k)))) /\
    Forall (fun id => Z.of_nat j * 1024 <= id) (map fst (flat_map (page_tuples t) (map Z.of_nat (seq j k))))).
  { intros H. apply H. }
  induction k as [|k IH]; intros j; cbn [seq map flat_map]; [split; constructor|].
  destruct (IH (S j)) as [IS IF], (page_tuples_sorted t (Z.of_nat j) I) as [PS PF]; [lia|]. rewrite map_app. split.
  - apply heap_sorted_app; [done|done|]. intros x y Hx Hy.
    pose proof (proj1 (list.Forall_forall _ _) PF x Hx). pose proof (proj1 (list.Forall_forall _ _) IF y Hy). cbn beta in *. lia.
  - apply list.Forall_app. split; (eapply list.Forall_impl; [eassumption|]); cbn beta; lia.
Qed.
End scan.
