(* ===== verification/HeapFileProps.v ===== *)
(** What the heap file promises: a map from identifiers to tuples. *)
From stdpp Require Import gmap.
From Stdlib Require Import Sorted.
From S2P Require Import Prelude Outcome BTreeNode HeapPage HeapFile HeapFileInv HeapFileSteps HeapFileOps HeapFileScan.
Local Open Scope Z_scope.

Opaque kDirNodeEntryCount kDirArraySize N_pages.

(** The file [t] of tuples of [n] bytes holds the tuples [m], by identifier. *)
Record represents (n : nat) (t : HeapFile) (m : gmap Z (list Z)) : Prop := Represents {
  rp_inv : heap_inv n t;
  rp_lookup : forall id, in_width 32 id -> heap_file_lookup t id = m !! id;
  rp_width : forall id v, m !! id = Some v -> in_width 32 id;
  rp_stored : heap_data_stored t = u64 (Z.of_nat (n * size m)) }.

Lemma u64_sub a b : u64 (u64 a - b) = u64 (a - b).
Proof. unfold wrap. apply Zminus_mod_idemp_l. Qed.

Section props.
Context (n : nat) (Hn : 12 <= Z.of_nat n <= 16338) (above within : Z -> bool).
Let Hn1 : 1 <= Z.of_nat n < 2 ^ 14.
Proof. lia. Qed.
Let Hn2 : 12 <= Z.of_nat n < 2 ^ 14.
Proof. lia. Qed.

(** A change to one slot is a change to one identifier. *)
Lemma lookup_set t t' pid i id v : heap_inv n t -> heap_inv n t' -> tuple_set t t' pid i v ->
  id_page id = pid -> Z.to_nat (id_slot id) = i -> in_width 32 id ->
  forall id', in_width 32 id' -> heap_file_lookup t' id' = if decide (id' = id) then v else heap_file_lookup t id'.
Proof.
  intros I I' T Ep Ei Hid id' Hid'. rewrite !(lookup_tuples n) by done.
  destruct (id_parts id Hid) as (_ & Hs & E), (id_parts id' Hid') as (Hp' & Hs' & E').
  rewrite T by lia. destruct (decide (id' = id)) as [->|Hne]; [by rewrite decide_True|]. rewrite decide_False; [done|].
  intros [E1 E2]. apply Hne. lia.
Qed.

Lemma represents_set t t' m pid i id v : represents n t m -> heap_inv n t' -> tuple_set t t' pid i (Some v) ->
  id_page id = pid -> Z.to_nat (id_slot id) = i -> in_width 32 id ->
  heap_data_stored t' = u64 (Z.of_nat (n * size (<[id := v]> m))) -> represents n t' (<[id := v]> m).
Proof.
  intros [I Hl Hw Hs] I' T Ep Ei Hid Hs'. constructor; [done| | |done].
  - intros id' Hid'. rewrite (lookup_set t t' pid i id (Some v) I I' T Ep Ei Hid id' Hid'). case_decide as D.
    + subst. by rewrite lookup_insert_eq.
    + rewrite lookup_insert_ne by done. by apply Hl.
  - intros id' v' E. destruct (decide (id' = id)) as [->|D]; [done|]. rewrite lookup_insert_ne in E by done. by eapply Hw.
Qed.

Lemma heap_create_represents frames : NoDup frames -> 0 ∉ frames ->
  safe (create_heap frames) (fun t => represents n t ∅ /\ heap_growable t = true).
Proof.
  intros H1 H2. eapply safe_mono; [by apply (heap_create_ok n Hn (fun _ => true))|]. cbn beta. intros t (I & Hg & Hs & _ & Ht).
  split; [|done]. constructor; [done| |done|by rewrite Hs, map_size_empty, Nat.mul_0_r].
  intros id Hid. rewrite (lookup_tuples n) by done. rewrite Ht; [done|]. apply id_parts in Hid. lia.
Qed.

Lemma insert_represents fuel rs t m v : (forall fs, above fs = true -> 4 + Z.of_nat n <= fs) ->
  represents n t m -> heap_growable t = true -> length v = n -> numSlots t < Z.of_nat (length rs) ->
  safe (heap_file_insert above false (S fuel) rs t v) (fun r => m !! r.1 = None /\ represents n r.2 (<[r.1 := v]> m) /\
    heap_growable r.2 = true).
Proof.
  intros Ha R Hg Hv Hr. destruct R as [I Hl Hw Hs] eqn:ER. eapply safe_mono.
  { eapply (file_insert_ok n Hn above fuel v Ha Hv rs t (heap_pids t) I Hg); [|unfold heap_pids; rewrite length_map, length_seq; pose proof (numSlots_bound n t I); lia].
    intros pid Hp _ (f & h & E & _). destruct (page_at_ok n t pid f h I Hp E) as (_ & _ & _ & _ & L & _).
    apply list_elem_of_In, in_map_iff. exists (Z.to_nat pid). split; [lia|]. apply in_seq. lia. }
  intros [id t']. cbn [fst snd]. intros (I' & Hg' & Hs' & pid & i & -> & Hp & Hi & Hnone & T).
  pose proof (numSlots_bound n t' I') as Hns. destruct (make_parts pid (Z.of_nat i)) as (W & E1 & E2); [lia|done|].
  assert (m !! MakeTupleId pid (Z.of_nat i) = None) as Hm.
  { rewrite <- Hl, (lookup_tuples n), E1, E2, Nat2Z.id by done. done. }
  split; [done|]. split; [|by rewrite Hg']. eapply represents_set; [exact R|done|done|done|rewrite E2; apply Nat2Z.id|done|].
  rewrite Hs', Hs, map_size_insert_None by done. rewrite wrap_wrap_add. f_equal. lia.
Qed.

Lemma update_represents t m id f : represents n t m -> in_width 32 id -> (forall v, length v = n -> length (f v) = n) ->
  match m !! id with
  | Some v => exists t', heap_file_update t id f = Some t' /\ represents n t' (<[id := f v]> m) /\ heap_growable t' = heap_growable t
  | None => heap_file_update t id f = None
  end.
Proof.
  intros R Hid Hf. destruct R as [I Hl Hw Hs] eqn:ER. pose proof (Hl id Hid) as E. rewrite (lookup_tuples n) in E by done.
  destruct (id_parts id Hid) as (Hp & Hsl & _). destruct (m !! id) as [v|] eqn:Em.
  - destruct (heap_update_ok n Hn t id (id_page id) _ f v I ltac:(lia) eq_refl eq_refl Hf E) as (t' & E' & I' & Hg & Hs' & T).
    exists t'. split; [done|]. split; [|done]. eapply represents_set; try done. rewrite Hs', Hs, map_size_insert_Some by done.
    done.
  - unfold heap_file_update. unfold tuples in E. destruct (_ <=? _); [done|].
    destruct (page_at t (id_page id)) as [[fr h]|]; [|done]. cbn [mbind option_bind] in *. unfold tuple_at in E.
    destruct (heap_slots h !! _) as [s|]; [|done]. cbn [mbind option_bind] in *. by case_decide.
Qed.

Lemma remove_represents t m id v : represents n t m -> m !! id = Some v ->
  exists t', heap_file_remove above within t id = Done (true, t') /\ represents n t' (delete id m) /\
    heap_growable t' = heap_growable t.
Proof.
  intros [I Hl Hw Hs] Em. pose proof (Hw id v Em) as Hid. pose proof (Hl id Hid) as E. rewrite (lookup_tuples n), Em in E by done.
  destruct (id_parts id Hid) as (Hp & Hsl & _).
  destruct (remove_ok n Hn above within t id (id_page id) _ v I ltac:(lia) eq_refl eq_refl E) as (t' & E' & I' & Hg & Hs' & T).
  exists t'. split; [done|]. split; [|done]. constructor; [done| | |].
  - intros id' Hid'. rewrite (lookup_set t t' (id_page id) _ id None I I' T eq_refl eq_refl Hid id' Hid'). case_decide as D.
    + subst. by rewrite lookup_delete_eq.
    + rewrite lookup_delete_ne by done. by apply Hl.
  - intros id' v' E1. apply lookup_delete_Some in E1 as [_ E1]. by eapply Hw.
  - rewrite Hs', Hs, u64_sub. f_equal. rewrite map_size_delete_Some by (by eexists).
    assert (size m <> 0%nat) by (intros E0; apply map_size_empty_inv in E0; subst; by rewrite lookup_empty in Em). nia.
Qed.

(** ** The scan *)

Lemma tuples_width t id v : (id, v) ∈ heap_tuples t -> in_width 32 id.
Proof.
  unfold heap_tuples. rewrite list_elem_of_In, in_flat_map. intros (pid & _ & Hin). apply list_elem_of_In in Hin.
  unfold page_tuples in Hin. destruct (page_at t pid) as [[f h]|]; [|by apply not_elem_of_nil in Hin].
  apply slot_tuples_spec in Hin as (k & s & _ & _ & -> & _). by apply wrap_in_width.
Qed.

Lemma tuples_nodup t : heap_inv n t -> NoDup (heap_tuples t).*1.
Proof.
  intros I. pose proof (heap_tuples_sorted n Hn2 t I) as Hs. change (map fst) with (fmap (M := list) (@fst Z (list Z))) in Hs.
  induction Hs as [|x l Hs IH F]; constructor; [|done]. intros Hx.
  pose proof (proj1 (list.Forall_forall _ _) F x Hx) as Hlt. cbn in Hlt. lia.
Qed.

Lemma tuples_map t m : represents n t m -> list_to_map (heap_tuples t) = m.
Proof.
  intros [I Hl Hw _]. apply map_eq. intros id. apply option_eq. intros v.
  rewrite <- elem_of_list_to_map by (by apply tuples_nodup). split; intros H.
  - pose proof (tuples_width t id v H) as W. rewrite <- Hl by done. by apply (heap_tuples_lookup n Hn2).
  - pose proof (Hw id v H) as W. apply (heap_tuples_lookup n Hn2); [done|done|]. by rewrite Hl.
Qed.
End props.

(** With the assertion of [find_pages_with_free_space] an insertion stops there
    or does what it does without. *)
Lemma search_debug above fuel : forall r t,
  get_page_with_space above true fuel r t = Stuck \/ get_page_with_space above true fuel r t = get_page_with_space above false fuel r t.
Proof.
  induction fuel as [|fuel IH]; intros r t; cbn [get_page_with_space]; (destruct (page_that_might_have_space t); [by right|]);
    (destruct (_ <? 16)%nat; [|by right]); [by right|].
  unfold find_pages_with_free_space. cbn [andb]. destruct (negb _); [by left|].
  destruct (scan_dir_nodes _ _ _ _) as [t1| |]; cbn [mbind outcome_bind]; [|by right..].
  destruct (if _ && _ then _ else _) as [t2| |]; cbn [mbind outcome_bind]; [apply IH|by right..].
Qed.

Lemma insert_debug above fuel rs : forall t v,
  heap_file_insert above true fuel rs t v = Stuck \/ heap_file_insert above true fuel rs t v = heap_file_insert above false fuel rs t v.
Proof.
  induction rs as [|r rs IH]; intros t v; cbn [heap_file_insert]; [by left|].
  destruct (search_debug above fuel r t) as [-> | ->]; [by left|].
  destruct (get_page_with_space _ _ _ _ _) as [[pid t1]| |]; cbn [mbind outcome_bind]; [|by right..].
  destruct (getDirNode t1 pid) as [t2| |]; cbn [mbind outcome_bind]; [|by right..].
  destruct (page_at t2 pid) as [[f h]|]; cbn [of_option mbind outcome_bind]; [|by right].
  destruct (heap_insert h v) as [[[i|] h']|]; cbn [of_option mbind outcome_bind]; [by right| |by right].
  destruct (heap_freeSpace h') as [free|]; cbn [of_option mbind outcome_bind]; [|by right].
  destruct (update_free_space_in_dir_node _ _ _ _) as [t3| |]; cbn [mbind outcome_bind]; [apply IH|by right..].
Qed.

(** C28: the heap file is a map from identifiers to tuples of [n] bytes.  A new
    file is empty; [lookup] reads the map; [insert] returns a new identifier after
    at most one try per directory slot; [lookupForUpdate] and [remove] change and
    delete the tuple of an identifier, and [data_stored] is the sum of the sizes.
    The conditions: one thread; tuples of one size of 12 to 16338 bytes (smaller
    ones overflow the slot number, [small_tuples_collide]); a free space above the
    threshold has room for a tuple (otherwise [insert] can try full pages for
    ever, [heap_insert_livelock]); the file may grow and there is a random draw for
    each try; updates keep the size; removals of identifiers that have a tuple.
    Creation and insertion may come to [NoRoom], without a free frame or with a
    full directory.  Insertion is without the assertion that the list of pages
    with space is empty when it is refilled (HeapFile.cpp:489); with it, it stops
    there ([heap_search_asserts]) or does the same. *)
Theorem heap_file_refines n above within (Hn : 12 <= Z.of_nat n <= 16338)
  (Ha : forall fs, above fs = true -> 4 + Z.of_nat n <= fs) :
  (forall frames, NoDup frames -> 0 ∉ frames ->
     safe (create_heap frames) (fun t => represents n t ∅ /\ heap_growable t = true)) /\
  (forall t m id, represents n t m -> in_width 32 id -> heap_file_lookup t id = m !! id) /\
  (forall t m v fuel rs, represents n t m -> heap_growable t = true -> length v = n -> numSlots t < Z.of_nat (length rs) ->
     safe (heap_file_insert above false (S fuel) rs t v) (fun r =>
       m !! r.1 = None /\ represents n r.2 (<[r.1 := v]> m) /\ heap_growable r.2 = true) /\
     (heap_file_insert above true (S fuel) rs t v = Stuck \/
      heap_file_insert above true (S fuel) rs t v = heap_file_insert above false (S fuel) rs t v)) /\
  (forall t m id f, represents n t m -> in_width 32 id -> (forall v, length v = n -> length (f v) = n) ->
     match m !! id with
     | Some v => exists t', heap_file_update t id f = Some t' /\ represents n t' (<[id := f v]> m) /\
                            heap_growable t' = heap_growable t
     | None => heap_file_update t id f = None
     end) /\
  (forall t m id v, represents n t m -> m !! id = Some v ->
     exists t', heap_file_remove above within t id = Done (true, t') /\ represents n t' (delete id m) /\
                heap_growable t' = heap_growable t).
Proof.
  split; [intros; by apply heap_create_represents|]. split; [intros t m id R; apply R|].
  split; [intros; split; [by apply insert_represents|apply insert_debug]|]. split; [intros; by apply update_represents|].
  intros. by eapply remove_represents.
Qed.

Definition some_frames : list Z := map Z.of_nat (seq 1 200).

Lemma some_frames_ok : NoDup some_frames /\ 0 ∉ some_frames.
Proof.
  split; [apply (NoDup_fmap_2 Z.of_nat), NoDup_seq|].
  intros H. apply list_elem_of_In, in_map_iff in H as (k & E & Hk). apply in_seq in Hk. lia.
Qed.

(** A new file, one tuple, and the tuple read back. *)
Lemma heap_file_refines_witness : exists t0 id t1,
  create_heap some_frames = Done t0 /\ heap_file_insert (fun fs => 818 <=? fs) false 1 (replicate 300 0) t0 (replicate 100 7) = Done (id, t1) /\
  represents 100 t1 {[id := replicate 100 7]} /\ heap_file_lookup t1 id = Some (replicate 100 7).
Proof.
  assert (forall fs, 818 <=? fs = true -> 4 + Z.of_nat 100 <= fs) as Ha by (intros fs H; apply Z.leb_le in H; lia).
  destruct (heap_file_refines 100 (fun fs => 818 <=? fs) (fun fs => fs <=? 4088) ltac:(lia) Ha) as (Hc & Hl & Hi & _).
  assert (match create_heap some_frames with
          | Done t0 => match heap_file_insert (fun fs => 818 <=? fs) false 1 (replicate 300 0) t0 (replicate 100 7) with
                       | Done _ => numSlots t0 <? 300
                       | _ => false
                       end
          | _ => false
          end = true) as E by (vm_compute; reflexivity).
  specialize (Hc some_frames (proj1 some_frames_ok) (proj2 some_frames_ok)).
  destruct (create_heap some_frames) as [t0| |]; [|discriminate E..]. destruct Hc as [R0 G0].
  destruct (heap_file_insert _ _ _ _ _ _) as [[id t1]| |] eqn:E1; [|discriminate E..]. apply Z.ltb_lt in E.
  destruct (Hi t0 ∅ (replicate 100 7) 0%nat (replicate 300 0) R0 G0 eq_refl) as [H1 _]; [exact E|].
  rewrite E1 in H1. destruct H1 as (_ & R1 & _). exists t0, id, t1. split; [reflexivity|]. split; [exact E1|].
  split; [exact R1|]. rewrite (Hl t1 _ id R1); [apply lookup_insert_eq|].
  eapply (rp_width _ _ _ R1). apply lookup_insert_eq.
Defined.

(** A scan of the heap file runs the callback over all tuples in the order
    of their identifiers, until the callback ends it, and counting the entries
    counts the tuples. *)
Theorem heap_scan_exact n t m (Hn : 12 <= Z.of_nat n <= 16338) (R : represents n t m) :
  exists l, StronglySorted Z.lt (map fst l) /\ list_to_map l = m /\ countEntries t = Z.of_nat (size m) /\
    forall S (cb : S -> list Z -> Z -> S * bool) s, heap_file_scan cb t s = (run_callback cb l s).1.
Proof.
  exists (heap_tuples t). split; [apply (heap_tuples_sorted n); [lia|apply R]|]. pose proof (tuples_map n Hn t m R) as E.
  split; [done|]. split; [|intros; apply scan_run].
  rewrite countEntries_tuples, <- E, map_size_list_to_map; [done|]. apply (tuples_nodup n Hn). apply R.
Qed.

Lemma heap_scan_exact_witness : exists t, create_heap some_frames = Done t /\
  forall S (cb : S -> list Z -> Z -> S * bool) s, heap_file_scan cb t s = s.
Proof.
  pose proof (heap_create_represents 100 ltac:(lia) some_frames (proj1 some_frames_ok) (proj2 some_frames_ok)) as H.
  assert (exists t, create_heap some_frames = Done t) as [t E] by (eexists; vm_compute; reflexivity).
  rewrite E in H. destruct H as [R _]. exists t. split; [done|]. intros S cb s.
  destruct (heap_scan_exact 100 t ∅ ltac:(lia) R) as (l & _ & El & _ & Hs). rewrite Hs.
  destruct l as [|[id v] l]; [done|]. exfalso. cbn in El.
  apply (f_equal (lookup id)) in El. rewrite lookup_insert_eq, lookup_empty in El. done.
Defined.

(** Removing an identifier that has no tuple changes nothing when its page
    exists, and fails an assertion when it does not, where [lookup] answers that there is none. *)
Theorem heap_remove_unknown n above within t m id (R : represents n t m) (Hid : in_width 32 id) (Hm : m !! id = None) :
  heap_file_lookup t id = None /\
  (is_Some (page_at t (id_page id)) -> heap_file_remove above within t id = Done (false, t)) /\
  (page_at t (id_page id) = None -> fails (heap_file_remove above within t id)).
Proof.
  destruct R as [I Hl _ _]. split; [by rewrite Hl|]. destruct (id_parts id Hid) as (Hp & _ & _).
  pose proof (remove_none n above within t id (id_page id) I ltac:(lia) eq_refl) as H.
  rewrite <- (lookup_tuples n), Hl in H by done. specialize (H Hm). split; intros D; case_decide as E; try done.
  rewrite D in E. by destruct E.
Qed.

Lemma heap_remove_unknown_witness : exists t, create_heap some_frames = Done t /\
  heap_file_remove (fun _ => true) (fun _ => true) t 0 = Done (false, t) /\
  fails (heap_file_remove (fun _ => true) (fun _ => true) t (200 * 1024)).
Proof.
  assert (match create_heap some_frames with
          | Done t => match page_at t 0, page_at t 200 with Some _, None => true | _, _ => false end
          | _ => false end = true) as H by (vm_compute; reflexivity).
  pose proof (heap_create_represents 100 ltac:(lia) some_frames (proj1 some_frames_ok) (proj2 some_frames_ok)) as Hc.
  destruct (create_heap some_frames) as [t| |]; [|done..]. destruct Hc as [R _]. exists t. split; [done|].
  change (page_at t 0) with (page_at t (id_page 0)) in H.
  change (page_at t 200) with (page_at t (id_page (200 * 1024))) in H.
  destruct (heap_remove_unknown 100 (fun _ => true) (fun _ => true) t ∅ 0 R) as (_ & H1 & _); [by vm_compute|done|].
  destruct (heap_remove_unknown 100 (fun _ => true) (fun _ => true) t ∅ (200 * 1024) R) as (_ & _ & H2); [by vm_compute|done|].
  destruct (page_at t (id_page 0)) as [r|]; [|done]. destruct (page_at t (id_page (200 * 1024))); [done|].
  split; [apply H1; eauto|by apply H2].
Defined.

(** With assertions compiled in, the search for a page stops at
    [assert(pages_with_free_space.empty())] when between 1 and 15 pages are
    left: [get_page_with_space] calls it below 16. *)
Theorem heap_search_asserts above fuel r t :
  page_that_might_have_space t = None -> (0 < length (pages_with_free_space t) < 16)%nat ->
  get_page_with_space above true fuel r t = Stuck.
Proof.
  intros Em [H1 H2]. destruct fuel; cbn [get_page_with_space]; rewrite Em, (proj2 (Nat.ltb_lt _ _)) by done; [done|].
  unfold find_pages_with_free_space. by rewrite (proj2 (Nat.eqb_neq _ _)) by lia.
Qed.

(** Insertions of the same tuple into a page: the last slot. *)
Fixpoint fill_page (k : nat) (payload : list Z) (h : HeapPage) (slot : option nat) : option (option nat) :=
  match k with
  | O => Some slot
  | S k => '(slot, h) ← heap_insert h payload; fill_page k payload h slot
  end.

(** A slot number has 10 bits of an identifier, and a page more slots than that
    when tuples have fewer than 12 bytes: the 1025th tuple of 11 bytes on page 0 gets the
    identifier of slot 0 on page 1. *)
Theorem small_tuples_collide :
  fill_page 1025 (replicate 11 0) (new_heap_page 0) None = Some (Some (Z.to_nat 1024)) /\ MakeTupleId 0 1024 = MakeTupleId 1 0.
Proof. split; vm_compute; reflexivity. Qed.
