(* ===== verification/HeapFileLivelock.v ===== *)
(** The heap file whose threshold is below the size of a tuple: an insertion
    that never ends. *)
From stdpp Require Import gmap.
From S2P Require Import Prelude Outcome BTreeNode HeapPage HeapFile HeapFileInv HeapFileSteps HeapFileOps.
Local Open Scope Z_scope.


(** Inserting the same tuple [k] times; [rounds] bounds the pages tried. *)
Fixpoint insert_many (above : Z -> bool) (rounds k : nat) (v : list Z) (t : HeapFile) : outcome HeapFile :=
  match k with
  | O => Done t
  | S k => '(_, t) ← heap_file_insert above false 1 (replicate rounds 0) t v; insert_many above rounds k v t
  end.

Opaque kDirNodeEntryCount kDirArraySize.

Section jam.
Context (n : nat) (Hn : 12 <= Z.of_nat n <= 16338) (above : Z -> bool).
Implicit Types (t : HeapFile).
Let Hn1 : 1 <= Z.of_nat n < 2 ^ 14.
Proof. lia. Qed.
Let Hn2 : 12 <= Z.of_nat n < 2 ^ 14.
Proof. lia. Qed.

(** Every page is full, and what it has left is still above the threshold;
    every directory node has enough such pages for a search to stop there. *)
Record jammed (t : HeapFile) : Prop := Jammed {
  jm_inv : heap_inv n t;
  jm_full : forall pid f h, 0 <= pid -> page_at t pid = Some (f, h) ->
    removed_count (heap_slots h) = 0%nat /\ 16342 - (4 + Z.of_nat n) * Z.of_nat (heap_count h) < 4 + Z.of_nat n /\
    above (16342 - (4 + Z.of_nat n) * Z.of_nat (heap_count h)) = true;
  jm_dir : forall pid p, 0 <= pid -> pointer_at t pid = Some p -> ptr p <> 0 -> above (dir_free_space p) = true;
  jm_nodes : Forall (fun c => N_pages <= c)%nat (map node_count (dirNodes t));
  jm_next : exists k, next_page_to_scan t = Z.of_nat (k * kDirNodeEntryCount) /\ (k < length (dirNodes t))%nat }.

(** A search in a node finds all of its pages. *)
Lemma entries_all l : forall c pid, (c <= length l)%nat ->
  (forall i p, l !! i = Some p -> (i < c)%nat -> ptr p <> 0 /\ above (dir_free_space p) = true) ->
  (c <= length (entries_with_space above l pid))%nat.
Proof.
  induction l as [|p l IH]; intros c pid Hc Hl; cbn [length] in *; [lia|]. destruct c as [|c]; [lia|].
  cbn [entries_with_space]. destruct (Hl 0%nat p) as [H1 H2]; [done|lia|].
  rewrite (proj2 (Z.eqb_neq _ _) H1), H2. cbn. apply le_n_S, IH; [lia|]. intros i q Hi Hic. apply (Hl (S i)); [done|lia].
Qed.

Lemma jammed_scan t : jammed t -> exists l next, find_pages_with_free_space above false t = Done (set_lists t l next (page_that_might_have_space t)) /\
  jammed (set_lists t l next (page_that_might_have_space t)) /\ (N_pages <= length l)%nat.
Proof.
  intros [I Jf Jd Jn (k & Ek & Hk)]. unfold find_pages_with_free_space. cbn [andb].
  destruct (node_start_index k) as [Ei Ee]. rewrite <- Ek in Ei, Ee.
  assert (numSlots t <=? next_page_to_scan t = false) as Hlt.
  { apply Z.leb_gt. rewrite dir_bound by exact (hi_next _ _ I). by rewrite Ei. }
  destruct (length (dirNodes t)) as [|len] eqn:El; [lia|]. cbn [scan_dir_nodes]. rewrite Hlt, Ei, Ee.
  destruct (lookup_lt_is_Some_2 (dirNodes t) k) as [d Hd]; [lia|]. rewrite Hd. cbn [of_option mbind outcome_bind].
  rewrite scan_last by (rewrite entry_count; lia). rewrite Nat.sub_0_r, drop_0.
  destruct (proj1 (list.Forall_lookup _ _) (hi_nodes _ _ I) k d Hd) as (Hlen & Hcnt & Hz).
  rewrite take_ge by lia. set (found := entries_with_space _ _ _). set (l := _ ++ found). set (next := _ mod _).
  assert (N_pages <= length found)%nat as Hfound.
  { transitivity (node_count d).
    - apply (proj1 (list.Forall_forall _ _) Jn). apply list_elem_of_In, in_map_iff. exists d. split; [done|].
      apply list_elem_of_In. by eapply list_elem_of_lookup_2.
    - apply entries_all; [lia|]. intros i p Hi Hic. assert (ptr p <> 0) as Hnz by (rewrite (Hz i p Hi); lia). split; [done|].
      apply (Jd (Z.of_nat (k * kDirNodeEntryCount + i)) p); [lia| |done]. unfold pointer_at.
      destruct (dir_at k i) as [-> ->]; [lia|]. by rewrite Hd. }
  assert (N_pages <= length l)%nat as Hl by (unfold l; rewrite length_app; lia).
  rewrite (proj2 (Nat.leb_le _ _) Hl). cbn [mbind outcome_bind set_lists pages_with_free_space].
  rewrite (proj2 (Nat.ltb_ge _ _) Hl). cbn [andb]. exists l, next. split; [done|]. split; [|done].
  constructor; try done.
  - apply (set_lists_ok n above); [done| | |].
    + unfold next. apply Z.mod_pos_bound. pose proof (numSlots_bound n t I). lia.
    + intros x Hx. apply elem_of_app in Hx as [Hx|Hx]; [split; [by apply I|by left]|].
      apply (scan_found n above t (next_page_to_scan t) d x); [exact (hi_next _ _ I)|by rewrite Ei|].
      rewrite Ee, drop_0, take_ge by lia. done.
    + intros x Hx. apply elem_of_app. left. by apply I.
  - unfold next, numSlots. rewrite Ek, El. cbn [set_lists next_page_to_scan dirNodes]. rewrite <- Nat2Z.inj_add, <- Nat2Z.inj_mod.
    rewrite <- Nat.mul_succ_l. destruct (decide (S k = S len)) as [->|Hne].
    + exists 0%nat. split; [by rewrite Nat.Div0.mod_same|lia].
    + exists (S k). split; [|lia]. rewrite Nat.mod_small; [done|]. rewrite entry_count. lia.
Qed.

Lemma jammed_set_might t pid : jammed t -> pid ∈ pages_with_free_space t ->
  jammed (set_lists t (pages_with_free_space t) (next_page_to_scan t) (Some pid)).
Proof.
  intros [I Jf Jd Jn Jx] Hin. constructor; try done.
  apply (set_lists_ok n above); [done|exact (hi_next _ _ I)|intros x Hx; split; [by apply I|by left]|congruence].
Qed.

Lemma jammed_get fuel r t : jammed t -> exists pid t', get_page_with_space above false (S fuel) r t = Done (pid, t') /\
  jammed t' /\ pid ∈ pages_with_free_space t' /\ forall x, page_at t' x = page_at t x.
Proof.
  intros J.
  destruct (page_that_might_have_space t) as [pid|] eqn:Em.
  2: destruct (decide (16 <= length (pages_with_free_space t))%nat) as [L|L].
  3: { cbn [get_page_with_space]. rewrite Em, (proj2 (Nat.ltb_lt _ _)) by lia.
    destruct (jammed_scan t J) as (l & next & -> & J1 & Hl). cbn [mbind outcome_bind]. set (t1 := set_lists _ _ _ _) in *.
    destruct (get_page_now n above false fuel r t1 (jm_inv _ J1)) as (pid & Hin & ->).
    - intros _. cbn. assert (N_pages = 128%nat) by done. lia.
    - eexists _, _. split; [done|]. split; [by apply jammed_set_might|]. done. }
  all: destruct (get_page_now n above false (S fuel) r t (jm_inv _ J)) as (x & Hin & ->); [congruence || done|];
    eexists _, _; (split; [done|]); (split; [by apply jammed_set_might|]); done.
Qed.

(** A round on a jammed file ends in a jammed file with the same pages. *)
Lemma jammed_round fuel r t v : jammed t -> length v = n -> exists t', jammed t' /\
  (forall x, 0 <= x -> page_at t' x = page_at t x) /\
  forall rs, heap_file_insert above false (S fuel) (r :: rs) t v = heap_file_insert above false (S fuel) rs t' v.
Proof.
  intros J Hv. destruct (jammed_get fuel r t J) as (pid & t1 & Eg & J1 & Hin & Pg).
  destruct (hi_list _ _ (jm_inv _ J1) pid Hin) as [Hp [[f h] E]].
  destruct (page_at_ok n t1 pid f h (jm_inv _ J1) Hp E) as (F0 & Ef & Eh & P & Ls & _).
  destruct (jm_full _ J1 pid f h Hp E) as (Hr & Hfull & Ha).
  destruct (strike_off n t1 pid f h (16342 - (4 + Z.of_nat n) * Z.of_nat (heap_count h)) (jm_inv _ J1) Hp E) as (t2 & Eu & St).
  exists t2. split; [|split].
  - destruct J1 as [_ Jf Jd Jn (k & Ek & Hk)]. constructor.
    + apply St.
    + intros x g q Hx. rewrite (st_page _ _ _ _ _ St) by done. by apply Jf.
    + intros x p Hx Ep Hnz. destruct (st_pointer _ _ _ _ _ St x p Hx Ep) as [[-> ->]|[_ E']]; [done|by eapply Jd].
    + by rewrite (st_counts _ _ _ _ _ St).
    + exists k. rewrite (st_next _ _ _ _ _ St). split; [done|].
      by rewrite <- (length_map node_count), (st_counts _ _ _ _ _ St), length_map.
  - intros x Hx. by rewrite (st_page _ _ _ _ _ St), Pg.
  - intros rs. rewrite heap_insert_round, Eg. cbn [mbind outcome_bind]. unfold try_page.
    rewrite heap_getDirNode_here by done. cbn [mbind outcome_bind]. rewrite E. cbn [of_option mbind outcome_bind].
    rewrite (heap_insert_full n Hn1 h v P Hv Hr Hfull). cbn [of_option mbind outcome_bind].
    rewrite (set_page_same t1 f h Ef), (heap_freeSpace_ok n Hn1 h P), Hr. cbn [of_option mbind outcome_bind].
    rewrite Nat.mul_0_l, Z.add_0_r, Eu. done.
Qed.

(** ** An executable check *)

Definition page_jammed (h : HeapPage) : bool :=
  (removed_count (heap_slots h) =? 0)%nat && (16342 - (4 + Z.of_nat n) * Z.of_nat (heap_count h) <? 4 + Z.of_nat n) &&
  above (16342 - (4 + Z.of_nat n) * Z.of_nat (heap_count h)).

Definition jammedb (t : HeapFile) : bool :=
  forallb (fun pid => match page_at t pid with Some (_, h) => page_jammed h | None => true end) (heap_pids t) &&
  forallb (fun d => (N_pages <=? node_count d)%nat &&
    forallb (fun p => (ptr p =? 0) || above (dir_free_space p)) (dataPagePointers d)) (dirNodes t) &&
  (next_page_to_scan t =? 0).

Lemma jammedb_ok t : heap_inv n t -> jammedb t = true -> jammed t.
Proof.
  intros I H. apply andb_prop in H as [H H3]. apply andb_prop in H as [H1 H2].
  pose proof (proj1 (forallb_forall _ _) H1) as Hpages. pose proof (proj1 (forallb_forall _ _) H2) as Hnodes. cbn beta in *.
  constructor; [done| | | |].
  - intros pid f h Hp E. destruct (page_at_ok n t pid f h I Hp E) as (_ & _ & _ & _ & L & _).
    specialize (Hpages pid). rewrite E in Hpages. unfold page_jammed in Hpages.
    assert (In pid (heap_pids t)) as Hin by (apply in_map_iff; exists (Z.to_nat pid); split; [lia|apply in_seq; lia]).
    apply Hpages in Hin. apply andb_prop in Hin as [Hin ?]. apply andb_prop in Hin as [E1 E2].
    apply Nat.eqb_eq in E1. apply Z.ltb_lt in E2. done.
  - intros pid p Hp E Hnz. unfold pointer_at in E. apply bind_Some in E as (d & Ed & E).
    destruct (andb_prop _ _ (Hnodes d ltac:(apply list_elem_of_In; by eapply list_elem_of_lookup_2))) as [_ Hd].
    pose proof (proj1 (forallb_forall _ _) Hd p) as Hpt. cbn beta in Hpt. rewrite (proj2 (Z.eqb_neq _ _) Hnz) in Hpt.
    apply Hpt, list_elem_of_In. by eapply list_elem_of_lookup_2.
  - apply list.Forall_forall. intros c Hc. apply list_elem_of_In, in_map_iff in Hc as (d & <- & Hd).
    destruct (andb_prop _ _ (Hnodes d Hd)) as [Hc _]. by apply Nat.leb_le.
  - exists 0%nat. apply Z.eqb_eq in H3. split; [done|]. pose proof (hi_some _ _ I). lia.
Qed.

(** ** Insertions keep the invariant, whatever the threshold *)

Lemma insert_keeps_inv fuel v : length v = n -> forall rs t id t', heap_inv n t -> heap_growable t = true ->
  heap_file_insert above false (S fuel) rs t v = Done (id, t') -> heap_inv n t' /\ heap_growable t' = true.
Proof.
  intros Hv. induction rs as [|r rs IH]; intros t id t' I Hg E; [done|]. rewrite heap_insert_round in E.
  pose proof (get_page_ok n Hn2 above fuel r t I Hg) as Hget.
  destruct (get_page_with_space above false (S fuel) r t) as [[pid t1]| |]; [|done..]. cbn [mbind outcome_bind] in E.
  destruct Hget as (I1 & G1 & Hin). cbn [fst snd] in *. pose proof (gr_growable _ _ _ G1) as Hg1.
  destruct (try_page_ok n Hn t1 pid v I1 Hin Hv) as [(id2 & t2 & E2 & I2 & Hg2 & _)|(t2 & free & E2 & _ & St & _)];
    rewrite E2 in E; cbn [mbind outcome_bind] in E.
  - injection E as <- <-. split; [done|]. by rewrite Hg2, Hg1.
  - apply (IH t2 id t' (st_inv _ _ _ _ _ St)); [|done]. by rewrite (st_growable _ _ _ _ _ St), Hg1.
Qed.

Lemma insert_many_inv rounds k v : length v = n -> forall t t', heap_inv n t -> heap_growable t = true ->
  insert_many above rounds k v t = Done t' -> heap_inv n t' /\ heap_growable t' = true.
Proof.
  intros Hv. induction k as [|k IH]; intros t t' I Hg E; cbn [insert_many] in E; [by injection E as <-|].
  destruct (heap_file_insert above false 1 (replicate rounds 0) t v) as [[id t1]| |] eqn:E1; [|done..].
  destruct (insert_keeps_inv 0 v Hv _ t id t1 I Hg E1) as [I1 Hg1]. by apply (IH t1).
Qed.

End jam.

(** [free / (EFFECTIVE_PAGE_SIZE + 0.0) >= 0.05] for a whole number *)
Definition default_threshold (free : Z) : bool := 818 <=? free.

(** 384 tuples of 5000 bytes in a new file. *)
Definition large_tuples : outcome HeapFile :=
  t ← create_heap (map Z.of_nat (seq 1 200)); insert_many default_threshold 8 384 (replicate (Z.to_nat 5000) 7) t.

Lemma small_frames : NoDup (map Z.of_nat (seq 1 200)) /\ 0 ∉ map Z.of_nat (seq 1 200).
Proof.
  split; [apply (NoDup_fmap_2 Z.of_nat), NoDup_seq|].
  intros H. apply list_elem_of_In, in_map_iff in H as (k & E & Hk). apply in_seq in Hk. lia.
Qed.

Lemma large_tuples_check : match large_tuples with Done t => jammedb (Z.to_nat 5000) default_threshold t | _ => false end = true.
Proof. vm_cast_no_check (eq_refl true). Qed.

Lemma large_tuples_jammed : exists t, large_tuples = Done t /\ heap_growable t = true /\ jammed (Z.to_nat 5000) default_threshold t.
Proof.
  pose proof large_tuples_check as H. destruct large_tuples as [t| |] eqn:E; [|done..]. exists t. split; [done|].
  unfold large_tuples in E. destruct small_frames as [F1 F2].
  pose proof (heap_create_ok (Z.to_nat 5000) ltac:(lia) default_threshold (map Z.of_nat (seq 1 200)) F1 F2) as Hc.
  destruct (create_heap (map Z.of_nat (seq 1 200))) as [t0| |]; [|done..]. cbn [mbind outcome_bind] in E.
  destruct Hc as (I & Hg & _).
  destruct (insert_many_inv (Z.to_nat 5000) ltac:(lia) default_threshold 8 384 _ (length_replicate _ _) t0 t I Hg E) as [I' Hg'].
  split; [done|]. by apply jammedb_ok.
Qed.

(** With the default threshold an insertion can go on forever: 384 tuples of
    5000 bytes fill the first 128 pages but leave 1330 bytes in each, which is
    above the threshold, so that the search for pages with space finds them
    again and again and never makes new ones.  After any number of rounds the
    next insertion is where it started, with the same pages. *)
Theorem heap_insert_livelock : exists t, large_tuples = Done t /\ heap_growable t = true /\
  forall v fuel rs, length v = Z.to_nat 5000 -> exists t', (forall pid, 0 <= pid -> page_at t' pid = page_at t pid) /\
    forall rs', heap_file_insert default_threshold false (S fuel) (rs ++ rs') t v =
      heap_file_insert default_threshold false (S fuel) rs' t' v.
Proof.
  destruct large_tuples_jammed as (t & E & Hg & J). exists t. split; [done|]. split; [done|].
  intros v fuel rs Hv. clear E Hg. revert t J. induction rs as [|r rs IH]; intros t J; [by exists t|].
  destruct (jammed_round (Z.to_nat 5000) ltac:(lia) default_threshold fuel r t v J Hv) as (t1 & J1 & P1 & E1).
  destruct (IH t1 J1) as (t2 & P2 & E2). exists t2. split; [intros pid Hp; by rewrite P2, P1|].
  intros rs'. cbn [app]. by rewrite E1, E2.
Qed.
