(* ===== verification/IndexedHeapFile.v ===== *)
(** A heap file with a B-tree over it
    (src/backend/leanstore/storage/heap/HeapFile.hpp and .cpp,
    [IndexedHeapFile]): definitions, and that it is an ordered map.

    The tree maps a key to the identifier of a tuple, the tuple is the key
    followed by the value.  Operations run one after the other: the lock on the
    key is free, and a read is valid at once. *)
From stdpp Require Import sorting gmap.
From S2P Require Import Prelude Outcome BTreeNode BTreeNodeOps BTreeInterface HeapPage HeapFile HeapFileInv HeapFileProps.
Local Open Scope Z_scope.

Record IndexedHeapFile (T : Type) := mkIndexed { ih_heap : HeapFile; ih_index : T }.
Arguments mkIndexed {T}.
Arguments ih_heap {T}.
Arguments ih_index {T}.

(** The bytes of a [HeapTupleId]. *)
Definition tid_bytes (id : Z) : list Z := to_le 4 id.

Section operations.
Context {T : Type} `{BTreeInterface T} (above within : Z -> bool).
Implicit Types (s : IndexedHeapFile T).

Definition ih_set_heap s (h : HeapFile) : IndexedHeapFile T := mkIndexed h (ih_index s).
Definition ih_set_index s (t : T) : IndexedHeapFile T := mkIndexed (ih_heap s) t.

(** The lookup in the tree that captures the identifier. *)
Definition index_lookup s (key : list Z) : outcome (option Z * IndexedHeapFile T) :=
  let (t, r) := lookup (ih_index s) key (fun v => (v, v)) in
  match r with
  | None => Done (None, ih_set_index s t)
  | Some v => if (length v =? 4)%nat then Done (Some (of_le v), ih_set_index s t) else Stuck
  end.

(** [tuple + key_length] with [tuple_length - key_length]; behind the end of
    a tuple shorter than the key there is nothing to read. *)
Definition value_of (klen : nat) (tuple : list Z) : outcome (list Z) :=
  if (klen <=? length tuple)%nat then Done (drop klen tuple) else Stuck.

Definition ih_lookup s (key : list Z) : outcome (option (list Z) * IndexedHeapFile T) :=
  '(r, s) ← index_lookup s key;
  match r with
  | None => Done (None, s)
  | Some id =>
      match heap_file_lookup (ih_heap s) id with
      | None => Done (None, s)
      | Some tuple => v ← value_of (length key) tuple; Done (Some v, s)
      end
  end.

(** [callback] writes the value; [Stuck] for a failed assertion in it. *)
Definition ih_doLookupForUpdate s (key : list Z) (callback : list Z -> outcome (list Z)) : outcome (bool * IndexedHeapFile T) :=
  '(r, s) ← index_lookup s key;
  match r with
  | None => Done (false, s)
  | Some id =>
      match heap_file_lookup (ih_heap s) id with
      | None => Done (false, s)
      | Some tuple =>
          v ← value_of (length key) tuple;
          w ← callback v;
          h ← of_option (heap_file_update (ih_heap s) id (fun tuple => take (length key) tuple ++ w));
          Done (true, ih_set_heap s h)
      end
  end.

(** [rs] and [fuel] as in [heap_file_insert]. *)
Definition ih_doInsert (fuel : nat) (rs : list Z) s (key value : list Z) : outcome (IndexedHeapFile T) :=
  '(id, h) ← heap_file_insert above false fuel rs (ih_heap s) (key ++ value);
  let (t, r) := insert (ih_index s) key (tid_bytes id) in
  if decide (r = OK) then Done (mkIndexed h t) else Stuck.

(** [memcpy(tuple, value, value_length)] behind its assertion *)
Definition replace_value (value v : list Z) : outcome (list Z) :=
  if (length v =? length value)%nat then Done value else Stuck.

Definition ih_upsert (fuel : nat) (rs : list Z) s (key value : list Z) : outcome (IndexedHeapFile T) :=
  '(found, s) ← ih_doLookupForUpdate s key (replace_value value);
  if found : bool then Done s else ih_doInsert fuel rs s key value.

Definition ih_insert (fuel : nat) (rs : list Z) s (key value : list Z) : outcome (IndexedHeapFile T) :=
  ih_doInsert fuel rs s key value.

Definition ih_lookupForUpdate s (key : list Z) (callback : list Z -> outcome (list Z)) : outcome (bool * IndexedHeapFile T) :=
  ih_doLookupForUpdate s key callback.

Definition ih_remove s (key : list Z) : outcome (bool * IndexedHeapFile T) :=
  '(r, s) ← index_lookup s key;
  match r with
  | None => Done (false, s)
  | Some id =>
      let (t, r) := remove (ih_index s) key false in
      if decide (r = OK) then
        '(removed, h) ← heap_file_remove above within (ih_heap s) id;
        if removed : bool then Done (true, mkIndexed h t) else Stuck
      else Stuck
  end.

(** The callback given to the tree's scan; [None] once an assertion failed. *)
Definition ih_scan_callback {S} (h : HeapFile) (callback : S -> list Z -> list Z -> S * bool)
    (acc : option S) (k v : list Z) : option S * list Z * bool :=
  match acc with
  | None => (None, v, false)
  | Some a =>
      if (length v =? 4)%nat then
        match heap_file_lookup h (of_le v) with
        | None => (None, v, false)
        | Some tuple =>
            if (length k <=? length tuple)%nat
            then let (a, continue) := callback a (take (length k) tuple) (drop (length k) tuple) in (Some a, v, continue)
            else (None, v, false)
        end
      else (None, v, false)
  end.

Definition ih_scanAsc {S} s (key : list Z) (callback : S -> list Z -> list Z -> S * bool) (a : S) :
    outcome (S * IndexedHeapFile T) :=
  let (t, r) := scanAsc (ih_index s) key (ih_scan_callback (ih_heap s) callback) (Some a) in
  a ← of_option r; Done (a, ih_set_index s t).

(** [scanHeapPage]; the assertion on the length is in the accumulator. *)
Definition ih_scanHeapPage {S} s (klen : nat) (pid : Z) (callback : S -> list Z -> list Z -> S * bool) (a : S) : outcome S :=
  of_option (scanPage (fun acc tuple _ =>
    match acc with
    | None => (None, false)
    | Some a => if (klen <=? length tuple)%nat
                then let (a, continue) := callback a (take klen tuple) (drop klen tuple) in (Some a, continue)
                else (None, false)
    end) (ih_heap s) pid (Some a)).1.
End operations.

(** * The map it stands for *)

(** A callback run over records until it says to stop. *)
Fixpoint visit {A} (callback : A -> list Z -> list Z -> A * bool) (l : list (list Z * list Z)) (a : A) : A :=
  match l with
  | [] => a
  | (k, v) :: l => let (a, continue) := callback a k v in if continue : bool then visit callback l a else a
  end.

Section indexed.
Context {T : Type} `{BTreeContract T} (klen vlen : nat) (above within : Z -> bool).
Implicit Types (s : IndexedHeapFile T) (M : gmap (list Z) (list Z)).
Notation n := (klen + vlen)%nat.
Context (Hlen : 12 <= Z.of_nat n <= 16338) (Hklen : (klen <= 64)%nat).

(** The records are [M]: the tree leads from each key to the tuple with its
    value, and there is no other tuple. *)
Record ih_shows s M : Prop := IhShows {
  ih_ok : ok (ih_index s);
  ih_growable : heap_growable (ih_heap s) = true;
  ih_sizes : forall k v, M !! k = Some v -> length k = klen /\ Forall is_byte k /\ length v = vlen;
  ih_tuples : exists m, represents n (ih_heap s) m /\
    (forall k v, M !! k = Some v -> exists id, m !! id = Some (k ++ v) /\ contents (ih_index s) !! k = Some (tid_bytes id)) /\
    (forall k b, contents (ih_index s) !! k = Some b -> is_Some (M !! k)) /\
    (forall id tuple, m !! id = Some tuple -> exists k v, tuple = k ++ v /\ M !! k = Some v /\
       contents (ih_index s) !! k = Some (tid_bytes id)) }.

Lemma tid_read id : in_width 32 id -> length (tid_bytes id) = 4%nat /\ of_le (tid_bytes id) = id.
Proof.
  intros Hid. split; [apply length_to_le|]. unfold tid_bytes. rewrite of_to_le. apply Z.mod_small.
  unfold in_width in Hid. change (256 ^ Z.of_nat 4) with (2 ^ 32). lia.
Qed.

Lemma tid_inj id id' : in_width 32 id -> in_width 32 id' -> tid_bytes id = tid_bytes id' -> id = id'.
Proof. intros W W' E. rewrite <- (proj2 (tid_read id W)), <- (proj2 (tid_read id' W')). by rewrite E. Qed.

Lemma index_lookup_ok s M key : ih_shows s M -> Forall is_byte key ->
  exists t, ok t /\ contents t = contents (ih_index s) /\
    match M !! key with
    | None => index_lookup s key = Done (None, ih_set_index s t)
    | Some v => exists id, index_lookup s key = Done (Some id, ih_set_index s t) /\ in_width 32 id /\
        contents (ih_index s) !! key = Some (tid_bytes id) /\
        heap_file_lookup (ih_heap s) id = Some (key ++ v)
    end.
Proof.
  intros [O G D (m & R & F & B & A)] Hk. unfold index_lookup.
  pose proof (lookup_spec _ (ih_index s) key (fun v => (v, v)) O Hk) as Sp.
  destruct (lookup _ _ _) as [t r]. destruct Sp as (Ot & Et & ->); [done|]. exists t. split; [done|].
  split; [rewrite Et; by apply alter_id|]. destruct (M !! key) as [v|] eqn:EM.
  - destruct (F key v EM) as (id & Eid & Ec). exists id. rewrite Ec. cbn [fmap option_fmap option_map fst snd].
    assert (in_width 32 id) as W by (by eapply (rp_width _ _ _ R)).
    destruct (tid_read id W) as [E1 E2]. rewrite E1, E2. cbn [Nat.eqb]. split; [done|]. split; [done|]. split; [done|].
    by rewrite (rp_lookup _ _ _ R).
  - destruct (contents (ih_index s) !! key) as [b|] eqn:Ec; [|done].
    destruct (B key b Ec) as [v Hv]. congruence.
Qed.

Lemma ih_same s M t : ih_shows s M -> ok t -> contents t = contents (ih_index s) -> ih_shows (ih_set_index s t) M.
Proof. intros [O G D (m & Hm)] Ot Et. split; [done|done|done|]. exists m. cbn [ih_index ih_heap ih_set_index]. by rewrite Et. Qed.

Lemma value_of_app (k v : list Z) : value_of (length k) (k ++ v) = Done v.
Proof. unfold value_of. rewrite (proj2 (Nat.leb_le _ _)) by (rewrite length_app; lia). by rewrite drop_app_length. Qed.

Lemma key_of_app (k k' v v' : list Z) : length k = length k' -> k ++ v = k' ++ v' -> k = k'.
Proof. intros E H1. by apply app_inj_1 in H1 as [-> _]. Qed.

Lemma ih_lookup_ok s M key : ih_shows s M -> Forall is_byte key ->
  exists s', ih_lookup s key = Done (M !! key, s') /\ ih_shows s' M.
Proof.
  intros S Hk. destruct (index_lookup_ok s M key S Hk) as (t & Ot & Et & E). exists (ih_set_index s t).
  split; [|by apply ih_same]. unfold ih_lookup. destruct (M !! key) as [v|]; [|by rewrite E].
  destruct E as (id & -> & W & _ & El). cbn [mbind outcome_bind ih_set_index ih_heap]. rewrite El, value_of_app. done.
Qed.

(** The value of a record is replaced. *)
Lemma ih_update_ok s M key callback w : ih_shows s M -> Forall is_byte key ->
  (forall v, M !! key = Some v -> callback v = Done w /\ length w = vlen) ->
  exists s', ih_doLookupForUpdate s key callback = Done (if M !! key then true else false, s') /\
    ih_shows s' (if M !! key then <[key := w]> M else M) /\ (M !! key = None -> ih_heap s' = ih_heap s).
Proof.
  intros S Hk Hc. destruct (index_lookup_ok s M key S Hk) as (t & Ot & Et & E). unfold ih_doLookupForUpdate.
  destruct (M !! key) as [v|] eqn:EM; [|exists (ih_set_index s t); rewrite E; split; [done|split; [by apply ih_same|done]]].
  destruct E as (id & -> & W & Ec & El). cbn [mbind outcome_bind ih_set_index ih_heap]. rewrite El, value_of_app.
  destruct (Hc v eq_refl) as [Ecb Hw]. cbn [mbind outcome_bind]. rewrite Ecb. cbn [mbind outcome_bind].
  destruct S as [O G D (m & R & F & B & A)]. destruct (D key v EM) as (Dk & Db & Dv).
  assert (m !! id = Some (key ++ v)) as Em by (by rewrite <- (rp_lookup _ _ _ R)).
  pose proof (update_represents n Hlen (ih_heap s) m id (fun tuple => take (length key) tuple ++ w) R W) as Hu.
  rewrite Em in Hu. destruct Hu as (h & -> & R' & G').
  { intros x Hx. rewrite length_app, length_take. lia. }
  rewrite take_app_length in R'. exists (ih_set_heap (ih_set_index s t) h). split; [done|]. split; [|done].
  split; cbn [ih_index ih_heap ih_set_heap ih_set_index]; [done|by rewrite G'| |].
  - intros k' v' [[<- <-]|[_ Hv]]%lookup_insert_Some; [done|by apply D].
  - exists (<[id := key ++ w]> m). rewrite Et. split; [done|]. split; [|split].
    + intros k' v' [[<- <-]|[Hne Hv]]%lookup_insert_Some; [exists id; by rewrite lookup_insert_eq|].
      destruct (F k' v' Hv) as (id' & E1 & E2). exists id'. rewrite lookup_insert_ne; [done|]. intros <-.
      rewrite Em in E1. injection E1 as E1. apply Hne. eapply key_of_app; [|exact E1]. by rewrite Dk, (proj1 (D k' v' Hv)).
    + intros k' b Hb. destruct (B k' b Hb) as [v' Hv']. destruct (decide (k' = key)) as [->|Hne];
        [by rewrite lookup_insert_eq|by rewrite lookup_insert_ne].
    + intros id' tuple [[<- <-]|[Hne Ht]]%lookup_insert_Some; [exists key, w; by rewrite lookup_insert_eq|].
      destruct (A id' tuple Ht) as (k' & v' & -> & Hv & Hc'). exists k', v'. split; [done|]. split; [|done].
      rewrite lookup_insert_ne; [done|]. intros <-. rewrite Ec in Hc'. apply Hne.
      apply tid_inj; [done|by eapply (rp_width _ _ _ R)|congruence].
Qed.

Context (Habove : forall fs, above fs = true -> 4 + Z.of_nat n <= fs).

(** A new record; a key that is there fails the assertion on the tree. *)
Lemma ih_insert_ok fuel rs s M key value : ih_shows s M -> Forall is_byte key -> length key = klen -> length value = vlen ->
  numSlots (ih_heap s) < Z.of_nat (length rs) ->
  match M !! key with
  | None => safe (ih_doInsert above (S fuel) rs s key value) (fun s' => ih_shows s' (<[key := value]> M))
  | Some _ => fails (ih_doInsert above (S fuel) rs s key value)
  end.
Proof.
  intros [O G D (m & R & F & B & A)] Hk Lk Lv Hr. unfold ih_doInsert.
  pose proof (insert_represents n Hlen above fuel rs (ih_heap s) m (key ++ value) Habove R G) as Hins.
  assert (safe (heap_file_insert above false (S fuel) rs (ih_heap s) (key ++ value)) (fun r => m !! r.1 = None /\
    represents n r.2 (<[r.1 := key ++ value]> m) /\ heap_growable r.2 = true)) as Hi by (apply Hins; [rewrite length_app; lia|done]).
  clear Hins. assert (forall id, small_entry key (tid_bytes id)) as Hsm.
  { intros id. split; [done|]. split; [apply to_le_bytes|]. split; [lia|]. unfold tid_bytes. rewrite length_to_le. lia. }
  destruct (M !! key) as [v|] eqn:EM.
  - eapply fails_bind; [exact Hi|]. intros [id h] _. pose proof (insert_spec (ih_index s) key (tid_bytes id) O (Hsm id)) as Sp.
    destruct (insert _ _ _) as [t r]. destruct (F key v EM) as (id0 & _ & Ec). rewrite Ec in Sp. destruct Sp as (_ & -> & _).
    by rewrite decide_False.
  - apply safe_bind. eapply safe_mono; [exact Hi|]. intros [id h]. cbn [fst snd]. intros (Hnone & R' & G').
    pose proof (insert_spec (ih_index s) key (tid_bytes id) O (Hsm id)) as Sp. destruct (insert _ _ _) as [t r].
    assert (contents (ih_index s) !! key = None) as Ec.
    { destruct (contents (ih_index s) !! key) as [b|] eqn:Ec; [|done]. destruct (B key b Ec) as [v Hv]. congruence. }
    rewrite Ec in Sp. destruct Sp as (Ot & -> & Et). rewrite decide_True by done.
    assert (in_width 32 id) as W by (eapply (rp_width _ _ _ R'); by rewrite lookup_insert_eq).
    split; cbn [ih_index ih_heap]; [done|done| |].
    + intros k' v' [[<- <-]|[_ Hv]]%lookup_insert_Some; [done|by apply D].
    + exists (<[id := key ++ value]> m). rewrite Et. split; [done|]. split; [|split].
      * intros k' v' [[<- <-]|[Hne Hv]]%lookup_insert_Some; [exists id; by rewrite !lookup_insert_eq|].
        destruct (F k' v' Hv) as (id' & E1 & E2). exists id'. rewrite !lookup_insert_ne; [done|done|congruence].
      * intros k' b [[<- <-]|[Hne Hb]]%lookup_insert_Some; [by rewrite lookup_insert_eq|].
        rewrite lookup_insert_ne by done. by eapply B.
      * intros id' tuple [[<- <-]|[Hne Ht]]%lookup_insert_Some; [exists key, value; by rewrite !lookup_insert_eq|].
        destruct (A id' tuple Ht) as (k' & v' & -> & Hv & Hc'). exists k', v'. split; [done|].
        rewrite !lookup_insert_ne by congruence. done.
Qed.

Lemma ih_remove_ok s M key : ih_shows s M -> Forall is_byte key ->
  exists s', ih_remove above within s key = Done (if M !! key then true else false, s') /\ ih_shows s' (delete key M).
Proof.
  intros S Hk. destruct (index_lookup_ok s M key S Hk) as (t & Ot & Et & E). unfold ih_remove.
  destruct (M !! key) as [v|] eqn:EM.
  2:{ exists (ih_set_index s t). rewrite E. split; [done|]. rewrite delete_id by done. by apply ih_same. }
  destruct E as (id & -> & W & Ec & El). cbn [mbind outcome_bind ih_set_index ih_heap ih_index].
  pose proof (remove_spec t key false Ot Hk) as Sp. destruct (remove _ _ _) as [t' r]. destruct Sp as (Ot' & Et' & ->).
  rewrite Et, Ec. cbn [decide]. destruct S as [O G D (m & R & F & B & A)].
  assert (m !! id = Some (key ++ v)) as Em by (by rewrite <- (rp_lookup _ _ _ R)).
  destruct (remove_represents n Hlen above within (ih_heap s) m id (key ++ v) R Em) as (h & -> & R' & G').
  exists (mkIndexed h t'). split; [done|]. destruct (D key v EM) as (Dk & _).
  split; cbn [ih_index ih_heap]; [done|by rewrite G'| |].
  - intros k' v' [_ Hv]%lookup_delete_Some. by apply D.
  - exists (delete id m). rewrite Et', Et. split; [done|]. split; [|split].
    + intros k' v' [Hne Hv]%lookup_delete_Some. destruct (F k' v' Hv) as (id' & E1 & E2). exists id'.
      rewrite !lookup_delete_ne; [done|done|]. intros <-. rewrite Em in E1. injection E1 as E1. apply Hne.
      eapply key_of_app; [|exact E1]. by rewrite Dk, (proj1 (D k' v' Hv)).
    + intros k' b [Hne Hb]%lookup_delete_Some. rewrite lookup_delete_ne by done. by eapply B.
    + intros id' tuple [Hne Ht]%lookup_delete_Some. destruct (A id' tuple Ht) as (k' & v' & -> & Hv & Hc').
      assert (key <> k') as Hk'.
      { intros <-. rewrite Ec in Hc'. apply Hne.
        apply tid_inj; [done|by eapply (rp_width _ _ _ R)|congruence]. }
      exists k', v'. by rewrite !lookup_delete_ne.
Qed.

(** ** The scan *)

Section scan.
Context {A : Type} (callback : A -> list Z -> list Z -> A * bool).

(** The value the tuple of an index entry has. *)
Definition entry_value (h : HeapFile) (e : list Z * list Z) : list Z :=
  drop (length e.1) (default [] (heap_file_lookup h (of_le e.2))).

Lemma ih_callback_visits h l : forall a,
  Forall (fun e => length e.2 = 4%nat /\ exists v, heap_file_lookup h (of_le e.2) = Some (e.1 ++ v)) l ->
  (scan_kvs (ih_scan_callback h callback) (Some a) l).1 = Some (visit callback (map (fun e => (e.1, entry_value h e)) l) a).
Proof.
  induction l as [|[k b] l IH]; intros a Hl; [done|]. inversion Hl as [|? ? [Hb [v Hv]] Hl']; subst. cbn [fst snd] in *.
  cbn [scan_kvs map visit fst snd]. unfold ih_scan_callback at 1, entry_value at 1. cbn [fst snd]. rewrite Hb, Hv.
  cbn [Nat.eqb default id from_option]. rewrite (proj2 (Nat.leb_le _ _)) by (rewrite length_app; lia).
  rewrite take_app_length, drop_app_length. destruct (callback a k v) as [a1 []]; [|done].
  specialize (IH a1 Hl'). by destruct (scan_kvs _ _ l).
Qed.

Lemma ih_callback_read_only h : read_only (ih_scan_callback h callback).
Proof. intros [a|] k v; [|done]. cbn. by repeat case_match. Qed.

(** The entries of the tree with the values they lead to are the records. *)
Lemma entries_records s M key : ih_shows s M ->
  map (fun e => (e.1, entry_value (ih_heap s) e)) (kvs_from key (contents (ih_index s))) = kvs_from key M /\
  Forall (fun e => length e.2 = 4%nat /\ exists v, heap_file_lookup (ih_heap s) (of_le e.2) = Some (e.1 ++ v))
    (kvs_from key (contents (ih_index s))).
Proof.
  intros [O G D (m & R & F & B & Al)].
  assert (forall k b, contents (ih_index s) !! k = Some b -> exists v, M !! k = Some v /\ length b = 4%nat /\
    heap_file_lookup (ih_heap s) (of_le b) = Some (k ++ v)) as Hent.
  { intros k b Hb. destruct (B k b Hb) as [v Hv]. exists v. split; [done|]. destruct (F k v Hv) as (id & E1 & E2).
    rewrite Hb in E2. assert (b = tid_bytes id) as -> by congruence. pose proof (rp_width _ _ _ R _ _ E1) as W.
    destruct (tid_read id W) as [-> ->]. by rewrite (rp_lookup _ _ _ R). }
  split.
  - apply sorted_unique; [|apply kvs_from_sorted|].
    + pose proof (kvs_from_sorted key (contents (ih_index s))) as Hs. induction Hs as [|e l Hs IH He]; cbn; constructor; [done|].
      apply list.Forall_forall. intros e' Hin. apply list_elem_of_In, in_map_iff in Hin as (e0 & <- & Hin).
      apply list_elem_of_In in Hin. exact (proj1 (list.Forall_forall _ _) He e0 Hin).
    + intros [k v]. rewrite list_elem_of_In, in_map_iff. split.
      * intros ([k' b] & E & Hin). apply list_elem_of_In, kvs_from_elem in Hin as [Hle Hb]. injection E as <- <-.
        destruct (Hent k' b Hb) as (v' & Hv & _ & Hl). apply kvs_from_elem. split; [done|]. unfold entry_value. cbn [fst snd].
        rewrite Hl. cbn [default id from_option]. by rewrite drop_app_length.
      * intros [Hle Hv]%kvs_from_elem. destruct (F k v Hv) as (i & _ & Ec). destruct (Hent k _ Ec) as (v' & Hv' & _ & Hl).
        exists (k, tid_bytes i). split; [|by apply list_elem_of_In, kvs_from_elem]. unfold entry_value. cbn [fst snd]. rewrite Hl.
        cbn [default id from_option]. rewrite drop_app_length. congruence.
  - apply list.Forall_forall. intros [k b] [_ Hb]%kvs_from_elem. destruct (Hent k b Hb) as (v & _ & H1 & H2). cbn [fst snd]. eauto.
Qed.

Lemma ih_scan_ok s M key a : ih_shows s M -> Forall is_byte key ->
  exists s', ih_scanAsc s key callback a = Done (visit callback (kvs_from key M) a, s') /\ ih_shows s' M.
Proof.
  intros S Hk. destruct (entries_records s M key S) as [Er Ef]. unfold ih_scanAsc.
  pose proof (scanAsc_spec _ (ih_index s) key (ih_scan_callback (ih_heap s) callback) (Some a) (ih_ok _ _ S) Hk
    (same_size_read_only _ (ih_callback_read_only _))) as Sp.
  destruct (scanAsc _ _ _ _) as [t r]. pose proof (ih_callback_visits (ih_heap s) _ a Ef) as Hv.
  pose proof (scan_kvs_read_only (ih_scan_callback (ih_heap s) callback) (Some a) key (contents (ih_index s))
    (ih_callback_read_only _)) as Hro.
  destruct (scan_kvs _ _ _) as [s2 l2]. destruct Sp as (Ot & -> & Et). cbn [fst snd] in *. rewrite Hv, Er.
  exists (ih_set_index s t). split; [done|]. apply ih_same; [done|done|]. by rewrite Et, Hro.
Qed.
End scan.
End indexed.

(** C29: the indexed heap file, over any tree of the B-tree contract, is an ordered
    map from keys to values: lookups, updates, upserts, insertions, removals and
    scans of the tree with the heap behind it do what they do on the map, and no
    tuple is left behind.  Inserting a key that is there fails an assertion.  The
    conditions: one thread; keys of one length of at most 64 bytes and values of
    one length, together 12 to 16338 bytes; a free space above the threshold has
    room for a tuple; a random draw for each directory slot.  Insertion and upsert
    may come to [NoRoom], and the assertion of HeapFile.cpp:489 is left out. *)
Theorem indexed_heap_refines {T} `{BTreeContract T} (klen vlen : nat) (above within : Z -> bool)
  (Hlen : 12 <= Z.of_nat (klen + vlen) <= 16338) (Hk : (klen <= 64)%nat)
  (Ha : forall fs, above fs = true -> 4 + Z.of_nat (klen + vlen) <= fs)
  (s : IndexedHeapFile T) (M : gmap (list Z) (list Z)) (key value : list Z) (fuel : nat) (rs : list Z)
  (S : ih_shows klen vlen s M) (Hb : Forall is_byte key) (Lk : length key = klen) (Lv : length value = vlen)
  (Hr : numSlots (ih_heap s) < Z.of_nat (length rs)) :
  (exists s', ih_lookup s key = Done (M !! key, s') /\ ih_shows klen vlen s' M) /\
  (exists s', ih_lookupForUpdate s key (replace_value value) = Done (if M !! key then true else false, s') /\
     ih_shows klen vlen s' (if M !! key then <[key := value]> M else M)) /\
  safe (ih_upsert above (Datatypes.S fuel) rs s key value) (fun s' => ih_shows klen vlen s' (<[key := value]> M)) /\
  match M !! key with
  | None => safe (ih_insert above (Datatypes.S fuel) rs s key value) (fun s' => ih_shows klen vlen s' (<[key := value]> M))
  | Some _ => fails (ih_insert above (Datatypes.S fuel) rs s key value)
  end /\
  (exists s', ih_remove above within s key = Done (if M !! key then true else false, s') /\
     ih_shows klen vlen s' (delete key M)) /\
  (forall A (callback : A -> list Z -> list Z -> A * bool) a, exists s',
     ih_scanAsc s key callback a = Done (visit callback (kvs_from key M) a, s') /\ ih_shows klen vlen s' M).
Proof.
  split; [by apply ih_lookup_ok|].
  assert (forall v, M !! key = Some v -> replace_value value v = Done value /\ length value = vlen) as Hc.
  { intros v Hv. unfold replace_value. destruct (ih_sizes _ _ _ _ S key v Hv) as (_ & _ & ->). by rewrite Lv, Nat.eqb_refl. }
  pose proof (ih_update_ok klen vlen Hlen Hk s M key (replace_value value) value S Hb Hc) as (s1 & E1 & S1 & H1).
  split; [by exists s1|]. pose proof (ih_insert_ok klen vlen above Hlen Hk Ha fuel rs s M key value S Hb Lk Lv Hr) as Hi.
  split; [|split; [done|]].
  - unfold ih_upsert. rewrite E1. cbn [mbind outcome_bind]. destruct (M !! key) as [v|] eqn:EM; [done|].
    pose proof (ih_insert_ok klen vlen above Hlen Hk Ha fuel rs s1 M key value S1 Hb Lk Lv) as Hi1.
    rewrite EM, (H1 eq_refl) in Hi1. by apply Hi1.
  - split; [by apply ih_remove_ok|]. intros A callback a. by apply ih_scan_ok.
Qed.

(** An empty file over an empty tree. *)
Lemma new_indexed_shows klen vlen h : represents (klen + vlen) h ∅ -> heap_growable h = true ->
  ih_shows klen vlen (mkIndexed h (mkRef ∅ false)) ∅.
Proof.
  intros R G. split; cbn [ih_index ih_heap]; [done|done|by intros k v; rewrite lookup_empty|].
  exists ∅. split; [done|]. split; [|split]; intros *; cbn; by rewrite lookup_empty.
Qed.

Lemma indexed_heap_refines_witness : exists h, create_heap some_frames = Done h /\
  safe (ih_upsert (fun fs => 818 <=? fs) 1 (replicate 300 0) (mkIndexed h (mkRef ∅ false)) (replicate 8 1) (replicate 8 2))
    (fun s => ih_shows 8 8 s {[replicate 8 1 := replicate 8 2]}).
Proof.
  assert (match create_heap some_frames with Done h => numSlots h <? 300 | _ => false end = true) as Hn by (vm_compute; reflexivity).
  pose proof (heap_create_represents 16 ltac:(lia) some_frames (proj1 some_frames_ok) (proj2 some_frames_ok)) as Hc.
  destruct (create_heap some_frames) as [h| |]; [|done..]. destruct Hc as [R G]. exists h. split; [done|].
  assert (forall fs, 818 <=? fs = true -> 4 + Z.of_nat (8 + 8) <= fs) as Ha by (intros fs H; apply Z.leb_le in H; lia).
  refine (proj1 (proj2 (proj2 (indexed_heap_refines 8 8 (fun fs => 818 <=? fs) (fun fs => fs <=? 4088) ltac:(lia) ltac:(lia) Ha
    (mkIndexed h (mkRef ∅ false)) ∅ (replicate 8 1) (replicate 8 2) 0 (replicate 300 0) _ _ _ _ _)))).
  - by apply new_indexed_shows.
  - repeat constructor; unfold is_byte; lia.
  - done.
  - done.
  - apply Z.ltb_lt in Hn. exact Hn.
Defined.
